(* ===== verification/_CoqProject ===== *)
-Q . S2P
Prelude.v
Bytes.v
Bits.v
Intset.v
NumConv.v
Dict.v
DictInv.v
DictOps.v
DictProps.v
DictScan.v
DictIter.v
DictRandom.v
Bitops.v
Object.v
HashKit.v
ObjDict.v
StringMatch.v
Lzf.v
LzfProps.v
Sds.v
Ziplist.v
ZiplistInv.v
ZiplistOps.v
ZiplistProps.v
ZiplistKit.v
Hll.v
HllDense.v
HllSparse.v
HllProps.v
HllLimits.v
SetType.v
SetProps.v
HashType.v
HashProps.v
Quicklist.v
QuicklistInv.v
QuicklistOps.v
QuicklistProps.v
QuicklistIndex.v
QuicklistLimits.v
Keyspace.v
Values.v
HllCmds.v
Protocol.v
ProtocolProps.v
KeyCmds.v
StringCmds.v
KeyspaceRules.v
Cells.v
ValueRules.v
SetCmds.v
SetRules.v
CmdSpec.v
CmdRefine.v
Commands.v
Sharding.v
World.v
SetWorld.v
SetRefine.v
SetAlgebra.v
HashCmds.v
HashWorld.v
HashRefine.v
ListCmds.v
ListWorld.v
ListRefine.v
CmdProps.v
Client.v
Sequences.v
SetServer.v
SetPop.v
HashServer.v
ListServer.v
HllServer.v
ValueServer.v
CommandTable.v
Dispatch.v
Server.v
