(* ===== verification/Prelude.v ===== *)
(** * Verification of Vire, a multi-threaded Redis-compatible server

    ** The program

    Vire (src/src) keeps the key space of Redis in memory and serves it from
    several worker threads.  Its parts, from the bottom up:

    - containers of its own: integer sets over packed byte arrays
      (vr_intset.c), incrementally rehashed hash tables (vr_dict.c), packed
      lists of strings and numbers (vr_ziplist.c), linked lists of packed ones
      whose inner nodes may be compressed (vr_quicklist.c);
    - conversions between numbers and text, glob patterns (vr_util.c), strings (dep/sds), bit
      operations on byte buffers (vr_bitops.c), hash functions (dep/dhashkit),
      LZF compression (vr_lzf_c.c, vr_lzf_d.c), HyperLogLog registers
      (vr_hyperloglog.c);
    - string objects with three encodings (vr_object.c), sets that are integer
      sets or hash tables (vr_t_set.c), hashes that are packed lists or hash
      tables (vr_t_hash.c), lists (vr_t_list.c);
    - the key space (vr_db.c): a logical database is split into internal ones by
      the CRC-16 of the key, each under its own reader-writer lock;
    - the command handlers (vr_db.c, vr_t_string.c, vr_bitops.c, vr_t_set.c,
      vr_t_hash.c, vr_t_list.c), which take the lock of their key's database, work on it and
      build the reply (vr_client.c);
    - the dispatcher (vr_command.c), which looks the command up in its table,
      checks whether it may run and calls the handler;
    - the request parser (vr_client.c), which turns the bytes of a connection
      into argument vectors for the dispatcher.

    ** How it is modelled

    A C integer is a [Z] with its wrap-around written out, memory is a list of
    bytes whose accesses return [None] out of bounds, a loop is a fixpoint over
    its data or with fuel, an assertion failure or undefined operation is
    [None] (the negation of the smallest number in quicklistIndex, LREM and
    stringObjectLen is taken to wrap instead).  Commands are computations in a state monad whose failure stands
    for a failed assertion, a panic or a misused lock.

    - Prelude: machine integers, tactics, hint databases, list lemmas.  Bytes:
      memory blocks, little endian numbers, the byte swaps of vr_util.c.  Bits:
      bitwise arithmetic.
    - Intset (vr_intset.c): the struct with its byte array and every operation;
      a fresh set followed by any insertions and removals refines a finite set.
    - NumConv (vr_util.c): ll2string, string2ll, digits10, _vr_atoi; exact
      characterisations and round trips.
    - Dict, DictInv, DictOps, DictProps (vr_dict.c): tables, rehashing, the
      invariant, each operation, and the refinement of a finite map.  DictScan:
      the cursor scan, complete while the table grows.  DictIter: iterators
      and their fingerprints.  DictRandom: random keys and samples; the
      numbers that random returns are a list.
    - Bitops (vr_bitops.c): population count, bit search, bit fields.
    - Object (vr_object.c): encodings are transparent.
    - HashKit (dep/dhashkit, vr_dict.c): hash functions and dispatchers.
    - StringMatch (vr_util.c): the glob matcher against a declarative relation.
    - Lzf, LzfProps (vr_lzf_c.c, vr_lzf_d.c): the compressor and the
      decompressor, the token format, the round trip, safety on any input.
    - Ziplist, ZiplistInv, ZiplistOps, ZiplistProps (vr_ziplist.c): entries and
      their encodings over the bytes of the block, cascading updates, every
      operation, and the refinement of a list of byte strings.  ZiplistKit: the
      same facts in the form the values built on ziplists use.
    - Quicklist, QuicklistInv, QuicklistOps, QuicklistProps, QuicklistIndex
      (vr_quicklist.c): nodes behind addresses with their links and their
      blocks, raw or compressed; the chain of nodes and what they hold;
      compression and links; the ends of the list; elements, iterators and
      ranges.  QuicklistLimits: examples of the operations no command
      uses, and where operations go wrong when used otherwise.
    - ObjDict (vr_server.c): string objects as keys of a hash table.  SetType,
      SetProps (vr_t_set.c): set values, their conversion, and the refinement
      of a finite set.  HashType, HashProps (vr_t_hash.c): hash values, their
      conversion, and the refinement of a finite map.
    - Sds (dep/sds/sds.c): cutting, quoting and splitting strings.
    - Protocol, ProtocolProps (vr_client.c, vr_worker.c): the request parser over
      the interface [Processor] of the command processor, the reads that feed it,
      and the jumps of a client between workers over the interface [Worker].
    - Hll, HllDense, HllSparse, HllProps (vr_hyperloglog.c): the registers packed
      into bytes or as a sequence of opcodes, insertion with the splitting and
      merging of opcodes and the move from one encoding to the other, merging;
      the registers are the maxima of the patterns inserted.  HllLimits: merging
      and conversion of any opcodes, also for too many registers.
    - Keyspace (vr_db.c, vr_client.c, vr_object.c): state, locks, replies, the
      database API.  KeyCmds, StringCmds: the handlers, whole.
      KeyspaceRules and Cells: weakest preconditions of the monad and the rules
      that follow one key's cell through a critical section.  CmdSpec: what the
      one-key commands promise, on values without encodings.  CmdRefine: every
      handler implements its specification.  Commands: the command table and
      the specification of all commands.  Sharding: the logical database behind
      the internal ones.  CmdProps: all commands.  Client: command sequences and
      the guarantees a client relies on.
    - Values, ValueRules: values behind an address, in the field [heap] of the
      same state, and the rules for them.  World: abstract values with sets,
      hashes and lists, the invariant.  SetCmds, SetRules, SetWorld, SetRefine,
      SetAlgebra (vr_t_set.c): the set commands, rules for their loops, their
      specifications, and that each command implements its specification.
      HashCmds, HashWorld, HashRefine (vr_t_hash.c): the same for the hash
      commands.  ListCmds, ListWorld, ListRefine (vr_t_list.c): the same for the
      list commands.  HllCmds, HllServer (vr_hyperloglog.c): PFADD, its
      specification, and strings it should not trust.  Sequences: families of commands as a type class, their sums
      and sequences.  SetServer, HashServer, ListServer: the three families,
      the flawed difference.  ValueServer: all together.  SetPop: SPOP.
    - CommandTable (vr_command.c, vr_server.c): the static table, its flags, the
      dictionary populateCommandTable builds with the hash table of Dict and the
      case-insensitive hash, and that its lookup is the search of the table.
      Dispatch (vr_command.c, vr_server.c): admission and execution of a request;
      the instances of [Processor] and [Worker].  Server: parser, dispatcher and
      handlers composed.

    ** What the theorems show

    Refinement: integer sets, hash tables, ziplists, quicklists used from both ends,
    set and hash values, HyperLogLog registers and the whole of the modelled command set implement their abstract counterparts, with every reply; for commands
    this includes that no assertion fails, no lock is misused and none is left
    held.  The composed server does so from the bytes of the connection to the
    bytes of the replies, however the network cuts them, for the commands of the
    string, bit and key families on an unrestricted master; the parser itself
    never fails, whatever the bytes.  Round trips: number conversion, object encodings, bit fields,
    compression, requests, SET and GET.  Equivalence with reference
    definitions: the CRCs, the Jenkins hash across alignments, bit reversal,
    glob matching.  Safety: the parser on any bytes and through jumps
    between workers, the decompressor on any bytes, a read-only
    slave.  Bounds: in-memory accesses (a [Some] result), INCR, bit field
    overflow.  Termination: rehashing, scans, searches.  Eleven theorems state
    defects: a scan over a shrinking table misses keys, PERSIST revives expired
    keys, SELECT narrows its argument, 64-bit signed fields shift by their
    width, a bare line feed costs the next request a byte, a pause during a big
    argument closes the connection, two glob patterns go wrong,
    a short insertion overruns a ziplist, a merge with an empty ziplist loses
    the tail, the opcodes of a HyperLogLog are checked after they are written, SDIFF is empty under its second algorithm.

    ** Bounds and fuel

    Integer sets hold up to 2^29 elements and tables up to 2^30 buckets, so
    that the 32-bit sizes of the code do not wrap.  Fuel is always enough and
    the theorems prove it: 2 for digits10, 11 for ll2string, 64 for the next
    power of two, the length plus one for binary searches and the word loops,
    7 for bit reversal, the table size plus one for scan expansions, the input
    length plus one for the compressor and the parsers, the length of the block
    plus one for ziplists, whose blocks stay below 2^32 bytes,
    the number of nodes plus two for a step of an iterator over a quicklist, the
    number of elements plus one for LREM, the length of the string plus one for
    the opcodes of a HyperLogLog, 51 for its patterns, the number of
    slots of both tables plus one for iterators, the number of pairs plus one
    for HGETALL.  Hashes take less than 4 GB as a ziplist and
    lists less than 2 GB.  Quicklists are proved a deque for every node size and
    compression depth; the list commands are refined for depth 0, which the
    server fixes, because quicklistReplaceAtIndex and the recompression flag go
    wrong in compressed lists.  Strings are bounded by
    512 MB, the limit of the protocol.  The commands are refined without DECRBY by
    LLONG_MIN and SETRANGE past LLONG_MAX, the differences of sets where the first
    algorithm is chosen, PFADD on strings that are valid if they look like a
    HyperLogLog.

    ** Not modelled

    Allocation failure; the contents of fresh memory are a parameter.  Key space
    notifications and watched keys, which are switched off.  The reference
    counts, which are constant.  Real concurrency: a command is one computation,
    and the lock discipline is what the theorems establish.  The commands on
    sorted sets, the event loops, configuration,
    persistence and replication; memory reclamation and the handlers outside
    the model are parameters of the dispatcher.  SMOVE, SRANDMEMBER and SSCAN,
    LINSERT, LPUSHX, RPUSHX, RPOPLPUSH
    and the blocking pops, which the command table does not list; insertion in
    the middle of a quicklist, its rotation and duplication are modelled but
    only evaluated on examples, since no command of the table uses them; HINCRBYFLOAT and
    the estimator of PFCOUNT, which compute with long doubles and doubles, and
    HSCAN. *)

From stdpp Require Export base tactics list numbers option sorting.
From Stdlib Require Export ZArith Lia.

Declare Scope vire_scope.
Delimit Scope vire_scope with vire.
#[global] Open Scope Z_scope.

(** ** Machine integers

    A C integer of width [w] is a [Z] kept in range by an explicit
    wrap-around.  [uwrap] is the conversion to an unsigned type, [swrap] the
    (two's complement) conversion to a signed one. *)

Definition uwrap (w : Z) (z : Z) : Z := z mod 2 ^ w.

Definition swrap (w : Z) (z : Z) : Z :=
  let u := uwrap w z in if u <? 2 ^ (w - 1) then u else u - 2 ^ w.

Abbreviation u8 := (uwrap 8).
Abbreviation u16 := (uwrap 16).
Abbreviation u32 := (uwrap 32).
Abbreviation u64 := (uwrap 64).
Abbreviation s16 := (swrap 16).
Abbreviation s32 := (swrap 32).
Abbreviation s64 := (swrap 64).

Definition INT16_MIN : Z := -32768.
Definition INT16_MAX : Z := 32767.
Definition INT32_MIN : Z := -2147483648.
Definition INT32_MAX : Z := 2147483647.
Definition LLONG_MIN : Z := -9223372036854775808.
Definition LLONG_MAX : Z := 9223372036854775807.
Definition ULLONG_MAX : Z := 18446744073709551615.

(** The length of a list as an integer. *)
Abbreviation zlen l := (Z.of_nat (length l)).

(** Booleans as the C integers 0 and 1. *)
Definition b2z (b : bool) : Z := if b then 1 else 0.

Definition isSome {A} (o : option A) : bool := match o with Some _ => true | None => false end.

(** ** Tactics *)

(** Turns boolean comparisons in the context into propositions. *)
Ltac zbool :=
  repeat match goal with
  | H : (_ <? _) = true |- _ => apply Z.ltb_lt in H
  | H : (_ <? _) = false |- _ => apply Z.ltb_ge in H
  | H : (_ <=? _) = true |- _ => apply Z.leb_le in H
  | H : (_ <=? _) = false |- _ => apply Z.leb_gt in H
  | H : (_ =? _) = true |- _ => apply Z.eqb_eq in H
  | H : (_ =? _) = false |- _ => apply Z.eqb_neq in H
  | H : (_ >? _) = true |- _ => rewrite Z.gtb_ltb in H
  | H : (_ >? _) = false |- _ => rewrite Z.gtb_ltb in H
  | H : (_ >=? _) = true |- _ => rewrite Z.geb_leb in H
  | H : (_ >=? _) = false |- _ => rewrite Z.geb_leb in H
  | H : negb _ = true |- _ => apply negb_true_iff in H
  | H : negb _ = false |- _ => apply negb_false_iff in H
  | H : (_ && _) = true |- _ => apply andb_true_iff in H as [? ?]
  | H : (_ || _) = false |- _ => apply orb_false_iff in H as [? ?]
  end.

(** Splits on every comparison the goal branches on. *)
Ltac zcase :=
  repeat match goal with
  | |- context [if (?x <? ?y) then _ else _] => destruct (Z.ltb_spec x y)
  | |- context [if (?x <=? ?y) then _ else _] => destruct (Z.leb_spec x y)
  | |- context [if (?x =? ?y) then _ else _] => destruct (Z.eqb_spec x y)
  | |- context [if (?x >? ?y) then _ else _] => rewrite (Z.gtb_ltb x y)
  | |- context [if (?x >=? ?y) then _ else _] => rewrite (Z.geb_leb x y)
  end.

(** Decides a boolean guard whose truth value follows by arithmetic. *)
Ltac zguard :=
  match goal with
  | |- context [(?x <? ?y)] =>
      first [ rewrite (proj2 (Z.ltb_lt x y)) by lia
            | rewrite (proj2 (Z.ltb_ge x y)) by lia ]
  | |- context [(?x <=? ?y)] =>
      first [ rewrite (proj2 (Z.leb_le x y)) by lia
            | rewrite (proj2 (Z.leb_gt x y)) by lia ]
  | |- context [(?x =? ?y)] =>
      first [ rewrite (proj2 (Z.eqb_eq x y)) by lia
            | rewrite (proj2 (Z.eqb_neq x y)) by lia ]
  end.

Create HintDb vire discriminated.
Create Rewrite HintDb vire_len.
#[export] Hint Rewrite @length_app @length_take @length_drop @length_replicate
  @length_insert @length_fmap @length_map @length_seq @length_reverse : vire_len.

(** Lengths of list expressions, then linear arithmetic. *)
Ltac lens := autorewrite with vire_len in *; simpl length in *; autorewrite with vire_len in *.
Ltac len := lens; lia.
Ltac nlen := lens; nia.

(** ** Wrap-around *)

Section Wrap.
Context (w : Z) (Hw : 0 < w).

Lemma uwrap_range z : 0 <= uwrap w z < 2 ^ w.
Proof using Hw. apply Z.mod_pos_bound. lia. Qed.

Lemma uwrap_small z : 0 <= z < 2 ^ w -> uwrap w z = z.
Proof. intros. by apply Z.mod_small. Qed.

Lemma uwrap_idemp z : uwrap w (uwrap w z) = uwrap w z.
Proof using Hw. apply uwrap_small, uwrap_range. Qed.

Lemma uwrap_congr z k : uwrap w (z + k * 2 ^ w) = uwrap w z.
Proof. apply Z.mod_add. lia. Qed.

Lemma pow_half : 2 ^ w = 2 * 2 ^ (w - 1).
Proof using Hw. rewrite <- Z.pow_succ_r by lia. f_equal. lia. Qed.

Lemma swrap_range z : - 2 ^ (w - 1) <= swrap w z < 2 ^ (w - 1).
Proof using Hw.
  unfold swrap. pose proof (uwrap_range z). pose proof pow_half.
  zcase; lia.
Qed.

Lemma swrap_small z : - 2 ^ (w - 1) <= z < 2 ^ (w - 1) -> swrap w z = z.
Proof using Hw.
  intros H. unfold swrap. pose proof pow_half.
  destruct (Z.leb_spec 0 z).
  - rewrite uwrap_small by lia. zcase; lia.
  - rewrite <- (uwrap_congr z 1), Z.mul_1_l, uwrap_small by lia. zcase; lia.
Qed.

Lemma uwrap_swrap z : uwrap w (swrap w z) = uwrap w z.
Proof using Hw.
  unfold swrap. zcase; [by rewrite uwrap_idemp |].
  rewrite <- (uwrap_congr (uwrap w z - 2 ^ w) 1).
  replace (uwrap w z - 2 ^ w + 1 * 2 ^ w) with (uwrap w z) by lia.
  apply uwrap_idemp.
Qed.

Lemma swrap_uwrap z : swrap w (uwrap w z) = swrap w z.
Proof using Hw. unfold swrap. by rewrite uwrap_idemp. Qed.
End Wrap.

(** ** Lists *)

Section Lists.
Context {A : Type}.
Implicit Types l k : list A.

Lemma take_drop_app l n : (n <= length l)%nat ->
  exists x y, l = x ++ y /\ length x = n.
Proof.
  intros. exists (take n l), (drop n l). rewrite take_drop. split; [done | len].
Qed.

Lemma take_app_exact l k n : length l = n -> take n (l ++ k) = l.
Proof. intros <-. by rewrite take_app_length. Qed.

Lemma drop_app_exact l k n : length l = n -> drop n (l ++ k) = k.
Proof. intros <-. by rewrite drop_app_length. Qed.

Lemma lookup_split l i x : l !! i = Some x ->
  l = take i l ++ x :: drop (S i) l.
Proof. intros. by rewrite take_drop_middle. Qed.
End Lists.

Lemma sorted_lookup {A} (R : relation A) (l : list A) i j x y : StronglySorted R l ->
  l !! i = Some x -> l !! j = Some y -> (i < j)%nat -> R x y.
Proof.
  intros Hs Hi Hj Hij. rewrite (lookup_split l i x Hi) in Hs.
  apply StronglySorted_app_1_r in Hs. apply StronglySorted_cons in Hs as [Hs _].
  rewrite Forall_lookup in Hs. apply (Hs (j - S i)%nat).
  rewrite lookup_drop, <- Hj. f_equal. lia.
Qed.

(** ** Strictly increasing lists of integers *)

Abbreviation increasing := (StronglySorted Z.lt).

Section Increasing.
Implicit Types (l : list Z) (v : Z).

Lemma increasing_lookup l i j x y : increasing l ->
  l !! i = Some x -> l !! j = Some y -> (i < j)%nat -> x < y.
Proof. apply sorted_lookup. Qed.

(** The number of elements below [v]: where [v] is, or would be inserted. *)
Definition rank v l : nat := length (filter (fun x => x < v) l).

Lemma rank_app v l1 l2 : rank v (l1 ++ l2) = (rank v l1 + rank v l2)%nat.
Proof. unfold rank. by rewrite filter_app, length_app. Qed.

Lemma rank_all v l : Forall (fun x => x < v) l -> rank v l = length l.
Proof. unfold rank. by induction 1; rewrite ?filter_cons_True; simpl; auto. Qed.

Lemma rank_none v l : Forall (fun x => v <= x) l -> rank v l = 0%nat.
Proof.
  unfold rank. induction 1; [done |]. rewrite filter_cons_False by lia. done.
Qed.

(** A split of [l] around [v] gives the rank and decides membership. *)
Lemma rank_split v l1 l2 :
  Forall (fun x => x < v) l1 -> Forall (fun x => v <= x) l2 ->
  rank v (l1 ++ l2) = length l1.
Proof. intros. rewrite rank_app, rank_all, rank_none by done. lia. Qed.

(** In an increasing list the rank splits the smaller elements from the rest. *)
Lemma rank_take_drop v l : increasing l ->
  Forall (fun x => x < v) (take (rank v l) l) /\
  Forall (fun x => v <= x) (drop (rank v l) l).
Proof.
  induction 1 as [|x l Hs IH Hx]; [done |]. destruct (decide (x < v)).
  - unfold rank. rewrite filter_cons_True by done. destruct IH. by repeat constructor.
  - rewrite rank_none; [split; [constructor |] |]; constructor; try lia.
    all: eapply Forall_impl; [exact Hx | simpl; lia].
Qed.

Lemma rank_le v l : (rank v l <= length l)%nat.
Proof. unfold rank. induction l as [|x l IH]; [done |]. rewrite filter_cons. case_decide; simpl; lia. Qed.

Definition set_insert v l : list Z :=
  if bool_decide (v ∈ l) then l else take (rank v l) l ++ v :: drop (rank v l) l.

Definition set_remove v l : list Z := filter (fun x => x <> v) l.

Lemma set_remove_id v l : v ∉ l -> set_remove v l = l.
Proof.
  intros Hv. unfold set_remove. induction l as [|x l IH]; [done |].
  apply not_elem_of_cons in Hv as [? ?]. rewrite filter_cons_True by done.
  by rewrite IH.
Qed.

Lemma set_remove_mid v l1 l2 : increasing (l1 ++ v :: l2) ->
  set_remove v (l1 ++ v :: l2) = l1 ++ l2.
Proof.
  intros Hs. unfold set_remove. rewrite filter_app, filter_cons_False by auto.
  f_equal; apply set_remove_id; intros Hin.
  - eapply (Z.lt_irrefl v), StronglySorted_app_1_elem_of; eauto. apply elem_of_cons. auto.
  - apply StronglySorted_app_1_r, StronglySorted_cons in Hs as [Hs _].
    rewrite Forall_forall in Hs. specialize (Hs v Hin). lia.
Qed.

Lemma increasing_set_insert v l : increasing l -> increasing (set_insert v l).
Proof.
  intros Hs. unfold set_insert. case_bool_decide as Hin; [done |].
  destruct (rank_take_drop v l Hs) as [Hlo Hhi]. set (n := rank v l) in *. clearbody n.
  assert (Forall (fun x => v < x) (drop n l)) as Hhi'.
  { rewrite Forall_forall in Hhi |- *. intros x Hx. specialize (Hhi x Hx).
    assert (x <> v); [|lia]. intros ->. apply Hin. rewrite <- (take_drop n l).
    apply elem_of_app. auto. }
  rewrite <- (take_drop n l) in Hs. apply StronglySorted_app_2.
  - intros x y Hx. rewrite Forall_forall in Hlo, Hhi'. specialize (Hlo x Hx).
    intros [-> | Hy]%elem_of_cons; [done |]. specialize (Hhi' y Hy). lia.
  - by apply StronglySorted_app_1_l in Hs.
  - apply StronglySorted_cons. split; [done |]. by apply StronglySorted_app_1_r in Hs.
Qed.

Lemma increasing_set_remove v l : increasing l -> increasing (set_remove v l).
Proof.
  unfold set_remove. induction 1 as [|x l Hs IH Hx]; [constructor |].
  rewrite filter_cons. case_decide; [|done]. constructor; [done |].
  rewrite Forall_forall in Hx |- *. intros y [_ Hy]%list_elem_of_filter. auto.
Qed.

Lemma Forall_set_insert P v l : P v -> Forall P l -> Forall P (set_insert v l).
Proof.
  intros Hv Hl. unfold set_insert. case_bool_decide; [done |].
  apply Forall_app. split; [by apply Forall_take |]. constructor; [done | by apply Forall_drop].
Qed.

Lemma length_set_insert v l : v ∉ l -> length (set_insert v l) = S (length l).
Proof.
  intros. unfold set_insert. rewrite bool_decide_eq_false_2 by done.
  pose proof (rank_le v l). len.
Qed.

Lemma elem_of_set_insert v x l : x ∈ set_insert v l <-> x = v \/ x ∈ l.
Proof.
  unfold set_insert. case_bool_decide as Hin.
  { split; [auto |]. by intros [-> | ?]. }
  assert (x ∈ l <-> x ∈ take (rank v l) l ++ drop (rank v l) l) as ->
    by by rewrite take_drop.
  rewrite !elem_of_app, elem_of_cons. tauto.
Qed.

Lemma elem_of_set_remove v x l : x ∈ set_remove v l <-> x <> v /\ x ∈ l.
Proof. unfold set_remove. by rewrite list_elem_of_filter. Qed.
End Increasing.
