(* ===== verification/Bytes.v ===== *)
(** * Byte buffers

    The heap blocks the packed data structures live in: a list of bytes read
    and written at integer offsets.  An access outside the block is [None], so
    a theorem that an operation returns [Some] also says that it stays inside
    the memory it owns.  Multi-byte integers are little endian, the order the
    [memrev*ifbe] macros of vr_util.h establish on every host. *)

From S2P Require Import Prelude.

(** ** Accesses *)

Definition bget (b : list Z) (i : Z) : option Z :=
  if 0 <=? i then b !! Z.to_nat i else None.

Definition bset (b : list Z) (i v : Z) : option (list Z) :=
  if (0 <=? i) && (i <? zlen b) then Some (<[Z.to_nat i := u8 v]> b) else None.

(** [n] bytes from offset [i]. *)
Definition bread (b : list Z) (i n : Z) : option (list Z) :=
  if (0 <=? i) && (0 <=? n) && (i + n <=? zlen b)
  then Some (take (Z.to_nat n) (drop (Z.to_nat i) b)) else None.

(** [memcpy(b+i, bs, |bs|)]. *)
Definition bwrite (b : list Z) (i : Z) (bs : list Z) : option (list Z) :=
  if (0 <=? i) && (i + zlen bs <=? zlen b)
  then Some (take (Z.to_nat i) b ++ bs ++ drop (Z.to_nat i + length bs) b)
  else None.

(** [memmove(b+dst, b+src, n)]. *)
Definition bmove (b : list Z) (dst src n : Z) : option (list Z) :=
  bs ← bread b src n; bwrite b dst bs.

(** [realloc(b, n)]: the common prefix is kept, the bytes past it are
    indeterminate and given by [junk]. *)
Definition brealloc (junk : nat -> Z) (b : list Z) (n : Z) : list Z :=
  take (Z.to_nat n) b ++
  map (fun i => u8 (junk i)) (seq (length b) (Z.to_nat n - length b)).

(** ** Little endian integers *)

Fixpoint le_bytes (n : nat) (v : Z) : list Z :=
  match n with
  | O => []
  | S n => u8 v :: le_bytes n (v / 256)
  end.

Fixpoint le_val (bs : list Z) : Z :=
  match bs with
  | [] => 0
  | b :: bs => b + 256 * le_val bs
  end.

(** ** Byte reversal (vr_util.c)

    [memrev16], [memrev32] and [memrev64] swap bytes in place through a
    temporary, pair by pair. *)

Definition swap_bytes (i j : nat) (x : list Z) : option (list Z) :=
  t ← x !! i;
  u ← x !! j;
  Some (<[j := t]> (<[i := u]> x)).

Definition memrev16 (x : list Z) : option (list Z) := swap_bytes 0 1 x.

Definition memrev32 (x : list Z) : option (list Z) :=
  x ← swap_bytes 0 3 x; swap_bytes 1 2 x.

Definition memrev64 (x : list Z) : option (list Z) :=
  x ← swap_bytes 0 7 x; x ← swap_bytes 1 6 x;
  x ← swap_bytes 2 5 x; swap_bytes 3 4 x.

Definition intrev16 (v : Z) : option Z := le_val <$> memrev16 (le_bytes 2 v).
Definition intrev32 (v : Z) : option Z := le_val <$> memrev32 (le_bytes 4 v).
Definition intrev64 (v : Z) : option Z := le_val <$> memrev64 (le_bytes 8 v).

(** Every byte in range. *)
Definition bytes_ok (b : list Z) : Prop := Forall (fun x => 0 <= x < 256) b.

(** ** Lemmas on little endian integers *)

Lemma u8_range v : 0 <= u8 v < 256.
Proof. apply (uwrap_range 8). lia. Qed.

Lemma length_le_bytes n v : length (le_bytes n v) = n.
Proof. revert v. induction n; intros; simpl; [done | by rewrite IHn]. Qed.

Lemma le_bytes_ok n v : bytes_ok (le_bytes n v).
Proof.
  revert v. induction n; intros; simpl; constructor; [apply u8_range | apply IHn].
Qed.

Lemma pow256_S n : 2 ^ (8 * Z.of_nat (S n)) = 256 * 2 ^ (8 * Z.of_nat n).
Proof.
  replace (8 * Z.of_nat (S n)) with (8 + 8 * Z.of_nat n) by lia.
  rewrite Z.pow_add_r by lia. done.
Qed.

Lemma pow256_pos n : 0 < 2 ^ (8 * Z.of_nat n).
Proof. apply Z.pow_pos_nonneg; lia. Qed.

Lemma le_val_bytes n v : le_val (le_bytes n v) = uwrap (8 * Z.of_nat n) v.
Proof.
  unfold uwrap. revert v. induction n as [|n IH]; intros v; cbn [le_bytes le_val].
  - change (2 ^ (8 * Z.of_nat 0)) with 1. by rewrite Z.mod_1_r.
  - pose proof (pow256_pos n). rewrite IH, pow256_S, Z.rem_mul_r by lia. done.
Qed.

Lemma le_val_range bs : bytes_ok bs -> 0 <= le_val bs < 2 ^ (8 * zlen bs).
Proof.
  induction 1 as [|b bs Hb _ IH]; cbn [le_val length]; [done |].
  rewrite pow256_S. pose proof (pow256_pos (length bs)). lia.
Qed.

Lemma le_bytes_val bs : bytes_ok bs -> le_bytes (length bs) (le_val bs) = bs.
Proof.
  induction 1 as [|b bs Hb Hbs IH]; cbn [le_bytes le_val length]; [done |].
  rewrite (Z.mul_comm 256). f_equal.
  - unfold uwrap. rewrite Z.mod_add by lia. by apply Z.mod_small.
  - rewrite Z.div_add, Z.div_small by lia. exact IH.
Qed.

Lemma le_bytes_uwrap n v : le_bytes n (uwrap (8 * Z.of_nat n) v) = le_bytes n v.
Proof.
  rewrite <- le_val_bytes. rewrite <- (length_le_bytes n v) at 1.
  apply le_bytes_val, le_bytes_ok.
Qed.

(** A signed value survives a store and a load of its width. *)
Lemma le_signed n v : (0 < n)%nat ->
  - 2 ^ (8 * Z.of_nat n - 1) <= v < 2 ^ (8 * Z.of_nat n - 1) ->
  swrap (8 * Z.of_nat n) (le_val (le_bytes n v)) = v.
Proof. intros. rewrite le_val_bytes, swrap_uwrap by lia. apply swrap_small; lia. Qed.

(** ** Lemmas on accesses, for blocks written as concatenations *)

Lemma zlen_snoc (l : list Z) b : zlen (l ++ [b]) = zlen l + 1.
Proof. len. Qed.

Lemma bget_app_r x y i : zlen x <= i -> bget (x ++ y) i = bget y (i - zlen x).
Proof.
  intros. unfold bget. do 2 zguard.
  rewrite lookup_app_r by lia. f_equal. lia.
Qed.

Lemma bget_app_l x y i : i < zlen x -> bget (x ++ y) i = bget x i.
Proof.
  intros. unfold bget. destruct (Z.leb_spec 0 i); [|done].
  apply lookup_app_l. lia.
Qed.

Lemma bget_mid x c y i : i = zlen x -> bget (x ++ c :: y) i = Some c.
Proof. intros ->. rewrite bget_app_r, Z.sub_diag by lia. done. Qed.

Lemma bset_mid x c y i v : i = zlen x ->
  bset (x ++ c :: y) i v = Some (x ++ u8 v :: y).
Proof.
  intros ->. unfold bset. rewrite length_app. simpl length.
  do 2 zguard. simpl. rewrite Nat2Z.id, insert_app_r_alt by lia.
  by rewrite Nat.sub_diag.
Qed.

Lemma bset_start c y v : bset (c :: y) 0 v = Some (u8 v :: y).
Proof. by apply (bset_mid []). Qed.

Lemma bread_mid x y z i n : i = zlen x -> n = zlen y ->
  bread (x ++ y ++ z) i n = Some y.
Proof.
  intros -> ->. unfold bread. rewrite !length_app. do 3 zguard. simpl.
  rewrite !Nat2Z.id, drop_app_length, take_app_length. done.
Qed.

Lemma bread_end x y i n : i = zlen x -> n = zlen y ->
  bread (x ++ y) i n = Some y.
Proof. intros. pose proof (bread_mid x y [] i n) as Hm. rewrite app_nil_r in Hm. auto. Qed.

Lemma bread_start y z n : n = zlen y -> bread (y ++ z) 0 n = Some y.
Proof. by apply (bread_mid []). Qed.

Lemma bwrite_mid x y z y' i : i = zlen x -> length y' = length y ->
  bwrite (x ++ y ++ z) i y' = Some (x ++ y' ++ z).
Proof.
  intros -> Hy. unfold bwrite. rewrite !length_app. do 2 zguard. simpl.
  rewrite Nat2Z.id, take_app_length, <- drop_drop, drop_app_length, Hy.
  by rewrite drop_app_length.
Qed.

Lemma bwrite_end x y y' i : i = zlen x -> length y' = length y ->
  bwrite (x ++ y) i y' = Some (x ++ y').
Proof. intros. pose proof (bwrite_mid x y [] y' i) as Hm. rewrite !app_nil_r in Hm. auto. Qed.

Lemma bwrite_start y z y' : length y' = length y -> bwrite (y ++ z) 0 y' = Some (y' ++ z).
Proof. apply (bwrite_mid []). done. Qed.

(** Opening a hole: a block moves right over the [|h|] bytes after it. *)
Lemma bmove_right x y h z dst src n :
  dst = zlen x + zlen h -> src = zlen x -> n = zlen y ->
  bmove (x ++ y ++ h ++ z) dst src n =
    Some (x ++ take (length h) (y ++ h) ++ y ++ z).
Proof.
  intros -> -> ->. unfold bmove. rewrite bread_mid by done. cbn [mbind option_bind].
  replace (x ++ y ++ h ++ z) with
    ((x ++ take (length h) (y ++ h)) ++ drop (length h) (y ++ h) ++ z).
  - rewrite bwrite_mid by len. by rewrite <- app_assoc.
  - by rewrite <- app_assoc, (app_assoc (take _ _)), take_drop, <- app_assoc.
Qed.

(** Closing a hole: a block moves left over the [|h|] bytes before it. *)
Lemma bmove_left x h y z dst src n :
  dst = zlen x -> src = zlen x + zlen h -> n = zlen y ->
  bmove (x ++ h ++ y ++ z) dst src n =
    Some (x ++ y ++ drop (length y) (h ++ y) ++ z).
Proof.
  intros -> -> ->. unfold bmove. rewrite app_assoc, bread_mid by len.
  cbn [mbind option_bind].
  replace ((x ++ h) ++ y ++ z) with
    (x ++ take (length y) (h ++ y) ++ drop (length y) (h ++ y) ++ z).
  - by rewrite bwrite_mid by len.
  - by rewrite (app_assoc (take _ _)), take_drop, <- !app_assoc.
Qed.

Lemma bwrite_length b i bs b' : bwrite b i bs = Some b' -> length b' = length b.
Proof.
  unfold bwrite. intros H. case_match; [|done]. zbool. simplify_eq. len.
Qed.

Lemma bread_length b i n bs : bread b i n = Some bs -> zlen bs = n.
Proof. unfold bread. intros H. case_match; [|done]. zbool. simplify_eq. len. Qed.

Lemma length_brealloc junk b n : 0 <= n -> zlen (brealloc junk b n) = n.
Proof. intros. unfold brealloc. rewrite length_app, length_take, length_map, length_seq. lia. Qed.

(** Growing keeps the block and appends indeterminate bytes. *)
Lemma brealloc_grow junk b n : zlen b <= n ->
  exists t, brealloc junk b n = b ++ t /\ zlen t = n - zlen b.
Proof.
  intros. unfold brealloc. rewrite take_ge by lia. eexists. split; [done |].
  rewrite length_map, length_seq. lia.
Qed.

(** Shrinking keeps the prefix. *)
Lemma brealloc_shrink junk x y n : n = zlen x -> brealloc junk (x ++ y) n = x.
Proof.
  intros ->. unfold brealloc. rewrite Nat2Z.id, take_app_length, length_app.
  replace (length x - (length x + length y))%nat with 0%nat by lia.
  apply app_nil_r.
Qed.

Lemma brealloc_ok junk b n : bytes_ok b -> bytes_ok (brealloc junk b n).
Proof.
  intros. apply Forall_app. split; [by apply Forall_take |].
  apply List.Forall_forall. intros x [i [<- _]]%in_map_iff. apply u8_range.
Qed.

#[export] Hint Resolve le_bytes_ok brealloc_ok : vire.
#[export] Hint Rewrite length_le_bytes : vire_len.

(** ** Arrays of fixed-width integers *)

Definition pack (w : nat) (vs : list Z) : list Z := concat (map (le_bytes w) vs).

Section Pack.
Context (w : nat).

Lemma length_pack vs : length (pack w vs) = (w * length vs)%nat.
Proof.
  unfold pack. induction vs; cbn [map concat length]; [lia |].
  rewrite length_app, IHvs, length_le_bytes. lia.
Qed.

Lemma pack_app vs us : pack w (vs ++ us) = pack w vs ++ pack w us.
Proof. unfold pack. by rewrite map_app, concat_app. Qed.

Lemma pack_cons v vs : pack w (v :: vs) = le_bytes w v ++ pack w vs.
Proof. done. Qed.

Lemma pack_ok vs : bytes_ok (pack w vs).
Proof.
  unfold pack. induction vs; simpl; [constructor |].
  apply Forall_app. split; [apply le_bytes_ok | done].
Qed.

(** Loading element [i]. *)
Lemma bread_pack vs t (i : nat) v o n : vs !! i = Some v ->
  o = Z.of_nat w * Z.of_nat i -> n = Z.of_nat w ->
  bread (pack w vs ++ t) o n = Some (le_bytes w v).
Proof.
  intros Hi -> ->. pose proof (lookup_lt_Some _ _ _ Hi).
  rewrite (lookup_split _ _ _ Hi), pack_app, pack_cons, <- !app_assoc.
  apply bread_mid; rewrite ?length_le_bytes, ?length_pack; len.
Qed.
End Pack.

#[export] Hint Rewrite length_pack : vire_len.
#[export] Hint Resolve pack_ok : vire.
