(* ===== verification/Bits.v ===== *)
(** * Bits of machine words

    Bit-level facts shared by the components that shift, mask and reverse:
    words as their bits, masks as remainders, concatenation of bit fields. *)

From S2P Require Import Prelude Bytes.

(** [~x] on an unsigned long. *)
Definition lnot64 (x : Z) : Z := u64 (Z.lnot x).

Lemma testbit_range z : (0 <= z < 2 ^ 64) <-> (forall i, 64 <= i -> Z.testbit z i = false) /\ 0 <= z.
Proof.
  split.
  - intros Hz. split; [|lia]. intros i Hi. destruct (decide (z = 0)) as [-> |]; [by apply Z.bits_0 |].
    apply Z.bits_above_log2; [lia |]. apply Z.log2_lt_pow2; [lia |].
    apply Z.lt_le_trans with (2 ^ 64); [lia |]. apply Z.pow_le_mono_r; lia.
  - intros [Hb Hz]. split; [done |]. destruct (Z.lt_ge_cases z (2 ^ 64)) as [|Hge]; [done |]. exfalso.
    assert (64 <= Z.log2 z) by (change 64 with (Z.log2 (2 ^ 64)); by apply Z.log2_le_mono).
    specialize (Hb (Z.log2 z) ltac:(done)). rewrite Z.bit_log2 in Hb by lia. done.
Qed.

Lemma bits_eq a b : 0 <= a < 2 ^ 64 -> 0 <= b < 2 ^ 64 ->
  (forall i, 0 <= i < 64 -> Z.testbit a i = Z.testbit b i) -> a = b.
Proof.
  intros Ha Hb H. apply Z.bits_inj'. intros i Hi. destruct (Z.lt_ge_cases i 64); [auto |].
  apply testbit_range in Ha as [Ha _], Hb as [Hb _]. by rewrite Ha, Hb.
Qed.

Lemma land_mask x k : 0 <= k -> Z.land x (2 ^ k - 1) = x mod 2 ^ k.
Proof. intros. rewrite <- Z.land_ones, Z.ones_equiv, Z.sub_1_r by done. done. Qed.

Lemma mod_bits x y k : 0 <= k -> x mod 2 ^ k = y mod 2 ^ k <-> (forall i, 0 <= i < k -> Z.testbit x i = Z.testbit y i).
Proof.
  intros Hk. split.
  - intros H i Hi. by rewrite <- (Z.mod_pow2_bits_low x k i), H, Z.mod_pow2_bits_low by lia.
  - intros H. apply Z.bits_inj'. intros i Hi. destruct (Z.lt_ge_cases i k).
    + rewrite !Z.mod_pow2_bits_low by lia. auto.
    + by rewrite !Z.mod_pow2_bits_high by lia.
Qed.

Lemma mod_mod_pow x a b : 0 <= a <= b -> (x mod 2 ^ b) mod 2 ^ a = x mod 2 ^ a.
Proof. intros H. apply mod_bits; [lia |]. intros i Hi. by rewrite Z.mod_pow2_bits_low by lia. Qed.

Lemma div_bits x y n : 0 <= n -> x / 2 ^ n = y / 2 ^ n <-> (forall i, n <= i -> Z.testbit x i = Z.testbit y i).
Proof.
  intros Hn. split.
  - intros H i Hi. replace i with (i - n + n) by lia. by rewrite <- !Z.div_pow2_bits, H by lia.
  - intros H. apply Z.bits_inj'. intros i Hi. rewrite !Z.div_pow2_bits by lia. apply H. lia.
Qed.

Lemma lor_mod_small c j k : 0 <= c < 2 ^ k -> 0 <= k -> Z.lor (j * 2 ^ k) c = j * 2 ^ k + c.
Proof.
  intros Hc Hk. rewrite Z.lor_comm, Z.add_comm. rewrite <- Z.lxor_lor, <- Z.add_nocarry_lxor; [done | |].
  all: apply Z.bits_inj'; intros i Hi; rewrite Z.land_spec, Z.bits_0.
  all: destruct (Z.lt_ge_cases i k); [rewrite (Z.mul_pow2_bits_low j k i) by lia; apply andb_false_r |].
  all: rewrite <- (Z.mod_small c (2 ^ k)), Z.mod_pow2_bits_high by lia; done.
Qed.

Lemma mod_offset c j k : 0 <= c < 2 ^ k -> (j * 2 ^ k + c) mod 2 ^ k = c.
Proof. intros Hc. rewrite Z.add_comm, Z.mod_add, Z.mod_small by lia. done. Qed.

(** Concatenation of bit fields. *)
Lemma testbit_cat a b n i : 0 <= n -> 0 <= a < 2 ^ n -> 0 <= i ->
  Z.testbit (a + 2 ^ n * b) i = if i <? n then Z.testbit a i else Z.testbit b (i - n).
Proof.
  intros Hn Ha Hi. rewrite Z.add_comm, Z.mul_comm, <- lor_mod_small, Z.lor_spec, Z.mul_pow2_bits by lia. zcase.
  - by rewrite (Z.testbit_neg_r _ (i - n)) by lia.
  - by rewrite <- (Z.mod_small a (2 ^ n)), Z.mod_pow2_bits_high, orb_false_r by lia.
Qed.

(** Shifting and masking a concatenation, when the mask drops what the shift
    brings in from above. *)
Lemma land_shiftr_cat a b n s m M : 0 <= s <= n -> 0 <= a < 2 ^ n -> 0 <= m < 2 ^ (n - s) ->
  Z.land (Z.shiftr (a + 2 ^ n * b) s) (m + 2 ^ n * M) = Z.land (Z.shiftr a s) m + 2 ^ n * Z.land (Z.shiftr b s) M.
Proof.
  intros Hs Ha Hm. assert (Hmn : 0 <= m < 2 ^ n) by (pose proof (Z.pow_le_mono_r 2 (n - s) n); lia).
  assert (Hr : 0 <= Z.land (Z.shiftr a s) m < 2 ^ n).
  { split; [apply Z.land_nonneg; lia |]. destruct (decide (Z.land (Z.shiftr a s) m = 0)); [lia |].
    apply Z.log2_lt_cancel. rewrite Z.log2_pow2 by lia.
    pose proof (Z.land_nonneg (Z.shiftr a s) m). eapply Z.le_lt_trans; [apply Z.log2_land; [apply Z.shiftr_nonneg; lia | lia] |].
    assert (0 < m) by (destruct (decide (m = 0)) as [-> |]; [by rewrite Z.land_0_r in n0 | lia]).
    apply Z.min_lt_iff. right. apply Z.log2_lt_pow2; lia. }
  apply Z.bits_inj'. intros i Hi. rewrite Z.land_spec, Z.shiftr_spec, !testbit_cat by lia. zcase; try lia.
  - by rewrite Z.land_spec, Z.shiftr_spec by lia.
  - rewrite Z.land_spec, Z.shiftr_spec by lia.
    rewrite <- (Z.mod_small m (2 ^ (n - s))), (Z.mod_pow2_bits_high m) by lia. by rewrite !andb_false_r.
  - rewrite Z.land_spec, Z.shiftr_spec by lia. do 2 f_equal. lia.
Qed.

(** A property of bytes checked on all of them. *)
Lemma byte_cases (P : Z -> Prop) b : Forall P (seqZ 0 256) -> 0 <= b < 256 -> P b.
Proof. rewrite Forall_forall. intros HP Hb. apply HP, elem_of_seqZ. lia. Qed.
