(* ===== verification/Intset.v ===== *)
(** * Integer sets (vr_intset.c)

    A sorted array of integers packed at 2, 4 or 8 bytes per element, upgraded
    in place when a wider value arrives.  Sets of integers are stored this way
    until they grow past a configured size.

    The record [intset] is the C struct; [contents] is its flexible array
    member.  [junk] stands for the indeterminate bytes [drealloc] hands out. *)

From stdpp Require Import gmap.
From S2P Require Import Prelude Bytes.

Module Intset.

Definition INTSET_ENC_INT16 : Z := 2.
Definition INTSET_ENC_INT32 : Z := 4.
Definition INTSET_ENC_INT64 : Z := 8.

Record intset := mk_intset {
  encoding : Z;
  ilength : Z;
  contents : list Z
}.

Definition _intsetValueEncoding (v : Z) : Z :=
  if (v <? INT32_MIN) || (v >? INT32_MAX) then INTSET_ENC_INT64
  else if (v <? INT16_MIN) || (v >? INT16_MAX) then INTSET_ENC_INT32
  else INTSET_ENC_INT16.

Definition _intsetGetEncoded (st : intset) (pos enc : Z) : option Z :=
  if enc =? INTSET_ENC_INT64 then
    v64 ← bread (contents st) (8 * pos) 8; Some (s64 (le_val v64))
  else if enc =? INTSET_ENC_INT32 then
    v32 ← bread (contents st) (4 * pos) 4; Some (s32 (le_val v32))
  else
    v16 ← bread (contents st) (2 * pos) 2; Some (s16 (le_val v16)).

Definition _intsetGet (st : intset) (pos : Z) : option Z :=
  _intsetGetEncoded st pos (encoding st).

Definition set_contents (st : intset) (c : list Z) : intset :=
  mk_intset (encoding st) (ilength st) c.

Definition set_length (st : intset) (n : Z) : intset :=
  mk_intset (encoding st) n (contents st).

Definition _intsetSet (st : intset) (pos value : Z) : option intset :=
  let enc := encoding st in
  c ← (if enc =? INTSET_ENC_INT64 then bwrite (contents st) (8 * pos) (le_bytes 8 value)
       else if enc =? INTSET_ENC_INT32 then bwrite (contents st) (4 * pos) (le_bytes 4 value)
       else bwrite (contents st) (2 * pos) (le_bytes 2 value));
  Some (set_contents st c).

Definition intsetNew : intset := mk_intset INTSET_ENC_INT16 0 [].

Section Alloc.
Context (junk : nat -> Z).

Definition intsetResize (st : intset) (len : Z) : intset :=
  let size := u32 (len * encoding st) in
  set_contents st (brealloc junk (contents st) size).

(** The [while (max >= min)] loop of [intsetSearch], returning [min], [mid]
    and [cur] as they are when it exits. *)
Fixpoint search_loop (fuel : nat) (st : intset) (value min max mid cur : Z)
  : option (Z * Z * Z) :=
  match fuel with
  | O => None
  | S fuel =>
      if max >=? min then
        let mid := Z.shiftr (u32 (u32 min + u32 max)) 1 in
        cur ← _intsetGet st mid;
        if value >? cur then search_loop fuel st value (mid + 1) max mid cur
        else if value <? cur then search_loop fuel st value min (mid - 1) mid cur
        else Some (min, mid, cur)
      else Some (min, mid, cur)
  end.

(** The flag returned and the value stored through [pos]. *)
Definition intsetSearch (st : intset) (value : Z) : option (bool * Z) :=
  if ilength st =? 0 then Some (false, 0)
  else
    last ← _intsetGet st (s32 (ilength st - 1));
    if value >? last then Some (false, ilength st)
    else
      first ← _intsetGet st 0;
      if value <? first then Some (false, 0)
      else
        '(min, mid, cur) ←
           search_loop (S (Z.to_nat (ilength st))) st value 0 (s32 (ilength st - 1)) (-1) (-1);
        if value =? cur then Some (true, mid) else Some (false, min).

(** [while(length--) _intsetSet(is,length+prepend,_intsetGetEncoded(is,length,curenc))] *)
Fixpoint upgrade_loop (length : nat) (prepend curenc : Z) (st : intset) : option intset :=
  match length with
  | O => Some st
  | S l =>
      v ← _intsetGetEncoded st (Z.of_nat l) curenc;
      st ← _intsetSet st (Z.of_nat l + prepend) v;
      upgrade_loop l prepend curenc st
  end.

Definition intsetUpgradeAndAdd (st : intset) (value : Z) : option intset :=
  let curenc := u8 (encoding st) in
  let newenc := _intsetValueEncoding value in
  let length := s32 (ilength st) in
  let prepend := if value <? 0 then 1 else 0 in
  let st := mk_intset newenc (ilength st) (contents st) in
  let st := intsetResize st (u32 (ilength st + 1)) in
  st ← upgrade_loop (Z.to_nat length) prepend curenc st;
  st ← (if prepend =? 1 then _intsetSet st 0 value
        else _intsetSet st (s32 (ilength st)) value);
  Some (set_length st (u32 (ilength st + 1))).

Definition intsetMoveTail (st : intset) (from to : Z) : option intset :=
  let bytes := u32 (ilength st - from) in
  let enc := encoding st in
  c ← (if enc =? INTSET_ENC_INT64 then
         bmove (contents st) (8 * to) (8 * from) (u32 (bytes * 8))
       else if enc =? INTSET_ENC_INT32 then
         bmove (contents st) (4 * to) (4 * from) (u32 (bytes * 4))
       else
         bmove (contents st) (2 * to) (2 * from) (u32 (bytes * 2)));
  Some (set_contents st c).

(** The new set and the value stored through [success]. *)
Definition intsetAdd (st : intset) (value : Z) : option (intset * Z) :=
  let valenc := _intsetValueEncoding value in
  if valenc >? encoding st then
    st ← intsetUpgradeAndAdd st value; Some (st, 1)
  else
    '(found, pos) ← intsetSearch st value;
    if (found : bool) then Some (st, 0)
    else
      let st := intsetResize st (u32 (ilength st + 1)) in
      st ← (if pos <? ilength st then intsetMoveTail st pos (u32 (pos + 1)) else Some st);
      st ← _intsetSet st (s32 pos) value;
      Some (set_length st (u32 (ilength st + 1)), 1).

Definition intsetRemove (st : intset) (value : Z) : option (intset * Z) :=
  let valenc := _intsetValueEncoding value in
  if valenc <=? encoding st then
    '(found, pos) ← intsetSearch st value;
    if (found : bool) then
      let len := ilength st in
      st ← (if pos <? u32 (len - 1) then intsetMoveTail st (u32 (pos + 1)) pos else Some st);
      let st := intsetResize st (u32 (len - 1)) in
      Some (set_length st (u32 (len - 1)), 1)
    else Some (st, 0)
  else Some (st, 0).
End Alloc.

Definition intsetFind (st : intset) (value : Z) : option bool :=
  let valenc := _intsetValueEncoding value in
  if valenc <=? encoding st then
    '(found, _) ← intsetSearch st value; Some found
  else Some false.

(** [r] is the value [rand()] returns; a modulus by zero is undefined. *)
Definition intsetRandom (st : intset) (r : Z) : option Z :=
  if ilength st =? 0 then None
  else _intsetGet st (s32 (u32 r mod ilength st)).

(** [Some None] is the return value 0: position out of range. *)
Definition intsetGet (st : intset) (pos : Z) : option (option Z) :=
  if pos <? ilength st then v ← _intsetGet st (s32 pos); Some (Some v)
  else Some None.

Definition intsetLen (st : intset) : Z := ilength st.

Definition intsetBlobLen (st : intset) : Z := u64 (8 + u32 (ilength st * encoding st)).

(** ** The representation invariant *)

Definition enc_ok (enc : Z) : Prop := enc = 2 \/ enc = 4 \/ enc = 8.

Definition in_enc (enc v : Z) : Prop := - 2 ^ (8 * enc - 1) <= v < 2 ^ (8 * enc - 1).

Definition int64 (v : Z) : Prop := LLONG_MIN <= v <= LLONG_MAX.

(** Sizes below which no 32-bit byte count wraps around. *)
Definition INTSET_MAX : Z := 2 ^ 29.

(** [st] stores the strictly increasing integers [vs], each in the width of
    the encoding, and nothing else. *)
Record rep (st : intset) (vs : list Z) : Prop := mk_rep {
  rep_enc : enc_ok (encoding st);
  rep_len : ilength st = zlen vs;
  rep_contents : contents st = pack (Z.to_nat (encoding st)) vs;
  rep_width : Forall (in_enc (encoding st)) vs;
  rep_sorted : increasing vs;
  rep_max : zlen vs < INTSET_MAX
}.

(** ** Width-generic forms of the accessors *)

Section Generic.
Context (enc : Z) (Henc : enc_ok enc).

Ltac by_width := destruct Henc as [-> | [-> | ->]]; reflexivity.

Lemma getEncoded_eq st pos : _intsetGetEncoded st pos enc =
  bs ← bread (contents st) (enc * pos) enc; Some (swrap (8 * enc) (le_val bs)).
Proof using Henc. by_width. Qed.

Lemma set_eq st pos v : encoding st = enc -> _intsetSet st pos v =
  c ← bwrite (contents st) (enc * pos) (le_bytes (Z.to_nat enc) v);
  Some (set_contents st c).
Proof using Henc. unfold _intsetSet. intros ->. by_width. Qed.

Lemma moveTail_eq st from to : encoding st = enc -> intsetMoveTail st from to =
  c ← bmove (contents st) (enc * to) (enc * from) (u32 (u32 (ilength st - from) * enc));
  Some (set_contents st c).
Proof using Henc. unfold intsetMoveTail. intros ->. by_width. Qed.

Lemma get_pack st vs t (i : nat) pos v :
  contents st = pack (Z.to_nat enc) vs ++ t -> vs !! i = Some v ->
  in_enc enc v -> pos = Z.of_nat i ->
  _intsetGetEncoded st pos enc = Some v.
Proof using Henc.
  intros Hc Hi Hv ->. assert (0 < enc) by (destruct Henc; lia).
  rewrite getEncoded_eq, Hc, (bread_pack _ _ _ i v) by (done || lia).
  simpl. f_equal.
  replace (8 * enc) with (8 * Z.of_nat (Z.to_nat enc)) by lia.
  apply le_signed; [lia |]. rewrite Z2Nat.id by lia. done.
Qed.
End Generic.

Lemma enc_bounds enc : enc_ok enc -> 2 <= enc <= 8.
Proof. intros [-> | [-> | ->]]; lia. Qed.

Lemma get_rep st vs i v : rep st vs -> vs !! i = Some v ->
  _intsetGet st (Z.of_nat i) = Some v.
Proof.
  intros [] Hi. unfold _intsetGet. apply (get_pack _ rep_enc0 _ vs [] i); auto.
  - by rewrite app_nil_r.
  - rewrite Forall_lookup in rep_width0. eauto.
Qed.

(** ** Search *)

(** Everything before [i] is below [v], everything from [j] on is above. *)
Definition bracket (v : Z) (vs : list Z) (i j : Z) : Prop :=
  (forall (k : nat) x, vs !! k = Some x -> Z.of_nat k < i -> x < v) /\
  (forall (k : nat) x, vs !! k = Some x -> j <= Z.of_nat k -> v < x).

Lemma bracket_rank v vs (n : nat) : bracket v vs (Z.of_nat n) (Z.of_nat n) ->
  (n <= length vs)%nat -> (v ∉ vs) /\ rank v vs = n.
Proof.
  intros [Hlo Hhi] Hn. split.
  - intros [k Hk]%list_elem_of_lookup.
    destruct (Z.lt_ge_cases (Z.of_nat k) (Z.of_nat n)) as [H | H].
    + specialize (Hlo k v Hk H). lia.
    + specialize (Hhi k v Hk H). lia.
  - rewrite <- (take_drop n vs), rank_split; [len | |].
    + apply Forall_lookup. intros k x [Hk ?]%lookup_take_Some. apply (Hlo k); [done | lia].
    + apply Forall_lookup. intros k x Hk. rewrite lookup_drop in Hk.
      apply Z.lt_le_incl, (Hhi (n + k)%nat); [done | lia].
Qed.

Lemma lookup_rank v vs (n : nat) : increasing vs -> vs !! n = Some v -> rank v vs = n.
Proof.
  intros Hs Hn. pose proof (lookup_lt_Some _ _ _ Hn).
  rewrite <- (take_drop n vs), rank_split; [len | |].
  - apply Forall_lookup. intros k x [Hk ?]%lookup_take_Some.
    eapply increasing_lookup; eauto.
  - apply Forall_lookup. intros k x Hk. rewrite lookup_drop in Hk.
    destruct k; [rewrite Nat.add_0_r in Hk; simplify_eq; lia |].
    apply Z.lt_le_incl. eapply increasing_lookup; eauto. lia.
Qed.

(** The midpoint computed in 32-bit arithmetic. *)
Lemma mid_bounds min max : 0 <= min <= max -> max < INTSET_MAX ->
  min <= Z.shiftr (u32 (u32 min + u32 max)) 1 <= max.
Proof.
  unfold INTSET_MAX. intros ? ?. rewrite !(uwrap_small 32) by (rewrite ?(uwrap_small 32); lia).
  rewrite Z.shiftr_div_pow2 by lia. change (2 ^ 1) with 2.
  split; [apply Z.div_le_lower_bound | apply Z.div_le_upper_bound]; lia.
Qed.

Lemma search_loop_spec st vs v : rep st vs -> forall fuel min max mid cur,
  0 <= min <= max + 1 -> max < zlen vs -> bracket v vs min (max + 1) ->
  (max < min -> cur <> v) -> (Z.to_nat (max + 1 - min) < fuel)%nat ->
  exists min' mid' cur', search_loop fuel st v min max mid cur = Some (min', mid', cur') /\
    ((cur' = v /\ 0 <= mid' /\ vs !! Z.to_nat mid' = Some v) \/
     (cur' <> v /\ 0 <= min' <= zlen vs /\ bracket v vs min' min')).
Proof.
  intros Hrep. induction fuel as [|fuel IH]; intros min max mid cur Hmin Hmax Hb Hcur Hf; [lia |].
  cbn [search_loop]. rewrite Z.geb_leb. destruct (Z.leb_spec min max) as [Hle | Hgt].
  - pose proof (rep_max _ _ Hrep). pose proof (mid_bounds min max ltac:(lia) ltac:(lia)) as Hm.
    set (m := Z.shiftr _ 1) in *. clearbody m.
    destruct (lookup_lt_is_Some_2 vs (Z.to_nat m)) as [c Hc]; [lia |].
    assert (_intsetGet st m = Some c) as ->.
    { rewrite <- (Z2Nat.id m) by lia. by apply (get_rep _ vs). }
    cbn [mbind option_bind]. rewrite Z.gtb_ltb. destruct Hb as [Hlo Hhi].
    destruct (Z.ltb_spec c v); [| destruct (Z.ltb_spec v c)].
    + apply IH; try lia. split; [|done]. intros k x Hk ?.
      destruct (decide (k = Z.to_nat m)) as [-> | ?]; [by simplify_eq |].
      transitivity c; [|done]. apply (increasing_lookup vs k (Z.to_nat m)); auto; [apply Hrep | lia].
    + apply IH; try lia. split; [done |]. intros k x Hk ?.
      destruct (decide (k = Z.to_nat m)) as [-> | ?]; [by simplify_eq |].
      transitivity c; [done |]. apply (increasing_lookup vs (Z.to_nat m) k); auto; [apply Hrep | lia].
    + do 3 eexists. split; [done |]. left. replace v with c by lia. auto with lia.
  - do 3 eexists. split; [done |]. right. split; [auto |]. split; [lia |].
    replace (max + 1) with min in Hb by lia. done.
Qed.

(** Found iff present; the position is the number of smaller elements. *)
Lemma search_spec st vs v : rep st vs ->
  intsetSearch st v = Some (bool_decide (v ∈ vs), Z.of_nat (rank v vs)).
Proof.
  intros Hrep. pose proof (rep_len _ _ Hrep) as Hl. pose proof (rep_max _ _ Hrep) as Hm.
  unfold INTSET_MAX in Hm. unfold intsetSearch. rewrite Hl.
  destruct (Z.eqb_spec (zlen vs) 0) as [H0 | H0]; [destruct vs; [done | simpl in H0; lia] |].
  rewrite (swrap_small 32) by lia.
  assert (forall n : nat, (n <= length vs)%nat -> bracket v vs (Z.of_nat n) (Z.of_nat n) ->
    Some (false, Z.of_nat n) = Some (bool_decide (v ∈ vs), Z.of_nat (rank v vs))) as Habs.
  { intros n Hn Hb. destruct (bracket_rank v vs n Hb Hn) as [? ->].
    by rewrite bool_decide_eq_false_2. }
  destruct (lookup_lt_is_Some_2 vs (length vs - 1)) as [last Hlast]; [lia |].
  destruct (lookup_lt_is_Some_2 vs 0) as [first Hfirst]; [lia |].
  replace (zlen vs - 1) with (Z.of_nat (length vs - 1)) at 1 by lia.
  rewrite (get_rep _ _ _ _ Hrep Hlast), (get_rep _ _ 0 _ Hrep Hfirst : _intsetGet st 0 = _).
  cbn [mbind option_bind]. rewrite Z.gtb_ltb.
  destruct (Z.ltb_spec last v); [| destruct (Z.ltb_spec v first)].
  - apply (Habs (length vs)); [lia |]. split; intros k x Hk ?; pose proof (lookup_lt_Some _ _ _ Hk); [|lia].
    destruct (decide (k = length vs - 1)%nat) as [-> | ?]; [by simplify_eq |].
    transitivity last; [|done]. apply (increasing_lookup vs k (length vs - 1)); auto; [apply Hrep | lia].
  - apply (Habs 0%nat); [lia |]. split; intros k x Hk ?; [lia |].
    destruct k; [by simplify_eq |]. transitivity first; [done |].
    apply (increasing_lookup vs 0 (S k)); auto; [apply Hrep | lia].
  - destruct (search_loop_spec st vs v Hrep (S (Z.to_nat (zlen vs))) 0 (zlen vs - 1) (-1) (-1))
      as (mn & md & cr & -> & Hres); try lia.
    { split; intros k x Hk ?; pose proof (lookup_lt_Some _ _ _ Hk); lia. }
    cbn [mbind option_bind]. destruct (Z.eqb_spec v cr) as [-> | Hne].
    + destruct Hres as [(_ & ? & Hmd) | (? & _)]; [|done].
      rewrite bool_decide_eq_true_2 by (apply list_elem_of_lookup; eauto).
      rewrite (lookup_rank _ _ _ (rep_sorted _ _ Hrep) Hmd), Z2Nat.id by done. done.
    + destruct Hres as [(? & _) | (_ & Hmn & Hb)]; [congruence |].
      rewrite <- (Z2Nat.id mn) in Hb |- * by lia. apply Habs; [lia | done].
Qed.

(** ** Encodings *)

Lemma in_enc_mono e e' v : enc_ok e -> enc_ok e' -> e <= e' -> in_enc e v -> in_enc e' v.
Proof.
  unfold in_enc. intros [-> | [-> | ->]] [-> | [-> | ->]] ?; simpl; lia.
Qed.

Lemma valueEncoding_ok v : enc_ok (_intsetValueEncoding v).
Proof. unfold _intsetValueEncoding, enc_ok. repeat case_match; auto. Qed.

Lemma valueEncoding_spec v e : int64 v -> enc_ok e ->
  in_enc e v <-> _intsetValueEncoding v <= e.
Proof.
  unfold int64, in_enc, _intsetValueEncoding, INT32_MIN, INT32_MAX, INT16_MIN, INT16_MAX,
    LLONG_MIN, LLONG_MAX, INTSET_ENC_INT16, INTSET_ENC_INT32, INTSET_ENC_INT64.
  intros Hv He. rewrite !Z.gtb_ltb.
  repeat match goal with |- context [?x <? ?y] => destruct (Z.ltb_spec x y) end;
  destruct He as [-> | [-> | ->]]; simpl; lia.
Qed.

(** ** In-place upgrade *)

Section Upgrade.
Context (e0 e1 p : Z) (He0 : enc_ok e0) (He1 : enc_ok e1) (He : e0 < e1).
Context (Hp : 0 <= p) (vs : list Z) (Hvs : Forall (in_enc e0) vs).

(** The loop moves the elements from width [e0] to width [e1], back to
    front, each store landing past the elements still to be read. *)
Lemma upgrade_loop_spec : forall (i : nat) st gap suf,
  (i <= length vs)%nat -> encoding st = e1 ->
  contents st = pack (Z.to_nat e0) (take i vs) ++ gap ++ suf ->
  zlen gap = e1 * (Z.of_nat i + p) - e0 * Z.of_nat i ->
  exists gap', zlen gap' = e1 * p /\
    upgrade_loop i p e0 st =
      Some (set_contents st (gap' ++ pack (Z.to_nat e1) (take i vs) ++ suf)).
Proof using All.
  pose proof (enc_bounds _ He0). pose proof (enc_bounds _ He1).
  induction i as [|i IH]; intros st gap suf Hi Henc Hc Hgap.
  { exists gap. split; [lia |]. cbn [upgrade_loop]. f_equal.
    destruct st; simpl in *. by rewrite Hc. }
  destruct (lookup_lt_is_Some_2 vs i) as [v Hv]; [lia |].
  assert (in_enc e0 v) by (rewrite Forall_lookup in Hvs; eauto).
  cbn [upgrade_loop].
  rewrite (get_pack e0 He0 st (take (S i) vs) (gap ++ suf) i (Z.of_nat i) v)
    by (rewrite ?lookup_take_lt by lia; auto).
  cbn [mbind option_bind]. rewrite (set_eq e1 He1) by done. rewrite Hc.
  rewrite (take_S_r _ _ _ Hv), pack_app, pack_cons, app_nil_r, <- app_assoc.
  set (k := Z.to_nat (e1 * (Z.of_nat i + p) - e0 * Z.of_nat i)).
  assert (le_bytes (Z.to_nat e0) v ++ gap ++ suf =
    take k (le_bytes (Z.to_nat e0) v ++ gap) ++ drop k (le_bytes (Z.to_nat e0) v ++ gap) ++ suf) as ->.
  { by rewrite (app_assoc (take k _)), take_drop, <- app_assoc. }
  rewrite app_assoc, (bwrite_mid _ (drop k _)) by (subst k; nlen).
  cbn [mbind option_bind]. rewrite <- app_assoc.
  destruct (IH (set_contents st (pack (Z.to_nat e0) (take i vs) ++
      take k (le_bytes (Z.to_nat e0) v ++ gap) ++ le_bytes (Z.to_nat e1) v ++ suf))
    (take k (le_bytes (Z.to_nat e0) v ++ gap)) (le_bytes (Z.to_nat e1) v ++ suf))
    as (gap' & Hg & Heq); [lia | done | done | subst k; nlen |].
  exists gap'. split; [done |]. rewrite Heq, pack_app, pack_cons, app_nil_r, <- app_assoc. done.
Qed.
End Upgrade.

(** A value that needs a wider encoding is below or above all elements. *)
Lemma out_of_enc v e vs : enc_ok e -> int64 v -> e < _intsetValueEncoding v ->
  Forall (in_enc e) vs -> Forall (fun x => if v <? 0 then v < x else x < v) vs.
Proof.
  intros He Hv Hlt Hvs. assert (~ in_enc e v) as Hn by (rewrite valueEncoding_spec; [lia | done..]).
  unfold in_enc in *. eapply Forall_impl; [exact Hvs |]. intros x Hx. simpl in *.
  assert (0 < 2 ^ (8 * e - 1)) by (apply Z.pow_pos_nonneg; pose proof (enc_bounds e He); lia).
  zcase; lia.
Qed.

Section Ops.
Context (junk : nat -> Z).

(** Growing by one element leaves the old contents and one free slot. *)
Lemma resize_grow st vs e n : contents st = pack (Z.to_nat e) vs -> enc_ok e ->
  enc_ok (encoding st) -> e <= encoding st ->
  n = zlen vs + 1 -> n < INTSET_MAX -> exists t,
  intsetResize junk st n = set_contents st (pack (Z.to_nat e) vs ++ t) /\
  zlen t = encoding st * (zlen vs + 1) - e * zlen vs.
Proof.
  intros Hc He He' Hle -> Hn. pose proof (enc_bounds _ He). pose proof (enc_bounds _ He').
  unfold INTSET_MAX in Hn. unfold intsetResize. rewrite Hc, uwrap_small by nia.
  destruct (brealloc_grow junk (pack (Z.to_nat e) vs) ((zlen vs + 1) * encoding st))
    as (t & -> & Ht); [nlen |].
  exists t. split; [done | nlen].
Qed.

(** What is left to check after an insertion. *)
Lemma rep_set_insert e vs v : enc_ok e -> in_enc e v -> Forall (in_enc e) vs ->
  increasing vs -> v ∉ vs -> zlen vs + 1 < INTSET_MAX ->
  rep (mk_intset e (zlen vs + 1) (pack (Z.to_nat e) (set_insert v vs))) (set_insert v vs).
Proof.
  intros. constructor; cbn [encoding ilength contents];
    rewrite ?length_set_insert by done; try lia; auto.
  - by apply Forall_set_insert.
  - by apply increasing_set_insert.
Qed.

Lemma upgrade_spec st vs v : rep st vs -> int64 v ->
  encoding st < _intsetValueEncoding v -> zlen vs + 1 < INTSET_MAX -> (v ∉ vs) /\
  exists st', intsetUpgradeAndAdd junk st v = Some st' /\ rep st' (set_insert v vs) /\
    encoding st' = _intsetValueEncoding v.
Proof.
  intros [He Hl Hc Hw Hs Hm] Hv Hlt Hmax. pose proof (valueEncoding_ok v) as He1.
  pose proof (enc_bounds _ He). pose proof (enc_bounds _ He1).
  pose proof (out_of_enc _ _ _ He Hv Hlt Hw) as Hout.
  assert (v ∉ vs) as Hnin.
  { intros Hin. rewrite Forall_forall in Hout. specialize (Hout v Hin). case_match; lia. }
  split; [done |]. eexists (mk_intset _ _ _). split; [| split; [apply (rep_set_insert (_intsetValueEncoding v)); auto | done]].
  2: by apply valueEncoding_spec.
  2: { eapply Forall_impl; [exact Hw |]. intros ?. apply in_enc_mono; auto. lia. }
  pose proof (eq_refl : INTSET_MAX = 2 ^ 29) as HM.
  unfold intsetUpgradeAndAdd. cbn [ilength].
  rewrite Hl, !(uwrap_small 32), uwrap_small, swrap_small by lia.
  destruct (resize_grow (mk_intset (_intsetValueEncoding v) (zlen vs) (contents st)) vs
    (encoding st) (zlen vs + 1)) as (t & -> & Ht); auto; [cbn [encoding]; lia|].
  unfold set_contents, set_length. cbn [encoding ilength contents] in *. rewrite Nat2Z.id.
  set (e1 := _intsetValueEncoding v) in *. clearbody e1.
  destruct (take_drop_app t (Z.to_nat (zlen t - e1))) as (g & tl & -> & Hgl); [lia |].
  unfold set_insert. rewrite bool_decide_eq_false_2 by done.
  destruct (v <? 0) eqn:Hneg.
  - destruct (upgrade_loop_spec (encoding st) e1 1 He He1 Hlt ltac:(lia) vs Hw (length vs)
      (mk_intset e1 (zlen vs) (pack (Z.to_nat (encoding st)) vs ++ g ++ tl)) (g ++ tl) [])
      as (hd & Hhd & ->); [lia | done | by rewrite firstn_all, app_nil_r | lia |].
    cbn [mbind option_bind Z.eqb Pos.eqb].
    rewrite (set_eq e1 He1) by done. unfold set_contents. cbn [contents].
    rewrite firstn_all, app_nil_r, Z.mul_0_r, bwrite_start by len.
    cbn [mbind option_bind encoding ilength contents].
    rewrite rank_none, uwrap_small by (lia || (eapply Forall_impl; [exact Hout | simpl; lia])).
    done.
  - destruct (upgrade_loop_spec (encoding st) e1 0 He He1 Hlt ltac:(lia) vs Hw (length vs)
      (mk_intset e1 (zlen vs) (pack (Z.to_nat (encoding st)) vs ++ g ++ tl)) g tl)
      as (hd & Hhd & ->); [lia | done | by rewrite firstn_all | nlen |].
    cbn [mbind option_bind Z.eqb Pos.eqb].
    destruct hd; [|simpl in Hhd; lia]. unfold set_contents. cbn [ilength].
    rewrite swrap_small, (set_eq e1 He1) by (done || lia). unfold set_contents.
    cbn [contents app]. rewrite firstn_all, (bwrite_end (pack _ vs) tl) by nlen.
    cbn [mbind option_bind encoding ilength contents].
    rewrite uwrap_small, rank_all, firstn_all, drop_all, pack_app by (done || lia).
    by rewrite pack_cons, app_nil_r.
Qed.

Section Holes.
Context (st : intset) (e : Z) (He : enc_ok e) (Hst : encoding st = e).
Context (l1 l2 : list Z) (Hmax : zlen l1 + zlen l2 < INTSET_MAX).
Let w := Z.to_nat e.

(** The guarded [intsetMoveTail] of [intsetAdd] frees the slot after [l1]. *)
Lemma open_hole t : contents st = pack w l1 ++ pack w l2 ++ t -> zlen t = e ->
  ilength st = zlen l1 + zlen l2 -> exists hole, zlen hole = e /\
  (if zlen l1 <? ilength st then intsetMoveTail st (zlen l1) (u32 (zlen l1 + 1)) else Some st) =
  Some (set_contents st (pack w l1 ++ hole ++ pack w l2)).
Proof using All.
  intros Hc Ht Hl. unfold INTSET_MAX in Hmax. pose proof (enc_bounds _ He). subst w.
  rewrite Hl. destruct (Z.ltb_spec (zlen l1) (zlen l1 + zlen l2)).
  - exists (take (length t) (pack (Z.to_nat e) l2 ++ t)). split; [nlen |].
    rewrite (moveTail_eq e He), Hc, Hl by done.
    rewrite !(uwrap_small 32) by (rewrite ?(uwrap_small 32); nia).
    rewrite <- (app_nil_r t), bmove_right by nlen. by rewrite !app_nil_r.
  - destruct l2; [|simpl in *; lia]. exists t. split; [done |].
    destruct st; simpl in *. rewrite Hc. cbn. by rewrite app_nil_r.
Qed.

(** The guarded [intsetMoveTail] of [intsetRemove] overwrites the slot [h]
    after [l1], leaving one free slot at the end. *)
Lemma close_hole h : contents st = pack w l1 ++ h ++ pack w l2 -> zlen h = e ->
  ilength st = zlen l1 + 1 + zlen l2 -> exists t, zlen t = e /\
  (if zlen l1 <? u32 (ilength st - 1) then intsetMoveTail st (u32 (zlen l1 + 1)) (zlen l1) else Some st) =
  Some (set_contents st ((pack w l1 ++ pack w l2) ++ t)).
Proof using All.
  intros Hc Hh Hl. unfold INTSET_MAX in Hmax. pose proof (enc_bounds _ He). subst w.
  rewrite Hl, (uwrap_small 32 (_ - 1)) by lia.
  destruct (Z.ltb_spec (zlen l1) (zlen l1 + 1 + zlen l2 - 1)).
  - exists (drop (length (pack (Z.to_nat e) l2)) (h ++ pack (Z.to_nat e) l2)).
    split; [nlen |]. rewrite (moveTail_eq e He), Hc, Hl by done.
    rewrite !(uwrap_small 32) by (rewrite ?(uwrap_small 32); nia).
    rewrite <- (app_nil_r (pack _ l2)), bmove_left by nlen.
    by rewrite !app_nil_r, app_assoc.
  - destruct l2; [|simpl in *; lia]. exists h. split; [done |].
    destruct st; simpl in *. rewrite Hc. cbn. by rewrite !app_nil_r.
Qed.
End Holes.

(** Storing into the free slot. *)
Lemma fill_hole st e l1 hole l2 v : enc_ok e -> encoding st = e -> zlen hole = e ->
  zlen l1 < INTSET_MAX ->
  contents st = pack (Z.to_nat e) l1 ++ hole ++ pack (Z.to_nat e) l2 ->
  _intsetSet st (s32 (zlen l1)) v = Some (set_contents st (pack (Z.to_nat e) (l1 ++ v :: l2))).
Proof.
  intros He Hst Hh Hl1 Hc. unfold INTSET_MAX in Hl1. pose proof (enc_bounds _ He).
  rewrite (set_eq e He), Hc, swrap_small, bwrite_mid by (done || lia || nlen).
  by rewrite pack_app, pack_cons.
Qed.

(** [intsetAdd] on a set of the representation: the result is the sorted
    insertion, the flag says whether the value is new. *)
Lemma intsetAdd_spec st vs v : rep st vs -> int64 v -> zlen vs + 1 < INTSET_MAX ->
  exists st', intsetAdd junk st v = Some (st', b2z (bool_decide (v ∉ vs))) /\
    rep st' (set_insert v vs) /\
    encoding st' = Z.max (encoding st) (_intsetValueEncoding v).
Proof.
  intros Hrep Hv Hmax. unfold intsetAdd. rewrite Z.gtb_ltb.
  destruct (Z.ltb_spec (encoding st) (_intsetValueEncoding v)) as [Hlt | Hge].
  { destruct (upgrade_spec st vs v) as (? & st' & -> & ? & He); auto.
    exists st'. rewrite bool_decide_eq_true_2, He by done. auto with lia. }
  rewrite (search_spec _ _ _ Hrep). cbn [mbind option_bind].
  case_bool_decide as Hin.
  { exists st. rewrite bool_decide_eq_false_2 by auto. unfold set_insert.
    rewrite bool_decide_eq_true_2 by done. auto with lia. }
  rewrite (bool_decide_eq_true_2 (v ∉ vs)) by done. pose proof Hge as Hmx.
  destruct Hrep as [He Hl Hc Hw Hs Hm]. unfold INTSET_MAX in *.
  rewrite <- valueEncoding_spec in Hge by done. pose proof (rank_le v vs).
  rewrite Hl, uwrap_small by lia.
  destruct (resize_grow st vs (encoding st) (zlen vs + 1)) as (t & -> & Ht); auto; [lia |].
  destruct (open_hole (set_contents st (pack (Z.to_nat (encoding st)) vs ++ t)) (encoding st) He eq_refl
    (take (rank v vs) vs) (drop (rank v vs) vs)) with (t := t) as (hole & Hh & Heq).
  1,3,4: (unfold INTSET_MAX; cbn; len). 1: by rewrite app_assoc, <- pack_app, take_drop.
  rewrite length_take, Nat.min_l in Heq by done. rewrite Heq. cbn [mbind option_bind].
  replace (Z.of_nat (rank v vs)) with (zlen (take (rank v vs) vs)) by len.
  erewrite (fill_hole _ (encoding st)); eauto; [| unfold INTSET_MAX; len].
  eexists. split; [done |]. unfold set_length, set_contents. cbn [ilength encoding contents].
  rewrite Hl, uwrap_small by lia. split; [|lia].
  pose proof (rep_set_insert (encoding st) vs v He Hge Hw Hs Hin ltac:(done)) as Hrep.
  unfold set_insert in Hrep |- *. by rewrite bool_decide_eq_false_2 in Hrep |- * by done.
Qed.

Lemma intsetRemove_spec st vs v : rep st vs -> int64 v ->
  exists st', intsetRemove junk st v = Some (st', b2z (bool_decide (v ∈ vs))) /\
    rep st' (set_remove v vs).
Proof.
  intros Hrep Hv. pose proof Hrep as [He Hl Hc Hw Hs Hm]. unfold intsetRemove.
  assert (v ∈ vs -> _intsetValueEncoding v <= encoding st) as Hfit.
  { intros. apply valueEncoding_spec; auto. rewrite Forall_forall in Hw. auto. }
  destruct (bool_decide_reflect (v ∈ vs)) as [Hin | Hnin].
  2: { exists st. rewrite set_remove_id by done. split; [|done].
    zcase; [|done]. rewrite (search_spec _ _ _ Hrep). by rewrite bool_decide_eq_false_2. }
  rewrite (proj2 (Z.leb_le _ _)), (search_spec _ _ _ Hrep) by auto.
  cbn [mbind option_bind]. rewrite bool_decide_eq_true_2 by done.
  apply list_elem_of_lookup in Hin as [i Hi]. pose proof (lookup_lt_Some _ _ _ Hi).
  rewrite (lookup_rank _ _ _ Hs Hi). apply lookup_split in Hi.
  set (l1 := take i vs) in *. set (l2 := drop (S i) vs) in *.
  assert (zlen l1 = Z.of_nat i) as Hl1 by (subst l1; len). clearbody l1 l2. subst vs.
  rewrite set_remove_mid by done. rewrite length_app in *. simpl length in *.
  destruct (close_hole st (encoding st) He eq_refl l1 l2 ltac:(lia) (le_bytes (Z.to_nat (encoding st)) v))
    as (t & Ht & Heq); [by rewrite Hc, pack_app, pack_cons | | lia |].
  { pose proof (enc_bounds _ He). len. }
  rewrite <- Hl1, Heq. cbn [mbind option_bind]. eexists. split; [done |].
  unfold INTSET_MAX in *. unfold intsetResize, set_length, set_contents.
  cbn [ilength encoding contents]. pose proof (enc_bounds _ He).
  rewrite Hl, (uwrap_small 32 (_ - 1)), uwrap_small, brealloc_shrink by (lia || nlen).
  constructor; cbn [ilength encoding contents]; auto.
  - rewrite length_app. lia.
  - by rewrite pack_app.
  - apply Forall_app in Hw as [? Hw]. inversion Hw. by apply Forall_app.
  - rewrite <- (set_remove_mid v) by done. by apply increasing_set_remove.
  - unfold INTSET_MAX. rewrite length_app. lia.
Qed.
End Ops.

Lemma intsetFind_spec st vs v : rep st vs -> int64 v ->
  intsetFind st v = Some (bool_decide (v ∈ vs)).
Proof.
  intros Hrep Hv. unfold intsetFind. rewrite (search_spec _ _ _ Hrep). zcase; [done |].
  rewrite bool_decide_eq_false_2; [done |]. intros Hin. destruct Hrep as [He _ _ Hw _ _].
  rewrite Forall_forall in Hw. specialize (Hw v Hin). rewrite valueEncoding_spec in Hw by done. lia.
Qed.

(** ** Sequences of operations against the mathematical set *)

Inductive iop := IAdd (v : Z) | IRemove (v : Z).

Definition iop_value (o : iop) : Z := match o with IAdd v | IRemove v => v end.

(** The C side: the set after the operation and the [success] flag. *)
Definition iop_run (junk : nat -> Z) (o : iop) (st : intset) : option (intset * Z) :=
  match o with
  | IAdd v => intsetAdd junk st v
  | IRemove v => intsetRemove junk st v
  end.

Fixpoint iop_runs (junk : nat -> Z) (os : list iop) (st : intset) : option (intset * list Z) :=
  match os with
  | [] => Some (st, [])
  | o :: os =>
      '(st, f) ← iop_run junk o st;
      '(st, fs) ← iop_runs junk os st;
      Some (st, f :: fs)
  end.

(** The specification: a finite set and whether the operation changed it. *)
Definition iop_spec (o : iop) (X : gset Z) : gset Z * Z :=
  match o with
  | IAdd v => ({[v]} ∪ X, b2z (bool_decide (v ∉ X)))
  | IRemove v => (X ∖ {[v]}, b2z (bool_decide (v ∈ X)))
  end.

Fixpoint iop_specs (os : list iop) (X : gset Z) : gset Z * list Z :=
  match os with
  | [] => (X, [])
  | o :: os =>
      let '(X, f) := iop_spec o X in
      let '(X, fs) := iop_specs os X in (X, f :: fs)
  end.

(** [st] represents the finite set [X]. *)
Definition denotes (st : intset) (X : gset Z) : Prop :=
  exists vs, rep st vs /\ X = list_to_set vs.

Lemma rep_new : rep intsetNew [].
Proof. constructor; cbn; unfold enc_ok, INTSET_ENC_INT16, INTSET_MAX; auto; try lia; constructor. Qed.

Lemma rep_size st vs : rep st vs -> size (list_to_set vs : gset Z) = length vs.
Proof.
  intros Hrep. apply size_list_to_set. assert (increasing vs) as Hs by apply Hrep.
  clear Hrep. induction Hs as [|x l Hs IH Hx]; constructor; [|done].
  intros Hin. rewrite Forall_forall in Hx. specialize (Hx x Hin). lia.
Qed.

Lemma iop_run_spec junk o st X : denotes st X -> int64 (iop_value o) ->
  Z.of_nat (size X) + 1 < INTSET_MAX ->
  exists st', iop_run junk o st = Some (st', (iop_spec o X).2) /\ denotes st' (iop_spec o X).1.
Proof.
  intros (vs & Hrep & ->) Hv Hsz. rewrite (rep_size _ _ Hrep) in Hsz. destruct o as [v | v]; cbn in *.
  - destruct (intsetAdd_spec junk st vs v) as (st' & -> & ? & _); auto. exists st'. split.
    + do 3 f_equal. apply bool_decide_ext. set_solver.
    + eexists. split; [done |]. set_unfold. intros x. rewrite elem_of_set_insert. set_solver.
  - destruct (intsetRemove_spec junk st vs v) as (st' & -> & ?); auto. exists st'. split.
    + do 3 f_equal. apply bool_decide_ext. set_solver.
    + eexists. split; [done |]. set_unfold. intros x. rewrite elem_of_set_remove. set_solver.
Qed.

Lemma iop_spec_size o X : (size (iop_spec o X).1 <= S (size X))%nat.
Proof.
  destruct o; cbn.
  - rewrite size_union_alt, size_singleton. pose proof (subseteq_size (X ∖ {[v]}) X ltac:(set_solver)). lia.
  - pose proof (subseteq_size (X ∖ {[v]}) X ltac:(set_solver)). lia.
Qed.

Lemma iop_runs_spec junk os : forall st X, denotes st X ->
  Forall (fun o => int64 (iop_value o)) os ->
  Z.of_nat (size X) + zlen os < INTSET_MAX ->
  exists st', iop_runs junk os st = Some (st', (iop_specs os X).2) /\ denotes st' (iop_specs os X).1.
Proof.
  induction os as [|o os IH]; intros st X Hd Hos Hsz; [by eauto |].
  inversion_clear Hos. cbn [iop_runs iop_specs]. simpl length in Hsz.
  destruct (iop_run_spec junk o st X) as (st1 & -> & Hd1); auto; [lia |].
  pose proof (iop_spec_size o X). destruct (iop_spec o X) as [X1 f]. cbn in *.
  destruct (IH st1 X1) as (st2 & -> & Hd2); auto; [lia |].
  cbn. destruct (iop_specs os X1). eauto.
Qed.

(** C5. Any sequence of insertions and removals of 64-bit values on a fresh
    intset runs without leaving its memory, reports exactly the changes the
    mathematical set undergoes, and answers every later membership query as
    that set does; the encoding is upgraded on the way as values demand. *)
Theorem intset_refines_set junk os v :
  Forall (fun o => int64 (iop_value o)) os -> zlen os < INTSET_MAX -> int64 v ->
  exists st, iop_runs junk os intsetNew = Some (st, (iop_specs os ∅).2) /\
    intsetFind st v = Some (bool_decide (v ∈ (iop_specs os ∅).1)).
Proof.
  intros Hos Hn Hv. destruct (iop_runs_spec junk os intsetNew ∅) as (st & -> & vs & Hrep & ->); auto.
  { exists []. split; [apply rep_new | done]. }
  exists st. split; [done |]. rewrite (intsetFind_spec _ _ _ Hrep Hv). f_equal.
  apply bool_decide_ext. set_solver.
Qed.

Lemma intset_refines_set_witness : exists st,
  iop_runs (fun _ => 170) [IAdd 5; IAdd 70000; IAdd (-3); IAdd 5000000000; IRemove 5; IAdd 5; IRemove 9]
    intsetNew = Some (st, [1; 1; 1; 1; 1; 1; 0]) /\
  intsetFind st 70000 = Some true.
Proof.
  apply (intset_refines_set (fun _ => 170)
    [IAdd 5; IAdd 70000; IAdd (-3); IAdd 5000000000; IRemove 5; IAdd 5; IRemove 9] 70000).
  - repeat constructor; cbn; unfold LLONG_MIN, LLONG_MAX; lia.
  - vm_compute. done.
  - unfold int64, LLONG_MIN, LLONG_MAX. lia.
Defined.

(** C25. An insertion keeps the representation invariant (strictly increasing
    elements packed at one width, length field equal to their number), inserts
    at the rank of the value, reports whether the value is new, and widens the
    encoding exactly when the value does not fit the current one. *)
Theorem intsetAdd_correct junk st vs v :
  rep st vs -> int64 v -> zlen vs + 1 < INTSET_MAX ->
  exists st', intsetAdd junk st v = Some (st', b2z (bool_decide (v ∉ vs))) /\
    rep st' (set_insert v vs) /\
    encoding st' = Z.max (encoding st) (_intsetValueEncoding v).
Proof. apply intsetAdd_spec. Qed.

Definition ex_set : intset := mk_intset 2 3 (pack 2 [-7; 0; 300]).

Lemma ex_set_rep : rep ex_set [-7; 0; 300].
Proof.
  constructor; cbn; auto.
  - unfold enc_ok. auto.
  - repeat constructor; unfold in_enc; lia.
  - repeat constructor; lia.
  - done.
Qed.

Lemma intsetAdd_correct_witness : exists st',
  intsetAdd (fun _ => 255) ex_set (-40000) = Some (st', 1) /\
  rep st' [-40000; -7; 0; 300] /\ encoding st' = 4.
Proof.
  apply (intsetAdd_correct (fun _ => 255) ex_set [-7; 0; 300] (-40000)).
  - apply ex_set_rep.
  - unfold int64, LLONG_MIN, LLONG_MAX. lia.
  - done.
Defined.

(** A removal keeps the representation invariant, deletes exactly the given
    value and reports whether it was present. *)
Theorem intsetRemove_correct junk st vs v :
  rep st vs -> int64 v ->
  exists st', intsetRemove junk st v = Some (st', b2z (bool_decide (v ∈ vs))) /\
    rep st' (set_remove v vs).
Proof. apply intsetRemove_spec. Qed.

Lemma intsetRemove_correct_witness : exists st',
  intsetRemove (fun _ => 0) ex_set 0 = Some (st', 1) /\ rep st' [-7; 300].
Proof.
  apply (intsetRemove_correct (fun _ => 0) ex_set [-7; 0; 300] 0).
  - apply ex_set_rep.
  - unfold int64, LLONG_MIN, LLONG_MAX. lia.
Defined.

(** The binary search of [intsetSearch] terminates within [length] steps,
    reads only inside the array, reports membership exactly and, found or not,
    stores the number of smaller elements: the position of the value or the
    position to insert it at. *)
Theorem intsetSearch_correct st vs v : rep st vs ->
  intsetSearch st v = Some (bool_decide (v ∈ vs), Z.of_nat (rank v vs)).
Proof. apply search_spec. Qed.

Lemma intsetSearch_correct_witness : intsetSearch ex_set 12 = Some (false, 2).
Proof. apply (intsetSearch_correct ex_set [-7; 0; 300] 12), ex_set_rep. Defined.

End Intset.
