(* ===== verification/NumConv.v ===== *)
(** * Integers and decimal strings (vr_util.c)

    [digits10], [sdigits10], [ll2string], [string2ll], [string2l] and
    [_vr_atoi]: the conversions every command argument, every integer object
    and every compact encoding goes through.  A string is a list of bytes; the
    destination of [ll2string] is a byte buffer. *)

From S2P Require Import Prelude Bytes.

Module NumConv.

(** ** The code *)

(** [fuel] bounds the recursion on [v / 10^12]; two levels cover 64 bits. *)
Fixpoint digits10_rec (fuel : nat) (v : Z) : option Z :=
  match fuel with
  | O => None
  | S fuel =>
      if v <? 10 then Some 1
      else if v <? 100 then Some 2
      else if v <? 1000 then Some 3
      else if v <? 1000000000000 then
        if v <? 100000000 then
          if v <? 1000000 then
            if v <? 10000 then Some 4
            else Some (5 + b2z (v >=? 100000))
          else Some (7 + b2z (v >=? 10000000))
        else if v <? 10000000000 then Some (9 + b2z (v >=? 1000000000))
        else Some (11 + b2z (v >=? 100000000000))
      else d ← digits10_rec fuel (v / 1000000000000); Some (u32 (12 + d))
  end.

Definition digits10 (v : Z) : option Z := digits10_rec 2 v.

Definition sdigits10 (v : Z) : option Z :=
  if v <? 0 then
    let uv := if negb (v =? LLONG_MIN) then u64 (- v) else u64 (LLONG_MAX + 1) in
    d ← digits10 uv; Some (u32 (d + 1))
  else digits10 v.

(** The table of digit pairs 00, 01, ..., 99. *)
Definition digits : list Z :=
  concat (map (fun k => [48 + Z.of_nat k / 10; 48 + Z.of_nat k mod 10]) (seq 0 100)).

(** The digit loop and the handling of the last one or two digits. *)
Fixpoint ll2string_fill (fuel : nat) (dst : list Z) (next value : Z) : option (list Z) :=
  match fuel with
  | O => None
  | S fuel =>
      if value >=? 100 then
        let i := (value mod 100) * 2 in
        let value := value / 100 in
        d1 ← bget digits (i + 1);
        d0 ← bget digits i;
        dst ← bset dst next d1;
        dst ← bset dst (u32 (next - 1)) d0;
        ll2string_fill fuel dst (u32 (next - 2)) value
      else if value <? 10 then bset dst next (48 + value)
      else
        let i := value * 2 in
        d1 ← bget digits (i + 1);
        d0 ← bget digits i;
        dst ← bset dst next d1;
        bset dst (u32 (next - 1)) d0
  end.

(** The buffer after the call and the return value. *)
Definition ll2string (dst : list Z) (dstlen svalue : Z) : option (list Z * Z) :=
  let '(value, negative) :=
    if svalue <? 0 then
      (if negb (svalue =? LLONG_MIN) then u64 (- svalue) else u64 (LLONG_MAX + 1), 1)
    else (svalue, 0) in
  d ← digits10 value;
  let length := u32 (d + negative) in
  if length >=? dstlen then Some (dst, 0)
  else
    dst ← bset dst length 0;
    dst ← ll2string_fill 11 dst (u32 (length - 1)) value;
    dst ← (if negative =? 1 then bset dst 0 45 else Some dst);
    Some (dst, length).

Definition is_digit (c : Z) : bool := (48 <=? c) && (c <=? 57).

(** The accumulation loop; leaving it before the end of the string is the
    [plen < slen] failure after it. *)
Fixpoint string2ll_loop (p : list Z) (v : Z) : option Z :=
  match p with
  | [] => Some v
  | c :: p =>
      if is_digit c then
        if v >? ULLONG_MAX / 10 then None
        else
          let v := u64 (v * 10) in
          if v >? ULLONG_MAX - (c - 48) then None
          else string2ll_loop p (u64 (v + (c - 48)))
      else None
  end.

(** [None] is the return value 0, [Some v] the return value 1 with [*value = v]. *)
Definition string2ll (s : list Z) : option Z :=
  match s with
  | [] => None
  | c0 :: tl =>
      if bool_decide (tl = []) && (c0 =? 48) then Some 0
      else
        let negative := c0 =? 45 in
        let p := if negative then tl else s in
        match p with
        | [] => None
        | c :: p =>
            if (49 <=? c) && (c <=? 57) then
              v ← string2ll_loop p (c - 48);
              if negative then
                if v >? u64 (- (LLONG_MIN + 1)) + 1 then None else Some (s64 (- v))
              else if v >? LLONG_MAX then None else Some v
            else if (c =? 48) && (length s =? 1)%nat then Some 0
            else None
        end
  end.

(** [long] is 64 bits wide. *)
Definition string2l (s : list Z) : option Z :=
  llval ← string2ll s;
  if (llval <? LLONG_MIN) || (llval >? LLONG_MAX) then None else Some llval.

(** Overflow of the [int] accumulator is undefined: [None]. *)
Fixpoint vr_atoi_loop (line : list Z) (value : Z) : option Z :=
  match line with
  | [] => Some (if value <? 0 then -1 else value)
  | c :: line =>
      if (c <? 48) || (c >? 57) then Some (-1)
      else
        let value := value * 10 + (c - 48) in
        if value >? INT32_MAX then None else vr_atoi_loop line value
  end.

Definition _vr_atoi (line : list Z) : option Z :=
  match line with [] => Some (-1) | _ => vr_atoi_loop line 0 end.

(** ** Reference: decimal notation *)

(** The [n] low decimal digits of [v], most significant first. *)
Fixpoint udec (n : nat) (v : Z) : list Z :=
  match n with
  | O => []
  | S n => udec n (v / 10) ++ [48 + v mod 10]
  end.

Fixpoint ndigits_rec (fuel : nat) (v : Z) : nat :=
  match fuel with
  | O => 0
  | S fuel => if v <? 10 then 1 else S (ndigits_rec fuel (v / 10))
  end.

(** The number of decimal digits of a value below 10^20. *)
Definition ndigits (v : Z) : nat := ndigits_rec 20 v.
#[global] Arguments ndigits : simpl never.

(** The canonical decimal string of an integer. *)
Definition dec_string (v : Z) : list Z :=
  if v <? 0 then 45 :: udec (ndigits (- v)) (- v) else udec (ndigits v) v.

(** The value of a string of digits. *)
Definition dval (ds : list Z) : Z := fold_left (fun a c => a * 10 + (c - 48)) ds 0.

Definition int64 (v : Z) : Prop := LLONG_MIN <= v <= LLONG_MAX.

(** ** Lemmas on decimal notation *)

Lemma length_udec n v : length (udec n v) = n.
Proof. revert v. induction n; intros; simpl; [done |]. rewrite length_app, IHn. simpl. lia. Qed.

Lemma udec_two n v :
  udec (S (S n)) v = udec n (v / 100) ++ [48 + (v mod 100) / 10; 48 + (v mod 100) mod 10].
Proof.
  cbn [udec]. rewrite <- app_assoc, Z.div_div by lia. do 2 f_equal.
  change 100 with (10 * 10). rewrite Z.rem_mul_r by lia.
  rewrite (Z.mul_comm 10 (_ mod 10)), Z.div_add, Z.mod_add, Z.mod_mod by lia.
  rewrite (Z.div_small (v mod 10)) by (apply Z.mod_pos_bound; lia). done.
Qed.

(** [v] has exactly [n] digits. *)
Definition has_digits (n : nat) (v : Z) : Prop :=
  (1 <= n)%nat /\ 0 <= v < 10 ^ Z.of_nat n /\ (n = 1%nat \/ 10 ^ (Z.of_nat n - 1) <= v).

Lemma pow10_S n : 10 ^ Z.of_nat (S n) = 10 * 10 ^ Z.of_nat n.
Proof. rewrite Nat2Z.inj_succ, Z.pow_succ_r by lia. done. Qed.

Lemma pow10_pos n : 0 < 10 ^ Z.of_nat n.
Proof. apply Z.pow_pos_nonneg; lia. Qed.

Lemma has_digits_div n v : has_digits (S n) v -> (1 <= n)%nat -> has_digits n (v / 10).
Proof.
  unfold has_digits. intros (_ & Hv & Hlo) Hn. rewrite pow10_S in Hv. split; [done |].
  split; [split; [apply Z.div_pos; lia | apply Z.div_lt_upper_bound; lia] |].
  destruct Hlo as [? | Hlo]; [lia |]. right.
  replace (Z.of_nat (S n) - 1) with (Z.of_nat (S (n - 1))) in Hlo by lia.
  rewrite pow10_S in Hlo. replace (Z.of_nat n - 1) with (Z.of_nat (n - 1)) by lia.
  apply Z.div_le_lower_bound; lia.
Qed.

Lemma ndigits_unique_rec fuel n v : has_digits n v -> (n <= fuel)%nat -> ndigits_rec fuel v = n.
Proof.
  revert n v. induction fuel as [|fuel IH]; intros n v Hd Hf; [destruct Hd; lia |]. cbn [ndigits_rec].
  destruct (Z.ltb_spec v 10).
  - destruct Hd as (? & ? & [-> | Hlo]); [done |]. destruct n as [|[|n]]; [lia | done |].
    replace (Z.of_nat (S (S n)) - 1) with (Z.of_nat (S n)) in Hlo by lia.
    rewrite pow10_S in Hlo. pose proof (pow10_pos n). lia.
  - destruct n as [|[|n]]; [destruct Hd; lia | destruct Hd as (_ & ? & _); simpl in *; lia |].
    f_equal. apply IH; [|lia]. apply has_digits_div; [done | lia].
Qed.

Lemma ndigits_unique n v : has_digits n v -> (n <= 20)%nat -> ndigits v = n.
Proof. apply ndigits_unique_rec. Qed.

Lemma ndigits_ok v : 0 <= v < 10 ^ 20 -> has_digits (ndigits v) v.
Proof.
  assert (forall fuel v, 0 <= v < 10 ^ Z.of_nat (S fuel) -> has_digits (ndigits_rec (S fuel) v) v) as H.
  { induction fuel as [|fuel IH]; intros u Hu; cbn [ndigits_rec]; (destruct (Z.ltb_spec u 10); [by repeat split; auto; lia |]).
    - simpl in Hu. lia.
    - destruct (IH (u / 10)) as (H1 & H2 & H3).
      { rewrite pow10_S in Hu. split; [apply Z.div_pos; lia | apply Z.div_lt_upper_bound; lia]. }
      change (if u / 10 <? 10 then 1%nat else S (ndigits_rec fuel (u / 10 / 10)))
        with (ndigits_rec (S fuel) (u / 10)).
      set (n := ndigits_rec (S fuel) (u / 10)) in *. clearbody n. split; [lia |].
      pose proof (Z.div_mod u 10 ltac:(lia)). pose proof (Z.mod_pos_bound u 10 ltac:(lia)).
      rewrite pow10_S. split; [lia |]. right.
      replace (Z.of_nat (S n) - 1) with (Z.of_nat n) by lia.
      destruct H3 as [-> | H3]; [simpl; lia |].
      destruct n; [lia |]. replace (Z.of_nat (S n) - 1) with (Z.of_nat n) in H3 by lia.
      rewrite pow10_S. lia. }
  intros. apply H. done.
Qed.

Lemma has_digits_inj n m v : has_digits n v -> has_digits m v -> n = m.
Proof.
  intros Hn Hm. transitivity (ndigits_rec (n + m) v); [symmetry |];
    apply ndigits_unique_rec; auto; lia.
Qed.

Lemma has_digits_div_pow k n v : has_digits (k + n) v -> (1 <= n)%nat ->
  has_digits n (v / 10 ^ Z.of_nat k).
Proof.
  revert v. induction k as [|k IH]; intros v Hd Hn; [by rewrite Z.div_1_r |].
  rewrite pow10_S. pose proof (pow10_pos k). rewrite <- Z.div_div by lia.
  apply IH, Hn. apply has_digits_div; [done | lia].
Qed.

Lemma has_digits_mono n m v : has_digits n v -> 10 ^ Z.of_nat m <= v -> (m < n)%nat.
Proof.
  intros (_ & [_ Hhi] & _) Hm. apply Nat2Z.inj_lt, (Z.pow_lt_mono_r_iff 10); lia.
Qed.

(** ** [digits10] *)

Lemma digits10_rec_spec fuel v : forall n, has_digits n v -> (n <= 12 * fuel)%nat -> (n <= 100)%nat ->
  digits10_rec fuel v = Some (Z.of_nat n).
Proof.
  revert v. induction fuel as [|fuel IH]; intros v n Hd Hf Hn; [destruct Hd; lia |].
  assert (forall m, (1 <= m <= 12)%nat -> 0 <= v < 10 ^ Z.of_nat m ->
    m = 1%nat \/ 10 ^ (Z.of_nat m - 1) <= v -> Some (Z.of_nat m) = Some (Z.of_nat n)) as Heq.
  { intros m ? ? ?. do 2 f_equal. apply (has_digits_inj m n v); [split; [lia | by split] | done]. }
  assert (0 <= v) by (destruct Hd as (_ & ? & _); lia).
  cbn [digits10_rec]. rewrite !Z.geb_leb.
  repeat match goal with |- context [?x <? ?y] => destruct (Z.ltb_spec x y) end;
  repeat match goal with |- context [?x <=? ?y] => destruct (Z.leb_spec x y) end;
  cbn [b2z].
  all: try match goal with |- Some ?e = _ =>
    let m := eval vm_compute in (Z.to_nat e) in apply (Heq m); simpl; lia end.
  change 1000000000000 with (10 ^ Z.of_nat 12) in *.
  pose proof (has_digits_mono n 12 v Hd ltac:(lia)). replace n with (12 + (n - 12))%nat in Hd by lia.
  apply has_digits_div_pow in Hd; [|lia]. erewrite IH by (eauto; lia). cbn [mbind option_bind].
  rewrite uwrap_small by lia. f_equal. lia.
Qed.

Lemma digits10_spec v : 0 <= v < 2 ^ 64 -> digits10 v = Some (Z.of_nat (ndigits v)).
Proof.
  intros Hv. assert (has_digits (ndigits v) v) as Hd by (apply ndigits_ok; lia).
  assert (ndigits v < 21)%nat.
  { destruct Hd as (_ & _ & [-> | Hlo]); [lia |]. apply Nat2Z.inj_lt.
    assert (10 ^ (Z.of_nat (ndigits v) - 1) < 10 ^ 20) as Hp by lia.
    apply Z.pow_lt_mono_r_iff in Hp; lia. }
  apply digits10_rec_spec; [done | lia..].
Qed.

(** ** [ll2string] *)

Lemma digits_table k : 0 <= k < 100 ->
  bget digits (k * 2) = Some (48 + k / 10) /\ bget digits (k * 2 + 1) = Some (48 + k mod 10).
Proof.
  intros Hk. assert (forallb (fun k => bool_decide (bget digits (k * 2) = Some (48 + k / 10) /\
    bget digits (k * 2 + 1) = Some (48 + k mod 10))) (map Z.of_nat (seq 0 100)) = true) as H
    by (vm_compute; reflexivity).
  rewrite forallb_forall in H. specialize (H k). apply bool_decide_eq_true in H; [done |].
  apply in_map_iff. exists (Z.to_nat k). split; [lia |]. apply in_seq. lia.
Qed.

(** Two adjacent stores, high digit last. *)
Lemma bset_pair x a b z i d1 d0 : i = zlen x + 1 -> i < 2 ^ 32 ->
  0 <= d1 < 256 -> 0 <= d0 < 256 ->
  (dst ← bset (x ++ a :: b :: z) i d1; bset dst (u32 (i - 1)) d0) = Some (x ++ d0 :: d1 :: z).
Proof.
  intros -> Hi H1 H0. replace (x ++ a :: b :: z) with ((x ++ [a]) ++ b :: z) by by rewrite <- app_assoc.
  rewrite bset_mid by len. cbn [mbind option_bind]. rewrite <- app_assoc. cbn [app].
  rewrite bset_mid by (rewrite uwrap_small; lia). by rewrite !uwrap_small by lia.
Qed.

(** A table lookup of both digits of [k < 100], then the two stores. *)
Lemma store_pair x a b z i k : 0 <= k < 100 -> i = zlen x + 1 -> i < 2 ^ 32 ->
  (d1 ← bget digits (k * 2 + 1);
   d0 ← bget digits (k * 2);
   dst ← bset (x ++ a :: b :: z) i d1;
   bset dst (u32 (i - 1)) d0) = Some (x ++ [48 + k / 10; 48 + k mod 10] ++ z).
Proof.
  intros Hk Hi Hlt. destruct (digits_table k Hk) as [-> ->]. cbn [mbind option_bind].
  pose proof (Z.mod_pos_bound k 10 ltac:(lia)).
  assert (0 <= k / 10 < 10) by (split; [apply Z.div_pos | apply Z.div_lt_upper_bound]; lia).
  apply bset_pair; lia.
Qed.

Lemma two_last (y : list Z) n : length y = S (S n) ->
  exists y' a b, y = y' ++ [a; b] /\ length y' = n.
Proof.
  intros Hy. exists (take n y). destruct (drop n y) as [|a [|b [|c l]]] eqn:E;
    apply (f_equal length) in E as E'; rewrite length_drop in E'; simpl in E'; try lia.
  exists a, b. split; [by rewrite <- E, take_drop | len].
Qed.

Lemma fill_spec fuel : forall n v x y z next, has_digits n v -> (n <= 2 * fuel)%nat ->
  length y = n -> next = zlen x + Z.of_nat n - 1 -> zlen x + Z.of_nat n < 2 ^ 32 ->
  ll2string_fill fuel (x ++ y ++ z) next v = Some (x ++ udec n v ++ z).
Proof.
  induction fuel as [|fuel IH]; intros n v x y z next Hd Hf Hy Hnext Hlt; [destruct Hd; lia |].
  cbn [ll2string_fill]. rewrite Z.geb_leb. destruct (Z.leb_spec 100 v) as [Hge | Hlt100].
  - pose proof (has_digits_mono n 2 v Hd Hge). destruct n as [|[|n]]; [lia.. |].
    apply (has_digits_div_pow 2 n v) in Hd; [|lia]. change (10 ^ Z.of_nat 2) with 100 in Hd.
    destruct (two_last y n Hy) as (y' & a & b & -> & Hy').
    pose proof (Z.mod_pos_bound v 100 ltac:(lia)).
    pose proof (store_pair (x ++ y') a b z next (v mod 100) ltac:(done) ltac:(len) ltac:(lia)) as Hst.
    rewrite <- !app_assoc in Hst |- *. cbn [app] in Hst |- *.
    destruct (bget digits (v mod 100 * 2 + 1)); [|done].
    destruct (bget digits (v mod 100 * 2)); [|done]. cbn [mbind option_bind] in Hst |- *.
    destruct (bset _ next _); [|done]. cbn [mbind option_bind] in Hst |- *. rewrite Hst.
    cbn [mbind option_bind]. rewrite <- app_assoc.
    rewrite (IH n) by (done || lia || (rewrite uwrap_small; lia)).
    by rewrite udec_two, <- app_assoc.
  - assert (0 <= v) by (destruct Hd as (_ & ? & _); lia). destruct (Z.ltb_spec v 10).
    + rewrite (has_digits_inj n 1 v) in * by (done || (repeat split; auto; lia)).
      destruct y as [|a [|]]; try done. cbn [app]. rewrite bset_mid by (simpl in *; lia).
      cbn [udec app]. rewrite uwrap_small, Z.mod_small by lia. done.
    + rewrite (has_digits_inj n 2 v) in * by (done || (repeat split; simpl; auto; lia)).
      destruct y as [|a [|b [|]]]; try done. cbn [app].
      rewrite (store_pair x a b z next v) by (simpl in *; lia).
      rewrite udec_two, (Z.mod_small v 100) by lia. done.
Qed.

Lemma uabs_digits v : int64 v -> has_digits (ndigits (Z.abs v)) (Z.abs v) /\
  (ndigits (Z.abs v) <= 20)%nat /\ digits10 (Z.abs v) = Some (Z.of_nat (ndigits (Z.abs v))).
Proof.
  unfold int64, LLONG_MIN, LLONG_MAX. intros Hv.
  assert (has_digits (ndigits (Z.abs v)) (Z.abs v)) as Hd by (apply ndigits_ok; lia).
  split; [done |]. split; [|apply digits10_spec; lia].
  destruct Hd as (_ & _ & [-> | Hlo]); [lia |].
  assert (10 ^ (Z.of_nat (ndigits (Z.abs v)) - 1) < 10 ^ 20) as Hp by lia.
  apply Z.pow_lt_mono_r_iff in Hp; lia.
Qed.

Lemma length_dec_string v :
  zlen (dec_string v) = Z.of_nat (ndigits (Z.abs v)) + (if v <? 0 then 1 else 0).
Proof.
  unfold dec_string. destruct (Z.ltb_spec v 0); simpl length; rewrite length_udec.
  - rewrite Z.abs_neq by lia. lia.
  - rewrite Z.abs_eq by lia. lia.
Qed.

(** The buffer is split as the string, its terminator and an untouched rest. *)
Lemma ll2string_spec dst dstlen v : int64 v -> dstlen <= zlen dst ->
  ll2string dst dstlen v =
    if zlen (dec_string v) <? dstlen
    then Some (dec_string v ++ 0 :: drop (length (dec_string v) + 1) dst, zlen (dec_string v))
    else Some (dst, 0).
Proof.
  intros Hv Hdst. destruct (uabs_digits v Hv) as (Hd & Hn & Hd10). unfold ll2string.
  unfold int64, LLONG_MIN, LLONG_MAX in Hv.
  assert ((if v <? 0 then
      (if negb (v =? LLONG_MIN) then u64 (- v) else u64 (LLONG_MAX + 1), 1) else (v, 0)) =
      (Z.abs v, if v <? 0 then 1 else 0)) as ->.
  { unfold LLONG_MIN, LLONG_MAX. destruct (Z.ltb_spec v 0); [|f_equal; lia].
    destruct (Z.eqb_spec v (-9223372036854775808)) as [-> |]; [done |].
    cbn [negb]. rewrite uwrap_small by lia. f_equal. lia. }
  rewrite Hd10. cbn [mbind option_bind]. pose proof (length_dec_string v) as Hlen.
  rewrite (uwrap_small 32) by (case_match; lia). rewrite <- Hlen, Z.geb_leb.
  destruct (Z.leb_spec dstlen (zlen (dec_string v))); zguard; [done |].
  destruct (take_drop_app dst (length (dec_string v))) as (y & z & -> & Hy); [lia |].
  rewrite length_app in *. destruct z as [|c z]; [simpl length in *; lia |].
  rewrite bset_mid by lia. cbn [mbind option_bind]. change (u8 0) with 0.
  replace (drop (length (dec_string v) + 1) (y ++ c :: z)) with z
    by (rewrite <- drop_drop, drop_app_exact by lia; done).
  unfold dec_string in *. destruct (Z.ltb_spec v 0).
  - rewrite Z.abs_neq in * by lia. destruct y as [|c0 y]; [simpl length in *; lia |].
    simpl length in *. rewrite length_udec in *.
    set (n := ndigits (- v)) in *. clearbody n. rewrite (uwrap_small 32) by lia.
    change ((c0 :: y) ++ 0 :: z) with ([c0] ++ y ++ 0 :: z).
    rewrite (fill_spec 11 n) by (exact Hd || simpl length; lia).
    cbn [mbind option_bind Z.eqb Pos.eqb app]. by rewrite bset_start.
  - rewrite Z.abs_eq in * by lia. rewrite length_udec in *.
    assert (1 <= ndigits v)%nat by apply Hd.
    set (n := ndigits v) in *. clearbody n. rewrite (uwrap_small 32) by lia.
    change (y ++ 0 :: z) with ([] ++ y ++ 0 :: z).
    rewrite (fill_spec 11 n) by (exact Hd || simpl length; lia). done.
Qed.

(** ** [string2ll] *)

Definition all_digits (ds : list Z) : Prop := Forall (fun c => 48 <= c <= 57) ds.

(** The unbounded value of the digits [p] read after a prefix of value [v]. *)
Definition dfold (p : list Z) (v : Z) : Z := fold_left (fun a c => a * 10 + (c - 48)) p v.

Lemma dval_snoc ds c : dval (ds ++ [c]) = dval ds * 10 + (c - 48).
Proof. unfold dval. by rewrite fold_left_app. Qed.

Lemma udec_dval ds : all_digits ds ->
  udec (length ds) (dval ds) = ds /\ 0 <= dval ds < 10 ^ zlen ds.
Proof.
  induction ds as [|c ds IH] using rev_ind; intros Hd; [done |].
  apply Forall_app in Hd as [Hd Hc]. inversion_clear Hc as [|? ? Hc' _].
  destruct (IH Hd) as [IH1 IH2].
  rewrite length_app, Nat.add_comm. cbn [length Nat.add udec]. rewrite dval_snoc, pow10_S.
  replace ((dval ds * 10 + (c - 48)) / 10) with (dval ds)
    by (apply Z.div_unique with (c - 48); lia).
  replace ((dval ds * 10 + (c - 48)) mod 10) with (c - 48)
    by (apply Z.mod_unique with (dval ds); lia).
  rewrite IH1. split; [do 2 f_equal; lia | lia].
Qed.

Lemma dval_udec n v : 0 <= v < 10 ^ Z.of_nat n -> dval (udec n v) = v /\ all_digits (udec n v).
Proof.
  revert v. induction n as [|n IH]; intros v Hv; [cbn in *; split; [lia | constructor] |].
  rewrite pow10_S in Hv. cbn [udec]. destruct (IH (v / 10)) as [IH1 IH2].
  { split; [apply Z.div_pos; lia | apply Z.div_lt_upper_bound; lia]. }
  pose proof (Z.mod_pos_bound v 10 ltac:(lia)). pose proof (Z.div_mod v 10 ltac:(lia)).
  rewrite dval_snoc, IH1. split; [lia |]. apply Forall_app. split; [done |].
  apply Forall_singleton. lia.
Qed.

Lemma dfold_lower p v : all_digits p -> 0 <= v -> v * 10 ^ zlen p <= dfold p v.
Proof.
  intros Hp. revert v. induction Hp as [|c p Hc Hp IH]; intros v Hv; [cbn; lia |].
  cbn [length]. rewrite pow10_S. unfold dfold in *. cbn [fold_left].
  specialize (IH (v * 10 + (c - 48)) ltac:(lia)). pose proof (pow10_pos (length p)). nia.
Qed.

Lemma string2ll_loop_spec p : forall v r, 0 <= v <= ULLONG_MAX ->
  string2ll_loop p v = Some r <-> all_digits p /\ dfold p v = r /\ r <= ULLONG_MAX.
Proof.
  induction p as [|c p IH]; intros v r Hv.
  { cbn. split; [intros [= <-] | intros (_ & -> & _)]; [|done]. split; [constructor | lia]. }
  cbn [string2ll_loop]. unfold is_digit, all_digits. rewrite Forall_cons, !Z.gtb_ltb.
  destruct (Z.leb_spec 48 c); [| by split; [|lia]].
  destruct (Z.leb_spec c 57); [| by split; [|lia]]. cbn [andb].
  assert (forall q, all_digits q -> v * 10 + (c - 48) <= dfold (c :: q) v) as Hlow.
  { intros q Hq. pose proof (dfold_lower q (v * 10 + (c - 48)) Hq ltac:(lia)).
    pose proof (pow10_pos (length q)). unfold dfold in *. cbn [fold_left]. nia. }
  assert (ULLONG_MAX / 10 = 1844674407370955161) as -> by done. unfold ULLONG_MAX in *.
  destruct (Z.ltb_spec 1844674407370955161 v).
  { split; [done |]. intros ([_ Hp] & <- & Hle). specialize (Hlow p Hp). lia. }
  rewrite (uwrap_small 64 (v * 10)) by lia.
  destruct (Z.ltb_spec (18446744073709551615 - (c - 48)) (v * 10)).
  { split; [done |]. intros ([_ Hp] & <- & Hle). specialize (Hlow p Hp). lia. }
  rewrite uwrap_small, IH by lia. unfold dfold, all_digits. cbn [fold_left].
  split; intros (? & ? & ?); repeat split; auto; try lia. tauto.
Qed.

(** A non-zero leading digit makes the digits canonical. *)
Lemma canonical_digits c p r : 49 <= c <= 57 -> r < 10 ^ 20 ->
  all_digits p /\ dfold p (c - 48) = r <-> 1 <= r /\ c :: p = udec (ndigits r) r.
Proof.
  intros Hc Hr. split.
  - intros [Hp <-]. assert (all_digits (c :: p)) as Hcp by (constructor; [lia | done]).
    destruct (udec_dval _ Hcp) as [Hu Hb].
    assert (dval (c :: p) = dfold p (c - 48)) as Hdv by done. rewrite Hdv in Hu, Hb.
    pose proof (dfold_lower p (c - 48) Hp ltac:(lia)). pose proof (pow10_pos (length p)).
    split; [nia |]. cbn [length] in *. rewrite (ndigits_unique (S (length p))); [done | |].
    + split; [lia |]. split; [done |]. right.
      replace (Z.of_nat (S (length p)) - 1) with (zlen p) by lia. nia.
    + apply Nat2Z.inj_le. assert (10 ^ zlen p < 10 ^ 20) as Hlt by nia.
      apply Z.pow_lt_mono_r_iff in Hlt; lia.
  - intros [Hr1 Heq]. destruct (ndigits_ok r ltac:(lia)) as (_ & Hb & _).
    destruct (dval_udec _ _ Hb) as [Hd Hdig]. rewrite <- Heq in Hd, Hdig.
    inversion_clear Hdig. split; [done |]. by rewrite <- Hd.
Qed.

Lemma udec_leading r : 1 <= r < 10 ^ 20 -> exists c p, udec (ndigits r) r = c :: p /\ 49 <= c <= 57.
Proof.
  intros Hr. destruct (ndigits_ok r ltac:(lia)) as (H1 & Hb & Hlo).
  destruct (dval_udec _ _ Hb) as [Hd Hdig]. pose proof (length_udec (ndigits r) r) as Hl.
  destruct (udec (ndigits r) r) as [|c p]; [simpl in Hl; lia |].
  exists c, p. split; [done |]. inversion_clear Hdig as [|? ? Hc Hp].
  destruct (decide (c = 48)) as [-> |]; [|lia].
  change (dval (48 :: p)) with (dval p) in Hd. destruct (udec_dval p Hp) as [_ Hbp].
  simpl in Hl. rewrite <- Hl in Hlo. replace (Z.of_nat (S (length p)) - 1) with (zlen p) in Hlo by lia.
  destruct Hlo as [Hlo |]; [|lia]. destruct p; [cbn in Hd; lia | simpl in Hlo; lia].
Qed.

Lemma magnitude_spec c p r : 49 <= c <= 57 ->
  string2ll_loop p (c - 48) = Some r <-> 1 <= r <= ULLONG_MAX /\ c :: p = udec (ndigits r) r.
Proof.
  intros Hc. unfold ULLONG_MAX. rewrite string2ll_loop_spec by (unfold ULLONG_MAX; lia).
  unfold ULLONG_MAX. split.
  - intros (Hp & Hr & Hle). destruct (canonical_digits c p r Hc ltac:(lia)) as [H _].
    destruct H; auto with lia.
  - intros [Hr Heq]. destruct (canonical_digits c p r Hc ltac:(lia)) as [_ H].
    destruct H; auto with lia.
Qed.

Lemma dec_string_pos v : 0 <= v -> dec_string v = udec (ndigits v) v.
Proof. intros. unfold dec_string. by zguard. Qed.

Lemma dec_string_neg v : v < 0 -> dec_string v = 45 :: udec (ndigits (- v)) (- v).
Proof. intros. unfold dec_string. by zguard. Qed.

(** Soundness: what the parser accepts is canonical. *)
Lemma string2ll_sound s v : string2ll s = Some v -> int64 v /\ s = dec_string v.
Proof.
  unfold string2ll, int64, LLONG_MIN, LLONG_MAX. destruct s as [|c0 tl]; [done |].
  case_bool_decide as Htl; cbn [andb].
  1: subst tl; destruct (Z.eqb_spec c0 48) as [-> |]; [intros [= <-]; split; [lia | done] |].
  all: destruct (Z.eqb_spec c0 45) as [-> |].
  1: done.
  2: destruct tl as [|c p]; [done |].
  all: repeat match goal with
    | |- context [49 <=? ?c] => destruct (Z.leb_spec 49 c)
    | |- context [?c <=? 57] => destruct (Z.leb_spec c 57)
    end; cbn [andb length Nat.eqb].
  all: try match goal with |- context [string2ll_loop ?q (?c - 48)] =>
    destruct (string2ll_loop q (c - 48)) as [r|] eqn:E; cbn [mbind option_bind]; [|done];
    apply magnitude_spec in E as [Hr Hs]; [|lia]; rewrite ?Z.gtb_ltb; unfold ULLONG_MAX in Hr;
    zcase; [done |]; intros [= <-] end.
  all: try (rewrite ?andb_false_r; intros ?; simplify_eq;
            destruct (Z.eqb_spec c0 48), tl; simplify_eq; done).
  all: try (rewrite (proj2 (Z.eqb_neq c0 48)) by lia; done).
  - split; [lia |]. by rewrite dec_string_pos by lia.
  - change (u64 (- (-9223372036854775808 + 1))) with 9223372036854775807 in *. rewrite swrap_small by (simpl; lia).
    split; [lia |]. rewrite dec_string_neg, Z.opp_involutive by lia. by f_equal.
  - split; [lia |]. by rewrite dec_string_pos by lia.
Qed.

(** Completeness: every canonical string is accepted. *)
Lemma string2ll_complete v : int64 v -> string2ll (dec_string v) = Some v.
Proof.
  unfold int64, LLONG_MIN, LLONG_MAX. intros Hv.
  destruct (Z.lt_trichotomy v 0) as [Hneg | [-> | Hpos]]; [| done |].
  - rewrite dec_string_neg by done. destruct (udec_leading (- v)) as (c & p & Heq & Hc); [lia |].
    rewrite Heq. cbn -[string2ll_loop Z.leb swrap uwrap]. do 2 zguard. cbn [andb].
    rewrite (proj2 (magnitude_spec c p (- v) Hc)) by (unfold ULLONG_MAX; split; [lia | done]).
    cbn [mbind option_bind]. rewrite Z.gtb_ltb, uwrap_small by (unfold LLONG_MIN; simpl; lia).
    unfold LLONG_MIN. zguard. f_equal. rewrite swrap_small; simpl; lia.
  - rewrite dec_string_pos by lia. destruct (udec_leading v) as (c & p & Heq & Hc); [lia |].
    rewrite Heq. unfold string2ll. assert ((c =? 48) = false) as -> by (apply Z.eqb_neq; lia).
    rewrite andb_false_r. zguard. do 2 zguard. cbn [andb].
    rewrite (proj2 (magnitude_spec c p v Hc)) by (unfold ULLONG_MAX; split; [lia | done]).
    cbn [mbind option_bind]. rewrite Z.gtb_ltb. unfold LLONG_MAX. by zguard.
Qed.

(** ** Properties *)

(** C22. [string2ll] accepts exactly the canonical decimal notation of the
    64-bit signed integers and returns the integer denoted: no leading zeros,
    no plus sign, no minus zero, no value out of range, in both directions. *)
Theorem string2ll_canonical s v :
  string2ll s = Some v <-> int64 v /\ s = dec_string v.
Proof.
  split; [apply string2ll_sound |]. intros [Hv ->]. by apply string2ll_complete.
Qed.

(** [ll2string] stays inside the destination.  When the canonical decimal
    string and its terminator fit in [dstlen] bytes it writes exactly them,
    leaves the rest of the buffer as it was and returns the length; otherwise
    it returns 0 and writes nothing. *)
Theorem ll2string_correct dst dstlen v : int64 v -> dstlen <= zlen dst ->
  ll2string dst dstlen v =
    if zlen (dec_string v) <? dstlen
    then Some (dec_string v ++ 0 :: drop (length (dec_string v) + 1) dst, zlen (dec_string v))
    else Some (dst, 0).
Proof. apply ll2string_spec. Qed.

Lemma ll2string_correct_witness :
  ll2string (replicate 8 255) 8 (-1070) = Some ([45; 49; 48; 55; 48; 0; 255; 255], 5).
Proof.
  rewrite (ll2string_correct (replicate 8 255) 8 (-1070)).
  - reflexivity.
  - unfold int64, LLONG_MIN, LLONG_MAX. lia.
  - simpl. lia.
Defined.

(** Printing then parsing is the identity on 64-bit integers, for every
    buffer large enough. *)
Theorem ll2string_string2ll_roundtrip dst dstlen v :
  int64 v -> zlen (dec_string v) < dstlen <= zlen dst ->
  exists dst' n, ll2string dst dstlen v = Some (dst', n) /\ 0 < n /\
    (s ← bread dst' 0 n; string2ll s) = Some v.
Proof.
  intros Hv Hd. rewrite ll2string_spec by (done || lia). zguard. do 2 eexists. split; [done |].
  split; [| by rewrite bread_start; [apply string2ll_complete |]].
  rewrite length_dec_string. destruct (uabs_digits v Hv) as ([? _] & _). case_match; lia.
Qed.

Lemma ll2string_string2ll_roundtrip_witness : exists dst' n,
  ll2string (replicate 21 0) 21 LLONG_MIN = Some (dst', n) /\ 0 < n /\
  (s ← bread dst' 0 n; string2ll s) = Some LLONG_MIN.
Proof.
  apply (ll2string_string2ll_roundtrip (replicate 21 0) 21 LLONG_MIN).
  - unfold int64, LLONG_MIN, LLONG_MAX. lia.
  - vm_compute. split; congruence.
Defined.

Lemma sdigits10_spec v : int64 v -> sdigits10 v = Some (zlen (dec_string v)).
Proof.
  intros Hv. destruct (uabs_digits v Hv) as (_ & Hn & Hd). rewrite length_dec_string.
  unfold sdigits10. unfold int64, LLONG_MIN, LLONG_MAX in *. destruct (Z.ltb_spec v 0).
  - assert ((if negb (v =? -9223372036854775808) then u64 (- v) else u64 (9223372036854775807 + 1))
      = Z.abs v) as ->.
    { destruct (Z.eqb_spec v (-9223372036854775808)) as [-> |]; [done |].
      cbn [negb]. rewrite uwrap_small by lia. lia. }
    rewrite Hd. cbn [mbind option_bind]. rewrite uwrap_small by lia. done.
  - rewrite Z.abs_eq in * by lia. rewrite Hd. f_equal. lia.
Qed.

(** [sdigits10] is the length of the canonical decimal string, for every
    64-bit signed integer including the most negative one. *)
Theorem sdigits10_length v : int64 v -> sdigits10 v = Some (zlen (dec_string v)).
Proof. apply sdigits10_spec. Qed.

Lemma sdigits10_length_witness : sdigits10 (-9223372036854775808) = Some 20.
Proof. apply (sdigits10_length (-9223372036854775808)). unfold int64, LLONG_MIN, LLONG_MAX. lia. Defined.

(** [_vr_atoi] on digits: the value while it fits an [int]. *)
Lemma vr_atoi_loop_spec line v : all_digits line -> 0 <= v -> dfold line v <= INT32_MAX ->
  vr_atoi_loop line v = Some (dfold line v).
Proof.
  intros Hd. revert v. induction Hd as [|c line Hc Hd IH]; intros v Hv Hle; cbn [vr_atoi_loop].
  - cbn. by zguard.
  - rewrite !Z.gtb_ltb. do 2 zguard. cbn [orb].
    pose proof (dfold_lower line (v * 10 + (c - 48)) Hd ltac:(lia)).
    pose proof (pow10_pos (length line)). unfold dfold in *. cbn [fold_left] in *.
    assert ((INT32_MAX <? v * 10 + (c - 48)) = false) as -> by (apply Z.ltb_ge; nia).
    apply IH; lia.
Qed.

(** [_vr_atoi] is the value of a non-empty string of digits whenever it
    fits an [int], with no overflow on the way. *)
Theorem vr_atoi_correct line : all_digits line -> line <> [] -> dval line <= INT32_MAX ->
  _vr_atoi line = Some (dval line).
Proof. intros Hd Hne Hle. destruct line; [done |]. by apply vr_atoi_loop_spec. Qed.

Lemma vr_atoi_correct_witness : _vr_atoi [48; 54; 51; 55; 57] = Some 6379.
Proof.
  apply (vr_atoi_correct [48; 54; 51; 55; 57]).
  - repeat constructor; lia.
  - done.
  - vm_compute. congruence.
Defined.

End NumConv.
