(* ===== verification/Dict.v ===== *)
(** * Hash tables with incremental rehashing (vr_dict.c): the code

    A [dict] holds two bucket arrays; while [rehashidx] is not -1 the entries
    of the first are being moved, a bucket at a time, to the second.  A bucket
    is the list of its chain; an entry pointer is the path to the entry (table,
    bucket, position in the chain).  Dereferencing a NULL table or indexing
    outside it is [None].

    The hash, comparison and duplication callbacks of [dictType] are the class
    [DictType]; the laws callers rely on are the class [DictTypeLaws]. *)

From S2P Require Import Prelude Bytes.

Class DictType (K V : Type) := {
  hashFunction : K -> Z;
  keyCompare : K -> K -> bool;
  keyDup : K -> K;
  valDup : V -> V
}.

(** Keys compare by an equivalence the hash respects; duplicates compare equal
    to their originals; hashes are [unsigned int]. *)
Class DictTypeLaws (K V : Type) `{DictType K V} := {
  hash_range k : 0 <= hashFunction k < 2 ^ 32;
  cmp_refl k : keyCompare k k = true;
  cmp_sym k1 k2 : keyCompare k1 k2 = keyCompare k2 k1;
  cmp_trans k1 k2 k3 : keyCompare k1 k2 = true -> keyCompare k2 k3 = true -> keyCompare k1 k3 = true;
  cmp_hash k1 k2 : keyCompare k1 k2 = true -> hashFunction k1 = hashFunction k2;
  cmp_dup k : keyCompare k (keyDup k) = true
}.

Module Dict.

Section Code.
Context {K V : Type} `{DT : DictType K V}.

(** [val] is [None] until the entry's value is first stored. *)
Record dictEntry := mk_entry { key : K; val : option V }.

Record dictht := mk_ht {
  table : option (list (list dictEntry));
  size : Z;
  sizemask : Z;
  used : Z
}.

Record dict := mk_dict {
  ht0 : dictht;
  ht1 : dictht;
  rehashidx : Z;
  iterators : Z
}.

Definition DICT_OK : Z := 0.
Definition DICT_ERR : Z := 1.
Definition DICT_HT_INITIAL_SIZE : Z := 4.
Definition dict_force_resize_ratio : Z := 5.
Definition LONG_MAX : Z := 2 ^ 63 - 1.

Definition dictIsRehashing (d : dict) : bool := negb (rehashidx d =? -1).
Definition dictSize (d : dict) : Z := u64 (used (ht0 d) + used (ht1 d)).
Definition dictSlots (d : dict) : Z := u64 (size (ht0 d) + size (ht1 d)).

(** [ht[j]], and its update. *)
Definition get_ht (d : dict) (j : bool) : dictht := if j then ht1 d else ht0 d.
Definition set_ht (d : dict) (j : bool) (h : dictht) : dict :=
  if j then mk_dict (ht0 d) h (rehashidx d) (iterators d)
  else mk_dict h (ht1 d) (rehashidx d) (iterators d).
Definition set_rehashidx (d : dict) (i : Z) : dict := mk_dict (ht0 d) (ht1 d) i (iterators d).
Definition set_iterators (d : dict) (n : Z) : dict := mk_dict (ht0 d) (ht1 d) (rehashidx d) n.

(** [ht->table[idx]], and its update. *)
Definition bucket (h : dictht) (idx : Z) : option (list dictEntry) :=
  t ← table h; if 0 <=? idx then t !! Z.to_nat idx else None.

Definition set_bucket (h : dictht) (idx : Z) (b : list dictEntry) : option dictht :=
  t ← table h;
  if (0 <=? idx) && (idx <? zlen t)
  then Some (mk_ht (Some (<[Z.to_nat idx := b]> t)) (size h) (sizemask h) (used h))
  else None.

Definition set_used (h : dictht) (n : Z) : dictht := mk_ht (table h) (size h) (sizemask h) n.

Definition _dictReset : dictht := mk_ht None 0 0 0.

(** [dictCreate] allocates and calls [_dictInit]. *)
Definition _dictInit : dict := mk_dict _dictReset _dictReset (-1) 0.
Definition dictCreate : dict := _dictInit.

(** The doubling loop of [_dictNextPower]; 64 rounds exhaust an unsigned long. *)
Fixpoint next_power_loop (fuel : nat) (i size : Z) : option Z :=
  match fuel with
  | O => None
  | S fuel => if i >=? size then Some i else next_power_loop fuel (u64 (i * 2)) size
  end.

Definition _dictNextPower (size : Z) : option Z :=
  if size >=? LONG_MAX then Some LONG_MAX
  else next_power_loop 64 DICT_HT_INITIAL_SIZE size.

(** [dcalloc] of a bucket array: every chain NULL. *)
Definition new_ht (realsize : Z) : dictht :=
  mk_ht (Some (replicate (Z.to_nat realsize) [])) realsize (realsize - 1) 0.

(** The dictionary and the status. *)
Definition dictExpand (d : dict) (sz : Z) : option (dict * Z) :=
  realsize ← _dictNextPower sz;
  if dictIsRehashing d || (used (ht0 d) >? sz) then Some (d, DICT_ERR)
  else if realsize =? size (ht0 d) then Some (d, DICT_ERR)
  else
    let n := new_ht realsize in
    match table (ht0 d) with
    | None => Some (set_ht d false n, DICT_OK)
    | Some _ => Some (set_rehashidx (set_ht d true n) 0, DICT_OK)
    end.

(** [can_resize] is the static [dict_can_resize]. *)
Definition dictResize (can_resize : bool) (d : dict) : option (dict * Z) :=
  if negb can_resize || dictIsRehashing d then Some (d, DICT_ERR)
  else
    let minimal := s32 (used (ht0 d)) in
    let minimal := if minimal <? DICT_HT_INITIAL_SIZE then DICT_HT_INITIAL_SIZE else minimal in
    dictExpand d (u64 minimal).

(** The inner [while(de)] loop of [dictRehash]: every entry of the chain is
    pushed on the front of its bucket of the new table. *)
Fixpoint rehash_chain (de : list dictEntry) (h0 h1 : dictht) : option (dictht * dictht) :=
  match de with
  | [] => Some (h0, h1)
  | e :: nextde =>
      let h := Z.land (hashFunction (key e)) (sizemask h1) in
      b ← bucket h1 h;
      h1 ← set_bucket h1 h (e :: b);
      rehash_chain nextde (set_used h0 (u64 (used h0 - 1))) (set_used h1 (u64 (used h1 + 1)))
  end.

(** The inner loop over empty buckets.  [inl idx]: the budget of visits is
    spent and the function returns 1; [inr (idx, ev)]: bucket [idx] is not
    empty and [ev] visits are left. *)
Fixpoint rehash_skip (ev : nat) (h : dictht) (idx : Z) : option (Z + Z * nat) :=
  match ev with
  | O => None
  | S ev' =>
      b ← bucket h idx;
      match b with
      | [] =>
          let idx := idx + 1 in
          match ev' with
          | O => Some (inl idx)
          | _ => rehash_skip ev' h idx
          end
      | _ :: _ => Some (inr (idx, ev))
      end
  end.

(** The outer loop: [true] when it returned 1 from inside.  The assertion that
    the index is inside the first table is a [None] when violated. *)
Fixpoint rehash_loop (n : nat) (ev : nat) (d : dict) : option (dict * bool) :=
  match n with
  | O => Some (d, false)
  | S n =>
      if used (ht0 d) =? 0 then Some (d, false)
      else if negb (size (ht0 d) >? rehashidx d) then None
      else
        r ← rehash_skip ev (ht0 d) (rehashidx d);
        match r with
        | inl idx => Some (set_rehashidx d idx, true)
        | inr (idx, ev) =>
            de ← bucket (ht0 d) idx;
            '(h0, h1) ← rehash_chain de (ht0 d) (ht1 d);
            h0 ← set_bucket h0 idx [];
            rehash_loop n ev (mk_dict h0 h1 (idx + 1) (iterators d))
        end
  end.

(** The dictionary and the return value; [n] steps, a positive [int]. *)
Definition dictRehash (d : dict) (n : nat) : option (dict * Z) :=
  if negb (dictIsRehashing d) then Some (d, 0)
  else
    '(d, early) ← rehash_loop n (n * 10) d;
    if (early : bool) then Some (d, 1)
    else if used (ht0 d) =? 0
    then Some (mk_dict (ht1 d) _dictReset (-1) (iterators d), 0)
    else Some (d, 1).

Definition _dictRehashStep (d : dict) : option dict :=
  if iterators d =? 0 then '(d, _) ← dictRehash d 1; Some d else Some d.

(** [if (dictIsRehashing(d)) _dictRehashStep(d);] *)
Definition step_if_rehashing (d : dict) : option dict :=
  if dictIsRehashing d then _dictRehashStep d else Some d.

(** Position of the first entry of a chain that matches the key.  The pointer
    comparison the code tries first is subsumed by the reflexivity law. *)
Fixpoint find_in (b : list dictEntry) (k : K) : option nat :=
  match b with
  | [] => None
  | he :: b => if keyCompare k (key he) then Some 0%nat else S <$> find_in b k
  end.

Definition _dictExpandIfNeeded (can_resize : bool) (d : dict) : option (dict * Z) :=
  if dictIsRehashing d then Some (d, DICT_OK)
  else if size (ht0 d) =? 0 then dictExpand d DICT_HT_INITIAL_SIZE
  else if (used (ht0 d) >=? size (ht0 d)) &&
          (can_resize || (used (ht0 d) / size (ht0 d) >? dict_force_resize_ratio))
  then dictExpand d (u64 (used (ht0 d) * 2))
  else Some (d, DICT_OK).

(** The dictionary after the possible expansion, and the index or -1. *)
Definition _dictKeyIndex (can_resize : bool) (d : dict) (k : K) : option (dict * Z) :=
  '(d, st) ← _dictExpandIfNeeded can_resize d;
  if st =? DICT_ERR then Some (d, -1)
  else
    let h := hashFunction k in
    let idx := u32 (Z.land h (sizemask (ht0 d))) in
    b ← bucket (ht0 d) idx;
    match find_in b k with
    | Some _ => Some (d, -1)
    | None =>
        if negb (dictIsRehashing d) then Some (d, s32 idx)
        else
          let idx := u32 (Z.land h (sizemask (ht1 d))) in
          b ← bucket (ht1 d) idx;
          match find_in b k with
          | Some _ => Some (d, -1)
          | None => Some (d, s32 idx)
          end
    end.

(** An entry pointer: which table, which bucket, which place in the chain. *)
Definition eref : Type := bool * Z * nat.

Definition deref (d : dict) (r : eref) : option dictEntry :=
  let '(j, idx, p) := r in b ← bucket (get_ht d j) idx; b !! p.

(** [dictSetVal] through an entry pointer. *)
Definition dictSetVal (d : dict) (r : eref) (v : V) : option dict :=
  let '(j, idx, p) := r in
  b ← bucket (get_ht d j) idx;
  e ← b !! p;
  h ← set_bucket (get_ht d j) idx (<[p := mk_entry (key e) (Some (valDup v))]> b);
  Some (set_ht d j h).

(** The dictionary and the new entry, [None] for NULL. *)
Definition dictAddRaw (can_resize : bool) (d : dict) (k : K) : option (dict * option eref) :=
  d ← step_if_rehashing d;
  '(d, index) ← _dictKeyIndex can_resize d k;
  if index =? -1 then Some (d, None)
  else
    let j := dictIsRehashing d in
    let h := get_ht d j in
    b ← bucket h index;
    h ← set_bucket h index (mk_entry (keyDup k) None :: b);
    Some (set_ht d j (set_used h (u64 (used h + 1))), Some (j, index, 0%nat)).

Definition dictAdd (can_resize : bool) (d : dict) (k : K) (v : V) : option (dict * Z) :=
  '(d, entry) ← dictAddRaw can_resize d k;
  match entry with
  | None => Some (d, DICT_ERR)
  | Some r => d ← dictSetVal d r v; Some (d, DICT_OK)
  end.

(** Unlike upstream, the lookup does not advance a rehash: readers share the
    table under a read lock. *)
Definition dictFind (d : dict) (k : K) : option (option eref) :=
  if u64 (used (ht0 d) + used (ht1 d)) =? 0 then Some None
  else
    let h := hashFunction k in
    let idx := u32 (Z.land h (sizemask (ht0 d))) in
    b ← bucket (ht0 d) idx;
    match find_in b k with
    | Some p => Some (Some (false, idx, p))
    | None =>
        if negb (dictIsRehashing d) then Some None
        else
          let idx := u32 (Z.land h (sizemask (ht1 d))) in
          b ← bucket (ht1 d) idx;
          match find_in b k with
          | Some p => Some (Some (true, idx, p))
          | None => Some None
          end
    end.

(** NULL for a missing key, and for an entry whose value was never set. *)
Definition dictFetchValue (d : dict) (k : K) : option (option V) :=
  he ← dictFind d k;
  match he with
  | None => Some None
  | Some r => e ← deref d r; Some (val e)
  end.

Definition dictReplace (can_resize : bool) (d : dict) (k : K) (v : V) : option (dict * Z) :=
  '(d, st) ← dictAdd can_resize d k v;
  if st =? DICT_OK then Some (d, 1)
  else
    entry ← dictFind d k;
    r ← entry;
    d ← dictSetVal d r v;
    Some (d, 0).

Definition dictReplaceRaw (can_resize : bool) (d : dict) (k : K) : option (dict * option eref) :=
  entry ← dictFind d k;
  match entry with
  | Some r => Some (d, Some r)
  | None => dictAddRaw can_resize d k
  end.

(** Unlinking the [p]-th entry of a chain of table [j]. *)
Definition unlink (d : dict) (j : bool) (idx : Z) (b : list dictEntry) (p : nat) : option dict :=
  h ← set_bucket (get_ht d j) idx (take p b ++ drop (S p) b);
  Some (set_ht d j (set_used h (u64 (used h - 1)))).

(** [dictDelete] and [dictDeleteNoFree] differ only in the destructor calls on
    the unlinked entry. *)
Definition dictGenericDelete (d : dict) (k : K) : option (dict * Z) :=
  if size (ht0 d) =? 0 then Some (d, DICT_ERR)
  else
    d ← step_if_rehashing d;
    let h := hashFunction k in
    let idx := u32 (Z.land h (sizemask (ht0 d))) in
    b ← bucket (ht0 d) idx;
    match find_in b k with
    | Some p => d ← unlink d false idx b p; Some (d, DICT_OK)
    | None =>
        if negb (dictIsRehashing d) then Some (d, DICT_ERR)
        else
          let idx := u32 (Z.land h (sizemask (ht1 d))) in
          b ← bucket (ht1 d) idx;
          match find_in b k with
          | Some p => d ← unlink d true idx b p; Some (d, DICT_OK)
          | None => Some (d, DICT_ERR)
          end
    end.

Definition dictDelete (d : dict) (k : K) : option (dict * Z) := dictGenericDelete d k.
Definition dictDeleteNoFree (d : dict) (k : K) : option (dict * Z) := dictGenericDelete d k.

(** The bucket loop of [_dictClear], returning the entries it frees in order;
    it stops when [used] reaches 0. *)
Fixpoint clear_loop (t : list (list dictEntry)) (used : Z) : list dictEntry :=
  match t with
  | [] => []
  | b :: t => if used >? 0 then b ++ clear_loop t (u64 (used - zlen b)) else []
  end.

(** The reset table and the entries freed. *)
Definition _dictClear (h : dictht) : dictht * list dictEntry :=
  (_dictReset, match table h with Some t => clear_loop t (used h) | None => [] end).

Definition dictEmpty (d : dict) : dict * list dictEntry :=
  let '(h0, f0) := _dictClear (ht0 d) in
  let '(h1, f1) := _dictClear (ht1 d) in
  (mk_dict h0 h1 (-1) 0, f0 ++ f1).

(** [dictRelease] frees the entries and then the dictionary itself. *)
Definition dictRelease (d : dict) : list dictEntry := (_dictClear (ht0 d)).2 ++ (_dictClear (ht1 d)).2.

End Code.
#[global] Arguments dictEntry : clear implicits.
#[global] Arguments dictht : clear implicits.
#[global] Arguments dict : clear implicits.

End Dict.
