(* ===== verification/DictInv.v ===== *)
(** * Hash tables: invariant and lookup

    The contents of a dictionary are the entries of both tables, up to order.
    [dict_ok] is the invariant: power-of-two tables with every entry in the
    bucket of its hash, exact element counts, no two equal keys, and, while
    rehashing, nothing left in the buckets already moved. *)

From S2P Require Import Prelude Bytes Dict.
Import Dict.

Module DictInv.

Section Inv.
Context {K V : Type} {DT : DictType K V} {DL : DictTypeLaws K V}.
Abbreviation entry := (dictEntry K V).
Implicit Types (e : entry) (l b : list entry) (t : list (list entry)) (h : dictht K V) (d : dict K V) (k : K).

(** ** Contents *)

Definition ht_entries h : list entry := match table h with Some t => concat t | None => [] end.

Definition entries d : list entry := ht_entries (ht0 d) ++ ht_entries (ht1 d).

Definition matches k e : bool := keyCompare k (key e).

(** No two entries have equal keys. *)
Fixpoint distinct l : Prop :=
  match l with
  | [] => True
  | e :: l => Forall (fun e' => keyCompare (key e) (key e') = false) l /\ distinct l
  end.

(** The entry a key denotes. *)
Fixpoint assoc l k : option entry :=
  match l with
  | [] => None
  | e :: l => if matches k e then Some e else assoc l k
  end.

(** ** The invariant *)

(** More elements than this do not occur; the bucket index is kept in an [int]. *)
Definition DICT_MAX : Z := 2 ^ 30.

Definition placed (t : list (list entry)) (mask : Z) : Prop :=
  forall (i : nat) b e, t !! i = Some b -> e ∈ b -> Z.land (hashFunction (key e)) mask = Z.of_nat i.

Record ht_live h t : Prop := mk_live {
  live_table : table h = Some t;
  live_size : exists n, 2 <= n <= 31 /\ size h = 2 ^ n;
  live_len : zlen t = size h;
  live_mask : sizemask h = size h - 1;
  live_used : used h = zlen (concat t);
  live_placed : placed t (sizemask h)
}.

Definition ht_ok h : Prop := h = _dictReset \/ exists t, ht_live h t.

(** The buckets of the first table below the rehash index are empty. *)
Definition moved h (idx : Z) : Prop :=
  forall (i : nat) t, table h = Some t -> Z.of_nat i < idx -> t !! i = Some [].

Definition rehash_ok d : Prop :=
  if dictIsRehashing d then
    table (ht0 d) <> None /\ table (ht1 d) <> None /\
    0 <= rehashidx d <= size (ht0 d) /\ moved (ht0 d) (rehashidx d)
  else ht1 d = _dictReset.

Record dict_ok d : Prop := mk_dict_ok {
  ok_ht0 : ht_ok (ht0 d);
  ok_ht1 : ht_ok (ht1 d);
  ok_rehash : rehash_ok d;
  ok_distinct : distinct (entries d);
  ok_count : zlen (entries d) <= DICT_MAX
}.

(** ** Keys *)

Lemma cmp_trans_l k1 k2 k3 : keyCompare k1 k2 = true -> keyCompare k1 k3 = keyCompare k2 k3.
Proof.
  intros H12. destruct (keyCompare k2 k3) eqn:E.
  - by apply (cmp_trans k1 k2 k3).
  - destruct (keyCompare k1 k3) eqn:E'; [|done]. rewrite <- E. symmetry.
    apply (cmp_trans k2 k1 k3); [by rewrite cmp_sym | done].
Qed.

Lemma distinct_perm l1 l2 : l1 ≡ₚ l2 -> distinct l1 -> distinct l2.
Proof.
  induction 1 as [|e l1 l2 Hp IH|e1 e2 l|]; cbn; auto.
  - intros [Hf Hd]. split; [by rewrite <- Hp | auto].
  - intros (Hf1 & Hf2 & Hd). inversion_clear Hf1. repeat constructor; auto. by rewrite cmp_sym.
Qed.

Lemma distinct_app l1 l2 : distinct (l1 ++ l2) -> distinct l1 /\ distinct l2.
Proof.
  induction l1 as [|e l1 IH]; cbn; [done |]. intros [Hf Hd]. apply Forall_app in Hf as [? ?].
  destruct (IH Hd). auto.
Qed.

Lemma assoc_Some l k e : distinct l -> e ∈ l -> matches k e = true -> assoc l k = Some e.
Proof.
  intros Hd Hin Hm. induction l as [|e' l IH]; [by apply elem_of_nil in Hin |].
  cbn [assoc distinct] in *. destruct Hd as [Hf Hd]. apply elem_of_cons in Hin as [<- | Hin]; [by rewrite Hm |].
  destruct (matches k e') eqn:E; [|auto]. rewrite Forall_forall in Hf. specialize (Hf e Hin).
  unfold matches in *. rewrite (cmp_trans_l k _ (key e) E) in Hm. congruence.
Qed.

Lemma assoc_None l k : Forall (fun e => matches k e = false) l -> assoc l k = None.
Proof. by induction 1 as [|e l He _ IH]; cbn [assoc]; rewrite ?He. Qed.

Lemma assoc_elem l k e : assoc l k = Some e -> e ∈ l /\ matches k e = true.
Proof.
  induction l as [|e' l IH]; cbn [assoc]; [done |]. rewrite elem_of_cons.
  destruct (matches k e') eqn:E; [intros [= <-]; auto | intros H; destruct (IH H); auto].
Qed.

Lemma assoc_not_elem l k e : assoc l k = None -> e ∈ l -> matches k e = false.
Proof.
  intros Ha Hin. induction l as [|e' l IH]; [by apply elem_of_nil in Hin |]. cbn [assoc] in Ha.
  destruct (matches k e') eqn:E; [done |]. apply elem_of_cons in Hin as [-> | ?]; auto.
Qed.

Lemma assoc_perm l1 l2 k : distinct l1 -> l1 ≡ₚ l2 -> assoc l1 k = assoc l2 k.
Proof.
  intros Hd Hp. destruct (assoc l2 k) as [e|] eqn:E.
  - apply assoc_elem in E as [? ?]. apply assoc_Some; auto. by rewrite Hp.
  - apply assoc_None, Forall_forall. intros e He. rewrite Hp in He. by eapply assoc_not_elem.
Qed.

Lemma distinct_cons e l : assoc l (key e) = None -> distinct l -> distinct (e :: l).
Proof.
  intros Ha Hd. split; [|done]. apply Forall_forall. intros e' He'.
  by apply (assoc_not_elem _ _ _ Ha).
Qed.

(** ** Chains and buckets *)

Lemma find_in_Some b k p : find_in b k = Some p -> exists e, b !! p = Some e /\ matches k e = true.
Proof.
  revert p. induction b as [|e b IH]; intros p; cbn; [done |].
  destruct (keyCompare k (key e)) eqn:E; [intros [= <-]; eauto |].
  destruct (find_in b k) as [q|]; cbn; [|done]. intros [= <-]. destruct (IH q eq_refl) as (e' & ? & ?).
  eauto.
Qed.

Lemma find_in_None b k : find_in b k = None -> Forall (fun e => matches k e = false) b.
Proof.
  induction b as [|e b IH]; cbn; [constructor |]. destruct (keyCompare k (key e)) eqn:E; [done |].
  destruct (find_in b k); [done |]. constructor; auto.
Qed.

Lemma concat_split t (i : nat) b : t !! i = Some b ->
  exists rest, concat t ≡ₚ b ++ rest /\ forall b', concat (<[i := b']> t) ≡ₚ b' ++ rest.
Proof.
  intros Hi. exists (concat (take i t) ++ concat (drop (S i) t)). pose proof (lookup_lt_Some _ _ _ Hi).
  split.
  - rewrite (lookup_split _ _ _ Hi) at 1. rewrite concat_app. cbn [concat]. by rewrite Permutation_app_swap_app.
  - intros b'. rewrite insert_take_drop, concat_app by done. cbn [concat].
    by rewrite Permutation_app_swap_app.
Qed.

Lemma bucket_live h t idx b : ht_live h t ->
  bucket h idx = Some b <-> 0 <= idx /\ t !! Z.to_nat idx = Some b.
Proof.
  intros Hl. unfold bucket. rewrite (live_table _ _ Hl). cbn. zcase; [tauto |].
  split; [done | lia].
Qed.

Lemma size_pos h t : ht_live h t -> 4 <= size h <= 2 ^ 31.
Proof.
  intros Hl. destruct (live_size _ _ Hl) as (n & Hn & ->). split.
  - change 4 with (2 ^ 2). apply Z.pow_le_mono_r; lia.
  - apply Z.pow_le_mono_r; lia.
Qed.

(** The bucket index of a hash. *)
Lemma index_range h t (x : Z) : ht_live h t -> 0 <= x < 2 ^ 32 ->
  0 <= Z.land x (sizemask h) < size h /\ u32 (Z.land x (sizemask h)) = Z.land x (sizemask h).
Proof.
  intros Hl Hx. pose proof (size_pos _ _ Hl). destruct (live_size _ _ Hl) as (n & Hn & Hs).
  rewrite (live_mask _ _ Hl). assert (Z.land x (size h - 1) = x mod size h) as ->.
  { rewrite Hs. replace (2 ^ n - 1) with (Z.ones n) by (rewrite Z.ones_equiv; lia).
    by rewrite Z.land_ones by lia. }
  pose proof (Z.mod_pos_bound x (size h) ltac:(lia)). split; [done |]. apply uwrap_small. lia.
Qed.

(** The chain a key hashes to holds all the entries it can match. *)
Lemma key_bucket h t k : ht_live h t ->
  let idx := u32 (Z.land (hashFunction k) (sizemask h)) in
  exists b, bucket h idx = Some b /\ 0 <= idx < size h /\
    Z.land (hashFunction k) (sizemask h) = idx /\
    forall e, e ∈ concat t -> matches k e = true -> e ∈ b.
Proof.
  intros Hl idx. destruct (index_range h t (hashFunction k) Hl (hash_range k)) as [Hr Hu].
  unfold idx. rewrite Hu. pose proof (live_len _ _ Hl).
  destruct (lookup_lt_is_Some_2 t (Z.to_nat (Z.land (hashFunction k) (sizemask h)))) as [b Hb]; [lia |].
  exists b. split; [apply (bucket_live _ _ _ _ Hl); auto with lia |]. split; [done |]. split; [done |].
  intros e (b' & Hb' & He)%list_elem_of_In%in_concat Hm. apply list_elem_of_In in Hb', He.
  apply list_elem_of_lookup in Hb' as [i Hi]. pose proof (live_placed _ _ Hl i b' e Hi He) as Hpl.
  unfold matches in Hm. rewrite (cmp_hash _ _ Hm), Hpl, Nat2Z.id in Hb. congruence.
Qed.

(** ** Tables *)

Lemma entries_live h t : ht_live h t -> ht_entries h = concat t.
Proof. intros Hl. unfold ht_entries. by rewrite (live_table _ _ Hl). Qed.

Lemma ok_used h : ht_ok h -> used h = zlen (ht_entries h).
Proof. intros [-> | [t Hl]]; [done |]. by rewrite (entries_live _ _ Hl), (live_used _ _ Hl). Qed.

Lemma ok_live h : ht_ok h -> table h <> None -> exists t, ht_live h t.
Proof. by intros [-> | ?]. Qed.

Lemma set_used_id h : set_used h (used h) = h.
Proof. by destruct h. Qed.

(** Replacing a chain by another one with entries of the same bucket. *)
Lemma update_table h t idx b b' : ht_live h t -> bucket h idx = Some b ->
  (forall e, e ∈ b' -> Z.land (hashFunction (key e)) (sizemask h) = idx) ->
  let t' := <[Z.to_nat idx := b']> t in
  exists h' rest, set_bucket h idx b' = Some h' /\ used h' = used h /\ size h' = size h /\
    sizemask h' = sizemask h /\
    ht_live (set_used h' (used h + zlen b' - zlen b)) t' /\
    concat t ≡ₚ b ++ rest /\ concat t' ≡ₚ b' ++ rest.
Proof.
  intros Hl Hb Hb' t'. apply (bucket_live _ _ _ _ Hl) in Hb as [H0 Hi].
  pose proof (lookup_lt_Some _ _ _ Hi). destruct (concat_split _ _ _ Hi) as (rest & Hp & Hp').
  unfold set_bucket. rewrite (live_table _ _ Hl). cbn. do 2 zguard. cbn.
  do 2 eexists. split; [done |]. cbn. do 3 (split; [done |]). split; [|by split; [exact Hp | apply Hp']].
  destruct Hl as [Ht Hs Hlen Hm Hu Hpl]. split; cbn; auto.
  - unfold t'. by rewrite length_insert.
  - apply Permutation_length in Hp. specialize (Hp' b'). apply Permutation_length in Hp'.
    unfold t'. rewrite Hu, Hp, Hp', !length_app. lia.
  - unfold t'. intros i c e Hc He. destruct (decide (i = Z.to_nat idx)) as [-> | Hne].
    + rewrite list_lookup_insert_eq in Hc by done. simplify_eq. rewrite (Hb' e He). lia.
    + rewrite list_lookup_insert_ne in Hc by done. eauto.
Qed.

(** ** Updating one chain of a dictionary *)

Lemma entries_set_ht d (j : bool) h' rest b b' : ht_entries (get_ht d j) ≡ₚ b ++ rest ->
  ht_entries h' ≡ₚ b' ++ rest ->
  exists all, entries d ≡ₚ b ++ all /\ entries (set_ht d j h') ≡ₚ b' ++ all.
Proof.
  unfold entries. destruct d as [h0 h1 ri it], j; cbn; intros Hp Hp'.
  - exists (rest ++ ht_entries h0). rewrite Hp, Hp'. split; solve_Permutation.
  - exists (rest ++ ht_entries h1). rewrite Hp, Hp'. split; by rewrite <- app_assoc.
Qed.

Lemma rehash_ok_set d (j : bool) h' t t' idx b b' : rehash_ok d ->
  table (get_ht d j) = Some t -> table h' = Some t' -> size h' = size (get_ht d j) ->
  t !! Z.to_nat idx = Some b -> t' = <[Z.to_nat idx := b']> t ->
  (j = true \/ b <> [] \/ dictIsRehashing d = false) -> (j = true -> dictIsRehashing d = true) ->
  rehash_ok (set_ht d j h').
Proof.
  unfold rehash_ok. intros Hr Ht Ht' Hs Hi Heq Hj Hj'.
  assert (dictIsRehashing (set_ht d j h') = dictIsRehashing d) as -> by by destruct j.
  destruct (dictIsRehashing d) eqn:E; [| destruct j; [by specialize (Hj' eq_refl) | done]].
  destruct Hr as (H0 & H1 & Hri & Hm), j; cbn in *; split_and!; auto; try congruence; try lia.
  intros i u Hu Hlt. simplify_eq.
  rewrite list_lookup_insert_ne; [by apply Hm |]. intros <-. specialize (Hm _ _ Ht Hlt).
  destruct Hj as [|[|]]; simplify_eq.
Qed.

(** The one-chain update lemma behind insertion, deletion and value stores. *)
Lemma update_bucket d (j : bool) idx b b' : dict_ok d -> bucket (get_ht d j) idx = Some b ->
  (forall e, e ∈ b' -> Z.land (hashFunction (key e)) (sizemask (get_ht d j)) = idx) ->
  (j = true \/ b <> [] \/ dictIsRehashing d = false) ->
  exists h' all, set_bucket (get_ht d j) idx b' = Some h' /\ used h' = used (get_ht d j) /\
    let d' := set_ht d j (set_used h' (used (get_ht d j) + zlen b' - zlen b)) in
    entries d ≡ₚ b ++ all /\ entries d' ≡ₚ b' ++ all /\
    (distinct (b' ++ all) -> zlen (b' ++ all) <= DICT_MAX -> dict_ok d').
Proof.
  intros [O0 O1 Or Od Oc] Hb Hb' Hj.
  assert (ht_ok (get_ht d j)) as Hok by by destruct j.
  assert (exists t, ht_live (get_ht d j) t) as [t Hl].
  { apply ok_live; [done |]. intros Hn. unfold bucket in Hb. by rewrite Hn in Hb. }
  destruct (update_table _ _ _ _ _ Hl Hb Hb') as (h' & rest & Hset & Hu & Hs & Hm & Hl' & Hp & Hp').
  set (h'' := set_used h' _) in *.
  destruct (entries_set_ht d j h'' rest b b') as (all & Hall & Hall').
  { by rewrite (entries_live _ _ Hl). } { by rewrite (entries_live _ _ Hl'). }
  exists h', all. do 3 (split; [done |]). split; [done |]. intros Hd Hc.
  assert (j = true -> dictIsRehashing d = true) as Hjr.
  { intros ->. destruct (dictIsRehashing d) eqn:E; [done |]. unfold rehash_ok in Or. rewrite E in Or.
    cbn in Hl. rewrite Or in Hl. by destruct Hl. }
  apply (bucket_live _ _ _ _ Hl) in Hb as [_ Hi]. split.
  - destruct j; [done | by right; eexists].
  - destruct j; [by right; eexists | done].
  - eapply rehash_ok_set; eauto; try apply Hl; try apply Hl'.
  - by eapply distinct_perm.
  - subst h''. by rewrite Hall'.
Qed.

End Inv.
End DictInv.
