(* ===== verification/DictOps.v ===== *)
(** * Hash tables: every operation against the invariant

    Each operation of vr_dict.c returns (no NULL table is dereferenced, no
    bucket index is out of range), keeps [dict_ok] and changes the contents as
    the finite map it implements. *)

From S2P Require Import Prelude Bytes Dict DictInv.
Import Dict DictInv.

Module DictOps.

Section Ops.
Context {K V : Type} {DT : DictType K V} {DL : DictTypeLaws K V}.
Implicit Types (e : dictEntry K V) (l b : list (dictEntry K V)) (h : dictht K V) (d : dict K V) (k : K) (v : V).

(** ** Lookup *)

(** Probing the chain of a key in a live table decides whether the table has it. *)
Lemma probe h t k b : ht_live h t ->
  bucket h (u32 (Z.land (hashFunction k) (sizemask h))) = Some b ->
  match find_in b k with
  | Some p => exists e, b !! p = Some e /\ matches k e = true /\ e ∈ ht_entries h
  | None => Forall (fun e => matches k e = false) (ht_entries h)
  end.
Proof.
  intros Hl Hb. rewrite (entries_live _ _ Hl).
  destruct (key_bucket h t k Hl) as (b' & Hb' & Hr & _ & Hall). rewrite Hb in Hb'. simplify_eq.
  destruct (find_in b' k) as [p|] eqn:E.
  - destruct (find_in_Some _ _ _ E) as (e & He & Hm). exists e. split_and!; auto.
    apply (bucket_live _ _ _ _ Hl) in Hb as [_ Hi]. apply list_elem_of_In, in_concat.
    exists b'. rewrite <- !list_elem_of_In. split; eapply list_elem_of_lookup_2; eauto.
  - apply find_in_None in E. rewrite Forall_forall in E |- *. intros e He.
    destruct (matches k e) eqn:Hm; [|done]. specialize (E e (Hall e He Hm)). congruence.
Qed.

(** Outside a rehash the second table is empty. *)
Lemma no_rehash_ht1 d : dict_ok d -> dictIsRehashing d = false -> ht1 d = _dictReset.
Proof. intros Hok E. pose proof (ok_rehash _ Hok) as Hr. unfold rehash_ok in Hr. by rewrite E in Hr. Qed.

Lemma rehash_lives d : dict_ok d -> dictIsRehashing d = true ->
  exists t0 t1, ht_live (ht0 d) t0 /\ ht_live (ht1 d) t1 /\
    0 <= rehashidx d <= size (ht0 d) /\ moved (ht0 d) (rehashidx d).
Proof.
  intros [O0 O1 Or _ _] E. unfold rehash_ok in Or. rewrite E in Or. destruct Or as (H0 & H1 & Hr & Hm).
  destruct (ok_live _ O0 H0) as [t0 ?], (ok_live _ O1 H1) as [t1 ?]. eauto 6.
Qed.

(** The common search of [dictFind], [_dictKeyIndex] and [dictGenericDelete]:
    the first table, then, during a rehash, the second. *)
Definition locate d k : option (option (bool * Z * list (dictEntry K V) * nat)) :=
  let idx := u32 (Z.land (hashFunction k) (sizemask (ht0 d))) in
  b ← bucket (ht0 d) idx;
  match find_in b k with
  | Some p => Some (Some (false, idx, b, p))
  | None =>
      if negb (dictIsRehashing d) then Some None
      else
        let idx := u32 (Z.land (hashFunction k) (sizemask (ht1 d))) in
        b ← bucket (ht1 d) idx;
        match find_in b k with
        | Some p => Some (Some (true, idx, b, p))
        | None => Some None
        end
  end.

Lemma locate_spec d k t0 : dict_ok d -> ht_live (ht0 d) t0 ->
  exists r, locate d k = Some r /\
  match r with
  | Some (j, idx, b, p) => exists e, bucket (get_ht d j) idx = Some b /\ b !! p = Some e /\
      matches k e = true /\ assoc (entries d) k = Some e
  | None => assoc (entries d) k = None
  end.
Proof.
  intros Hok H0. pose proof (ok_distinct _ Hok) as Hd. unfold locate.
  destruct (key_bucket _ _ k H0) as (b0 & Hb0 & _). pose proof (probe _ _ _ _ H0 Hb0) as Hp0.
  rewrite Hb0. cbn [mbind option_bind]. destruct (find_in b0 k) as [p|].
  { destruct Hp0 as (e & He & Hm & Hin). eexists. split; [done |]. exists e. split_and!; auto.
    apply assoc_Some; auto. apply elem_of_app. auto. }
  destruct (dictIsRehashing d) eqn:E; cbn [negb].
  - destruct (rehash_lives d Hok E) as (_ & t1 & _ & H1 & _).
    destruct (key_bucket _ _ k H1) as (b1 & Hb1 & _). pose proof (probe _ _ _ _ H1 Hb1) as Hp1.
    rewrite Hb1. cbn [mbind option_bind]. destruct (find_in b1 k) as [p|].
    + destruct Hp1 as (e & He & Hm & Hin). eexists. split; [done |]. exists e. split_and!; auto.
      apply assoc_Some; auto. apply elem_of_app. auto.
    + eexists. split; [done |]. apply assoc_None, Forall_app. auto.
  - eexists. split; [done |]. apply assoc_None. unfold entries.
    rewrite (no_rehash_ht1 d Hok E). by rewrite app_nil_r.
Qed.

Lemma count_zero d : dict_ok d -> u64 (used (ht0 d) + used (ht1 d)) = zlen (entries d).
Proof.
  intros Hok. pose proof (ok_count _ Hok) as Hc. unfold DICT_MAX, entries in *.
  rewrite (ok_used _ (ok_ht0 _ Hok)), (ok_used _ (ok_ht1 _ Hok)), length_app in *.
  rewrite uwrap_small; lia.
Qed.

(** A dictionary with entries has a live first table. *)
Lemma nonempty_live d : dict_ok d -> entries d <> [] -> exists t, ht_live (ht0 d) t.
Proof.
  intros Hok Hne. destruct (dictIsRehashing d) eqn:E.
  - destruct (rehash_lives d Hok E) as (t0 & _ & ? & _). eauto.
  - destruct (ok_ht0 _ Hok) as [Hr | ?]; [|done]. unfold entries in Hne.
    by rewrite Hr, (no_rehash_ht1 d Hok E) in Hne.
Qed.

Lemma dictFind_spec d k : dict_ok d ->
  match assoc (entries d) k with
  | Some e => exists r, dictFind d k = Some (Some r) /\ deref d r = Some e
  | None => dictFind d k = Some None
  end.
Proof.
  intros Hok. unfold dictFind. rewrite (count_zero d Hok). destruct (Z.eqb_spec (zlen (entries d)) 0) as [Hz | Hz].
  { assert (entries d = []) as -> by (apply nil_length_inv; lia). done. }
  destruct (nonempty_live d Hok) as [t0 H0]; [by intros Hn; rewrite Hn in Hz |].
  destruct (locate_spec d k t0 Hok H0) as (r & Hr & Hspec).
  assert ((b ← bucket (ht0 d) (u32 (Z.land (hashFunction k) (sizemask (ht0 d))));
    match find_in b k with
    | Some p => Some (Some (false, u32 (Z.land (hashFunction k) (sizemask (ht0 d))), p))
    | None => if negb (dictIsRehashing d) then Some None else
        b ← bucket (ht1 d) (u32 (Z.land (hashFunction k) (sizemask (ht1 d))));
        match find_in b k with
        | Some p => Some (Some (true, u32 (Z.land (hashFunction k) (sizemask (ht1 d))), p))
        | None => Some None
        end
    end) = Some ((fun '(j, idx, _, p) => (j, idx, p)) <$> r)) as ->.
  { unfold locate in Hr. repeat (case_match || destruct (bucket _ _) || cbn [mbind option_bind] in * || simplify_eq || done). }
  destruct r as [[[[j idx] b] p]|]; cbn.
  - destruct Hspec as (e & Hb & He & _ & ->). eexists. split; [done |]. cbn. by rewrite Hb.
  - by rewrite Hspec.
Qed.

(** ** Stores and deletions *)

Lemma deref_split d (j : bool) idx (p : nat) b e : bucket (get_ht d j) idx = Some b -> b !! p = Some e ->
  b <> [] /\ b = take p b ++ e :: drop (S p) b.
Proof. intros _ Hp. split; [by destruct b | by apply lookup_split]. Qed.

Lemma ok_get_ht d (j : bool) : dict_ok d -> ht_ok (get_ht d j).
Proof. intros []. by destruct j. Qed.

(** Every entry of a chain hashes to it. *)
Lemma bucket_placed d (j : bool) idx b e : dict_ok d -> bucket (get_ht d j) idx = Some b -> e ∈ b ->
  Z.land (hashFunction (key e)) (sizemask (get_ht d j)) = idx.
Proof.
  intros Hok Hb He. destruct (ok_live _ (ok_get_ht d j Hok)) as [t Hl].
  { intros Hn. unfold bucket in Hb. by rewrite Hn in Hb. }
  apply (bucket_live _ _ _ _ Hl) in Hb as [H0 Hi].
  rewrite (live_placed _ _ Hl _ _ _ Hi He). lia.
Qed.

(** Replacing the entry [e] of a chain by entries [x] (one or none). *)
Lemma replace_entry d (j : bool) idx b (p : nat) e (x : list (dictEntry K V)) :
  dict_ok d -> bucket (get_ht d j) idx = Some b -> b !! p = Some e ->
  (forall e', e' ∈ x -> Z.land (hashFunction (key e')) (sizemask (get_ht d j)) = idx) ->
  exists h' rest, set_bucket (get_ht d j) idx (take p b ++ x ++ drop (S p) b) = Some h' /\
    used h' = used (get_ht d j) /\
    let d' := set_ht d j (set_used h' (used (get_ht d j) + zlen x - 1)) in
    entries d ≡ₚ e :: rest /\ entries d' ≡ₚ x ++ rest /\
    (distinct (x ++ rest) -> zlen (x ++ rest) <= DICT_MAX -> dict_ok d').
Proof.
  intros Hok Hb Hp Hx. destruct (deref_split d j idx p b e Hb Hp) as [Hne Hsp].
  destruct (update_bucket d j idx b (take p b ++ x ++ drop (S p) b)) as (h' & all & Hset & Hu & He & He' & Hok'); auto.
  { intros e' [Hin | [Hin | Hin]%elem_of_app]%elem_of_app; [| by apply Hx |];
      apply (bucket_placed d j idx b); auto; rewrite Hsp; apply elem_of_app; rewrite elem_of_cons; auto. }
  exists h', (take p b ++ drop (S p) b ++ all). split; [done |]. split; [done |].
  assert (zlen (take p b ++ x ++ drop (S p) b) - zlen b = zlen x - 1) as Hz.
  { rewrite Hsp at 3. len. }
  replace (used (get_ht d j) + zlen x - 1) with
    (used (get_ht d j) + zlen (take p b ++ x ++ drop (S p) b) - zlen b) by lia.
  assert ((take p b ++ x ++ drop (S p) b) ++ all ≡ₚ x ++ take p b ++ drop (S p) b ++ all) as Hperm
    by solve_Permutation.
  split; [|split].
  - rewrite He, Hsp at 1. rewrite <- app_assoc. cbn. solve_Permutation.
  - by rewrite He'.
  - intros Hd Hc. apply Hok'; [| by rewrite Hperm]. eapply distinct_perm; [|exact Hd]. by symmetry.
Qed.

Lemma dictSetVal_spec d r e v : dict_ok d -> deref d r = Some e ->
  exists d' rest, dictSetVal d r v = Some d' /\ dict_ok d' /\
    entries d ≡ₚ e :: rest /\ entries d' ≡ₚ mk_entry (key e) (Some (valDup v)) :: rest /\
    dictIsRehashing d' = dictIsRehashing d.
Proof.
  intros Hok Hr. destruct r as [[j idx] p]. unfold deref in Hr. unfold dictSetVal.
  destruct (bucket (get_ht d j) idx) as [b|] eqn:Hb; [|done]. cbn [mbind option_bind] in *.
  rewrite Hr. cbn [mbind option_bind]. pose proof (lookup_lt_Some _ _ _ Hr).
  set (e' := mk_entry (key e) (Some (valDup v))).
  destruct (replace_entry d j idx b p e [e'] Hok Hb Hr) as (h' & rest & Hset & Hu & He & He' & Hok').
  { intros ? ->%list_elem_of_singleton. cbn. apply (bucket_placed d j idx b); auto.
    eapply list_elem_of_lookup_2; eauto. }
  rewrite insert_take_drop by done. cbn [app] in Hset. rewrite Hset. cbn [mbind option_bind].
  replace (used (get_ht d j) + zlen [e'] - 1) with (used h') in * by (simpl; lia).
  rewrite set_used_id in *. exists (set_ht d j h'), rest. split; [done |].
  pose proof (ok_distinct _ Hok) as Hd. eapply distinct_perm in Hd; [|exact He].
  pose proof (ok_count _ Hok) as Hc. rewrite He in Hc.
  split_and!; [by apply Hok' | done | done | by destruct j].
Qed.

Lemma unlink_spec d (j : bool) idx b (p : nat) e : dict_ok d -> bucket (get_ht d j) idx = Some b -> b !! p = Some e ->
  exists d' , unlink d j idx b p = Some d' /\ dict_ok d' /\ entries d ≡ₚ e :: entries d' /\
    dictIsRehashing d' = dictIsRehashing d.
Proof.
  intros Hok Hb Hp. unfold unlink.
  destruct (replace_entry d j idx b p e [] Hok Hb Hp) as (h' & rest & Hset & Hu & He & He' & Hok').
  { by intros ? ?%elem_of_nil. }
  cbn [app] in *. rewrite Hset. cbn [mbind option_bind]. eexists. split; [done |].
  assert (used h' <> 0) as Hnz.
  { rewrite Hu. rewrite (ok_used _ (ok_get_ht d j Hok)). intros Hz.
    destruct (ok_live _ (ok_get_ht d j Hok)) as [t Hl]; [by intros Hn; unfold bucket in Hb; rewrite Hn in Hb |].
    apply (bucket_live _ _ _ _ Hl) in Hb as [_ Hi]. destruct (concat_split _ _ _ Hi) as (r & Hc & _).
    rewrite (entries_live _ _ Hl), Hc, length_app in Hz. destruct b; [done | simpl in Hz; lia]. }
  assert (0 <= used h' <= DICT_MAX) as Hur.
  { rewrite Hu, (ok_used _ (ok_get_ht d j Hok)). pose proof (ok_count _ Hok) as Hc. unfold entries in Hc.
    rewrite length_app in Hc. destruct j; cbn; lia. }
  rewrite uwrap_small by (unfold DICT_MAX in *; lia). rewrite Hu.
  replace (used (get_ht d j) - 1) with (used (get_ht d j) + zlen (@nil (dictEntry K V)) - 1) by (simpl; lia).
  pose proof (ok_distinct _ Hok) as Hd. eapply distinct_perm in Hd; [|exact He]. destruct Hd as [_ Hd].
  pose proof (ok_count _ Hok) as Hc. rewrite He in Hc. simpl in Hc.
  split_and!; [apply Hok'; [done | lia] | by rewrite He' | by destruct j].
Qed.

(** ** Incremental rehashing *)

Lemma moved_snoc h t idx : ht_live h t -> 0 <= idx -> moved h idx -> bucket h idx = Some [] -> moved h (idx + 1).
Proof.
  intros Hl H0 Hm Hb i u Hu Hi. destruct (decide (Z.of_nat i = idx)) as [<- | ?].
  - apply (bucket_live _ _ _ _ Hl) in Hb as [_ Hb]. rewrite Nat2Z.id in Hb.
    rewrite (live_table _ _ Hl) in Hu. by simplify_eq.
  - apply Hm; [done | lia].
Qed.

(** With an element left, the index is inside the table. *)
Lemma moved_bound h t idx : ht_live h t -> moved h idx -> used h <> 0 -> idx < size h.
Proof.
  intros Hl Hm Hu. destruct (Z.lt_ge_cases idx (size h)) as [|Hge]; [done |].
  exfalso. apply Hu. rewrite (live_used _ _ Hl). assert (concat t = []) as ->; [|done].
  assert (Forall (fun b => b = []) t) as Hf.
  { apply Forall_lookup. intros i b Hi. pose proof (lookup_lt_Some _ _ _ Hi).
    pose proof (live_len _ _ Hl). rewrite (Hm i t) in Hi; [congruence | apply Hl | lia]. }
  clear -Hf. by induction Hf as [|b t -> _ IH].
Qed.

Lemma rehash_skip_spec h t ev : ht_live h t -> used h <> 0 -> forall idx, (1 <= ev)%nat ->
  0 <= idx -> moved h idx ->
  exists r, rehash_skip ev h idx = Some r /\
  match r with
  | inl idx' => idx < idx' <= size h /\ moved h idx'
  | inr (idx', ev') => idx <= idx' < size h /\ (1 <= ev')%nat /\ moved h idx' /\
      exists e b, bucket h idx' = Some (e :: b)
  end.
Proof.
  intros Hl Hu. induction ev as [|ev IH]; intros idx Hev H0 Hm; [lia |].
  pose proof (moved_bound _ _ _ Hl Hm Hu) as Hlt. pose proof (live_len _ _ Hl).
  destruct (lookup_lt_is_Some_2 t (Z.to_nat idx)) as [b Hb]; [lia |].
  assert (bucket h idx = Some b) as Hbk by (apply (bucket_live _ _ _ _ Hl); auto).
  cbn [rehash_skip]. rewrite Hbk. cbn [mbind option_bind]. destruct b as [|e b].
  - pose proof (moved_snoc _ _ _ Hl H0 Hm Hbk) as Hm'. destruct ev as [|ev].
    + eexists. split; [done |]. split; [lia | done].
    + destruct (IH (idx + 1)) as (r & -> & Hr); [lia | lia | done |]. exists r. split; [done |].
      destruct r as [idx' | [idx' ev']]; destruct_and?; split_and?; auto; lia.
  - eexists. split; [done |]. cbn. split_and!; auto; [lia.. |]. eauto.
Qed.

(** Moving a chain: its entries leave the first count and enter the second table. *)
Lemma rehash_chain_spec de : forall h0 h1 t1, ht_live h1 t1 ->
  zlen de <= used h0 <= DICT_MAX -> zlen de + used h1 <= DICT_MAX ->
  exists h1' t1', rehash_chain de h0 h1 = Some (set_used h0 (used h0 - zlen de), h1') /\
    ht_live h1' t1' /\ concat t1' ≡ₚ de ++ concat t1 /\ size h1' = size h1.
Proof.
  unfold DICT_MAX. induction de as [|e de IH]; intros h0 h1 t1 Hl Hu0 Hu1; cbn [rehash_chain].
  { exists h1, t1. simpl. rewrite Z.sub_0_r, set_used_id. auto. }
  destruct (key_bucket h1 t1 (key e) Hl) as (b & Hb & Hr & Heq & _). rewrite Heq, Hb.
  cbn [mbind option_bind]. pose proof (live_used _ _ Hl) as Hu.
  destruct (update_table h1 t1 _ b (e :: b) Hl Hb) as (h' & rest & Hset & Hu' & Hs & Hm & Hl' & Hc & Hc').
  { intros e' [-> | Hin]%elem_of_cons; [done |].
    apply (bucket_live _ _ _ _ Hl) in Hb as [? Hb]. rewrite (live_placed _ _ Hl _ _ _ Hb Hin). lia. }
  rewrite Hset. cbn [mbind option_bind]. simpl length in *.
  replace (used h1 + Z.of_nat (S (length b)) - zlen b) with (used h1 + 1) in Hl' by lia.
  rewrite Hu', !uwrap_small by lia.
  destruct (IH (set_used h0 (used h0 - 1)) (set_used h' (used h1 + 1)) _ Hl') as (h1' & t1' & -> & Hl1 & Hp & Hsz);
    [cbn; lia | cbn; lia |].
  exists h1', t1'. replace (used h0 - Z.of_nat (S (length de))) with (used h0 - 1 - zlen de) by lia.
  split; [done |].
  split; [done |]. split; [| by rewrite Hsz]. rewrite Hp, Hc', Hc. cbn [app]. apply Permutation_sym, Permutation_middle.
Qed.

(** Emptying the moved bucket. *)
Lemma clear_bucket h t idx b : ht_live h t -> bucket h idx = Some b ->
  exists h' rest t', set_bucket (set_used h (used h - zlen b)) idx [] = Some h' /\ ht_live h' t' /\
    concat t ≡ₚ b ++ rest /\ concat t' ≡ₚ rest /\ size h' = size h /\
    (0 <= idx -> moved h idx -> moved h' (idx + 1)).
Proof.
  intros Hl Hb. destruct (update_table h t idx b [] Hl Hb) as (h' & rest & Hset & Hu & Hs & Hm & Hl' & Hc & Hc').
  { by intros ? ?%elem_of_nil. }
  assert (set_bucket (set_used h (used h - zlen b)) idx [] = Some (set_used h' (used h + zlen (@nil (dictEntry K V)) - zlen b))) as ->.
  { unfold set_bucket in Hset |- *. cbn. rewrite (live_table _ _ Hl) in *. cbn in Hset |- *.
    case_match; [|done]. simplify_eq. unfold set_used. cbn. do 2 f_equal; try done. lia. }
  do 3 eexists. split; [done |]. split; [done |]. split; [done |]. split; [done |]. split; [done |].
  intros H0 Hmv. apply (moved_snoc _ _ idx Hl'); [done | |].
  - intros i u Hui Hi. rewrite (live_table _ _ Hl') in Hui. simplify_eq.
    rewrite list_lookup_insert_ne by lia. apply Hmv; [apply Hl | done].
  - apply (bucket_live _ _ _ _ Hl'). split; [done |]. apply (bucket_live _ _ _ _ Hl) in Hb as [_ Hb].
    apply list_lookup_insert_eq, (lookup_lt_Some _ _ _ Hb).
Qed.

Lemma is_rehashing_idx d : 0 <= rehashidx d -> dictIsRehashing d = true.
Proof. unfold dictIsRehashing. intros. by zguard. Qed.

(** The invariant of the state inside the loop, from its parts. *)
Lemma rehashing_ok d d' t0 t1 : dict_ok d -> ht_live (ht0 d') t0 -> ht_live (ht1 d') t1 ->
  0 <= rehashidx d' <= size (ht0 d') -> moved (ht0 d') (rehashidx d') ->
  entries d' ≡ₚ entries d -> dict_ok d'.
Proof.
  intros Hok H0 H1 Hr Hm Hp. split.
  - right. eauto.
  - right. eauto.
  - unfold rehash_ok. rewrite is_rehashing_idx by lia.
    rewrite (live_table _ _ H0), (live_table _ _ H1). auto.
  - eapply distinct_perm; [symmetry; exact Hp | apply Hok].
  - rewrite Hp. apply Hok.
Qed.

(** One bucket moved. *)
Lemma rehash_bucket d idx e b t0 t1 : dict_ok d -> ht_live (ht0 d) t0 -> ht_live (ht1 d) t1 ->
  0 <= idx < size (ht0 d) -> moved (ht0 d) idx -> bucket (ht0 d) idx = Some (e :: b) ->
  exists h0 h1, 
    ('(h0, h1) ← rehash_chain (e :: b) (ht0 d) (ht1 d); h0 ← set_bucket h0 idx []; Some (h0, h1)) = Some (h0, h1) /\
    size h0 = size (ht0 d) /\
    let d' := mk_dict h0 h1 (idx + 1) (iterators d) in dict_ok d' /\ entries d' ≡ₚ entries d.
Proof.
  intros Hok H0 H1 Hidx Hm Hb. pose proof (ok_count _ Hok) as Hc. unfold entries in Hc.
  rewrite (entries_live _ _ H0), (entries_live _ _ H1), length_app in Hc.
  destruct (clear_bucket _ _ _ _ H0 Hb) as (h0' & rest & t0' & Hset & Hl0 & Hp & Hp' & Hs & Hmv).
  pose proof (live_used _ _ H0) as Hu0. pose proof (live_used _ _ H1) as Hu1.
  pose proof (Permutation_length Hp) as Hlen. rewrite length_app in Hlen.
  destruct (rehash_chain_spec (e :: b) (ht0 d) (ht1 d) t1 H1) as (h1' & t1' & -> & Hl1 & Hp1 & _); [lia.. |].
  cbn [mbind option_bind]. rewrite Hset. exists h0', h1'. split; [done |]. split; [done |].
  assert (entries (mk_dict h0' h1' (idx + 1) (iterators d)) ≡ₚ entries d) as Hperm.
  { unfold entries. cbn [ht0 ht1]. rewrite (entries_live _ _ Hl0), (entries_live _ _ Hl1),
      (entries_live _ _ H0), (entries_live _ _ H1), Hp', Hp1, Hp. solve_Permutation. }
  split; [|done]. eapply (rehashing_ok d); eauto; cbn; [lia |]. apply Hmv; [lia | done].
Qed.

Lemma rehash_loop_spec n : forall ev d, dict_ok d -> dictIsRehashing d = true ->
  (n = 0%nat \/ (1 <= ev)%nat) ->
  exists d' early, rehash_loop n ev d = Some (d', early) /\ dict_ok d' /\ entries d' ≡ₚ entries d /\
    dictIsRehashing d' = true /\ size (ht0 d') = size (ht0 d) /\ iterators d' = iterators d /\
    rehashidx d <= rehashidx d' /\
    (early = true \/ used (ht0 d') <> 0 -> (1 <= n)%nat -> rehashidx d < rehashidx d').
Proof.
  induction n as [|n IH]; intros ev d Hok Hre Hev; cbn [rehash_loop].
  { exists d, false. split_and!; auto; lia. }
  destruct (Z.eqb_spec (used (ht0 d)) 0) as [Hz | Hnz].
  { exists d, false. split_and!; auto; [lia |]. by intros [? | ?]. }
  destruct (rehash_lives d Hok Hre) as (t0 & t1 & H0 & H1 & Hr & Hm).
  pose proof (moved_bound _ _ _ H0 Hm Hnz). rewrite Z.gtb_ltb. zguard. cbn [negb].
  destruct (rehash_skip_spec _ _ ev H0 Hnz (rehashidx d)) as (r & -> & Hsk); [lia | lia | done |].
  cbn [mbind option_bind]. destruct r as [idx | [idx ev']].
  - destruct Hsk as [? Hm']. exists (set_rehashidx d idx), true. split; [done |].
    split; [eapply (rehashing_ok d); eauto; cbn; lia |].
    split; [done |]. split; [apply is_rehashing_idx; cbn; lia |]. cbn. split_and!; auto; lia.
  - destruct Hsk as (Hidx & Hev' & Hm' & e & b & Hb). rewrite Hb. cbn [mbind option_bind].
    destruct (rehash_bucket d idx e b t0 t1) as (h0 & h1 & Heq & Hs & Hok' & Hp'); auto; [lia |].
    destruct (rehash_chain (e :: b) (ht0 d) (ht1 d)) as [[c0 c1]|]; [|done].
    cbn [mbind option_bind] in Heq |- *. destruct (set_bucket c0 idx []) as [c0'|]; [|done].
    cbn [mbind option_bind] in Heq |- *. simplify_eq.
    destruct (IH ev' _ Hok') as (d' & early & -> & Hok2 & Hp2 & Hre2 & Hs2 & Hi2 & Hle & _);
      [apply is_rehashing_idx; cbn; lia | auto |].
    exists d', early. cbn in *. split_and!; auto; try lia; try congruence. by rewrite Hp2.
Qed.

Lemma dictRehash_spec d n : dict_ok d ->
  exists d' r, dictRehash d n = Some (d', r) /\ dict_ok d' /\ entries d' ≡ₚ entries d /\
    iterators d' = iterators d /\ (table (ht0 d) <> None -> table (ht0 d') <> None) /\
    ((r = 0 /\ dictIsRehashing d' = false) \/
     (r = 1 /\ dictIsRehashing d' = true /\ dictIsRehashing d = true /\ size (ht0 d') = size (ht0 d) /\
      ((1 <= n)%nat -> rehashidx d < rehashidx d'))).
Proof.
  intros Hok. unfold dictRehash. destruct (dictIsRehashing d) eqn:Hre; cbn [negb].
  2: { exists d, 0. split_and!; auto. }
  destruct (rehash_loop_spec n (n * 10) d Hok Hre) as (d' & early & -> & Hok' & Hp & Hre' & Hs & Hi & Hle & Hlt); [lia |].
  cbn [mbind option_bind]. destruct (rehash_lives d' Hok' Hre') as (t0 & t1 & H0 & H1 & _).
  assert (table (ht0 d') <> None) by by rewrite (live_table _ _ H0). destruct early.
  { exists d', 1. split_and!; auto. right. split_and!; auto. }
  destruct (Z.eqb_spec (used (ht0 d')) 0) as [Hz | Hnz].
  - eexists _, 0. split; [done |].
    assert (ht_entries (ht0 d') = []) as He0.
    { apply nil_length_inv. rewrite (ok_used _ (ok_ht0 _ Hok')) in Hz. lia. }
    assert (entries (mk_dict (ht1 d') _dictReset (-1) (iterators d')) = entries d') as He.
    { unfold entries. cbn [ht0 ht1]. rewrite He0. apply app_nil_r. }
    split; [| rewrite He; split_and!; auto; cbn; by rewrite (live_table _ _ H1)].
    split; cbn; [apply Hok' | by left | done | rewrite He; apply Hok' | rewrite He; apply Hok'].
  - exists d', 1. split_and!; auto. right. split_and!; auto.
Qed.

Lemma step_if_rehashing_spec d : dict_ok d ->
  exists d', step_if_rehashing d = Some d' /\ dict_ok d' /\ entries d' ≡ₚ entries d /\
    (table (ht0 d) <> None -> table (ht0 d') <> None).
Proof.
  intros Hok. unfold step_if_rehashing, _dictRehashStep.
  destruct (dictIsRehashing d); [| by eauto 6]. destruct (iterators d =? 0); [| by eauto 6].
  destruct (dictRehash_spec d 1 Hok) as (d' & r & -> & ? & ? & _ & ? & _). cbn. eauto 6.
Qed.

(** ** Growth *)

Lemma next_power_spec fuel : forall n sz, 2 <= n -> n + Z.of_nat fuel <= 64 -> sz <= 2 ^ (n + Z.of_nat fuel - 1) ->
  (0 < fuel)%nat ->
  exists m, next_power_loop fuel (2 ^ n) sz = Some (2 ^ m) /\ n <= m < n + Z.of_nat fuel /\ sz <= 2 ^ m /\
    (m = n \/ 2 ^ (m - 1) < sz).
Proof.
  induction fuel as [|fuel IH]; intros n sz Hn Hf Hsz Hpos; [lia |]. cbn [next_power_loop].
  rewrite Z.geb_leb. destruct (Z.leb_spec sz (2 ^ n)).
  { exists n. split; [done |]. split_and!; auto; lia. }
  destruct fuel as [|fuel]; [replace (n + Z.of_nat 1 - 1) with n in Hsz by lia; lia |].
  assert (2 ^ n * 2 = 2 ^ (n + 1)) as Hp by (rewrite Z.pow_add_r by lia; lia).
  assert (0 < 2 ^ (n + 1) < 2 ^ 64) as Hr.
  { split; [apply Z.pow_pos_nonneg; lia | apply Z.pow_lt_mono_r; lia]. }
  rewrite Hp, uwrap_small by lia. destruct (IH (n + 1) sz) as (m & -> & Hm & Hle & Hlow); [lia | lia | | lia |].
  { replace (n + 1 + Z.of_nat (S fuel) - 1) with (n + Z.of_nat (S (S fuel)) - 1) by lia. done. }
  exists m. split; [done |]. split; [lia |]. split; [done |]. right.
  destruct Hlow as [-> | ?]; [|done]. by replace (n + 1 - 1) with n by lia.
Qed.

(** The smallest power of two at least 4 and at least [sz]. *)
Lemma _dictNextPower_spec sz : sz <= 2 ^ 31 ->
  exists m, _dictNextPower sz = Some (2 ^ m) /\ 2 <= m <= 31 /\ sz <= 2 ^ m /\ (m = 2 \/ 2 ^ (m - 1) < sz).
Proof.
  intros Hsz. unfold _dictNextPower, LONG_MAX, DICT_HT_INITIAL_SIZE. rewrite Z.geb_leb. zguard.
  destruct (next_power_spec 62 2 sz ltac:(lia) ltac:(lia) ltac:(simpl; lia) ltac:(lia)) as (m & Hm & Hr & Hle & Hlow).
  assert (forall f i s r, next_power_loop f i s = Some r -> next_power_loop (S f) i s = Some r) as Hmono.
  { induction f as [|f IHf]; intros i s r; [done |]. intros Hf. cbn [next_power_loop] in Hf |- *.
    destruct (i >=? s); [done |]. by apply IHf. }
  exists m. split; [by do 2 apply Hmono |]. split_and!; auto; [lia |].
  destruct Hlow as [-> | Hlow]; [lia |]. assert (2 ^ (m - 1) < 2 ^ 31) as Hlt by lia.
  apply Z.pow_lt_mono_r_iff in Hlt; lia.
Qed.

Lemma concat_replicate_nil n : concat (replicate n (@nil (dictEntry K V))) = [].
Proof. by induction n. Qed.

Lemma new_ht_live m : 2 <= m <= 31 -> ht_live (new_ht (2 ^ m)) (replicate (Z.to_nat (2 ^ m)) (@nil (dictEntry K V))).
Proof.
  intros Hm. assert (0 < 2 ^ m) by (apply Z.pow_pos_nonneg; lia). split; cbn [table size sizemask used new_ht]; eauto.
  - len.
  - by rewrite concat_replicate_nil.
  - intros i b e Hi He. apply lookup_replicate in Hi as [-> _]. by apply elem_of_nil in He.
Qed.

Lemma new_ht_entries n : ht_entries (new_ht n) = @nil (dictEntry K V).
Proof. apply concat_replicate_nil. Qed.

(** A new table either becomes the first one or opens a rehash; the contents
    stay. *)
Lemma dictExpand_spec d sz : dict_ok d -> sz <= 2 ^ 31 ->
  exists d', dictExpand d sz = Some (d',
      if dictIsRehashing d || (used (ht0 d) >? sz) || bool_decide (_dictNextPower sz = Some (size (ht0 d)))
      then DICT_ERR else DICT_OK) /\
    dict_ok d' /\ entries d' = entries d /\
    (dictIsRehashing d || (used (ht0 d) >? sz) || bool_decide (_dictNextPower sz = Some (size (ht0 d))) = false ->
     exists t, ht_live (ht0 d') t).
Proof.
  intros Hok Hsz. unfold dictExpand. destruct (_dictNextPower_spec sz Hsz) as (m & -> & Hm & _).
  cbn [mbind option_bind]. destruct (dictIsRehashing d) eqn:Hre; cbn [orb]; [by exists d; split_and! |].
  destruct (used (ht0 d) >? sz) eqn:Hu; cbn [orb]; [by exists d; split_and! |].
  assert ((2 ^ m =? size (ht0 d)) = bool_decide (Some (2 ^ m) = Some (size (ht0 d)))) as ->.
  { apply eq_true_iff_eq. rewrite Z.eqb_eq, bool_decide_eq_true. split; congruence. }
  case_bool_decide; [by exists d; split_and! |]. pose proof (no_rehash_ht1 d Hok Hre) as H1.
  pose proof (new_ht_live m Hm) as Hnew. destruct (ok_ht0 _ Hok) as [H0 | [t H0]].
  - rewrite H0. cbn [table _dictReset]. eexists. split; [done |].
    assert (entries (set_ht d false (new_ht (2 ^ m))) = entries d) as He.
    { unfold entries. cbn [set_ht ht0 ht1]. rewrite H0, new_ht_entries. done. }
    split; [|split; [done | intros _; eexists; exact Hnew]].
    pose proof (ok_rehash _ Hok) as Hr. split; [right; eexists; exact Hnew | apply Hok | | rewrite He; apply Hok | rewrite He; apply Hok].
    unfold rehash_ok. change (dictIsRehashing (set_ht d false _)) with (dictIsRehashing d). by rewrite Hre.
  - rewrite (live_table _ _ H0). eexists. split; [done |].
    assert (entries (set_rehashidx (set_ht d true (new_ht (2 ^ m))) 0) = entries d) as He.
    { unfold entries. cbn [set_rehashidx set_ht ht0 ht1]. by rewrite H1, new_ht_entries. }
    split; [|split; [done | intros _; eexists; exact H0]]. pose proof (size_pos _ _ H0).
    eapply (rehashing_ok d); [done | exact H0 | exact Hnew | cbn; lia | | by rewrite He].
    intros i u _ ?. cbn in *. lia.
Qed.

Lemma dictResize_spec c d : dict_ok d -> exists d' st, dictResize c d = Some (d', st) /\ dict_ok d' /\ entries d' = entries d.
Proof.
  intros Hok. unfold dictResize. case_match; [by eauto |].
  pose proof (ok_used _ (ok_ht0 _ Hok)) as Hu. pose proof (ok_count _ Hok) as Hc. unfold entries in Hc.
  rewrite length_app in Hc. unfold DICT_MAX in Hc. rewrite swrap_small by (simpl; lia).
  unfold DICT_HT_INITIAL_SIZE.
  destruct (dictExpand_spec d (u64 (if used (ht0 d) <? 4 then 4 else used (ht0 d))) Hok) as (d' & -> & ? & ? & _); [|by eauto].
  rewrite uwrap_small; case_match; lia.
Qed.

(** With room for one more element the expansion check never fails. *)
Lemma expandIfNeeded_spec c d : dict_ok d ->
  exists d', _dictExpandIfNeeded c d = Some (d', DICT_OK) /\ dict_ok d' /\ entries d' = entries d /\
    exists t, ht_live (ht0 d') t.
Proof.
  intros Hok. unfold _dictExpandIfNeeded. destruct (dictIsRehashing d) eqn:Hre.
  { destruct (rehash_lives d Hok Hre) as (t0 & _ & H0 & _). eauto 6. }
  pose proof (ok_used _ (ok_ht0 _ Hok)) as Hu. pose proof (ok_count _ Hok) as Hc. unfold entries, DICT_MAX in Hc.
  rewrite length_app in Hc. destruct (ok_ht0 _ Hok) as [H0 | [t H0]].
  - rewrite H0. cbn [size _dictReset Z.eqb].
    destruct (dictExpand_spec d DICT_HT_INITIAL_SIZE Hok) as (d' & -> & ? & ? & Hl); [done |].
    rewrite Hre, H0 in Hl |- *. eexists. split; [done |]. auto.
  - pose proof (size_pos _ _ H0). zguard. rewrite Z.geb_leb. destruct (Z.leb_spec (size (ht0 d)) (used (ht0 d))); cbn [andb]; [| by eauto 7].
    destruct (c || (used (ht0 d) / size (ht0 d) >? dict_force_resize_ratio)); [| by eauto 7].
    rewrite uwrap_small by lia.
    destruct (dictExpand_spec d (used (ht0 d) * 2) Hok) as (d' & -> & ? & ? & Hl); [lia |].
    rewrite Hre, Z.gtb_ltb in Hl |- *. cbn [orb] in Hl |- *.
    assert ((used (ht0 d) * 2 <? used (ht0 d)) = false) as Hf by (apply Z.ltb_ge; lia). rewrite Hf in Hl |- *.
    destruct (_dictNextPower_spec (used (ht0 d) * 2)) as (m & Hnp & _ & Hle & _); [lia |].
    rewrite Hnp, bool_decide_eq_false_2 in Hl |- * by (intros [= ?]; lia). cbn [orb] in Hl |- *.
    eexists. split; [done |]. auto.
Qed.

(** ** Insertion *)

(** -1 exactly for a present key; otherwise the chain to insert into. *)
Lemma keyIndex_spec c d k : dict_ok d ->
  exists d', dict_ok d' /\ entries d' = entries d /\
  match assoc (entries d) k with
  | Some _ => _dictKeyIndex c d k = Some (d', -1)
  | None => exists idx b, _dictKeyIndex c d k = Some (d', idx) /\ 0 <= idx /\
      bucket (get_ht d' (dictIsRehashing d')) idx = Some b /\
      Z.land (hashFunction k) (sizemask (get_ht d' (dictIsRehashing d'))) = idx
  end.
Proof.
  intros Hok. unfold _dictKeyIndex. destruct (expandIfNeeded_spec c d Hok) as (d' & -> & Hok' & He & t0 & H0).
  exists d'. split; [done |]. split; [done |]. cbn [mbind option_bind Z.eqb DICT_OK DICT_ERR].
  destruct (locate_spec d' k t0 Hok' H0) as (r & Hr & Hspec). rewrite He in Hspec. unfold locate in Hr.
  destruct (key_bucket _ _ k H0) as (b0 & Hb0 & Hr0 & Hm0 & _). pose proof (size_pos _ _ H0).
  rewrite Hb0 in Hr |- *. cbn [mbind option_bind] in Hr |- *.
  destruct (find_in b0 k) as [p|].
  { simplify_eq. destruct Hspec as (e & _ & _ & _ & ->). done. }
  destruct (dictIsRehashing d') eqn:Hre; cbn [negb] in Hr |- *.
  - destruct (rehash_lives d' Hok' Hre) as (_ & t1 & _ & H1 & _). pose proof (size_pos _ _ H1).
    destruct (key_bucket _ _ k H1) as (b1 & Hb1 & Hr1 & Hm1 & _). rewrite Hb1 in Hr |- *.
    cbn [mbind option_bind] in Hr |- *. destruct (find_in b1 k) as [p|]; simplify_eq.
    + destruct Hspec as (e & _ & _ & _ & ->). done.
    + rewrite Hspec, swrap_small by (simpl; lia). do 2 eexists. split; [done |]. split_and!; [lia | done | done].
  - simplify_eq. rewrite Hspec, swrap_small by (simpl; lia). do 2 eexists. split; [done |]. split_and!; [lia | done | done].
Qed.

Lemma bucket_set_bucket h idx b h' n : set_bucket h idx b = Some h' -> bucket (set_used h' n) idx = Some b.
Proof.
  unfold set_bucket, bucket. destruct (table h) as [t|]; [|done]. cbn [mbind option_bind].
  destruct ((0 <=? idx) && (idx <? zlen t)) eqn:E; [|done]. zbool. intros [= <-]. cbn. zguard.
  apply list_lookup_insert_eq. lia.
Qed.

Lemma get_set_ht d (j : bool) h : get_ht (set_ht d j h) j = h.
Proof. by destruct j. Qed.

Lemma assoc_cmp l k k' : keyCompare k k' = true -> assoc l k = assoc l k'.
Proof.
  intros Hc. induction l as [|e l IH]; cbn [assoc]; [done |]. unfold matches.
  by rewrite (cmp_trans_l k k' (key e) Hc), IH.
Qed.

(** NULL exactly for a present key; otherwise the new entry, with no value yet. *)
Lemma dictAddRaw_spec c d k : dict_ok d -> zlen (entries d) < DICT_MAX ->
  exists d' r, dictAddRaw c d k = Some (d', r) /\ dict_ok d' /\
  match assoc (entries d) k with
  | Some _ => r = None /\ entries d' ≡ₚ entries d
  | None => exists ref, r = Some ref /\ deref d' ref = Some (mk_entry (keyDup k) None) /\
      entries d' ≡ₚ mk_entry (keyDup k) None :: entries d
  end.
Proof.
  intros Hok Hmax. unfold dictAddRaw. destruct (step_if_rehashing_spec d Hok) as (d1 & -> & Hok1 & Hp1 & _).
  cbn [mbind option_bind]. rewrite <- (assoc_perm (entries d1) (entries d) k) by (apply Hok1 || done).
  destruct (keyIndex_spec c d1 k Hok1) as (d2 & Hok2 & He2 & Hidx).
  destruct (assoc (entries d1) k) as [e|] eqn:Ha.
  { rewrite Hidx. cbn. do 2 eexists. split; [done |]. split; [done |]. by rewrite He2. }
  destruct Hidx as (idx & b & -> & H0 & Hb & Hm). cbn [mbind option_bind]. zguard.
  rewrite Hb. cbn [mbind option_bind]. set (e := mk_entry (keyDup k) None).
  destruct (update_bucket d2 (dictIsRehashing d2) idx b (e :: b) Hok2 Hb) as (h' & all & Hset & Hu & Hpe & Hpe' & Hok').
  { intros e' [-> | Hin]%elem_of_cons; [|by eapply bucket_placed].
    cbn. by rewrite <- (cmp_hash k (keyDup k) (cmp_dup k)). }
  { destruct (dictIsRehashing d2); auto. }
  rewrite Hset. cbn [mbind option_bind].
  pose proof (ok_used _ (ok_get_ht d2 (dictIsRehashing d2) Hok2)) as Hus.
  assert (zlen (entries d2) < DICT_MAX) as Hm2 by by rewrite He2, Hp1.
  assert (used (get_ht d2 (dictIsRehashing d2)) <= zlen (entries d2)).
  { rewrite Hus. unfold entries. rewrite length_app. destruct (dictIsRehashing d2); cbn; lia. }
  replace (used (get_ht d2 (dictIsRehashing d2)) + zlen (e :: b) - zlen b)
    with (u64 (used h' + 1)) in Hpe', Hok' by (unfold DICT_MAX in *; rewrite uwrap_small; simpl length; lia).
  do 2 eexists. split; [done |]. cbn [app] in Hpe', Hok'. rewrite <- Hpe in Hpe'. split.
  - apply Hok'.
    + apply (distinct_perm (e :: entries d2)); [by rewrite Hpe |]. rewrite He2. apply distinct_cons; [|apply Hok1].
      cbn. by rewrite <- (assoc_cmp _ k (keyDup k) (cmp_dup k)).
    + simpl length. rewrite <- Hpe. lia.
  - eexists. split; [done |]. split; [| by rewrite Hpe', He2, Hp1].
    cbn. rewrite get_set_ht. by rewrite (bucket_set_bucket _ _ _ _ _ Hset).
Qed.

(** The status and the contents of an insertion. *)
Lemma dictAdd_spec c d k v : dict_ok d -> zlen (entries d) < DICT_MAX ->
  exists d', dict_ok d' /\
  match assoc (entries d) k with
  | Some _ => dictAdd c d k v = Some (d', DICT_ERR) /\ entries d' ≡ₚ entries d
  | None => dictAdd c d k v = Some (d', DICT_OK) /\
      entries d' ≡ₚ mk_entry (keyDup k) (Some (valDup v)) :: entries d
  end.
Proof.
  intros Hok Hmax. unfold dictAdd. destruct (dictAddRaw_spec c d k Hok Hmax) as (d1 & r & -> & Hok1 & Hspec).
  cbn [mbind option_bind]. destruct (assoc (entries d) k).
  - destruct Hspec as [-> Hp]. eauto.
  - destruct Hspec as (ref & -> & Hr & Hp).
    destruct (dictSetVal_spec d1 ref _ v Hok1 Hr) as (d2 & rest & -> & Hok2 & Hp1 & Hp2 & _).
    exists d2. split; [done |]. split; [done |]. rewrite Hp2. cbn. rewrite Hp in Hp1.
    by apply Permutation_cons_inv in Hp1 as ->.
Qed.

(** [dictReplace] always stores; 1 for a new key, 0 for an overwrite. *)
Lemma dictReplace_spec c d k v : dict_ok d -> zlen (entries d) < DICT_MAX ->
  exists d', dict_ok d' /\
  match assoc (entries d) k with
  | Some e => dictReplace c d k v = Some (d', 0) /\
      exists rest, entries d ≡ₚ e :: rest /\ entries d' ≡ₚ mk_entry (key e) (Some (valDup v)) :: rest
  | None => dictReplace c d k v = Some (d', 1) /\
      entries d' ≡ₚ mk_entry (keyDup k) (Some (valDup v)) :: entries d
  end.
Proof.
  intros Hok Hmax. unfold dictReplace. destruct (dictAdd_spec c d k v Hok Hmax) as (d1 & Hok1 & Hspec).
  destruct (assoc (entries d) k) as [e|] eqn:Ha; destruct Hspec as [-> Hp]; cbn [mbind option_bind]; cbn [Z.eqb DICT_OK DICT_ERR].
  - pose proof (dictFind_spec d1 k Hok1) as Hf. rewrite (assoc_perm _ (entries d)), Ha in Hf by (apply Hok1 || done).
    destruct Hf as (r & -> & Hr). cbn [mbind option_bind].
    destruct (dictSetVal_spec d1 r e v Hok1 Hr) as (d2 & rest & -> & Hok2 & Hp1 & Hp2 & _).
    exists d2. split; [done |]. split; [done |]. exists rest. by rewrite <- Hp.
  - exists d1. auto.
Qed.

(** ** Deletion *)

Lemma dictGenericDelete_spec d k : dict_ok d ->
  exists d', dict_ok d' /\
  match assoc (entries d) k with
  | Some e => dictGenericDelete d k = Some (d', DICT_OK) /\ entries d ≡ₚ e :: entries d'
  | None => dictGenericDelete d k = Some (d', DICT_ERR) /\ entries d' ≡ₚ entries d
  end.
Proof.
  intros Hok. unfold dictGenericDelete. destruct (ok_ht0 _ Hok) as [H0 | [t H0]].
  { destruct (dictIsRehashing d) eqn:Hre.
    - destruct (rehash_lives d Hok Hre) as (t0 & _ & Hl & _). rewrite H0 in Hl. by destruct Hl.
    - exists d. split; [done |]. unfold entries. by rewrite H0, (no_rehash_ht1 d Hok Hre). }
  pose proof (size_pos _ _ H0). zguard. destruct (step_if_rehashing_spec d Hok) as (d1 & -> & Hok1 & Hp1 & Hlive).
  cbn [mbind option_bind]. rewrite <- (assoc_perm (entries d1) (entries d) k) by (apply Hok1 || done).
  destruct (ok_live (ht0 d1)) as [t1 Hl1]; [apply Hok1 | apply Hlive; by rewrite (live_table _ _ H0) |].
  destruct (locate_spec d1 k t1 Hok1 Hl1) as (r & Hr & Hspec). unfold locate in Hr.
  destruct (bucket (ht0 d1) _) as [b0|] eqn:Hb0; [|done]. cbn [mbind option_bind] in Hr |- *.
  destruct (find_in b0 k) as [p|].
  { simplify_eq. destruct Hspec as (e & Hb & He & _ & ->).
    destruct (unlink_spec d1 false _ b0 p e Hok1 Hb He) as (d2 & -> & Hok2 & Hp2 & _).
    exists d2. split; [done |]. by rewrite <- Hp1. }
  destruct (negb (dictIsRehashing d1)).
  { simplify_eq. rewrite Hspec. exists d1. auto. }
  destruct (bucket (ht1 d1) _) as [b1|] eqn:Hb1; [|done]. cbn [mbind option_bind] in Hr |- *.
  destruct (find_in b1 k) as [p|]; simplify_eq.
  - destruct Hspec as (e & Hb & He & _ & ->).
    destruct (unlink_spec d1 true _ b1 p e Hok1 Hb He) as (d2 & -> & Hok2 & Hp2 & _).
    exists d2. split; [done |]. by rewrite <- Hp1.
  - rewrite Hspec. exists d1. auto.
Qed.

End Ops.
End DictOps.
