(* ===== verification/DictProps.v ===== *)
(** * Hash tables: refinement of finite maps, termination of rehashing

    The observable behaviour of a dictionary: whatever the order of operations
    and however far a rehash has got, it answers as the finite map from keys
    (up to key comparison) to values. *)

From S2P Require Import Prelude Bytes Dict DictInv DictOps.
Import Dict DictInv DictOps.

Module DictProps.

Section Refinement.
Context {K V : Type} {DT : DictType K V} {DL : DictTypeLaws K V}.
Implicit Types (d : dict K V) (k : K) (v : V) (M : K -> option V).

(** ** The code side: sequences of calls *)

(** [c] is the value of [dict_can_resize] at the call. *)
Inductive dop :=
  | DAdd (c : bool) (k : K) (v : V)
  | DReplace (c : bool) (k : K) (v : V)
  | DDelete (k : K)
  | DFetch (k : K)
  | DRehash (n : nat)
  | DResize (c : bool).

Inductive dout := OStatus (z : Z) | OValue (o : option V) | ODone.

Definition dop_run (o : dop) d : option (dict K V * dout) :=
  match o with
  | DAdd c k v => '(d, z) ← dictAdd c d k v; Some (d, OStatus z)
  | DReplace c k v => '(d, z) ← dictReplace c d k v; Some (d, OStatus z)
  | DDelete k => '(d, z) ← dictDelete d k; Some (d, OStatus z)
  | DFetch k => x ← dictFetchValue d k; Some (d, OValue x)
  | DRehash n => '(d, _) ← dictRehash d n; Some (d, ODone)
  | DResize c => '(d, _) ← dictResize c d; Some (d, ODone)
  end.

Fixpoint dop_runs (os : list dop) d : option (dict K V * list dout) :=
  match os with
  | [] => Some (d, [])
  | o :: os => '(d, x) ← dop_run o d; '(d, xs) ← dop_runs os d; Some (d, x :: xs)
  end.

(** ** The specification: a map on keys up to comparison *)

Definition map_upd M k (x : option V) : K -> option V :=
  fun k' => if keyCompare k k' then x else M k'.

Definition is_Some_b {A} (o : option A) : bool := match o with Some _ => true | None => false end.

Definition dop_spec (o : dop) M : (K -> option V) * dout :=
  match o with
  | DAdd _ k v => if is_Some_b (M k) then (M, OStatus DICT_ERR)
      else (map_upd M k (Some (valDup v)), OStatus DICT_OK)
  | DReplace _ k v => (map_upd M k (Some (valDup v)), OStatus (b2z (negb (is_Some_b (M k)))))
  | DDelete k => if is_Some_b (M k) then (map_upd M k None, OStatus DICT_OK) else (M, OStatus DICT_ERR)
  | DFetch k => (M, OValue (M k))
  | DRehash _ | DResize _ => (M, ODone)
  end.

Fixpoint dop_specs (os : list dop) M : (K -> option V) * list dout :=
  match os with
  | [] => (M, [])
  | o :: os => let '(M, x) := dop_spec o M in let '(M, xs) := dop_specs os M in (M, x :: xs)
  end.

(** ** The simulation *)

Definition repr d M : Prop := dict_ok d /\ forall k, val <$> assoc (entries d) k = Some <$> M k.

Lemma dict_ok_create : dict_ok (dictCreate (K := K) (V := V)).
Proof. split; cbn; try by left. all: done. Qed.

Lemma repr_create : repr dictCreate (fun _ => None).
Proof. split; [apply dict_ok_create | done]. Qed.

Lemma repr_perm d d' M : repr d M -> dict_ok d' -> entries d' ≡ₚ entries d -> repr d' M.
Proof.
  intros [Hok HM] Hok' Hp. split; [done |]. intros k. by rewrite (assoc_perm _ (entries d)) by (apply Hok' || done).
Qed.

(** A contents with entry [e] in front. *)
Lemma repr_cons d d' M rest k e v : repr d M -> dict_ok d' -> keyCompare k (key e) = true ->
  val e = Some v -> entries d' ≡ₚ e :: rest ->
  (forall k', keyCompare k k' = false -> assoc rest k' = assoc (entries d) k') ->
  repr d' (map_upd M k (Some v)).
Proof.
  intros [Hok HM] Hok' Hk Hv Hp Hrest. split; [done |]. intros k'. unfold map_upd.
  rewrite (assoc_perm _ (e :: rest)) by (apply Hok' || done). cbn [assoc]. unfold matches.
  rewrite (cmp_sym k' (key e)), <- (cmp_trans_l k (key e) k' Hk).
  destruct (keyCompare k k') eqn:E; [cbn; by rewrite Hv | by rewrite Hrest, HM].
Qed.

(** Dropping a non-matching front entry does not change a lookup. *)
Lemma assoc_skip d e rest k k' : dict_ok d -> entries d ≡ₚ e :: rest -> keyCompare k (key e) = true ->
  keyCompare k k' = false -> assoc rest k' = assoc (entries d) k'.
Proof.
  intros Hok Hp Hk Hk'. rewrite (assoc_perm (entries d) (e :: rest)) by (apply Hok || done). cbn [assoc]. unfold matches.
  by rewrite (cmp_sym k' (key e)), <- (cmp_trans_l k (key e) k' Hk), Hk'.
Qed.

Lemma repr_None d M k : repr d M -> assoc (entries d) k = None -> M k = None.
Proof. intros [_ HM] Ha. specialize (HM k). rewrite Ha in HM. cbn in HM. by destruct (M k). Qed.

Lemma repr_Some d M k e : repr d M -> assoc (entries d) k = Some e -> val e = M k /\ exists v, M k = Some v.
Proof.
  intros [_ HM] Ha. specialize (HM k). rewrite Ha in HM. cbn in HM. destruct (M k); [|done]. cbn in HM.
  simplify_eq. eauto.
Qed.

Lemma repr_fetch d M k : repr d M -> dictFetchValue d k = Some (M k).
Proof.
  intros Hr. pose proof Hr as [Hok _]. pose proof (dictFind_spec d k Hok) as Hf. unfold dictFetchValue.
  destruct (assoc (entries d) k) as [e|] eqn:Ha.
  - destruct Hf as (r & -> & Hd). cbn [mbind option_bind]. rewrite Hd. cbn.
    by destruct (repr_Some d M k e Hr Ha) as [-> _].
  - rewrite Hf. cbn. by rewrite (repr_None d M k Hr Ha).
Qed.

Lemma dop_run_spec o d M : repr d M -> zlen (entries d) < DICT_MAX ->
  exists d', dop_run o d = Some (d', (dop_spec o M).2) /\ repr d' (dop_spec o M).1 /\
    zlen (entries d') <= zlen (entries d) + 1.
Proof.
  intros Hr Hmax. pose proof Hr as [Hok HM]. destruct o as [c k v | c k v | k | k | n | c]; cbn [dop_run dop_spec].
  - destruct (dictAdd_spec c d k v Hok Hmax) as (d' & Hok' & Hs). destruct (assoc (entries d) k) as [e|] eqn:Ha.
    + destruct Hs as [-> Hp]. destruct (repr_Some d M k e Hr Ha) as [_ [w ->]]. exists d'. cbn.
      split_and!; [done | by eapply repr_perm | rewrite Hp; lia].
    + destruct Hs as [-> Hp]. rewrite (repr_None d M k Hr Ha). exists d'. cbn. split; [done |].
      split; [| rewrite Hp; simpl; lia]. eapply (repr_cons d); eauto; [apply cmp_dup | done].
  - destruct (dictReplace_spec c d k v Hok Hmax) as (d' & Hok' & Hs). destruct (assoc (entries d) k) as [e|] eqn:Ha.
    + destruct Hs as [-> (rest & Hp & Hp')]. destruct (repr_Some d M k e Hr Ha) as [_ [w ->]]. exists d'. cbn.
      split; [done |]. split; [| rewrite Hp, Hp'; simpl; lia]. apply assoc_elem in Ha as [_ Hm].
      apply (repr_cons d d' M rest k (mk_entry (key e) (Some (valDup v)))); auto.
      intros k' Hk'. by apply (assoc_skip d e rest k).
    + destruct Hs as [-> Hp]. rewrite (repr_None d M k Hr Ha). exists d'. cbn. split; [done |].
      split; [| rewrite Hp; simpl; lia]. eapply (repr_cons d); eauto; [apply cmp_dup | done].
  - unfold dictDelete. destruct (dictGenericDelete_spec d k Hok) as (d' & Hok' & Hs).
    destruct (assoc (entries d) k) as [e|] eqn:Ha.
    + destruct Hs as [-> Hp]. destruct (repr_Some d M k e Hr Ha) as [_ [w ->]]. exists d'. cbn.
      split; [done |]. split; [| rewrite Hp; simpl; lia]. split; [done |]. intros k'. unfold map_upd.
      apply assoc_elem in Ha as [_ Hm]. destruct (keyCompare k k') eqn:E.
      * pose proof (ok_distinct _ Hok) as Hd. eapply distinct_perm in Hd; [|exact Hp]. destruct Hd as [Hf _].
        rewrite assoc_None; [done |]. eapply Forall_impl; [exact Hf |]. intros e' He'. unfold matches.
        by rewrite <- (cmp_trans_l k k' _ E), (cmp_trans_l k (key e) _ Hm).
      * rewrite <- HM. f_equal. by eapply assoc_skip.
    + destruct Hs as [-> Hp]. rewrite (repr_None d M k Hr Ha). exists d'. cbn.
      split_and!; [done | by eapply repr_perm | rewrite Hp; lia].
  - exists d. rewrite (repr_fetch d M k Hr). cbn. split_and!; auto; lia.
  - destruct (dictRehash_spec d n Hok) as (d' & r & -> & Hok' & Hp & _). exists d'. cbn.
    split_and!; [done | by eapply repr_perm | rewrite Hp; lia].
  - destruct (dictResize_spec c d Hok) as (d' & r & -> & Hok' & Hp). exists d'. cbn.
    split_and!; [done | eapply repr_perm; eauto; by rewrite Hp | rewrite Hp; lia].
Qed.

Lemma dop_runs_spec os : forall d M, repr d M -> zlen (entries d) + zlen os <= DICT_MAX ->
  exists d', dop_runs os d = Some (d', (dop_specs os M).2) /\ repr d' (dop_specs os M).1.
Proof.
  induction os as [|o os IH]; intros d M Hr Hn; cbn [dop_runs dop_specs]; [by eauto |]. simpl length in Hn.
  destruct (dop_run_spec o d M Hr) as (d1 & -> & Hr1 & Hc); [lia |]. destruct (dop_spec o M) as [M1 x].
  cbn in *. destruct (IH d1 M1 Hr1) as (d2 & -> & Hr2); [lia |]. cbn. destruct (dop_specs os M1). eauto.
Qed.

(** C4. Any sequence of insertions, replacements, deletions, lookups, rehash
    steps and resizes on a fresh dictionary runs without touching a NULL table
    or leaving a bucket array, every status and every value returned is the one
    the finite map gives, and so is every later lookup, at any point of an
    incremental rehash and for any hash function that respects key comparison. *)
Theorem dict_refines_map (os : list dop) k : zlen os <= DICT_MAX ->
  exists d, dop_runs os dictCreate = Some (d, (dop_specs os (fun _ => None)).2) /\
    dictFetchValue d k = Some ((dop_specs os (fun _ => None)).1 k).
Proof.
  intros Hn. destruct (dop_runs_spec os dictCreate _ repr_create) as (d & -> & Hr); [simpl; lia |].
  exists d. split; [done |]. by apply repr_fetch.
Qed.

(** ** Rehashing *)

(** The loop [while (dictRehash(d, n))] of [dictRehashMilliseconds] when the
    clock never stops it. *)
Fixpoint rehash_until (fuel : nat) (n : nat) d : option (dict K V) :=
  match fuel with
  | O => None
  | S fuel => '(d, r) ← dictRehash d n; if r =? 0 then Some d else rehash_until fuel n d
  end.

Lemma rehash_until_spec fuel n : (1 <= n)%nat -> forall d, dict_ok d ->
  (Z.to_nat (size (ht0 d) - rehashidx d) < fuel)%nat ->
  exists d', rehash_until fuel n d = Some d' /\ dict_ok d' /\ entries d' ≡ₚ entries d /\ dictIsRehashing d' = false.
Proof.
  intros Hn. induction fuel as [|fuel IH]; intros d Hok Hf; [lia |]. cbn [rehash_until].
  destruct (dictRehash_spec d n Hok) as (d1 & r & -> & Hok1 & Hp & _ & _ & Hr). cbn [mbind option_bind].
  destruct Hr as [[-> Hre] | (-> & Hre1 & Hre & Hs & Hlt)]; cbn [Z.eqb]; [by eauto |].
  specialize (Hlt Hn). destruct (rehash_lives d1 Hok1 Hre1) as (_ & _ & _ & _ & Hr1 & _).
  destruct (IH d1 Hok1) as (d2 & -> & Hok2 & Hp2 & Hre2); [lia |]. exists d2. by rewrite Hp2.
Qed.

(** C33. An incremental rehash always finishes: from any reachable state, at
    most [size + 2] calls of [dictRehash] with a positive step count end it,
    with every entry kept and the invariant intact. *)
Theorem dictRehash_terminates d n : dict_ok d -> (1 <= n)%nat ->
  exists d', rehash_until (Z.to_nat (size (ht0 d)) + 2) n d = Some d' /\ dict_ok d' /\
    entries d' ≡ₚ entries d /\ dictIsRehashing d' = false.
Proof.
  intros Hok Hn. apply rehash_until_spec; auto. destruct (dictIsRehashing d) eqn:Hre.
  - destruct (rehash_lives d Hok Hre) as (_ & _ & _ & _ & ? & _). lia.
  - unfold dictIsRehashing in Hre. zbool. lia.
Qed.

(** A lookup, which advances no rehash so that readers can share the
    table, finds a key wherever it currently is: in the old table, in the new
    one, or nowhere; and the entry found is the unique one with an equal key. *)
Theorem dictFind_correct d k : dict_ok d ->
  exists r, dictFind d k = Some r /\
  match r with
  | Some ref => exists e, deref d ref = Some e /\ e ∈ entries d /\ keyCompare k (key e) = true /\
      forall e', e' ∈ entries d -> keyCompare k (key e') = true -> e' = e
  | None => forall e, e ∈ entries d -> keyCompare k (key e) = false
  end.
Proof.
  intros Hok. pose proof (dictFind_spec d k Hok) as Hf. destruct (assoc (entries d) k) as [e|] eqn:Ha.
  - destruct Hf as (r & -> & Hr). exists (Some r). split; [done |]. exists e.
    destruct (assoc_elem _ _ _ Ha) as [Hin Hm]. split_and!; auto. intros e' Hin' Hm'.
    pose proof (assoc_Some _ _ _ (ok_distinct _ Hok) Hin' Hm') as Ha'. congruence.
  - exists None. split; [done |]. intros e He. exact (assoc_not_elem _ _ _ Ha He).
Qed.

(** ** Clearing *)

Lemma clear_loop_all (t : list (list (dictEntry K V))) n : n = zlen (concat t) -> n < 2 ^ 64 -> clear_loop t n = concat t.
Proof.
  revert n. induction t as [|b t IH]; intros n Hn Hlt; cbn [clear_loop concat]; [done |]. cbn [concat] in Hn.
  rewrite length_app in Hn. rewrite Z.gtb_ltb. destruct (Z.ltb_spec 0 n).
  - f_equal. rewrite uwrap_small by lia. apply IH; lia.
  - symmetry. apply nil_length_inv. rewrite length_app. lia.
Qed.

Lemma clear_ok (h : dictht K V) : ht_ok h -> used h <= DICT_MAX -> _dictClear h = (_dictReset, ht_entries h).
Proof.
  intros [-> | [t Hl]] Hu; unfold _dictClear, ht_entries; [done |]. rewrite (live_table _ _ Hl). f_equal.
  unfold DICT_MAX in Hu. apply clear_loop_all; [apply Hl | lia].
Qed.

(** Emptying a dictionary frees every entry exactly once, although each
    table's loop stops as soon as its count reaches 0, and leaves an empty
    dictionary with no rehash in progress. *)
Theorem dictEmpty_frees_all d : dict_ok d ->
  dictEmpty d = (dictCreate, entries d) /\ dict_ok (dictEmpty d).1.
Proof.
  intros Hok. pose proof (ok_count _ Hok) as Hc. unfold entries in Hc. rewrite length_app in Hc.
  assert (dictEmpty d = (dictCreate, entries d)) as ->.
  { unfold dictEmpty. rewrite !clear_ok; [done | apply Hok | | apply Hok |].
    - rewrite (ok_used _ (ok_ht1 _ Hok)). lia.
    - rewrite (ok_used _ (ok_ht0 _ Hok)). lia. }
  split; [done | apply dict_ok_create].
Qed.

End Refinement.

#[global] Arguments dop : clear implicits.
#[global] Arguments dout : clear implicits.
#[global] Arguments DAdd {K V}.
#[global] Arguments DReplace {K V}.
#[global] Arguments DDelete {K V}.
#[global] Arguments DFetch {K V}.
#[global] Arguments DRehash {K V}.
#[global] Arguments DResize {K V}.
#[global] Arguments OStatus {V}.
#[global] Arguments OValue {V}.
#[global] Arguments ODone {V}.

(** ** A concrete key type: integers hashed to their low 32 bits *)

Module Example_dict.

#[export] Instance zdict : DictType Z Z := {|
  hashFunction := u32; keyCompare := Z.eqb; keyDup k := k; valDup v := v |}.

#[export] Instance zdict_laws : DictTypeLaws Z Z.
Proof.
  split; cbn.
  - intros k. by apply uwrap_range.
  - apply Z.eqb_refl.
  - apply Z.eqb_sym.
  - intros k1 k2 k3 H1 H2. zbool. apply Z.eqb_eq. congruence.
  - intros k1 k2 H. zbool. by subst.
  - apply Z.eqb_refl.
Qed.

Definition ops : list (dop Z Z) :=
  [DAdd true 1 10; DAdd true 5 50; DAdd true 9 90; DAdd true 2 20; DAdd true 6 60;
   DReplace true 5 55; DDelete 9; DAdd true 1 11; DFetch 9; DFetch 2].

Lemma dict_refines_map_witness : exists d,
  dop_runs ops dictCreate = Some (d,
    [OStatus 0; OStatus 0; OStatus 0; OStatus 0; OStatus 0; OStatus 0; OStatus 0; OStatus 1;
     OValue None; OValue (Some 20)]) /\
  dictFetchValue d 5 = Some (Some 55).
Proof.
  destruct (dict_refines_map ops 5 ltac:(done)) as (d & H1 & H2).
  exists d. split; [exact H1 | exact H2].
Defined.

(** A dictionary in the middle of a rehash from 4 to 8 buckets. *)
Definition mid_rehash : dict Z Z :=
  match dop_runs (take 5 ops) dictCreate with Some (d, _) => d | None => dictCreate end.

Lemma mid_rehash_ok : dict_ok mid_rehash.
Proof.
  destruct (dop_runs_spec (take 5 ops) dictCreate _ repr_create) as (d & Hd & Hok & _); [done |].
  unfold mid_rehash. by rewrite Hd.
Qed.

Lemma dictRehash_terminates_witness : dictIsRehashing mid_rehash = true /\ exists d',
  rehash_until 6 1 mid_rehash = Some d' /\ dict_ok d' /\ entries d' ≡ₚ entries mid_rehash /\
  dictIsRehashing d' = false.
Proof.
  split; [vm_compute; reflexivity |].
  apply (dictRehash_terminates mid_rehash 1); [apply mid_rehash_ok | lia].
Defined.

Lemma dictFind_correct_witness : exists r, dictFind mid_rehash 6 = Some r /\
  match r with
  | Some ref => exists e, deref mid_rehash ref = Some e /\ e ∈ entries mid_rehash /\
      keyCompare 6 (key e) = true /\
      forall e', e' ∈ entries mid_rehash -> keyCompare 6 (key e') = true -> e' = e
  | None => forall e, e ∈ entries mid_rehash -> keyCompare 6 (key e) = false
  end.
Proof. apply (dictFind_correct mid_rehash 6), mid_rehash_ok. Defined.

Lemma dictEmpty_frees_all_witness :
  dictEmpty mid_rehash = (dictCreate, entries mid_rehash) /\ dict_ok (dictEmpty mid_rehash).1.
Proof. apply (dictEmpty_frees_all mid_rehash), mid_rehash_ok. Defined.

End Example_dict.

End DictProps.
