(* ===== verification/DictScan.v ===== *)
(** * Hash tables: the stateless cursor iteration (dictScan)

    [dictScan] visits the buckets of the smaller table in bit-reversed order,
    with all their expansions in the larger one, so that a scan survives
    resizes between calls.  The proof follows the reversed cursor: a call with
    cursor [v] on a smaller table of [2^k] buckets emits every entry whose
    reversed hash lies in the aligned interval of length [2^(64-k)] around the
    reversed cursor, and returns the end of that interval. *)

From S2P Require Import Prelude Bytes Bits Dict DictInv DictOps DictProps.
Import Dict DictInv DictOps DictProps.

Module DictScan.

(** ** The code *)

(** One round of the parallel bit reversal with the updated mask. *)
Definition rev_step (s mask v : Z) : Z :=
  Z.lor (Z.land (Z.shiftr v s) mask) (Z.land (u64 (Z.shiftl v s)) (lnot64 mask)).

(** [while ((s >>= 1) > 0)]; [s] starts at 64 bits, seven tests end the loop. *)
Fixpoint rev_loop (fuel : nat) (s mask v : Z) : Z :=
  match fuel with
  | O => v
  | S fuel =>
      let s := Z.shiftr s 1 in
      if s >? 0 then
        let mask := Z.lxor mask (u64 (Z.shiftl mask s)) in
        rev_loop fuel s mask (rev_step s mask v)
      else v
  end.

Definition rev (v : Z) : Z := rev_loop 7 64 (lnot64 0) v.

Section Code.
Context {K V : Type}.
Abbreviation entry := (dictEntry K V).

(** The [do ... while] over the expansions in the larger table: the entries
    emitted and the cursor at exit. *)
Fixpoint scan_expand (fuel : nat) (t1 : dictht K V) (m0 m1 v : Z) : option (list entry * Z) :=
  match fuel with
  | O => None
  | S fuel =>
      de ← bucket t1 (Z.land v m1);
      let v := Z.lor (Z.land (u64 (Z.lor v m0 + 1)) (lnot64 m0)) (Z.land v m0) in
      if Z.land v (Z.lxor m0 m1) =? 0 then Some (de, v)
      else '(des, v) ← scan_expand fuel t1 m0 m1 v; Some (de ++ des, v)
  end.

(** The smaller and the larger table of a dictionary being rehashed. *)
Definition scan_tables (d : dict K V) : dictht K V * dictht K V :=
  if size (ht0 d) >? size (ht1 d) then (ht1 d, ht0 d) else (ht0 d, ht1 d).

(** The increment of the reversed cursor above the mask of the smaller table. *)
Definition scan_next (v m0 : Z) : Z := rev (u64 (rev (Z.lor v (lnot64 m0)) + 1)).

(** The entries passed to the callback, in order, and the next cursor. *)
Definition dictScan (d : dict K V) (v : Z) : option (list entry * Z) :=
  if dictSize d =? 0 then Some ([], 0)
  else if negb (dictIsRehashing d) then
    let m0 := sizemask (ht0 d) in
    de ← bucket (ht0 d) (Z.land v m0);
    Some (de, scan_next v m0)
  else
    let '(t0, t1) := scan_tables d in
    let m0 := sizemask t0 in
    let m1 := sizemask t1 in
    de ← bucket t0 (Z.land v m0);
    '(des, v) ← scan_expand (S (Z.to_nat (size t1))) t1 m0 m1 v;
    Some (de ++ des, scan_next v m0).

End Code.

(** ** Bit reversal *)

(** The source bit of bit [i] of a round. *)
Definition rev_src (s mask i : Z) : Z := if Z.testbit mask i then i + s else i - s.

Lemma rev_step_spec s mask v i : 0 <= v < 2 ^ 64 -> 0 <= s -> 0 <= mask < 2 ^ 64 -> 0 <= i < 64 ->
  Z.testbit (rev_step s mask v) i = Z.testbit v (rev_src s mask i).
Proof.
  intros Hv Hs Hm Hi. unfold rev_step, rev_src, lnot64, uwrap.
  rewrite Z.lor_spec, !Z.land_spec, Z.shiftr_spec, !Z.mod_pow2_bits_low, Z.lnot_spec, Z.shiftl_spec by lia.
  destruct (Z.testbit mask i); cbn [negb]; by rewrite ?andb_true_r, ?andb_false_r, ?orb_false_r.
Qed.

Lemma rev_step_range s mask v : 0 <= v -> 0 <= mask < 2 ^ 64 -> 0 <= rev_step s mask v < 2 ^ 64.
Proof.
  intros Hv Hm. apply testbit_range. split.
  - intros i Hi. unfold rev_step, lnot64, uwrap. rewrite Z.lor_spec, !Z.land_spec.
    apply testbit_range in Hm as [Hm _]. rewrite (Hm i Hi), andb_false_r.
    rewrite (Z.mod_pow2_bits_high _ 64 i) by lia. done.
  - unfold rev_step. apply Z.lor_nonneg. split; apply Z.land_nonneg; right; [lia |].
    unfold lnot64. pose proof (uwrap_range 64 ltac:(lia) (Z.lnot mask)). lia.
Qed.

(** The six rounds and their masks. *)
Definition rev_masks : list (Z * Z) :=
  [(1, 0x5555555555555555); (2, 0x3333333333333333); (4, 0x0F0F0F0F0F0F0F0F);
   (8, 0x00FF00FF00FF00FF); (16, 0x0000FFFF0000FFFF); (32, 0x00000000FFFFFFFF)].

Lemma rev_rounds v : rev v = fold_right (fun '(s, m) v => rev_step s m v) v rev_masks.
Proof. reflexivity. Qed.

Definition rounds (ms : list (Z * Z)) (v : Z) : Z := fold_right (fun '(s, m) v => rev_step s m v) v ms.

(** Where bit [i] of the result comes from, when it stays a bit of the word. *)
Fixpoint rev_path (ms : list (Z * Z)) (i : Z) : option Z :=
  match ms with
  | [] => Some i
  | (s, m) :: ms => let i := rev_src s m i in if (0 <=? i) && (i <? 64) then rev_path ms i else None
  end.

Lemma rounds_spec ms v : 0 <= v < 2 ^ 64 ->
  Forall (fun sm => 0 <= sm.1 /\ 0 <= sm.2 < 2 ^ 64) ms ->
  0 <= rounds ms v < 2 ^ 64 /\ forall i j, 0 <= i < 64 -> rev_path ms i = Some j -> Z.testbit (rounds ms v) i = Z.testbit v j.
Proof.
  intros Hv. induction 1 as [|[s m] ms [Hs Hm] _ [IHr IH]].
  - split; [done |]. by intros i j _ [= ->].
  - cbn in Hs, Hm. split; [by apply rev_step_range; [apply IHr |] |]. intros i j Hi Hj. cbn [rounds fold_right].
    rewrite rev_step_spec by done. cbn [rev_path] in Hj. destruct (_ && _) eqn:E in Hj; [|done]. zbool.
    apply IH; [lia | done].
Qed.

Lemma rev_masks_path : Forall (fun i => rev_path rev_masks i = Some (63 - i)) (seqZ 0 64).
Proof. apply (bool_decide_unpack _). vm_compute. exact I. Qed.

Lemma rev_spec v : 0 <= v < 2 ^ 64 ->
  0 <= rev v < 2 ^ 64 /\ forall i, 0 <= i < 64 -> Z.testbit (rev v) i = Z.testbit v (63 - i).
Proof.
  intros Hv. destruct (rounds_spec rev_masks v Hv) as [Hr Hb]; [repeat constructor; done |].
  rewrite rev_rounds. split; [done |]. intros i Hi. apply Hb; [done |].
  pose proof rev_masks_path as Hp. rewrite Forall_forall in Hp. apply Hp, elem_of_seqZ. lia.
Qed.

Lemma rev_rev v : 0 <= v < 2 ^ 64 -> rev (rev v) = v.
Proof.
  intros Hv. destruct (rev_spec v Hv) as [Hr Hb], (rev_spec (rev v) ltac:(apply rev_spec; done)) as [Hr' Hb'].
  apply bits_eq; [done.. |]. intros i Hi. rewrite Hb', Hb by lia. f_equal. lia.
Qed.

(** ** Cursors and buckets *)

(** Two words agree on the low [k] bits when their reversals lie in the same
    aligned interval of length [2^(64-k)]. *)
Lemma same_bucket a b k : 0 <= a < 2 ^ 64 -> 0 <= b < 2 ^ 64 -> 0 <= k <= 64 ->
  a mod 2 ^ k = b mod 2 ^ k <-> rev a / 2 ^ (64 - k) = rev b / 2 ^ (64 - k).
Proof.
  intros Ha Hb Hk. rewrite mod_bits, div_bits by lia. destruct (rev_spec a Ha) as [Ra Ba], (rev_spec b Hb) as [Rb Bb].
  split; intros H i Hi.
  - destruct (Z.lt_ge_cases i 64); [rewrite Ba, Bb by lia; apply H; lia |].
    apply testbit_range in Ra as [Ra _], Rb as [Rb _]. by rewrite Ra, Rb.
  - specialize (H (63 - i)). rewrite Ba, Bb in H by lia. replace (63 - (63 - i)) with i in H by lia. apply H. lia.
Qed.

(** The next cursor, in the reversed order: the end of the interval. *)
Definition next_rev (r k : Z) : Z := (r / 2 ^ (64 - k) + 1) * 2 ^ (64 - k).

Lemma unmasked_range v k : 0 <= v < 2 ^ 64 -> 0 <= k <= 64 -> 0 <= Z.lor v (lnot64 (2 ^ k - 1)) < 2 ^ 64.
Proof.
  intros Hv Hk. pose proof (uwrap_range 64 ltac:(lia) (Z.lnot (2 ^ k - 1))) as Hw. fold (lnot64 (2 ^ k - 1)) in Hw.
  apply testbit_range in Hv as [Hv ?], Hw as [Hw ?]. apply testbit_range. split.
  - intros i Hi. by rewrite Z.lor_spec, Hv, Hw.
  - apply Z.lor_nonneg. lia.
Qed.

Lemma unmasked_bits v k i : 0 <= k <= 64 -> 0 <= i < 64 ->
  Z.testbit (Z.lor v (lnot64 (2 ^ k - 1))) i = Z.testbit v i || (k <=? i).
Proof.
  intros Hk Hi. unfold lnot64, uwrap. rewrite Z.lor_spec, Z.mod_pow2_bits_low, Z.lnot_spec, Z.sub_1_r, <- Z.ones_equiv by lia.
  f_equal. destruct (Z.leb_spec k i); [rewrite Z.ones_spec_high by lia | rewrite Z.ones_spec_low by lia]; done.
Qed.

Lemma scan_next_spec v k : 0 <= v < 2 ^ 64 -> 0 <= k <= 64 ->
  scan_next v (2 ^ k - 1) = rev (u64 (next_rev (rev v) k)).
Proof.
  intros Hv Hk. unfold scan_next, next_rev. do 2 f_equal. pose proof (unmasked_range v k Hv Hk) as Hx.
  set (x := Z.lor _ _) in *. set (g := 2 ^ (64 - k)). assert (0 < g) by (apply Z.pow_pos_nonneg; lia).
  rewrite (Z.div_mod (rev x) g) by lia.
  assert (rev x / g = rev v / g) as ->.
  { apply same_bucket; [done.. |]. apply mod_bits; [lia |]. intros i Hi. unfold x.
    rewrite unmasked_bits by lia. zguard. by rewrite orb_false_r. }
  assert (rev x mod g = (g - 1) mod g) as ->; [|rewrite (Z.mod_small (g - 1)) by lia; lia].
  apply mod_bits; [lia |]. intros i Hi. rewrite (proj2 (rev_spec x Hx)) by lia. unfold x, g.
  rewrite unmasked_bits, Z.sub_1_r, <- Z.ones_equiv, Z.ones_spec_low by lia. zguard. by rewrite orb_true_r.
Qed.

(** Only the masked bits of the cursor count, and only they are set in the next. *)
Lemma scan_next_cong v v' k : 0 <= v < 2 ^ 64 -> 0 <= v' < 2 ^ 64 -> 0 <= k <= 64 ->
  v mod 2 ^ k = v' mod 2 ^ k -> scan_next v (2 ^ k - 1) = scan_next v' (2 ^ k - 1).
Proof.
  intros Hv Hv' Hk Heq. rewrite !scan_next_spec by done. unfold next_rev.
  apply same_bucket in Heq; [|done..]. by rewrite Heq.
Qed.

Lemma scan_next_range v k : 0 <= v < 2 ^ 64 -> 0 <= k <= 64 -> 0 <= scan_next v (2 ^ k - 1) < 2 ^ k.
Proof.
  intros Hv Hk. rewrite scan_next_spec by done. unfold next_rev. set (q := rev v / _ + 1).
  pose proof (uwrap_range 64 ltac:(lia) (q * 2 ^ (64 - k))) as Hu. destruct (rev_spec _ Hu) as [Hr Hb].
  replace (rev (u64 (q * 2 ^ (64 - k)))) with (rev (u64 (q * 2 ^ (64 - k))) mod 2 ^ k); [apply Z.mod_pos_bound; lia |].
  apply bits_eq; [|done|].
  - pose proof (Z.mod_pos_bound (rev (u64 (q * 2 ^ (64 - k)))) (2 ^ k) ltac:(lia)).
    pose proof (Z.pow_le_mono_r 2 k 64). lia.
  - intros i Hi. destruct (Z.lt_ge_cases i k); [by rewrite Z.mod_pow2_bits_low by lia |].
    rewrite Z.mod_pow2_bits_high, Hb by lia. unfold uwrap. rewrite Z.mod_pow2_bits_low by lia.
    by rewrite Z.mul_pow2_bits_low by lia.
Qed.

(** ** The expansions in the larger table *)

(** The increment of the bits above the smaller mask. *)
Lemma expand_incr c j k0 : 1 <= k0 -> 0 <= c < 2 ^ k0 -> 0 <= j -> (j + 1) * 2 ^ k0 < 2 ^ 64 ->
  let v := j * 2 ^ k0 + c in
  Z.lor (Z.land (u64 (Z.lor v (2 ^ k0 - 1) + 1)) (lnot64 (2 ^ k0 - 1))) (Z.land v (2 ^ k0 - 1)) = (j + 1) * 2 ^ k0 + c.
Proof.
  intros Hk Hc Hj Hmax v. rewrite land_mask by lia. unfold v at 2. rewrite mod_offset by done.
  assert (Z.lor v (2 ^ k0 - 1) = j * 2 ^ k0 + (2 ^ k0 - 1)) as ->.
  { unfold v. rewrite <- (lor_mod_small c j k0) by lia. rewrite <- Z.lor_assoc.
    replace (2 ^ k0 - 1) with (Z.ones k0) by (rewrite Z.ones_equiv; lia).
    rewrite (Z.lor_ones_low c k0), lor_mod_small; rewrite ?Z.ones_equiv; try lia.
    destruct (decide (c = 0)) as [-> |]; [cbn; lia | apply Z.log2_lt_pow2; lia]. }
  replace (j * 2 ^ k0 + (2 ^ k0 - 1) + 1) with ((j + 1) * 2 ^ k0) by lia. rewrite uwrap_small by lia.
  rewrite <- lor_mod_small by lia. f_equal. unfold lnot64, uwrap. rewrite <- Z.land_ones by lia.
  rewrite Z.land_assoc, <- Z.ldiff_land, Z.sub_1_r, <- Z.ones_equiv, Z.ldiff_ones_r, Z.land_ones by lia.
  rewrite Z.shiftr_div_pow2, Z.div_mul, Z.shiftl_mul_pow2 by lia. apply Z.mod_small. nia.
Qed.

(** The test on the bits covered by the mask difference. *)
Lemma expand_test c j k0 n : 0 <= k0 -> 0 <= n -> 0 <= c < 2 ^ k0 ->
  Z.land (j * 2 ^ k0 + c) (Z.lxor (2 ^ k0 - 1) (2 ^ (k0 + n) - 1)) = (j mod 2 ^ n) * 2 ^ k0.
Proof.
  intros Hk Hn Hc. rewrite !Z.sub_1_r, <- !Z.ones_equiv. apply Z.bits_inj'. intros i Hi.
  rewrite Z.land_spec, Z.lxor_spec, (Z.testbit_ones k0), (Z.testbit_ones (k0 + n)), <- lor_mod_small, Z.lor_spec by lia.
  rewrite !Z.mul_pow2_bits by lia. destruct (Z.lt_ge_cases i k0).
  - rewrite !(Z.testbit_neg_r _ (i - k0)) by lia. repeat zguard. cbn. apply andb_false_r.
  - rewrite <- (Z.mod_small c (2 ^ k0)), Z.mod_pow2_bits_high, orb_false_r by lia.
    destruct (Z.lt_ge_cases i (k0 + n)).
    + rewrite Z.mod_pow2_bits_low by lia. repeat zguard. cbn. apply andb_true_r.
    + rewrite Z.mod_pow2_bits_high by lia. repeat zguard. cbn. apply andb_false_r.
Qed.

Section Scan.
Context {K V : Type} {DT : DictType K V} {DL : DictTypeLaws K V}.
Implicit Types (d : dict K V) (h : dictht K V) (e : dictEntry K V).

(** A table has every bucket its mask can select. *)
Lemma bucket_defined h t idx : ht_live h t -> 0 <= idx < size h -> exists b, bucket h idx = Some b.
Proof.
  intros Hl Hi. destruct (lookup_lt_is_Some_2 t (Z.to_nat idx)) as [b Hb].
  { pose proof (live_len _ _ Hl). lia. }
  exists b. apply (bucket_live _ _ _ _ Hl). split; [lia | done].
Qed.

(** The chain of bucket [idx] is the entries whose masked hash is [idx]. *)
Lemma bucket_entries h t idx b n : ht_live h t -> 0 <= n -> size h = 2 ^ n -> bucket h idx = Some b ->
  forall e, e ∈ b <-> e ∈ concat t /\ hashFunction (key e) mod 2 ^ n = idx.
Proof.
  intros Hl Hn Hs Hb e. apply (bucket_live _ _ _ _ Hl) in Hb as [Hi Hb]. split.
  - intros He. split.
    + apply list_elem_of_In, in_concat. exists b. split; apply list_elem_of_In; [by eapply list_elem_of_lookup_2 | done].
    + pose proof (live_placed _ _ Hl _ _ _ Hb He) as Hp. rewrite (live_mask _ _ Hl), Hs, land_mask in Hp by done. lia.
  - intros [Hin Hh]. apply list_elem_of_In, in_concat in Hin as (b' & Hb' & He).
    apply list_elem_of_In in Hb', He. apply list_elem_of_lookup in Hb' as [i Hi'].
    pose proof (live_placed _ _ Hl _ _ _ Hi' He) as Hp. rewrite (live_mask _ _ Hl), Hs, land_mask, Hh in Hp by done.
    rewrite Hp, Nat2Z.id in Hb. congruence.
Qed.

Lemma scan_expand_spec h t c k0 n : ht_live h t -> 1 <= k0 -> 0 <= n -> size h = 2 ^ (k0 + n) -> 0 <= c < 2 ^ k0 ->
  forall fuel j, 0 <= j < 2 ^ n -> 2 ^ n - j <= Z.of_nat fuel ->
  exists es v, scan_expand fuel h (2 ^ k0 - 1) (2 ^ (k0 + n) - 1) (j * 2 ^ k0 + c) = Some (es, v) /\
    0 <= v < 2 ^ 64 /\ v mod 2 ^ k0 = c /\
    forall e, e ∈ es <-> e ∈ concat t /\ exists j', j <= j' < 2 ^ n /\ hashFunction (key e) mod 2 ^ (k0 + n) = j' * 2 ^ k0 + c.
Proof.
  intros Hl Hk Hn Hs Hc. assert (Hpow : 2 ^ (k0 + n) = 2 ^ n * 2 ^ k0) by (rewrite Z.add_comm; apply Z.pow_add_r; lia).
  pose proof (size_pos _ _ Hl) as Hsz. rewrite Hs in Hsz.
  induction fuel as [|fuel IH]; intros j Hj Hf; [lia |]. cbn [scan_expand].
  assert (Hv : 0 <= j * 2 ^ k0 + c < 2 ^ (k0 + n)) by nia.
  rewrite (land_mask _ (k0 + n)), Z.mod_small by lia.
  destruct (bucket_defined h t (j * 2 ^ k0 + c) Hl) as [b Hb]; [lia |]. rewrite Hb. cbn [mbind option_bind].
  rewrite expand_incr by (lia || nia). rewrite expand_test by lia.
  pose proof (bucket_entries h t _ b (k0 + n) Hl ltac:(lia) Hs Hb) as He.
  destruct (decide (j + 1 = 2 ^ n)) as [Hlast|Hmore].
  - rewrite Hlast, Z.mod_same by lia. cbn. exists b, (2 ^ n * 2 ^ k0 + c). split; [done |].
    split; [lia |]. split; [by apply mod_offset |]. intros e. rewrite He. split.
    + intros [? ?]. split; [done |]. exists j. lia.
    + intros [? (j' & ? & ?)]. replace j' with j in * by lia. done.
  - destruct (IH (j + 1)) as (es & v & -> & Hvr & Hvm & Hes); [lia..|].
    rewrite (Z.mod_small (j + 1)) by lia. zguard. cbn [mbind option_bind].
    exists (b ++ es), v. split_and!; [done | lia | lia | done |]. intros e. rewrite elem_of_app, He, Hes. split.
    + intros [[? ?] | [? (j' & ? & ?)]]; (split; [done |]); [exists j | exists j']; lia.
    + intros [? (j' & ? & ?)]. destruct (decide (j' = j)) as [-> |]; [by left |]. right. split; [done |]. exists j'. lia.
Qed.

(** The number of buckets the cursor runs over. *)
Definition scan_size d : Z := if dictIsRehashing d then size (scan_tables d).1 else size (ht0 d).

Lemma hash_expand x k0 n c : 0 <= k0 -> 0 <= n -> 0 <= c < 2 ^ k0 ->
  (exists j, 0 <= j < 2 ^ n /\ x mod 2 ^ (k0 + n) = j * 2 ^ k0 + c) <-> x mod 2 ^ k0 = c.
Proof.
  intros Hk Hn Hc. assert (Hpow : 2 ^ (k0 + n) = 2 ^ k0 * 2 ^ n) by (apply Z.pow_add_r; lia).
  assert (0 < 2 ^ k0) by (apply Z.pow_pos_nonneg; lia). assert (0 < 2 ^ n) by (apply Z.pow_pos_nonneg; lia).
  rewrite Hpow, Z.rem_mul_r by lia. pose proof (Z.mod_pos_bound x (2 ^ k0) ltac:(lia)).
  pose proof (Z.mod_pos_bound (x / 2 ^ k0) (2 ^ n) ltac:(lia)). split.
  - intros (j & Hj & Heq). assert (((x / 2 ^ k0) mod 2 ^ n) = j) by (clear -Heq H1 Hc; nia). lia.
  - intros Heq. exists ((x / 2 ^ k0) mod 2 ^ n). lia.
Qed.

Lemma scan_tables_spec d : dict_ok d -> dictIsRehashing d = true ->
  exists t0 t1 k n, ht_live (scan_tables d).1 t0 /\ ht_live (scan_tables d).2 t1 /\ 2 <= k /\ 0 <= n /\ k + n <= 31 /\
    size (scan_tables d).1 = 2 ^ k /\ size (scan_tables d).2 = 2 ^ (k + n) /\
    forall e, e ∈ entries d <-> e ∈ concat t0 \/ e ∈ concat t1.
Proof.
  intros Hok Hr. destruct (rehash_lives d Hok Hr) as (ta & tb & Ha & Hb & _).
  destruct (live_size _ _ Ha) as (na & Hna & Hsa), (live_size _ _ Hb) as (nb & Hnb & Hsb).
  assert (Hin : forall e, e ∈ entries d <-> e ∈ concat ta \/ e ∈ concat tb).
  { intros e. unfold entries, ht_entries. by rewrite elem_of_app, (live_table _ _ Ha), (live_table _ _ Hb). }
  unfold scan_tables. zcase; cbn [fst snd].
  - assert (nb < na) by (apply (Z.pow_lt_mono_r_iff 2); lia).
    exists tb, ta, nb, (na - nb). replace (nb + (na - nb)) with na by lia. split_and!; auto; try lia.
    intros e. rewrite Hin. tauto.
  - assert (na <= nb) by (apply (Z.pow_le_mono_r_iff 2); lia).
    exists ta, tb, na, (nb - na). replace (na + (nb - na)) with nb by lia. split_and!; auto; lia.
Qed.

(** A call with a cursor below the number of buckets emits exactly the entries
    whose hash has the cursor as its low bits, from whichever table. *)
Lemma dictScan_spec d v : dict_ok d -> entries d <> [] -> 0 <= v < scan_size d ->
  exists k es, 2 <= k <= 31 /\ scan_size d = 2 ^ k /\ dictScan d v = Some (es, scan_next v (2 ^ k - 1)) /\
    forall e, e ∈ es <-> e ∈ entries d /\ hashFunction (key e) mod 2 ^ k = v.
Proof.
  intros Hok Hne Hv. unfold dictScan, scan_size in *.
  assert (Hn0 : dictSize d <> 0).
  { unfold dictSize. rewrite count_zero by done. destruct (entries d); [done | simpl; lia]. }
  zguard. destruct (dictIsRehashing d) eqn:Hr; cbn [negb].
  - destruct (scan_tables_spec d Hok Hr) as (t0 & t1 & k & n & H0 & H1 & Hk & Hn & Hkn & Hs0 & Hs1 & Hin).
    destruct (scan_tables d) as [h0 h1]. cbn [fst snd] in *. rewrite (live_mask _ _ H0), (live_mask _ _ H1), Hs0, Hs1.
    rewrite Hs0 in Hv. pose proof (size_pos _ _ H0). pose proof (size_pos _ _ H1).
    assert (2 ^ n <= 2 ^ (k + n)) by (apply Z.pow_le_mono_r; lia). assert (0 < 2 ^ n) by (apply Z.pow_pos_nonneg; lia).
    rewrite land_mask, Z.mod_small by lia. destruct (bucket_defined h0 t0 v H0) as [b Hb]; [lia |].
    destruct (scan_expand_spec h1 t1 v k n H1 ltac:(lia) Hn Hs1 ltac:(lia) (S (Z.to_nat (2 ^ (k + n)))) 0)
      as (es & v' & Hx & Hv' & Hm & Hes); [lia..|]. rewrite Z.mul_0_l, Z.add_0_l in Hx.
    rewrite Hb. cbn [mbind option_bind]. rewrite Hx. cbn [mbind option_bind]. exists k, (b ++ es). split; [lia |].
    split; [done |]. split; [do 2 f_equal; apply scan_next_cong; rewrite ?Hm, ?Z.mod_small by lia; lia |].
    intros e. rewrite elem_of_app, Hin, Hes, hash_expand, (bucket_entries h0 t0 v b k H0) by (lia || done). tauto.
  - destruct (nonempty_live d Hok Hne) as [t Hl]. destruct (live_size _ _ Hl) as (k & Hk & Hs).
    rewrite (live_mask _ _ Hl), Hs. rewrite Hs in Hv. rewrite land_mask, Z.mod_small by lia.
    destruct (bucket_defined _ t v Hl) as [b Hb]; [lia |]. rewrite Hb. cbn [mbind option_bind]. exists k, b.
    split; [done |]. split; [done |]. split; [done |]. intros e. rewrite (bucket_entries _ t v b k Hl) by (lia || done).
    unfold entries, ht_entries. rewrite (no_rehash_ht1 d Hok Hr), (live_table _ _ Hl). cbn. by rewrite app_nil_r.
Qed.

(** ** A scan over successive states *)

(** The calls a client makes until the cursor comes back to 0, the dictionary
    being in the successive states [ds]; the flag says whether it came back. *)
Fixpoint scan_run (ds : list (dict K V)) (v : Z) : option (list (dictEntry K V) * bool) :=
  match ds with
  | [] => Some ([], false)
  | d :: ds =>
      '(es, v) ← dictScan d v;
      if v =? 0 then Some (es, true)
      else '(es', fin) ← scan_run ds v; Some (es ++ es', fin)
  end.

(** The key has an entry in the list. *)
Definition has_key (l : list (dictEntry K V)) (k : K) : Prop := exists e, e ∈ l /\ matches k e = true.

Lemma next_rev_bounds r k : 0 <= r < 2 ^ 64 -> 0 <= k <= 64 -> r < next_rev r k <= 2 ^ 64.
Proof.
  intros Hr Hk. unfold next_rev. assert (Hp : 2 ^ 64 = 2 ^ k * 2 ^ (64 - k)) by (rewrite <- Z.pow_add_r by lia; f_equal; lia).
  set (g := 2 ^ (64 - k)) in *. assert (0 < g) by (apply Z.pow_pos_nonneg; lia).
  pose proof (Z.div_mod r g ltac:(lia)). pose proof (Z.mod_pos_bound r g ltac:(lia)).
  assert (r / g < 2 ^ k) by (apply Z.div_lt_upper_bound; lia). nia.
Qed.

Lemma rev_next v k : 0 <= v < 2 ^ 64 -> 0 <= k <= 64 ->
  rev (scan_next v (2 ^ k - 1)) = u64 (next_rev (rev v) k).
Proof. intros Hv Hk. rewrite scan_next_spec by done. apply rev_rev. apply uwrap_range. lia. Qed.

(** The scan ends exactly when the interval reaches the end of the space. *)
Lemma scan_end v k : 0 <= v < 2 ^ 64 -> 0 <= k <= 64 ->
  if scan_next v (2 ^ k - 1) =? 0 then next_rev (rev v) k = 2 ^ 64
  else rev (scan_next v (2 ^ k - 1)) = next_rev (rev v) k.
Proof.
  intros Hv Hk. pose proof (rev_next v k Hv Hk) as Hn. destruct (rev_spec v Hv) as [Hr _].
  pose proof (next_rev_bounds _ k Hr Hk) as Hb. zcase.
  - rewrite e in Hn. change (rev 0) with 0 in Hn. unfold uwrap in Hn.
    destruct (decide (next_rev (rev v) k = 2 ^ 64)); [done |]. rewrite Z.mod_small in Hn by lia. lia.
  - rewrite Hn. destruct (decide (next_rev (rev v) k = 2 ^ 64)) as [He|]; [|apply uwrap_small; lia].
    exfalso. apply n. rewrite scan_next_spec, He by done. reflexivity.
Qed.

(** The key's reversed hash lies in the interval when it is past its start. *)
Lemma in_interval x v k : 0 <= x < 2 ^ 64 -> 0 <= v < 2 ^ k -> 0 <= k <= 64 -> rev v <= rev x < next_rev (rev v) k ->
  x mod 2 ^ k = v.
Proof.
  intros Hx Hv Hk Hr. assert (Hv' : 0 <= v < 2 ^ 64) by (pose proof (Z.pow_le_mono_r 2 k 64); lia).
  rewrite <- (Z.mod_small v (2 ^ k)) by done. apply same_bucket; [done.. |]. unfold next_rev in Hr.
  set (g := 2 ^ (64 - k)) in *. assert (0 < g) by (apply Z.pow_pos_nonneg; lia).
  assert (rev v / g <= rev x / g) by (apply Z.div_le_mono; lia).
  assert (rev x / g < rev v / g + 1) by (apply Z.div_lt_upper_bound; lia). lia.
Qed.

Lemma divide_next r k n : 0 <= k <= n -> n <= 64 -> (2 ^ (64 - n) | next_rev r k).
Proof.
  intros Hk Hn. unfold next_rev. apply Z.divide_mul_r. exists (2 ^ (n - k)).
  rewrite <- Z.pow_add_r by lia. f_equal. lia.
Qed.

Lemma scan_size_pos d : dict_ok d -> entries d <> [] -> 4 <= scan_size d.
Proof.
  intros Hd Hne. unfold scan_size. destruct (dictIsRehashing d) eqn:Hr.
  - destruct (scan_tables_spec d Hd Hr) as (? & ? & ? & ? & Hl & _). apply size_pos in Hl; lia.
  - destruct (nonempty_live d Hd Hne) as [? Hl]. apply size_pos in Hl; lia.
Qed.

Lemma dictScan_empty d v : dict_ok d -> entries d = [] -> dictScan d v = Some ([], 0).
Proof. intros Hd He. unfold dictScan, dictSize. by rewrite count_zero, He by done. Qed.

(** One call, in the reversed order: the keys it owes, and where it stops. *)
Lemma dictScan_step d v n : dict_ok d -> entries d <> [] -> 0 <= v < 2 ^ 64 -> v = 0 \/ v < scan_size d ->
  0 <= n <= 31 -> scan_size d <= 2 ^ n ->
  exists es v' r, dictScan d v = Some (es, v') /\ 0 <= v' < scan_size d /\ scan_size d <= 2 ^ 64 /\
    (forall e, e ∈ es -> e ∈ entries d) /\
    (forall x, has_key (entries d) x -> rev v <= rev (hashFunction x) < r -> has_key es x) /\
    rev v < r /\ (2 ^ (64 - n) | r) /\ if v' =? 0 then r = 2 ^ 64 else rev v' = r.
Proof.
  intros Hd Hne Hv Hb Hn Hmax. pose proof (scan_size_pos d Hd Hne).
  destruct (dictScan_spec d v Hd Hne ltac:(lia)) as (k & es & Hk & Hsz & Heq & Hes). rewrite Hsz in *.
  assert (k <= n) by (apply (Z.pow_le_mono_r_iff 2); lia). destruct (rev_spec v Hv) as [Hrv _].
  exists es, (scan_next v (2 ^ k - 1)), (next_rev (rev v) k). split; [done |].
  split; [apply scan_next_range; lia |]. split; [apply Z.pow_le_mono_r; lia |]. split; [intros e He; by apply Hes |].
  split; [|split; [apply next_rev_bounds; lia | split; [apply divide_next; lia | apply scan_end; lia]]].
  intros x (e & He & Hmt) Hrx. exists e. split; [|done]. apply Hes. split; [done |].
  unfold matches in Hmt. rewrite <- (cmp_hash _ _ Hmt). pose proof (hash_range x). apply in_interval; lia.
Qed.

Lemma has_key_app l1 l2 k : has_key l1 k \/ has_key l2 k -> has_key (l1 ++ l2) k.
Proof. intros [(e & ? & ?) | (e & ? & ?)]; exists e; rewrite elem_of_app; tauto. Qed.

Lemma rev_hash k : 0 <= rev (hashFunction k) < 2 ^ 64.
Proof. pose proof (hash_range k). apply rev_spec. lia. Qed.

Lemma scan_run_spec n ds : 0 <= n <= 31 -> forall v,
  Forall dict_ok ds -> StronglySorted (fun d d' => scan_size d <= scan_size d') ds ->
  Forall (fun d => scan_size d <= 2 ^ n) ds -> 0 <= v < 2 ^ 64 -> Forall (fun d => v = 0 \/ v < scan_size d) ds ->
  (2 ^ (64 - n) | rev v) -> 2 ^ 64 - rev v <= Z.of_nat (length ds) * 2 ^ (64 - n) ->
  exists es, scan_run ds v = Some (es, true) /\ Forall (fun e => Exists (fun d => e ∈ entries d) ds) es /\
    forall k, Forall (fun d => has_key (entries d) k) ds -> rev v <= rev (hashFunction k) -> has_key es k.
Proof.
  intros Hn. induction ds as [|d ds IH]; intros v Hok Hs Hmax Hv Hb Hdiv Hm.
  { destruct (rev_spec v Hv). simpl length in Hm. lia. }
  apply Forall_cons_1 in Hok as [Hd Hok], Hmax as [Hmd Hmax], Hb as [Hbd Hb].
  inversion_clear Hs as [|? ? Hs' Hle]. cbn [scan_run].
  destruct (decide (entries d = [])) as [Hemp|Hne].
  { exists []. rewrite (dictScan_empty d v Hd Hemp). cbn [mbind option_bind]. split; [done |]. split; [constructor |].
    intros k [(e & He & _) _]%Forall_cons_1. rewrite Hemp in He. by apply elem_of_nil in He. }
  destruct (dictScan_step d v n Hd Hne Hv Hbd Hn Hmd) as (es & v' & r & -> & Hv' & H64 & Hin & Hemit & Hr & Hdr & Hend).
  cbn [mbind option_bind]. assert (Hin' : Forall (fun e => Exists (fun d => e ∈ entries d) (d :: ds)) es).
  { apply Forall_forall. intros e He. constructor. auto. }
  destruct (v' =? 0) eqn:E.
  - exists es. split; [done |]. split; [done |]. intros x [Hx _]%Forall_cons_1 Hrx. apply Hemit; [done |].
    pose proof (rev_hash x). lia.
  - destruct (IH v') as (es' & -> & Hfrom & Hall); try done; try lia.
    + eapply Forall_impl; [exact Hle |]. intros d' Hd'. cbn in Hd'. right. lia.
    + by rewrite Hend.
    + rewrite Hend. cbn [length] in Hm. destruct Hdiv as [a Ha], Hdr as [b Hb'].
      assert (0 < 2 ^ (64 - n)) by (apply Z.pow_pos_nonneg; lia). assert (a + 1 <= b) by nia.
      rewrite Nat2Z.inj_succ in Hm. nia.
    + exists (es ++ es'). split; [done |]. split.
      * apply Forall_app. split; [done |]. eapply Forall_impl; [exact Hfrom |]. intros e He. by apply Exists_cons_tl.
      * intros x [Hxd Hx]%Forall_cons_1 Hrx. apply has_key_app.
        destruct (Z.lt_ge_cases (rev (hashFunction x)) r); [left; apply Hemit | right; apply Hall]; auto with lia.
Qed.

(** C17. A scan started at cursor 0 while the dictionary goes through any states
    of the invariant, keys added, removed and moved by a rehash between the
    calls, in which the table the cursor runs over never shrinks and has at
    most [2^n] buckets: the cursor comes back to 0 within [2^n] calls, every
    key present in all the states has been emitted, and only entries of some
    state were. *)
Theorem dictScan_complete n ds : 0 <= n <= 31 -> Forall dict_ok ds ->
  StronglySorted (fun d d' => scan_size d <= scan_size d') ds ->
  Forall (fun d => scan_size d <= 2 ^ n) ds -> 2 ^ n <= zlen ds ->
  exists es, scan_run ds 0 = Some (es, true) /\
    (forall k, Forall (fun d => has_key (entries d) k) ds -> has_key es k) /\
    Forall (fun e => Exists (fun d => e ∈ entries d) ds) es.
Proof.
  intros Hn Hok Hs Hmax Hlen.
  destruct (scan_run_spec n ds Hn 0) as (es & He & Hin & Hall); try done.
  - by apply Forall_true; left.
  - by exists 0.
  - change (rev 0) with 0. assert (2 ^ 64 = 2 ^ n * 2 ^ (64 - n)) by (rewrite <- Z.pow_add_r by lia; f_equal; lia). nia.
  - exists es. split_and!; [done | | done]. intros k Hk. apply Hall; [done |]. apply rev_hash.
Qed.

End Scan.

(** The mask-and-shift loop reverses the bits of an unsigned long: bit [i]
    of the result is bit [63 - i] of the argument, and reversing twice gives
    the argument back. *)
Theorem rev_correct v : 0 <= v < 2 ^ 64 ->
  0 <= rev v < 2 ^ 64 /\ (forall i, 0 <= i < 64 -> Z.testbit (rev v) i = Z.testbit v (63 - i)) /\ rev (rev v) = v.
Proof. intros Hv. split; [by apply rev_spec |]. split; [by apply rev_spec | by apply rev_rev]. Qed.

Lemma rev_correct_witness : 0 <= rev 6 < 2 ^ 64 /\
  (forall i, 0 <= i < 64 -> Z.testbit (rev 6) i = Z.testbit 6 (63 - i)) /\ rev (rev 6) = 6.
Proof. apply (rev_correct 6). lia. Defined.

Module Example_scan.
Import DictProps.Example_dict.

(** Eight states: a 4-bucket table, then the rehash to 8 buckets under way. *)
Definition small : dict Z Z :=
  match dop_runs (take 4 ops) dictCreate with Some (d, _) => d | None => dictCreate end.

Lemma small_ok : dict_ok small.
Proof.
  destruct (dop_runs_spec (take 4 ops) dictCreate _ repr_create) as (d & Hd & Hok & _); [done |].
  unfold small. by rewrite Hd.
Qed.

Definition states : list (dict Z Z) := [small; mid_rehash; mid_rehash; mid_rehash].

Lemma dictScan_complete_witness : exists es, scan_run states 0 = Some (es, true) /\
  (forall k, Forall (fun d => has_key (entries d) k) states -> has_key es k) /\
  Forall (fun e => Exists (fun d => e ∈ entries d) states) es.
Proof.
  apply (dictScan_complete 2 states); [lia | | | |].
  - apply Forall_cons_2; [apply small_ok |]. do 3 (apply Forall_cons_2; [apply mid_rehash_ok |]). apply Forall_nil_2.
  - repeat apply SSorted_cons; try apply SSorted_nil; apply (bool_decide_unpack _); vm_compute; exact I.
  - apply (bool_decide_unpack _); vm_compute; exact I.
  - apply (bool_decide_unpack _); vm_compute; exact I.
Defined.

(** Sixteen buckets, holding the keys 0, 1 and 4, and the start of the rehash to four. *)
Definition shrink_ops : list (dop Z Z) :=
  (fun k => DAdd true k k) <$> seqZ 0 9.
Definition shrink_ops' : list (dop Z Z) :=
  shrink_ops ++ DRehash 100 :: ((fun k => DDelete k) <$> [2; 3; 5; 6; 7; 8]).

Definition wide : dict Z Z :=
  match dop_runs shrink_ops' dictCreate with Some (d, _) => d | None => dictCreate end.
Definition shrinking : dict Z Z :=
  match dop_runs (shrink_ops' ++ [DResize true]) dictCreate with Some (d, _) => d | None => dictCreate end.

(** C40. When the table shrinks during a scan the guarantee is lost: the cursor 8
    left by a call on 16 buckets, used while the rehash to 4 buckets runs,
    makes the loop over the expansions start at bucket 8 and skip bucket 4, so
    that the key 4, present throughout, is never emitted. *)
Theorem dictScan_shrink_misses :
  dict_ok wide /\ dictResize true wide = Some (shrinking, DICT_OK) /\
  scan_size wide = 16 /\ scan_size shrinking = 4 /\ dictScan wide 0 = Some ([mk_entry 0 (Some 0)], 8) /\
  let ds := [wide; shrinking; shrinking; shrinking; shrinking] in
  Forall (fun d => has_key (entries d) 4) ds /\
  exists es, scan_run ds 0 = Some (es, true) /\ forall e, e ∈ es -> matches 4 e = false.
Proof.
  split. { destruct (dop_runs_spec shrink_ops' dictCreate _ repr_create) as (d & Hd & Hok & _); [done |].
    unfold wide. by rewrite Hd. }
  split; [vm_compute; reflexivity |]. split; [vm_compute; reflexivity |]. split; [vm_compute; reflexivity |].
  split; [vm_compute; reflexivity |]. split.
  - repeat apply Forall_cons_2; try apply Forall_nil_2;
      (exists (mk_entry 4 (Some 4)); split; [apply list_elem_of_In; vm_compute; tauto | vm_compute; reflexivity]).
  - eexists. split; [vm_compute; reflexivity |]. apply Forall_forall. repeat constructor.
Qed.

End Example_scan.

End DictScan.
