(* ===== verification/DictIter.v ===== *)
(** * Iterators over hash tables (vr_dict.c)

    [dictNext] walks the buckets of the first table and, during a rehash, those
    of the second.  A pointer into a chain is the rest of the chain from there
    on, the empty list for NULL.  The addresses of the bucket arrays, which the
    fingerprint of an unsafe iterator covers, are parameters. *)

From S2P Require Import Prelude Bytes Dict DictInv DictOps DictProps.

Module DictIter.
Import Dict DictInv DictOps DictProps.

Section Code.
Context {K V : Type} `{DT : DictType K V}.

Record dictIterator := mk_iter {
  it_index : Z;
  it_table : bool;
  it_safe : bool;
  it_entry : list (dictEntry K V);
  it_nextEntry : list (dictEntry K V);
  it_fingerprint : Z
}.

(** One step of Thomas Wang's integer hash on [long long]. *)
Definition wang (hash : Z) : Z :=
  let hash := s64 (Z.lnot hash + s64 (Z.shiftl hash 21)) in
  let hash := Z.lxor hash (Z.shiftr hash 24) in
  let hash := s64 (hash + s64 (Z.shiftl hash 3) + s64 (Z.shiftl hash 8)) in
  let hash := Z.lxor hash (Z.shiftr hash 14) in
  let hash := s64 (hash + s64 (Z.shiftl hash 2) + s64 (Z.shiftl hash 4)) in
  let hash := Z.lxor hash (Z.shiftr hash 28) in
  s64 (hash + s64 (Z.shiftl hash 31)).

Definition dictFingerprint (a0 a1 : Z) (d : dict K V) : Z :=
  let integers := [a0; size (ht0 d); used (ht0 d); a1; size (ht1 d); used (ht1 d)] in
  fold_left (fun hash i => wang (s64 (hash + s64 i))) integers 0.

Definition dictGetIterator : dictIterator := mk_iter (-1) false false [] [] 0.
Definition dictGetSafeIterator : dictIterator := mk_iter (-1) false true [] [] 0.

Context (a0 a1 : Z).

(** The first call records the iteration in the dictionary, or its fingerprint. *)
Definition start_iterator (d : dict K V) (it : dictIterator) : dict K V * dictIterator :=
  match it_entry it with
  | [] =>
      if (it_index it =? -1) && negb (it_table it) then
        if it_safe it then (set_iterators d (s32 (iterators d + 1)), it)
        else (d, mk_iter (it_index it) (it_table it) (it_safe it) (it_entry it) (it_nextEntry it) (dictFingerprint a0 a1 d))
      else (d, it)
  | _ => (d, it)
  end.

(** The rest of the two branches on [iter->entry]; [inr] is the [break]. *)
Definition advance (d : dict K V) (it : dictIterator) : option (dictIterator + dictIterator) :=
  match it_entry it with
  | [] =>
      let index := it_index it + 1 in
      if index >=? size (get_ht d (it_table it)) then
        if dictIsRehashing d && negb (it_table it) then
          b ← bucket (ht1 d) 0;
          Some (inl (mk_iter 0 true (it_safe it) b (it_nextEntry it) (it_fingerprint it)))
        else Some (inr (mk_iter index (it_table it) (it_safe it) [] (it_nextEntry it) (it_fingerprint it)))
      else
        b ← bucket (get_ht d (it_table it)) index;
        Some (inl (mk_iter index (it_table it) (it_safe it) b (it_nextEntry it) (it_fingerprint it)))
  | _ => Some (inl (mk_iter (it_index it) (it_table it) (it_safe it) (it_nextEntry it) (it_nextEntry it) (it_fingerprint it)))
  end.

(** The [while (1)] loop: the dictionary, the iterator and the entry returned. *)
Fixpoint next_loop (fuel : nat) (d : dict K V) (it : dictIterator) : option (dict K V * dictIterator * option (dictEntry K V)) :=
  match fuel with
  | O => None
  | S fuel =>
      let '(d, it) := start_iterator d it in
      r ← advance d it;
      match r with
      | inr it => Some (d, it, None)
      | inl it =>
          match it_entry it with
          | e :: next => Some (d, mk_iter (it_index it) (it_table it) (it_safe it) (e :: next) next (it_fingerprint it), Some e)
          | [] => next_loop fuel d it
          end
      end
  end.

Definition dictNext (d : dict K V) (it : dictIterator) : option (dict K V * dictIterator * option (dictEntry K V)) :=
  next_loop (Z.to_nat (size (ht0 d)) + Z.to_nat (size (ht1 d)) + 3) d it.

(** [None] is the failed check of the fingerprint. *)
Definition dictReleaseIterator (d : dict K V) (it : dictIterator) : option (dict K V) :=
  if negb ((it_index it =? -1) && negb (it_table it)) then
    if it_safe it then Some (set_iterators d (s32 (iterators d - 1)))
    else if it_fingerprint it =? dictFingerprint a0 a1 d then Some d else None
  else Some d.

(** [while ((de = dictNext(di)) != NULL)] of the callers: the entries seen. *)
Fixpoint iterate (fuel : nat) (d : dict K V) (it : dictIterator) : option (dict K V * dictIterator * list (dictEntry K V)) :=
  match fuel with
  | O => None
  | S fuel =>
      '(d, it, e) ← dictNext d it;
      match e with
      | None => Some (d, it, [])
      | Some e => '(d, it, es) ← iterate fuel d it; Some (d, it, e :: es)
      end
  end.
End Code.

#[global] Arguments dictIterator : clear implicits.

(** ** What remains to be visited *)

Section Spec.
Context {K V : Type} {DT : DictType K V} {DL : DictTypeLaws K V} (a0 a1 : Z).
Implicit Types (d : dict K V) (h : dictht K V) (it : dictIterator K V).

Definition buckets h : list (list (dictEntry K V)) := default [] (table h).

Definition rest h (index : Z) : list (dictEntry K V) := concat (drop (Z.to_nat (index + 1)) (buckets h)).

Definition in_chain it : list (dictEntry K V) := match it_entry it with [] => [] | _ => it_nextEntry it end.

(** The entries a started iterator has still to return, in its order. *)
Definition pending d it : list (dictEntry K V) :=
  in_chain it ++ rest (get_ht d (it_table it)) (it_index it) ++ (if it_table it then [] else ht_entries (ht1 d)).

(** The buckets it has still to open. *)
Definition to_open d it : nat :=
  (length (buckets (get_ht d (it_table it))) - Z.to_nat (it_index it + 1)) + (if it_table it then 0 else length (buckets (ht1 d)))
  + (match it_entry it with [] => 0 | _ => 1 end).

Lemma buckets_size h : ht_ok h -> zlen (buckets h) = size h.
Proof using. intros [-> | [t [Ht _ Hl _ _ _]]]; [done |]. unfold buckets. by rewrite Ht. Qed.

Lemma buckets_entries h : ht_entries h = concat (buckets h).
Proof using. unfold ht_entries, buckets. by destruct (table h). Qed.

Lemma bucket_buckets h i : 0 <= i < zlen (buckets h) -> exists b, bucket h i = Some b /\ buckets h !! Z.to_nat i = Some b.
Proof using.
  unfold bucket, buckets. destruct (table h) as [t|]; cbn; [|lia]. intros Hi. zguard. destruct (lookup_lt_is_Some_2 t (Z.to_nat i)) as [b Hb]; [lia |]. eauto.
Qed.

Lemma rest_step h i b : 0 <= i -> buckets h !! Z.to_nat i = Some b -> rest h (i - 1) = b ++ rest h i.
Proof using.
  intros Hi Hb. unfold rest. replace (Z.to_nat (i - 1 + 1)) with (Z.to_nat i) by lia. rewrite (drop_S _ _ _ Hb). cbn. do 3 f_equal. lia.
Qed.

Lemma rest_end h i : zlen (buckets h) <= i + 1 -> rest h i = [].
Proof using. intros Hi. unfold rest. by rewrite drop_ge by lia. Qed.

(** What [advance] does: it stops when nothing is pending, and otherwise moves
    to a chain whose entries are the next ones pending. *)
Lemma advance_spec d it : dict_ok d -> -1 <= it_index it -> (it_entry it = [] \/ 0 <= it_index it) ->
  exists it', it_safe it' = it_safe it /\ it_fingerprint it' = it_fingerprint it /\ 0 <= it_index it' /\
    (advance d it = Some (inr it') /\ pending d it = [] \/
     advance d it = Some (inl it') /\ (forall nx, to_open d it = S (to_open d (mk_iter (it_index it') (it_table it') (it_safe it') [] nx (it_fingerprint it')))) /\
     pending d it = it_entry it' ++ rest (get_ht d (it_table it')) (it_index it') ++ (if it_table it' then [] else ht_entries (ht1 d))).
Proof using DL.
  intros Hok Hi Hen. destruct it as [i j s en nx fp]. unfold advance, pending, to_open, in_chain. cbn [it_index it_safe it_fingerprint it_entry it_table it_nextEntry] in *.
  pose proof (buckets_size _ (ok_get_ht d j Hok)) as Hsz. destruct en as [|e en].
  2: { eexists. split_and!; [| | | right; split_and!; [done | |]]; cbn [it_index it_safe it_fingerprint it_entry it_table it_nextEntry]; try done; try (intros; lia). by destruct Hen. }
  destruct (Z.geb_spec (i + 1) (size (get_ht d j))) as [Hge | Hlt].
  - rewrite rest_end by lia. destruct (dictIsRehashing d) eqn:Hre, j; cbn [andb negb].
    2: { destruct (rehash_lives d Hok Hre) as (t0 & t1 & _ & H1 & _). pose proof (size_pos _ _ H1) as Hp.
      pose proof (buckets_size _ (ok_ht1 _ Hok)) as Hs1. destruct (bucket_buckets (ht1 d) 0) as (b & -> & Hb); [lia |].
      eexists. split_and!; [| | | right; split_and!; [done | |]]; cbn [it_index it_safe it_fingerprint it_entry it_table it_nextEntry get_ht] in *; try done; [intros; lia |].
      rewrite app_nil_r, <- (rest_step _ 0) by done. unfold rest. by rewrite buckets_entries. }
    all: eexists; split_and!; [| | | left; split; [done |]]; cbn; try done; try lia.
    all: by rewrite (no_rehash_ht1 d Hok Hre).
  - destruct (bucket_buckets (get_ht d j) (i + 1)) as (b & -> & Hb); [lia |]. eexists.
    split_and!; [| | | right; split_and!; [done | |]]; cbn [it_index it_safe it_fingerprint it_entry it_table it_nextEntry]; try done; [lia | intros; lia |].
    rewrite (app_assoc b), <- rest_step by (done || lia). cbn. do 2 f_equal. lia.
Qed.

(** From then on [dictNext] returns the pending entries one by one. *)
Lemma loop_spec d : dict_ok d -> forall fuel d0 it0 it, -1 <= it_index it -> (it_entry it = [] \/ 0 <= it_index it) ->
  start_iterator a0 a1 d0 it0 = (d, it) -> (to_open d it < fuel)%nat ->
  exists it', 0 <= it_index it' /\ it_safe it' = it_safe it /\ it_fingerprint it' = it_fingerprint it /\
    next_loop a0 a1 fuel d0 it0 = Some (d, it', head (pending d it)) /\ (pending d it <> [] -> pending d it' = tail (pending d it)).
Proof using DL.
  intros Hok. induction fuel as [|fuel IH]; intros d0 it0 it Hi Hen Hst Hf; [lia |]. cbn [next_loop]. rewrite Hst.
  destruct (advance_spec d it Hok Hi Hen) as ([i' j' s' c nx' fp'] & Hs & Hfp & Hi' & [[-> ->] | (-> & Hto & ->)]); cbn [it_index it_safe it_fingerprint it_entry it_table] in *.
  - eexists. split_and!; [| | | done |]; done.
  - cbn [mbind option_bind it_entry]. destruct c as [|e c].
    + specialize (Hto nx'). destruct (IH d (mk_iter i' j' s' [] nx' fp') (mk_iter i' j' s' [] nx' fp')) as (it' & ? & ? & ? & He & Hp); cbn [it_index it_entry]; auto; [lia | | lia |].
      { unfold start_iterator. cbn. zguard. done. }
      exists it'. cbn [it_index it_safe it_fingerprint it_entry it_table] in *. split_and!; congruence || done.
    + cbn. eexists. split_and!; [| | | done |]; done.
Qed.

Lemma to_open_bound d it : dict_ok d -> (to_open d it <= Z.to_nat (size (ht0 d)) + Z.to_nat (size (ht1 d)) + 1)%nat.
Proof using.
  intros Hok. pose proof (buckets_size _ (ok_ht0 _ Hok)). pose proof (buckets_size _ (ok_ht1 _ Hok)). unfold to_open. destruct (it_table it), (it_entry it); cbn [get_ht]; lia.
Qed.

Lemma dictNext_spec d it0 it : dict_ok d -> -1 <= it_index it -> (it_entry it = [] \/ 0 <= it_index it) -> start_iterator a0 a1 d it0 = (d, it) ->
  exists it', 0 <= it_index it' /\ it_safe it' = it_safe it /\ it_fingerprint it' = it_fingerprint it /\
    dictNext a0 a1 d it0 = Some (d, it', head (pending d it)) /\ (pending d it <> [] -> pending d it' = tail (pending d it)).
Proof using DL.
  intros Hok Hi He Hst. apply loop_spec; [done.. |]. pose proof (to_open_bound d it Hok). lia.
Qed.

Lemma start_running d it : 0 <= it_index it -> start_iterator a0 a1 d it = (d, it).
Proof using. intros Hi. unfold start_iterator. zguard. by destruct (it_entry it). Qed.

Lemma iterate_spec d : dict_ok d -> forall fuel it, 0 <= it_index it -> (length (pending d it) < fuel)%nat ->
  exists it', iterate a0 a1 fuel d it = Some (d, it', pending d it) /\ 0 <= it_index it' /\ it_safe it' = it_safe it /\ it_fingerprint it' = it_fingerprint it.
Proof using DL.
  intros Hok. induction fuel as [|fuel IH]; intros it Hi Hf; [lia |]. cbn [iterate].
  destruct (dictNext_spec d it it Hok) as (it1 & Hi1 & Hs1 & Hf1 & -> & Hp); [lia | by right | by apply start_running |].
  cbn [mbind option_bind]. destruct (pending d it) as [|e es]; cbn [head]; [by eauto |]. cbn in Hp, Hf. destruct (IH it1 Hi1) as (it' & -> & ? & ? & ?); [rewrite Hp by done; lia |].
  cbn [mbind option_bind]. rewrite Hp by done. exists it'. split_and!; congruence || done.
Qed.

(** A fresh iterator, safe or not. *)
Definition fresh (safe : bool) : dictIterator K V := if safe then dictGetSafeIterator else dictGetIterator.

(** The dictionary while the iterator runs. *)
Definition iterating (safe : bool) d : dict K V := if safe then set_iterators d (s32 (iterators d + 1)) else d.

Lemma iterating_ok safe d : dict_ok d -> dict_ok (iterating safe d) /\ entries (iterating safe d) = entries d.
Proof using. intros [H0 H1 Hr Hd Hc]. destruct safe; [|done]. by split. Qed.

Lemma release_spec safe d it : (safe = true -> 0 <= iterators d < 2 ^ 31 - 1) -> 0 <= it_index it -> it_safe it = safe ->
  it_fingerprint it = (if safe then 0 else dictFingerprint a0 a1 d) -> dictReleaseIterator a0 a1 (iterating safe d) it = Some d.
Proof using.
  intros Hit Hi Hs Hf. unfold dictReleaseIterator. replace (it_index it =? -1) with false by lia. cbn [andb negb]. rewrite Hs, Hf. destruct safe; cbn; [specialize (Hit eq_refl) |].
  - rewrite (swrap_small 32 ltac:(lia) (iterators d + 1)) by (simpl; lia). rewrite swrap_small by (simpl; lia). replace (iterators d + 1 - 1) with (iterators d) by lia. by destruct d.
  - by rewrite Z.eqb_refl.
Qed.

Lemma iterator_spec safe d : dict_ok d -> (safe = true -> 0 <= iterators d < 2 ^ 31 - 1) ->
  exists it, iterate a0 a1 (S (S (length (entries d)))) d (fresh safe) = Some (iterating safe d, it, entries d) /\
    dictReleaseIterator a0 a1 (iterating safe d) it = Some d.
Proof using DL.
  intros Hok Hit.
  set (it1 := mk_iter (-1) false safe [] [] (if safe then 0 else dictFingerprint a0 a1 d) : dictIterator K V).
  destruct (iterating_ok safe d Hok) as [Hok1 He1].
  assert (Hp1 : pending (iterating safe d) it1 = entries d).
  { rewrite <- He1. unfold pending, entries, it1, rest. cbn [it_index it_table it_entry in_chain get_ht app]. by rewrite (buckets_entries (ht0 _)). }
  assert (Hst : start_iterator a0 a1 d (fresh safe) = (iterating safe d, it1)) by (by destruct safe).
  set (n := S (length (entries d))). cbn [iterate]. unfold dictNext at 1. subst n.
  destruct (loop_spec _ Hok1 (Z.to_nat (size (ht0 d)) + Z.to_nat (size (ht1 d)) + 3) d (fresh safe) it1) as (it2 & Hi2 & Hs2 & Hf2 & -> & Hp2); [done | by left | done | |].
  { pose proof (to_open_bound (iterating safe d) it1 Hok1). by destruct safe; cbn in *; lia. }
  rewrite Hp1 in *. cbn [mbind option_bind].
  destruct (entries d) as [|e es]; cbn [head tail] in *; [by eauto using release_spec |].
  destruct (iterate_spec _ Hok1 (S (length (e :: es))) it2 Hi2) as (it' & -> & ? & H0 & H1); [rewrite Hp2 by done; simpl; lia |].
  cbn [mbind option_bind]. rewrite Hp2 by done. exists it'. split; [done |]. apply release_spec; [done | done | by rewrite H0 | by rewrite H1].
Qed.
(** The entries an iterator that is not safe delivers, the dictionary staying as
    it is; the release at the end succeeds. *)
Inductive delivers d : dictIterator K V -> list (dictEntry K V) -> Prop :=
  | delivers_nil it it' : dictNext a0 a1 d it = Some (d, it', None) -> dictReleaseIterator a0 a1 d it' = Some d -> delivers d it []
  | delivers_cons it it' e es : dictNext a0 a1 d it = Some (d, it', Some e) -> delivers d it' es -> delivers d it (e :: es).

Lemma delivers_pending d : dict_ok d -> forall n it0 it, length (pending d it) = n -> -1 <= it_index it -> (it_entry it = [] \/ 0 <= it_index it) ->
  start_iterator a0 a1 d it0 = (d, it) -> it_safe it = false -> it_fingerprint it = dictFingerprint a0 a1 d -> delivers d it0 (pending d it).
Proof using DL.
  intros Hok. induction n as [|n IH]; intros it0 it Hn Hi He Hst Hs Hf; destruct (dictNext_spec d it0 it Hok Hi He Hst) as (it' & Hi' & Hs' & Hf' & Hnx & Hp).
  - apply nil_length_inv in Hn. rewrite Hn in *. eapply (delivers_nil _ _ it'); [exact Hnx |].
    apply (release_spec false d it'); [done | done | congruence | by rewrite Hf', Hf].
  - destruct (pending d it) as [|e es]; [done |]. eapply delivers_cons; [exact Hnx |]. injection Hn as Hn. specialize (Hp ltac:(done)). cbn [tail] in Hp. rewrite <- Hp.
    apply (IH it' it'); [by rewrite Hp | lia | by right | by apply start_running | congruence | congruence].
Qed.

Lemma delivers_all d : dict_ok d -> delivers d dictGetIterator (entries d).
Proof using DL.
  intros Hok. set (it := mk_iter (-1) false false [] [] (dictFingerprint a0 a1 d) : dictIterator K V).
  assert (pending d it = entries d) as <-.
  { unfold pending, entries, rest, it. cbn [it_index it_table it_entry in_chain get_ht app]. by rewrite (buckets_entries (ht0 _)). }
  by eapply delivers_pending; [| | | by left | | |].
Qed.

(** C29. Iterating over a dictionary, whatever the state of its rehash, returns
    every entry exactly once: the buckets of the first table in order, then
    those of the second.  A safe iterator only counts itself in the meantime;
    releasing the iterator restores the dictionary, and the fingerprint check
    of an unsafe one passes. *)
Theorem iterator_complete safe d : dict_ok d -> (safe = true -> 0 <= iterators d < 2 ^ 31 - 1) ->
  exists it, iterate a0 a1 (S (S (length (entries d)))) d (fresh safe) = Some (iterating safe d, it, entries d) /\
    dictReleaseIterator a0 a1 (iterating safe d) it = Some d.
Proof using DL. apply iterator_spec. Qed.
End Spec.

Import DictProps.Example_dict.

Lemma iterator_complete_witness : exists it,
  iterate 0x1000 0x2000 (S (S (length (entries mid_rehash)))) mid_rehash (fresh true) = Some (iterating true mid_rehash, it, entries mid_rehash) /\
  dictReleaseIterator 0x1000 0x2000 (iterating true mid_rehash) it = Some mid_rehash /\ dictIsRehashing mid_rehash = true.
Proof.
  destruct (iterator_complete 0x1000 0x2000 true mid_rehash) as (it & H1 & H2); [apply mid_rehash_ok | by vm_compute |].
  exists it. split_and!; [exact H1 | exact H2 | by vm_compute].
Defined.

End DictIter.
