(* ===== verification/DictRandom.v ===== *)
(** * Random entries of hash tables (vr_dict.c)

    [dictGetRandomKey] and [dictGetSomeKeys].  The results of [random()] are the
    successive elements of a list; [None] where the list is too short, or where a
    bucket outside a table is read.  *)

From S2P Require Import Prelude Bytes Dict DictInv DictOps DictProps.
Import Dict DictInv DictOps DictProps.

Module DictRandom.

Section Code.
Context {K V : Type} `{DT : DictType K V}.

(** The [do ... while (he == NULL)] loops: a chain that is not empty. *)
Fixpoint random_bucket (rnd : list Z) (d : dict K V) : option (list (dictEntry K V) * list Z) :=
  match rnd with
  | [] => None
  | r :: rnd =>
      he ← (if dictIsRehashing d then
              let h := u32 (rehashidx d + r mod u64 (size (ht0 d) + size (ht1 d) - rehashidx d)) in
              if h >=? size (ht0 d) then bucket (ht1 d) (h - size (ht0 d)) else bucket (ht0 d) h
            else bucket (ht0 d) (u32 (Z.land r (sizemask (ht0 d)))));
      match he with
      | [] => random_bucket rnd d
      | _ => Some (he, rnd)
      end
  end.

(** The dictionary, the entry or NULL, and the unused random numbers. *)
Definition dictGetRandomKey (d : dict K V) (rnd : list Z) : option (dict K V * option (dictEntry K V) * list Z) :=
  if dictSize d =? 0 then Some (d, None, rnd)
  else
    d ← step_if_rehashing d;
    '(orighe, rnd) ← random_bucket rnd d;
    let listlen := s32 (zlen orighe) in
    match rnd with
    | [] => None
    | r :: rnd =>
        let listele := s32 (Z.rem r listlen) in
        he ← orighe !! Z.to_nat listele;
        Some (d, Some he, rnd)
    end.

(** The rehashing work of [dictGetSomeKeys]. *)
Fixpoint rehash_some (n : nat) (d : dict K V) : option (dict K V) :=
  match n with
  | O => Some d
  | S n => if dictIsRehashing d then d ← _dictRehashStep d; rehash_some n d else Some d
  end.

(** The chain copied to [des]; [true] when [count] entries are stored. *)
Fixpoint collect (count : Z) (he : list (dictEntry K V)) (des : list (dictEntry K V)) : list (dictEntry K V) * bool :=
  match he with
  | [] => (des, false)
  | e :: he =>
      let des := des ++ [e] in
      if zlen des =? count then (des, true) else collect count he des
  end.

(** The locals of the sampling loop. *)
Record sampling := mk_sampling {
  sm_i : Z;
  sm_emptylen : Z;
  sm_des : list (dictEntry K V);
  sm_rnd : list Z
}.

(** One round of the inner [for]: [inr] is the [return]. *)
Definition sample_table (d : dict K V) (count tables maxsizemask : Z) (j : bool) (s : sampling) : option (sampling + list (dictEntry K V)) :=
  let i := sm_i s in
  if (tables =? 2) && negb j && (i <? u64 (rehashidx d)) then
    if i >=? size (ht1 d) then Some (inl (mk_sampling (u64 (rehashidx d)) (sm_emptylen s) (sm_des s) (sm_rnd s)))
    else Some (inl s)
  else if i >=? size (get_ht d j) then Some (inl s)
  else
    he ← bucket (get_ht d j) i;
    match he with
    | [] =>
        let emptylen := u64 (sm_emptylen s + 1) in
        if (emptylen >=? 5) && (emptylen >? count) then
          match sm_rnd s with
          | [] => None
          | r :: rnd => Some (inl (mk_sampling (Z.land r maxsizemask) 0 (sm_des s) rnd))
          end
        else Some (inl (mk_sampling i emptylen (sm_des s) (sm_rnd s)))
    | _ =>
        let '(des, full) := collect count he (sm_des s) in
        if (full : bool) then Some (inr des) else Some (inl (mk_sampling i 0 des (sm_rnd s)))
    end.

Definition sample_tables (d : dict K V) (count tables maxsizemask : Z) (s : sampling) : option (sampling + list (dictEntry K V)) :=
  r ← sample_table d count tables maxsizemask false s;
  match r with
  | inl s => if tables >? 1 then sample_table d count tables maxsizemask true s else Some (inl s)
  | inr des => Some (inr des)
  end.

Fixpoint sample_loop (maxsteps : nat) (d : dict K V) (count tables maxsizemask : Z) (s : sampling) : option (list (dictEntry K V)) :=
  if zlen (sm_des s) <? count then
    match maxsteps with
    | O => Some (sm_des s)
    | S maxsteps =>
        r ← sample_tables d count tables maxsizemask s;
        match r with
        | inr des => Some des
        | inl s => sample_loop maxsteps d count tables maxsizemask (mk_sampling (Z.land (u64 (sm_i s + 1)) maxsizemask) (sm_emptylen s) (sm_des s) (sm_rnd s))
        end
    end
  else Some (sm_des s).

(** The dictionary and the entries stored into [des]. *)
Definition dictGetSomeKeys (d : dict K V) (count : Z) (rnd : list Z) : option (dict K V * list (dictEntry K V)) :=
  let count := if dictSize d <? count then u32 (dictSize d) else count in
  let maxsteps := u32 (count * 10) in
  d ← rehash_some (Z.to_nat count) d;
  let tables := if dictIsRehashing d then 2 else 1 in
  let maxsizemask := sizemask (ht0 d) in
  let maxsizemask := if (tables >? 1) && (maxsizemask <? sizemask (ht1 d)) then sizemask (ht1 d) else maxsizemask in
  match rnd with
  | [] => None
  | r :: rnd =>
      des ← sample_loop (Z.to_nat maxsteps) d count tables maxsizemask (mk_sampling (Z.land r maxsizemask) 0 [] rnd);
      Some (d, des)
  end.
End Code.

#[global] Arguments sampling : clear implicits.

(** ** A random entry *)

Section Spec.
Context {K V : Type} {DT : DictType K V} {DL : DictTypeLaws K V}.
Implicit Types (d : dict K V) (h : dictht K V) (e : dictEntry K V).

Lemma bucket_in_entries d (j : bool) idx b e : bucket (get_ht d j) idx = Some b -> e ∈ b -> e ∈ entries d.
Proof using.
  intros Hb He. unfold entries. assert (Hin : e ∈ ht_entries (get_ht d j)); [| destruct j; rewrite elem_of_app; auto].
  unfold bucket, ht_entries in *. destruct (table (get_ht d j)) as [t|]; [|done]. cbn in Hb. destruct (0 <=? idx); [|done].
  apply list_elem_of_lookup_2 in Hb. rewrite list_elem_of_In, in_concat. exists b. by rewrite <- !list_elem_of_In.
Qed.

Lemma bucket_at h idx : ht_ok h -> 0 <= idx < size h -> exists b, bucket h idx = Some b.
Proof using.
  intros [-> | [t Hl]] Hi; [cbn in Hi; lia |]. pose proof (live_len _ _ Hl). destruct (lookup_lt_is_Some_2 t (Z.to_nat idx)) as [b Hb]; [lia |].
  exists b. rewrite (bucket_live _ _ _ _ Hl). split; [lia | done].
Qed.

Lemma entry_in_bucket d e : e ∈ entries d -> exists (j : bool) idx b, bucket (get_ht d j) idx = Some b /\ e ∈ b.
Proof using.
  unfold entries. rewrite elem_of_app. intros Hin.
  assert (exists j, e ∈ ht_entries (get_ht d j)) as [j Hj] by (destruct Hin; [by exists false | by exists true]). clear Hin. exists j.
  unfold ht_entries, bucket in *. destruct (table (get_ht d j)) as [t|]; [|by apply elem_of_nil in Hj].
  rewrite list_elem_of_In, in_concat in Hj. destruct Hj as (b & Hb & He). apply list_elem_of_In in Hb, He. apply list_elem_of_lookup in Hb as [i Hi].
  exists (Z.of_nat i), b. cbn. zguard. by rewrite Nat2Z.id.
Qed.

Lemma bucket_range h idx b : ht_ok h -> bucket h idx = Some b -> 0 <= idx < size h.
Proof using.
  intros [-> | [t Hl]] Hb; [done |]. apply (bucket_live _ _ _ _ Hl) in Hb as [? Hb]. apply lookup_lt_Some in Hb. pose proof (live_len _ _ Hl). lia.
Qed.

(** A step of the rehash does not enlarge the tables. *)
Lemma rehash_chain_size (de : list (dictEntry K V)) : forall h0 h1 h0' h1', rehash_chain de h0 h1 = Some (h0', h1') -> size h0' = size h0 /\ size h1' = size h1.
Proof using.
  induction de as [|e de IH]; intros h0 h1 h0' h1'; cbn [rehash_chain]; [by intros [= <- <-] |].
  destruct (bucket h1 _) as [b|]; [|done]. cbn [mbind option_bind]. destruct (set_bucket h1 _ _) as [h2|] eqn:Hs; [|done]. cbn [mbind option_bind]. intros [-> ->]%IH.
  unfold set_bucket in Hs. destruct (table h1); [|done]. cbn in Hs. destruct (_ && _); [|done]. by injection Hs as <-.
Qed.

Lemma set_bucket_size h idx b h' : set_bucket h idx b = Some h' -> size h' = size h.
Proof using. unfold set_bucket. destruct (table h); [|done]. cbn. destruct (_ && _); [|done]. by intros [= <-]. Qed.

Definition slots d : Z := size (ht0 d) + size (ht1 d).

Lemma ok_size_nonneg h : ht_ok h -> 0 <= size h <= 2 ^ 31.
Proof using. intros [-> | [t Hl]]; [done |]. pose proof (size_pos _ _ Hl). lia. Qed.

Lemma step_slots d d' : dict_ok d -> step_if_rehashing d = Some d' -> slots d' <= slots d.
Proof using.
  intros Hok. pose proof (ok_size_nonneg _ (ok_ht0 _ Hok)). unfold step_if_rehashing, _dictRehashStep, slots. destruct (dictIsRehashing d) eqn:Hre; [|by intros [= <-]].
  destruct (iterators d =? 0); [|by intros [= <-]]. unfold dictRehash. rewrite Hre. cbn [negb rehash_loop].
  assert (Hend : forall d1 : dict K V, 0 <= size (ht0 d1) -> size (ht0 d1) + size (ht1 d1) = size (ht0 d) + size (ht1 d) ->
    ('(d, _) ← (if used (ht0 d1) =? 0 then Some (mk_dict (ht1 d1) _dictReset (-1) (iterators d1), 0) else Some (d1, 1)); Some d) = Some d' ->
    size (ht0 d') + size (ht1 d') <= size (ht0 d) + size (ht1 d)).
  { intros d1 Hp Heq. destruct (used (ht0 d1) =? 0); cbn; intros [= <-]; cbn; lia. }
  destruct (used (ht0 d) =? 0) eqn:Hu; cbn [mbind option_bind]; [intros Heq; by apply (Hend d); [lia | |] |].
  destruct (negb _); [done |]. destruct (rehash_skip _ _ _) as [[idx | [idx ev]]|]; [| |done]; cbn [mbind option_bind]; [by intros [= <-] |].
  destruct (bucket (ht0 d) idx) as [b|]; [|done]. cbn [mbind option_bind]. destruct (rehash_chain _ _ _) as [[h0 h1]|] eqn:Hc; [|done]. apply rehash_chain_size in Hc as [Hc0 Hc1].
  cbn [mbind option_bind]. destruct (set_bucket h0 idx []) as [h0'|] eqn:Hb; [|done]. apply set_bucket_size in Hb. cbn [mbind option_bind]. apply Hend; cbn; lia.
Qed.

(** ** A random entry *)

(** The bucket a random number selects. *)
Definition pick d (r : Z) : bool * Z :=
  if dictIsRehashing d then
    let h := rehashidx d + r mod (slots d - rehashidx d) in
    if h >=? size (ht0 d) then (true, h - size (ht0 d)) else (false, h)
  else (false, r mod size (ht0 d)).

Lemma sizemask_mod h t r : ht_live h t -> 0 <= r -> Z.land r (sizemask h) = r mod size h.
Proof using. intros Hl Hr. rewrite (live_mask _ _ Hl). destruct (live_size _ _ Hl) as (n & Hn & ->). rewrite <- Z.land_ones by lia. by rewrite Z.ones_equiv, Z.sub_1_r. Qed.

Lemma random_bucket_cons r rnd d : dict_ok d -> entries d <> [] -> slots d <= 2 ^ 31 -> 0 <= r ->
  exists b, bucket (get_ht d (pick d r).1) (pick d r).2 = Some b /\
    random_bucket (r :: rnd) d = match b with [] => random_bucket rnd d | _ => Some (b, rnd) end.
Proof using DL.
  intros Hok Hne Hs Hr. cbn [random_bucket]. unfold pick, slots in *. destruct (nonempty_live d Hok Hne) as [t0 H0]. pose proof (size_pos _ _ H0) as Hp0.
  destruct (dictIsRehashing d) eqn:Hre.
  - destruct (rehash_lives d Hok Hre) as (_ & t1 & _ & H1 & Hi & _). pose proof (size_pos _ _ H1) as Hp1.
    rewrite (uwrap_small 64) by lia. pose proof (Z.mod_pos_bound r (size (ht0 d) + size (ht1 d) - rehashidx d) ltac:(lia)) as Hm.
    rewrite uwrap_small by lia. set (h := rehashidx d + _) in *. destruct (Z.geb_spec h (size (ht0 d))); cbn [fst snd get_ht].
    + destruct (bucket_at (ht1 d) (h - size (ht0 d)) (ok_ht1 _ Hok)) as [b ->]; [lia |]. by exists b.
    + destruct (bucket_at (ht0 d) h (ok_ht0 _ Hok)) as [b ->]; [lia |]. by exists b.
  - rewrite (sizemask_mod _ _ _ H0 Hr). pose proof (Z.mod_pos_bound r (size (ht0 d)) ltac:(lia)) as Hm. rewrite uwrap_small by lia. cbn [fst snd get_ht].
    destruct (bucket_at (ht0 d) (r mod size (ht0 d)) (ok_ht0 _ Hok)) as [b ->]; [lia |]. by exists b.
Qed.

(** Every bucket that is not empty is selected by some random number. *)
Lemma pick_onto d (j : bool) idx b e : dict_ok d -> slots d <= 2 ^ 31 -> bucket (get_ht d j) idx = Some b -> e ∈ b ->
  exists r, 0 <= r < 2 ^ 31 /\ pick d r = (j, idx).
Proof using DL.
  intros Hok Hs Hb He. pose proof (bucket_range _ _ _ (ok_get_ht d j Hok) Hb) as Hr. pose proof (ok_size_nonneg _ (ok_ht0 _ Hok)) as Hp0.
  pose proof (ok_size_nonneg _ (ok_ht1 _ Hok)) as Hp1. unfold pick, slots in *. destruct (dictIsRehashing d) eqn:Hre.
  - destruct (rehash_lives d Hok Hre) as (t0 & t1 & H0 & H1 & Hi & Hm). pose proof (size_pos _ _ H1). destruct j; cbn [get_ht] in *.
    + exists (size (ht0 d) + idx - rehashidx d). split; [lia |]. rewrite Z.mod_small by lia. destruct (Z.geb_spec (rehashidx d + (size (ht0 d) + idx - rehashidx d)) (size (ht0 d))); [f_equal; lia | lia].
    + assert (rehashidx d <= idx).
      { destruct (Z.le_gt_cases (rehashidx d) idx); [done |]. apply (bucket_live _ _ _ _ H0) in Hb as [? Hb].
        rewrite (Hm (Z.to_nat idx) t0 (live_table _ _ H0)) in Hb by lia. injection Hb as <-. by apply elem_of_nil in He. }
      exists (idx - rehashidx d). split; [lia |]. rewrite Z.mod_small by lia. destruct (Z.geb_spec (rehashidx d + (idx - rehashidx d)) (size (ht0 d))); [lia | f_equal; lia].
  - destruct j; cbn [get_ht] in *; [by rewrite (no_rehash_ht1 d Hok Hre) in Hb |]. exists idx. split; [lia |]. by rewrite Z.mod_small by lia.
Qed.

Lemma random_bucket_sound rnd d b rnd' : random_bucket rnd d = Some (b, rnd') -> forall e, e ∈ b -> e ∈ entries d.
Proof using.
  induction rnd as [|r rnd IH]; cbn [random_bucket]; [done |]. set (he := if dictIsRehashing d then _ else _).
  assert (Hin : forall b0, he = Some b0 -> forall e, e ∈ b0 -> e ∈ entries d).
  { intros b0. subst he. destruct (dictIsRehashing d); [destruct (_ >=? _) |]; intros Hb e He; [by eapply (bucket_in_entries d true) | by eapply (bucket_in_entries d false)..]. }
  destruct he as [[|e0 b0]|]; cbn [mbind option_bind]; [done | | done]. intros [= <- <-]. by apply Hin.
Qed.

(** The entry drawn is one of the dictionary. *)
Lemma random_key_sound d rnd d' r rnd' : dict_ok d -> entries d <> [] -> dictGetRandomKey d rnd = Some (d', r, rnd') ->
  dict_ok d' /\ entries d' ≡ₚ entries d /\ exists e, r = Some e /\ e ∈ entries d.
Proof using DL.
  intros Hok Hne. destruct (step_if_rehashing_spec d Hok) as (d1 & Hd1 & Hok1 & Hp & _). unfold dictGetRandomKey.
  assert (Hsz : (dictSize d =? 0) = false).
  { unfold dictSize. rewrite (count_zero d Hok). destruct (entries d); [done |]. apply Z.eqb_neq. simpl length. lia. }
  rewrite Hsz, Hd1. cbn [mbind option_bind]. destruct (random_bucket rnd d1) as [[b rnd1]|] eqn:Hb; [|done]. cbn [mbind option_bind].
  pose proof (random_bucket_sound _ _ _ _ Hb) as Hin. destruct rnd1 as [|r1 rnd1]; [done |].
  destruct (b !! _) as [e|] eqn:He; [|done]. cbn. intros [= <- <- <-]. split_and!; [done | done |]. exists e. split; [done |].
  rewrite <- Hp. apply Hin. by eapply list_elem_of_lookup_2.
Qed.

Lemma bucket_len d (j : bool) idx b : dict_ok d -> bucket (get_ht d j) idx = Some b -> zlen b <= DICT_MAX.
Proof using.
  intros Hok Hb. pose proof (ok_count _ Hok) as Hc. unfold entries in Hc. rewrite length_app in Hc.
  assert (length b <= length (ht_entries (get_ht d j)))%nat; [| destruct j; cbn [get_ht] in *; lia].
  unfold bucket, ht_entries in *. destruct (table (get_ht d j)) as [t|]; [|done]. cbn in Hb. destruct (0 <=? idx); [|done].
  destruct (concat_split t _ _ Hb) as (rest & -> & _). rewrite length_app. lia.
Qed.

(** The random numbers let the draw end: they are results of [random()], and one
    of them, not the last, selects a bucket that is not empty (in the state the
    rehash step leaves). *)
Definition lands d (rnd : list Z) : Prop :=
  Forall (fun r => 0 <= r < 2 ^ 31) rnd /\
  exists d1 pre r more b, step_if_rehashing d = Some d1 /\ rnd = pre ++ r :: more /\ more <> [] /\
    bucket (get_ht d1 (pick d1 r).1) (pick d1 r).2 = Some b /\ b <> [].

Lemma random_bucket_lands d pre r more b : dict_ok d -> entries d <> [] -> slots d <= 2 ^ 31 -> Forall (fun r => 0 <= r < 2 ^ 31) (pre ++ r :: more) ->
  more <> [] -> bucket (get_ht d (pick d r).1) (pick d r).2 = Some b -> b <> [] ->
  exists j idx b' rnd', random_bucket (pre ++ r :: more) d = Some (b', rnd') /\ rnd' <> [] /\ Forall (fun r => 0 <= r < 2 ^ 31) rnd' /\ b' <> [] /\ bucket (get_ht d j) idx = Some b'.
Proof using DL.
  intros Hok Hne Hs. induction pre as [|r0 pre IH]; intros Hr Hm Hb Hn; cbn [app] in *; apply Forall_cons in Hr as [Hr0 Hr].
  - destruct (random_bucket_cons r more d Hok Hne Hs ltac:(lia)) as (b' & Hb' & ->). rewrite Hb in Hb'. injection Hb' as <-. exists (pick d r).1, (pick d r).2, b, more. by destruct b.
  - destruct (random_bucket_cons r0 (pre ++ r :: more) d Hok Hne Hs ltac:(lia)) as (b' & Hb' & ->). destruct b' as [|e b']; [by apply IH |].
    exists (pick d r0).1, (pick d r0).2, (e :: b'), (pre ++ r :: more). split_and!; try done. by destruct pre.
Qed.

(** Then an entry is drawn. *)
Lemma random_key_draws d rnd : dict_ok d -> entries d <> [] -> slots d <= 2 ^ 31 -> lands d rnd -> exists d' e rnd', dictGetRandomKey d rnd = Some (d', Some e, rnd').
Proof using DL.
  intros Hok Hne Hs (Hr & d1 & pre & r & more & b & Hd1 & -> & Hm & Hb & Hn). destruct (step_if_rehashing_spec d Hok) as (d1' & Hd1' & Hok1 & Hp & _).
  rewrite Hd1 in Hd1'. injection Hd1' as <-. pose proof (step_slots d d1 Hok Hd1) as Hs1. assert (Hne1 : entries d1 <> []) by (intros E; rewrite E in Hp; by apply Permutation_nil_l in Hp).
  assert (Hsz : (dictSize d =? 0) = false).
  { unfold dictSize. rewrite (count_zero d Hok). destruct (entries d); [done |]. apply Z.eqb_neq. simpl length. lia. }
  destruct (random_bucket_lands d1 pre r more b Hok1 Hne1 ltac:(lia) Hr Hm Hb Hn) as (j & idx & b' & rnd' & Hrun & Hr' & Hf & Hb' & Hin).
  unfold dictGetRandomKey. rewrite Hsz, Hd1. cbn [mbind option_bind]. rewrite Hrun. cbn [mbind option_bind]. destruct rnd' as [|r2 rnd']; [done |]. apply Forall_cons in Hf as [Hr2 _].
  pose proof (bucket_len d1 j idx b' Hok1 Hin) as Hlen. unfold DICT_MAX in Hlen. assert (0 < zlen b') by (destruct b'; [done | cbn [length]; lia]).
  rewrite (swrap_small 32 ltac:(lia) (zlen b')) by lia. rewrite Z.rem_mod_nonneg by lia. pose proof (Z.mod_pos_bound r2 (zlen b') ltac:(lia)) as Hmod. rewrite (swrap_small 32) by lia.
  destruct (lookup_lt_is_Some_2 b' (Z.to_nat (r2 mod zlen b'))) as [e He]; [lia |]. rewrite He. by exists d1, e, rnd'.
Qed.

(** C30. The random key of a dictionary that is not empty is one of its
    entries, the dictionary keeping its contents through the rehash step taken
    on the way; and every entry can be drawn: two random numbers exist that
    select it, whatever the state of the rehash (the draw is over the buckets of
    both tables from the rehash index on, with at most 2^31 buckets). *)
Theorem random_key_support d : dict_ok d -> entries d <> [] -> slots d <= 2 ^ 31 ->
  (forall rnd d' r rnd', dictGetRandomKey d rnd = Some (d', r, rnd') ->
     dict_ok d' /\ entries d' ≡ₚ entries d /\ exists e, r = Some e /\ e ∈ entries d) /\
  (forall e, e ∈ entries d -> exists r1 r2 d', 0 <= r1 < 2 ^ 31 /\ 0 <= r2 < 2 ^ 31 /\ dictGetRandomKey d [r1; r2] = Some (d', Some e, [])).
Proof using DL.
  intros Hok Hne Hs. destruct (step_if_rehashing_spec d Hok) as (d1 & Hd1 & Hok1 & Hp & _). pose proof (step_slots d d1 Hok Hd1) as Hs1.
  assert (Hne1 : entries d1 <> []) by (intros E; rewrite E in Hp; by apply Permutation_nil_l in Hp).
  assert (Hsz : (dictSize d =? 0) = false).
  { unfold dictSize. rewrite (count_zero d Hok). destruct (entries d); [done |]. apply Z.eqb_neq. simpl length. lia. }
  split; [intros rnd d' r rnd'; by apply random_key_sound |]. unfold dictGetRandomKey. rewrite Hsz, Hd1. cbn [mbind option_bind].
  intros e He. rewrite <- Hp in He. destruct (entry_in_bucket d1 e He) as (j & idx & b & Hb & Hin).
  destruct (pick_onto d1 j idx b e Hok1 ltac:(lia) Hb Hin) as (r & Hr & Hpick). apply list_elem_of_lookup in Hin as [i Hi].
  destruct (random_bucket_cons r [Z.of_nat i] d1 Hok1 Hne1 ltac:(lia) ltac:(lia)) as (b' & Hb' & Heq). rewrite Hpick in Hb'. cbn [fst snd] in Hb'. rewrite Hb in Hb'. injection Hb' as <-.
  pose proof (lookup_lt_Some _ _ _ Hi) as Hlt. pose proof (bucket_len d1 j idx b Hok1 Hb) as Hlen. unfold DICT_MAX in Hlen.
  exists r, (Z.of_nat i), d1. split_and!; [lia | lia | lia | lia |]. rewrite Heq. destruct b as [|e0 b]; [simpl in Hlt; lia |]. cbn [mbind option_bind].
  rewrite (swrap_small 32 ltac:(lia) (zlen _)) by (simpl; simpl in Hlen; lia). rewrite Z.rem_small by lia. rewrite swrap_small by (simpl; simpl in *; lia). by rewrite Nat2Z.id, Hi.
Qed.

(** ** A sample of entries *)

(** What the sampling loop keeps: fewer than [count] entries, all of the
    dictionary, and enough random numbers for [n] more jumps. *)
Record sampled d (count : Z) (n : nat) (s : sampling K V) : Prop := mk_sampled {
  sd_i : 0 <= sm_i s;
  sd_des : Forall (fun e => e ∈ entries d) (sm_des s);
  sd_len : zlen (sm_des s) < count;
  sd_rnd : Forall (fun r => 0 <= r) (sm_rnd s);
  sd_more : (n <= length (sm_rnd s))%nat
}.

Definition full_sample d (count : Z) (des : list (dictEntry K V)) : Prop := Forall (fun e => e ∈ entries d) des /\ zlen des <= count.

Lemma collect_spec d count he : Forall (fun e => e ∈ entries d) he -> forall des, Forall (fun e => e ∈ entries d) des -> zlen des < count ->
  Forall (fun e => e ∈ entries d) (collect count he des).1 /\
  (if (collect count he des).2 then zlen (collect count he des).1 = count else zlen (collect count he des).1 < count).
Proof using.
  induction 1 as [|e he He Hhe IH]; intros des Hd Hl; cbn [collect]; [done |]. assert (Hd' : Forall (fun e => e ∈ entries d) (des ++ [e])) by (apply Forall_app; auto).
  pose proof (length_app des [e]) as Hsn. simpl in Hsn. destruct (Z.eqb_spec (zlen (des ++ [e])) count); [done |]. apply IH; [done | lia].
Qed.

Lemma land_nonneg_l a b : 0 <= a -> 0 <= Z.land a b.
Proof using. intros Ha. rewrite Z.land_nonneg. by left. Qed.

Lemma sample_table_spec d count tables mask (j : bool) n s : dict_ok d -> sampled d count (S n) s ->
  exists r, sample_table d count tables mask j s = Some r /\
    match r with inl s' => sampled d count n s' | inr des => full_sample d count des end.
Proof using.
  intros Hok [Hi Hd Hl Hr Hm]. unfold sample_table. destruct s as [i em des rnd]. cbn [sm_i sm_emptylen sm_des sm_rnd] in *.
  assert (Hsame : forall i' em', 0 <= i' -> sampled d count n (mk_sampling i' em' des rnd)) by (intros; split; cbn; auto; lia).
  destruct (_ && _ && _).
  { destruct (_ >=? _); eexists; (split; [done |]); apply Hsame; [apply uwrap_range; lia | done]. }
  destruct (Z.geb_spec i (size (get_ht d j))); [eexists; split; [done |]; by apply Hsame |].
  destruct (bucket_at (get_ht d j) i (ok_get_ht d j Hok)) as [b Hb]; [lia |]. rewrite Hb. cbn [mbind option_bind]. destruct b as [|e0 b0].
  - destruct (_ && _).
    + destruct rnd as [|r rnd]; [cbn in Hm; lia |]. apply Forall_cons in Hr as [Hr0 Hr]. eexists. split; [done |]. split; cbn in *; auto; [by apply land_nonneg_l | lia].
    + eexists. split; [done |]. by apply Hsame.
  - assert (Hb' : Forall (fun e => e ∈ entries d) (e0 :: b0)) by (apply Forall_forall; intros e He; by eapply bucket_in_entries).
    destruct (collect_spec d count _ Hb' des Hd Hl) as [Hc1 Hc2]. destruct (collect count (e0 :: b0) des) as [des' []]; cbn [fst snd] in *; eexists; (split; [done |]).
    + split; [done | lia].
    + split; cbn; auto. lia.
Qed.

Lemma sample_loop_spec d count tables mask : dict_ok d -> forall maxsteps s, sampled d count (2 * maxsteps) s ->
  exists des, sample_loop maxsteps d count tables mask s = Some des /\ full_sample d count des.
Proof using.
  intros Hok. induction maxsteps as [|n IH]; intros s Hs; cbn [sample_loop]; rewrite (proj2 (Z.ltb_lt _ _) (sd_len _ _ _ _ Hs)).
  - eexists. split; [done |]. destruct Hs. split; [done | lia].
  - replace (2 * S n)%nat with (S (S (2 * n))) in Hs by lia. unfold sample_tables.
    destruct (sample_table_spec d count tables mask false _ s Hok Hs) as ([s1 | des] & -> & Hr); cbn [mbind option_bind]; [| by eauto].
    assert (Hnext : forall s2, sampled d count (2 * n) s2 -> exists des,
      sample_loop n d count tables mask (mk_sampling (Z.land (u64 (sm_i s2 + 1)) mask) (sm_emptylen s2) (sm_des s2) (sm_rnd s2)) = Some des /\ full_sample d count des).
    { intros s2 []. apply IH. split; cbn; auto. apply land_nonneg_l, uwrap_range. lia. }
    destruct (tables >? 1).
    + destruct (sample_table_spec d count tables mask true _ s1 Hok Hr) as ([s2 | des] & -> & Hr2); cbn [mbind option_bind]; [by apply Hnext | by eauto].
    + cbn [mbind option_bind]. apply Hnext. destruct Hr. split; auto. lia.
Qed.

Lemma rehash_some_spec n : forall d, dict_ok d -> exists d', rehash_some n d = Some d' /\ dict_ok d' /\ entries d' ≡ₚ entries d.
Proof using DL.
  induction n as [|n IH]; intros d Hok; cbn [rehash_some]; [by eauto |]. destruct (step_if_rehashing_spec d Hok) as (d1 & Hd1 & Hok1 & Hp & _). unfold step_if_rehashing in Hd1.
  destruct (dictIsRehashing d); [|by eauto]. rewrite Hd1. cbn [mbind option_bind]. destruct (IH d1 Hok1) as (d2 & -> & Hok2 & Hp2). exists d2. by rewrite Hp2.
Qed.

(** C31. Sampling terminates and stays inside [des]: at most [count] entries
    are stored, never more than the dictionary has, and every one is an entry of
    the dictionary, whose contents the rehash steps keep; 20 random numbers for
    each entry asked for, and one more, always suffice. *)
Theorem some_keys_bounded d count rnd : dict_ok d -> 0 <= count < 2 ^ 32 -> Forall (fun r => 0 <= r) rnd ->
  20 * Z.min count (zlen (entries d)) < zlen rnd ->
  exists d' des, dictGetSomeKeys d count rnd = Some (d', des) /\ dict_ok d' /\ entries d' ≡ₚ entries d /\
    zlen des <= Z.min count (zlen (entries d)) /\ Forall (fun e => e ∈ entries d) des.
Proof using DL.
  intros Hok Hc Hr Hlen. unfold dictGetSomeKeys. unfold dictSize. rewrite (count_zero d Hok). pose proof (ok_count _ Hok) as Hmax. unfold DICT_MAX in Hmax.
  assert (Hcount : (if zlen (entries d) <? count then u32 (zlen (entries d)) else count) = Z.min count (zlen (entries d))).
  { destruct (Z.ltb_spec (zlen (entries d)) count); [rewrite uwrap_small|]; lia. }
  rewrite Hcount. set (n := Z.min count (zlen (entries d))) in *. assert (Hn : 0 <= n) by lia. clearbody n. clear Hcount.
  destruct (rehash_some_spec (Z.to_nat n) d Hok) as (d' & -> & Hok' & Hp). cbn [mbind option_bind]. destruct rnd as [|r rnd]; [simpl in Hlen; lia |].
  apply Forall_cons in Hr as [Hr0 Hr]. assert (Hu : u32 (n * 10) <= n * 10) by (apply Z.mod_le; lia). assert (Hu0 : 0 <= u32 (n * 10)) by (apply uwrap_range; lia).
  set (tables := if dictIsRehashing d' then 2 else 1). set (mask := if (_ && _) then _ else _).
  assert (Hfull : exists des, sample_loop (Z.to_nat (u32 (n * 10))) d' n tables mask (mk_sampling (Z.land r mask) 0 [] rnd) = Some des /\ full_sample d' n des).
  { destruct (Z.eq_dec n 0) as [-> | Hn0]; [cbn; eexists; by split |]. apply sample_loop_spec; [done |]. simpl length in Hlen. split; cbn [sm_i sm_des sm_rnd length]; auto; [by apply land_nonneg_l | lia | lia]. }
  destruct Hfull as (des & -> & Hf & Hl). exists d', des. split_and!; try done. eapply Forall_impl; [exact Hf |]. intros e He. cbn in *. by rewrite <- Hp.
Qed.
End Spec.

Import DictProps.Example_dict.

Lemma random_key_support_witness : exists d' e, dictGetRandomKey mid_rehash [4; 7; 1; 3] = Some (d', Some e, [3]) /\ e ∈ entries mid_rehash.
Proof.
  destruct (random_key_support mid_rehash) as [H1 _]; [apply mid_rehash_ok | by vm_compute | by vm_compute |].
  eexists _, _. split; [vm_compute; reflexivity |].
  edestruct (H1 [4; 7; 1; 3]) as (_ & _ & e & Heq & He); [vm_compute; reflexivity |]. injection Heq as Heq. rewrite Heq. exact He.
Defined.

Lemma some_keys_bounded_witness : exists d' des, dictGetSomeKeys mid_rehash 2 (replicate 41 3) = Some (d', des) /\ zlen des <= 2.
Proof.
  destruct (some_keys_bounded mid_rehash 2 (replicate 41 3)) as (d' & des & H1 & _ & _ & H2 & _);
    [apply mid_rehash_ok | lia | by apply Forall_replicate | by vm_compute |].
  exists d', des. split; [exact H1 |]. eapply Z.le_trans; [exact H2 | apply Z.le_min_l].
Defined.

End DictRandom.
