(* ===== verification/Bitops.v ===== *)
(** * Bitmaps (vr_bitops.c): counting, searching, bit fields

    A bitmap is a byte string; bit 0 is the most significant bit of the first
    byte.  A pointer is the list of the bytes from it on, with its address
    where the code tests alignment.  Words are read little endian, as on the
    x86-64 targets of the build.  A shift by the full width is undefined in C
    and is [None] here. *)

From S2P Require Import Prelude Bytes Bits.

Module Bitops.

(** ** The code *)

Definition bitsinbyte : list Z :=
  [0; 1; 1; 2; 1; 2; 2; 3; 1; 2; 2; 3; 2; 3; 3; 4; 1; 2; 2; 3; 2; 3; 3; 4; 2; 3; 3; 4; 3; 4; 4; 5;
   1; 2; 2; 3; 2; 3; 3; 4; 2; 3; 3; 4; 3; 4; 4; 5; 2; 3; 3; 4; 3; 4; 4; 5; 3; 4; 4; 5; 4; 5; 5; 6;
   1; 2; 2; 3; 2; 3; 3; 4; 2; 3; 3; 4; 3; 4; 4; 5; 2; 3; 3; 4; 3; 4; 4; 5; 3; 4; 4; 5; 4; 5; 5; 6;
   2; 3; 3; 4; 3; 4; 4; 5; 3; 4; 4; 5; 4; 5; 5; 6; 3; 4; 4; 5; 4; 5; 5; 6; 4; 5; 5; 6; 5; 6; 6; 7;
   1; 2; 2; 3; 2; 3; 3; 4; 2; 3; 3; 4; 3; 4; 4; 5; 2; 3; 3; 4; 3; 4; 4; 5; 3; 4; 4; 5; 4; 5; 5; 6;
   2; 3; 3; 4; 3; 4; 4; 5; 3; 4; 4; 5; 4; 5; 5; 6; 3; 4; 4; 5; 4; 5; 5; 6; 4; 5; 5; 6; 5; 6; 6; 7;
   2; 3; 3; 4; 3; 4; 4; 5; 3; 4; 4; 5; 4; 5; 5; 6; 3; 4; 4; 5; 4; 5; 5; 6; 4; 5; 5; 6; 5; 6; 6; 7;
   3; 4; 4; 5; 4; 5; 5; 6; 4; 5; 5; 6; 5; 6; 6; 7; 4; 5; 5; 6; 5; 6; 6; 7; 5; 6; 6; 7; 6; 7; 7; 8].

(** The two loops that count byte by byte: while the address is not aligned to
    four bytes, and at the end. *)
Fixpoint pop_head (p : list Z) (addr count bits : Z) : option (list Z * Z * Z) :=
  if negb (Z.land addr 3 =? 0) && negb (count =? 0) then
    match p with
    | [] => None
    | b :: p => t ← bget bitsinbyte b; pop_head p (addr + 1) (count - 1) (u64 (bits + t))
    end
  else Some (p, count, bits).

Fixpoint pop_tail (p : list Z) (count bits : Z) : option Z :=
  if count =? 0 then Some bits
  else match p with
    | [] => None
    | b :: p => t ← bget bitsinbyte b; pop_tail p (count - 1) (u64 (bits + t))
    end.

(** The first two folding steps on one 32-bit word, then the third. *)
Definition pop_aux (aux : Z) : Z :=
  let aux := u32 (aux - Z.land (Z.shiftr aux 1) 0x55555555) in
  u32 (Z.land aux 0x33333333 + Z.land (Z.shiftr aux 2) 0x33333333).

Definition pop_nib (aux : Z) : Z := Z.land (u32 (aux + Z.shiftr aux 4)) 0x0F0F0F0F.

(** The seven words of a block and the multiplication that adds the bytes. *)
Definition pop_block (p : list Z) : option Z :=
  a1 ← bread p 0 4; a2 ← bread p 4 4; a3 ← bread p 8 4; a4 ← bread p 12 4;
  a5 ← bread p 16 4; a6 ← bread p 20 4; a7 ← bread p 24 4;
  let s := u32 (pop_nib (pop_aux (le_val a1)) + pop_nib (pop_aux (le_val a2)) +
                pop_nib (pop_aux (le_val a3)) + pop_nib (pop_aux (le_val a4)) +
                pop_nib (pop_aux (le_val a5)) + pop_nib (pop_aux (le_val a6)) +
                pop_nib (pop_aux (le_val a7))) in
  Some (Z.shiftr (u32 (s * 0x01010101)) 24).

Fixpoint pop_words (fuel : nat) (p : list Z) (count bits : Z) : option (list Z * Z * Z) :=
  match fuel with
  | O => None
  | S fuel =>
      if count >=? 28 then
        t ← pop_block p; pop_words fuel (drop 28 p) (count - 28) (u64 (bits + t))
      else Some (p, count, bits)
  end.

Definition redisPopcount (addr : Z) (s : list Z) (count : Z) : option Z :=
  '(p, count, bits) ← pop_head s addr count 0;
  '(p, count, bits) ← pop_words (S (Z.to_nat count)) p count bits;
  pop_tail p count bits.

(** The two skip loops of [redisBitpos]: by bytes up to an aligned address, by
    words then. *)
Fixpoint skip_bytes (c : list Z) (addr count skipval pos : Z) : option (list Z * Z * Z) :=
  if negb (Z.land addr 7 =? 0) && negb (count =? 0) then
    match c with
    | [] => None
    | b :: c' => if negb (b =? skipval) then Some (c, count, pos)
                 else skip_bytes c' (addr + 1) (count - 1) skipval (pos + 8)
    end
  else Some (c, count, pos).

Fixpoint skip_words (fuel : nat) (l : list Z) (count skipval pos : Z) : option (list Z * Z * Z) :=
  match fuel with
  | O => None
  | S fuel =>
      if count >=? 8 then
        w ← bread l 0 8;
        if negb (le_val w =? skipval) then Some (l, count, pos)
        else skip_words fuel (drop 8 l) (count - 8) skipval (pos + 64)
      else Some (l, count, pos)
  end.

(** [for (j = 0; j < sizeof( *l ); j++)]: the next word, padded with zeroes. *)
Fixpoint load_word (n : nat) (c : list Z) (count word : Z) : option Z :=
  match n with
  | O => Some word
  | S n =>
      let word := u64 (Z.shiftl word 8) in
      if negb (count =? 0) then
        match c with
        | [] => None
        | b :: c => load_word n c (count - 1) (Z.lor word b)
        end
      else load_word n c count word
  end.

(** [while (one)]; [None] for the panic after it. *)
Fixpoint scan_word (fuel : nat) (one word : Z) (bit : bool) (pos : Z) : option Z :=
  match fuel with
  | O => None
  | S fuel =>
      if one =? 0 then None
      else if Bool.eqb (negb (Z.land one word =? 0)) bit then Some pos
      else scan_word fuel (Z.shiftr one 1) word bit (pos + 1)
  end.

Definition ULONG_MAX : Z := 2 ^ 64 - 1.

Definition redisBitpos (addr : Z) (s : list Z) (count : Z) (bit : bool) : option Z :=
  '(c, count, pos) ← skip_bytes s addr count (if bit then 0 else 255) 0;
  '(l, count, pos) ← skip_words (S (Z.to_nat count)) c count (if bit then 0 else ULONG_MAX) pos;
  word ← load_word 8 l count 0;
  if bit && (word =? 0) then Some (-1)
  else scan_word 65 (lnot64 (Z.shiftr ULONG_MAX 1)) word bit pos.

(** [x << n] on a 64-bit unsigned, undefined from the width on. *)
Definition shl64 (x n : Z) : option Z :=
  if (0 <=? n) && (n <? 64) then Some (u64 (Z.shiftl x n)) else None.

(** The bit loop of [setUnsignedBitfield]; [j] counts down the bits left. *)
Fixpoint set_bits (j : nat) (p : list Z) (offset value : Z) : option (list Z) :=
  match j with
  | O => Some p
  | S j =>
      m ← shl64 1 (Z.of_nat j);
      let bitval := b2z (negb (Z.land value m =? 0)) in
      let byte := Z.shiftr offset 3 in
      let bit := 7 - Z.land offset 7 in
      byteval ← bget p byte;
      let byteval := Z.land byteval (Z.lnot (Z.shiftl 1 bit)) in
      let byteval := Z.lor byteval (Z.shiftl bitval bit) in
      p ← bset p byte (Z.land byteval 255);
      set_bits j p (u64 (offset + 1)) value
  end.

Definition setUnsignedBitfield (p : list Z) (offset bits value : Z) : option (list Z) :=
  set_bits (Z.to_nat bits) p offset value.

Definition setSignedBitfield (p : list Z) (offset bits value : Z) : option (list Z) :=
  let uv := if value >=? 0 then u64 value else u64 (ULONG_MAX + value + 1) in
  setUnsignedBitfield p offset bits uv.

Fixpoint get_bits (j : nat) (p : list Z) (offset value : Z) : option Z :=
  match j with
  | O => Some value
  | S j =>
      let byte := Z.shiftr offset 3 in
      let bit := 7 - Z.land offset 7 in
      byteval ← bget p byte;
      let bitval := Z.land (Z.shiftr byteval bit) 1 in
      get_bits j p (u64 (offset + 1)) (Z.lor (u64 (Z.shiftl value 1)) bitval)
  end.

Definition getUnsignedBitfield (p : list Z) (offset bits : Z) : option Z :=
  get_bits (Z.to_nat bits) p offset 0.

Definition getSignedBitfield (p : list Z) (offset bits : Z) : option Z :=
  value ← getUnsignedBitfield p offset bits;
  m ← shl64 1 (bits - 1);
  if negb (Z.land value m =? 0)
  then ones ← shl64 ULONG_MAX bits; Some (s64 (Z.lor value ones))
  else Some (s64 value).

Inductive owtype := BFOVERFLOW_WRAP | BFOVERFLOW_SAT | BFOVERFLOW_FAIL.

(** The status and, where it was stored, the limit.  Differences of out-of-range
    values, which the code computes before it checks, wrap. *)
Definition checkUnsignedBitfieldOverflow (value incr bits : Z) (ow : owtype) : option (Z * option Z) :=
  max ← (if bits =? 64 then Some ULONG_MAX else m ← shl64 1 bits; Some (u64 (m - 1)));
  let maxincr := s64 (max - value) in
  let minincr := s64 (- value) in
  let handle_wrap :=
    mask ← shl64 ULONG_MAX bits;
    Some (1, Some (Z.land (u64 (value + incr)) (lnot64 mask))) in
  if (value >? max) || ((incr >? 0) && (incr >? maxincr)) then
    match ow with
    | BFOVERFLOW_WRAP => handle_wrap
    | BFOVERFLOW_SAT => Some (1, Some max)
    | BFOVERFLOW_FAIL => Some (1, None)
    end
  else if (incr <? 0) && (incr <? minincr) then
    match ow with
    | BFOVERFLOW_WRAP => handle_wrap
    | BFOVERFLOW_SAT => Some (-1, Some 0)
    | BFOVERFLOW_FAIL => Some (-1, None)
    end
  else Some (0, None).

Definition checkSignedBitfieldOverflow (value incr bits : Z) (ow : owtype) : option (Z * option Z) :=
  max ← (if bits =? 64 then Some LLONG_MAX else m ← shl64 1 (bits - 1); Some (s64 (m - 1)));
  let min := - max - 1 in
  let maxincr := s64 (max - value) in
  let minincr := s64 (min - value) in
  let handle_wrap :=
    mask ← shl64 ULONG_MAX bits;
    msb ← shl64 1 (bits - 1);
    let c := u64 (u64 value + u64 incr) in
    let c := if negb (Z.land c msb =? 0) then Z.lor c mask else Z.land c (lnot64 mask) in
    Some (1, Some (s64 c)) in
  if (value >? max) || (negb (bits =? 64) && (incr >? maxincr)) ||
     ((value >=? 0) && (incr >? 0) && (incr >? maxincr)) then
    match ow with
    | BFOVERFLOW_WRAP => handle_wrap
    | BFOVERFLOW_SAT => Some (1, Some max)
    | BFOVERFLOW_FAIL => Some (1, None)
    end
  else if (value <? min) || (negb (bits =? 64) && (incr <? minincr)) ||
          ((value <? 0) && (incr <? 0) && (incr <? minincr)) then
    match ow with
    | BFOVERFLOW_WRAP => handle_wrap
    | BFOVERFLOW_SAT => Some (-1, Some min)
    | BFOVERFLOW_FAIL => Some (-1, None)
    end
  else Some (0, None).

(** ** The bits of a string *)

(** Most significant first. *)
Definition byte_bits (b : Z) : list bool := Z.testbit b <$> [7; 6; 5; 4; 3; 2; 1; 0].

Definition bits_of (s : list Z) : list bool := concat (byte_bits <$> s).

Definition ones (l : list bool) : Z := zlen (filter (eq true) l).

Fixpoint first_bit (bit : bool) (l : list bool) : option Z :=
  match l with
  | [] => None
  | b :: l => if Bool.eqb b bit then Some 0 else Z.succ <$> first_bit bit l
  end.

(** The number a bit string denotes, and the last [n] bits of a number. *)
Fixpoint bits_val (l : list bool) : Z :=
  match l with
  | [] => 0
  | b :: l => b2z b * 2 ^ zlen l + bits_val l
  end.

Fixpoint val_bits (n : nat) (v : Z) : list bool :=
  match n with
  | O => []
  | S n => Z.testbit v (Z.of_nat n) :: val_bits n v
  end.

Lemma ones_app l1 l2 : ones (l1 ++ l2) = ones l1 + ones l2.
Proof. unfold ones. rewrite filter_app, length_app. lia. Qed.

Lemma ones_bound l : 0 <= ones l <= zlen l.
Proof. unfold ones. pose proof (length_filter (eq true) l). lia. Qed.

Lemma length_bits_of s : length (bits_of s) = (8 * length s)%nat.
Proof. unfold bits_of. induction s; cbn; [done | rewrite ?length_app, IHs; cbn; lia]. Qed.

Lemma bits_of_app s1 s2 : bits_of (s1 ++ s2) = bits_of s1 ++ bits_of s2.
Proof. unfold bits_of. by rewrite fmap_app, concat_app. Qed.

Lemma bits_of_cons b s : bits_of (b :: s) = byte_bits b ++ bits_of s.
Proof. done. Qed.

(** ** Counting *)

Lemma bitsinbyte_spec b : 0 <= b < 256 -> bget bitsinbyte b = Some (ones (byte_bits b)).
Proof. apply (byte_cases (fun b => bget bitsinbyte b = Some (ones (byte_bits b)))), (bool_decide_unpack _). vm_compute. exact I. Qed.

(** The folding steps on a word are the steps on its bytes. *)
Definition pop_aux8 (b : Z) : Z :=
  let b := b - Z.land (Z.shiftr b 1) 0x55 in Z.land b 0x33 + Z.land (Z.shiftr b 2) 0x33.

Definition aux8_ok (b : Z) : Prop :=
  0 <= b - Z.land (Z.shiftr b 1) 0x55 < 256 /\ 0 <= pop_aux8 b < 256 /\
  0 <= pop_aux8 b / 16 <= 4 /\ 0 <= pop_aux8 b mod 16 <= 4 /\
  pop_aux8 b / 16 + pop_aux8 b mod 16 = ones (byte_bits b).

Lemma aux8_spec b : 0 <= b < 256 -> aux8_ok b.
Proof. apply byte_cases. unfold aux8_ok. apply (bool_decide_unpack _). vm_compute. exact I. Qed.

(** A mask repeated over [n] bytes. *)
Definition rep (n : nat) (m : Z) : Z := le_val (replicate n m).

Lemma lane_mask s m bs : 0 <= s <= 8 -> 0 <= m < 2 ^ (8 - s) -> bytes_ok bs ->
  Z.land (Z.shiftr (le_val bs) s) (rep (length bs) m) = le_val ((fun b => Z.land (Z.shiftr b s) m) <$> bs).
Proof.
  intros Hs Hm. induction 1 as [|b bs Hb Hbs IH]; cbn [length]; [by rewrite Z.land_0_r |].
  unfold rep in *. cbn [le_val replicate fmap list_fmap]. rewrite (land_shiftr_cat b (le_val bs) 8 s m) by (lia || done).
  by rewrite IH.
Qed.

Lemma le_val_add (f g : Z -> Z) bs : le_val ((fun b => f b + g b) <$> bs) = le_val (f <$> bs) + le_val (g <$> bs).
Proof. induction bs as [|b bs IH]; cbn [le_val fmap list_fmap]; [done | rewrite IH; lia]. Qed.

Lemma le_val_sub (f : Z -> Z) bs : le_val ((fun b => b - f b) <$> bs) = le_val bs - le_val (f <$> bs).
Proof. induction bs as [|b bs IH]; cbn [le_val fmap list_fmap]; [done | rewrite IH; lia]. Qed.

Lemma lanes_range (f : Z -> Z) bs : (forall b, 0 <= b < 256 -> 0 <= f b < 256) -> bytes_ok bs -> bytes_ok (f <$> bs).
Proof. intros Hf. intros Hb. apply Forall_fmap. eapply Forall_impl; [exact Hb | cbn; auto]. Qed.

Lemma lanes_u32 bs : bytes_ok bs -> length bs = 4%nat -> u32 (le_val bs) = le_val bs.
Proof. intros Hb Hl. pose proof (le_val_range bs Hb) as Hr. rewrite Hl in Hr. by apply uwrap_small. Qed.

Lemma pop_aux_lanes bs : bytes_ok bs -> length bs = 4%nat -> pop_aux (le_val bs) = le_val (pop_aux8 <$> bs).
Proof.
  intros Hb Hl. unfold pop_aux. change 0x55555555 with (rep 4 0x55). change 0x33333333 with (rep 4 0x33).
  rewrite <- Hl, (lane_mask 1) by (lia || done). rewrite <- le_val_sub.
  set (xs := (fun b => b - _) <$> bs). assert (Hx : bytes_ok xs).
  { apply lanes_range; [|done]. intros b Hb'. by destruct (aux8_spec b Hb') as [? _]. }
  assert (Hlx : length xs = length bs) by apply length_fmap. rewrite lanes_u32 by (done || lia).
  rewrite <- (Z.shiftr_0_r (le_val xs)) at 1. rewrite <- Hlx, !lane_mask by (lia || done).
  rewrite <- le_val_add. unfold xs. rewrite <- list_fmap_compose. apply lanes_u32; [|by rewrite length_fmap].
  apply lanes_range; [|done]. intros b Hb'. destruct (aux8_spec b Hb') as (_ & ? & _). done.
Qed.

(** Adding the nibbles of each byte: no carry crosses a byte. *)
Lemma pop_nib_lanes y0 y1 y2 y3 :
  Forall (fun y => 0 <= y /\ y / 16 <= 4 /\ y mod 16 <= 4) [y0; y1; y2; y3] ->
  pop_nib (le_val [y0; y1; y2; y3]) = le_val ((fun y => y / 16 + y mod 16) <$> [y0; y1; y2; y3]).
Proof.
  rewrite !Forall_cons. intros (H0 & H1 & H2 & H3 & _). unfold pop_nib. rewrite Z.shiftr_div_pow2 by lia. change (2 ^ 4) with 16.
  set (n y := y / 16 + y mod 16). set (zs := [n y0 + 16 * (y0 / 16 + y1 mod 16); n y1 + 16 * (y1 / 16 + y2 mod 16);
    n y2 + 16 * (y2 / 16 + y3 mod 16); n y3 + 16 * (y3 / 16)]).
  assert (Hsum : le_val [y0; y1; y2; y3] + le_val [y0; y1; y2; y3] / 16 = le_val zs).
  { unfold zs, n. cbn [le_val]. Z.to_euclidean_division_equations. lia. }
  rewrite Hsum. assert (Hz : bytes_ok zs) by (repeat constructor; unfold n; Z.to_euclidean_division_equations; lia).
  rewrite lanes_u32 by done. rewrite <- (Z.shiftr_0_r (le_val zs)). change 0x0F0F0F0F with (rep (length zs) 0xF).
  rewrite lane_mask by (lia || done). cbn [fmap list_fmap zs]. f_equal.
  assert (Hn : forall y k, 0 <= y /\ y / 16 <= 4 /\ y mod 16 <= 4 -> Z.land (Z.shiftr (n y + 16 * k) 0) 15 = n y).
  { intros y k Hy. rewrite Z.shiftr_0_r. change 15 with (2 ^ 4 - 1). rewrite land_mask by lia. change (2 ^ 4) with 16.
    rewrite Z.mul_comm, Z.mod_add, Z.mod_small by (unfold n; Z.to_euclidean_division_equations; lia). done. }
  by rewrite !Hn.
Qed.

(** One word: the byte counts, each at most eight. *)
Lemma pop_word_spec bs : bytes_ok bs -> length bs = 4%nat ->
  exists n0 n1 n2 n3, pop_nib (pop_aux (le_val bs)) = le_val [n0; n1; n2; n3] /\
    Forall (fun n => 0 <= n <= 8) [n0; n1; n2; n3] /\ n0 + n1 + n2 + n3 = ones (bits_of bs).
Proof.
  intros Hb Hl. rewrite pop_aux_lanes by done. destruct bs as [|b0 [|b1 [|b2 [|b3 [|]]]]]; try discriminate Hl.
  unfold bytes_ok in Hb. rewrite !Forall_cons in Hb. destruct Hb as (H0 & H1 & H2 & H3 & _).
  apply aux8_spec in H0 as (_ & ? & ? & ? & E0), H1 as (_ & ? & ? & ? & E1), H2 as (_ & ? & ? & ? & E2), H3 as (_ & ? & ? & ? & E3).
  cbn [fmap list_fmap]. rewrite pop_nib_lanes by (rewrite !Forall_cons; split_and!; auto; lia). cbn [fmap list_fmap].
  do 4 eexists. split; [reflexivity |]. split; [rewrite !Forall_cons; split_and!; auto; lia |].
  rewrite !bits_of_cons, !ones_app, E0, E1, E2, E3. change (ones (bits_of [])) with 0. lia.
Qed.

Lemma bread_ok s i n : bytes_ok s -> 0 <= i -> 0 <= n -> i + n <= zlen s ->
  exists bs, bread s i n = Some bs /\ bytes_ok bs /\ zlen bs = n /\ bs = take (Z.to_nat n) (drop (Z.to_nat i) s).
Proof.
  intros Hs Hi Hn Hl. unfold bread. repeat zguard. cbn [andb]. eexists. split; [done |].
  split; [by apply Forall_take, Forall_drop |]. split; [len | done].
Qed.

Lemma pop_block_sum ns : Forall (fun n => 0 <= n <= 56) ns -> length ns = 4%nat ->
  Z.shiftr (u32 (u32 (le_val ns) * 0x01010101)) 24 = nth 0 ns 0 + nth 1 ns 0 + nth 2 ns 0 + nth 3 ns 0.
Proof.
  intros Hn Hl. destruct ns as [|a [|b [|c [|d [|]]]]]; try discriminate Hl. rewrite !Forall_cons in Hn.
  destruct Hn as (? & ? & ? & ? & _). rewrite lanes_u32; [|repeat constructor; lia | done]. cbn [nth le_val].
  rewrite Z.shiftr_div_pow2 by lia. unfold uwrap. change (2 ^ 24) with 16777216. change (2 ^ 32) with 4294967296.
  replace ((a + 256 * (b + 256 * (c + 256 * (d + 256 * 0)))) * 16843009)
    with (a + 256 * (a + b) + 65536 * (a + b + c) + 16777216 * (a + b + c + d) + (b + c + d + 256 * (c + d) + 65536 * d) * 4294967296) by lia.
  rewrite Z.mod_add, Z.mod_small by lia. Z.to_euclidean_division_equations. lia.
Qed.

Lemma split28 (p : list Z) : take 28 p =
  take 4 (drop 0 p) ++ take 4 (drop 4 p) ++ take 4 (drop 8 p) ++ take 4 (drop 12 p) ++
  take 4 (drop 16 p) ++ take 4 (drop 20 p) ++ take 4 (drop 24 p).
Proof.
  change 28%nat with (4 + (4 + (4 + (4 + (4 + (4 + 4))))))%nat. by rewrite <- !take_take_drop, !drop_drop.
Qed.

Lemma pop_block_spec p : bytes_ok p -> 28 <= zlen p -> pop_block p = Some (ones (bits_of (take 28 p))).
Proof.
  intros Hp Hl. unfold pop_block.
  destruct (bread_ok p 0 4) as (w1 & -> & B1 & L1 & E1); [done | lia.. |]. cbn [mbind option_bind].
  destruct (bread_ok p 4 4) as (w2 & -> & B2 & L2 & E2); [done | lia.. |]. cbn [mbind option_bind].
  destruct (bread_ok p 8 4) as (w3 & -> & B3 & L3 & E3); [done | lia.. |]. cbn [mbind option_bind].
  destruct (bread_ok p 12 4) as (w4 & -> & B4 & L4 & E4); [done | lia.. |]. cbn [mbind option_bind].
  destruct (bread_ok p 16 4) as (w5 & -> & B5 & L5 & E5); [done | lia.. |]. cbn [mbind option_bind].
  destruct (bread_ok p 20 4) as (w6 & -> & B6 & L6 & E6); [done | lia.. |]. cbn [mbind option_bind].
  destruct (bread_ok p 24 4) as (w7 & -> & B7 & L7 & E7); [done | lia.. |]. cbn [mbind option_bind].
  f_equal.
  destruct (pop_word_spec w1 B1 ltac:(lia)) as (a1 & b1 & c1 & d1 & -> & F1 & S1), (pop_word_spec w2 B2 ltac:(lia)) as (a2 & b2 & c2 & d2 & -> & F2 & S2),
    (pop_word_spec w3 B3 ltac:(lia)) as (a3 & b3 & c3 & d3 & -> & F3 & S3), (pop_word_spec w4 B4 ltac:(lia)) as (a4 & b4 & c4 & d4 & -> & F4 & S4),
    (pop_word_spec w5 B5 ltac:(lia)) as (a5 & b5 & c5 & d5 & -> & F5 & S5), (pop_word_spec w6 B6 ltac:(lia)) as (a6 & b6 & c6 & d6 & -> & F6 & S6),
    (pop_word_spec w7 B7 ltac:(lia)) as (a7 & b7 & c7 & d7 & -> & F7 & S7).
  rewrite !Forall_cons in F1, F2, F3, F4, F5, F6, F7.
  set (ns := [a1 + a2 + a3 + a4 + a5 + a6 + a7; b1 + b2 + b3 + b4 + b5 + b6 + b7;
    c1 + c2 + c3 + c4 + c5 + c6 + c7; d1 + d2 + d3 + d4 + d5 + d6 + d7]).
  match goal with |- context [u32 ?x] => replace x with (le_val ns) by (unfold ns; cbn [le_val]; lia) end.
  rewrite pop_block_sum; [|unfold ns; rewrite !Forall_cons; split_and!; auto; lia | done]. unfold ns. cbn [nth].
  rewrite split28, !bits_of_app, !ones_app. change (Z.to_nat 4) with 4%nat in *. change (Z.to_nat 0) with 0%nat in *.
  change (Z.to_nat 8) with 8%nat in *. change (Z.to_nat 12) with 12%nat in *. change (Z.to_nat 16) with 16%nat in *.
  change (Z.to_nat 20) with 20%nat in *. change (Z.to_nat 24) with 24%nat in *.
  rewrite <- E1, <- E2, <- E3, <- E4, <- E5, <- E6, <- E7, <- S1, <- S2, <- S3, <- S4, <- S5, <- S6, <- S7. lia.
Qed.

Lemma ones_nil : ones (bits_of []) = 0.
Proof. done. Qed.

Lemma pop_tail_spec p : forall count bits, bytes_ok p -> 0 <= count <= zlen p -> 0 <= bits -> bits + 8 * count < 2 ^ 64 ->
  pop_tail p count bits = Some (bits + ones (bits_of (take (Z.to_nat count) p))).
Proof.
  induction p as [|b p IH]; intros count bits Hp Hc Hb Hm; cbn [length] in Hc.
  - replace count with 0 by lia. change (take (Z.to_nat 0) []) with (@nil Z); cbn [pop_tail Z.eqb]. by rewrite ones_nil, Z.add_0_r.
  - apply Forall_cons in Hp as [Hb8 Hp]. cbn [pop_tail]. zcase.
    + subst. change (take (Z.to_nat 0) (b :: p)) with (@nil Z). by rewrite ones_nil, Z.add_0_r.
    + replace (Z.to_nat count) with (S (Z.to_nat (count - 1))) by lia. cbn [take]. rewrite bits_of_cons, ones_app.
      rewrite bitsinbyte_spec by done. cbn [mbind option_bind]. pose proof (ones_bound (byte_bits b)) as Ho.
      change (zlen (byte_bits b)) with 8 in Ho. rewrite uwrap_small by lia. rewrite IH by (done || lia). f_equal. lia.
Qed.

Lemma pop_head_spec p : forall addr count bits, bytes_ok p -> 0 <= count <= zlen p -> 0 <= bits -> bits + 8 * count < 2 ^ 64 ->
  exists p' count' bits', pop_head p addr count bits = Some (p', count', bits') /\ bytes_ok p' /\
    0 <= count' <= zlen p' /\ 0 <= bits' /\ bits' + 8 * count' < 2 ^ 64 /\
    bits' + ones (bits_of (take (Z.to_nat count') p')) = bits + ones (bits_of (take (Z.to_nat count) p)).
Proof.
  induction p as [|b p IH]; intros addr count bits Hp Hc Hb Hm; cbn [length] in Hc.
  - replace count with 0 by lia. cbn [pop_head]. rewrite andb_false_r. eexists _, _, _. split; [done |]. split_and!; auto; lia.
  - cbn [pop_head]. destruct (_ && _) eqn:E; [|eexists _, _, _; split; [done |]; split_and!; auto; simpl; lia]. zbool.
    apply Forall_cons in Hp as [Hb8 Hp]. rewrite bitsinbyte_spec by done. cbn [mbind option_bind].
    pose proof (ones_bound (byte_bits b)) as Ho. change (zlen (byte_bits b)) with 8 in Ho. rewrite uwrap_small by lia.
    destruct (IH (addr + 1) (count - 1) (bits + ones (byte_bits b))) as (p' & c' & b' & -> & ? & ? & ? & ? & Heq); [done | lia.. |].
    exists p', c', b'. split_and!; try done; try lia. rewrite Heq. replace (Z.to_nat count) with (S (Z.to_nat (count - 1))) by lia.
    cbn [take]. rewrite bits_of_cons, ones_app. lia.
Qed.

Lemma pop_words_spec fuel : forall p count bits, bytes_ok p -> 0 <= count <= zlen p -> 0 <= bits -> bits + 8 * count < 2 ^ 64 ->
  count < Z.of_nat fuel ->
  exists p' count' bits', pop_words fuel p count bits = Some (p', count', bits') /\ bytes_ok p' /\
    0 <= count' <= zlen p' /\ 0 <= bits' /\ bits' + 8 * count' < 2 ^ 64 /\
    bits' + ones (bits_of (take (Z.to_nat count') p')) = bits + ones (bits_of (take (Z.to_nat count) p)).
Proof.
  induction fuel as [|fuel IH]; intros p count bits Hp Hc Hb Hm Hf; [lia |]. cbn [pop_words]. zcase.
  - rewrite pop_block_spec by (done || lia). cbn [mbind option_bind].
    pose proof (ones_bound (bits_of (take 28 p))) as Ho. rewrite length_bits_of, length_take in Ho.
    rewrite uwrap_small by lia.
    destruct (IH (drop 28 p) (count - 28) (bits + ones (bits_of (take 28 p)))) as (p' & c' & b' & -> & ? & ? & ? & ? & Heq);
      [by apply Forall_drop | len | lia.. |].
    exists p', c', b'. split_and!; try done; try lia. rewrite Heq. replace (Z.to_nat count) with (28 + Z.to_nat (count - 28))%nat by lia.
    rewrite <- take_take_drop, bits_of_app, ones_app. lia.
  - eexists _, _, _. split; [done |]. split_and!; auto; lia.
Qed.

Lemma redisPopcount_spec addr s count : bytes_ok s -> 0 <= count <= zlen s -> 8 * count < 2 ^ 64 ->
  redisPopcount addr s count = Some (ones (bits_of (take (Z.to_nat count) s))).
Proof.
  intros Hs Hc Hm. unfold redisPopcount.
  destruct (pop_head_spec s addr count 0) as (p & c & b & -> & ? & ? & ? & ? & E1); [done | lia.. |]. cbn [mbind option_bind].
  destruct (pop_words_spec (S (Z.to_nat c)) p c b) as (p' & c' & b' & -> & ? & ? & ? & ? & E2); [done | lia.. |].
  cbn [mbind option_bind]. rewrite pop_tail_spec by (done || lia). f_equal. lia.
Qed.

(** ** Searching *)

Lemma first_bit_app bit l1 l2 : first_bit bit (l1 ++ l2) =
  match first_bit bit l1 with Some i => Some i | None => Z.add (zlen l1) <$> first_bit bit l2 end.
Proof.
  induction l1 as [|b l1 IH]; cbn [first_bit app length].
  - destruct (first_bit bit l2); cbn; f_equal; lia.
  - destruct (Bool.eqb b bit); [done |]. rewrite IH. destruct (first_bit bit l1); [done |].
    destruct (first_bit bit l2); cbn; f_equal; lia.
Qed.

(** What the search of [count] bytes from [c], at bit position [pos], returns. *)
Definition search bit c count pos : Z :=
  match first_bit bit (bits_of (take (Z.to_nat count) c)) with
  | Some i => pos + i
  | None => if (bit : bool) then -1 else pos + 8 * count
  end.

Definition skip_byte (bit : bool) : Z := if bit then 0 else 255.

Lemma first_bit_skip bit (n : nat) : first_bit bit (bits_of (replicate n (skip_byte bit))) = None.
Proof. induction n as [|n IH]; cbn [replicate]; [done |]. rewrite bits_of_cons, first_bit_app, IH. by destruct bit. Qed.

(** Skipping [n] bytes of the wrong bit. *)
Lemma search_skip bit c count pos (n : nat) : Z.of_nat n <= count <= zlen c ->
  take n c = replicate n (skip_byte bit) ->
  search bit c count pos = search bit (drop n c) (count - Z.of_nat n) (pos + 8 * Z.of_nat n).
Proof.
  intros Hn Hc. unfold search. replace (Z.to_nat count) with (n + Z.to_nat (count - Z.of_nat n))%nat by lia.
  rewrite <- take_take_drop, bits_of_app, first_bit_app, Hc, first_bit_skip, length_bits_of, length_replicate.
  destruct (first_bit bit _); cbn; [lia |]. destruct bit; lia.
Qed.

Lemma skip_bytes_spec bit c : forall addr count pos, bytes_ok c -> 0 <= count <= zlen c ->
  exists c' count' pos', skip_bytes c addr count (skip_byte bit) pos = Some (c', count', pos') /\
    bytes_ok c' /\ 0 <= count' <= zlen c' /\ search bit c' count' pos' = search bit c count pos.
Proof.
  induction c as [|b c IH]; intros addr count pos Hb Hc; cbn [length] in Hc.
  - replace count with 0 by lia. cbn [skip_bytes]. rewrite andb_false_r. eexists _, _, _. split_and!; done.
  - cbn [skip_bytes]. destruct (_ && _) eqn:E; [|eexists _, _, _; split_and!; [done | done | simpl; lia.. | done]].
    zbool. destruct (Z.eqb_spec b (skip_byte bit)) as [-> |]; cbn [negb];
      [|eexists _, _, _; split_and!; [done | done | simpl; lia.. | done]].
    apply Forall_cons in Hb as [Hb8 Hb]. destruct (IH (addr + 1) (count - 1) (pos + 8) Hb) as (c' & n' & p' & -> & ? & ? & Hs); [lia |].
    exists c', n', p'. split_and!; [done | done | lia.. |]. rewrite Hs. symmetry. apply (search_skip bit (_ :: c) count pos 1); [simpl; lia | done].
Qed.

(** A word of the wrong bit. *)
Definition skip_word (bit : bool) : Z := if bit then 0 else ULONG_MAX.

Lemma skip_word_bytes bit w : bytes_ok w -> length w = 8%nat -> le_val w = skip_word bit -> w = replicate 8 (skip_byte bit).
Proof. intros Hb Hl He. rewrite <- (le_bytes_val w Hb), Hl, He. by destruct bit. Qed.

Lemma skip_words_spec bit fuel : forall l count pos, bytes_ok l -> 0 <= count <= zlen l -> count < Z.of_nat fuel ->
  exists l' count' pos', skip_words fuel l count (skip_word bit) pos = Some (l', count', pos') /\
    bytes_ok l' /\ 0 <= count' <= zlen l' /\ search bit l' count' pos' = search bit l count pos /\
    (count' < 8 \/ le_val (take 8 l') <> skip_word bit).
Proof.
  induction fuel as [|fuel IH]; intros l count pos Hb Hc Hf; [lia |]. cbn [skip_words]. zcase.
  - destruct (bread_ok l 0 8) as (w & -> & Hwb & Hwl & Hw); [done | lia.. |]. cbn [mbind option_bind].
    change (Z.to_nat 8) with 8%nat in Hw. change (Z.to_nat 0) with 0%nat in Hw. rewrite drop_0 in Hw.
    destruct (Z.eqb_spec (le_val w) (skip_word bit)) as [He|He]; cbn [negb].
    + apply skip_word_bytes in He; [|done|lia].
      destruct (IH (drop 8 l) (count - 8) (pos + 64)) as (l' & n' & p' & -> & ? & ? & Hs & ?); [by apply Forall_drop | len | lia |].
      exists l', n', p'. split_and!; try done; try lia. rewrite Hs. symmetry. apply (search_skip bit l count pos 8); [lia | congruence].
    + eexists _, _, _. split_and!; [done | done | lia.. | done |]. right. congruence.
  - eexists _, _, _. split_and!; [done | done | lia.. | done |]. by left.
Qed.

Lemma val_bits_app k n v : val_bits (k + n) v = val_bits k (v / 2 ^ Z.of_nat n) ++ val_bits n v.
Proof.
  induction k as [|k IH]; cbn [Nat.add val_bits app]; [done |]. rewrite IH. f_equal.
  rewrite Z.div_pow2_bits by lia. f_equal. lia.
Qed.

Lemma val_bits_8 w b : 0 <= b < 256 -> val_bits 8 (b + 2 ^ 8 * w) = byte_bits b.
Proof. intros Hb. cbn [val_bits]. unfold byte_bits. rewrite !testbit_cat by lia. reflexivity. Qed.

(** The padded bytes of [load_word]. *)
Definition padded (n : nat) (c : list Z) (count : Z) : list Z :=
  take n (take (Z.to_nat count) c ++ replicate n 0).

Lemma push_byte w b : 0 <= w -> 0 <= b < 256 -> Z.lor (Z.shiftl w 8) b = b + 2 ^ 8 * w.
Proof. intros. rewrite Z.shiftl_mul_pow2, lor_mod_small by lia. lia. Qed.

Lemma load_word_spec n : forall k c count word, bytes_ok c -> 0 <= count <= zlen c -> (k + 8 * n = 64)%nat ->
  0 <= word < 2 ^ Z.of_nat k ->
  exists w, load_word n c count word = Some w /\ 0 <= w < 2 ^ 64 /\ val_bits 64 w = val_bits k word ++ bits_of (padded n c count).
Proof.
  induction n as [|n IH]; intros k c count word Hb Hc Hk Hw; cbn [load_word].
  - exists word. replace k with 64%nat in * by lia. split_and!; [done | lia.. |]. by rewrite app_nil_r.
  - assert (Hp : 2 ^ Z.of_nat (k + 8) = 2 ^ 8 * 2 ^ Z.of_nat k) by (rewrite Nat2Z.inj_add, Z.pow_add_r by lia; lia).
    assert (2 ^ Z.of_nat (k + 8) <= 2 ^ 64) by (apply Z.pow_le_mono_r; lia).
    rewrite uwrap_small by (rewrite Z.shiftl_mul_pow2 by lia; lia).
    assert (Hstep : forall b c' count', 0 <= b < 256 -> bytes_ok c' -> 0 <= count' <= zlen c' ->
      padded (S n) c count = b :: padded n c' count' ->
      exists w, load_word n c' count' (Z.lor (Z.shiftl word 8) b) = Some w /\ 0 <= w < 2 ^ 64 /\
        val_bits 64 w = val_bits k word ++ bits_of (padded (S n) c count)).
    { intros b c' count' Hb' Hc' Hl Hpad. destruct (IH (k + 8)%nat c' count' (Z.lor (Z.shiftl word 8) b)) as (w & -> & Hwr & Hwv);
        [done | done | lia | rewrite push_byte by lia; lia |].
      exists w. split; [done |]. split; [done |]. rewrite Hwv, Hpad, bits_of_cons, push_byte, val_bits_app, val_bits_8, <- app_assoc by lia.
        do 2 f_equal. change (Z.of_nat 8) with 8. rewrite Z.add_comm, Z.mul_comm, Z.div_add_l, Z.div_small by lia. lia. }
    destruct (Z.eqb_spec count 0) as [-> | Hne]; cbn [negb].
    + replace (Z.shiftl word 8) with (Z.lor (Z.shiftl word 8) 0) by apply Z.lor_0_r. by apply Hstep.
    + destruct c as [|b c]; cbn [length] in Hc; [lia |]. apply Forall_cons in Hb as [Hb8 Hb].
      apply Hstep; try done; [lia |]. unfold padded. replace (Z.to_nat count) with (S (Z.to_nat (count - 1))) by lia.
      cbn [take app]. f_equal. change (replicate (S n) 0) with (0 :: replicate n 0). rewrite replicate_cons_app, app_assoc.
      rewrite take_app_le by len. done.
Qed.

Lemma land_pow2 w j : 0 <= j -> negb (Z.land (2 ^ j) w =? 0) = Z.testbit w j.
Proof.
  intros Hj. destruct (Z.testbit w j) eqn:E.
  - destruct (Z.eqb_spec (Z.land (2 ^ j) w) 0) as [H|]; [|done]. exfalso.
    assert (Z.testbit (Z.land (2 ^ j) w) j = true) as Ht by (by rewrite Z.land_spec, Z.pow2_bits_true, E by lia).
    by rewrite H, Z.bits_0 in Ht.
  - replace (Z.land (2 ^ j) w) with 0; [done |]. symmetry. apply Z.bits_inj'. intros i Hi.
    rewrite Z.land_spec, Z.bits_0, Z.pow2_bits_eqb by lia. destruct (Z.eqb_spec j i) as [-> |]; [by rewrite E | done].
Qed.

Lemma scan_word_spec bit w j : forall fuel pos, (j < fuel)%nat ->
  scan_word fuel (match j with O => 0 | S j => 2 ^ Z.of_nat j end) w bit pos = Z.add pos <$> first_bit bit (val_bits j w).
Proof.
  induction j as [|j IH]; intros fuel pos Hf; (destruct fuel as [|fuel]; [lia |]); [done |].
  cbn [scan_word val_bits first_bit]. assert (0 < 2 ^ Z.of_nat j) by (apply Z.pow_pos_nonneg; lia). zguard.
  rewrite land_pow2 by lia. destruct (Bool.eqb _ bit); [cbn; f_equal; lia |].
  replace (Z.shiftr (2 ^ Z.of_nat j) 1) with (match j with O => 0 | S j => 2 ^ Z.of_nat j end).
  - rewrite IH by lia. destruct (first_bit bit (val_bits j w)); cbn; f_equal; lia.
  - destruct j as [|j]; [done |]. rewrite Nat2Z.inj_succ, Z.pow_succ_r, Z.shiftr_div_pow2, Z.mul_comm by lia.
    change (2 ^ 1) with 2. by rewrite Z.div_mul by lia.
Qed.

Lemma first_bit_zeros (n : nat) : first_bit false (bits_of (replicate n 0)) = (match n with O => None | S _ => Some 0 end).
Proof. by destruct n. Qed.

Lemma first_bit_none_zero s : bytes_ok s -> first_bit true (bits_of s) = None -> s = replicate (length s) 0.
Proof.
  induction 1 as [|b s Hb _ IH]; cbn [length replicate]; [done |]. rewrite bits_of_cons, first_bit_app.
  destruct (first_bit true (byte_bits b)) eqn:E; [done |]. intros Hf. f_equal.
  - revert E. apply (byte_cases (fun b => first_bit true (byte_bits b) = None -> b = 0)); [|done].
    apply (bool_decide_unpack _). vm_compute. exact I.
  - apply IH. by destruct (first_bit true (bits_of s)).
Qed.

Lemma first_bit_none_ones s : bytes_ok s -> first_bit false (bits_of s) = None -> s = replicate (length s) 255.
Proof.
  induction 1 as [|b s Hb _ IH]; cbn [length replicate]; [done |]. rewrite bits_of_cons, first_bit_app.
  destruct (first_bit false (byte_bits b)) eqn:E; [done |]. intros Hf. f_equal.
  - revert E. apply (byte_cases (fun b => first_bit false (byte_bits b) = None -> b = 255)); [|done].
    apply (bool_decide_unpack _). vm_compute. exact I.
  - apply IH. by destruct (first_bit false (bits_of s)).
Qed.

(** The last word decides the search. *)
Lemma last_word bit l count pos : bytes_ok l -> 0 <= count <= zlen l ->
  count < 8 \/ le_val (take 8 l) <> skip_word bit ->
  match first_bit bit (bits_of (padded 8 l count)) with
  | Some i => search bit l count pos = pos + i
  | None => bit = true /\ search bit l count pos = -1
  end.
Proof.
  intros Hb Hc Hlast. unfold search, padded. set (n := Z.to_nat count). destruct (Z.lt_ge_cases count 8) as [Hlt|Hge].
  - rewrite firstn_app, (take_ge (take n l)), take_replicate, length_take, bits_of_app, first_bit_app by len.
    destruct (first_bit bit (bits_of (take n l))) as [i|]; [done |]. destruct bit.
    + by rewrite (first_bit_skip true).
    + rewrite first_bit_zeros, length_bits_of, length_take. replace (8 - n `min` length l)%nat with (S (7 - n)) by lia.
      rewrite !Nat.min_l by lia. cbn [fmap option_fmap option_map]. unfold n. lia.
  - destruct Hlast as [|Hne]; [lia |]. rewrite take_app_le, take_take, Nat.min_l by len.
    rewrite <- (take_drop 8 (take n l)), take_take, Nat.min_l, bits_of_app, first_bit_app by lia.
    destruct (first_bit bit (bits_of (take 8 l))) as [i|] eqn:E; [done |]. exfalso. apply Hne.
    assert (bytes_ok (take 8 l)) by (by apply Forall_take).
    destruct bit; [apply first_bit_none_zero in E | apply first_bit_none_ones in E]; try done;
      rewrite E, length_take, Nat.min_l by lia; done.
Qed.

Lemma redisBitpos_spec addr s count bit : bytes_ok s -> 0 <= count <= zlen s ->
  redisBitpos addr s count bit = Some (search bit s count 0).
Proof.
  intros Hs Hc. unfold redisBitpos. fold (skip_byte bit). fold (skip_word bit).
  destruct (skip_bytes_spec bit s addr count 0 Hs Hc) as (c & n & p & -> & Hcb & Hcn & <-). cbn [mbind option_bind].
  destruct (skip_words_spec bit (S (Z.to_nat n)) c n p Hcb Hcn) as (l & m & q & -> & Hlb & Hlm & <- & Hlast); [lia |].
  cbn [mbind option_bind]. destruct (load_word_spec 8 0 l m 0 Hlb Hlm) as (w & -> & Hw & Hv); [done | done |].
  cbn [mbind option_bind]. change (val_bits 0 0 ++ ?x) with x in Hv. pose proof (last_word bit l m q Hlb Hlm Hlast) as HL. rewrite <- Hv in HL.
  change (lnot64 (Z.shiftr ULONG_MAX 1)) with (2 ^ Z.of_nat 63).
  rewrite (scan_word_spec bit w 64 65 q) by lia. destruct (bit && (w =? 0)) eqn:E.
  - zbool. subst. by destruct HL as [_ ->].
  - destruct (first_bit bit (val_bits 64 w)) as [i|] eqn:Ef in HL |- *; [by rewrite HL |].
    destruct HL as [-> _]. exfalso. cbn [andb] in E. zbool. apply E.
    apply bits_eq; [done | lia |]. intros k Hk. rewrite Z.bits_0. clear -Ef Hk.
    assert (H : forall n, first_bit true (val_bits n w) = None -> 0 <= k < Z.of_nat n -> Z.testbit w k = false).
    { induction n as [|n IH]; cbn [val_bits first_bit]; intros Hf Hk'; [lia |].
      destruct (Z.testbit w (Z.of_nat n)) eqn:Et; [done |]. cbn [Bool.eqb] in Hf.
      destruct (decide (k = Z.of_nat n)) as [-> |]; [done |]. apply IH; [|lia]. by destruct (first_bit true (val_bits n w)). }
    by apply (H 64%nat).
Qed.

(** ** Bit fields *)

(** Byte and bit-in-byte of a bit number. *)
Lemma offset_split k : 0 <= k -> exists q r : nat,
  k = 8 * Z.of_nat q + Z.of_nat r /\ (r < 8)%nat /\ Z.shiftr k 3 = Z.of_nat q /\ 7 - Z.land k 7 = 7 - Z.of_nat r.
Proof.
  intros Hk. exists (Z.to_nat (k / 8)), (Z.to_nat (k mod 8)).
  assert (Z.land k 7 = k mod 8) as -> by apply (land_mask k 3 ltac:(lia)).
  rewrite Z.shiftr_div_pow2 by lia. change (2 ^ 3) with 8. pose proof (Z.div_mod k 8 ltac:(lia)). pose proof (Z.mod_pos_bound k 8 ltac:(lia)). pose proof (Z.div_pos k 8 Hk ltac:(lia)). lia.
Qed.

Lemma bits_of_lookup p (q r : nat) b : p !! q = Some b -> (r < 8)%nat ->
  bits_of p !! (8 * q + r)%nat = Some (Z.testbit b (7 - Z.of_nat r)).
Proof.
  intros Hq Hr. rewrite (lookup_split p q b Hq), bits_of_app, bits_of_cons. pose proof (lookup_lt_Some _ _ _ Hq).
  rewrite lookup_app_r; rewrite length_bits_of, length_take, Nat.min_l by lia; [|lia].
  replace (8 * q + r - 8 * q)%nat with r by lia. rewrite lookup_app_l by (simpl; lia).
  do 8 (destruct r as [|r]; [done |]). lia.
Qed.

Lemma get_bits_spec j : forall p offset value, bytes_ok p -> 0 <= offset -> offset + Z.of_nat j <= 8 * zlen p -> 8 * zlen p < 2 ^ 64 ->
  0 <= value -> value * 2 ^ Z.of_nat j + 2 ^ Z.of_nat j <= 2 ^ 64 ->
  get_bits j p offset value = Some (value * 2 ^ Z.of_nat j + bits_val (take j (drop (Z.to_nat offset) (bits_of p)))).
Proof.
  induction j as [|j IH]; intros p offset value Hp Ho Hl Hm Hv Hr; cbn [get_bits].
  - change (take 0 (drop (Z.to_nat offset) (bits_of p))) with (@nil bool). cbn [bits_val]. f_equal. cbn. lia.
  - destruct (offset_split offset Ho) as (q & r & Heq & Hr8 & -> & ->).
    destruct (lookup_lt_is_Some_2 p q) as [b Hb]; [lia |]. unfold bget. zguard. rewrite Nat2Z.id, Hb. cbn [mbind option_bind].
    pose proof (bits_of_lookup p q r b Hb Hr8) as Hbit. replace (8 * q + r)%nat with (Z.to_nat offset) in Hbit by lia.
    rewrite (drop_S _ _ _ Hbit). cbn [take bits_val].
    assert (length (take j (drop (S (Z.to_nat offset)) (bits_of p))) = j) as ->.
    { rewrite length_take, length_drop, length_bits_of. lia. }
    rewrite Nat2Z.inj_succ, Z.pow_succ_r in * by lia. assert (0 < 2 ^ Z.of_nat j) by (apply Z.pow_pos_nonneg; lia).
    assert (Hbv : Z.land (Z.shiftr b (7 - Z.of_nat r)) 1 = b2z (Z.testbit b (7 - Z.of_nat r))).
    { rewrite (land_mask _ 1 ltac:(lia) : Z.land _ 1 = _). change (2 ^ 1) with 2. rewrite <- Z.bit0_mod, Z.shiftr_spec by lia. done. }
    rewrite Hbv. rewrite Z.shiftl_mul_pow2 by lia. change (2 ^ 1) with 2.
    set (t := Z.testbit b _). assert (0 <= b2z t < 2) by (destruct t; cbn; lia).
    rewrite (uwrap_small 64 (offset + 1)) by lia. rewrite (uwrap_small 64 (value * 2)) by nia.
    change (value * 2) with (value * 2 ^ 1). rewrite lor_mod_small by (change (2 ^ 1) with 2; lia). change (2 ^ 1) with 2.
    rewrite IH by (done || lia || nia). replace (Z.to_nat (offset + 1)) with (S (Z.to_nat offset)) by lia. f_equal. lia.
Qed.

(** Rewriting one bit of a byte. *)
Definition put_bit (b : Z) (bit : Z) (v : bool) : Z :=
  Z.land (Z.lor (Z.land b (Z.lnot (Z.shiftl 1 bit))) (Z.shiftl (b2z v) bit)) 255.

Lemma put_bit_spec b (r : nat) v : 0 <= b < 256 -> (r < 8)%nat ->
  byte_bits (put_bit b (7 - Z.of_nat r) v) = <[r := v]> (byte_bits b) /\ 0 <= put_bit b (7 - Z.of_nat r) v < 256.
Proof.
  intros Hb Hr. revert b Hb.
  assert (H : Forall (fun b => Forall (fun r => Forall (fun v => byte_bits (put_bit b (7 - Z.of_nat r) v) = <[r := v]> (byte_bits b) /\
    0 <= put_bit b (7 - Z.of_nat r) v < 256) [true; false]) (seq 0 8)) (seqZ 0 256)).
  { apply (bool_decide_unpack _). vm_compute. exact I. }
  intros b Hb. apply (byte_cases _ b H) in Hb. rewrite Forall_forall in Hb. specialize (Hb r ltac:(apply elem_of_seq; lia)).
  rewrite !Forall_cons in Hb. destruct v; tauto.
Qed.

Lemma bits_of_insert p (q r : nat) b v : bytes_ok p -> p !! q = Some b -> (r < 8)%nat ->
  bits_of (<[q := put_bit b (7 - Z.of_nat r) v]> p) = <[(8 * q + r)%nat := v]> (bits_of p).
Proof.
  intros Hp Hq Hr. pose proof (lookup_lt_Some _ _ _ Hq). assert (Hb : 0 <= b < 256) by (by apply (Forall_lookup_1 _ _ _ _ Hp Hq)).
  rewrite insert_take_drop by done. rewrite (lookup_split p q b Hq) at 3. rewrite !bits_of_app, !bits_of_cons.
  rewrite (proj1 (put_bit_spec b r v Hb Hr)).
  assert (Hlen : length (bits_of (take q p)) = (8 * q)%nat) by (rewrite length_bits_of, length_take; lia).
  rewrite insert_app_r_alt by lia. rewrite Hlen. replace (8 * q + r - 8 * q)%nat with r by lia.
  by rewrite insert_app_l by (simpl; lia).
Qed.

Lemma length_val_bits n v : length (val_bits n v) = n.
Proof. induction n; cbn; auto. Qed.

Lemma shl64_1 j : 0 <= j < 64 -> shl64 1 j = Some (2 ^ j).
Proof.
  intros Hj. unfold shl64. repeat zguard. cbn [andb]. rewrite Z.shiftl_1_l, uwrap_small; [done |].
  split; [apply Z.pow_nonneg; lia | apply Z.pow_lt_mono_r; lia].
Qed.

(** A string whose bits from [offset] on are replaced. *)
Definition bits_replaced (p p' : list Z) (offset : Z) (l : list bool) : Prop :=
  bytes_ok p' /\ length p' = length p /\
  bits_of p' = take (Z.to_nat offset) (bits_of p) ++ l ++ drop (Z.to_nat offset + length l) (bits_of p).

Lemma set_bits_spec j : forall p offset value, bytes_ok p -> 0 <= offset -> offset + Z.of_nat j <= 8 * zlen p -> 8 * zlen p < 2 ^ 64 ->
  (j <= 64)%nat ->
  exists p', set_bits j p offset value = Some p' /\ bits_replaced p p' offset (val_bits j value).
Proof.
  induction j as [|j IH]; intros p offset value Hp Ho Hl Hm Hj; cbn [set_bits].
  - exists p. split; [done |]. split_and!; [done | done |]. cbn [val_bits length app]. by rewrite Nat.add_0_r, take_drop.
  - rewrite shl64_1 by lia. cbn [mbind option_bind]. rewrite (Z.land_comm value), land_pow2 by lia.
    set (v := Z.testbit value (Z.of_nat j)). destruct (offset_split offset Ho) as (q & r & Heq & Hr8 & -> & ->).
    destruct (lookup_lt_is_Some_2 p q) as [b Hb]; [lia |]. unfold bget. zguard. rewrite Nat2Z.id, Hb. cbn [mbind option_bind].
    fold (put_bit b (7 - Z.of_nat r) v). assert (Hb8 : 0 <= b < 256) by (by apply (Forall_lookup_1 _ _ _ _ Hp Hb)).
    destruct (put_bit_spec b r v Hb8 Hr8) as [_ Hput]. unfold bset. repeat zguard. cbn [andb mbind option_bind].
    rewrite Nat2Z.id, (uwrap_small 8) by lia. rewrite (uwrap_small 64) by lia.
    pose proof (bits_of_insert p q r b v Hp Hb Hr8) as Hins. replace (8 * q + r)%nat with (Z.to_nat offset) in Hins by lia.
    set (p1 := <[q := put_bit b (7 - Z.of_nat r) v]> p) in *. assert (length p1 = length p) by apply length_insert.
    destruct (IH p1 (offset + 1) value) as (p' & -> & Hok & Hlen & Hbits); [by apply Forall_insert | lia.. |].
    exists p'. split; [done |]. split_and!; [done | lia |]. rewrite Hbits, Hins, length_val_bits. cbn [val_bits length app].
    replace (Z.to_nat (offset + 1)) with (S (Z.to_nat offset)) by lia.
    assert (Hlt : (Z.to_nat offset < length (bits_of p))%nat) by (rewrite length_bits_of; lia).
    rewrite drop_insert_lt by lia. rewrite (take_S_r _ _ v) by (apply list_lookup_insert_eq; lia).
    rewrite take_insert_ge by lia. rewrite length_val_bits, <- app_assoc. cbn [app]. do 3 f_equal. f_equal. lia.
Qed.

Lemma bits_val_range l : 0 <= bits_val l < 2 ^ zlen l.
Proof.
  induction l as [|b l IH]; cbn [bits_val length]; [cbn; lia |]. rewrite Nat2Z.inj_succ, Z.pow_succ_r by lia.
  destruct b; cbn [b2z]; lia.
Qed.

Lemma bits_val_bits n v : bits_val (val_bits n v) = v mod 2 ^ Z.of_nat n.
Proof.
  induction n as [|n IH]; cbn [val_bits bits_val]; [by rewrite Z.mod_1_r |]. rewrite IH, length_val_bits.
  rewrite Nat2Z.inj_succ, Z.pow_succ_r, Z.mul_comm, (Z.mul_comm 2), Z.rem_mul_r by (try apply Z.pow_nonzero; lia).
  rewrite <- Z.testbit_spec' by lia. destruct (Z.testbit v (Z.of_nat n)); cbn; lia.
Qed.

(** What a field replaced reads back as. *)
Lemma bits_replaced_get p p' offset l : bits_replaced p p' offset l -> 0 <= offset -> offset + zlen l <= 8 * zlen p ->
  8 * zlen p < 2 ^ 64 -> (length l <= 64)%nat ->
  getUnsignedBitfield p' offset (zlen l) = Some (bits_val l).
Proof.
  intros (Hok & Hlen & Hb) Ho Hl Hm Hn. unfold getUnsignedBitfield. rewrite get_bits_spec; try done; try lia.
  - rewrite Hb, Nat2Z.id, drop_app_exact, take_app_length by (rewrite length_take, length_bits_of; lia). done.
  - rewrite Z.mul_0_l, Z.add_0_l. apply Z.pow_le_mono_r; lia.
Qed.

Lemma setUnsigned_spec p offset bits value : bytes_ok p -> 0 <= offset -> 0 <= bits <= 64 -> offset + bits <= 8 * zlen p ->
  8 * zlen p < 2 ^ 64 ->
  exists p', setUnsignedBitfield p offset bits value = Some p' /\ bits_replaced p p' offset (val_bits (Z.to_nat bits) value) /\
    getUnsignedBitfield p' offset bits = Some (value mod 2 ^ bits).
Proof.
  intros Hp Ho Hb Hl Hm. unfold setUnsignedBitfield.
  destruct (set_bits_spec (Z.to_nat bits) p offset value) as (p' & Hs & Hr); [done | lia.. |]. exists p'. split; [done |].
  split; [done |]. pose proof (bits_replaced_get p p' offset _ Hr) as Hg. rewrite length_val_bits, bits_val_bits, Z2Nat.id in Hg by lia.
  apply Hg; lia.
Qed.

Lemma shl64_ones b : 0 <= b < 64 -> shl64 ULONG_MAX b = Some (2 ^ 64 - 2 ^ b).
Proof.
  intros Hb. unfold shl64. repeat zguard. cbn [andb]. f_equal. rewrite Z.shiftl_mul_pow2 by lia. unfold ULONG_MAX, uwrap.
  assert (0 < 2 ^ b < 2 ^ 64) by (split; [apply Z.pow_pos_nonneg | apply Z.pow_lt_mono_r]; lia).
  replace ((2 ^ 64 - 1) * 2 ^ b) with (2 ^ 64 - 2 ^ b + (2 ^ b - 1) * 2 ^ 64) by lia.
  rewrite Z.mod_add, Z.mod_small by lia. done.
Qed.

(** Setting the bits above a field. *)
Lemma lor_high u b : 0 <= b < 64 -> 0 <= u < 2 ^ b -> Z.lor u (2 ^ 64 - 2 ^ b) = u + (2 ^ 64 - 2 ^ b).
Proof.
  intros Hb Hu. replace (2 ^ 64 - 2 ^ b) with ((2 ^ (64 - b) - 1) * 2 ^ b).
  - rewrite Z.lor_comm, lor_mod_small by lia. lia.
  - rewrite Z.mul_sub_distr_r, <- Z.pow_add_r by lia. rewrite Z.mul_1_l. do 2 f_equal. lia.
Qed.

Lemma top_bit u b : 0 <= b -> 0 <= u < 2 ^ (b + 1) -> Z.testbit u b = negb (u <? 2 ^ b).
Proof.
  intros Hb Hu. rewrite Z.pow_add_r in Hu by lia. change (2 ^ 1) with 2 in Hu.
  apply eq_true_iff_eq. rewrite Z.testbit_true, negb_true_iff, Z.ltb_ge by lia. split.
  - intros H. destruct (Z.lt_ge_cases u (2 ^ b)); [|done]. rewrite Z.div_small in H by lia. done.
  - intros H. replace (u / 2 ^ b) with 1; [done |]. apply Z.div_unique with (u - 2 ^ b); lia.
Qed.

Lemma getSigned_spec p offset bits u : 1 <= bits <= 63 -> getUnsignedBitfield p offset bits = Some u -> 0 <= u < 2 ^ bits ->
  getSignedBitfield p offset bits = Some (swrap bits u).
Proof.
  intros Hb Hg Hu. unfold getSignedBitfield. rewrite Hg. cbn [mbind option_bind]. rewrite shl64_1 by lia. cbn [mbind option_bind].
  rewrite Z.land_comm, land_pow2, (top_bit u (bits - 1)) by (replace (bits - 1 + 1) with bits by lia; lia). unfold swrap at 3.
  rewrite (uwrap_small bits) by lia. assert (2 ^ bits <= 2 ^ 63) by (apply Z.pow_le_mono_r; lia).
  destruct (Z.ltb_spec u (2 ^ (bits - 1))); cbn [negb].
  - f_equal. apply swrap_small; lia.
  - rewrite shl64_ones by lia. cbn [mbind option_bind]. rewrite lor_high by lia. f_equal. unfold swrap.
    rewrite uwrap_small by lia. zcase; lia.
Qed.

Lemma setSigned_eq p offset bits value : LLONG_MIN <= value <= LLONG_MAX ->
  setSignedBitfield p offset bits value = setUnsignedBitfield p offset bits (u64 value).
Proof.
  intros Hv. unfold setSignedBitfield, LLONG_MIN, LLONG_MAX, ULONG_MAX in *. zcase; [done |]. f_equal.
  rewrite <- (uwrap_congr 64 ltac:(lia) value 1). f_equal. lia.
Qed.

Lemma mod_swrap bits v : 1 <= bits -> swrap bits (v mod 2 ^ bits) = swrap bits v.
Proof. intros. unfold swrap. fold (uwrap bits v). by rewrite uwrap_idemp by lia. Qed.

Lemma u64_mod v bits : 0 <= bits <= 64 -> u64 v mod 2 ^ bits = v mod 2 ^ bits.
Proof. apply mod_mod_pow. Qed.

(** ** Overflow *)

Lemma pow_bounds b : 0 <= b <= 63 -> 0 < 2 ^ b <= 2 ^ 63.
Proof. intros. split; [apply Z.pow_pos_nonneg; lia | apply Z.pow_le_mono_r; lia]. Qed.

(** The wrapped value of an unsigned field. *)
Lemma wrap_unsigned x bits : 0 <= bits <= 63 -> Z.land (u64 x) (lnot64 (2 ^ 64 - 2 ^ bits)) = x mod 2 ^ bits.
Proof.
  intros Hb. pose proof (pow_bounds bits Hb). assert (lnot64 (2 ^ 64 - 2 ^ bits) = 2 ^ bits - 1) as ->.
  { unfold lnot64. rewrite <- (uwrap_congr 64 ltac:(lia) _ 1). rewrite uwrap_small; unfold Z.lnot; lia. }
  rewrite land_mask by lia. by apply u64_mod; lia.
Qed.

(** The wrapped value of a signed field. *)
Lemma wrap_signed x bits : 1 <= bits <= 63 ->
  s64 (if negb (Z.land (u64 x) (2 ^ (bits - 1)) =? 0) then Z.lor (u64 x) (2 ^ 64 - 2 ^ bits)
       else Z.land (u64 x) (lnot64 (2 ^ 64 - 2 ^ bits))) = swrap bits x.
Proof.
  intros Hb. pose proof (pow_bounds bits ltac:(lia)). pose proof (Z.mod_pos_bound x (2 ^ bits) ltac:(lia)) as Hm.
  rewrite wrap_unsigned by lia. rewrite Z.land_comm, land_pow2 by lia.
  assert (Z.testbit (u64 x) (bits - 1) = Z.testbit (x mod 2 ^ bits) (bits - 1)) as ->.
  { rewrite <- (u64_mod x bits), Z.mod_pow2_bits_low by lia. done. }
  rewrite (top_bit (x mod 2 ^ bits) (bits - 1)) by (replace (bits - 1 + 1) with bits by lia; lia).
  change (swrap bits x) with (if x mod 2 ^ bits <? 2 ^ (bits - 1) then x mod 2 ^ bits else x mod 2 ^ bits - 2 ^ bits).
  destruct (Z.ltb_spec (x mod 2 ^ bits) (2 ^ (bits - 1))); cbn [negb].
  - apply swrap_small; lia.
  - assert (Z.lor (u64 x) (2 ^ 64 - 2 ^ bits) = Z.lor (x mod 2 ^ bits) (2 ^ 64 - 2 ^ bits)) as ->.
    { replace (2 ^ 64 - 2 ^ bits) with ((2 ^ (64 - bits) - 1) * 2 ^ bits)
        by (rewrite Z.mul_sub_distr_r, <- Z.pow_add_r by lia; rewrite Z.mul_1_l; do 2 f_equal; lia).
      pose proof (uwrap_range 64 ltac:(lia) x) as Hu. apply testbit_range in Hu as [Hu _].
      apply Z.bits_inj'. intros i Hi. rewrite !Z.lor_spec, Z.mul_pow2_bits by lia.
      rewrite <- (u64_mod x bits) by lia. destruct (Z.lt_ge_cases i bits); [by rewrite Z.mod_pow2_bits_low by lia |].
      rewrite Z.mod_pow2_bits_high by lia. rewrite Z.sub_1_r, <- Z.ones_equiv.
      destruct (Z.lt_ge_cases i 64); [rewrite Z.ones_spec_low by lia; apply orb_true_r | by rewrite Hu]. }
    rewrite lor_high by lia. unfold swrap. rewrite uwrap_small by lia. zcase; lia.
Qed.

(** What the check promises, for a field with values from [min] to [max]. *)
Definition overflow_spec (min max sum : Z) (ow : owtype) (wrapped : option Z) : option (Z * option Z) :=
  if (sum >? max) || (sum <? min) then
    match ow with
    | BFOVERFLOW_WRAP => w ← wrapped; Some (1, Some w)
    | BFOVERFLOW_SAT => if sum >? max then Some (1, Some max) else Some (-1, Some min)
    | BFOVERFLOW_FAIL => if sum >? max then Some (1, None) else Some (-1, None)
    end
  else Some (0, None).

(** Splits on every comparison and every overflow type. *)
Ltac overflow_cases ow :=
  rewrite ?Z.gtb_ltb, ?Z.geb_leb;
  repeat match goal with
  | |- context [?x <? ?y] => destruct (Z.ltb_spec x y); cbn [andb orb]
  | |- context [?x <=? ?y] => destruct (Z.leb_spec x y); cbn [andb orb]
  end; try lia; by destruct ow.

(** ** Claims *)

(** [redisPopcount] returns the number of set bits of the first [count]
    bytes, whatever the alignment of the string: the byte table, the 28-byte
    parallel count and the tail loop add up. *)
Theorem redisPopcount_correct addr s count : bytes_ok s -> 0 <= count <= zlen s -> 8 * count < 2 ^ 64 ->
  redisPopcount addr s count = Some (ones (bits_of (take (Z.to_nat count) s))).
Proof. apply redisPopcount_spec. Qed.

Lemma redisPopcount_correct_witness : redisPopcount 3 (replicate 40 0xA7) 38 = Some 190.
Proof. apply (redisPopcount_correct 3 (replicate 40 0xA7) 38); [repeat constructor; lia | cbn; lia | lia]. Defined.

(** C27. [redisBitpos] returns the position of the first bit equal to [bit] in
    the first [count] bytes, for any alignment; without one it returns -1 for a
    set bit and the position just past the end for a clear one.  It never
    reaches the panic after its last loop. *)
Theorem redisBitpos_correct addr s count bit : bytes_ok s -> 0 <= count <= zlen s ->
  redisBitpos addr s count bit = Some (
    match first_bit bit (bits_of (take (Z.to_nat count) s)) with
    | Some i => i
    | None => if bit then -1 else 8 * count
    end).
Proof.
  intros Hs Hc. rewrite redisBitpos_spec by done. unfold search. by destruct (first_bit _ _), bit.
Qed.

Lemma redisBitpos_correct_witness : redisBitpos 5 [255; 255; 255; 255; 255; 255; 255; 255; 255; 255; 255; 0xF7] 12 false = Some 92.
Proof.
  apply (redisBitpos_correct 5 [255; 255; 255; 255; 255; 255; 255; 255; 255; 255; 255; 0xF7] 12 false);
    [repeat constructor; lia | cbn; lia].
Defined.

(** Writing an unsigned field and reading it back gives the value modulo
    the width, for any offset and any width up to 64; the bits before and after
    the field keep their values and the string its length. *)
Theorem unsigned_bitfield_roundtrip p offset bits value : bytes_ok p -> 0 <= offset -> 0 <= bits <= 64 ->
  offset + bits <= 8 * zlen p -> 8 * zlen p < 2 ^ 64 ->
  exists p', setUnsignedBitfield p offset bits value = Some p' /\
    getUnsignedBitfield p' offset bits = Some (value mod 2 ^ bits) /\ length p' = length p /\
    take (Z.to_nat offset) (bits_of p') = take (Z.to_nat offset) (bits_of p) /\
    drop (Z.to_nat (offset + bits)) (bits_of p') = drop (Z.to_nat (offset + bits)) (bits_of p).
Proof.
  intros Hp Ho Hb Hl Hm. destruct (setUnsigned_spec p offset bits value Hp Ho Hb Hl Hm) as (p' & Hs & (Hok & Hlen & Hbits) & Hg).
  exists p'. split_and!; try done; rewrite Hbits, length_val_bits.
  - apply take_app_exact. rewrite length_take, length_bits_of. lia.
  - rewrite app_assoc. replace (Z.to_nat (offset + bits)) with (Z.to_nat offset + Z.to_nat bits)%nat by lia.
    apply drop_app_exact. rewrite length_app, length_val_bits, length_take, length_bits_of. lia.
Qed.

Lemma unsigned_bitfield_roundtrip_witness : exists p', setUnsignedBitfield [0; 0] 7 5 23 = Some p' /\
  getUnsignedBitfield p' 7 5 = Some 23 /\ length p' = 2%nat /\
  take 7 (bits_of p') = take 7 (bits_of [0; 0]) /\ drop 12 (bits_of p') = drop 12 (bits_of [0; 0]).
Proof. apply (unsigned_bitfield_roundtrip [0; 0] 7 5 23); [repeat constructor; lia | lia | lia | cbn; lia | cbn; lia]. Defined.

(** Signed fields of up to 63 bits read back as the two's complement of the
    value written at that width; in particular every value of the width reads
    back as itself. *)
Theorem signed_bitfield_roundtrip p offset bits value : bytes_ok p -> 0 <= offset -> 1 <= bits <= 63 ->
  offset + bits <= 8 * zlen p -> 8 * zlen p < 2 ^ 64 -> LLONG_MIN <= value <= LLONG_MAX ->
  exists p', setSignedBitfield p offset bits value = Some p' /\
    getSignedBitfield p' offset bits = Some (swrap bits value) /\
    (- 2 ^ (bits - 1) <= value < 2 ^ (bits - 1) -> getSignedBitfield p' offset bits = Some value).
Proof.
  intros Hp Ho Hb Hl Hm Hv. rewrite setSigned_eq by done.
  destruct (setUnsigned_spec p offset bits (u64 value) Hp Ho ltac:(lia) Hl Hm) as (p' & Hs & _ & Hg).
  rewrite u64_mod in Hg by lia. apply getSigned_spec in Hg; [|lia | apply Z.mod_pos_bound, Z.pow_pos_nonneg; lia].
  rewrite mod_swrap in Hg by lia. exists p'. split_and!; try done. intros Hr. by rewrite Hg, swrap_small by lia.
Qed.

Lemma signed_bitfield_roundtrip_witness : exists p', setSignedBitfield [255; 255; 255] 3 10 (-5) = Some p' /\
  getSignedBitfield p' 3 10 = Some (-5) /\
  (- 2 ^ (10 - 1) <= -5 < 2 ^ (10 - 1) -> getSignedBitfield p' 3 10 = Some (-5)).
Proof.
  apply (signed_bitfield_roundtrip [255; 255; 255] 3 10 (-5));
    [repeat constructor; lia | lia | lia | cbn; lia | cbn; lia | unfold LLONG_MIN, LLONG_MAX; lia].
Defined.

(** The unsigned overflow check, on a field of up to 63 bits holding a value
    of that width: it reports exactly whether the sum leaves the range, the
    limit is the nearest bound when saturating and the sum modulo the width
    when wrapping (a wrap is reported as 1 in both directions). *)
Theorem checkUnsigned_correct value incr bits ow : 1 <= bits <= 63 -> 0 <= value < 2 ^ bits -> LLONG_MIN <= incr <= LLONG_MAX ->
  checkUnsignedBitfieldOverflow value incr bits ow =
    overflow_spec 0 (2 ^ bits - 1) (value + incr) ow (Some ((value + incr) mod 2 ^ bits)).
Proof.
  intros Hb Hv Hi. pose proof (pow_bounds bits ltac:(lia)). unfold checkUnsignedBitfieldOverflow, overflow_spec, LLONG_MIN, LLONG_MAX in *.
  zguard. rewrite shl64_1, shl64_ones by lia. cbn [mbind option_bind]. rewrite (uwrap_small 64) by lia.
  rewrite !(swrap_small 64) by lia. rewrite wrap_unsigned by lia. rewrite !Z.gtb_ltb.
  overflow_cases ow.
Qed.

Lemma checkUnsigned_correct_witness : checkUnsignedBitfieldOverflow 250 10 8 BFOVERFLOW_WRAP = Some (1, Some 4).
Proof. apply (checkUnsigned_correct 250 10 8 BFOVERFLOW_WRAP); unfold LLONG_MIN, LLONG_MAX; lia. Defined.

(** The signed overflow check, on a field of up to 64 bits holding a value
    of that width: exact reports and limits for every increment, although the
    differences it compares with may overflow; wrapping a 64-bit field is the
    one case it leaves undefined. *)
Theorem checkSigned_correct value incr bits ow : 1 <= bits <= 64 -> - 2 ^ (bits - 1) <= value < 2 ^ (bits - 1) ->
  LLONG_MIN <= incr <= LLONG_MAX ->
  checkSignedBitfieldOverflow value incr bits ow =
    overflow_spec (- 2 ^ (bits - 1)) (2 ^ (bits - 1) - 1) (value + incr) ow
      (if bits =? 64 then None else Some (swrap bits (value + incr))).
Proof.
  intros Hb Hv Hi. pose proof (pow_bounds (bits - 1) ltac:(lia)). unfold checkSignedBitfieldOverflow, overflow_spec, LLONG_MIN, LLONG_MAX in *.
  rewrite !Z.gtb_ltb, !Z.geb_leb. destruct (Z.eqb_spec bits 64) as [-> | Hne]; cbn [mbind option_bind negb andb orb].
  - change (2 ^ (64 - 1)) with (2 ^ 63) in *. change 9223372036854775807 with (2 ^ 63 - 1) in *.
    replace (- (2 ^ 63 - 1) - 1) with (- 2 ^ 63) in * by lia. change (shl64 ULONG_MAX 64) with (@None Z). cbn [mbind option_bind].
    destruct (Z.ltb_spec value 0).
    + rewrite (proj2 (Z.leb_gt 0 value)), (swrap_small 64 ltac:(lia) (- 2 ^ 63 - value)) by lia. cbn [andb orb]. overflow_cases ow.
    + rewrite (proj2 (Z.leb_le 0 value)), (swrap_small 64 ltac:(lia) (2 ^ 63 - 1 - value)) by lia. cbn [andb orb]. overflow_cases ow.
  - assert (Hp : 2 ^ bits = 2 * 2 ^ (bits - 1)) by (apply pow_half; lia). pose proof (pow_bounds bits ltac:(lia)).
    rewrite shl64_1, shl64_ones by lia. cbn [mbind option_bind]. rewrite (swrap_small 64 ltac:(lia) (2 ^ (bits - 1) - 1)) by lia.
    replace (- (2 ^ (bits - 1) - 1) - 1) with (- 2 ^ (bits - 1)) by lia. rewrite !(swrap_small 64 ltac:(lia) (_ - value)) by lia.
    assert (u64 (u64 value + u64 incr) = u64 (value + incr)) as -> by (unfold uwrap; by rewrite <- Z.add_mod by lia).
    rewrite wrap_signed by lia.
    overflow_cases ow.
Qed.

Lemma checkSigned_correct_witness : checkSignedBitfieldOverflow (-100) (-100) 8 BFOVERFLOW_SAT = Some (-1, Some (-128)).
Proof. apply (checkSigned_correct (-100) (-100) 8 BFOVERFLOW_SAT); unfold LLONG_MIN, LLONG_MAX; lia. Defined.

(** The 64-bit signed fields the type parser admits are broken: reading one
    whose top bit is set, and wrapping one that overflows, shift by the full
    width, which is undefined; and the saturating check of a stored value far
    below the range of a narrow field compares with a difference that has
    already overflowed, so that it saturates to the maximum. *)
Theorem signed_bitfield_flaws :
  (forall p offset u, getUnsignedBitfield p offset 64 = Some u -> 2 ^ 63 <= u < 2 ^ 64 -> getSignedBitfield p offset 64 = None) /\
  checkSignedBitfieldOverflow LLONG_MAX 1 64 BFOVERFLOW_WRAP = None /\
  checkSignedBitfieldOverflow LLONG_MIN 0 8 BFOVERFLOW_SAT = Some (1, Some 127).
Proof.
  split; [|done]. intros p offset u Hg Hu. unfold getSignedBitfield. rewrite Hg. cbn [mbind option_bind].
  rewrite shl64_1 by lia. cbn [mbind option_bind]. rewrite Z.land_comm, land_pow2 by lia.
  rewrite (top_bit u (64 - 1)) by (replace (64 - 1 + 1) with 64 by lia; lia). change (2 ^ (64 - 1)) with (2 ^ 63). by zguard.
Qed.

End Bitops.
