(* ===== verification/Object.v ===== *)
(** * String objects (vr_object.c)

    A string value is stored as an sds string, raw or embedded, or as an
    integer.  The file models the encoders and decoders, the conversion to
    [long long] (with the C library's [strtoll]) and the comparisons, and shows
    that the encodings are transparent: every object denotes one byte string,
    which no encoding step changes.

    The reference count is -1 in every object and the pointers of the other
    types are opaque here. *)

From S2P Require Import Prelude Bytes Bits NumConv.
Import NumConv.

Module Object.

(** ** The code *)

Inductive string_enc := OBJ_ENCODING_RAW | OBJ_ENCODING_EMBSTR.
Inductive other_type := OBJ_LIST | OBJ_SET | OBJ_ZSET | OBJ_HASH.

#[export] Instance string_enc_eq_dec : EqDecision string_enc.
Proof. solve_decision. Defined.
#[export] Instance other_type_eq_dec : EqDecision other_type.
Proof. solve_decision. Defined.

(** [robj]: a string with an sds payload, a string with encoding
    [OBJ_ENCODING_INT], or an object of another type. *)
Inductive robj :=
  | SdsObj (encoding : string_enc) (constant : bool) (ptr : list Z)
  | IntObj (constant : bool) (ptr : Z)
  | OtherObj (type : other_type) (ptr : Z).

#[export] Instance robj_eq_dec : EqDecision robj.
Proof. solve_decision. Defined.

Definition OBJ_SHARED_INTEGERS : Z := 10000.
Definition OBJ_ENCODING_EMBSTR_SIZE_LIMIT : Z := 44.

Definition createRawStringObject (s : list Z) : robj := SdsObj OBJ_ENCODING_RAW false s.
Definition createEmbeddedStringObject (s : list Z) : robj := SdsObj OBJ_ENCODING_EMBSTR false s.

Definition createStringObject (s : list Z) : robj :=
  if zlen s <=? OBJ_ENCODING_EMBSTR_SIZE_LIMIT then createEmbeddedStringObject s else createRawStringObject s.

(** The objects [createSharedObjects] prepares for small integers. *)
Definition shared_integers (v : Z) : robj := IntObj true v.

Definition createStringObjectFromLongLong (value : Z) : robj :=
  if (value >=? 0) && (value <? OBJ_SHARED_INTEGERS) then shared_integers value
  else IntObj false value.

Definition is_constant (o : robj) : bool :=
  match o with SdsObj _ c _ | IntObj c _ => c | OtherObj _ _ => false end.

(** [None] is the assertion on the type. *)
Definition dupStringObject (o : robj) : option robj :=
  match o with
  | SdsObj OBJ_ENCODING_RAW _ s => Some (createRawStringObject s)
  | SdsObj OBJ_ENCODING_EMBSTR _ s => Some (createEmbeddedStringObject s)
  | IntObj _ z => Some (IntObj false z)
  | OtherObj _ _ => None
  end.

Definition dupStringObjectUnconstant (o : robj) : option robj :=
  if is_constant o then Some o else dupStringObject o.

Definition isObjectRepresentableAsLongLong (o : robj) : option (option Z) :=
  match o with
  | IntObj _ z => Some (Some z)
  | SdsObj _ _ s => Some (string2ll s)
  | OtherObj _ _ => None
  end.

(** Trimming the free space of a long raw string does not show here. *)
Definition tryObjectEncoding (o : robj) : option robj :=
  match o with
  | OtherObj _ _ => None
  | IntObj _ _ => Some o
  | SdsObj enc constant s =>
      if constant then Some o
      else
        match (if zlen s <=? 21 then string2l s else None) with
        | Some value =>
            if (value >=? 0) && (value <? OBJ_SHARED_INTEGERS) then Some (shared_integers value)
            else Some (IntObj constant value)
        | None =>
            if zlen s <=? OBJ_ENCODING_EMBSTR_SIZE_LIMIT then
              match enc with
              | OBJ_ENCODING_EMBSTR => Some o
              | OBJ_ENCODING_RAW => Some (createEmbeddedStringObject s)
              end
            else Some o
        end
  end.

(** A C string: the bytes before the first NUL, or before the implicit one. *)
Fixpoint c_string (s : list Z) : list Z :=
  match s with
  | [] => []
  | c :: s => if c =? 0 then [] else c :: c_string s
  end.

(** An automatic buffer, its contents indeterminate. *)
Definition stack_buf (n : nat) : list Z := replicate n 0xCC.

(** [ll2string] into a stack buffer: the string written. *)
Definition ll_buf (n : nat) (z : Z) : option (list Z) :=
  '(buf, len) ← ll2string (stack_buf n) (Z.of_nat n) z; bread buf 0 len.

Definition getDecodedObject (o : robj) : option robj :=
  match o with
  | SdsObj _ _ _ => Some o
  | IntObj _ z => '(buf, _) ← ll2string (stack_buf 32) 32 z; Some (createStringObject (c_string buf))
  | OtherObj _ _ => None
  end.

Definition stringObjectLen (o : robj) : option Z :=
  match o with
  | SdsObj _ _ s => Some (zlen s)
  | IntObj _ z => sdigits10 z
  | OtherObj _ _ => None
  end.

(** [memcmp] over the common length: the difference at the first mismatch. *)
Fixpoint memcmp (a b : list Z) : Z :=
  match a, b with
  | x :: a, y :: b => if x =? y then memcmp a b else x - y
  | _, _ => 0
  end.

(** The bytes compared, from the object or from a 128-byte buffer. *)
Definition cmp_bytes (o : robj) : option (list Z) :=
  match o with
  | SdsObj _ _ s => Some s
  | IntObj _ z => ll_buf 128 z
  | OtherObj _ _ => None
  end.

(** The shortcut on equal pointers is subsumed: equal objects compare equal. *)
Definition compareStringObjects (a b : robj) : option Z :=
  astr ← cmp_bytes a;
  bstr ← cmp_bytes b;
  let minlen := Nat.min (length astr) (length bstr) in
  let cmp := memcmp (take minlen astr) (take minlen bstr) in
  if cmp =? 0 then Some (s32 (zlen astr - zlen bstr)) else Some cmp.

Definition equalStringObjects (a b : robj) : option bool :=
  match a, b with
  | IntObj _ x, IntObj _ y => Some (x =? y)
  | _, _ => c ← compareStringObjects a b; Some (c =? 0)
  end.

(** *** strtoll *)

Definition isspace (c : Z) : bool := ((9 <=? c) && (c <=? 13)) || (c =? 32).

Fixpoint skip_spaces (s : list Z) : list Z :=
  match s with
  | [] => []
  | c :: s' => if isspace c then skip_spaces s' else s
  end.

(** The value of the digits at the front and what follows them. *)
Fixpoint span_digits (s : list Z) (v : Z) : Z * list Z :=
  match s with
  | [] => (v, [])
  | c :: s' => if is_digit c then span_digits s' (v * 10 + (c - 48)) else (v, s)
  end.

(** [strtoll(s, &eptr, 10)]: the value, [eptr], and whether [errno] is
    [ERANGE].  Without a digit nothing is consumed. *)
Definition strtoll (s : list Z) : Z * list Z * bool :=
  let p := skip_spaces s in
  let '(neg, d) := match p with
    | c :: d => if c =? 45 then (true, d) else if c =? 43 then (false, d) else (false, p)
    | [] => (false, p)
    end in
  match d with
  | c :: _ =>
      if is_digit c then
        let '(v, eptr) := span_digits d 0 in
        let v := if neg then - v else v in
        if v <? LLONG_MIN then (LLONG_MIN, eptr, true)
        else if v >? LLONG_MAX then (LLONG_MAX, eptr, true)
        else (v, eptr, false)
      else (0, s, false)
  | [] => (0, s, false)
  end.

(** [Some None] is [VR_ERROR]. *)
Definition getLongLongFromObject (o : option robj) : option (option Z) :=
  match o with
  | None => Some (Some 0)
  | Some (SdsObj _ _ s) =>
      let p := c_string s in
      let '(value, eptr, erange) := strtoll p in
      let bad := match p with c :: _ => isspace c | [] => false end ||
                 match eptr with [] => false | _ => true end || erange in
      Some (if bad then None else Some value)
  | Some (IntObj _ z) => Some (Some z)
  | Some (OtherObj _ _) => None
  end.

(** ** The string an object denotes *)

Definition sval (o : robj) : option (list Z) :=
  match o with
  | SdsObj _ _ s => Some s
  | IntObj _ z => Some (dec_string z)
  | OtherObj _ _ => None
  end.

(** Sds strings of bytes, integers of 64 bits. *)
Definition robj_ok (o : robj) : Prop :=
  match o with
  | SdsObj _ _ s => bytes_ok s
  | IntObj _ z => int64 z
  | OtherObj _ _ => True
  end.

(** ** Decimal strings in buffers *)

Lemma dec_string_chars v : int64 v -> Forall (fun c => 45 <= c <= 57) (dec_string v).
Proof.
  intros Hv. destruct (uabs_digits v Hv) as ((_ & Hr & _) & _). unfold dec_string in *. destruct (Z.ltb_spec v 0).
  - constructor; [lia |]. replace (Z.abs v) with (- v) in * by lia. destruct (dval_udec _ _ Hr) as [_ Hd].
    eapply Forall_impl; [exact Hd | cbn; lia].
  - replace (Z.abs v) with v in * by lia. destruct (dval_udec _ _ Hr) as [_ Hd]. eapply Forall_impl; [exact Hd | cbn; lia].
Qed.

Lemma dec_string_bytes z : int64 z -> bytes_ok (dec_string z).
Proof. intros Hz. eapply Forall_impl; [by apply dec_string_chars | cbn; lia]. Qed.

Lemma sval_bytes o b : robj_ok o -> sval o = Some b -> bytes_ok b.
Proof. destruct o; cbn; intros Hok Hs; simplify_eq; [done | by apply dec_string_bytes]. Qed.

Lemma dec_string_length v : int64 v -> 1 <= zlen (dec_string v) <= 20.
Proof.
  intros Hv. rewrite length_dec_string. destruct (uabs_digits v Hv) as ((H1 & Hr & Hlow) & Hn & _).
  unfold int64, LLONG_MIN, LLONG_MAX in Hv. split; [case_match; lia |].
  assert (ndigits (Z.abs v) <= 19)%nat; [|case_match; lia]. destruct Hlow as [-> | Hlow]; [lia |].
  destruct (Nat.le_gt_cases (ndigits (Z.abs v)) 19) as [|Hgt]; [done |]. exfalso.
  assert (10 ^ 19 <= 10 ^ (Z.of_nat (ndigits (Z.abs v)) - 1)) by (apply Z.pow_le_mono_r; lia). lia.
Qed.

Lemma c_string_app s t : Forall (fun c => c <> 0) s -> c_string (s ++ 0 :: t) = s.
Proof. induction 1 as [|c s Hc _ IH]; cbn; [done |]. zguard. by rewrite IH. Qed.

Lemma c_string_id s : Forall (fun c => c <> 0) s -> c_string s = s.
Proof. induction 1 as [|c s Hc _ IH]; cbn; [done |]. zguard. by rewrite IH. Qed.

Lemma dec_string_nonzero v : int64 v -> Forall (fun c => c <> 0) (dec_string v).
Proof. intros Hv. eapply Forall_impl; [by apply dec_string_chars | cbn; lia]. Qed.

Lemma ll2string_stack n v : int64 v -> (21 <= n)%nat ->
  exists t, ll2string (stack_buf n) (Z.of_nat n) v = Some (dec_string v ++ 0 :: t, zlen (dec_string v)).
Proof.
  intros Hv Hn. pose proof (dec_string_length v Hv). eexists.
  rewrite ll2string_spec by (done || unfold stack_buf; rewrite ?length_replicate; lia). by zguard.
Qed.

Lemma ll_buf_spec n v : int64 v -> (21 <= n)%nat -> ll_buf n v = Some (dec_string v).
Proof.
  intros Hv Hn. unfold ll_buf. destruct (ll2string_stack n v Hv Hn) as [t ->]. cbn [mbind option_bind]. by apply bread_start.
Qed.

(** ** Encodings are transparent *)

Lemma sval_createStringObject s : sval (createStringObject s) = Some s.
Proof. unfold createStringObject. by destruct (_ <=? _). Qed.

Lemma sval_fromLongLong v : sval (createStringObjectFromLongLong v) = Some (dec_string v).
Proof. unfold createStringObjectFromLongLong. by destruct (_ && _). Qed.

Lemma dupString_spec o s : sval o = Some s -> exists o', dupStringObjectUnconstant o = Some o' /\ sval o' = Some s /\
  (robj_ok o -> robj_ok o').
Proof.
  intros Hs. unfold dupStringObjectUnconstant. destruct (is_constant o); [by eexists |].
  destruct o as [[] ? p | ? z | ]; try discriminate Hs; eexists; (split; [reflexivity |]); done.
Qed.

Lemma tryEncoding_spec o s : robj_ok o -> sval o = Some s ->
  exists o', tryObjectEncoding o = Some o' /\ sval o' = Some s /\ robj_ok o'.
Proof.
  intros Hok Hs. destruct o as [enc cst p | cst z | ]; [| by eexists | done]. injection Hs as ->. cbn [tryObjectEncoding].
  destruct cst; [by eexists |]. destruct (if zlen s <=? 21 then string2l s else None) as [v|] eqn:E.
  - destruct (zlen s <=? 21); [|done]. unfold string2l in E. destruct (string2ll s) as [w|] eqn:E2; [|done]. cbn in E.
    apply string2ll_sound in E2 as [Hw ->]. destruct (_ || _); [done |]. injection E as ->.
    destruct (_ && _); eexists; split; done.
  - destruct (zlen s <=? OBJ_ENCODING_EMBSTR_SIZE_LIMIT); [destruct enc |]; eexists; (split; [reflexivity | done]).
Qed.

Lemma getDecoded_spec o s : robj_ok o -> sval o = Some s ->
  exists o' e c, getDecodedObject o = Some o' /\ o' = SdsObj e c s.
Proof.
  intros Hok Hs. destruct o as [enc cst p | cst z | ]; [ | | done].
  - injection Hs as ->. by eexists _, _, _.
  - cbn [getDecodedObject sval robj_ok] in *. injection Hs as <-. destruct (ll2string_stack 32 z Hok ltac:(lia)) as [t Ht].
    change (Z.of_nat 32) with 32 in Ht. rewrite Ht. cbn [mbind option_bind].
    rewrite c_string_app by (by apply dec_string_nonzero). unfold createStringObject.
    destruct (_ <=? _); by eexists _, _, _.
Qed.

Lemma stringObjectLen_spec o s : robj_ok o -> sval o = Some s -> stringObjectLen o = Some (zlen s).
Proof.
  intros Hok Hs. destruct o as [enc cst p | cst z | ]; [ | | done]; injection Hs as <-; [done |].
  cbn [stringObjectLen robj_ok] in *. by apply sdigits10_spec.
Qed.

Lemma cmp_bytes_spec o s : robj_ok o -> sval o = Some s -> cmp_bytes o = Some s.
Proof.
  intros Hok Hs. destruct o as [enc cst p | cst z | ]; [ | | done]; injection Hs as <-; [done |].
  apply ll_buf_spec; [done | lia].
Qed.

(** ** Comparison *)

(** Lexicographic order on byte strings, a prefix first. *)
Fixpoint lex_compare (a b : list Z) : comparison :=
  match a, b with
  | [], [] => Eq
  | [], _ => Lt
  | _, [] => Gt
  | x :: a, y :: b => match Z.compare x y with Eq => lex_compare a b | c => c end
  end.

Lemma lex_compare_eq a b : lex_compare a b = Eq <-> a = b.
Proof.
  revert b. induction a as [|x a IH]; intros [|y b]; cbn; try done. destruct (Z.compare_spec x y) as [-> | |].
  - rewrite IH. split; [by intros -> | by intros [= ->]].
  - split; [done |]. intros [= ? _]. lia.
  - split; [done |]. intros [= ? _]. lia.
Qed.

Lemma compare_spec a b : zlen a < 2 ^ 31 -> zlen b < 2 ^ 31 ->
  let n := Nat.min (length a) (length b) in
  let cmp := memcmp (take n a) (take n b) in
  Z.compare (if cmp =? 0 then s32 (zlen a - zlen b) else cmp) 0 = lex_compare a b.
Proof.
  intros Ha Hb. cbv zeta. rewrite swrap_small by lia. clear Ha Hb.
  revert b. induction a as [|x a IH]; intros [|y b]; cbn [length Nat.min take memcmp lex_compare].
  - done.
  - rewrite Z.eqb_refl. apply Z.compare_lt_iff. lia.
  - rewrite Z.eqb_refl. apply Z.compare_gt_iff. lia.
  - destruct (Z.compare_spec x y) as [-> | |].
    + rewrite Z.eqb_refl. replace (Z.of_nat (S (length a)) - Z.of_nat (S (length b))) with (zlen a - zlen b) by lia. apply IH.
    + do 2 zguard. apply Z.compare_lt_iff. lia.
    + do 2 zguard. apply Z.compare_gt_iff. lia.
Qed.

(** ** Conversion to integers *)

Lemma span_digits_spec d : forall v, all_digits d -> span_digits d v = (dfold d v, []).
Proof.
  induction d as [|c d IH]; intros v Hd; [done |]. apply Forall_cons in Hd as [Hc Hd]. cbn [span_digits].
  unfold is_digit. repeat zguard. cbn [andb]. by rewrite IH.
Qed.

Lemma strtoll_canonical v : int64 v -> strtoll (dec_string v) = (v, [], false).
Proof.
  intros Hv. destruct (uabs_digits v Hv) as ((H1 & Hr & _) & _). unfold int64 in Hv. unfold strtoll, dec_string in *.
  destruct (dval_udec _ _ Hr) as [Hval Hdig]. assert (Hlen : (0 < length (udec (ndigits (Z.abs v)) (Z.abs v)))%nat) by (rewrite length_udec; lia).
  destruct (udec (ndigits (Z.abs v)) (Z.abs v)) as [|c d] eqn:E; [simpl in Hlen; lia |].
  pose proof Hdig as Hdig'. apply Forall_cons in Hdig' as [Hc _].
  assert (Hd : is_digit c = true) by (unfold is_digit; repeat zguard; done).
  assert (Hsp : isspace c = false) by (unfold isspace; repeat zguard; done).
  destruct (Z.ltb_spec v 0).
  - replace (- v) with (Z.abs v) by lia. rewrite E. cbn [skip_spaces]. change (isspace 45) with false. cbn iota. rewrite Z.eqb_refl, Hd.
    rewrite span_digits_spec by done. change (dfold (c :: d) 0) with (dval (c :: d)). rewrite Hval. replace (- Z.abs v) with v by lia.
    rewrite Z.gtb_ltb. by repeat zguard.
  - rewrite Z.abs_eq in * by lia. rewrite E. cbn [skip_spaces]. rewrite Hsp. repeat zguard. rewrite Hd.
    rewrite span_digits_spec by done. change (dfold (c :: d) 0) with (dval (c :: d)). rewrite Hval.
    rewrite Z.gtb_ltb. by repeat zguard.
Qed.

Lemma dec_string_head v c d : int64 v -> dec_string v = c :: d -> isspace c = false.
Proof.
  intros Hv E. pose proof (dec_string_chars v Hv) as Hc. rewrite E in Hc. apply Forall_cons in Hc as [Hc _].
  unfold isspace. by repeat zguard.
Qed.

Lemma getLongLong_spec o v : robj_ok o -> int64 v -> sval o = Some (dec_string v) -> getLongLongFromObject (Some o) = Some (Some v).
Proof.
  intros Hok Hv Hs. destruct o as [e c p | c z | ]; [| |done]; cbn [getLongLongFromObject sval] in *.
  - injection Hs as ->. rewrite c_string_id by (by apply dec_string_nonzero). rewrite strtoll_canonical by done.
    destruct (dec_string v) as [|x d] eqn:E; [done |]. by rewrite (dec_string_head v x d).
  - assert (z = v) as ->; [|done]. pose proof (string2ll_complete v Hv) as H1. injection Hs as Hs. rewrite <- Hs in H1.
    rewrite (string2ll_complete z Hok) in H1. congruence.
Qed.

Lemma dec_string_inj u v : int64 u -> int64 v -> dec_string u = dec_string v -> u = v.
Proof.
  intros Hu Hv E. pose proof (string2ll_complete u Hu) as H1. rewrite E, (string2ll_complete v Hv) in H1. congruence.
Qed.

(** ** Claims *)

(** C32. Encoding is transparent: from any byte string, the encoder picks the
    integer representation exactly for the canonical notations of the 64-bit
    integers, and the object it returns denotes the same string, has its length,
    decodes to it and duplicates to an object denoting it. *)
Theorem object_encoding_transparent s : bytes_ok s ->
  exists o, tryObjectEncoding (createStringObject s) = Some o /\ sval o = Some s /\
    stringObjectLen o = Some (zlen s) /\
    (exists o' e c, getDecodedObject o = Some o' /\ o' = SdsObj e c s) /\
    (exists o', dupStringObjectUnconstant o = Some o' /\ sval o' = Some s) /\
    ((exists c z, o = IntObj c z) <-> exists v, int64 v /\ s = dec_string v).
Proof.
  intros Hs. assert (Hok : robj_ok (createStringObject s)) by (unfold createStringObject; by destruct (_ <=? _)).
  destruct (tryEncoding_spec _ s Hok (sval_createStringObject s)) as (o & Ho & Hsv & Hok'). exists o.
  split; [done |]. split; [done |]. split; [by apply stringObjectLen_spec |]. split; [by apply getDecoded_spec |].
  split; [destruct (dupString_spec o s Hsv) as (o' & ? & ? & _); eauto |]. split.
  - intros (c & z & ->). exists z. cbn in Hsv. simplify_eq. done.
  - intros (v & Hv & ->). unfold createStringObject in Ho. pose proof (dec_string_length v Hv).
    unfold OBJ_ENCODING_EMBSTR_SIZE_LIMIT in Ho. rewrite (proj2 (Z.leb_le _ 44)) in Ho by lia. cbn [tryObjectEncoding createEmbeddedStringObject] in Ho.
    rewrite (proj2 (Z.leb_le _ 21)) in Ho by lia. unfold string2l in Ho. rewrite string2ll_complete in Ho by done. cbn [mbind option_bind] in Ho.
    unfold int64 in Hv. assert ((v <? LLONG_MIN) || (v >? LLONG_MAX) = false) as Hr by (rewrite Z.gtb_ltb; by repeat zguard).
    rewrite Hr in Ho. destruct (_ && _); injection Ho as <-; eauto.
Qed.

Lemma object_encoding_transparent_witness : exists o, tryObjectEncoding (createStringObject [45; 49; 50]) = Some o /\
  sval o = Some [45; 49; 50] /\ stringObjectLen o = Some 3 /\
  (exists o' e c, getDecodedObject o = Some o' /\ o' = SdsObj e c [45; 49; 50]) /\
  (exists o', dupStringObjectUnconstant o = Some o' /\ sval o' = Some [45; 49; 50]) /\
  ((exists c z, o = IntObj c z) <-> exists v, int64 v /\ [45; 49; 50] = dec_string v).
Proof. apply (object_encoding_transparent [45; 49; 50]). repeat constructor; lia. Defined.

(** Comparison looks through the encodings: [compareStringObjects] has the
    sign of the lexicographic order of the strings denoted, and
    [equalStringObjects] answers exactly whether they are the same string,
    including its shortcut on two integers. *)
Theorem object_compare_correct a b s t : robj_ok a -> robj_ok b -> sval a = Some s -> sval b = Some t ->
  zlen s < 2 ^ 31 -> zlen t < 2 ^ 31 ->
  (exists c, compareStringObjects a b = Some c /\ Z.compare c 0 = lex_compare s t) /\
  equalStringObjects a b = Some (bool_decide (s = t)).
Proof.
  intros Ha Hb Hs Ht Hls Hlt.
  assert (Hc : exists c, compareStringObjects a b = Some c /\ Z.compare c 0 = lex_compare s t).
  { unfold compareStringObjects. rewrite (cmp_bytes_spec a s), (cmp_bytes_spec b t) by done. cbn [mbind option_bind].
    pose proof (compare_spec s t Hls Hlt) as H. cbv zeta in H. destruct (_ =? 0) in H |- *; eauto. }
  split; [done |]. destruct Hc as (c & Hc & Hcmp).
  assert (Hgen : (c ← compareStringObjects a b; Some (c =? 0)) = Some (bool_decide (s = t))).
  { rewrite Hc. cbn [mbind option_bind]. f_equal. case_bool_decide as E.
    - apply lex_compare_eq in E. rewrite E in Hcmp. apply Z.compare_eq_iff in Hcmp. by subst.
    - apply Z.eqb_neq. intros ->. apply E, lex_compare_eq. done. }
  destruct a as [|ca x|]; [exact Hgen | | exact Hgen]. destruct b as [|cb y|]; [exact Hgen | | exact Hgen].
  cbn [equalStringObjects]. f_equal. injection Hs as <-. injection Ht as <-. case_bool_decide as E.
  - apply Z.eqb_eq. by apply dec_string_inj.
  - apply Z.eqb_neq. by intros ->.
Qed.

Lemma object_compare_correct_witness :
  (exists c, compareStringObjects (IntObj false (-7)) (createStringObject [45; 55]) = Some c /\
    Z.compare c 0 = lex_compare [45; 55] [45; 55]) /\
  equalStringObjects (IntObj false (-7)) (createStringObject [45; 55]) = Some (bool_decide ([45; 55] = [45; 55])).
Proof.
  apply (object_compare_correct (IntObj false (-7)) (createStringObject [45; 55]) [45; 55] [45; 55]);
    [cbn; unfold int64, LLONG_MIN, LLONG_MAX; lia | repeat constructor; lia | reflexivity | reflexivity | cbn; lia | cbn; lia].
Defined.

End Object.
