(* ===== verification/HashKit.v ===== *)
(** * Hash functions and dispatch (dep/dhashkit, vr_dict.c)

    The hash kit: table-driven CRC-16 and CRC-32, the FNV family, Jenkins'
    one-at-a-time and lookup3 hashes, Hsieh's and Austin Appleby's, and the
    dispatch of a hash to a server.  [char] is signed.  CRC-16 routes every key
    to its internal database.  *)

From S2P Require Import Prelude Bytes Bits.

Module HashKit.

(** ** The code *)

(** A [char] read as an integer. *)
Definition schar (b : Z) : Z := swrap 8 b.

Definition crc16tab : list Z :=
  [0x0000; 0x1021; 0x2042; 0x3063; 0x4084; 0x50a5; 0x60c6; 0x70e7;
   0x8108; 0x9129; 0xa14a; 0xb16b; 0xc18c; 0xd1ad; 0xe1ce; 0xf1ef;
   0x1231; 0x0210; 0x3273; 0x2252; 0x52b5; 0x4294; 0x72f7; 0x62d6;
   0x9339; 0x8318; 0xb37b; 0xa35a; 0xd3bd; 0xc39c; 0xf3ff; 0xe3de;
   0x2462; 0x3443; 0x0420; 0x1401; 0x64e6; 0x74c7; 0x44a4; 0x5485;
   0xa56a; 0xb54b; 0x8528; 0x9509; 0xe5ee; 0xf5cf; 0xc5ac; 0xd58d;
   0x3653; 0x2672; 0x1611; 0x0630; 0x76d7; 0x66f6; 0x5695; 0x46b4;
   0xb75b; 0xa77a; 0x9719; 0x8738; 0xf7df; 0xe7fe; 0xd79d; 0xc7bc;
   0x48c4; 0x58e5; 0x6886; 0x78a7; 0x0840; 0x1861; 0x2802; 0x3823;
   0xc9cc; 0xd9ed; 0xe98e; 0xf9af; 0x8948; 0x9969; 0xa90a; 0xb92b;
   0x5af5; 0x4ad4; 0x7ab7; 0x6a96; 0x1a71; 0x0a50; 0x3a33; 0x2a12;
   0xdbfd; 0xcbdc; 0xfbbf; 0xeb9e; 0x9b79; 0x8b58; 0xbb3b; 0xab1a;
   0x6ca6; 0x7c87; 0x4ce4; 0x5cc5; 0x2c22; 0x3c03; 0x0c60; 0x1c41;
   0xedae; 0xfd8f; 0xcdec; 0xddcd; 0xad2a; 0xbd0b; 0x8d68; 0x9d49;
   0x7e97; 0x6eb6; 0x5ed5; 0x4ef4; 0x3e13; 0x2e32; 0x1e51; 0x0e70;
   0xff9f; 0xefbe; 0xdfdd; 0xcffc; 0xbf1b; 0xaf3a; 0x9f59; 0x8f78;
   0x9188; 0x81a9; 0xb1ca; 0xa1eb; 0xd10c; 0xc12d; 0xf14e; 0xe16f;
   0x1080; 0x00a1; 0x30c2; 0x20e3; 0x5004; 0x4025; 0x7046; 0x6067;
   0x83b9; 0x9398; 0xa3fb; 0xb3da; 0xc33d; 0xd31c; 0xe37f; 0xf35e;
   0x02b1; 0x1290; 0x22f3; 0x32d2; 0x4235; 0x5214; 0x6277; 0x7256;
   0xb5ea; 0xa5cb; 0x95a8; 0x8589; 0xf56e; 0xe54f; 0xd52c; 0xc50d;
   0x34e2; 0x24c3; 0x14a0; 0x0481; 0x7466; 0x6447; 0x5424; 0x4405;
   0xa7db; 0xb7fa; 0x8799; 0x97b8; 0xe75f; 0xf77e; 0xc71d; 0xd73c;
   0x26d3; 0x36f2; 0x0691; 0x16b0; 0x6657; 0x7676; 0x4615; 0x5634;
   0xd94c; 0xc96d; 0xf90e; 0xe92f; 0x99c8; 0x89e9; 0xb98a; 0xa9ab;
   0x5844; 0x4865; 0x7806; 0x6827; 0x18c0; 0x08e1; 0x3882; 0x28a3;
   0xcb7d; 0xdb5c; 0xeb3f; 0xfb1e; 0x8bf9; 0x9bd8; 0xabbb; 0xbb9a;
   0x4a75; 0x5a54; 0x6a37; 0x7a16; 0x0af1; 0x1ad0; 0x2ab3; 0x3a92;
   0xfd2e; 0xed0f; 0xdd6c; 0xcd4d; 0xbdaa; 0xad8b; 0x9de8; 0x8dc9;
   0x7c26; 0x6c07; 0x5c64; 0x4c45; 0x3ca2; 0x2c83; 0x1ce0; 0x0cc1;
   0xef1f; 0xff3e; 0xcf5d; 0xdf7c; 0xaf9b; 0xbfba; 0x8fd9; 0x9ff8;
   0x6e17; 0x7e36; 0x4e55; 0x5e74; 0x2e93; 0x3eb2; 0x0ed1; 0x1ef0].

(** Indexing a 256-entry table with a masked value. *)
Definition tab_at (t : list Z) (i : Z) : Z := nth (Z.to_nat (Z.land i 255)) t 0.

Definition hash_crc16 (key : list Z) : Z :=
  fold_left (fun crc b => Z.lxor (u32 (Z.shiftl crc 8)) (tab_at crc16tab (Z.lxor (Z.shiftr crc 8) (u32 (schar b))))) key 0.

Definition crc32tab : list Z :=
  [0x00000000; 0x77073096; 0xee0e612c; 0x990951ba; 0x076dc419; 0x706af48f;
   0xe963a535; 0x9e6495a3; 0x0edb8832; 0x79dcb8a4; 0xe0d5e91e; 0x97d2d988;
   0x09b64c2b; 0x7eb17cbd; 0xe7b82d07; 0x90bf1d91; 0x1db71064; 0x6ab020f2;
   0xf3b97148; 0x84be41de; 0x1adad47d; 0x6ddde4eb; 0xf4d4b551; 0x83d385c7;
   0x136c9856; 0x646ba8c0; 0xfd62f97a; 0x8a65c9ec; 0x14015c4f; 0x63066cd9;
   0xfa0f3d63; 0x8d080df5; 0x3b6e20c8; 0x4c69105e; 0xd56041e4; 0xa2677172;
   0x3c03e4d1; 0x4b04d447; 0xd20d85fd; 0xa50ab56b; 0x35b5a8fa; 0x42b2986c;
   0xdbbbc9d6; 0xacbcf940; 0x32d86ce3; 0x45df5c75; 0xdcd60dcf; 0xabd13d59;
   0x26d930ac; 0x51de003a; 0xc8d75180; 0xbfd06116; 0x21b4f4b5; 0x56b3c423;
   0xcfba9599; 0xb8bda50f; 0x2802b89e; 0x5f058808; 0xc60cd9b2; 0xb10be924;
   0x2f6f7c87; 0x58684c11; 0xc1611dab; 0xb6662d3d; 0x76dc4190; 0x01db7106;
   0x98d220bc; 0xefd5102a; 0x71b18589; 0x06b6b51f; 0x9fbfe4a5; 0xe8b8d433;
   0x7807c9a2; 0x0f00f934; 0x9609a88e; 0xe10e9818; 0x7f6a0dbb; 0x086d3d2d;
   0x91646c97; 0xe6635c01; 0x6b6b51f4; 0x1c6c6162; 0x856530d8; 0xf262004e;
   0x6c0695ed; 0x1b01a57b; 0x8208f4c1; 0xf50fc457; 0x65b0d9c6; 0x12b7e950;
   0x8bbeb8ea; 0xfcb9887c; 0x62dd1ddf; 0x15da2d49; 0x8cd37cf3; 0xfbd44c65;
   0x4db26158; 0x3ab551ce; 0xa3bc0074; 0xd4bb30e2; 0x4adfa541; 0x3dd895d7;
   0xa4d1c46d; 0xd3d6f4fb; 0x4369e96a; 0x346ed9fc; 0xad678846; 0xda60b8d0;
   0x44042d73; 0x33031de5; 0xaa0a4c5f; 0xdd0d7cc9; 0x5005713c; 0x270241aa;
   0xbe0b1010; 0xc90c2086; 0x5768b525; 0x206f85b3; 0xb966d409; 0xce61e49f;
   0x5edef90e; 0x29d9c998; 0xb0d09822; 0xc7d7a8b4; 0x59b33d17; 0x2eb40d81;
   0xb7bd5c3b; 0xc0ba6cad; 0xedb88320; 0x9abfb3b6; 0x03b6e20c; 0x74b1d29a;
   0xead54739; 0x9dd277af; 0x04db2615; 0x73dc1683; 0xe3630b12; 0x94643b84;
   0x0d6d6a3e; 0x7a6a5aa8; 0xe40ecf0b; 0x9309ff9d; 0x0a00ae27; 0x7d079eb1;
   0xf00f9344; 0x8708a3d2; 0x1e01f268; 0x6906c2fe; 0xf762575d; 0x806567cb;
   0x196c3671; 0x6e6b06e7; 0xfed41b76; 0x89d32be0; 0x10da7a5a; 0x67dd4acc;
   0xf9b9df6f; 0x8ebeeff9; 0x17b7be43; 0x60b08ed5; 0xd6d6a3e8; 0xa1d1937e;
   0x38d8c2c4; 0x4fdff252; 0xd1bb67f1; 0xa6bc5767; 0x3fb506dd; 0x48b2364b;
   0xd80d2bda; 0xaf0a1b4c; 0x36034af6; 0x41047a60; 0xdf60efc3; 0xa867df55;
   0x316e8eef; 0x4669be79; 0xcb61b38c; 0xbc66831a; 0x256fd2a0; 0x5268e236;
   0xcc0c7795; 0xbb0b4703; 0x220216b9; 0x5505262f; 0xc5ba3bbe; 0xb2bd0b28;
   0x2bb45a92; 0x5cb36a04; 0xc2d7ffa7; 0xb5d0cf31; 0x2cd99e8b; 0x5bdeae1d;
   0x9b64c2b0; 0xec63f226; 0x756aa39c; 0x026d930a; 0x9c0906a9; 0xeb0e363f;
   0x72076785; 0x05005713; 0x95bf4a82; 0xe2b87a14; 0x7bb12bae; 0x0cb61b38;
   0x92d28e9b; 0xe5d5be0d; 0x7cdcefb7; 0x0bdbdf21; 0x86d3d2d4; 0xf1d4e242;
   0x68ddb3f8; 0x1fda836e; 0x81be16cd; 0xf6b9265b; 0x6fb077e1; 0x18b74777;
   0x88085ae6; 0xff0f6a70; 0x66063bca; 0x11010b5c; 0x8f659eff; 0xf862ae69;
   0x616bffd3; 0x166ccf45; 0xa00ae278; 0xd70dd2ee; 0x4e048354; 0x3903b3c2;
   0xa7672661; 0xd06016f7; 0x4969474d; 0x3e6e77db; 0xaed16a4a; 0xd9d65adc;
   0x40df0b66; 0x37d83bf0; 0xa9bcae53; 0xdebb9ec5; 0x47b2cf7f; 0x30b5ffe9;
   0xbdbdf21c; 0xcabac28a; 0x53b39330; 0x24b4a3a6; 0xbad03605; 0xcdd70693;
   0x54de5729; 0x23d967bf; 0xb3667a2e; 0xc4614ab8; 0x5d681b02; 0x2a6f2b94;
   0xb40bbe37; 0xc30c8ea1; 0x5a05df1b; 0x2d02ef8d].

Definition UINT32_MAX : Z := 2 ^ 32 - 1.

Definition hash_crc32 (key : list Z) : Z :=
  let crc := fold_left (fun crc b => Z.lxor (Z.shiftr crc 8) (tab_at crc32tab (Z.lxor crc (u64 (schar b))))) key UINT32_MAX in
  Z.land (Z.shiftr (u32 (Z.lnot crc)) 16) 0x7fff.

Definition hash_crc32a (key : list Z) : Z :=
  let crc := fold_left (fun crc b => Z.lxor (tab_at crc32tab (Z.lxor crc b)) (Z.shiftr crc 8)) key (u32 (Z.lnot 0)) in
  Z.lxor crc (u32 (Z.lnot 0)).

Definition FNV_64_INIT : Z := 0xcbf29ce484222325.
Definition FNV_64_PRIME : Z := 0x100000001b3.
Definition FNV_32_INIT : Z := 2166136261.
Definition FNV_32_PRIME : Z := 16777619.

Definition hash_fnv1_64 (key : list Z) : Z :=
  u32 (fold_left (fun hash b => Z.lxor (u64 (hash * FNV_64_PRIME)) (u64 (schar b))) key FNV_64_INIT).

Definition hash_fnv1a_64 (key : list Z) : Z :=
  fold_left (fun hash b => u32 (Z.lxor hash (u32 (schar b)) * u32 FNV_64_PRIME)) key (u32 FNV_64_INIT).

Definition hash_fnv1_32 (key : list Z) : Z :=
  fold_left (fun hash b => Z.lxor (u32 (hash * FNV_32_PRIME)) (u32 (schar b))) key FNV_32_INIT.

Definition hash_fnv1a_32 (key : list Z) : Z :=
  fold_left (fun hash b => u32 (Z.lxor hash (u32 (schar b)) * FNV_32_PRIME)) key FNV_32_INIT.

(** Shift-and-combine steps of 32-bit values. *)
Definition add_shl (v k : Z) : Z := u32 (v + u32 (Z.shiftl v k)).
Definition add_shr (v k : Z) : Z := u32 (v + Z.shiftr v k).
Definition xor_shl (v k : Z) : Z := Z.lxor v (u32 (Z.shiftl v k)).
Definition xor_shr (v k : Z) : Z := Z.lxor v (Z.shiftr v k).

Definition hash_one_at_a_time (key : list Z) : Z :=
  let value := fold_left (fun value b =>
    let value := u32 (value + u32 (schar b)) in xor_shr (add_shl value 10) 6) key 0 in
  add_shl (xor_shr (add_shl value 3) 11) 15.

(** [get16bits]: the 16 bits at offset [i]. *)
Definition get16bits (p : list Z) (i : Z) : option Z :=
  b0 ← bget p i; b1 ← bget p (i + 1); Some (u32 (u32 (Z.shiftl b1 8) + b0)).

Fixpoint hsieh_loop (n : nat) (key : list Z) (hash : Z) : option (list Z * Z) :=
  match n with
  | O => Some (key, hash)
  | S n =>
      w ← get16bits key 0;
      w2 ← get16bits key 2;
      let hash := u32 (hash + w) in
      let tmp := Z.lxor (u32 (Z.shiftl w2 11)) hash in
      let hash := Z.lxor (u32 (Z.shiftl hash 16)) tmp in
      hsieh_loop n (drop 4 key) (add_shr hash 11)
  end.

Definition hsieh_tail (rem : Z) (key : list Z) (hash : Z) : option Z :=
  if rem =? 3 then
    w ← get16bits key 0;
    b ← bget key 2;
    let hash := xor_shl (u32 (hash + w)) 16 in
    let hash := Z.lxor hash (u32 (Z.shiftl (u32 (schar b)) 18)) in
    Some (add_shr hash 11)
  else if rem =? 2 then
    w ← get16bits key 0;
    Some (add_shr (xor_shl (u32 (hash + w)) 11) 17)
  else if rem =? 1 then
    b ← bget key 0;
    Some (add_shr (xor_shl (u32 (hash + b)) 10) 1)
  else Some hash.

Definition hash_hsieh (key : list Z) : option Z :=
  if zlen key <=? 0 then Some 0
  else
    let rem := Z.land (zlen key) 3 in
    '(rest, hash) ← hsieh_loop (Z.to_nat (Z.shiftr (zlen key) 2)) key 0;
    hash ← hsieh_tail rem rest hash;
    let hash := add_shr (xor_shl hash 3) 5 in
    let hash := add_shr (xor_shl hash 4) 17 in
    Some (add_shr (xor_shl hash 25) 6).

(** The four-byte loop and the tail switch shared by [hash_murmur] and
    [dictGenHashFunction]. *)
Definition MURMUR_M : Z := 0x5bd1e995.

Fixpoint murmur_loop (n : nat) (data : list Z) (h : Z) : option (list Z * Z) :=
  match n with
  | O => Some (data, h)
  | S n =>
      w ← bread data 0 4;
      let k := u32 (le_val w * MURMUR_M) in
      let k := xor_shr k 24 in
      let k := u32 (k * MURMUR_M) in
      murmur_loop n (drop 4 data) (Z.lxor (u32 (h * MURMUR_M)) k)
  end.

Definition murmur_tail (len : Z) (data : list Z) (h : Z) : option Z :=
  h ← (if len =? 3 then b ← bget data 2; Some (Z.lxor h (u32 (Z.shiftl b 16))) else Some h);
  h ← (if 2 <=? len then b ← bget data 1; Some (Z.lxor h (u32 (Z.shiftl b 8))) else Some h);
  if 1 <=? len then b ← bget data 0; Some (u32 (Z.lxor h b * MURMUR_M)) else Some h.

Definition murmur_final (h : Z) : Z := xor_shr (u32 (xor_shr h 13 * MURMUR_M)) 15.

Definition murmur (seed : Z) (data : list Z) : option Z :=
  let h := Z.lxor seed (u32 (zlen data)) in
  '(rest, h) ← murmur_loop (Z.to_nat (zlen data / 4)) data h;
  h ← murmur_tail (zlen data mod 4) rest h;
  Some (murmur_final h).

Definition hash_murmur (key : list Z) : option Z := murmur (u32 (0xdeadbeef * u32 (zlen key))) key.

(** [seed] is the static [dict_hash_function_seed]. *)
Definition dictGenHashFunction (seed : Z) (key : list Z) : option Z := murmur seed key.

Definition tolower (c : Z) : Z := if (65 <=? c) && (c <=? 90) then c + 32 else c.

Definition dictGenCaseHashFunction (seed : Z) (buf : list Z) : Z :=
  fold_left (fun hash b => u32 (u32 (u32 (Z.shiftl hash 5) + hash) + tolower b)) buf (u32 seed).

(** Thomas Wang's 32-bit mix. *)
Definition dictIntHashFunction (key : Z) : Z :=
  let key := u32 (key + u32 (Z.lnot (u32 (Z.shiftl key 15)))) in
  let key := xor_shr key 10 in
  let key := add_shl key 3 in
  let key := xor_shr key 6 in
  let key := u32 (key + u32 (Z.lnot (u32 (Z.shiftl key 11)))) in
  xor_shr key 16.

(** *** lookup3 *)

Definition rot (x k : Z) : Z := Z.lor (u32 (Z.shiftl x k)) (Z.shiftr x (32 - k)).

(** One line of [mix]: [a -= c; a ^= rot(c,k); c += b]. *)
Definition mix1 (k a b c : Z) : Z * Z := (Z.lxor (u32 (a - c)) (rot c k), u32 (c + b)).

Definition mix (s : Z * Z * Z) : Z * Z * Z :=
  let '(a, b, c) := s in
  let '(a, c) := mix1 4 a b c in
  let '(b, a) := mix1 6 b c a in
  let '(c, b) := mix1 8 c a b in
  let '(a, c) := mix1 16 a b c in
  let '(b, a) := mix1 19 b c a in
  let '(c, b) := mix1 4 c a b in
  (a, b, c).

(** [x ^= y; x -= rot(y,k)]. *)
Definition final1 (k x y : Z) : Z := u32 (Z.lxor x y - rot y k).

Definition final (s : Z * Z * Z) : Z :=
  let '(a, b, c) := s in
  let c := final1 14 c b in
  let a := final1 11 a c in
  let b := final1 25 b a in
  let c := final1 16 c b in
  let a := final1 4 a c in
  let b := final1 14 b a in
  final1 24 c b.

Definition JENKINS_INITVAL : Z := 13.

(** Reads through a [uint32_t *], a [uint16_t *] and a [uint8_t *]. *)
Definition rd32 (p : list Z) (i : Z) : option Z := le_val <$> bread p (4 * i) 4.
Definition rd16 (p : list Z) (i : Z) : option Z := le_val <$> bread p (2 * i) 2.
Definition rd8 (p : list Z) (i : Z) : option Z := bget p i.

(** [x += y] on a 32-bit unsigned. *)
Definition acc (x y : Z) : Z := u32 (x + y).
Definition shl (x k : Z) : Z := u32 (Z.shiftl x k).

(** A pair of 16-bit reads as a 32-bit value. *)
Definition rd16x2 (p : list Z) (i : Z) : option Z :=
  lo ← rd16 p i; hi ← rd16 p (i + 1); Some (u32 (lo + shl hi 16)).

(** The block reads of the three branches. *)
Definition block32 (p : list Z) (s : Z * Z * Z) : option (Z * Z * Z) :=
  let '(a, b, c) := s in
  x ← rd32 p 0; y ← rd32 p 1; z ← rd32 p 2; Some (acc a x, acc b y, acc c z).

Definition block16 (p : list Z) (s : Z * Z * Z) : option (Z * Z * Z) :=
  let '(a, b, c) := s in
  x ← rd16x2 p 0; y ← rd16x2 p 2; z ← rd16x2 p 4; Some (acc a x, acc b y, acc c z).

Definition quad8 (p : list Z) (i x : Z) : option Z :=
  k0 ← rd8 p i; k1 ← rd8 p (i + 1); k2 ← rd8 p (i + 2); k3 ← rd8 p (i + 3);
  Some (acc (acc (acc (acc x k0) (shl k1 8)) (shl k2 16)) (shl k3 24)).

Definition block8 (p : list Z) (s : Z * Z * Z) : option (Z * Z * Z) :=
  let '(a, b, c) := s in
  a ← quad8 p 0 a; b ← quad8 p 4 b; c ← quad8 p 8 c; Some (a, b, c).

(** [while (length > 12)]: what is left of the key, its length and the state. *)
Fixpoint jenkins_loop (block : list Z -> Z * Z * Z -> option (Z * Z * Z)) (fuel : nat)
    (p : list Z) (length : Z) (s : Z * Z * Z) : option (list Z * Z * (Z * Z * Z)) :=
  match fuel with
  | O => None
  | S fuel =>
      if length >? 12 then s ← block p s; jenkins_loop block fuel (drop 12 p) (length - 12) (mix s)
      else Some (p, length, s)
  end.

(** The last block; [None] inside is the early return of [c]. *)
Definition tail32 (p : list Z) (length : Z) (s : Z * Z * Z) : option (option (Z * Z * Z)) :=
  let '(a, b, c) := s in
  match length with
  | 12 => z ← rd32 p 2; y ← rd32 p 1; x ← rd32 p 0; Some (Some (acc a x, acc b y, acc c z))
  | 11 => z ← rd32 p 2; y ← rd32 p 1; x ← rd32 p 0; Some (Some (acc a x, acc b y, acc c (Z.land z 0xffffff)))
  | 10 => z ← rd32 p 2; y ← rd32 p 1; x ← rd32 p 0; Some (Some (acc a x, acc b y, acc c (Z.land z 0xffff)))
  | 9 => z ← rd32 p 2; y ← rd32 p 1; x ← rd32 p 0; Some (Some (acc a x, acc b y, acc c (Z.land z 0xff)))
  | 8 => y ← rd32 p 1; x ← rd32 p 0; Some (Some (acc a x, acc b y, c))
  | 7 => y ← rd32 p 1; x ← rd32 p 0; Some (Some (acc a x, acc b (Z.land y 0xffffff), c))
  | 6 => y ← rd32 p 1; x ← rd32 p 0; Some (Some (acc a x, acc b (Z.land y 0xffff), c))
  | 5 => y ← rd32 p 1; x ← rd32 p 0; Some (Some (acc a x, acc b (Z.land y 0xff), c))
  | 4 => x ← rd32 p 0; Some (Some (acc a x, b, c))
  | 3 => x ← rd32 p 0; Some (Some (acc a (Z.land x 0xffffff), b, c))
  | 2 => x ← rd32 p 0; Some (Some (acc a (Z.land x 0xffff), b, c))
  | 1 => x ← rd32 p 0; Some (Some (acc a (Z.land x 0xff), b, c))
  | _ => Some None
  end.

Definition tail16 (p : list Z) (length : Z) (s : Z * Z * Z) : option (option (Z * Z * Z)) :=
  let '(a, b, c) := s in
  match length with
  | 12 => z ← rd16x2 p 4; y ← rd16x2 p 2; x ← rd16x2 p 0; Some (Some (acc a x, acc b y, acc c z))
  | 11 => k ← rd8 p 10; z ← rd16 p 4; y ← rd16x2 p 2; x ← rd16x2 p 0;
          Some (Some (acc a x, acc b y, acc (acc c (shl k 16)) z))
  | 10 => z ← rd16 p 4; y ← rd16x2 p 2; x ← rd16x2 p 0; Some (Some (acc a x, acc b y, acc c z))
  | 9 => k ← rd8 p 8; y ← rd16x2 p 2; x ← rd16x2 p 0; Some (Some (acc a x, acc b y, acc c k))
  | 8 => y ← rd16x2 p 2; x ← rd16x2 p 0; Some (Some (acc a x, acc b y, c))
  | 7 => k ← rd8 p 6; y ← rd16 p 2; x ← rd16x2 p 0; Some (Some (acc a x, acc (acc b (shl k 16)) y, c))
  | 6 => y ← rd16 p 2; x ← rd16x2 p 0; Some (Some (acc a x, acc b y, c))
  | 5 => k ← rd8 p 4; x ← rd16x2 p 0; Some (Some (acc a x, acc b k, c))
  | 4 => x ← rd16x2 p 0; Some (Some (acc a x, b, c))
  | 3 => k ← rd8 p 2; x ← rd16 p 0; Some (Some (acc (acc a (shl k 16)) x, b, c))
  | 2 => x ← rd16 p 0; Some (Some (acc a x, b, c))
  | 1 => k ← rd8 p 0; Some (Some (acc a k, b, c))
  | _ => Some None
  end.

(** The byte branch falls through: case [n] adds the bytes [n-1], ..., 0. *)
Definition add8 (p : list Z) (length i k x : Z) : option Z :=
  if i <? length then b ← rd8 p i; Some (acc x (shl b k)) else Some x.

Definition tail8 (p : list Z) (length : Z) (s : Z * Z * Z) : option (option (Z * Z * Z)) :=
  let '(a, b, c) := s in
  if (1 <=? length) && (length <=? 12) then
    c ← add8 p length 11 24 c; c ← add8 p length 10 16 c; c ← add8 p length 9 8 c; c ← add8 p length 8 0 c;
    b ← add8 p length 7 24 b; b ← add8 p length 6 16 b; b ← add8 p length 5 8 b; b ← add8 p length 4 0 b;
    a ← add8 p length 3 24 a; a ← add8 p length 2 16 a; a ← add8 p length 1 8 a; a ← add8 p length 0 0 a;
    Some (Some (a, b, c))
  else Some None.

(** [addr] is the address of the key, [p] the memory from it on. *)
Definition hash_jenkins (addr : Z) (p : list Z) (length : Z) : option Z :=
  let x := u32 (0xdeadbeef + u32 length + JENKINS_INITVAL) in
  let s := (x, x, x) in
  let fuel := S (Z.to_nat length) in
  let finish (r : option (list Z * Z * (Z * Z * Z))) (tail : list Z -> Z -> Z * Z * Z -> option (option (Z * Z * Z))) :=
    '(p, length, s) ← r; t ← tail p length s;
    Some (match t with Some s => final s | None => s.2 end) in
  if Z.land addr 3 =? 0 then finish (jenkins_loop block32 fuel p length s) tail32
  else if Z.land addr 1 =? 0 then finish (jenkins_loop block16 fuel p length s) tail16
  else finish (jenkins_loop block8 fuel p length s) tail8.

(** *** Dispatch *)

Record continuum := mk_continuum { index : Z; value : Z }.

Fixpoint ketama_search (fuel : nat) (cs : list continuum) (hash left right : Z) : option Z :=
  match fuel with
  | O => None
  | S fuel =>
      if left <? right then
        let middle := left + (right - left) / 2 in
        m ← cs !! Z.to_nat middle;
        if value m <? hash then ketama_search fuel cs hash (middle + 1) right
        else ketama_search fuel cs hash left middle
      else Some right
  end.

Definition ketama_dispatch (cs : list continuum) (hash : Z) : option Z :=
  if zlen cs =? 0 then None
  else
    right ← ketama_search (S (length cs)) cs hash 0 (zlen cs);
    let right := if right =? zlen cs then 0 else right in
    index <$> cs !! Z.to_nat right.

Definition modula_dispatch (cs : list continuum) (hash : Z) : option Z :=
  if zlen cs =? 0 then None else index <$> cs !! Z.to_nat (hash mod zlen cs).

(** ** Cyclic redundancy checks *)

(** One bit of CRC-16/XMODEM: shift left, subtract the polynomial on carry. *)
Definition crc16_bit (c : Z) : Z :=
  if Z.testbit c 15 then Z.lxor (u16 (Z.shiftl c 1)) 0x1021 else u16 (Z.shiftl c 1).

Definition crc16 (key : list Z) : Z :=
  fold_left (fun c b => Nat.iter 8 crc16_bit (Z.lxor c (Z.shiftl b 8))) key 0.

(** One bit of the reflected CRC-32. *)
Definition crc32_bit (c : Z) : Z :=
  if Z.testbit c 0 then Z.lxor (Z.shiftr c 1) 0xEDB88320 else Z.shiftr c 1.

Definition crc32 (key : list Z) : Z :=
  Z.lxor (fold_left (fun c b => Nat.iter 8 crc32_bit (Z.lxor c b)) key UINT32_MAX) UINT32_MAX.

Lemma uwrap_lxor w a b : 0 <= w -> uwrap w (Z.lxor a b) = Z.lxor (uwrap w a) (uwrap w b).
Proof.
  intros Hw. unfold uwrap. apply Z.bits_inj'. intros i Hi. rewrite Z.lxor_spec.
  destruct (Z.lt_ge_cases i w); [by rewrite !Z.mod_pow2_bits_low, Z.lxor_spec by lia | by rewrite !Z.mod_pow2_bits_high by lia].
Qed.

Lemma lxor_swap a b c d : Z.lxor (Z.lxor a b) (Z.lxor c d) = Z.lxor (Z.lxor a c) (Z.lxor b d).
Proof. rewrite !Z.lxor_assoc. f_equal. rewrite <- !Z.lxor_assoc. f_equal. apply Z.lxor_comm. Qed.

(** Both steps are linear over exclusive or. *)
Lemma crc16_bit_lin a b : crc16_bit (Z.lxor a b) = Z.lxor (crc16_bit a) (crc16_bit b).
Proof.
  unfold crc16_bit. rewrite Z.lxor_spec, Z.shiftl_lxor, uwrap_lxor by lia. destruct (Z.testbit a 15), (Z.testbit b 15); cbn [xorb].
  - by rewrite lxor_swap, Z.lxor_nilpotent, Z.lxor_0_r.
  - by rewrite !Z.lxor_assoc, (Z.lxor_comm _ 4129).
  - by rewrite !Z.lxor_assoc.
  - done.
Qed.

Lemma crc32_bit_lin a b : crc32_bit (Z.lxor a b) = Z.lxor (crc32_bit a) (crc32_bit b).
Proof.
  unfold crc32_bit. rewrite Z.lxor_spec, Z.shiftr_lxor. destruct (Z.testbit a 0), (Z.testbit b 0); cbn [xorb].
  - by rewrite lxor_swap, Z.lxor_nilpotent, Z.lxor_0_r.
  - by rewrite !Z.lxor_assoc, (Z.lxor_comm _ 3988292384).
  - by rewrite !Z.lxor_assoc.
  - done.
Qed.

Lemma iter_lin (f : Z -> Z) n : (forall a b, f (Z.lxor a b) = Z.lxor (f a) (f b)) ->
  forall a b, Nat.iter n f (Z.lxor a b) = Z.lxor (Nat.iter n f a) (Nat.iter n f b).
Proof. intros Hf a b. induction n as [|n IH]; [done |]. rewrite !Nat.iter_succ, IH. apply Hf. Qed.

Lemma crc16_high b : 0 <= b < 256 -> Nat.iter 8 crc16_bit (Z.shiftl b 8) = tab_at crc16tab b.
Proof. apply (byte_cases (fun b => Nat.iter 8 crc16_bit (Z.shiftl b 8) = tab_at crc16tab b)), (bool_decide_unpack _). vm_compute. exact I. Qed.

Lemma crc16_low b : 0 <= b < 256 -> Nat.iter 8 crc16_bit b = Z.shiftl b 8.
Proof. apply (byte_cases (fun b => Nat.iter 8 crc16_bit b = Z.shiftl b 8)), (bool_decide_unpack _). vm_compute. exact I. Qed.

Lemma crc32_low b : 0 <= b < 256 -> Nat.iter 8 crc32_bit b = tab_at crc32tab b.
Proof. apply (byte_cases (fun b => Nat.iter 8 crc32_bit b = tab_at crc32tab b)), (bool_decide_unpack _). vm_compute. exact I. Qed.

Lemma crc32_high n x : Nat.iter n crc32_bit (Z.shiftl x (Z.of_nat n)) = x.
Proof.
  induction n as [|n IH]; [apply Z.shiftl_0_r |]. rewrite Nat.iter_succ_r. unfold crc32_bit at 2.
  rewrite Z.shiftl_spec, Z.testbit_neg_r, Z.shiftr_shiftl_l by lia. replace (Z.of_nat (S n) - 1) with (Z.of_nat n) by lia. apply IH.
Qed.

(** A word as its high and low parts, over exclusive or. *)
Lemma split_xor c : c = Z.lxor (Z.shiftl (Z.shiftr c 8) 8) (c mod 2 ^ 8).
Proof.
  apply Z.bits_inj'. intros i Hi. rewrite Z.lxor_spec, Z.shiftl_spec by lia. destruct (Z.lt_ge_cases i 8).
  - by rewrite (Z.testbit_neg_r _ (i - 8)), Z.mod_pow2_bits_low by lia.
  - rewrite Z.shiftr_spec, Z.mod_pow2_bits_high, xorb_false_r by lia. f_equal. lia.
Qed.

Lemma lxor_byte a b : 0 <= a < 256 -> 0 <= b < 256 -> 0 <= Z.lxor a b < 256.
Proof.
  intros Ha Hb. rewrite <- (uwrap_small 8 a), <- (uwrap_small 8 b) by lia.
  rewrite <- uwrap_lxor by lia. apply (uwrap_range 8). lia.
Qed.

(** The signed byte read and masked is the byte. *)
Lemma tab_at_cong t x y : x mod 2 ^ 8 = y mod 2 ^ 8 -> tab_at t x = tab_at t y.
Proof. unfold tab_at. change 255 with (2 ^ 8 - 1). rewrite !land_mask by lia. by intros ->. Qed.

Lemma xor_schar w x b : 8 <= w -> Z.lxor x (uwrap w (schar b)) mod 2 ^ 8 = Z.lxor x b mod 2 ^ 8.
Proof.
  intros Hw. fold (u8 (Z.lxor x (uwrap w (schar b)))). fold (u8 (Z.lxor x b)). rewrite !uwrap_lxor by lia. f_equal.
  unfold schar. rewrite <- (uwrap_swrap 8 ltac:(lia) b). unfold uwrap. by rewrite mod_mod_pow by lia.
Qed.

Lemma crc16_step c b : 0 <= c < 2 ^ 16 -> 0 <= b < 256 ->
  Nat.iter 8 crc16_bit (Z.lxor c (Z.shiftl b 8)) = Z.lxor (u16 (Z.shiftl c 8)) (tab_at crc16tab (Z.lxor (Z.shiftr c 8) b)).
Proof.
  intros Hc Hb. assert (Hh : 0 <= Z.shiftr c 8 < 256).
  { rewrite Z.shiftr_div_pow2 by lia. change (2 ^ 8) with 256. split; [apply Z.div_pos; lia | apply Z.div_lt_upper_bound; lia]. }
  pose proof (Z.mod_pos_bound c (2 ^ 8) ltac:(lia)) as Hl.
  rewrite (split_xor c) at 1. rewrite Z.lxor_assoc, (Z.lxor_comm (c mod _)), <- Z.lxor_assoc, <- Z.shiftl_lxor.
  rewrite iter_lin, crc16_high, crc16_low by (apply crc16_bit_lin || apply lxor_byte || lia; done). rewrite Z.lxor_comm. f_equal.
  unfold uwrap. rewrite !Z.shiftl_mul_pow2 by lia. change (2 ^ 16) with (2 ^ 8 * 2 ^ 8). by rewrite Zmult_mod_distr_r by lia.
Qed.

Lemma crc32_step c b : 0 <= c -> 0 <= b < 256 ->
  Nat.iter 8 crc32_bit (Z.lxor c b) = Z.lxor (Z.shiftr c 8) (tab_at crc32tab (Z.lxor c b)).
Proof.
  intros Hc Hb. pose proof (Z.mod_pos_bound c (2 ^ 8) ltac:(lia)) as Hl. rewrite (split_xor c) at 1.
  rewrite Z.lxor_assoc, iter_lin by apply crc32_bit_lin. rewrite (crc32_high 8), crc32_low by (by apply lxor_byte). f_equal.
  apply tab_at_cong. fold (u8 (Z.lxor (c mod 2 ^ 8) b)). fold (u8 (Z.lxor c b)). rewrite !uwrap_lxor by lia.
  f_equal. unfold uwrap. by rewrite Z.mod_mod by lia.
Qed.

Lemma crc16_bit_range c : 0 <= crc16_bit c < 2 ^ 16.
Proof.
  unfold crc16_bit. pose proof (uwrap_range 16 ltac:(lia) (Z.shiftl c 1)). destruct (Z.testbit c 15); [|done].
  rewrite <- (uwrap_small 16 (u16 _)), <- (uwrap_small 16 4129) by lia. rewrite <- uwrap_lxor by lia. apply uwrap_range. lia.
Qed.

Lemma crc16_round_range n c : 0 <= Nat.iter (S n) crc16_bit c < 2 ^ 16.
Proof. rewrite Nat.iter_succ. apply crc16_bit_range. Qed.

(** The 32-bit accumulator of [hash_crc16] keeps the register in its low half. *)
Lemma hash_crc16_fold key : forall crc c, bytes_ok key -> u16 crc = c ->
  u16 (fold_left (fun crc b => Z.lxor (u32 (Z.shiftl crc 8)) (tab_at crc16tab (Z.lxor (Z.shiftr crc 8) (u32 (schar b))))) key crc) =
  fold_left (fun c b => Nat.iter 8 crc16_bit (Z.lxor c (Z.shiftl b 8))) key c.
Proof.
  induction key as [|b key IH]; intros crc c Hk Hc; [done |]. apply Forall_cons in Hk as [Hb Hk]. cbn [fold_left].
  apply IH; [done |]. subst c. rewrite crc16_step by (done || apply uwrap_range; lia).
  rewrite uwrap_lxor by lia. f_equal.
  - unfold uwrap. rewrite !Z.shiftl_mul_pow2, Zmult_mod_idemp_l by lia. 
    by rewrite mod_mod_pow by lia.
  - rewrite (tab_at_cong _ _ (Z.lxor (Z.shiftr crc 8) b)) by (by apply xor_schar).
    assert (Ht : forall x, u16 (tab_at crc16tab x) = tab_at crc16tab x).
    { intros x. unfold tab_at. change 255 with (2 ^ 8 - 1). rewrite land_mask by lia. pose proof (Z.mod_pos_bound x (2 ^ 8) ltac:(lia)).
      apply (byte_cases (fun y => u16 (nth (Z.to_nat y) crc16tab 0) = nth (Z.to_nat y) crc16tab 0)); [|done].
      apply (bool_decide_unpack _). vm_compute. exact I. }
    rewrite Ht. apply tab_at_cong. fold (u8 (Z.lxor (Z.shiftr crc 8) b)). fold (u8 (Z.lxor (Z.shiftr (u16 crc) 8) b)).
    rewrite !uwrap_lxor by lia. f_equal. unfold uwrap. apply mod_bits; [lia |]. intros i Hi.
    by rewrite !Z.shiftr_spec, Z.mod_pow2_bits_low by lia.
Qed.

Lemma hash_crc32_fold f g key : forall c, bytes_ok key -> 0 <= c ->
  (forall c b, 0 <= b < 256 -> 0 <= c -> f c b = g c b /\ 0 <= g c b) ->
  fold_left f key c = fold_left g key c /\ 0 <= fold_left g key c.
Proof.
  induction key as [|b key IH]; intros c Hk Hc Hfg; [done |]. apply Forall_cons in Hk as [Hb Hk]. cbn [fold_left].
  destruct (Hfg c b Hb Hc) as [-> ?]. by apply IH.
Qed.

Lemma crc32_round_nonneg n c : 0 <= c -> 0 <= Nat.iter n crc32_bit c.
Proof.
  intros Hc. induction n as [|n IH]; [done |]. rewrite Nat.iter_succ. unfold crc32_bit.
  destruct (Z.testbit _ 0); [apply Z.lxor_nonneg; split; intros; [done |] |]; apply Z.shiftr_nonneg; done.
Qed.

Lemma crc32_round_range c b : 0 <= c < 2 ^ 32 -> 0 <= b < 256 -> 0 <= Nat.iter 8 crc32_bit (Z.lxor c b) < 2 ^ 32.
Proof.
  intros Hc Hb. rewrite crc32_step by lia. set (t := tab_at crc32tab _).
  assert (Ht : 0 <= t < 2 ^ 32).
  { unfold t, tab_at. change 255 with (2 ^ 8 - 1). rewrite land_mask by lia. pose proof (Z.mod_pos_bound (Z.lxor c b) (2 ^ 8) ltac:(lia)).
    apply (byte_cases (fun y => 0 <= nth (Z.to_nat y) crc32tab 0 < 2 ^ 32)); [|done].
    apply (bool_decide_unpack _). vm_compute. exact I. }
  assert (Hs : 0 <= Z.shiftr c 8 < 2 ^ 32).
  { rewrite Z.shiftr_div_pow2 by lia. split; [apply Z.div_pos; lia | apply Z.div_lt_upper_bound; lia]. }
  rewrite <- (uwrap_small 32 t), <- (uwrap_small 32 (Z.shiftr c 8)) by done. rewrite <- uwrap_lxor by lia. apply uwrap_range. lia.
Qed.

Lemma crc32_fold_range key : forall c, bytes_ok key -> 0 <= c < 2 ^ 32 ->
  0 <= fold_left (fun c b => Nat.iter 8 crc32_bit (Z.lxor c b)) key c < 2 ^ 32.
Proof.
  induction key as [|b key IH]; intros c Hk Hc; [done |]. apply Forall_cons in Hk as [Hb Hk]. cbn [fold_left].
  apply IH; [done |]. by apply crc32_round_range.
Qed.

Lemma lnot_xor c : 0 <= c < 2 ^ 32 -> u32 (Z.lnot c) = Z.lxor c UINT32_MAX.
Proof.
  intros Hc. unfold UINT32_MAX, uwrap. rewrite Z.sub_1_r, <- Z.ones_equiv. apply Z.bits_inj'. intros i Hi.
  rewrite Z.lxor_spec. destruct (Z.lt_ge_cases i 32).
  - rewrite Z.mod_pow2_bits_low, Z.lnot_spec, Z.ones_spec_low by lia. by rewrite xorb_true_r.
  - rewrite Z.mod_pow2_bits_high, Z.ones_spec_high by lia. rewrite <- (Z.mod_small c (2 ^ 32)), Z.mod_pow2_bits_high by lia. done.
Qed.

(** The table-driven [hash_crc16] computes CRC-16/XMODEM: its low 16 bits are
    the register of the bit-by-bit definition with polynomial 0x1021. *)
Theorem hash_crc16_correct key : bytes_ok key -> u16 (hash_crc16 key) = crc16 key.
Proof. intros Hk. apply hash_crc16_fold; done. Qed.

Lemma hash_crc16_correct_witness : u16 (hash_crc16 [49; 50; 51; 52; 53; 54; 55; 56; 57]) = 0x31C3.
Proof. apply (hash_crc16_correct [49; 50; 51; 52; 53; 54; 55; 56; 57]). repeat constructor; lia. Defined.

(** [hash_crc32a] is the standard CRC-32 (reflected polynomial 0xEDB88320)
    and [hash_crc32], which reads signed characters, is 15 bits of it. *)
Theorem hash_crc32_correct key : bytes_ok key ->
  hash_crc32a key = crc32 key /\ hash_crc32 key = Z.land (Z.shiftr (crc32 key) 16) 0x7fff.
Proof.
  intros Hk. unfold hash_crc32a, hash_crc32, crc32. change (u32 (Z.lnot 0)) with UINT32_MAX.
  pose proof (crc32_fold_range key UINT32_MAX Hk ltac:(unfold UINT32_MAX; lia)) as Hr. split.
  - f_equal. apply hash_crc32_fold; [done | unfold UINT32_MAX; lia |]. intros c b Hb Hc.
    split; [rewrite crc32_step by lia; apply Z.lxor_comm | apply crc32_round_nonneg, Z.lxor_nonneg; lia].
  - rewrite <- lnot_xor by done. do 4 f_equal. apply hash_crc32_fold; [done | unfold UINT32_MAX; lia |]. intros c b Hb Hc.
    split; [rewrite crc32_step by lia; f_equal; apply tab_at_cong; by apply xor_schar | apply crc32_round_nonneg, Z.lxor_nonneg; lia].
Qed.

Lemma hash_crc32_correct_witness : hash_crc32a [49; 50; 51; 52; 53; 54; 55; 56; 57] = 0xCBF43926 /\
  hash_crc32 [49; 50; 51; 52; 53; 54; 55; 56; 57] = 0x4BF4.
Proof. apply (hash_crc32_correct [49; 50; 51; 52; 53; 54; 55; 56; 57]). repeat constructor; lia. Defined.

(** ** lookup3 does not depend on alignment *)

Definition in32 (s : Z * Z * Z) : Prop := let '(a, b, c) := s in u32 a = a /\ u32 b = b /\ u32 c = c.

(** Adding twelve bytes, missing ones as zeroes. *)
Definition add_block (key : list Z) (s : Z * Z * Z) : Z * Z * Z :=
  let '(a, b, c) := s in
  (acc a (le_val (take 4 key)), acc b (le_val (take 4 (drop 4 key))), acc c (le_val (take 4 (drop 8 key)))).

(** The hash of a key, byte by byte. *)
Fixpoint jenkins_ref (fuel : nat) (key : list Z) (s : Z * Z * Z) : Z :=
  match fuel with
  | O => s.2
  | S fuel =>
      if zlen key >? 12 then jenkins_ref fuel (drop 12 key) (mix (add_block (take 12 key) s))
      else if zlen key =? 0 then s.2 else final (add_block key s)
  end.

Definition jenkins (key : list Z) : Z :=
  let x := u32 (0xdeadbeef + u32 (zlen key) + JENKINS_INITVAL) in jenkins_ref (S (length key)) key (x, x, x).

Lemma acc_acc a x y : acc (acc a x) y = acc a (x + y).
Proof. unfold acc, uwrap. rewrite Zplus_mod_idemp_l. f_equal. lia. Qed.

Lemma shl_byte b k : 0 <= b < 256 -> 0 <= k <= 24 -> shl b k = b * 2 ^ k.
Proof.
  intros Hb Hk. unfold shl. rewrite Z.shiftl_mul_pow2 by lia. apply uwrap_small.
  assert (2 ^ k <= 2 ^ 24) by (apply Z.pow_le_mono_r; lia). assert (0 < 2 ^ k) by (apply Z.pow_pos_nonneg; lia). nia.
Qed.

Lemma bread_some p i n : 0 <= i -> 0 <= n -> i + n <= zlen p -> bread p i n = Some (take (Z.to_nat n) (drop (Z.to_nat i) p)).
Proof. intros. unfold bread. by repeat zguard. Qed.

(** The twelve bytes a block reads. *)
Ltac bytes12 p Hp Hl :=
  do 12 (destruct p as [|? p]; [exfalso; cbn [length] in Hl; lia |]);
  unfold bytes_ok in Hp; rewrite !Forall_cons in Hp.

(** Evaluates reads at constant offsets of an explicit list. *)
Ltac reads :=
  unfold rd32, quad8, add8, rd16x2, rd16, rd8, bget;
  repeat (rewrite bread_some by (cbn [length]; lia)); cbn [mbind option_bind fmap option_fmap option_map];
  repeat match goal with |- context [Z.to_nat ?k] => let v := eval vm_compute in (Z.to_nat k) in change (Z.to_nat k) with v end;
  repeat match goal with |- context [0 <=? ?k] => let v := eval vm_compute in (0 <=? k) in change (0 <=? k) with v end;
  repeat match goal with |- context [?i <? ?k] => let v := eval vm_compute in (i <? k) in change (i <? k) with v end;
  cbn [mbind option_bind fmap option_fmap option_map lookup list_lookup take drop le_val Z.leb Z.ltb Z.compare Pos.compare Pos.compare_cont].

Lemma pair16 x y : 0 <= x < 65536 -> 0 <= y < 65536 -> u32 (x + shl y 16) = x + 65536 * y.
Proof.
  intros Hx Hy. unfold shl. rewrite Z.shiftl_mul_pow2 by lia. rewrite (uwrap_small 32 (y * 2 ^ 16)), uwrap_small by lia. lia.
Qed.

(** Two sums of the same bytes. *)
Ltac eqs := first [lia | f_equal; eqs].
Ltac same_sum :=
  rewrite ?take_0; cbn [le_val]; rewrite ?pair16, ?shl_byte by lia; rewrite ?acc_acc; eqs.

Lemma block32_spec p s : bytes_ok p -> 12 <= zlen p -> block32 p s = Some (add_block (take 12 p) s).
Proof. intros Hp Hl. destruct s as [[a b] c]. bytes12 p Hp Hl. unfold block32, add_block. reads. reflexivity. Qed.

Lemma block16_spec p s : bytes_ok p -> 12 <= zlen p -> block16 p s = Some (add_block (take 12 p) s).
Proof. intros Hp Hl. destruct s as [[a b] c]. bytes12 p Hp Hl. unfold block16, add_block. reads. same_sum. Qed.

Lemma quad8_sum x b0 b1 b2 b3 : bytes_ok [b0; b1; b2; b3] ->
  acc (acc (acc (acc x b0) (shl b1 8)) (shl b2 16)) (shl b3 24) = acc x (le_val [b0; b1; b2; b3]).
Proof.
  unfold bytes_ok. rewrite !Forall_cons. intros (? & ? & ? & ? & _). rewrite !shl_byte, !acc_acc by lia. f_equal. cbn [le_val]. lia.
Qed.

Lemma block8_spec p s : bytes_ok p -> 12 <= zlen p -> block8 p s = Some (add_block (take 12 p) s).
Proof.
  intros Hp Hl. destruct s as [[a b] c]. bytes12 p Hp Hl. unfold block8, add_block. reads.
  rewrite !quad8_sum by (unfold bytes_ok; rewrite !Forall_cons, Forall_nil; tauto). reflexivity.
Qed.

Lemma acc_0 a : u32 a = a -> acc a 0 = a.
Proof. intros H. unfold acc. by rewrite Z.add_0_r. Qed.

(** Masking a word that reads past the key keeps the key's bytes. *)
Lemma land1 b0 x : 0 <= b0 < 256 -> Z.land (b0 + 256 * x) 0xff = b0 + 256 * 0.
Proof. intros. rewrite (land_mask _ 8 ltac:(lia) : Z.land _ 255 = _). change (2 ^ 8) with 256. rewrite Z.mul_comm, Z.mod_add, Z.mod_small by lia. lia. Qed.

Lemma land2 b0 b1 x : 0 <= b0 < 256 -> 0 <= b1 < 256 -> Z.land (b0 + 256 * (b1 + 256 * x)) 0xffff = b0 + 256 * (b1 + 256 * 0).
Proof.
  intros. rewrite (land_mask _ 16 ltac:(lia) : Z.land _ 65535 = _). change (2 ^ 16) with 65536.
  replace (b0 + 256 * (b1 + 256 * x)) with (b0 + 256 * b1 + x * 65536) by lia. rewrite Z.mod_add, Z.mod_small by lia. lia.
Qed.

Lemma land3 b0 b1 b2 x : 0 <= b0 < 256 -> 0 <= b1 < 256 -> 0 <= b2 < 256 ->
  Z.land (b0 + 256 * (b1 + 256 * (b2 + 256 * x))) 0xffffff = b0 + 256 * (b1 + 256 * (b2 + 256 * 0)).
Proof.
  intros. rewrite (land_mask _ 24 ltac:(lia) : Z.land _ 16777215 = _). change (2 ^ 24) with 16777216.
  replace (b0 + 256 * (b1 + 256 * (b2 + 256 * x))) with (b0 + 256 * b1 + 65536 * b2 + x * 16777216) by lia.
  rewrite Z.mod_add, Z.mod_small by lia. lia.
Qed.

(** What every branch does with the last block. *)
Definition tail_ok (tail : list Z -> Z -> Z * Z * Z -> option (option (Z * Z * Z))) : Prop :=
  forall key slack s, bytes_ok key -> zlen key <= 12 -> (3 <= length slack)%nat -> in32 s ->
  tail (key ++ slack) (zlen key) s = Some (if zlen key =? 0 then None else Some (add_block key s)).

(** One case per length. *)
Ltac tails :=
  let key := fresh "key" in let slack := fresh "slack" in let a := fresh "a" in let b := fresh "b" in let c := fresh "c" in
  let Hk := fresh "Hk" in let Hl := fresh "Hl" in
  intros key slack [[a b] c] Hk Hl Hs [Ha [Hb Hc]];
  do 3 (destruct slack as [|? slack]; [exfalso; cbn [length] in Hs; lia |]); clear Hs;
  do 13 (try (destruct key as [|? key]; [| apply Forall_cons in Hk as [? Hk]]));
  try (exfalso; cbn [length] in Hl; lia); clear Hl Hk; cbn [app];
  match goal with |- context [zlen ?k] => let v := eval vm_compute in (zlen k) in change (zlen k) with v end;
  cbn [Z.eqb Pos.eqb]; try reflexivity; unfold add_block.

Lemma tail32_ok : tail_ok tail32.
Proof.
  tails; unfold tail32; reads; rewrite ?land1, ?land2, ?land3 by lia; rewrite ?acc_0 by done; reflexivity.
Qed.

(** Equal sums inside [acc]. *)
Ltac acc_eq :=
  rewrite ?pair16, ?shl_byte by lia; rewrite ?acc_acc; rewrite ?acc_0 by done; eqs.

Lemma tail16_ok : tail_ok tail16.
Proof. tails; unfold tail16; reads; acc_eq. Qed.

Lemma tail8_ok : tail_ok tail8.
Proof. tails; unfold tail8; cbn [Z.leb Z.compare Pos.compare Pos.compare_cont andb]; reads; acc_eq. Qed.

Lemma u32_lxor a b : u32 a = a -> u32 b = b -> u32 (Z.lxor a b) = Z.lxor a b.
Proof. intros Ha Hb. rewrite uwrap_lxor by lia. congruence. Qed.

Lemma u32_idem x : u32 (u32 x) = u32 x.
Proof. apply uwrap_idemp; lia. Qed.

Lemma u32_rot x k : u32 x = x -> 0 <= k <= 32 -> u32 (rot x k) = rot x k.
Proof.
  intros Hx Hk. unfold rot, uwrap in *. apply Z.bits_inj'. intros i Hi. destruct (Z.lt_ge_cases i 32); [by rewrite Z.mod_pow2_bits_low by lia |].
  rewrite Z.mod_pow2_bits_high, Z.lor_spec, Z.mod_pow2_bits_high, Z.shiftr_spec by lia.
  rewrite <- Hx, Z.mod_pow2_bits_high by lia. done.
Qed.

Lemma in32_mix1 k a b c : u32 c = c -> 0 <= k <= 32 -> u32 (mix1 k a b c).1 = (mix1 k a b c).1 /\ u32 (mix1 k a b c).2 = (mix1 k a b c).2.
Proof. intros Hc Hk. split; [apply u32_lxor; [apply u32_idem | by apply u32_rot] | apply u32_idem]. Qed.

Lemma in32_mix s : in32 s -> in32 (mix s).
Proof.
  destruct s as [[a b] c]. intros (Ha & Hb & Hc). unfold mix.
  repeat match goal with
  | |- context [mix1 ?k ?a ?b ?c] =>
      let x := fresh "x" in let y := fresh "y" in let H := fresh "H" in
      pose proof (in32_mix1 k a b c ltac:(assumption) ltac:(lia)) as H; destruct (mix1 k a b c) as [x y]; cbn [fst snd] in H; destruct H
  end. done.
Qed.

Lemma in32_add_block key s : in32 (add_block key s).
Proof. destruct s as [[a b] c]. split_and!; apply u32_idem. Qed.

Lemma jenkins_branch block tail :
  (forall p s, bytes_ok p -> 12 <= zlen p -> block p s = Some (add_block (take 12 p) s)) -> tail_ok tail ->
  forall fuel key slack s, bytes_ok (key ++ slack) -> (3 <= length slack)%nat -> in32 s -> (length key < fuel)%nat ->
  ('(p, l, s) ← jenkins_loop block fuel (key ++ slack) (zlen key) s; t ← tail p l s;
   Some (match t with Some s => final s | None => s.2 end)) = Some (jenkins_ref fuel key s).
Proof.
  intros Hblock Htail. induction fuel as [|fuel IH]; intros key slack s Hok Hsl Hs Hf; [lia |].
  cbn [jenkins_loop jenkins_ref]. rewrite !Z.gtb_ltb. destruct (Z.ltb_spec 12 (zlen key)).
  - rewrite Hblock by (done || rewrite length_app; lia). cbn [mbind option_bind].
    rewrite take_app_le, drop_app_le by lia. replace (zlen key - 12) with (zlen (drop 12 key)) by (rewrite length_drop; lia).
    apply IH; [|done | apply in32_mix, in32_add_block | rewrite length_drop; lia].
    rewrite <- drop_app_le by lia. by apply Forall_drop.
  - cbn [mbind option_bind]. apply Forall_app in Hok as [Hk _]. rewrite Htail by (done || lia). cbn [mbind option_bind].
    by destruct (zlen key =? 0).
Qed.

(** [hash_jenkins] depends on the bytes of the key only: the word, half-word
    and byte branches taken for the three alignments of the key agree, and the
    bytes past the end that the word branch reads and masks do not matter. *)
Theorem hash_jenkins_alignment addr key slack : bytes_ok (key ++ slack) -> (3 <= length slack)%nat ->
  hash_jenkins addr (key ++ slack) (zlen key) = Some (jenkins key).
Proof.
  intros Hok Hsl. unfold hash_jenkins, jenkins. rewrite Nat2Z.id.
  assert (Hin : forall x, in32 (u32 x, u32 x, u32 x)) by (intros; split_and!; apply u32_idem).
  destruct (_ =? 0); [apply (jenkins_branch _ _ block32_spec tail32_ok); auto with lia |].
  destruct (_ =? 0); [apply (jenkins_branch _ _ block16_spec tail16_ok) | apply (jenkins_branch _ _ block8_spec tail8_ok)]; auto with lia.
Qed.

Lemma hash_jenkins_alignment_witness :
  hash_jenkins 4 ([104; 101; 108; 108; 111; 32; 119; 111; 114; 108; 100; 33; 33; 33] ++ [1; 2; 3]) 14 =
  Some (jenkins [104; 101; 108; 108; 111; 32; 119; 111; 114; 108; 100; 33; 33; 33]).
Proof.
  apply (hash_jenkins_alignment 4 [104; 101; 108; 108; 111; 32; 119; 111; 114; 108; 100; 33; 33; 33] [1; 2; 3]);
    [repeat constructor; lia | cbn; lia].
Defined.

(** ** Dispatch *)

Lemma ketama_search_spec cs hash fuel : forall left right, 0 <= left <= right -> right <= zlen cs -> right - left < Z.of_nat fuel ->
  Sorted Z.le (value <$> cs) ->
  (forall (i : nat) c, cs !! i = Some c -> Z.of_nat i < left -> value c < hash) ->
  (forall (i : nat) c, cs !! i = Some c -> right <= Z.of_nat i -> hash <= value c) ->
  exists r, ketama_search fuel cs hash left right = Some r /\ left <= r <= right /\
    (forall (i : nat) c, cs !! i = Some c -> Z.of_nat i < r -> value c < hash) /\
    (forall (i : nat) c, cs !! i = Some c -> r <= Z.of_nat i -> hash <= value c).
Proof.
  induction fuel as [|fuel IH]; intros l r Hlr Hr Hf Hs Hlo Hhi; [lia |]. cbn [ketama_search].
  destruct (Z.ltb_spec l r); [|exists r; split_and!; auto; try lia; intros i c Hi Hlt; apply (Hlo i c Hi); lia].
  set (m := l + (r - l) / 2). pose proof (Z.div_lt (r - l) 2 ltac:(lia) ltac:(lia)). pose proof (Z.div_pos (r - l) 2 ltac:(lia) ltac:(lia)).
  destruct (lookup_lt_is_Some_2 cs (Z.to_nat m)) as [c Hc]; [lia |]. rewrite Hc. cbn [mbind option_bind].
  assert (Hmono : forall (i j : nat) x y, (i <= j)%nat -> cs !! i = Some x -> cs !! j = Some y -> value x <= value y).
  { intros i j x y Hij Hx Hy. apply Sorted_StronglySorted in Hs; [|intros ???; lia].
    destruct (decide (i = j)) as [-> |]; [simplify_eq; lia |].
    apply (sorted_lookup Z.le (value <$> cs) i j); rewrite ?list_lookup_fmap, ?Hx, ?Hy; done || lia. }
  destruct (Z.ltb_spec (value c) hash).
  - destruct (IH (m + 1) r) as (r' & Heq & ? & ? & ?); auto; try lia.
    + intros i x Hi Hlt. assert (value x <= value c) by (apply (Hmono i (Z.to_nat m)); auto; lia). lia.
    + exists r'. split_and!; auto; lia.
  - destruct (IH l m) as (r' & Heq & ? & ? & ?); auto; try lia.
    + intros i x Hi Hge. assert (value c <= value x) by (apply (Hmono (Z.to_nat m) i); auto; lia). lia.
    + exists r'. split_and!; auto; lia.
Qed.

(** [ketama_dispatch] on a sorted, non-empty continuum finds the first point
    at or after the hash on the ring, wrapping around to the first point when
    the hash is past them all; the search terminates and stays in bounds. *)
Theorem ketama_dispatch_correct cs hash : Sorted Z.le (value <$> cs) -> cs <> [] ->
  exists (i : nat) c, ketama_dispatch cs hash = Some (index c) /\ cs !! i = Some c /\
    ((hash <= value c /\ forall (j : nat) x, cs !! j = Some x -> (j < i)%nat -> value x < hash) \/
     (i = 0%nat /\ forall (j : nat) x, cs !! j = Some x -> value x < hash)).
Proof.
  intros Hs Hne. unfold ketama_dispatch. assert (0 < zlen cs) by (destruct cs; [done | simpl; lia]). zguard.
  destruct (ketama_search_spec cs hash (S (length cs)) 0 (zlen cs)) as (r & -> & Hr & Hlo & Hhi); auto; try lia.
  { intros i c Hi. apply lookup_lt_Some in Hi. lia. }
  cbn [mbind option_bind]. destruct (Z.eqb_spec r (zlen cs)) as [-> |].
  - destruct (lookup_lt_is_Some_2 cs 0) as [c Hc]; [lia |]. exists 0%nat, c. change (Z.to_nat 0) with 0%nat. rewrite Hc.
    split; [done |]. split; [done |]. right. split; [done |]. intros j x Hj. apply (Hlo j x Hj). apply lookup_lt_Some in Hj. lia.
  - destruct (lookup_lt_is_Some_2 cs (Z.to_nat r)) as [c Hc]; [lia |]. exists (Z.to_nat r), c. rewrite Hc.
    split; [done |]. split; [done |]. left. split; [apply (Hhi _ c Hc); lia |]. intros j x Hj Hlt. apply (Hlo j x Hj). lia.
Qed.

Lemma ketama_dispatch_correct_witness : exists (i : nat) c,
  ketama_dispatch [mk_continuum 7 10; mk_continuum 8 20; mk_continuum 9 30] 25 = Some (index c) /\
  [mk_continuum 7 10; mk_continuum 8 20; mk_continuum 9 30] !! i = Some c /\
  ((25 <= value c /\ forall (j : nat) x, [mk_continuum 7 10; mk_continuum 8 20; mk_continuum 9 30] !! j = Some x -> (j < i)%nat -> value x < 25) \/
   (i = 0%nat /\ forall (j : nat) x, [mk_continuum 7 10; mk_continuum 8 20; mk_continuum 9 30] !! j = Some x -> value x < 25)).
Proof.
  apply (ketama_dispatch_correct [mk_continuum 7 10; mk_continuum 8 20; mk_continuum 9 30] 25); [|done].
  repeat constructor; cbn; lia.
Defined.

End HashKit.
