(* ===== verification/ObjDict.v ===== *)
(** * Hash tables of string objects (vr_server.c)

    The callbacks of [setDictType] and [hashDictType]: string objects hash and
    compare by the bytes they denote, whatever their encodings.  This makes the
    tables of Dict available for objects, as an instance of its interface. *)

From stdpp Require Import gmap.
From S2P Require Import Prelude Bytes Bits NumConv Object HashKit Dict DictInv.
Import NumConv Object HashKit Dict DictInv.

Module ObjDict.

(** ** The callbacks *)

Definition dictSdsKeyCompare (a b : list Z) : bool :=
  if zlen a =? zlen b then memcmp a b =? 0 else false.

(** [None] is the assertion of [getDecodedObject] on objects that are no strings. *)
Definition dictEncObjKeyCompare (o1 o2 : robj) : option bool :=
  match o1, o2 with
  | IntObj _ z1, IntObj _ z2 => Some (z1 =? z2)
  | _, _ =>
      d1 ← getDecodedObject o1;
      d2 ← getDecodedObject o2;
      match d1, d2 with
      | SdsObj _ _ s1, SdsObj _ _ s2 => Some (dictSdsKeyCompare s1 s2)
      | _, _ => None
      end
  end.

(** [seed] is the static [dict_hash_function_seed]. *)
Definition dictEncObjHash (seed : Z) (o : robj) : option Z :=
  match o with
  | SdsObj _ _ s => dictGenHashFunction seed s
  | IntObj _ z => s ← ll_buf 32 z; dictGenHashFunction seed s
  | OtherObj _ _ => None
  end.

(** ** String objects *)

#[export] Instance bytes_ok_dec s : Decision (bytes_ok s).
Proof. unfold bytes_ok. apply _. Defined.

Definition str_obj (o : robj) : bool :=
  match o with
  | SdsObj _ _ s => bool_decide (bytes_ok s)
  | IntObj _ z => (LLONG_MIN <=? z) && (z <=? LLONG_MAX)
  | OtherObj _ _ => false
  end.

Definition elem : Type := { o : robj | str_obj o = true }.

Definition to_elem (o : robj) : option elem :=
  match bool_dec (str_obj o) true with
  | left H => Some (exist _ o H)
  | right _ => None
  end.

(** The bytes of an element. *)
Definition bytes_of (e : elem) : list Z := default [] (sval (proj1_sig e)).

Lemma str_obj_spec o : str_obj o = true <-> robj_ok o /\ exists s, sval o = Some s.
Proof.
  destruct o as [e c s | c z | t p]; cbn [str_obj robj_ok sval].
  - rewrite bool_decide_eq_true. split; [eauto | by intros [? _]].
  - unfold int64. split; [intros H; zbool; eauto | intros [H _]]. apply andb_true_iff. by rewrite !Z.leb_le.
  - split; [done | by intros [_ [s ?]]].
Qed.

Lemma elem_ok (e : elem) : robj_ok (proj1_sig e) /\ sval (proj1_sig e) = Some (bytes_of e).
Proof.
  destruct e as [o H]. apply str_obj_spec in H as Ho. destruct Ho as (Hok & s & Hs). unfold bytes_of. cbn. by rewrite Hs.
Qed.

Lemma to_elem_spec o s : robj_ok o -> sval o = Some s -> exists e, to_elem o = Some e /\ bytes_of e = s /\ proj1_sig e = o.
Proof.
  intros Hok Hs. unfold to_elem. assert (Ho : str_obj o = true) by (apply str_obj_spec; eauto). destruct (bool_dec (str_obj o) true) as [H|]; [|done].
  eexists. split; [done |]. unfold bytes_of. cbn. by rewrite Hs.
Qed.

(** ** The laws *)

Lemma memcmp_eq a : forall b, length a = length b -> memcmp a b = 0 <-> a = b.
Proof.
  induction a as [|x a IH]; intros [|y b] Hl; cbn in *; try done. destruct (Z.eqb_spec x y) as [-> | Hne].
  - rewrite IH by lia. split; [by intros -> | by intros [=]].
  - split; [lia | by intros [=]].
Qed.

Lemma sdsKeyCompare_spec a b : dictSdsKeyCompare a b = bool_decide (a = b).
Proof.
  unfold dictSdsKeyCompare. destruct (Z.eqb_spec (zlen a) (zlen b)) as [Hl | Hl].
  - pose proof (memcmp_eq a b ltac:(lia)). destruct (Z.eqb_spec (memcmp a b) 0); symmetry; [rewrite bool_decide_eq_true | rewrite bool_decide_eq_false]; tauto.
  - symmetry. apply bool_decide_eq_false. by intros ->.
Qed.

(** Objects compare equal exactly when they denote the same bytes. *)
Lemma keyCompare_spec o1 o2 s1 s2 : robj_ok o1 -> robj_ok o2 -> sval o1 = Some s1 -> sval o2 = Some s2 ->
  dictEncObjKeyCompare o1 o2 = Some (bool_decide (s1 = s2)).
Proof.
  intros Hok1 Hok2 Hs1 Hs2. destruct (getDecoded_spec o1 s1 Hok1 Hs1) as (d1 & e1 & c1 & Hd1 & ->). destruct (getDecoded_spec o2 s2 Hok2 Hs2) as (d2 & e2 & c2 & Hd2 & ->).
  assert (Hgen : (d1 ← getDecodedObject o1; d2 ← getDecodedObject o2;
      match d1, d2 with SdsObj _ _ s1, SdsObj _ _ s2 => Some (dictSdsKeyCompare s1 s2) | _, _ => None end) = Some (bool_decide (s1 = s2)))
    by (rewrite Hd1, Hd2; cbn; by rewrite sdsKeyCompare_spec).
  destruct o1 as [? ? p1 | ? z1 | ], o2 as [? ? p2 | ? z2 | ]; try done. cbn [dictEncObjKeyCompare]. cbn in Hs1, Hs2, Hok1, Hok2. simplify_eq. f_equal.
  destruct (Z.eqb_spec z1 z2) as [-> | Hne]; symmetry; [by apply bool_decide_eq_true |]. apply bool_decide_eq_false. intros Heq. by apply Hne, dec_string_inj.
Qed.

Lemma murmur_loop_total n : forall data h, 4 * Z.of_nat n <= zlen data -> exists h', murmur_loop n data h = Some (drop (4 * n) data, h').
Proof.
  induction n as [|n IH]; intros data h Hl; cbn [murmur_loop]; [by exists h |].
  destruct (take_drop_app data 4) as (x & y & -> & Hx); [lia |]. rewrite bread_start by lia. cbn [mbind option_bind]. rewrite length_app in Hl.
  rewrite drop_app_exact by done. edestruct IH as [h' ->]; [lia |]. exists h'. do 2 f_equal. replace (4 * S n)%nat with (length x + 4 * n)%nat by lia.
  by rewrite <- drop_drop, drop_app_length.
Qed.

Lemma murmur_total seed data : exists h, murmur seed data = Some h /\ 0 <= h < 2 ^ 32.
Proof.
  unfold murmur. destruct (murmur_loop_total (Z.to_nat (zlen data / 4)) data (Z.lxor seed (u32 (zlen data)))) as [h ->].
  { Z.to_euclidean_division_equations. lia. }
  cbn [mbind option_bind]. set (rest := drop _ data). assert (Hr : zlen rest = zlen data mod 4).
  { subst rest. rewrite length_drop. Z.to_euclidean_division_equations. lia. }
  assert (Hm : 0 <= zlen data mod 4 < 4) by (apply Z.mod_pos_bound; lia). rewrite <- Hr in *. clearbody rest.
  assert (Ht : exists h', murmur_tail (zlen rest) rest h = Some h').
  { unfold murmur_tail. destruct rest as [|b0 [|b1 [|b2 [|]]]]; cbn [length] in *; try lia; cbn; eauto. }
  destruct Ht as [h' ->]. cbn [mbind option_bind]. eexists. split; [done |]. unfold murmur_final, xor_shr.
  set (v := u32 _). assert (Hv : 0 <= v < 2 ^ 32) by (apply uwrap_range; lia). clearbody v.
  rewrite <- u32_lxor; [apply uwrap_range; lia | by apply uwrap_small |]. apply uwrap_small. rewrite Z.shiftr_div_pow2 by lia. Z.to_euclidean_division_equations. lia.
Qed.

Lemma hash_spec seed o s : robj_ok o -> sval o = Some s -> dictEncObjHash seed o = murmur seed s.
Proof.
  intros Hok Hs. destruct o as [e c p | c z | ]; cbn [dictEncObjHash sval robj_ok] in *; simplify_eq; [done |]. by rewrite ll_buf_spec by (done || lia).
Qed.

(** ** The instance *)

Section Instance.
Context (seed : Z) (V : Type).

Definition objDictType : DictType elem V := {|
  hashFunction e := default 0 (dictEncObjHash seed (proj1_sig e));
  keyCompare e1 e2 := default false (dictEncObjKeyCompare (proj1_sig e1) (proj1_sig e2));
  keyDup e := e;
  valDup v := v
|}.

#[local] Existing Instance objDictType.

Lemma obj_compare (e1 e2 : elem) : keyCompare e1 e2 = bool_decide (bytes_of e1 = bytes_of e2).
Proof.
  destruct (elem_ok e1) as [H1 S1]. destruct (elem_ok e2) as [H2 S2]. unfold keyCompare, objDictType. by rewrite (keyCompare_spec _ _ _ _ H1 H2 S1 S2).
Qed.

Lemma obj_hash (e : elem) : Some (hashFunction e) = murmur seed (bytes_of e) /\ 0 <= hashFunction e < 2 ^ 32.
Proof.
  destruct (elem_ok e) as [H S]. unfold hashFunction, objDictType. rewrite (hash_spec seed _ _ H S). by destruct (murmur_total seed (bytes_of e)) as (h & -> & Hh).
Qed.

Lemma objDictLaws : DictTypeLaws elem V.
Proof.
  split.
  - intros k. apply obj_hash.
  - intros k. rewrite obj_compare. by apply bool_decide_eq_true.
  - intros k1 k2. rewrite !obj_compare. by apply bool_decide_ext.
  - intros k1 k2 k3. rewrite !obj_compare, !bool_decide_eq_true. congruence.
  - intros k1 k2. rewrite obj_compare, bool_decide_eq_true. intros Heq. destruct (obj_hash k1) as [H1 _]. destruct (obj_hash k2) as [H2 _]. congruence.
  - intros k. rewrite obj_compare. by apply bool_decide_eq_true.
Qed.
End Instance.

End ObjDict.
