(* ===== verification/StringMatch.v ===== *)
(** * Glob patterns (vr_util.c)

    [stringmatchlen] walks a pattern and a string with positions and remaining
    lengths; both strings are terminated, so the byte just past the end reads as
    0 and anything further is out of bounds ([None]).  Against it stands a
    declarative reading: a pattern is a list of items, and matching is a
    relation. *)

From S2P Require Import Prelude Bytes.

Module StringMatch.

(** [s[i]] of a terminated string. *)
Definition rd (s : list Z) (i : Z) : option Z :=
  if (0 <=? i) && (i <? zlen s) then s !! Z.to_nat i else if i =? zlen s then Some 0 else None.

Definition tolower (c : Z) : Z := if (65 <=? c) && (c <=? 90) then c + 32 else c.

Section Match.
Context (pat str : list Z) (nocase : bool).

(** Skip to the last of several stars. *)
Fixpoint skip_stars (fuel : nat) (i n : Z) : option (Z * Z) :=
  match fuel with
  | O => None
  | S fuel => c ← rd pat (i + 1); if c =? 42 then skip_stars fuel (i + 1) (n - 1) else Some (i, n)
  end.

(** The stars left when the string is used up. *)
Fixpoint trailing_stars (fuel : nat) (i n : Z) : option (Z * Z) :=
  match fuel with
  | O => None
  | S fuel => c ← rd pat i; if c =? 42 then trailing_stars fuel (i + 1) (n - 1) else Some (i, n)
  end.

Definition same (p c : Z) : bool := if negb nocase then p =? c else tolower p =? tolower c.

(** The characters are signed where they are compared by order. *)
Definition in_range (start end_ c : Z) : bool :=
  let '(start, end_, c) := (swrap 8 start, swrap 8 end_, swrap 8 c) in
  let '(start, end_) := if start >? end_ then (end_, start) else (start, end_) in
  let '(start, end_, c) := if nocase then (tolower start, tolower end_, tolower c) else (start, end_, c) in
  (c >=? start) && (c <=? end_).

(** The loop over a bracket expression for the character at [j]. *)
Fixpoint class_loop (fuel : nat) (i n j : Z) (mtch : bool) : option (Z * Z * bool) :=
  match fuel with
  | O => None
  | S fuel =>
      p ← rd pat i;
      if p =? 92 then
        let i := i + 1 in
        let n := n - 1 in
        p ← rd pat i; c ← rd str j;
        class_loop fuel (i + 1) (n - 1) j (if p =? c then true else mtch)
      else if p =? 93 then Some (i, n, mtch)
      else if n =? 0 then Some (i - 1, n + 1, mtch)
      else
        q ← rd pat (i + 1);
        if (q =? 45) && (n >=? 3) then
          end_ ← rd pat (i + 2); c ← rd str j;
          class_loop fuel (i + 2 + 1) (n - 2 - 1) j (if in_range p end_ c then true else mtch)
        else
          c ← rd str j;
          class_loop fuel (i + 1) (n - 1) j (if same p c then true else mtch)
  end.

(** The end of an iteration: go on, or leave the loop when the string is used up. *)
Definition finish (rec : Z -> Z -> Z -> Z -> option bool) (i n j m : Z) : option bool :=
  let i := i + 1 in
  let n := n - 1 in
  if m =? 0 then
    '(i, n) ← trailing_stars (S (length pat)) i n;
    Some ((n =? 0) && (m =? 0))
  else rec i n j m.

(** The rest of the pattern against every suffix of the string. *)
Fixpoint star_loop (rec : Z -> Z -> option bool) (k : nat) (j m : Z) : option bool :=
  match k with
  | O => None
  | S k =>
      if m =? 0 then Some false
      else r ← rec j m; if (r : bool) then Some true else star_loop rec k (j + 1) (m - 1)
  end.

Fixpoint glob_loop (fuel : nat) (i n j m : Z) : option bool :=
  match fuel with
  | O => None
  | S fuel =>
      if n =? 0 then Some ((n =? 0) && (m =? 0))
      else
        p ← rd pat i;
        let literal (i n : Z) :=
          p ← rd pat i; c ← rd str j;
          if negb (same p c) then Some false else finish (glob_loop fuel) i n (j + 1) (m - 1) in
        if p =? 42 then
          '(i, n) ← skip_stars (S (length pat)) i n;
          if n =? 1 then Some true
          else star_loop (glob_loop fuel (i + 1) (n - 1)) (S (length str)) j m
        else if p =? 63 then
          if m =? 0 then Some false else finish (glob_loop fuel) i n (j + 1) (m - 1)
        else if p =? 91 then
          let i := i + 1 in
          let n := n - 1 in
          p ← rd pat i;
          let not_ := p =? 94 in
          let '(i, n) := if not_ then (i + 1, n - 1) else (i, n) in
          '(i, n, mtch) ← class_loop (S (S (length pat))) i n j false;
          let mtch := if not_ then negb mtch else mtch in
          if negb mtch then Some false else finish (glob_loop fuel) i n (j + 1) (m - 1)
        else if p =? 92 then
          if n >=? 2 then literal (i + 1) (n - 1) else literal i n
        else literal i n
  end.

Definition stringmatchlen : option bool := glob_loop (S (length pat)) 0 (zlen pat) 0 (zlen str).

End Match.

(** ** Patterns *)

(** One element of a bracket expression. *)
Inductive member := Exact (c : Z) | Single (c : Z) | Range (a b : Z).
Inductive item := Star | Any | OneOf (neg : bool) (ms : list member) | Char (c : Z).

(** The members up to the closing bracket, or to the end when it is missing;
    [None] for an escape with nothing behind it. *)
Fixpoint parse_class (fuel : nat) (p : list Z) : option (list member * list Z) :=
  match fuel with
  | O => None
  | S fuel =>
      let cons m p := '(ms, rest) ← parse_class fuel p; Some (m :: ms, rest) in
      match p with
      | [] => Some ([], [])
      | c :: p =>
          if c =? 92 then match p with [] => None | x :: p => cons (Exact x) p end
          else if c =? 93 then Some ([], p)
          else
            match p with
            | d :: e :: p' => if d =? 45 then cons (Range c e) p' else cons (Single c) p
            | _ => cons (Single c) p
            end
      end
  end.

Fixpoint parse (fuel : nat) (p : list Z) : option (list item) :=
  match fuel with
  | O => None
  | S fuel =>
      let cons x p := xs ← parse fuel p; Some (x :: xs) in
      match p with
      | [] => Some []
      | c :: p =>
          if c =? 42 then cons Star p
          else if c =? 63 then cons Any p
          else if c =? 91 then
            let '(neg, q) := match p with d :: q => if d =? 94 then (true, q) else (false, p) | [] => (false, p) end in
            '(ms, rest) ← parse_class (S (length q)) q;
            cons (OneOf neg ms) rest
          else if c =? 92 then match p with x :: p => cons (Char x) p | [] => cons (Char 92) p end
          else cons (Char c) p
      end
  end.

Definition pattern (p : list Z) : option (list item) := parse (S (length p)) p.

Section Spec.
Context (nocase : bool).

Definition member_ok (c : Z) (m : member) : bool :=
  match m with Exact x => x =? c | Single x => same nocase x c | Range a b => in_range nocase a b c end.

Inductive Matches : list item -> list Z -> Prop :=
  | MEnd : Matches [] []
  | MStar ps s : Matches ps s -> Matches (Star :: ps) s
  | MSkip ps c s : Matches (Star :: ps) s -> Matches (Star :: ps) (c :: s)
  | MAny ps c s : Matches ps s -> Matches (Any :: ps) (c :: s)
  | MOneOf neg ms ps c s : existsb (member_ok c) ms = negb neg -> Matches ps s -> Matches (OneOf neg ms :: ps) (c :: s)
  | MChar x ps c s : same nocase x c = true -> Matches ps s -> Matches (Char x :: ps) (c :: s).

End Spec.

(** ** Reading at a position *)

Lemma rd_at pre p : rd (pre ++ p) (zlen pre) = Some (hd 0 p).
Proof.
  unfold rd. rewrite length_app. destruct p as [|c p]; cbn [length hd].
  - rewrite Nat.add_0_r. do 2 zguard. cbn [andb]. by rewrite Z.eqb_refl.
  - do 2 zguard. cbn [andb]. rewrite Nat2Z.id, lookup_app_r, Nat.sub_diag by lia. done.
Qed.

Lemma rd_past pre x p : rd (pre ++ x :: p) (zlen pre + 1) = Some (hd 0 p).
Proof.
  replace (pre ++ x :: p) with ((pre ++ [x]) ++ p) by (by rewrite <- app_assoc). replace (zlen pre + 1) with (zlen (pre ++ [x])) by (rewrite length_app; cbn; lia). apply rd_at.
Qed.

Lemma app_snoc (l : list Z) b t : l ++ b :: t = (l ++ [b]) ++ t.
Proof. by rewrite <- app_assoc. Qed.

Lemma zlen_cons (b : Z) l : zlen (b :: l) = zlen l + 1.
Proof. cbn [length]. lia. Qed.

Section Correct.
Context (nocase : bool) (pat str : list Z).

(** ** Bracket expressions *)

Lemma class_loop_ok fuel' : forall F pre p ms rest j c b, parse_class fuel' p = Some (ms, rest) -> pat = pre ++ p -> rd str j = Some c -> (length p < F)%nat ->
  exists i n, class_loop pat str nocase F (zlen pre) (zlen p) j b = Some (i, n, b || existsb (member_ok nocase c) ms) /\
    i + 1 = zlen pat - zlen rest /\ n - 1 = zlen rest /\ exists pre', pat = pre' ++ rest.
Proof.
  induction fuel' as [|fuel' IH]; intros F pre p ms rest j c b Hp -> Hc HF; [done |]. destruct F as [|F]; [lia |]. cbn [class_loop]. rewrite rd_at. cbn [mbind option_bind].
  assert (Hcons : forall m (x : list Z) q i' b', (1 <= length x)%nat -> p = x ++ q -> ('(ms, rest) ← parse_class fuel' q; Some (m :: ms, rest)) = Some (ms, rest) ->
    i' = zlen pre + zlen x -> b' = b || member_ok nocase c m ->
    exists i n, class_loop (pre ++ p) str nocase F i' (zlen p - zlen x) j b' = Some (i, n, b || existsb (member_ok nocase c) ms) /\
      i + 1 = zlen (pre ++ p) - zlen rest /\ n - 1 = zlen rest /\ exists pre', pre ++ p = pre' ++ rest).
  { intros m x q i' b' Hx -> Hq -> ->. destruct (parse_class fuel' q) as [[ms' rest'] |] eqn:E; [|done]. injection Hq as <- <-.
    destruct (IH F (pre ++ x) q ms' rest' j c (b || member_ok nocase c m) E) as (i & n & H1 & H2); [by rewrite <- app_assoc | done | rewrite length_app in HF; lia |].
    exists i, n. split; [|exact H2]. cbn [existsb]. rewrite orb_assoc, <- H1. rewrite !length_app. f_equal; lia. }
  cbn [parse_class] in Hp. destruct p as [|p0 p]; cbn [hd].
  { injection Hp as <- <-. cbn [Z.eqb length Z.of_nat]. eexists _, _. split; [by rewrite orb_false_r |]. rewrite app_nil_r. split; [cbn; lia |]. split; [done |]. exists pre. by rewrite app_nil_r. }
  destruct (Z.eqb_spec p0 92) as [-> | H92].
  - destruct p as [|x p]; [done |]. rewrite rd_past. cbn [mbind option_bind hd]. rewrite Hc. cbn [mbind option_bind].
    replace (zlen (92 :: x :: p) - 1 - 1) with (zlen (92 :: x :: p) - zlen [92; x]) by (cbn [length]; lia).
    apply (Hcons (Exact x) [92; x] p); [cbn; lia | done | done | cbn; lia |]. cbn. destruct (x =? c); [by rewrite orb_true_r | by rewrite orb_false_r].
  - destruct (Z.eqb_spec p0 93) as [-> | H93].
    { injection Hp as <- <-. eexists _, _. split; [by rewrite orb_false_r |]. rewrite length_app, !zlen_cons. split; [cbn [length]; lia |]. split; [lia |]. exists (pre ++ [93]). by rewrite <- app_assoc. }
    rewrite (proj2 (Z.eqb_neq (zlen (p0 :: p)) 0)) by (cbn [length]; lia). rewrite rd_past. cbn [mbind option_bind].
    assert (Hsingle : ('(ms, rest) ← parse_class fuel' p; Some (Single p0 :: ms, rest)) = Some (ms, rest) ->
      exists i n, (c ← rd str j; class_loop (pre ++ p0 :: p) str nocase F (zlen pre + 1) (zlen (p0 :: p) - 1) j (if same nocase p0 c then true else b)) =
          Some (i, n, b || existsb (member_ok nocase c) ms) /\ i + 1 = zlen (pre ++ p0 :: p) - zlen rest /\ n - 1 = zlen rest /\ exists pre', pre ++ p0 :: p = pre' ++ rest).
    { intros Hs. rewrite Hc. cbn [mbind option_bind]. apply (Hcons (Single p0) [p0] p); [cbn; lia | done | done | cbn; lia |]. cbn.
      destruct (same nocase p0 c); [by rewrite orb_true_r | by rewrite orb_false_r]. }
    destruct p as [|d [|e p]]; cbn [hd].
    + cbn [Z.eqb andb]. by apply Hsingle.
    + replace ((d =? 45) && (zlen [p0; d] >=? 3)) with false by (by rewrite andb_false_r). by apply Hsingle.
    + rewrite Z.geb_leb, (proj2 (Z.leb_le 3 (zlen (p0 :: d :: e :: p)))) by (cbn [length]; lia). rewrite andb_true_r. destruct (Z.eqb_spec d 45) as [-> |]; [|by apply Hsingle].
      rewrite app_snoc. replace (zlen pre + 2) with (zlen (pre ++ [p0]) + 1) by (rewrite zlen_snoc; lia). rewrite rd_past. rewrite <- app_snoc. cbn [mbind option_bind hd]. rewrite Hc. cbn [mbind option_bind].
      replace (zlen (p0 :: 45 :: e :: p) - 2 - 1) with (zlen (p0 :: 45 :: e :: p) - zlen [p0; 45; e]) by (cbn [length]; lia).
      apply (Hcons (Range p0 e) [p0; 45; e] p); [cbn; lia | done | done | rewrite zlen_snoc; cbn; lia |]. cbn [member_ok].
      destruct (in_range nocase p0 e c); [by rewrite orb_true_r | by rewrite orb_false_r].
Qed.

(** ** Stars *)

Abbreviation stars k := (replicate k 42).

Lemma stars_split p : exists k q, p = stars k ++ q /\ hd 0 q <> 42.
Proof.
  induction p as [|c p (k & q & -> & Hq)]; [by exists 0%nat, [] |]. destruct (Z.eq_dec c 42) as [-> |].
  - by exists (S k), q.
  - exists 0%nat, (c :: stars k ++ q). done.
Qed.

Lemma skip_stars_ok F : forall k pre q, (k < F)%nat -> hd 0 q <> 42 -> pat = pre ++ 42 :: stars k ++ q ->
  skip_stars pat F (zlen pre) (zlen (42 :: stars k ++ q)) = Some (zlen pre + Z.of_nat k, zlen q + 1).
Proof.
  induction F as [|F IH]; intros k pre q Hk Hq E; [lia |]. cbn [skip_stars]. rewrite E at 1. rewrite rd_past. cbn [mbind option_bind]. destruct k as [|k]; cbn [replicate app hd].
  - rewrite (proj2 (Z.eqb_neq _ _) Hq). rewrite zlen_cons. f_equal. f_equal; lia.
  - cbn [Z.eqb Pos.eqb]. rewrite <- (zlen_snoc pre 42). rewrite zlen_cons. replace (zlen (42 :: replicate k 42 ++ q) + 1 - 1) with (zlen (42 :: replicate k 42 ++ q)) by lia.
    rewrite (IH k (pre ++ [42]) q) by (done || lia || by rewrite <- app_assoc). rewrite zlen_snoc. f_equal. f_equal. lia.
Qed.

Lemma trailing_stars_ok F : forall k pre q, (k < F)%nat -> hd 0 q <> 42 -> pat = pre ++ stars k ++ q ->
  trailing_stars pat F (zlen pre) (zlen (stars k ++ q)) = Some (zlen pre + Z.of_nat k, zlen q).
Proof.
  induction F as [|F IH]; intros k pre q Hk Hq E; [lia |]. cbn [trailing_stars]. rewrite E at 1. rewrite rd_at. cbn [mbind option_bind]. destruct k as [|k]; cbn [replicate app hd].
  - rewrite (proj2 (Z.eqb_neq _ _) Hq). f_equal. f_equal; lia.
  - cbn [Z.eqb Pos.eqb]. rewrite <- (zlen_snoc pre 42). rewrite zlen_cons, Z.add_simpl_r.
    rewrite (IH k (pre ++ [42]) q) by (done || lia || by rewrite <- app_assoc). rewrite zlen_snoc. f_equal. f_equal. lia.
Qed.

(** The items of a run of stars and what follows. *)
Lemma parse_stars k : forall f q xs, parse f (stars k ++ q) = Some xs -> exists f' ys, parse f' q = Some ys /\ xs = replicate k Star ++ ys.
Proof.
  induction k as [|k IH]; intros f q xs H; [by exists f, xs |]. destruct f as [|f]; [done |]. cbn [parse replicate app Z.eqb Pos.eqb] in H.
  destruct (parse f (stars k ++ q)) as [zs |] eqn:E; [|done]. injection H as <-. destruct (IH _ _ _ E) as (f' & ys & H1 & ->). by exists f', ys.
Qed.

Lemma parse_head f p xs : parse f p = Some xs -> p <> [] -> hd 0 p <> 42 -> exists x ys, xs = x :: ys /\ x <> Star.
Proof.
  destruct f as [|f]; [done |]. destruct p as [|c p]; [done |]. cbn [parse hd]. intros H _ Hc. rewrite (proj2 (Z.eqb_neq _ _) Hc) in H.
  repeat case_match; try done; try (destruct (parse f _); [|done]); try (destruct (parse_class _ _) as [[? ?] |]; [|done]; cbn in *; destruct (parse f _); [|done]); cbn in *; simplify_eq; eauto.
Qed.

Lemma matches_stars k xs : forall s, Matches nocase (replicate k Star ++ Star :: xs) s <-> Matches nocase (Star :: xs) s.
Proof.
  induction k as [|k IH]; intros s; [done |]. cbn [replicate app]. split.
  - intros H. remember (Star :: replicate k Star ++ Star :: xs) as l eqn:E. revert E. induction H as [| | ps c s H IH2 | | |]; intros E; try discriminate; injection E as ->.
    + by apply IH.
    + apply MSkip. by apply IH2.
  - intros H. by apply MStar, IH.
Qed.

Lemma matches_suffix xs s : Matches nocase (Star :: xs) s <-> exists u t, s = u ++ t /\ Matches nocase xs t.
Proof.
  split.
  - intros H. remember (Star :: xs) as l eqn:E. revert E. induction H as [| ps s H _ | ps c s H IH | | |]; intros E; try discriminate; injection E as ->.
    + by exists [], s.
    + destruct (IH eq_refl) as (u & t & -> & Ht). by exists (c :: u), t.
  - intros (u & t & -> & Ht). induction u as [|c u IH]; [by apply MStar | by apply MSkip].
Qed.

Lemma matches_empty xs : Matches nocase xs [] <-> exists k, xs = replicate k Star.
Proof.
  split.
  - intros H. remember [] as s eqn:E. revert E. induction H as [| ps s H IH | | | |]; intros E; try discriminate; [by exists 0%nat |]. destruct (IH E) as [k ->]. by exists (S k).
  - intros [k ->]. induction k; [constructor | by apply MStar].
Qed.

(** Nothing is left of the string: the rest of the pattern must be stars. *)
Lemma parse_empty_ok f k q xs : parse f (stars k ++ q) = Some xs -> hd 0 q <> 42 -> Matches nocase xs [] <-> q = [].
Proof.
  intros H Hq. destruct (parse_stars _ _ _ _ H) as (f' & ys & Hy & ->). rewrite matches_empty. split.
  - intros [n E]. destruct q as [|c q]; [done |]. destruct (parse_head _ _ _ Hy) as (x & zs & -> & Hx); [done | done |]. exfalso. apply Hx.
    assert (Hin : x ∈ replicate n Star) by (rewrite <- E; apply elem_of_app; right; apply elem_of_cons; by left). by apply elem_of_replicate in Hin as [-> _].
  - intros ->. destruct f'; [done |]. injection Hy as <-. exists k. by rewrite app_nil_r.
Qed.

(** ** The matcher *)

(** The empty string is not read past its terminator. *)
Definition safe (xs : list item) : Prop :=
  match xs with OneOf _ _ :: _ => False | Char x :: _ => same nocase x 0 = false | _ => True end.

(** The matcher at a suffix of the pattern and a suffix of the string. *)
Definition Decides (m : Z -> Z -> Z -> Z -> option bool) (len : nat) : Prop :=
  forall pre p spre s f xs, (length p < len)%nat -> pat = pre ++ p -> str = spre ++ s -> parse f p = Some xs -> s <> [] \/ safe xs ->
    exists b, m (zlen pre) (zlen p) (zlen spre) (zlen s) = Some b /\ (b = true <-> Matches nocase xs s).

Lemma finish_ok m len p spre c s f xs i n : Decides m len -> (length p < len)%nat -> (exists pre, pat = pre ++ p) -> i + 1 = zlen pat - zlen p -> n - 1 = zlen p ->
  str = spre ++ c :: s -> parse f p = Some xs ->
  exists b, finish pat m i n (zlen spre + 1) (zlen (c :: s) - 1) = Some b /\ (b = true <-> Matches nocase xs s).
Proof.
  intros Hm Hlen [pre Hpat] Hi Hn Hstr Hp. unfold finish. rewrite zlen_cons, Z.add_simpl_r, Hn. assert (Hpre : i + 1 = zlen pre) by (rewrite Hi, Hpat, length_app; lia). rewrite Hpre.
  destruct s as [|d s].
  - cbn [length Z.of_nat Z.eqb]. destruct (stars_split p) as (k & q & -> & Hq). rewrite (trailing_stars_ok _ k pre q); [| | done | done].
    2: { rewrite Hpat, !length_app, length_replicate. lia. }
    cbn [mbind option_bind]. eexists. split; [reflexivity |]. rewrite (parse_empty_ok _ _ _ _ Hp Hq), andb_true_r, Z.eqb_eq. destruct q; cbn [length]; [done |]. split; [lia | done].
  - rewrite (proj2 (Z.eqb_neq (zlen (d :: s)) 0)) by (cbn [length]; lia). rewrite <- (zlen_snoc spre c). apply (Hm pre p (spre ++ [c]) (d :: s) f xs); try done; [by rewrite <- app_assoc | by left].
Qed.

Lemma star_loop_ok rec xs : (forall spre s, str = spre ++ s -> s <> [] -> exists b, rec (zlen spre) (zlen s) = Some b /\ (b = true <-> Matches nocase xs s)) ->
  ~ Matches nocase xs [] -> forall s spre k, str = spre ++ s -> (length s < k)%nat ->
  exists b, star_loop rec k (zlen spre) (zlen s) = Some b /\ (b = true <-> Matches nocase (Star :: xs) s).
Proof.
  intros Hrec Hne. induction s as [|c s IH]; intros spre k Hstr Hk; (destruct k as [|k]; [lia |]); cbn [star_loop].
  - exists false. split; [done |]. split; [done |]. rewrite matches_suffix. intros (u & t & E & Ht). symmetry in E. apply app_nil in E as [_ ->]. done.
  - rewrite (proj2 (Z.eqb_neq _ 0)) by (cbn [length]; lia). destruct (Hrec spre (c :: s) Hstr) as (b & -> & Hb); [done |]. cbn [mbind option_bind]. destruct b.
    + exists true. split; [done |]. split; [|done]. intros _. apply MStar. by apply Hb.
    + rewrite <- (zlen_snoc spre c), zlen_cons, Z.add_simpl_r. destruct (IH (spre ++ [c]) k) as (b & -> & Hb'); [by rewrite <- app_assoc | cbn in Hk; lia |].
      exists b. split; [done |]. rewrite Hb'. rewrite !matches_suffix. split.
      * intros (u & t & -> & Ht). by exists (c :: u), t.
      * intros (u & t & E & Ht). destruct u as [|d u]; [cbn in E; subst t; exfalso; by apply Hb in Ht |]. injection E as -> ->. by exists u, t.
Qed.

Lemma literal_ok m len pre x p spre s f ys : Decides m len -> (length p < len)%nat -> pat = pre ++ x :: p -> str = spre ++ s -> parse f p = Some ys ->
  s <> [] \/ same nocase x 0 = false ->
  exists b, (y ← rd pat (zlen pre); c ← rd str (zlen spre); if negb (same nocase y c) then Some false else finish pat m (zlen pre) (zlen (x :: p)) (zlen spre + 1) (zlen s - 1)) = Some b /\
    (b = true <-> Matches nocase (Char x :: ys) s).
Proof.
  intros Hm Hlen Hpat Hstr Hp Hs. assert (Hr : rd pat (zlen pre) = Some x) by (rewrite Hpat; apply rd_at). assert (Hc : rd str (zlen spre) = Some (hd 0 s)) by (rewrite Hstr; apply rd_at).
  rewrite Hr. cbn [mbind option_bind]. rewrite Hc. cbn [mbind option_bind]. destruct s as [|c s]; cbn [hd].
  - destruct Hs as [|Hs]; [done |]. rewrite Hs. cbn [negb]. exists false. split; [done |]. split; [done | by inversion 1].
  - destruct (same nocase x c) eqn:Hsame; cbn [negb].
    + destruct (finish_ok m len p spre c s f ys (zlen pre) (zlen (x :: p))) as (b & Hb & Hbs); try done; [exists (pre ++ [x]); by rewrite <- app_assoc | rewrite Hpat, length_app; cbn [length]; lia | cbn [length]; lia |].
      exists b. split; [exact Hb |]. rewrite Hbs. split; [by constructor | by inversion 1].
    + exists false. split; [done |]. split; [done |]. inversion 1. congruence.
Qed.

Lemma class_ok m len pre (neg : bool) q ms rest spre c s f ys : Decides m len -> (length rest < len)%nat -> pat = pre ++ q -> str = spre ++ c :: s ->
  parse_class (S (length q)) q = Some (ms, rest) -> parse f rest = Some ys ->
  exists b, ('(i, n, mtch) ← class_loop pat str nocase (S (S (length pat))) (zlen pre) (zlen q) (zlen spre) false;
      let mtch := if neg then negb mtch else mtch in
      if negb mtch then Some false else finish pat m i n (zlen spre + 1) (zlen (c :: s) - 1)) = Some b /\
    (b = true <-> Matches nocase (OneOf neg ms :: ys) (c :: s)).
Proof.
  intros Hm Hlen Hpat Hstr Hc Hp.
  destruct (class_loop_ok _ (S (S (length pat))) pre q ms rest (zlen spre) c false Hc Hpat) as (i & n & -> & Hi & Hn & Hpre); [by rewrite Hstr, rd_at | rewrite Hpat, length_app; lia |].
  cbn [mbind option_bind orb]. set (e := existsb _ _).
  assert (Hdec : (if neg then negb e else e) = true <-> e = negb neg) by (destruct neg, e; done).
  destruct (if neg then negb e else e); cbn [negb].
  - destruct (finish_ok m len rest spre c s f ys i n) as (b & Hb & Hbs); try done. exists b. split; [exact Hb |]. rewrite Hbs. split; [intros H; apply MOneOf; [by apply Hdec | done] | by inversion 1].
  - exists false. split; [done |]. split; [done |]. inversion 1 as [| | | | ? ? ? ? ? He |]. subst. by apply Hdec in He.
Qed.

Lemma rest_shorter fuel : forall q ms rest, parse_class fuel q = Some (ms, rest) -> (length rest <= length q)%nat.
Proof.
  induction fuel as [|fuel IH]; intros q ms rest; [done |]. cbn [parse_class].
  assert (Hcons : forall m p ms rest, ('(ms, rest) ← parse_class fuel p; Some (m :: ms, rest)) = Some (ms, rest) -> (length rest <= length p)%nat).
  { intros m p ms' rest'. destruct (parse_class fuel p) as [[? ?] |] eqn:E; [|done]. intros [= <- <-]. by apply IH in E. }
  destruct q as [|c q]; [by intros [= <- <-] |]. destruct (c =? 92); [destruct q as [|x q]; [done |]; intros H; apply Hcons in H; cbn [length]; lia |].
  destruct (c =? 93); [intros [= <- <-]; cbn [length]; lia |].
  destruct q as [|d [|e q]]; [| |destruct (d =? 45)]; intros H; apply Hcons in H; cbn [length] in *; lia.
Qed.

Lemma glob_loop_decides fuel : Decides (glob_loop pat str nocase fuel) fuel.
Proof.
  induction fuel as [|fuel IH]; intros pre p spre s f xs Hlen Hpat Hstr Hp Hs; [lia |]. destruct f as [|f]; [done |]. cbn [glob_loop]. destruct p as [|c0 p].
  { injection Hp as <-. cbn [length Z.of_nat Z.eqb]. eexists. split; [reflexivity |]. destruct s; [split; [constructor | done] |]. split; [done | by inversion 1]. }
  cbn [length] in Hlen. rewrite (proj2 (Z.eqb_neq (zlen (c0 :: p)) 0)) by (cbn [length]; lia). assert (Hr : rd pat (zlen pre) = Some c0) by (rewrite Hpat; apply rd_at). rewrite Hr. cbn [mbind option_bind].
  cbn [parse] in Hp. destruct (Z.eqb_spec c0 42) as [-> | H42].
  { destruct (stars_split p) as (k & q & -> & Hq). destruct (parse f (stars k ++ q)) as [zs |] eqn:Hz; [|done]. injection Hp as <-.
    destruct (parse_stars _ _ _ _ Hz) as (f' & ys & Hy & ->). rewrite (skip_stars_ok _ k pre q); [| | done | done].
    2: { rewrite Hpat, !length_app. cbn [length]. rewrite length_app, length_replicate. lia. }
    cbn [mbind option_bind]. assert (Heq : forall t, Matches nocase (Star :: replicate k Star ++ ys) t <-> Matches nocase (Star :: ys) t).
    { intros t. rewrite <- (matches_stars k ys t). by rewrite <- (replicate_cons_app k Star) || (change (Star :: replicate k Star ++ ys) with (replicate (S k) Star ++ ys); rewrite replicate_S_end, <- app_assoc). }
    destruct q as [|c q].
    - cbn [length Z.of_nat Z.add Z.eqb Pos.eqb]. exists true. split; [done |]. split; [|done]. intros _. rewrite Heq. destruct f'; [done |]. injection Hy as <-. apply matches_suffix. exists s, []. split; [by rewrite app_nil_r | constructor].
    - rewrite (proj2 (Z.eqb_neq (zlen (c :: q) + 1) 1)) by (cbn [length]; lia). rewrite Z.add_simpl_r. destruct (parse_head _ _ _ Hy) as (x & zs & -> & Hx); [done | done |].
      replace (zlen pre + Z.of_nat k + 1) with (zlen (pre ++ stars (S k))) by (rewrite length_app, length_replicate; lia).
      destruct (star_loop_ok (glob_loop pat str nocase fuel (zlen (pre ++ stars (S k))) (zlen (c :: q))) (x :: zs)) with (s := s) (spre := spre) (k := S (length str)) as (b & Hb & Hbs);
        [| | done | rewrite Hstr, length_app; lia |].
      + intros spre' s' Hstr' Hne. apply (IH _ _ _ _ f'); try done; [rewrite length_app, length_replicate in Hlen; cbn [length] in *; lia | rewrite Hpat; by rewrite <- app_assoc | by left].
      + rewrite matches_empty. intros [[|j] E]; [done |]. by injection E as -> _.
      + exists b. split; [exact Hb |]. by rewrite Hbs, Heq. }
  destruct (Z.eqb_spec c0 63) as [-> | H63].
  { destruct (parse f p) as [ys |] eqn:Hy; [|done]. injection Hp as <-. destruct s as [|c s]; [exists false; split; [done |]; split; [done | by inversion 1] |].
    rewrite (proj2 (Z.eqb_neq (zlen (c :: s)) 0)) by (cbn [length]; lia).
    destruct (finish_ok (glob_loop pat str nocase fuel) fuel p spre c s f ys (zlen pre) (zlen (63 :: p))) as (b & Hb & Hbs); try done;
      [lia | exists (pre ++ [63]); by rewrite <- app_assoc | rewrite Hpat, length_app; cbn [length]; lia | cbn [length]; lia |].
    exists b. split; [exact Hb |]. rewrite Hbs. split; [by constructor | by inversion 1]. }
  destruct (Z.eqb_spec c0 91) as [-> | H91].
  { assert (Hr1 : rd pat (zlen pre + 1) = Some (hd 0 p)) by (rewrite Hpat; apply rd_past). rewrite Hr1. cbn [mbind option_bind]. rewrite <- (zlen_snoc pre 91), zlen_cons, Z.add_simpl_r.
    set (nq := match p with d :: q => if d =? 94 then (true, q) else (false, p) | [] => (false, p) end) in Hp. destruct nq as [neg q] eqn:Hnq.
    destruct (parse_class _ q) as [[ms rest] |] eqn:Hc; [|done]. cbn [mbind option_bind] in Hp. destruct (parse f rest) as [ys |] eqn:Hy; [|done]. injection Hp as <-.
    destruct s as [|c s]; [by destruct Hs |]. pose proof (rest_shorter _ _ _ _ Hc) as Hrest.
    assert (Hneg : neg = (hd 0 p =? 94) /\ (if hd 0 p =? 94 then (zlen (pre ++ [91]) + 1, zlen p - 1) else (zlen (pre ++ [91]), zlen p)) = (zlen (pre ++ [91] ++ (if neg then [94] else [])), zlen q) /\
      pat = (pre ++ [91] ++ (if neg then [94] else [])) ++ q /\ (length q <= length p)%nat).
    { unfold nq in Hnq. destruct p as [|d p']; [injection Hnq as <- <-; cbn [hd]; rewrite app_nil_r; rewrite <- !app_assoc; done |]. cbn [hd] in *.
      destruct (Z.eqb_spec d 94) as [-> |]; injection Hnq as <- <-.
      - rewrite <- !app_assoc. split; [done |]. split; [|split; [done | cbn; lia]]. rewrite !length_app. cbn [length]. f_equal; lia.
      - rewrite app_nil_r, <- app_assoc. split; [done |]. split; [done |]. split; [done | lia]. }
    destruct Hneg as (Hneg & -> & Hpat' & Hql). rewrite <- Hneg.
    destruct (class_ok (glob_loop pat str nocase fuel) fuel (pre ++ [91] ++ (if neg then [94] else [])) neg q ms rest spre c s f ys IH) as (b & Hb & Hbs); [lia | exact Hpat' | done | done | done |]. by exists b. }
  destruct (Z.eqb_spec c0 92) as [-> | H92].
  - destruct p as [|x p].
    + destruct (parse f []) as [ys |] eqn:Hy; [|done]. injection Hp as <-. change (zlen [92] >=? 2) with false. cbv iota.
      pose proof (literal_ok (glob_loop pat str nocase fuel) fuel pre 92 [] spre s f ys IH ltac:(lia) Hpat Hstr Hy Hs) as HL. rewrite Hr in HL. exact HL.
    + destruct (parse f p) as [ys |] eqn:Hy; [|done]. injection Hp as <-. rewrite Z.geb_leb, (proj2 (Z.leb_le 2 (zlen (92 :: x :: p)))) by (cbn [length]; lia).
      rewrite <- (zlen_snoc pre 92), zlen_cons, Z.add_simpl_r. apply (literal_ok (glob_loop pat str nocase fuel) fuel (pre ++ [92]) x p spre s f ys); try done; [cbn [length] in Hlen; lia | by rewrite <- app_assoc].
  - destruct (parse f p) as [ys |] eqn:Hy; [|done]. injection Hp as <-. 
    pose proof (literal_ok (glob_loop pat str nocase fuel) fuel pre c0 p spre s f ys IH ltac:(lia) Hpat Hstr Hy Hs) as HL. rewrite Hr in HL. exact HL.
Qed.

End Correct.

(** ** The guarantees *)

(** C26. The glob matcher decides the declarative relation: for every pattern
    without a dangling escape inside brackets and every non-empty string (for
    the empty string: every such pattern that starts neither with a bracket
    expression nor with a zero byte), it terminates without reading out of bounds
    and answers whether the string matches, with or without case. *)
Theorem stringmatchlen_correct pat str nocase xs : pattern pat = Some xs -> str <> [] \/ safe nocase xs ->
  exists b, stringmatchlen pat str nocase = Some b /\ (b = true <-> Matches nocase xs str).
Proof. intros Hp Hs. exact (glob_loop_decides nocase pat str (S (length pat)) [] pat [] str (S (length pat)) xs ltac:(lia) eq_refl eq_refl Hp Hs). Qed.

Lemma stringmatchlen_correct_witness : exists b, stringmatchlen [42; 98; 91; 97; 45; 99; 93] [120; 98; 98; 67] true = Some b /\
  (b = true <-> Matches true [Star; Char 98; OneOf false [Range 97 99]] [120; 98; 98; 67]).
Proof. apply (stringmatchlen_correct [42; 98; 91; 97; 45; 99; 93] [120; 98; 98; 67] true); [reflexivity | left; discriminate]. Defined.

(** Two patterns the matcher gets wrong: an escape at the end of an open
    bracket makes it read past the end of the pattern, and a negated bracket
    followed by a star matches the empty string. *)
Theorem stringmatchlen_flaws c s nocase : stringmatchlen [91; 92] (c :: s) nocase = None /\
  stringmatchlen [91; 94; 97; 93; 42] [] nocase = Some true /\ ~ Matches nocase [OneOf true [Single 97]; Star] [].
Proof.
  split; [|split; [by destruct nocase | by inversion 1]].
  unfold stringmatchlen. cbn -[Z.of_nat]. unfold rd. cbn. done.
Qed.

End StringMatch.
