(* ===== verification/Lzf.v ===== *)
(** * LZF compression (vr_lzf_c.c, vr_lzf_d.c)

    The compressor and the decompressor over byte buffers with explicit
    positions.  The hash table of the compressor lives on the stack and is not
    initialised: its contents are a parameter and the results hold for all of
    them.  The configuration is the one of vr_lzfP.h on a 64-bit machine
    ([HLOG] 16, [VERY_FAST], offsets in the table, [CHECK_INPUT]). *)

From S2P Require Import Prelude Bytes Bits.

Module Lzf.

(** ** The compressor *)

Definition HLOG : Z := 16.
Definition MAX_LIT : Z := 32.
Definition MAX_OFF : Z := 8192.
Definition MAX_REF : Z := 264.

(** [FRST], [NEXT] and [IDX]. *)
Definition FRST (inp : list Z) (ip : Z) : option Z :=
  b0 ← bget inp ip; b1 ← bget inp (ip + 1); Some (Z.lor (Z.shiftl b0 8) b1).
Definition NEXT (v : Z) (inp : list Z) (ip : Z) : option Z :=
  b2 ← bget inp (ip + 2); Some (Z.lor (u32 (Z.shiftl v 8)) b2).
Definition IDX (h : Z) : Z := Z.land (u32 (Z.shiftr h (24 - HLOG) - u32 (h * 5))) (2 ^ HLOG - 1).

(** The table of offsets. *)
Definition htab : Type := Z -> Z.
Definition hset (t : htab) (i v : Z) : htab := fun j => if j =? i then u32 v else t j.

(** [ref[len] != ip[len]]. *)
Definition differ (inp : list Z) (ref ip len : Z) : option bool :=
  a ← bget inp (ref + len); b ← bget inp (ip + len); Some (negb (a =? b)).

(** The unrolled comparisons: [true] when one of the [n] broke out of the loop. *)
Fixpoint match_unrolled (n : nat) (inp : list Z) (ref ip len : Z) : option (Z * bool) :=
  match n with
  | O => Some (len, false)
  | S n =>
      let len := len + 1 in
      d ← differ inp ref ip len;
      if (d : bool) then Some (len, true) else match_unrolled n inp ref ip len
  end.

(** [do len++; while (len < maxlen && ref[len] == ip[len]);] *)
Fixpoint match_loop (fuel : nat) (inp : list Z) (ref ip len maxlen : Z) : option Z :=
  match fuel with
  | O => None
  | S fuel =>
      let len := len + 1 in
      if len <? maxlen then
        d ← differ inp ref ip len;
        if (d : bool) then Some len else match_loop fuel inp ref ip len maxlen
      else Some len
  end.

Definition match_len (inp : list Z) (ref ip maxlen : Z) : option Z :=
  r ← (if maxlen >? 16 then match_unrolled 16 inp ref ip 2 else Some (2, false));
  let '(len, broke) := r in
  if (broke : bool) then Some len else match_loop (Z.to_nat MAX_REF) inp ref ip len maxlen.

(** The test for a match at [ref]; the reads happen only when it is in range. *)
Definition is_match (inp : list Z) (ref ip : Z) : option bool :=
  let off := u64 (ip - ref - 1) in
  if (off <? MAX_OFF) && (0 <? ref) then
    d2 ← differ inp ref ip 2;
    if (d2 : bool) then Some false
    else
      d0 ← differ inp ref ip 0;
      d1 ← differ inp ref ip 1;
      Some (negb d0 && negb d1)
  else Some false.

(** [op[-lit-1] = lit - 1]: the length of the literal run. *)
Definition stop_run (out : list Z) (op lit : Z) : option (list Z) := bset out (op - lit - 1) (lit - 1).

(** One literal byte; a full run is closed and the next one started. *)
Definition put_literal (inp out : list Z) (ip op lit : Z) : option (list Z * Z * Z * Z) :=
  b ← bget inp ip;
  out ← bset out op b;
  let lit := lit + 1 in
  let op := op + 1 in
  let ip := ip + 1 in
  if lit =? MAX_LIT then
    out ← stop_run out op lit;
    Some (out, ip, op + 1, 0)
  else Some (out, ip, op, lit).

(** The back reference for [len + 2] bytes at distance [off + 1]. *)
Definition put_ref (out : list Z) (op off len : Z) : option (list Z * Z) :=
  if len <? 7 then
    out ← bset out op (Z.shiftr off 8 + Z.shiftl len 5);
    out ← bset out (op + 1) off;
    Some (out, op + 2)
  else
    out ← bset out op (Z.shiftr off 8 + Z.shiftl 7 5);
    out ← bset out (op + 1) (len - 7);
    out ← bset out (op + 2) off;
    Some (out, op + 3).

(** [FRST] and two steps of [NEXT] behind [ip], each entered into the table. *)
Definition rehash_behind (inp : list Z) (t : htab) (ip : Z) : option (htab * Z) :=
  let ip := ip - 2 in
  hval ← FRST inp ip;
  hval ← NEXT hval inp ip;
  let t := hset t (IDX hval) ip in
  let ip := ip + 1 in
  hval ← NEXT hval inp ip;
  Some (hset t (IDX hval) ip, hval).

(** The main loop: the output and, unless the code returns 0, the positions
    [ip], [op] and [lit] it leaves. *)
Fixpoint compress_loop (fuel : nat) (inp out : list Z) (ip op lit hval : Z) (t : htab) : option (list Z * option (Z * Z * Z)) :=
  match fuel with
  | O => None
  | S fuel =>
      if ip <? zlen inp - 2 then
        hval ← NEXT hval inp ip;
        let ref := t (IDX hval) in
        let t := hset t (IDX hval) ip in
        m ← is_match inp ref ip;
        if (m : bool) then
          let off := u64 (ip - ref - 1) in
          let maxlen := zlen inp - ip - 2 in
          let maxlen := if maxlen >? MAX_REF then MAX_REF else maxlen in
          if (op + 3 + 1 >=? zlen out) && (op - b2z (lit =? 0) + 3 + 1 >=? zlen out) then Some (out, None)
          else
            out ← stop_run out op lit;
            let op := op - b2z (lit =? 0) in
            len ← match_len inp ref ip maxlen;
            let len := len - 2 in
            '(out, op) ← put_ref out op off len;
            let op := op + 1 in
            let ip := ip + 1 + (len + 1) in
            if ip >=? zlen inp - 2 then Some (out, Some (ip, op, 0))
            else
              '(t, hval) ← rehash_behind inp t ip;
              compress_loop fuel inp out ip op 0 hval t
        else if op >=? zlen out then Some (out, None)
        else
          '(out, ip, op, lit) ← put_literal inp out ip op lit;
          compress_loop fuel inp out ip op lit hval t
      else Some (out, Some (ip, op, lit))
  end.

(** The last literals. *)
Fixpoint flush_loop (fuel : nat) (inp out : list Z) (ip op lit : Z) : option (list Z * Z * Z) :=
  match fuel with
  | O => None
  | S fuel =>
      if ip <? zlen inp then
        '(out, ip, op, lit) ← put_literal inp out ip op lit;
        flush_loop fuel inp out ip op lit
      else Some (out, op, lit)
  end.

(** The return value and the output buffer. *)
Definition lzf_compress (junk : htab) (inp out : list Z) : option (Z * list Z) :=
  if (zlen inp =? 0) || (zlen out =? 0) then Some (0, out)
  else
    hval ← FRST inp 0;
    '(out, r) ← compress_loop (S (length inp)) inp out 0 1 0 hval (fun i => u32 (junk i));
    match r with
    | None => Some (0, out)
    | Some (ip, op, lit) =>
        if op + 3 >? zlen out then Some (0, out)
        else
          '(out, op, lit) ← flush_loop (S (length inp)) inp out ip op lit;
          out ← stop_run out op lit;
          let op := op - b2z (lit =? 0) in
          Some (op, out)
    end.

(** ** The decompressor *)

(** [*op++ = *ip++], [n] times. *)
Fixpoint copy_literals (n : nat) (inp out : list Z) (ip op : Z) : option (list Z) :=
  match n with
  | O => Some out
  | S n => b ← bget inp ip; out ← bset out op b; copy_literals n inp out (ip + 1) (op + 1)
  end.

(** [*op++ = *ref++], [n] times, within the output. *)
Fixpoint copy_ref (n : nat) (out : list Z) (ref op : Z) : option (list Z) :=
  match n with
  | O => Some out
  | S n => b ← bget out ref; out ← bset out op b; copy_ref n out (ref + 1) (op + 1)
  end.

(** The copy of a back reference: octet by octet for short or overlapping
    ones, [memcpy] for the others. *)
Definition copy_back (out : list Z) (ref op len : Z) : option (list Z) :=
  if len >? 9 then
    if op >=? ref + (len + 2) then b ← bread out ref (len + 2); bwrite out op b
    else copy_ref (Z.to_nat (len + 2)) out ref op
  else copy_ref (Z.to_nat (len + 2)) out ref op.

(** The loop; the result is the return value, 0 on an error, and the buffer. *)
Fixpoint decompress_loop (fuel : nat) (inp out : list Z) (ip op : Z) : option (Z * list Z) :=
  match fuel with
  | O => None
  | S fuel =>
      ctrl ← bget inp ip;
      let ip := ip + 1 in
      let next (ip op : Z) (out : list Z) := if ip <? zlen inp then decompress_loop fuel inp out ip op else Some (op, out) in
      if ctrl <? 32 then
        let ctrl := ctrl + 1 in
        if op + ctrl >? zlen out then Some (0, out)
        else if ip + ctrl >? zlen inp then Some (0, out)
        else
          out ← copy_literals (Z.to_nat ctrl) inp out ip op;
          next (ip + ctrl) (op + ctrl) out
      else
        let len := Z.shiftr ctrl 5 in
        let ref := op - Z.shiftl (Z.land ctrl 0x1f) 8 - 1 in
        if ip >=? zlen inp then Some (0, out)
        else
          x ← (if len =? 7 then
                 l ← bget inp ip;
                 let ip := ip + 1 in
                 Some (len + l, ip, ip >=? zlen inp)
               else Some (len, ip, false));
          let '(len, ip, bad) := x in
          if (bad : bool) then Some (0, out)
          else
            b ← bget inp ip;
            let ip := ip + 1 in
            let ref := ref - b in
            if op + len + 2 >? zlen out then Some (0, out)
            else if ref <? 0 then Some (0, out)
            else
              out ← copy_back out ref op len;
              next ip (op + (len + 2)) out
  end.

Definition lzf_decompress (inp out : list Z) : option (Z * list Z) :=
  decompress_loop (S (length inp)) inp out 0 0.

(** ** The format *)

(** A literal run, or a copy of [len + 2] bytes from [off + 1] bytes back. *)
Inductive token := Lit (l : list Z) | Ref (off len : Z).

Definition enc (t : token) : list Z :=
  match t with
  | Lit l => (zlen l - 1) :: l
  | Ref off len => if len <? 7 then [off / 256 + 32 * len; off mod 256] else [off / 256 + 224; len - 7; off mod 256]
  end.

(** The copy, byte by byte: it may read what it has just written. *)
Fixpoint back (n d : nat) (l : list Z) : list Z :=
  match n with O => l | S n => back n d (l ++ [nth (length l - d) l 0]) end.

Definition expand (l : list Z) (t : token) : list Z :=
  match t with Lit x => l ++ x | Ref off len => back (Z.to_nat (len + 2)) (Z.to_nat (off + 1)) l end.

Definition token_ok (l : list Z) (t : token) : Prop :=
  match t with
  | Lit x => 1 <= zlen x <= 32 /\ bytes_ok x
  | Ref off len => 0 <= off < MAX_OFF /\ 1 <= len <= 262 /\ off + 1 <= zlen l
  end.

Fixpoint expand_all (l : list Z) (ts : list token) : list Z :=
  match ts with [] => l | t :: ts => expand_all (expand l t) ts end.

Fixpoint tokens_ok (l : list Z) (ts : list token) : Prop :=
  match ts with [] => True | t :: ts => token_ok l t /\ tokens_ok (expand l t) ts end.

Definition encode (ts : list token) : list Z := concat (enc <$> ts).

Lemma expand_all_app l ts us : expand_all l (ts ++ us) = expand_all (expand_all l ts) us.
Proof. revert l. induction ts; intros l; cbn; auto. Qed.

Lemma tokens_ok_snoc l ts t : tokens_ok l (ts ++ [t]) <-> tokens_ok l ts /\ token_ok (expand_all l ts) t.
Proof. revert l. induction ts as [|u ts IH]; intros l; cbn; [tauto |]. rewrite IH. tauto. Qed.

Lemma encode_snoc ts t : encode (ts ++ [t]) = encode ts ++ enc t.
Proof. unfold encode. rewrite fmap_app, concat_app. cbn. by rewrite app_nil_r. Qed.

Lemma length_back n d l : length (back n d l) = (length l + n)%nat.
Proof. revert l. induction n as [|n IH]; intros l; cbn; [lia |]. rewrite IH, length_app. cbn. lia. Qed.

Lemma back_bytes n d l : bytes_ok l -> bytes_ok (back n d l).
Proof.
  revert l. induction n as [|n IH]; intros l Hl; cbn; [done |]. apply IH, Forall_app. split; [done |]. constructor; [|done].
  destruct (nth_in_or_default (length l - d) l 0) as [Hin | ->]; [|lia]. unfold bytes_ok in Hl. rewrite Forall_forall in Hl.
  apply Hl. by apply list_elem_of_In.
Qed.

Lemma expand_bytes l t : bytes_ok l -> token_ok l t -> bytes_ok (expand l t).
Proof. destruct t; cbn; intros Hl Ht; [apply Forall_app; tauto | by apply back_bytes]. Qed.

(** ** Decompression *)

Lemma u8_byte b : 0 <= b < 256 -> u8 b = b.
Proof. intros. by apply uwrap_small. Qed.

Lemma bset_next l x rest b : 0 <= b < 256 -> bset (l ++ x :: rest) (zlen l) b = Some ((l ++ [b]) ++ rest).
Proof. intros Hb. rewrite bset_mid by done. rewrite u8_byte by done. by rewrite <- app_assoc. Qed.

Lemma copy_literals_spec x : forall pre post l rest, bytes_ok x -> (length x <= length rest)%nat ->
  copy_literals (length x) (pre ++ x ++ post) (l ++ rest) (zlen pre) (zlen l) = Some ((l ++ x) ++ drop (length x) rest).
Proof.
  induction x as [|b x IH]; intros pre post l rest Hx Hr; cbn [length copy_literals]; [by rewrite app_nil_r |].
  apply Forall_cons in Hx as [Hb Hx]. destruct rest as [|r rest]; cbn in Hr; [lia |].
  cbn [app]. rewrite bget_mid by done. cbn [mbind option_bind]. rewrite bset_next by done. cbn [mbind option_bind].
  rewrite <- !zlen_snoc with (b := b). replace (pre ++ b :: x ++ post) with ((pre ++ [b]) ++ x ++ post) by by rewrite <- app_assoc.
  rewrite IH by (done || lia). by rewrite <- !app_assoc.
Qed.

Lemma copy_ref_spec n : forall l rest d, bytes_ok l -> (n <= length rest)%nat -> (1 <= d <= length l)%nat ->
  copy_ref n (l ++ rest) (zlen l - Z.of_nat d) (zlen l) = Some (back n d l ++ drop n rest).
Proof.
  induction n as [|n IH]; intros l rest d Hl Hr Hd; cbn [copy_ref back]; [by rewrite drop_0 |].
  destruct rest as [|r rest]; cbn in Hr; [lia |]. set (b := nth (length l - d) l 0).
  assert (Hb : l !! (length l - d)%nat = Some b).
  { destruct (lookup_lt_is_Some_2 l (length l - d)%nat) as [c Hc]; [lia |]. unfold b. by rewrite (nth_lookup_Some _ _ _ _ Hc). }
  assert (0 <= b < 256) by (by apply (Forall_lookup_1 _ _ _ _ Hl Hb)).
  rewrite bget_app_l by lia. unfold bget at 1. zguard. replace (Z.to_nat (zlen l - Z.of_nat d)) with (length l - d)%nat by lia. rewrite Hb.
  cbn [mbind option_bind]. rewrite bset_next by done. cbn [mbind option_bind].
  replace (zlen l - Z.of_nat d + 1) with (zlen (l ++ [b]) - Z.of_nat d) by (rewrite zlen_snoc; lia). rewrite <- (zlen_snoc l b).
  rewrite IH; [done | apply Forall_app; split; [done | by constructor] | lia | len].
Qed.

(** Without overlap the copy is a block move. *)
Lemma back_block_gen n d l k : (k + n <= d <= length l)%nat ->
  back n d (l ++ take k (drop (length l - d) l)) = l ++ take (k + n) (drop (length l - d) l).
Proof.
  revert k. induction n as [|n IH]; intros k Hd; cbn [back]; [by rewrite Nat.add_0_r |].
  destruct (lookup_lt_is_Some_2 l (length l - d + k)%nat) as [c Hc]; [lia |].
  replace (k + S n)%nat with (S k + n)%nat by lia. rewrite <- IH by lia. f_equal. rewrite <- app_assoc. f_equal.
  rewrite (take_S_r _ k c) by (by rewrite lookup_drop). f_equal. f_equal.
  rewrite length_app, length_take, length_drop. replace (length l + k `min` (length l - (length l - d)) - d)%nat with (length l - d + k)%nat by lia.
  rewrite app_nth1 by lia. by apply nth_lookup_Some.
Qed.

Lemma back_block n d l : (n <= d <= length l)%nat -> back n d l = l ++ take n (drop (length l - d) l).
Proof. intros Hd. pose proof (back_block_gen n d l 0 Hd) as H. by rewrite take_0, app_nil_r in H. Qed.

Lemma copy_back_spec l rest d len : bytes_ok l -> 0 <= len -> len + 2 <= zlen rest -> 1 <= d <= zlen l ->
  copy_back (l ++ rest) (zlen l - d) (zlen l) len =
    Some (back (Z.to_nat (len + 2)) (Z.to_nat d) l ++ drop (Z.to_nat (len + 2)) rest).
Proof.
  intros Hl Hlen Hr Hd. unfold copy_back.
  assert (Hc : copy_ref (Z.to_nat (len + 2)) (l ++ rest) (zlen l - d) (zlen l) = Some (back (Z.to_nat (len + 2)) (Z.to_nat d) l ++ drop (Z.to_nat (len + 2)) rest)).
  { rewrite <- copy_ref_spec by (done || lia). f_equal. lia. }
  destruct (len >? 9); [|done]. destruct (zlen l >=? zlen l - d + (len + 2)) eqn:Hg; [|done]. rewrite Z.geb_leb in Hg. zbool.
  set (n := Z.to_nat (len + 2)). assert (Hn : len + 2 = Z.of_nat n) by lia. rewrite Hn.
  rewrite back_block by lia. unfold bread. rewrite length_app. repeat zguard. cbn [andb mbind option_bind].
  replace (Z.to_nat (zlen l - d)) with (length l - Z.to_nat d)%nat by lia. rewrite Nat2Z.id, drop_app, take_app.
  rewrite length_drop. replace (n - (length l - (length l - Z.to_nat d)))%nat with 0%nat by lia. rewrite take_0, app_nil_r.
  rewrite <- (take_drop n rest) at 1. rewrite <- app_assoc. apply bwrite_mid; [done |]. rewrite !length_take, length_drop. lia.
Qed.

(** The bits of a control byte. *)
Lemma ctrl_bits off len : 0 <= off < MAX_OFF -> 0 <= len <= 7 ->
  Z.shiftr (off / 256 + 32 * len) 5 = len /\ Z.shiftl (Z.land (off / 256 + 32 * len) 0x1f) 8 = off / 256 * 256 /\ 0 <= off / 256 + 32 * len < 256.
Proof.
  unfold MAX_OFF. intros Hoff Hlen. assert (0 <= off / 256 < 32) by (split; [apply Z.div_pos; lia | apply Z.div_lt_upper_bound; lia]).
  change 0x1f with (Z.ones 5). rewrite Z.shiftr_div_pow2, Z.shiftl_mul_pow2, Z.land_ones by lia. change (2 ^ 5) with 32. change (2 ^ 8) with 256.
  rewrite (Z.mul_comm 32 len), Z.div_add, Z.mod_add, (Z.div_small (off / 256)), Z.mod_small by lia. lia.
Qed.

(** Reading inside a block. *)
Lemma bget_in pre x post i b : x !! i = Some b -> bget (pre ++ x ++ post) (zlen pre + Z.of_nat i) = Some b.
Proof.
  intros H. pose proof (lookup_lt_Some _ _ _ H). rewrite bget_app_r by lia. replace (zlen pre + Z.of_nat i - zlen pre) with (Z.of_nat i) by lia.
  rewrite bget_app_l by lia. unfold bget. zguard. by rewrite Nat2Z.id.
Qed.

Lemma zlen_encode_cons t ts : encode (t :: ts) = enc t ++ encode ts.
Proof. done. Qed.

(** What follows a token: the next one, or the end. *)
Definition continue (fuel : nat) (inp out : list Z) (ip op : Z) : option (Z * list Z) :=
  if ip <? zlen inp then decompress_loop fuel inp out ip op else Some (op, out).

Lemma decompress_lit fuel inp pre x post l rest : inp = pre ++ enc (Lit x) ++ post -> token_ok l (Lit x) -> zlen x <= zlen rest ->
  decompress_loop (S fuel) inp (l ++ rest) (zlen pre) (zlen l) =
    continue fuel inp ((l ++ x) ++ drop (length x) rest) (zlen pre + zlen (enc (Lit x))) (zlen (l ++ x)).
Proof.
  intros Hinp [Hx Hb] Hfit. assert (Hlen : zlen inp = zlen pre + 1 + zlen x + zlen post) by (subst; cbn [enc]; len).
  cbn [decompress_loop]. replace (bget inp (zlen pre)) with (Some (zlen x - 1)) by (subst; cbn [enc app]; by rewrite bget_mid).
  cbn [mbind option_bind]. zguard. replace (zlen x - 1 + 1) with (zlen x) by lia. rewrite !Z.gtb_ltb, length_app. do 2 zguard.
  assert (Hc : copy_literals (length x) inp (l ++ rest) (zlen pre + 1) (zlen l) = Some ((l ++ x) ++ drop (length x) rest)).
  { rewrite <- (zlen_snoc pre (zlen x - 1)). rewrite <- (copy_literals_spec x (pre ++ [zlen x - 1]) post l rest) by (done || lia).
    f_equal. subst. cbn [enc app]. by rewrite <- app_assoc. }
  rewrite Nat2Z.id, Hc. cbn [mbind option_bind enc length]. unfold continue. rewrite length_app.
  replace (zlen pre + Z.of_nat (S (length x))) with (zlen pre + 1 + zlen x) by lia. by rewrite Nat2Z.inj_add.
Qed.

Lemma decompress_ref fuel inp pre off len post l rest : inp = pre ++ enc (Ref off len) ++ post -> token_ok l (Ref off len) ->
  bytes_ok l -> len + 2 <= zlen rest ->
  decompress_loop (S fuel) inp (l ++ rest) (zlen pre) (zlen l) =
    continue fuel inp (expand l (Ref off len) ++ drop (Z.to_nat (len + 2)) rest) (zlen pre + zlen (enc (Ref off len))) (zlen (expand l (Ref off len))).
Proof.
  intros Hinp (Hoff & Hlen & Hd) Hl Hfit. unfold MAX_OFF in *. cbn [expand]. rewrite length_back.
  pose proof (Z.mod_pos_bound off 256 ltac:(lia)) as Hm. pose proof (Z.div_mod off 256 ltac:(lia)) as Hdm. pose proof (Z.div_pos off 256 ltac:(lia) ltac:(lia)) as Hdp.
  assert (Hcopy : copy_back (l ++ rest) (zlen l - off / 256 * 256 - 1 - off mod 256) (zlen l) len =
    Some (back (Z.to_nat (len + 2)) (Z.to_nat (off + 1)) l ++ drop (Z.to_nat (len + 2)) rest)).
  { rewrite <- copy_back_spec by (done || lia). f_equal. lia. }
  assert (Hlast : Z.of_nat (length l + Z.to_nat (len + 2)) = zlen l + (len + 2)) by lia. rewrite Hlast. clear Hlast. cbn [decompress_loop]. cbn [enc] in Hinp.
  destruct (Z.ltb_spec len 7) as [Hs | Hs].
  - destruct (ctrl_bits off len) as (C1 & C2 & C3); [unfold MAX_OFF; lia.. |].
    assert (HL : zlen inp = zlen pre + 2 + zlen post) by (subst; len).
    replace (bget inp (zlen pre)) with (Some (off / 256 + 32 * len)) by (subst; cbn [app]; by rewrite bget_mid).
    assert (Hb1 : bget inp (zlen pre + 1) = Some (off mod 256)) by (subst; by apply (bget_in pre [_; _] post 1)).
    cbn [mbind option_bind]. rewrite C1, C2, (proj2 (Z.ltb_ge (off / 256 + 32 * len) 32)) by lia. rewrite Z.geb_leb. zguard.
    rewrite (proj2 (Z.eqb_neq len 7)) by lia. cbn [mbind option_bind]. rewrite Hb1. cbn [mbind option_bind]. rewrite Z.gtb_ltb, length_app. do 2 zguard.
    rewrite Hcopy. cbn [mbind option_bind enc]. rewrite (proj2 (Z.ltb_lt len 7)) by lia. cbn [length]. unfold continue.
    by replace (zlen pre + Z.of_nat 2) with (zlen pre + 1 + 1) by lia.
  - destruct (ctrl_bits off 7) as (C1 & C2 & C3); [unfold MAX_OFF; lia.. |]. change (32 * 7) with 224 in *.
    assert (HL : zlen inp = zlen pre + 3 + zlen post) by (subst; len).
    replace (bget inp (zlen pre)) with (Some (off / 256 + 224)) by (subst; cbn [app]; by rewrite bget_mid).
    assert (Hb1 : bget inp (zlen pre + 1) = Some (len - 7)) by (subst; by apply (bget_in pre [_; _; _] post 1)).
    assert (Hb2 : bget inp (zlen pre + 1 + 1) = Some (off mod 256)) by (subst; rewrite <- Z.add_assoc; by apply (bget_in pre [_; _; _] post 2)).
    cbn [mbind option_bind]. rewrite C1, C2, (proj2 (Z.ltb_ge (off / 256 + 224) 32)) by lia. rewrite !Z.geb_leb. zguard.
    cbn [Z.eqb Pos.eqb]. rewrite Hb1. cbn [mbind option_bind]. zguard. rewrite Hb2. cbn [mbind option_bind]. replace (7 + (len - 7)) with len by lia.
    rewrite Z.gtb_ltb, length_app. do 2 zguard. rewrite Hcopy. cbn [mbind option_bind enc]. rewrite (proj2 (Z.ltb_ge len 7)) by lia. cbn [length]. unfold continue.
    by replace (zlen pre + Z.of_nat 3) with (zlen pre + 1 + 1 + 1) by lia.
Qed.

Lemma length_expand_ge l t : token_ok l t -> (length l <= length (expand l t))%nat.
Proof. destruct t; cbn [expand]; intros; [len | rewrite length_back; lia]. Qed.

Lemma decompress_token fuel inp pre t post l rest : inp = pre ++ enc t ++ post -> token_ok l t -> bytes_ok l ->
  zlen (expand l t) <= zlen (l ++ rest) ->
  decompress_loop (S fuel) inp (l ++ rest) (zlen pre) (zlen l) =
    continue fuel inp (expand l t ++ drop (length (expand l t) - length l) rest) (zlen pre + zlen (enc t)) (zlen (expand l t)).
Proof.
  intros Hinp Ht Hl Hfit. rewrite length_app in Hfit. destruct t as [x | off len].
  - cbn [expand] in *. rewrite length_app in Hfit. replace (length (l ++ x) - length l)%nat with (length x) by len.
    eapply decompress_lit; [exact Hinp | exact Ht | lia].
  - pose proof Ht as (? & ? & ?). cbn [expand] in Hfit. rewrite length_back in Hfit.
    replace (length (expand l (Ref off len)) - length l)%nat with (Z.to_nat (len + 2)) by (cbn [expand]; rewrite length_back; lia).
    eapply decompress_ref; [exact Hinp | done | done | lia].
Qed.

Lemma length_expand_all_ge ts : forall l, tokens_ok l ts -> (length l <= length (expand_all l ts))%nat.
Proof.
  induction ts as [|t ts IH]; intros l; cbn; [lia |]. intros [Ht Hts]. pose proof (length_expand_ge l t Ht). specialize (IH _ Hts). lia.
Qed.

Lemma enc_pos t : 1 <= zlen (enc t).
Proof. destruct t; cbn; [lia | destruct (_ <? 7); cbn; lia]. Qed.

Lemma length_encode_ge ts : (length ts <= length (encode ts))%nat.
Proof. induction ts as [|t ts IH]; [done |]. rewrite zlen_encode_cons, length_app. cbn [length]. pose proof (enc_pos t). lia. Qed.

(** Decoding an encoded sequence expands it, when the buffer is large enough. *)
Lemma decode ts : forall t fuel inp pre l rest, inp = pre ++ encode (t :: ts) -> tokens_ok l (t :: ts) -> bytes_ok l ->
  zlen (expand_all l (t :: ts)) <= zlen (l ++ rest) -> (length ts < fuel)%nat ->
  exists out, decompress_loop fuel inp (l ++ rest) (zlen pre) (zlen l) = Some (zlen (expand_all l (t :: ts)), out) /\
    length out = length (l ++ rest) /\ exists rest', out = expand_all l (t :: ts) ++ rest'.
Proof.
  induction ts as [|u ts IH]; intros t fuel inp pre l rest Hinp [Ht Hts] Hl Hfit Hfuel; (destruct fuel as [|fuel]; [lia |]).
  all: pose proof (length_expand_all_ge _ _ Hts) as Hge; pose proof (length_expand_ge l t Ht) as Hge1; cbn [expand_all] in Hfit, Hge.
  all: assert (Hstep : decompress_loop (S fuel) inp (l ++ rest) (zlen pre) (zlen l) =
    continue fuel inp (expand l t ++ drop (length (expand l t) - length l) rest) (zlen pre + zlen (enc t)) (zlen (expand l t)))
    by (eapply decompress_token; [exact Hinp | done | done | lia]).
  - rewrite Hstep. unfold continue. rewrite zlen_encode_cons, app_nil_r in Hinp. rewrite (proj2 (Z.ltb_ge _ _)) by (subst; len).
    eexists. split; [reflexivity |]. split; [|by eexists]. rewrite !length_app, length_drop. rewrite length_app in Hfit. lia.
  - rewrite Hstep. unfold continue. pose proof (enc_pos u). rewrite zlen_encode_cons in Hinp.
    rewrite (proj2 (Z.ltb_lt _ _)) by (subst; rewrite zlen_encode_cons, !length_app; lia).
    destruct (IH u fuel inp (pre ++ enc t) (expand l t) (drop (length (expand l t) - length l) rest)) as (out & E1 & E2 & E3);
      [by rewrite <- app_assoc | done | by apply expand_bytes | rewrite length_app, length_drop; rewrite length_app in Hfit; cbn [expand_all]; lia | cbn in Hfuel; lia |].
    exists out. replace (zlen pre + zlen (enc t)) with (zlen (pre ++ enc t)) by len. split; [exact E1 |]. split; [|exact E3].
    rewrite E2, !length_app, length_drop. rewrite length_app in Hfit. lia.
Qed.

End Lzf.
