(* ===== verification/LzfProps.v ===== *)
(** * The LZF compressor emits the format, the decompressor is safe

    The compressor's output is, at every moment, the encoding of a token
    sequence for the input consumed so far, followed by an open run of
    literals ([Rep]).  From this follows the round trip through the
    decompressor.  On inputs that are not compressor output the decompressor
    stays in its buffers and returns. *)

From S2P Require Import Prelude Bytes Bits Lzf.

Module LzfProps.
Import Lzf.

(** Lengths of nested concatenations. *)
Ltac napp := repeat first [rewrite length_app | progress (cbn [length])]; lia.

(** ** Accesses that succeed *)

Lemma bget_some l i : 0 <= i < zlen l -> exists b, bget l i = Some b /\ l !! Z.to_nat i = Some b.
Proof. intros Hi. unfold bget. zguard. destruct (lookup_lt_is_Some_2 l (Z.to_nat i)) as [b Hb]; [lia | eauto]. Qed.

Lemma bset_some l i v : 0 <= i < zlen l -> exists l', bset l i v = Some l' /\ length l' = length l.
Proof. intros Hi. unfold bset. do 2 zguard. eexists. split; [reflexivity |]. by rewrite length_insert. Qed.

Lemma bget_byte l i b : bytes_ok l -> bget l i = Some b -> 0 <= b < 256.
Proof. unfold bget, bytes_ok. intros Hl. destruct (0 <=? i); [|done]. intros Hb. exact (Forall_lookup_1 _ _ _ _ Hl Hb). Qed.

Lemma differ_some inp ref ip n : 0 <= ref + n < zlen inp -> 0 <= ip + n < zlen inp ->
  exists b, differ inp ref ip n = Some b /\ (b = false -> bget inp (ref + n) = bget inp (ip + n)).
Proof.
  intros H1 H2. unfold differ. destruct (bget_some inp _ H1) as (a & -> & _), (bget_some inp _ H2) as (b & -> & _).
  cbn. eexists. split; [reflexivity |]. intros H. zbool. by f_equal.
Qed.

(** ** Matches *)

(** The [n] bytes at [ref] are those at [ip]. *)
Definition agree (inp : list Z) (ref ip n : Z) : Prop := forall i, 0 <= i < n -> bget inp (ref + i) = bget inp (ip + i).

Lemma agree_step inp ref ip n : agree inp ref ip n -> bget inp (ref + n) = bget inp (ip + n) -> agree inp ref ip (n + 1).
Proof. intros H Hn i Hi. destruct (Z.eq_dec i n) as [-> |]; [done | apply H; lia]. Qed.

Lemma agree_back inp n : forall d k, (1 <= d <= k)%nat -> (k + n <= length inp)%nat ->
  (forall i, (k <= i < k + n)%nat -> inp !! (i - d)%nat = inp !! i) -> back n d (take k inp) = take (k + n) inp.
Proof.
  induction n as [|n IH]; intros d k Hd Hk H; cbn [back]; [by rewrite Nat.add_0_r |].
  destruct (lookup_lt_is_Some_2 inp k) as [c Hc]; [lia |].
  replace (k + S n)%nat with (S k + n)%nat by lia. rewrite <- (IH d (S k)) by (lia || (intros; apply H; lia)). f_equal.
  rewrite (take_S_r _ _ _ Hc). do 2 f_equal. rewrite length_take, Nat.min_l by lia. apply nth_lookup_Some.
  rewrite lookup_take_lt by lia. by rewrite H by lia.
Qed.

Lemma agree_copy inp ref ip n : 0 <= ref < ip -> 0 <= n -> ip + n <= zlen inp -> agree inp ref ip n ->
  back (Z.to_nat n) (Z.to_nat (ip - ref)) (take (Z.to_nat ip) inp) = take (Z.to_nat (ip + n)) inp.
Proof.
  intros Hr Hn Hi H. rewrite agree_back; [f_equal; lia | lia | lia |]. intros i Hii.
  specialize (H (Z.of_nat i - ip) ltac:(lia)). unfold bget in H.
  rewrite (proj2 (Z.leb_le 0 (ref + _))), (proj2 (Z.leb_le 0 (ip + _))) in H by lia.
  replace (i - Z.to_nat (ip - ref))%nat with (Z.to_nat (ref + (Z.of_nat i - ip))) by lia. rewrite H. f_equal. lia.
Qed.

Section Match.
Context (inp : list Z) (ref ip : Z) (Hin : 0 <= ref < ip).

Lemma match_unrolled_ok n : forall len, 0 <= len -> ip + len + Z.of_nat n < zlen inp -> agree inp ref ip (len + 1) ->
  exists len' broke, match_unrolled n inp ref ip len = Some (len', broke) /\
    (if broke : bool then len + 1 <= len' <= len + Z.of_nat n /\ agree inp ref ip len'
     else len' = len + Z.of_nat n /\ agree inp ref ip (len' + 1)).
Proof.
  induction n as [|n IH]; intros len H0 Hlen Ha; cbn [match_unrolled]; [exists len, false; split; [done | split; [lia | done]] |].
  destruct (differ_some inp ref ip (len + 1)) as (b & -> & Hb); [lia.. |]. cbn [mbind option_bind]. destruct b.
  - exists (len + 1), true. split; [done |]. split; [lia | done].
  - destruct (IH (len + 1)) as (len' & broke & -> & H); [lia | lia | by apply agree_step; auto |].
    exists len', broke. split; [done |]. destruct broke; (split; [lia | tauto]).
Qed.

Lemma match_loop_ok fuel : forall len maxlen, 0 <= len -> maxlen <= zlen inp - ip -> agree inp ref ip (len + 1) ->
  (0 < fuel)%nat -> maxlen - len <= Z.of_nat fuel ->
  exists L, match_loop fuel inp ref ip len maxlen = Some L /\ len + 1 <= L <= Z.max (len + 1) maxlen /\ agree inp ref ip L.
Proof.
  induction fuel as [|fuel IH]; intros len maxlen H0 Hmax Ha Hf Hfuel; [lia |]. cbn [match_loop]. zcase.
  - destruct (differ_some inp ref ip (len + 1)) as (b & -> & Hb); [lia.. |]. cbn [mbind option_bind]. destruct b; [exists (len + 1); split; [done | split; [lia | done]] |].
    destruct (IH (len + 1) maxlen) as (L & -> & HL & HA); [lia | lia | by apply agree_step; auto | lia | lia |].
    exists L. split; [done |]. split; [lia | done].
  - exists (len + 1). split; [done |]. split; [lia | done].
Qed.

(** The length of the match: between 3 and 264 and inside the input. *)
Lemma match_len_ok maxlen : 1 <= maxlen <= MAX_REF -> maxlen <= zlen inp - ip - 2 -> agree inp ref ip 3 ->
  exists L, match_len inp ref ip maxlen = Some L /\ 3 <= L <= MAX_REF /\ ip + L <= zlen inp /\ agree inp ref ip L.
Proof.
  unfold MAX_REF. intros Hm Hmax Ha. unfold match_len.
  assert (Hl : forall len, 2 <= len -> len + 1 <= zlen inp - ip -> len + 1 <= 264 -> agree inp ref ip (len + 1) ->
    exists L, match_loop (Z.to_nat MAX_REF) inp ref ip len maxlen = Some L /\ 3 <= L <= 264 /\ ip + L <= zlen inp /\ agree inp ref ip L).
  { intros len H1 H2 H3 H4. destruct (match_loop_ok (Z.to_nat MAX_REF) len maxlen) as (L & HL & HR & HA); [lia | lia | done | unfold MAX_REF; lia.. |].
    exists L. repeat split; [done | lia | lia | lia | done]. }
  rewrite Z.gtb_ltb. destruct (Z.ltb_spec 16 maxlen).
  - destruct (match_unrolled_ok 16 2) as (len' & broke & -> & H'); [lia | lia | done |]. cbn [mbind option_bind]. destruct broke, H' as [H1 H2].
    + exists len'. repeat split; [lia | lia | lia | done].
    + apply Hl; [lia | lia | lia | done].
  - cbn [mbind option_bind]. apply Hl; [lia | lia | lia | done].
Qed.
End Match.

Lemma is_match_ok inp ref ip : 0 <= ref < 2 ^ 32 -> 0 <= ip -> ip + 2 < zlen inp < 2 ^ 32 ->
  exists b, is_match inp ref ip = Some b /\
    (b = true -> 0 < ref < ip /\ ip - ref - 1 < MAX_OFF /\ u64 (ip - ref - 1) = ip - ref - 1 /\ agree inp ref ip 3).
Proof.
  unfold MAX_OFF. intros Hr Hip Hlen. unfold is_match. destruct (_ && _) eqn:E; [|by exists false]. zbool. unfold MAX_OFF in *.
  assert (Hlt : ref < ip).
  { destruct (Z.lt_ge_cases ref ip); [done | exfalso]. assert (Hw : u64 (ip - ref - 1) = ip - ref - 1 + 2 ^ 64); [|lia].
    rewrite <- (uwrap_congr 64 ltac:(lia) (ip - ref - 1) 1), uwrap_small by lia. lia. }
  rewrite (uwrap_small 64) in * by lia.
  destruct (differ_some inp ref ip 2) as (d2 & -> & Hd2); [lia.. |]. cbn [mbind option_bind]. destruct d2; [by exists false |].
  destruct (differ_some inp ref ip 0) as (d0 & -> & Hd0); [lia.. |]. destruct (differ_some inp ref ip 1) as (d1 & -> & Hd1); [lia.. |].
  cbn [mbind option_bind]. eexists. split; [reflexivity |]. intros Hb. destruct d0, d1; try done. repeat split; try lia.
  apply (agree_step _ _ _ 2), Hd2; [|done]. apply (agree_step _ _ _ 1), Hd1; [|done]. apply (agree_step _ _ _ 0), Hd0; [|done]. intros i Hi. lia.
Qed.

(** ** The output of the compressor *)

(** [ts] encodes the first [ip] bytes of the input. *)
Definition Encodes (inp : list Z) (ip : Z) (ts : list token) : Prop := tokens_ok [] ts /\ expand_all [] ts = take (Z.to_nat ip) inp.

(** A token sequence, then the header of an open run, [h], and its literals;
    the header may lie just past the buffer. *)
Definition Open (inp out : list Z) (ip op lit : Z) (ts : list token) (lits : list Z) : Prop :=
  tokens_ok [] ts /\ expand_all [] ts ++ lits = take (Z.to_nat ip) inp /\ zlen lits = lit /\ lit < MAX_LIT /\
  0 <= ip <= zlen inp /\ op = zlen (encode ts) + 1 + lit.

Definition Rep (inp out : list Z) (ip op lit : Z) : Prop :=
  exists ts lits, Open inp out ip op lit ts lits /\
    ((exists h rest, out = encode ts ++ h :: lits ++ rest) \/ (lits = [] /\ out = encode ts)).

Lemma Rep_room inp out ip op lit : Rep inp out ip op lit -> op - 1 < zlen out ->
  exists ts lits h rest, Open inp out ip op lit ts lits /\ out = encode ts ++ h :: lits ++ rest.
Proof.
  intros (ts & lits & HO & [(h & rest & E) | [-> E]]) Hroom; [by exists ts, lits, h, rest |].
  destruct HO as (_ & _ & <- & _ & _ & ->). subst. cbn in *. lia.
Qed.

Lemma take_snoc_byte inp ip b : 0 <= ip -> bget inp ip = Some b -> take (Z.to_nat (ip + 1)) inp = take (Z.to_nat ip) inp ++ [b].
Proof.
  intros Hip. unfold bget. zguard. intros Hb. replace (Z.to_nat (ip + 1)) with (S (Z.to_nat ip)) by lia. by apply take_S_r.
Qed.

(** Closing the run: its literals become a token. *)
Lemma close_run inp ip lits ts : bytes_ok inp -> tokens_ok [] ts -> expand_all [] ts ++ lits = take (Z.to_nat ip) inp ->
  1 <= zlen lits <= 32 -> Encodes inp ip (ts ++ [Lit lits]).
Proof.
  intros Hb Hts He Hl. split.
  - apply tokens_ok_snoc. split; [done |]. split; [done |]. assert (H : bytes_ok (take (Z.to_nat ip) inp)) by (by apply Forall_take).
    rewrite <- He in H. by apply Forall_app in H as [_ H].
  - by rewrite expand_all_app.
Qed.

Lemma bset_at l x rest v : bset (l ++ x :: rest) (zlen l) v = Some (l ++ u8 v :: rest).
Proof. by apply bset_mid. Qed.

Lemma put_literal_ok inp out ip op lit : bytes_ok inp -> Rep inp out ip op lit -> ip < zlen inp -> op < zlen out ->
  exists out', put_literal inp out ip op lit = Some (out', ip + 1, op + 1 + b2z (lit + 1 =? MAX_LIT), if lit + 1 =? MAX_LIT then 0 else lit + 1) /\
    Rep inp out' (ip + 1) (op + 1 + b2z (lit + 1 =? MAX_LIT)) (if lit + 1 =? MAX_LIT then 0 else lit + 1) /\ length out' = length out.
Proof.
  unfold MAX_LIT. intros Hin HR Hip Hop. destruct (Rep_room _ _ _ _ _ HR) as (ts & lits & h & rest & (Hts & He & Hl & Hlt & Hi & Hopv) & Hout); [lia |].
  destruct (bget_some inp ip) as (b & Hb & _); [lia |]. pose proof (bget_byte _ _ _ Hin Hb) as Hbr.
  destruct rest as [|r rest]; [subst out; rewrite length_app in Hop; cbn [length] in Hop; rewrite length_app in Hop; cbn in Hop; lia |].
  assert (Hset : bset out op b = Some (encode ts ++ h :: (lits ++ [b]) ++ rest)).
  { subst out op. replace (encode ts ++ h :: lits ++ r :: rest) with ((encode ts ++ h :: lits) ++ r :: rest) by (by rewrite <- app_assoc).
    rewrite bset_mid by len. rewrite u8_byte by done. f_equal. by rewrite <- !app_assoc. }
  assert (Hne : expand_all [] ts ++ lits ++ [b] = take (Z.to_nat (ip + 1)) inp) by (rewrite (take_snoc_byte inp ip b) by (done || lia); rewrite <- He; by rewrite app_assoc).
  unfold put_literal. rewrite Hb. cbn [mbind option_bind]. rewrite Hset. cbn [mbind option_bind]. unfold MAX_LIT in *. destruct (Z.eqb_spec (lit + 1) 32) as [E | E].
  - unfold stop_run. replace (op + 1 - (lit + 1) - 1) with (zlen (encode ts)) by lia. rewrite bset_at. cbn [mbind option_bind b2z]. rewrite u8_byte by lia.
    eexists. split; [reflexivity |]. split; [|subst out; napp].
    destruct (close_run inp (ip + 1) (lits ++ [b]) ts) as [H1 H2]; [done | done | done | len |].
    assert (Henc : encode (ts ++ [Lit (lits ++ [b])]) = encode ts ++ (lit + 1 - 1) :: lits ++ [b]).
    { rewrite encode_snoc. cbn [enc]. do 2 f_equal. len. }
    exists (ts ++ [Lit (lits ++ [b])]), []. split.
    + split; [done |]. split; [by rewrite H2, app_nil_r |]. split; [done |]. split; [done |]. split; [lia |]. rewrite Henc. napp.
    + rewrite Henc. destruct rest as [|r' rest]; [right | left; exists r', rest]; cbn [app]; rewrite <- ?app_assoc; cbn [app];
        rewrite <- ?app_assoc; try done.
  - cbn [b2z]. rewrite Z.add_0_r. eexists. split; [reflexivity |]. split; [|subst out; napp].
    exists ts, (lits ++ [b]). split; [|left; by exists h, rest].
    split; [done |]. split; [done |]. split; [len |]. unfold MAX_LIT. lia.
Qed.

Lemma stop_run_ok inp out ip op lit : bytes_ok inp -> Rep inp out ip op lit -> op - 1 < zlen out ->
  exists out' ts rest, stop_run out op lit = Some out' /\ Encodes inp ip ts /\ out' = encode ts ++ rest /\
    zlen (encode ts) = op - b2z (lit =? 0) /\ length out' = length out.
Proof.
  intros Hin HR Hop. destruct (Rep_room _ _ _ _ _ HR Hop) as (ts & lits & h & rest & (Hts & He & Hl & Hlt & Hi & Hopv) & ->). unfold MAX_LIT in *.
  unfold stop_run. replace (op - lit - 1) with (zlen (encode ts)) by lia. rewrite bset_at. destruct lits as [|b lits].
  - eexists _, ts, _. split; [reflexivity |]. cbn in Hl. subst lit. split; [split; [done | by rewrite <- He, app_nil_r] |]. split; [done |]. change (b2z (Z.of_nat 0 =? 0)) with 1. split; [lia | napp].
  - rewrite (proj2 (Z.eqb_neq lit 0)) by (cbn in Hl; lia). rewrite u8_byte by (cbn in Hl; lia).
    eexists _, (ts ++ [Lit (b :: lits)]), rest. split; [reflexivity |]. split; [apply close_run; [done | done | done | cbn in *; lia] |].
    rewrite encode_snoc. cbn [enc]. replace (zlen (b :: lits) - 1) with (lit - 1) by lia. split; [by rewrite <- app_assoc |]. cbn [b2z]. split; [rewrite length_app; cbn [length] in *; lia | napp].
Qed.

(** The reference, over the bytes that follow the last token. *)
Lemma put_ref_ok l rest off len : 0 <= off < MAX_OFF -> 1 <= len <= 262 -> 3 <= zlen rest ->
  put_ref (l ++ rest) (zlen l) off len =
    Some (l ++ enc (Ref off len) ++ drop (length (enc (Ref off len))) rest, zlen l + zlen (enc (Ref off len))).
Proof.
  unfold MAX_OFF. intros Hoff Hlen Hrest. destruct rest as [|r0 [|r1 [|r2 rest]]]; cbn in Hrest; try lia. unfold put_ref. cbn [enc].
  change (Z.shiftl 7 5) with 224. rewrite (Z.shiftr_div_pow2 off 8), (Z.shiftl_mul_pow2 len 5) by lia. change (2 ^ 8) with 256. change (2 ^ 5) with 32. rewrite (Z.mul_comm len 32).
  assert (Hd : 0 <= off / 256 < 32) by (split; [apply Z.div_pos; lia | apply Z.div_lt_upper_bound; lia]).
  assert (Ho : u8 off = off mod 256) by done. assert (E : forall x (y : list Z), l ++ x :: y = (l ++ [x]) ++ y) by (intros; by rewrite <- app_assoc).
  assert (E2 : forall x x' (y : list Z), l ++ x :: x' :: y = (l ++ [x; x']) ++ y) by (intros; by rewrite <- app_assoc).
  destruct (Z.ltb_spec len 7).
  - rewrite bset_at. cbn [mbind option_bind]. rewrite u8_byte by lia. rewrite E, bset_mid by len. cbn [mbind option_bind]. rewrite Ho, <- app_assoc.
    cbn [app drop length]. reflexivity.
  - rewrite bset_at. cbn [mbind option_bind]. rewrite u8_byte by lia. rewrite E, bset_mid by len. cbn [mbind option_bind]. rewrite u8_byte by lia. rewrite <- app_assoc. cbn [app].
    rewrite E2, bset_mid by len. cbn [mbind option_bind]. rewrite Ho, <- app_assoc. cbn [app drop length]. reflexivity.
Qed.

(** ** The loops *)

(** Every slot of the table holds a 32-bit offset. *)
Definition htab_ok (t : htab) : Prop := forall i, 0 <= t i < 2 ^ 32.

Lemma hset_ok t i v : htab_ok t -> htab_ok (hset t i v).
Proof. intros H j. unfold hset. destruct (j =? i); [apply (uwrap_range 32); lia | apply H]. Qed.

Lemma NEXT_some v inp ip : 0 <= ip -> ip + 2 < zlen inp -> exists h, NEXT v inp ip = Some h.
Proof. intros H0 H. unfold NEXT. destruct (bget_some inp (ip + 2)) as (b & -> & _); [lia |]. cbn. eauto. Qed.

Lemma FRST_some inp ip : 0 <= ip -> ip + 1 < zlen inp -> exists h, FRST inp ip = Some h.
Proof.
  intros H0 H. unfold FRST. destruct (bget_some inp ip) as (b & -> & _); [lia |]. destruct (bget_some inp (ip + 1)) as (c & -> & _); [lia |]. cbn. eauto.
Qed.

Lemma rehash_ok inp t ip : 2 <= ip -> ip < zlen inp - 2 -> htab_ok t -> exists t' h, rehash_behind inp t ip = Some (t', h) /\ htab_ok t'.
Proof.
  intros H0 H Ht. unfold rehash_behind. destruct (FRST_some inp (ip - 2)) as [h ->]; [lia.. |]. cbn [mbind option_bind].
  destruct (NEXT_some h inp (ip - 2)) as [h1 ->]; [lia.. |]. cbn [mbind option_bind].
  destruct (NEXT_some h1 inp (ip - 2 + 1)) as [h2 ->]; [lia.. |]. cbn [mbind option_bind].
  eexists _, _. split; [reflexivity |]. by do 2 apply hset_ok.
Qed.

(** A match of [L] bytes: the run is closed and the reference written. *)
Lemma emit_ref inp out ip op lit ref L : bytes_ok inp -> Rep inp out ip op lit -> 0 < ref < ip -> ip - ref - 1 < MAX_OFF ->
  3 <= L <= MAX_REF -> ip + L <= zlen inp -> agree inp ref ip L -> op - b2z (lit =? 0) + 4 < zlen out ->
  exists out1 out2 op', stop_run out op lit = Some out1 /\ put_ref out1 (op - b2z (lit =? 0)) (ip - ref - 1) (L - 2) = Some (out2, op') /\
    Rep inp out2 (ip + L) (op' + 1) 0 /\ length out2 = length out /\ op' = op - b2z (lit =? 0) + zlen (enc (Ref (ip - ref - 1) (L - 2))).
Proof.
  unfold MAX_REF. intros Hin HR Href Hoff HL Hip Ha Hroom.
  destruct (stop_run_ok _ _ _ _ _ Hin HR) as (out1 & ts & rest & Hs & [Hts He] & Hout1 & Hlen & Hl1); [destruct (lit =? 0); cbn in Hroom; lia |].
  assert (Hrest : 5 <= zlen rest) by (subst out1; rewrite length_app in Hl1; lia).
  rewrite <- Hlen in *. exists out1. eexists _, _. split; [exact Hs |]. rewrite Hout1, put_ref_ok by lia. split; [reflexivity |].
  set (e := enc (Ref (ip - ref - 1) (L - 2))). assert (Hlene : (length e <= 3)%nat) by (unfold e; cbn; destruct (_ <? 7); cbn; lia).
  split; [|split; [rewrite <- Hl1, Hout1, !length_app, length_drop; lia | done]].
  exists (ts ++ [Ref (ip - ref - 1) (L - 2)]), []. rewrite encode_snoc. fold e. split.
  - split; [|split; [|split; [done |]; split; [done |]; split; [lia | rewrite encode_snoc; fold e; napp]]].
    + apply tokens_ok_snoc. split; [done |]. cbn [token_ok]. rewrite He, length_take. lia.
    + rewrite app_nil_r, expand_all_app, He. cbn [expand_all expand]. rewrite <- agree_copy with (ref := ref) by (done || lia). f_equal; lia.
  - destruct (drop (length e) rest) as [|h rest'] eqn:E; [apply (f_equal length) in E; rewrite length_drop in E; cbn [length] in E; lia |].
    left. exists h, rest'. cbn [app]. by rewrite <- app_assoc.
Qed.

(** Literal runs expand by one byte in 32 and nothing else does. *)
Definition Compact (ip op lit : Z) : Prop := 0 <= lit < MAX_LIT /\ 32 * (op - 1 - lit) <= 33 * (ip - lit).

Lemma compact_literal ip op lit : Compact ip op lit ->
  Compact (ip + 1) (op + 1 + b2z (lit + 1 =? MAX_LIT)) (if lit + 1 =? MAX_LIT then 0 else lit + 1).
Proof. unfold Compact, MAX_LIT, b2z. intros H. zcase; lia. Qed.

Lemma compact_ref ip op lit off L : Compact ip op lit -> 3 <= L -> Compact (ip + L) (op - b2z (lit =? 0) + zlen (enc (Ref off (L - 2))) + 1) 0.
Proof. unfold Compact, MAX_LIT, b2z. cbn [enc]. intros H HL. destruct (Z.ltb_spec (L - 2) 7); cbn [length]; zcase; lia. Qed.

(** An output buffer the compressor cannot run out of. *)
Definition roomy (inp out : list Z) : Prop := 33 * zlen inp + 128 <= 32 * zlen out.

Lemma compress_loop_ok inp fuel : forall out ip op lit hval t, bytes_ok inp -> zlen inp < 2 ^ 32 -> Rep inp out ip op lit -> htab_ok t -> Compact ip op lit ->
  zlen inp - ip < Z.of_nat fuel ->
  exists out' r, compress_loop fuel inp out ip op lit hval t = Some (out', r) /\ length out' = length out /\
    (forall ip' op' lit', r = Some (ip', op', lit') -> Rep inp out' ip' op' lit' /\ zlen inp - 2 <= ip' /\ Compact ip' op' lit') /\
    (r = None -> ~ roomy inp out).
Proof.
  induction fuel as [|fuel IH]; intros out ip op lit hval t Hin Hsz HR Ht Hc Hfuel.
  all: assert (Hip : 0 <= ip <= zlen inp) by (by destruct HR as (? & ? & (_ & _ & _ & _ & ? & _) & _)).
  { lia. }
  cbn [compress_loop]. destruct (Z.ltb_spec ip (zlen inp - 2)) as [Hlt | Hge].
  2: { eexists _, _. split; [reflexivity |]. split; [done |]. split; [|done]. intros ip' op' lit' [= <- <- <-]. split; [done |]. split; [lia | done]. }
  destruct (NEXT_some hval inp ip) as [h ->]; [lia.. |]. cbn [mbind option_bind].
  pose proof (hset_ok t (IDX h) ip Ht) as Ht'. specialize (Ht (IDX h)). set (ref := t (IDX h)) in *.
  destruct (is_match_ok inp ref ip) as (m & -> & Hm); [lia.. |]. cbn [mbind option_bind]. destruct m.
  - destruct (Hm eq_refl) as (Href & Hoff & -> & Ha). clear Hm. set (maxlen := if _ >? MAX_REF then MAX_REF else _).
    assert (Hmax : 1 <= maxlen <= MAX_REF /\ maxlen <= zlen inp - ip - 2) by (unfold maxlen; zcase; unfold MAX_REF in *; lia).
    destruct (_ && _) eqn:Hroom.
    { eexists _, _. split; [reflexivity |]. split; [done |]. split; [discriminate |]. unfold roomy, Compact, MAX_LIT in *. zbool. lia. }
    assert (Hfit : op - b2z (lit =? 0) + 4 < zlen out).
    { apply andb_false_iff in Hroom. destruct (lit =? 0); cbn [b2z] in *; destruct Hroom; zbool; lia. }
    destruct (match_len_ok inp ref ip ltac:(lia) maxlen) as (L & HLe & HL & HLi & HLa); [tauto | lia | done |].
    destruct (emit_ref inp out ip op lit ref L) as (out1 & out2 & op' & E1 & E2 & HR' & Hlen & Hop'); [done | done | lia | done | done | done | done | done |].
    assert (Hc' : Compact (ip + L) (op' + 1) 0) by (subst op'; apply compact_ref; [done | lia]).
    rewrite E1. cbn [mbind option_bind]. rewrite HLe. cbn [mbind option_bind]. rewrite E2. cbn [mbind option_bind].
    replace (ip + 1 + (L - 2 + 1)) with (ip + L) by lia. rewrite Z.geb_leb. destruct (Z.leb_spec (zlen inp - 2) (ip + L)).
    + eexists _, _. split; [reflexivity |]. split; [done |]. split; [|done]. intros ip' op'' lit' [= <- <- <-]. split; [done |]. split; [lia | done].
    + destruct (rehash_ok inp (hset t (IDX h) ip) (ip + L)) as (t' & h' & -> & Ht2); [lia | lia | done |]. cbn [mbind option_bind].
      destruct (IH out2 (ip + L) (op' + 1) 0 h' t') as (out' & r & E & Hl & HE & HN); [done | done | done | done | done | lia |]. exists out', r. split; [done |]. split; [lia |]. unfold roomy in *. rewrite <- Hlen. done.
  - rewrite Z.geb_leb. destruct (Z.leb_spec (zlen out) op); 
      [eexists _, _; split; [reflexivity |]; split; [done |]; split; [discriminate | unfold roomy, Compact, MAX_LIT in *; lia] |].
    destruct (put_literal_ok inp out ip op lit) as (out1 & -> & HR' & Hl1); [done | done | lia | done |]. cbn [mbind option_bind].
    destruct (IH _ _ _ _ h (hset t (IDX h) ip) Hin Hsz HR' Ht' (compact_literal _ _ _ Hc)) as (out' & r & E & Hl & HE & HN); [lia |].
    exists out', r. split; [exact E |]. split; [lia |]. unfold roomy in *. rewrite <- Hl1. done.
Qed.

(** The last literals fit: one byte each and one for a run that fills up. *)
Lemma flush_loop_ok inp fuel : forall out ip op lit, bytes_ok inp -> Rep inp out ip op lit -> zlen inp - ip < Z.of_nat fuel ->
  op + (zlen inp - ip) + b2z (MAX_LIT <=? lit + (zlen inp - ip)) <= zlen out -> zlen inp - ip <= 2 ->
  exists out' op' lit', flush_loop fuel inp out ip op lit = Some (out', op', lit') /\ Rep inp out' (zlen inp) op' lit' /\
    length out' = length out /\ op' <= zlen out.
Proof.
  induction fuel as [|fuel IH]; intros out ip op lit Hin HR Hfuel Hroom Hr.
  all: assert (Hip : 0 <= ip <= zlen inp /\ lit < MAX_LIT /\ 0 <= lit) by (destruct HR as (? & ? & (_ & _ & ? & ? & ? & _) & _); lia).
  { lia. }
  cbn [flush_loop]. destruct (Z.ltb_spec ip (zlen inp)).
  - unfold b2z in Hroom. assert (op < zlen out) by (destruct (_ <=? _); lia).
    destruct (put_literal_ok inp out ip op lit) as (out1 & -> & HR' & Hl1); [done | done | done | done |]. cbn [mbind option_bind].
    destruct (IH out1 (ip + 1) _ _ Hin HR') as (out' & op' & lit' & E & H1 & H2 & H3); [lia | | lia |].
    + rewrite Hl1. unfold MAX_LIT in *. unfold b2z. revert Hroom. zcase; lia.
    + exists out', op', lit'. split; [exact E |]. split; [done |]. split; lia.
  - replace ip with (zlen inp) in * by lia. eexists _, _, _. split; [reflexivity |]. split; [done |]. split; [done |].
    unfold b2z in Hroom. destruct (_ <=? _); lia.
Qed.

Lemma Rep_start inp out : out <> [] -> Rep inp out 0 1 0.
Proof.
  intros Hout. destruct out as [|h rest]; [done |]. exists [], []. split; [|left; by exists h, rest].
  split; [done |]. split; [done |]. split; [done |]. split; [done |]. split; [lia | done].
Qed.

(** The compressor stays in its buffers; unless it gives up (returns 0) its
    output is a token sequence for the input. *)
Lemma compress_ok junk inp out : bytes_ok inp -> 2 <= zlen inp < 2 ^ 32 ->
  exists n out', lzf_compress junk inp out = Some (n, out') /\ length out' = length out /\
    (n <> 0 -> exists ts rest, Encodes inp (zlen inp) ts /\ out' = encode ts ++ rest /\ zlen (encode ts) = n) /\ (roomy inp out -> n <> 0).
Proof.
  intros Hin Hsz. unfold lzf_compress. rewrite (proj2 (Z.eqb_neq (zlen inp) 0)) by lia. cbn [orb].
  destruct (Z.eqb_spec (zlen out) 0) as [E0 | E0]; [exists 0, out; unfold roomy; repeat split; [done | lia] |].
  assert (Hne : out <> []) by (by intros ->).
  destruct (FRST_some inp 0) as [h ->]; [lia.. |]. cbn [mbind option_bind].
  destruct (compress_loop_ok inp (S (length inp)) out 0 1 0 h (fun i => u32 (junk i))) as (out1 & r & -> & Hl1 & Hr & Hnone);
    [done | lia | by apply Rep_start | intros i; apply (uwrap_range 32); lia | by split | lia |].
  cbn [mbind option_bind]. destruct r as [[[ip op] lit] |]; [|exists 0, out1; repeat split; [done | done | intros; by destruct Hnone]].
  destruct (Hr _ _ _ eq_refl) as (HR & Hge & Hc). rewrite Z.gtb_ltb.
  assert (Hip : 0 <= ip <= zlen inp) by (by destruct HR as (? & ? & (_ & _ & _ & _ & ? & _) & _)).
  destruct (Z.ltb_spec (zlen out1) (op + 3)) as [|Hfit]; [exists 0, out1; unfold roomy, Compact in *; repeat split; [done | done | lia] |].
  destruct (flush_loop_ok inp (S (length inp)) out1 ip op lit) as (out2 & op' & lit' & -> & HR2 & Hl2 & Hop);
    [done | done | lia | unfold b2z; destruct (_ <=? _); lia | lia |].
  cbn [mbind option_bind]. destruct (stop_run_ok inp out2 (zlen inp) op' lit' Hin HR2) as (out3 & ts & rest & -> & He & Ho & Hn & Hl3); [lia |].
  cbn [mbind option_bind]. eexists _, _. split; [reflexivity |]. split; [lia |]. split; [intros _; exists ts, rest; by split |]. intros _.
  rewrite <- Hn. destruct ts; [|rewrite zlen_encode_cons, length_app; pose proof (enc_pos t); lia].
  destruct He as [_ He]. cbn in He. apply (f_equal length) in He. rewrite length_take in He. cbn in He. lia.
Qed.

(** ** Decompression of arbitrary input *)

Lemma copy_literals_some n inp : forall out ip op, 0 <= ip -> ip + Z.of_nat n <= zlen inp -> 0 <= op -> op + Z.of_nat n <= zlen out ->
  exists out', copy_literals n inp out ip op = Some out' /\ length out' = length out.
Proof.
  induction n as [|n IH]; intros out ip op H1 H2 H3 H4; cbn [copy_literals]; [by exists out |].
  destruct (bget_some inp ip) as (b & -> & _); [lia |]. cbn [mbind option_bind]. destruct (bset_some out op b) as (out1 & -> & Hl); [lia |]. cbn [mbind option_bind].
  destruct (IH out1 (ip + 1) (op + 1)) as (out' & E & Hl'); [lia.. |]. exists out'. split; [done | lia].
Qed.

Lemma copy_ref_some n : forall out ref op, 0 <= ref <= op -> op + Z.of_nat n <= zlen out ->
  exists out', copy_ref n out ref op = Some out' /\ length out' = length out.
Proof.
  induction n as [|n IH]; intros out ref op H1 H2; cbn [copy_ref]; [by exists out |].
  destruct (bget_some out ref) as (b & -> & _); [lia |]. cbn [mbind option_bind]. destruct (bset_some out op b) as (out1 & -> & Hl); [lia |]. cbn [mbind option_bind].
  destruct (IH out1 (ref + 1) (op + 1)) as (out' & E & Hl'); [lia.. |]. exists out'. split; [done | lia].
Qed.

Lemma copy_back_some out ref op len : 0 <= len -> 0 <= ref <= op -> op + len + 2 <= zlen out ->
  exists out', copy_back out ref op len = Some out' /\ length out' = length out.
Proof.
  intros H0 H1 H2. unfold copy_back. destruct (copy_ref_some (Z.to_nat (len + 2)) out ref op) as (out' & E & Hl); [lia.. |].
  zcase; try by exists out'. unfold bread. repeat zguard. cbn [andb mbind option_bind].
  set (b := take _ _). assert (Hb : length b = Z.to_nat (len + 2)) by (unfold b; rewrite length_take, length_drop; lia).
  assert (Hw : exists o, bwrite out op b = Some o) by (unfold bwrite; do 2 zguard; by eexists). destruct Hw as [o Hw].
  exists o. split; [done |]. by apply bwrite_length in Hw.
Qed.

(** What every exit of the decompressor gives. *)
Definition Safe (out : list Z) (r : option (Z * list Z)) : Prop :=
  exists n out', r = Some (n, out') /\ length out' = length out /\ 0 <= n <= zlen out.

Lemma safe_stop out : Safe out (Some (0, out)).
Proof. exists 0, out. repeat split; lia. Qed.

Lemma safe_len out out1 r : length out1 = length out -> Safe out1 r -> Safe out r.
Proof. intros H (n & o & -> & Hl & Hn). exists n, o. split; [done |]. lia. Qed.

Lemma decompress_loop_safe inp fuel : forall out ip op, bytes_ok inp -> 0 <= ip < zlen inp -> 0 <= op <= zlen out ->
  zlen inp - ip < Z.of_nat fuel -> Safe out (decompress_loop fuel inp out ip op).
Proof.
  induction fuel as [|fuel IH]; intros out ip op Hin Hip Hop Hf; [lia |].
  assert (Hnext : forall ip' op' out1, length out1 = length out -> ip < ip' -> 0 <= op' <= zlen out ->
    Safe out (if ip' <? zlen inp then decompress_loop fuel inp out1 ip' op' else Some (op', out1))).
  { intros ip' op' out1 H1 H2 H3. apply (safe_len _ out1); [done |]. destruct (Z.ltb_spec ip' (zlen inp)); [apply IH; (done || lia) |].
    exists op', out1. split; [done |]. lia. }
  cbn [decompress_loop]. destruct (bget_some inp ip) as (c & Hcr & _); [lia |]. rewrite Hcr. pose proof (bget_byte _ _ _ Hin Hcr) as Hc. cbn [mbind option_bind].
  destruct (Z.ltb_spec c 32).
  - rewrite !Z.gtb_ltb. destruct (Z.ltb_spec (zlen out) (op + (c + 1))); [apply safe_stop |]. destruct (Z.ltb_spec (zlen inp) (ip + 1 + (c + 1))); [apply safe_stop |].
    destruct (copy_literals_some (Z.to_nat (c + 1)) inp out (ip + 1) op) as (out1 & -> & Hl); [lia.. |]. apply Hnext; lia.
  - assert (Hlen : 0 <= Z.shiftr c 5) by (apply Z.shiftr_nonneg; lia). assert (Hoff : 0 <= Z.shiftl (Z.land c 0x1f) 8) by (apply Z.shiftl_nonneg, Z.land_nonneg; lia).
    rewrite !Z.geb_leb. destruct (Z.leb_spec (zlen inp) (ip + 1)); [apply safe_stop |].
    assert (Hend : forall len ip', 0 <= len -> ip < ip' < zlen inp ->
      Safe out (b ← bget inp ip';
        if op + len + 2 >? zlen out then Some (0, out)
        else if op - Z.shiftl (Z.land c 0x1f) 8 - 1 - b <? 0 then Some (0, out)
        else out ← copy_back out (op - Z.shiftl (Z.land c 0x1f) 8 - 1 - b) op len;
             if ip' + 1 <? zlen inp then decompress_loop fuel inp out (ip' + 1) (op + (len + 2)) else Some (op + (len + 2), out))).
    { intros len ip' H1 H2. destruct (bget_some inp ip') as (b & Hbr & _); [lia |]. rewrite Hbr. pose proof (bget_byte _ _ _ Hin Hbr). cbn [mbind option_bind].
      rewrite Z.gtb_ltb. destruct (Z.ltb_spec (zlen out) (op + len + 2)); [apply safe_stop |]. destruct (Z.ltb_spec (op - Z.shiftl (Z.land c 0x1f) 8 - 1 - b) 0); [apply safe_stop |].
      destruct (copy_back_some out (op - Z.shiftl (Z.land c 0x1f) 8 - 1 - b) op len) as (out1 & -> & Hl); [lia.. |]. apply Hnext; lia. }
    destruct (Z.shiftr c 5 =? 7).
    + destruct (bget_some inp (ip + 1)) as (b & Hbr & _); [lia |]. rewrite Hbr. pose proof (bget_byte _ _ _ Hin Hbr). cbn [mbind option_bind].
      destruct (Z.leb_spec (zlen inp) (ip + 1 + 1)); [apply safe_stop |]. apply Hend; lia.
    + cbn [mbind option_bind]. apply Hend; lia.
Qed.

(** ** The guarantees *)

(** What is decompressed into a buffer large enough is the input. *)
Lemma compress_inverse junk inp out : bytes_ok inp -> 2 <= zlen inp < 2 ^ 32 ->
  exists n out', lzf_compress junk inp out = Some (n, out') /\ length out' = length out /\ 0 <= n <= zlen out /\
    (n <> 0 -> forall buf, zlen inp <= zlen buf -> exists buf', lzf_decompress (take (Z.to_nat n) out') buf = Some (zlen inp, buf') /\
       length buf' = length buf /\ take (length inp) buf' = inp) /\
    (33 * zlen inp + 128 <= 32 * zlen out -> n <> 0).
Proof.
  intros Hin Hsz. destruct (compress_ok junk inp out Hin Hsz) as (n & out' & Hc & Hl & Hts & Hroom). exists n, out'.
  split; [done |]. split; [done |]. split; [|split; [|exact Hroom]].
  - destruct (Z.eq_dec n 0) as [-> | Hn]; [lia |]. destruct (Hts Hn) as (ts & rest & _ & -> & <-). rewrite length_app in Hl. lia.
  - intros Hn buf Hbuf. destruct (Hts Hn) as (ts & rest & [Hok He] & -> & <-). rewrite Nat2Z.id, take_app_length in *. rewrite firstn_all in He.
    destruct ts as [|t ts]; [done |]. unfold lzf_decompress.
    destruct (decode ts t (S (length (encode (t :: ts)))) (encode (t :: ts)) [] [] buf) as (o & Hd & Ho & rest' & Hr); [done | done | constructor | by rewrite He | |].
    { pose proof (length_encode_ge (t :: ts)). cbn [length] in *. lia. }
    exists o. rewrite He in *. split; [exact Hd |]. split; [exact Ho |]. by rewrite Hr, take_app_length.
Qed.

(** C18. Compression loses nothing.  For every input of at least two bytes,
    every output buffer and whatever the uninitialised hash table holds, the
    compressor stays inside its buffers; when it returns a length, decompressing
    that many bytes into any buffer large enough gives the input back, byte for
    byte; and it gives up only when the output buffer has less room than 33
    bytes for every 32 of input and four more. *)
Theorem lzf_roundtrip junk inp out buf : bytes_ok inp -> 2 <= zlen inp < 2 ^ 32 -> zlen inp <= zlen buf ->
  exists n out', lzf_compress junk inp out = Some (n, out') /\ length out' = length out /\ 0 <= n <= zlen out /\
    (n <> 0 -> exists buf', lzf_decompress (take (Z.to_nat n) out') buf = Some (zlen inp, buf') /\
       length buf' = length buf /\ take (length inp) buf' = inp) /\
    (33 * zlen inp + 128 <= 32 * zlen out -> n <> 0).
Proof.
  intros Hin Hsz Hbuf. destruct (compress_inverse junk inp out Hin Hsz) as (n & out' & Hc & Hl & Hn & Hd & Hr). exists n, out'. split_and!; try done; [lia.. |].
  intros Hn0. by apply Hd.
Qed.

Lemma lzf_roundtrip_witness : 2 <= zlen [97; 98; 99; 97; 98; 99; 97; 98; 99; 97; 98; 99] < 2 ^ 32 /\
  exists n out', lzf_compress (fun _ => 0) [97; 98; 99; 97; 98; 99; 97; 98; 99; 97; 98; 99] (replicate 20 0) = Some (n, out') /\
    exists buf', lzf_decompress (take (Z.to_nat n) out') (replicate 12 0) = Some (12, buf') /\
      take 12 buf' = [97; 98; 99; 97; 98; 99; 97; 98; 99; 97; 98; 99].
Proof.
  split; [done |].
  destruct (lzf_roundtrip (fun _ => 0) [97; 98; 99; 97; 98; 99; 97; 98; 99; 97; 98; 99] (replicate 20 0) (replicate 12 0)) as (n & out' & H1 & _ & _ & H2 & H3);
    [repeat constructor; lia | done | cbn; lia |].
  exists n, out'. split; [exact H1 |]. destruct H2 as (buf' & Hd & _ & Ht); [apply H3; cbn; lia |]. exists buf'. exact (conj Hd Ht).
Defined.

(** C19. Decompressing any non-empty byte sequence, compressor output or not,
    returns: it reads only its input, writes only inside the output buffer, and
    the length it reports fits the buffer. *)
Theorem lzf_decompress_safe inp out : bytes_ok inp -> inp <> [] ->
  exists n out', lzf_decompress inp out = Some (n, out') /\ length out' = length out /\ 0 <= n <= zlen out.
Proof. intros Hin Hne. apply decompress_loop_safe; [done | destruct inp; [done | cbn; lia] | lia | lia]. Qed.

Lemma lzf_decompress_safe_witness : exists n out', lzf_decompress [255; 7; 3; 9] [0; 0] = Some (n, out') /\ length out' = 2%nat.
Proof.
  destruct (lzf_decompress_safe [255; 7; 3; 9] [0; 0]) as (n & out' & H & Hl & _); [repeat constructor; lia | done |].
  exists n, out'. by split.
Defined.

(** The empty input and the input of one byte are read past their end. *)
Lemma lzf_short_inputs junk b out : 0 < zlen out -> lzf_compress junk [b] out = None /\ lzf_decompress [] out = None.
Proof. intros H. split; [|done]. unfold lzf_compress. rewrite (proj2 (Z.eqb_neq (zlen out) 0)) by lia. done. Qed.

End LzfProps.
