(* ===== verification/Sds.v ===== *)
(** * String operations of sds.c

    A string is the list of its bytes; the terminator the library keeps behind
    it is what a read just past the end returns.  [sdsrange] cuts a string in
    place, [sdscatrepr] quotes one, [sdssplitargs] splits a line into
    arguments and undoes the quoting. *)

From S2P Require Import Prelude Bytes Bits.

Module Sds.

(** [p[i]] of a C string whose bytes are [p]. *)
Definition at_ (p : list Z) (i : nat) : Z := nth i p 0.

(** ** Character classes of the C locale *)

Definition isspace (c : Z) : bool := (c =? 32) || ((9 <=? c) && (c <=? 13)).
Definition isprint (c : Z) : bool := (32 <=? c) && (c <=? 126).
Definition isdigit (c : Z) : bool := (48 <=? c) && (c <=? 57).

(** ** [sdsrange] *)

Definition sdsrange (s : list Z) (start end_ : Z) : list Z :=
  let len := zlen s in
  if len =? 0 then s
  else
    let start := if start <? 0 then (let t := len + start in if t <? 0 then 0 else t) else start in
    let end_ := if end_ <? 0 then (let t := len + end_ in if t <? 0 then 0 else t) else end_ in
    let newlen := if start >? end_ then 0 else end_ - start + 1 in
    if negb (newlen =? 0) then
      if start >=? len then []
      else if end_ >=? len then
        let end_ := len - 1 in
        let newlen := if start >? end_ then 0 else end_ - start + 1 in
        take (Z.to_nat newlen) (drop (Z.to_nat start) s)
      else take (Z.to_nat newlen) (drop (Z.to_nat start) s)
    else [].

(** ** Quoting *)

Definition hex_char (d : Z) : Z := if d <? 10 then 48 + d else 87 + d.

(** One byte of the quoted form; [\x%02x] for what is not printable. *)
Definition repr_byte (c : Z) : list Z :=
  if (c =? 92) || (c =? 34) then [92; c]
  else if c =? 10 then [92; 110]
  else if c =? 13 then [92; 114]
  else if c =? 9 then [92; 116]
  else if c =? 7 then [92; 97]
  else if c =? 8 then [92; 98]
  else if isprint c then [c]
  else [92; 120; hex_char (c / 16); hex_char (c mod 16)].

Definition sdscatrepr (s p : list Z) : list Z := (s ++ [34]) ++ concat (repr_byte <$> p) ++ [34].

(** ** Splitting into arguments *)

Definition is_hex_digit (c : Z) : bool :=
  ((48 <=? c) && (c <=? 57)) || ((97 <=? c) && (c <=? 102)) || ((65 <=? c) && (c <=? 70)).

Definition hex_digit_to_int (c : Z) : Z :=
  if (48 <=? c) && (c <=? 57) then c - 48
  else if (97 <=? c) && (c <=? 102) then c - 87
  else if (65 <=? c) && (c <=? 70) then c - 55
  else 0.

Definition unescape (c : Z) : Z :=
  if c =? 110 then 10 else if c =? 114 then 13 else if c =? 116 then 9 else if c =? 98 then 8 else if c =? 97 then 7 else c.

(** The flags [inq] and [insq]. *)
Inductive quoting := Unquoted | InQ | InSQ.

(** A step of the token loop leaves the loop with an error, or gives the
    quoting, the token so far, the place in the line and [done]. *)
Inductive token_step := Err | Next (q : quoting) (cur p : list Z) (done : bool).

(** A closing quote must be followed by a space or nothing. *)
Definition close_quote (q : quoting) (cur p : list Z) : token_step :=
  if negb (at_ p 1 =? 0) && negb (isspace (at_ p 1)) then Err else Next q cur p true.

Definition token_char (q : quoting) (cur p : list Z) : token_step :=
  let c := at_ p 0 in
  match q with
  | InQ =>
      if (c =? 92) && (at_ p 1 =? 120) && is_hex_digit (at_ p 2) && is_hex_digit (at_ p 3) then
        let byte := u8 (hex_digit_to_int (at_ p 2) * 16 + hex_digit_to_int (at_ p 3)) in
        Next q (cur ++ [byte]) (drop 3 p) false
      else if (c =? 92) && negb (at_ p 1 =? 0) then
        let p := drop 1 p in
        Next q (cur ++ [unescape (at_ p 0)]) p false
      else if c =? 34 then close_quote q cur p
      else if c =? 0 then Err
      else Next q (cur ++ [c]) p false
  | InSQ =>
      if (c =? 92) && (at_ p 1 =? 39) then Next q (cur ++ [39]) (drop 1 p) false
      else if c =? 39 then close_quote q cur p
      else if c =? 0 then Err
      else Next q (cur ++ [c]) p false
  | Unquoted =>
      if (c =? 32) || (c =? 10) || (c =? 13) || (c =? 9) || (c =? 0) then Next q cur p true
      else if c =? 34 then Next InQ cur p false
      else if c =? 39 then Next InSQ cur p false
      else Next q (cur ++ [c]) p false
  end.

(** [while(!done)]: [None] when the fuel ends, [Some None] on an error. *)
Fixpoint get_token (fuel : nat) (q : quoting) (cur p : list Z) : option (option (list Z * list Z)) :=
  match fuel with
  | O => None
  | S fuel =>
      match token_char q cur p with
      | Err => Some None
      | Next q cur p done =>
          let p := if at_ p 0 =? 0 then p else drop 1 p in
          if done : bool then Some (Some (cur, p)) else get_token fuel q cur p
      end
  end.

Fixpoint skip_blanks (p : list Z) : list Z :=
  match p with c :: p' => if negb (c =? 0) && isspace c then skip_blanks p' else p | [] => p end.

Fixpoint split_loop (fuel : nat) (vector : list (list Z)) (p : list Z) : option (option (list (list Z))) :=
  match fuel with
  | O => None
  | S fuel =>
      let p := skip_blanks p in
      if at_ p 0 =? 0 then Some (Some vector)
      else
        r ← get_token (S (length p)) Unquoted [] p;
        match r with
        | None => Some None
        | Some (cur, p) => split_loop fuel (vector ++ [cur]) p
        end
  end.

(** The arguments of a line, or [Some None] for unbalanced quotes. *)
Definition sdssplitargs (line : list Z) : option (option (list (list Z))) := split_loop (S (length line)) [] line.

(** ** [sdsrange] as a slice *)

Lemma sdsrange_drop s start : 0 <= start -> sdsrange s start (-1) = drop (Z.to_nat start) s.
Proof.
  intros H0. unfold sdsrange. destruct s as [|c s]; [by destruct (Z.to_nat start) |]. set (l := c :: s). assert (Hl : 0 < zlen l) by (cbn; lia). clearbody l.
  rewrite (proj2 (Z.eqb_neq _ _)) by lia. do 3 zguard. rewrite Z.gtb_ltb. destruct (Z.ltb_spec (zlen l + -1) start).
  - cbn. by rewrite drop_ge by lia.
  - rewrite (proj2 (Z.eqb_neq (_ - _ + 1) 0)) by lia. cbn [negb]. rewrite !Z.geb_leb. do 2 zguard. rewrite take_ge; [done |]. rewrite length_drop. lia.
Qed.

(** ** Termination *)

Lemma at_nonzero p n : at_ p n <> 0 -> (n < length p)%nat.
Proof. unfold at_. intros H. destruct (Nat.lt_ge_cases n (length p)); [done |]. by rewrite (nth_overflow p) in H. Qed.

Lemma at_drop p n i : at_ (drop n p) i = at_ p (n + i).
Proof. unfold at_. revert n. induction p as [|c p IH]; intros [|n]; cbn; [done | by destruct i | done | apply IH]. Qed.

Lemma hex_nonzero c : is_hex_digit c = true -> c <> 0.
Proof. by intros H ->. Qed.

(** A step that does not end the token has a character to consume. *)
Lemma token_char_next q cur p q' cur' p' : token_char q cur p = Next q' cur' p' false -> at_ p' 0 <> 0 /\ (length p' <= length p)%nat.
Proof.
  unfold token_char, close_quote. intros H.
  repeat match type of H with (match ?x with _ => _ end) = _ => destruct x eqn:?; try discriminate end.
  all: injection H as <- <- <-; zbool; rewrite ?at_drop, ?length_drop; split; try lia; try done.
  all: try (by apply hex_nonzero); try (cbn; lia).
Qed.

Lemma token_char_done q cur p q' cur' p' : token_char q cur p = Next q' cur' p' true -> p' = p.
Proof.
  unfold token_char, close_quote. intros H.
  repeat match type of H with (match ?x with _ => _ end) = _ => destruct x eqn:?; try discriminate end.
  all: by injection H.
Qed.

Lemma get_token_total fuel : forall q cur p, (length p < fuel)%nat -> exists r, get_token fuel q cur p = Some r /\
  forall cur' p', r = Some (cur', p') -> (length p' <= length p)%nat.
Proof.
  induction fuel as [|fuel IH]; intros q cur p Hf; [lia |]. cbn [get_token]. destruct (token_char q cur p) as [|q' cur1 p1 [|]] eqn:E.
  - by exists None.
  - apply token_char_done in E as ->. eexists. split; [reflexivity |]. intros cur' p' [= <- <-]. destruct (_ =? 0); [lia | rewrite length_drop; lia].
  - apply token_char_next in E as [Hc Hl]. rewrite (proj2 (Z.eqb_neq _ _) Hc). pose proof (at_nonzero _ _ Hc).
    destruct (IH q' cur1 (drop 1 p1)) as (r & -> & Hr); [rewrite length_drop; lia |]. exists r. split; [done |].
    intros cur' p' E. apply Hr in E. rewrite length_drop in E. lia.
Qed.

(** A token takes at least one character. *)
Lemma get_token_progress p : at_ p 0 <> 0 -> isspace (at_ p 0) = false -> exists r, get_token (S (length p)) Unquoted [] p = Some r /\
  forall cur' p', r = Some (cur', p') -> (length p' < length p)%nat.
Proof.
  intros H0 Hs. pose proof (at_nonzero _ _ H0) as Hp. cbn [get_token]. destruct (token_char Unquoted [] p) as [|q' cur1 p1 [|]] eqn:E.
  - by exists None.
  - exfalso. revert E. unfold token_char. set (c := at_ p 0) in *. clearbody c. rewrite (proj2 (Z.eqb_neq c 0) H0).
    destruct (Z.eqb_spec c 32) as [-> |]; [done |]. destruct (Z.eqb_spec c 10) as [-> |]; [done |]. destruct (Z.eqb_spec c 13) as [-> |]; [done |].
    destruct (Z.eqb_spec c 9) as [-> |]; [done |]. cbn [orb]. by repeat case_match.
  - apply token_char_next in E as [Hc Hl]. rewrite (proj2 (Z.eqb_neq _ _) Hc). pose proof (at_nonzero _ _ Hc).
    destruct (get_token_total (length p) q' cur1 (drop 1 p1)) as (r & -> & Hr); [rewrite length_drop; lia |]. exists r. split; [done |].
    intros cur' p' E. apply Hr in E. rewrite length_drop in E. lia.
Qed.

Lemma skip_blanks_spec p : (length (skip_blanks p) <= length p)%nat /\ isspace (at_ (skip_blanks p) 0) = false.
Proof.
  induction p as [|c p IH]; [done |]. cbn [skip_blanks]. destruct (_ && _) eqn:E; [destruct IH; split; [cbn [length]; lia | done] |]. split; [done |]. unfold at_. cbn [nth].
  apply andb_false_iff in E as [E | E]; [zbool; by subst | done].
Qed.

Lemma split_loop_total fuel : forall v p, (length p < fuel)%nat -> is_Some (split_loop fuel v p).
Proof.
  induction fuel as [|fuel IH]; intros v p Hf; [lia |]. cbn [split_loop]. destruct (skip_blanks_spec p) as [Hl Hs].
  destruct (Z.eqb_spec (at_ (skip_blanks p) 0) 0) as [|H0]; [by eexists |].
  destruct (get_token_progress _ H0 Hs) as (r & -> & Hr). cbn [mbind option_bind]. destruct r as [[cur p'] |]; [|by eexists].
  apply IH. specialize (Hr _ _ eq_refl). lia.
Qed.

Lemma sdssplitargs_total line : is_Some (sdssplitargs line).
Proof. apply split_loop_total. lia. Qed.

(** ** Quoting and splitting *)

Lemma hex_char_ok d : 0 <= d < 16 -> is_hex_digit (hex_char d) = true /\ hex_digit_to_int (hex_char d) = d.
Proof. unfold is_hex_digit, hex_digit_to_int, hex_char. intros H. destruct (Z.ltb_spec d 10); split; repeat zguard; cbn [orb andb]; try done; lia. Qed.

(** The quoted form of a byte adds that byte to the token. *)
Lemma token_repr fuel cur b rest : 0 <= b < 256 -> get_token (S fuel) InQ cur (repr_byte b ++ rest) = get_token fuel InQ (cur ++ [b]) rest.
Proof.
  intros Hb. cbn [get_token]. enough (token_char InQ cur (repr_byte b ++ rest) = Next InQ (cur ++ [b]) (drop (length (repr_byte b) - 1) (repr_byte b ++ rest)) false /\
    at_ (drop (length (repr_byte b) - 1) (repr_byte b ++ rest)) 0 <> 0) as [-> H].
  { rewrite (proj2 (Z.eqb_neq _ 0) H), drop_drop. replace (length (repr_byte b) - 1 + 1)%nat with (length (repr_byte b)); [by rewrite drop_app_length |].
    unfold repr_byte. by repeat case_match. }
  unfold repr_byte. destruct (Z.eqb_spec b 92) as [-> |]; [done |]. destruct (Z.eqb_spec b 34) as [-> |]; [done |].
  destruct (Z.eqb_spec b 10) as [-> |]; [done |]. destruct (Z.eqb_spec b 13) as [-> |]; [done |]. destruct (Z.eqb_spec b 9) as [-> |]; [done |].
  destruct (Z.eqb_spec b 7) as [-> |]; [done |]. destruct (Z.eqb_spec b 8) as [-> |]; [done |]. cbn [orb].
  destruct (isprint b) eqn:Hp; unfold isprint in Hp; zbool.
  - cbn [app length Nat.sub drop token_char at_ nth]. repeat zguard. cbn [andb]. split; [done | lia].
  - assert (H1 : 0 <= b / 16 < 16) by (split; [apply Z.div_pos; lia | apply Z.div_lt_upper_bound; lia]).
    assert (H2 : 0 <= b mod 16 < 16) by (apply Z.mod_pos_bound; lia). pose proof (Z.div_mod b 16 ltac:(lia)) as Hd.
    destruct (hex_char_ok _ H1) as [X1 X2], (hex_char_ok _ H2) as [Y1 Y2].
    cbn [app length Nat.sub drop token_char at_ nth Z.eqb Pos.eqb andb]. rewrite X1, X2, Y1, Y2. cbn [andb].
    rewrite uwrap_small by (cbn; lia). replace (b / 16 * 16 + b mod 16) with b by lia. split; [done | by apply hex_nonzero].
Qed.

Lemma token_reprs p : forall fuel cur rest, bytes_ok p -> (rest = [] \/ isspace (at_ rest 0) = true) -> (length p < fuel)%nat ->
  get_token fuel InQ cur (concat (repr_byte <$> p) ++ 34 :: rest) = Some (Some (cur ++ p, rest)).
Proof.
  induction p as [|b p IH]; intros fuel cur rest Hp Hr Hf; (destruct fuel as [|fuel]; [lia |]).
  - cbn. unfold close_quote. rewrite app_nil_r. destruct Hr as [-> | Hr]; [done |]. cbn [at_ nth]. unfold at_ in Hr. rewrite Hr, andb_false_r. done.
  - apply Forall_cons in Hp as [Hb Hp]. rewrite fmap_cons. cbn [concat]. rewrite <- app_assoc, token_repr by done.
    rewrite IH by (done || (cbn in Hf; lia)). by rewrite <- app_assoc.
Qed.

(** A line of quoted arguments. *)
Definition quote (p : list Z) : list Z := sdscatrepr [] p.

Fixpoint quoted_line (args : list (list Z)) : list Z :=
  match args with [] => [] | [a] => quote a | a :: args => quote a ++ 32 :: quoted_line args end.

Lemma token_quote p rest fuel : bytes_ok p -> (rest = [] \/ isspace (at_ rest 0) = true) -> (S (length p) < fuel)%nat ->
  get_token fuel Unquoted [] (quote p ++ rest) = Some (Some (p, rest)).
Proof.
  intros Hp Hr Hf. destruct fuel as [|fuel]; [lia |]. unfold quote, sdscatrepr. rewrite <- !app_assoc. cbn [get_token app token_char at_ nth Z.eqb Pos.eqb orb drop].
  rewrite drop_0. by rewrite token_reprs by (done || lia).
Qed.

Lemma length_quote p : (S (length p) < length (quote p))%nat.
Proof.
  unfold quote, sdscatrepr. cbn. rewrite length_app. cbn. enough (length p <= length (concat (repr_byte <$> p)))%nat by lia.
  induction p as [|b p IH]; [done |]. rewrite fmap_cons. cbn [concat]. rewrite length_app. cbn [length]. enough (1 <= length (repr_byte b))%nat by lia.
  unfold repr_byte. repeat case_match; cbn; lia.
Qed.

Lemma split_quoted args : forall fuel v, Forall bytes_ok args -> (length args < fuel)%nat ->
  split_loop fuel v (quoted_line args) = Some (Some (v ++ args)).
Proof.
  induction args as [|a args IH]; intros fuel v Ha Hf; (destruct fuel as [|fuel]; [lia |]); [cbn; by rewrite app_nil_r |].
  apply Forall_cons in Ha as [Ha Has]. assert (E : exists rest, quoted_line (a :: args) = quote a ++ rest /\ (rest = [] \/ isspace (at_ rest 0) = true) /\ skip_blanks rest = skip_blanks (quoted_line args)).
  { destruct args as [|b args]; [exists []; cbn; rewrite app_nil_r; auto | exists (32 :: quoted_line (b :: args)); auto]. }
  destruct E as (rest & E & Hr & Hs). cbn [split_loop]. rewrite E.
  assert (Hsk : skip_blanks (quote a ++ rest) = quote a ++ rest) by done. rewrite Hsk.
  assert (H0 : (at_ (quote a ++ rest) 0 =? 0) = false) by done. rewrite H0.
  rewrite token_quote by (done || (rewrite length_app; pose proof (length_quote a); lia)). cbn [mbind option_bind].
  specialize (IH fuel (v ++ [a]) Has ltac:(cbn in Hf; lia)). destruct fuel as [|fuel]; [done |]. cbn [split_loop] in *. rewrite Hs. rewrite IH. by rewrite <- app_assoc.
Qed.

Lemma split_quoted_line args : Forall bytes_ok args -> sdssplitargs (quoted_line args) = Some (Some args).
Proof.
  intros Ha. unfold sdssplitargs. rewrite split_quoted; [done | done |]. clear Ha. enough (length args <= length (quoted_line args))%nat by lia.
  induction args as [|a args IH]; [done |]. pose proof (length_quote a). destruct args as [|b args]; [cbn; lia |].
  change (quoted_line (a :: b :: args)) with (quote a ++ 32 :: quoted_line (b :: args)). rewrite length_app. cbn [length] in *. lia.
Qed.

End Sds.
