(* ===== verification/Ziplist.v ===== *)
(** * Ziplists (vr_ziplist.c)

    A list of strings and integers packed into one block: a header of ten
    bytes (total size, offset of the last entry, number of entries), the
    entries, and a terminator.  Each entry starts with the length of the entry
    before it, in one byte or five, then its own encoding and length, then its
    contents.  Small hashes, lists and sorted sets are stored this way.

    The block is a list of bytes and a pointer into it an offset; [junk] stands
    for the indeterminate bytes [drealloc] hands out.  The [intrev*ifbe] and
    [memrev*ifbe] macros are the identity on the little endian layout.  A
    failed assertion or an access outside the block is [None]. *)

From S2P Require Import Prelude Bytes NumConv.

Module Ziplist.
Import NumConv.

Definition ZIP_END : Z := 255.
Definition ZIP_BIGLEN : Z := 254.
Definition ZIP_STR_MASK : Z := 0xc0.
Definition ZIP_STR_06B : Z := Z.shiftl 0 6.
Definition ZIP_STR_14B : Z := Z.shiftl 1 6.
Definition ZIP_STR_32B : Z := Z.shiftl 2 6.
Definition ZIP_INT_16B : Z := Z.lor 0xc0 (Z.shiftl 0 4).
Definition ZIP_INT_32B : Z := Z.lor 0xc0 (Z.shiftl 1 4).
Definition ZIP_INT_64B : Z := Z.lor 0xc0 (Z.shiftl 2 4).
Definition ZIP_INT_24B : Z := Z.lor 0xc0 (Z.shiftl 3 4).
Definition ZIP_INT_8B : Z := 0xfe.
Definition ZIP_INT_IMM_MASK : Z := 0x0f.
Definition ZIP_INT_IMM_MIN : Z := 0xf1.
Definition ZIP_INT_IMM_MAX : Z := 0xfd.
Definition INT24_MAX : Z := 0x7fffff.
Definition INT24_MIN : Z := - INT24_MAX - 1.
Definition UINT16_MAX : Z := 65535.
Definition UCHAR_MAX : Z := 255.

Definition ZIP_IS_STR (enc : Z) : bool := Z.land enc ZIP_STR_MASK <? ZIP_STR_MASK.

Definition ZIPLIST_HEADER_SIZE : Z := 4 * 2 + 2.
Definition ZIPLIST_END_SIZE : Z := 1.

(** The header fields, as loads and stores. *)
Definition ZIPLIST_BYTES (zl : list Z) : option Z := le_val <$> bread zl 0 4.
Definition ZIPLIST_TAIL_OFFSET (zl : list Z) : option Z := le_val <$> bread zl 4 4.
Definition ZIPLIST_LENGTH (zl : list Z) : option Z := le_val <$> bread zl 8 2.
Definition set_BYTES (zl : list Z) (v : Z) : option (list Z) := bwrite zl 0 (le_bytes 4 v).
Definition set_TAIL_OFFSET (zl : list Z) (v : Z) : option (list Z) := bwrite zl 4 (le_bytes 4 v).
Definition set_LENGTH (zl : list Z) (v : Z) : option (list Z) := bwrite zl 8 (le_bytes 2 v).

Definition ZIPLIST_ENTRY_HEAD : Z := ZIPLIST_HEADER_SIZE.
Definition ZIPLIST_ENTRY_TAIL (zl : list Z) : option Z := ZIPLIST_TAIL_OFFSET zl.
Definition ZIPLIST_ENTRY_END (zl : list Z) : option Z := n ← ZIPLIST_BYTES zl; Some (n - 1).

Definition ZIPLIST_INCR_LENGTH (zl : list Z) (incr : Z) : option (list Z) :=
  n ← ZIPLIST_LENGTH zl;
  if n <? UINT16_MAX then set_LENGTH zl (u16 (n + incr)) else Some zl.

Record zlentry := mk_zlentry {
  prevrawlensize : Z; prevrawlen : Z;
  lensize : Z; len : Z;
  headersize : Z;
  encoding : Z;
  ze_p : Z
}.

(** ** Encodings *)

Definition ZIP_ENTRY_ENCODING (zl : list Z) (ptr : Z) : option Z :=
  e ← bget zl ptr;
  Some (if e <? ZIP_STR_MASK then Z.land e ZIP_STR_MASK else e).

Definition zipIntSize (enc : Z) : Z :=
  if enc =? ZIP_INT_8B then 1
  else if enc =? ZIP_INT_16B then 2
  else if enc =? ZIP_INT_24B then 3
  else if enc =? ZIP_INT_32B then 4
  else if enc =? ZIP_INT_64B then 8
  else 0.

(** The bytes [zipEncodeLength] puts in its local buffer. *)
Definition encode_length_buf (enc rawlen : Z) : list Z :=
  if ZIP_IS_STR enc then
    if rawlen <=? 0x3f then [u8 (Z.lor ZIP_STR_06B rawlen)]
    else if rawlen <=? 0x3fff then
      [u8 (Z.lor ZIP_STR_14B (Z.land (Z.shiftr rawlen 8) 0x3f)); Z.land rawlen 0xff]
    else
      [ZIP_STR_32B; Z.land (Z.shiftr rawlen 24) 0xff; Z.land (Z.shiftr rawlen 16) 0xff;
       Z.land (Z.shiftr rawlen 8) 0xff; Z.land rawlen 0xff]
  else [enc].

(** [zipEncodeLength(NULL, enc, rawlen)] *)
Definition zipEncodeLength_size (enc rawlen : Z) : Z := zlen (encode_length_buf enc rawlen).

Definition zipEncodeLength (zl : list Z) (p enc rawlen : Z) : option (list Z * Z) :=
  let buf := encode_length_buf enc rawlen in
  zl ← bwrite zl p buf; Some (zl, zlen buf).

(** [encoding], [lensize] and [len]. *)
Definition ZIP_DECODE_LENGTH (zl : list Z) (ptr : Z) : option (Z * Z * Z) :=
  enc ← ZIP_ENTRY_ENCODING zl ptr;
  if enc <? ZIP_STR_MASK then
    b0 ← bget zl ptr;
    if enc =? ZIP_STR_06B then Some (enc, 1, Z.land b0 0x3f)
    else if enc =? ZIP_STR_14B then
      b1 ← bget zl (ptr + 1);
      Some (enc, 2, Z.lor (Z.shiftl (Z.land b0 0x3f) 8) b1)
    else if enc =? ZIP_STR_32B then
      b1 ← bget zl (ptr + 1); b2 ← bget zl (ptr + 2);
      b3 ← bget zl (ptr + 3); b4 ← bget zl (ptr + 4);
      Some (enc, 5, u32 (Z.lor (Z.lor (Z.lor (Z.shiftl b1 24) (Z.shiftl b2 16)) (Z.shiftl b3 8)) b4))
    else None
  else Some (enc, 1, zipIntSize enc).

(** [zipPrevEncodeLength(NULL, len)] *)
Definition zipPrevEncodeLength_size (n : Z) : Z := if n <? ZIP_BIGLEN then 1 else 4 + 1.

Definition zipPrevEncodeLengthForceLarge (zl : list Z) (p n : Z) : option (list Z) :=
  zl ← bset zl p ZIP_BIGLEN;
  bwrite zl (p + 1) (le_bytes 4 n).

Definition zipPrevEncodeLength (zl : list Z) (p n : Z) : option (list Z * Z) :=
  if n <? ZIP_BIGLEN then
    zl ← bset zl p n; Some (zl, 1)
  else
    zl ← bset zl p ZIP_BIGLEN;
    zl ← bwrite zl (p + 1) (le_bytes 4 n); Some (zl, 1 + 4).

Definition ZIP_DECODE_PREVLENSIZE (zl : list Z) (ptr : Z) : option Z :=
  b ← bget zl ptr; Some (if b <? ZIP_BIGLEN then 1 else 5).

(** [prevlensize] and [prevlen]. *)
Definition ZIP_DECODE_PREVLEN (zl : list Z) (ptr : Z) : option (Z * Z) :=
  n ← ZIP_DECODE_PREVLENSIZE zl ptr;
  if n =? 1 then b ← bget zl ptr; Some (n, b)
  else bs ← bread zl (ptr + 1) 4; Some (n, le_val bs).

Definition zipPrevLenByteDiff (zl : list Z) (p n : Z) : option Z :=
  prevlensize ← ZIP_DECODE_PREVLENSIZE zl p;
  Some (s32 (u32 (zipPrevEncodeLength_size n - prevlensize))).

Definition zipRawEntryLength (zl : list Z) (p : Z) : option Z :=
  prevlensize ← ZIP_DECODE_PREVLENSIZE zl p;
  '(enc, lensize, len) ← ZIP_DECODE_LENGTH zl (p + prevlensize);
  Some (u32 (prevlensize + lensize + len)).

(** The value and its encoding, [None] for 0. *)
Definition zipTryEncoding (entry : list Z) : option (Z * Z) :=
  if (zlen entry >=? 32) || (zlen entry =? 0) then None
  else
    value ← string2ll entry;
    Some (value,
      if (value >=? 0) && (value <=? 12) then ZIP_INT_IMM_MIN + value
      else if (value >=? -128) && (value <=? 127) then ZIP_INT_8B
      else if (value >=? INT16_MIN) && (value <=? INT16_MAX) then ZIP_INT_16B
      else if (value >=? INT24_MIN) && (value <=? INT24_MAX) then ZIP_INT_24B
      else if (value >=? INT32_MIN) && (value <=? INT32_MAX) then ZIP_INT_32B
      else ZIP_INT_64B).

Definition is_imm (enc : Z) : bool := (enc >=? ZIP_INT_IMM_MIN) && (enc <=? ZIP_INT_IMM_MAX).

Definition zipSaveInteger (zl : list Z) (p value enc : Z) : option (list Z) :=
  if enc =? ZIP_INT_8B then bset zl p value
  else if enc =? ZIP_INT_16B then bwrite zl p (le_bytes 2 value)
  else if enc =? ZIP_INT_24B then bwrite zl p (drop 1 (le_bytes 4 (s32 (Z.shiftl value 8))))
  else if enc =? ZIP_INT_32B then bwrite zl p (le_bytes 4 value)
  else if enc =? ZIP_INT_64B then bwrite zl p (le_bytes 8 value)
  else if is_imm enc then Some zl
  else None.

Definition zipLoadInteger (zl : list Z) (p enc : Z) : option Z :=
  if enc =? ZIP_INT_8B then b ← bget zl p; Some (swrap 8 b)
  else if enc =? ZIP_INT_16B then bs ← bread zl p 2; Some (s16 (le_val bs))
  else if enc =? ZIP_INT_32B then bs ← bread zl p 4; Some (s32 (le_val bs))
  else if enc =? ZIP_INT_24B then bs ← bread zl p 3; Some (Z.shiftr (s32 (le_val (0 :: bs))) 8)
  else if enc =? ZIP_INT_64B then bs ← bread zl p 8; Some (s64 (le_val bs))
  else if is_imm enc then Some (Z.land enc ZIP_INT_IMM_MASK - 1)
  else None.

Definition zipEntry (zl : list Z) (p : Z) : option zlentry :=
  '(prevrawlensize, prevrawlen) ← ZIP_DECODE_PREVLEN zl p;
  '(encoding, lensize, len) ← ZIP_DECODE_LENGTH zl (p + prevrawlensize);
  Some (mk_zlentry prevrawlensize prevrawlen lensize len (u32 (prevrawlensize + lensize)) encoding p).

(** ** Updates *)

Section Alloc.
Context (junk : nat -> Z).

Definition ziplistNew : option (list Z) :=
  let bytes := ZIPLIST_HEADER_SIZE + 1 in
  let zl := brealloc junk [] bytes in
  zl ← set_BYTES zl bytes;
  zl ← set_TAIL_OFFSET zl ZIPLIST_HEADER_SIZE;
  zl ← set_LENGTH zl 0;
  bset zl (bytes - 1) ZIP_END.

Definition ziplistResize (zl : list Z) (n : Z) : option (list Z) :=
  let zl := brealloc junk zl n in
  zl ← set_BYTES zl n;
  bset zl (n - 1) ZIP_END.

(** The [while] loop of [__ziplistCascadeUpdate]. *)
Fixpoint cascade_loop (fuel : nat) (zl : list Z) (p curlen : Z) : option (list Z) :=
  match fuel with
  | O => None
  | S fuel =>
      c ← bget zl p;
      if c =? ZIP_END then Some zl
      else
        cur ← zipEntry zl p;
        let rawlen := u32 (headersize cur + len cur) in
        let rawlensize := zipPrevEncodeLength_size rawlen in
        n0 ← bget zl (p + rawlen);
        if n0 =? ZIP_END then Some zl
        else
          next ← zipEntry zl (p + rawlen);
          if prevrawlen next =? rawlen then Some zl
          else if prevrawlensize next <? rawlensize then
            let extra := u64 (rawlensize - prevrawlensize next) in
            zl ← ziplistResize zl (u32 (curlen + extra));
            let np := p + rawlen in
            let noffset := np in
            tail ← ZIPLIST_TAIL_OFFSET zl;
            zl ← (if negb (tail =? np) then set_TAIL_OFFSET zl (u32 (tail + extra)) else Some zl);
            zl ← bmove zl (np + rawlensize) (np + prevrawlensize next)
                       (u64 (curlen - noffset - prevrawlensize next - 1));
            '(zl, _) ← zipPrevEncodeLength zl np rawlen;
            cascade_loop fuel zl (p + rawlen) (u64 (curlen + extra))
          else if prevrawlensize next >? rawlensize then
            zipPrevEncodeLengthForceLarge zl (p + rawlen) rawlen
          else
            '(zl, _) ← zipPrevEncodeLength zl (p + rawlen) rawlen; Some zl
  end.

Definition __ziplistCascadeUpdate (zl : list Z) (p : Z) : option (list Z) :=
  curlen ← ZIPLIST_BYTES zl;
  cascade_loop (S (length zl)) zl p curlen.

(** [for (i = 0; p[0] != ZIP_END && i < num; i++)]: the final [p] and [deleted]. *)
Fixpoint delete_skip (fuel : nat) (zl : list Z) (p i num deleted : Z) : option (Z * Z) :=
  match fuel with
  | O => None
  | S fuel =>
      c ← bget zl p;
      if negb (c =? ZIP_END) && (i <? num) then
        n ← zipRawEntryLength zl p;
        delete_skip fuel zl (p + n) (i + 1) num (deleted + 1)
      else Some (p, deleted)
  end.

Definition __ziplistDelete (zl : list Z) (p num : Z) : option (list Z) :=
  first ← zipEntry zl p;
  '(p, deleted) ← delete_skip (S (length zl)) zl p 0 num 0;
  let totlen := u32 (p - ze_p first) in
  if totlen >? 0 then
    c ← bget zl p;
    '(zl, nextdiff) ←
      (if negb (c =? ZIP_END) then
         nextdiff ← zipPrevLenByteDiff zl p (prevrawlen first);
         let p := p - nextdiff in
         '(zl, _) ← zipPrevEncodeLength zl p (prevrawlen first);
         toff ← ZIPLIST_TAIL_OFFSET zl;
         zl ← set_TAIL_OFFSET zl (u32 (toff - totlen));
         tail ← zipEntry zl p;
         after ← bget zl (p + u32 (headersize tail + len tail));
         zl ← (if negb (after =? ZIP_END) then
                 toff ← ZIPLIST_TAIL_OFFSET zl;
                 set_TAIL_OFFSET zl (u32 (toff + nextdiff))
               else Some zl);
         bytes ← ZIPLIST_BYTES zl;
         zl ← bmove zl (ze_p first) p (u64 (bytes - p - 1));
         Some (zl, nextdiff)
       else
         zl ← set_TAIL_OFFSET zl (u32 (ze_p first - prevrawlen first));
         Some (zl, 0));
    let offset := ze_p first in
    bytes ← ZIPLIST_BYTES zl;
    zl ← ziplistResize zl (u32 (bytes - totlen + nextdiff));
    zl ← ZIPLIST_INCR_LENGTH zl (u32 (- deleted));
    if negb (nextdiff =? 0) then __ziplistCascadeUpdate zl offset else Some zl
  else Some zl.

Definition __ziplistInsert (zl : list Z) (p : Z) (s : list Z) : option (list Z) :=
  let slen := zlen s in
  curlen ← ZIPLIST_BYTES zl;
  c ← bget zl p;
  prevlen ←
    (if negb (c =? ZIP_END) then '(_, prevlen) ← ZIP_DECODE_PREVLEN zl p; Some prevlen
     else
       ptail ← ZIPLIST_ENTRY_TAIL zl;
       t ← bget zl ptail;
       if negb (t =? ZIP_END) then zipRawEntryLength zl ptail else Some 0);
  let '(value, encoding, reqlen) :=
    match zipTryEncoding s with
    | Some (v, e) => (v, e, zipIntSize e)
    | None => (123456789, 0, slen)
    end in
  let reqlen := reqlen + zipPrevEncodeLength_size prevlen in
  let reqlen := reqlen + zipEncodeLength_size encoding slen in
  nextdiff ← (if negb (c =? ZIP_END) then zipPrevLenByteDiff zl p (u32 reqlen) else Some 0);
  zl ← ziplistResize zl (u32 (curlen + reqlen + nextdiff));
  c ← bget zl p;
  zl ←
    (if negb (c =? ZIP_END) then
       zl ← bmove zl (p + reqlen) (p - nextdiff) (u64 (curlen - p - 1 + nextdiff));
       '(zl, _) ← zipPrevEncodeLength zl (p + reqlen) (u32 reqlen);
       toff ← ZIPLIST_TAIL_OFFSET zl;
       zl ← set_TAIL_OFFSET zl (u32 (toff + reqlen));
       tail ← zipEntry zl (p + reqlen);
       after ← bget zl (p + reqlen + u32 (headersize tail + len tail));
       if negb (after =? ZIP_END) then
         toff ← ZIPLIST_TAIL_OFFSET zl;
         set_TAIL_OFFSET zl (u32 (toff + nextdiff))
       else Some zl
     else set_TAIL_OFFSET zl p);
  zl ← (if negb (nextdiff =? 0) then __ziplistCascadeUpdate zl (p + reqlen) else Some zl);
  '(zl, n) ← zipPrevEncodeLength zl p prevlen;
  let p := p + n in
  '(zl, n) ← zipEncodeLength zl p encoding slen;
  let p := p + n in
  zl ← (if ZIP_IS_STR encoding then bwrite zl p s else zipSaveInteger zl p value encoding);
  ZIPLIST_INCR_LENGTH zl 1.

(** Merging two different, existing lists: the merged list and whether it is
    the block of [first] (the other one is freed). *)
Definition ziplistMerge (first second : list Z) : option (list Z * bool) :=
  first_bytes ← ZIPLIST_BYTES first;
  first_len ← ZIPLIST_LENGTH first;
  second_bytes ← ZIPLIST_BYTES second;
  second_len ← ZIPLIST_LENGTH second;
  let append := first_len >=? second_len in
  let '(target, target_bytes, source, source_bytes) :=
    if append then (first, first_bytes, second, second_bytes)
    else (second, second_bytes, first, first_bytes) in
  let zlbytes := u64 (first_bytes + second_bytes - ZIPLIST_HEADER_SIZE - ZIPLIST_END_SIZE) in
  let zllength := first_len + second_len in
  let zllength := if zllength <? UINT16_MAX then zllength else UINT16_MAX in
  first_offset ← ZIPLIST_TAIL_OFFSET first;
  second_offset ← ZIPLIST_TAIL_OFFSET second;
  let target := brealloc junk target zlbytes in
  target ←
    (if append then
       bs ← bread source ZIPLIST_HEADER_SIZE (u64 (source_bytes - ZIPLIST_HEADER_SIZE));
       bwrite target (target_bytes - ZIPLIST_END_SIZE) bs
     else
       target ← bmove target (source_bytes - ZIPLIST_END_SIZE) ZIPLIST_HEADER_SIZE
                      (u64 (target_bytes - ZIPLIST_HEADER_SIZE));
       bs ← bread source 0 (u64 (source_bytes - ZIPLIST_END_SIZE));
       bwrite target 0 bs);
  target ← set_BYTES target (u32 zlbytes);
  target ← set_LENGTH target zllength;
  target ← set_TAIL_OFFSET target
             (u32 ((first_bytes - ZIPLIST_END_SIZE) + (second_offset - ZIPLIST_HEADER_SIZE)));
  target ← __ziplistCascadeUpdate target first_offset;
  Some (target, append).

Definition ziplistPush (zl s : list Z) (where_head : bool) : option (list Z) :=
  p ← (if where_head then Some ZIPLIST_ENTRY_HEAD else ZIPLIST_ENTRY_END zl);
  __ziplistInsert zl p s.

Definition ziplistInsert (zl : list Z) (p : Z) (s : list Z) : option (list Z) := __ziplistInsert zl p s.

(** The offset left in [p] is the one passed. *)
Definition ziplistDelete (zl : list Z) (p : Z) : option (list Z * Z) :=
  zl ← __ziplistDelete zl p 1; Some (zl, p).
End Alloc.

(** ** Traversal

    A pointer that may be NULL is an [option Z]. *)

(** [while (prevlen > 0 && index--)]: the final [p] and [index]. *)
Fixpoint index_back (fuel : nat) (zl : list Z) (p prevlen index : Z) : option (Z * Z) :=
  match fuel with
  | O => None
  | S fuel =>
      if prevlen >? 0 then
        if index =? 0 then Some (p, index - 1)
        else
          '(_, prevlen') ← ZIP_DECODE_PREVLEN zl (p - prevlen);
          index_back fuel zl (p - prevlen) prevlen' (index - 1)
      else Some (p, index)
  end.

(** [while (p[0] != ZIP_END && index--)] *)
Fixpoint index_fwd (fuel : nat) (zl : list Z) (p index : Z) : option (Z * Z) :=
  match fuel with
  | O => None
  | S fuel =>
      c ← bget zl p;
      if negb (c =? ZIP_END) then
        if index =? 0 then Some (p, index - 1)
        else n ← zipRawEntryLength zl p; index_fwd fuel zl (p + n) (index - 1)
      else Some (p, index)
  end.

Definition ziplistIndex (zl : list Z) (index : Z) : option (option Z) :=
  '(p, index) ←
    (if index <? 0 then
       let index := s32 (s32 (- index) - 1) in
       p ← ZIPLIST_ENTRY_TAIL zl;
       c ← bget zl p;
       if negb (c =? ZIP_END) then
         '(_, prevlen) ← ZIP_DECODE_PREVLEN zl p;
         index_back (S (length zl)) zl p prevlen index
       else Some (p, index)
     else index_fwd (S (length zl)) zl ZIPLIST_ENTRY_HEAD index);
  c ← bget zl p;
  Some (if (c =? ZIP_END) || (index >? 0) then None else Some p).

Definition ziplistNext (zl : list Z) (p : Z) : option (option Z) :=
  c ← bget zl p;
  if c =? ZIP_END then Some None
  else
    n ← zipRawEntryLength zl p;
    c ← bget zl (p + n);
    Some (if c =? ZIP_END then None else Some (p + n)).

Definition ziplistPrev (zl : list Z) (p : Z) : option (option Z) :=
  c ← bget zl p;
  if c =? ZIP_END then
    p ← ZIPLIST_ENTRY_TAIL zl;
    c ← bget zl p;
    Some (if c =? ZIP_END then None else Some p)
  else if p =? ZIPLIST_ENTRY_HEAD then Some None
  else
    '(_, prevlen) ← ZIP_DECODE_PREVLEN zl p;
    if prevlen >? 0 then Some (Some (p - prevlen)) else None.

(** What [ziplistGet] stores: a string, or an integer with [sstr] NULL. *)
Inductive zget := ZStr (s : list Z) | ZInt (v : Z).

Definition ziplistGet (zl : list Z) (p : option Z) : option (option zget) :=
  match p with
  | None => Some None
  | Some p =>
      c ← bget zl p;
      if c =? ZIP_END then Some None
      else
        entry ← zipEntry zl p;
        if ZIP_IS_STR (encoding entry) then
          s ← bread zl (p + headersize entry) (len entry); Some (Some (ZStr s))
        else
          v ← zipLoadInteger zl (p + headersize entry) (encoding entry); Some (Some (ZInt v))
  end.

Definition ziplistDeleteRange (junk : nat -> Z) (zl : list Z) (index num : Z) : option (list Z) :=
  p ← ziplistIndex zl index;
  match p with None => Some zl | Some p => __ziplistDelete junk zl p num end.

Definition ziplistCompare (zl : list Z) (p : Z) (sstr : list Z) : option bool :=
  c ← bget zl p;
  if c =? ZIP_END then Some false
  else
    entry ← zipEntry zl p;
    if ZIP_IS_STR (encoding entry) then
      if len entry =? zlen sstr then
        s ← bread zl (p + headersize entry) (zlen sstr); Some (bool_decide (s = sstr))
      else Some false
    else
      match zipTryEncoding sstr with
      | Some (sval, _) =>
          zval ← zipLoadInteger zl (p + headersize entry) (encoding entry); Some (zval =? sval)
      | None => Some false
      end.

(** The [while] loop of [ziplistFind]; [vencoding] and [vll] cache the
    conversion of the searched value. *)
Fixpoint find_loop (fuel : nat) (zl : list Z) (p : Z) (vstr : list Z) (skip skipcnt vencoding vll : Z)
  : option (option Z) :=
  match fuel with
  | O => None
  | S fuel =>
      c ← bget zl p;
      if c =? ZIP_END then Some None
      else
        prevlensize ← ZIP_DECODE_PREVLENSIZE zl p;
        '(encoding, lensize, len) ← ZIP_DECODE_LENGTH zl (p + prevlensize);
        let q := p + prevlensize + lensize in
        if skipcnt =? 0 then
          if ZIP_IS_STR encoding then
            s ← (if len =? zlen vstr then bread zl q len else Some []);
            if (len =? zlen vstr) && bool_decide (s = vstr) then Some (Some p)
            else find_loop fuel zl (q + len) vstr skip (s32 skip) vencoding vll
          else
            let '(vll, vencoding) :=
              if vencoding =? 0 then
                match zipTryEncoding vstr with
                | Some (v, e) => (v, e)
                | None => (vll, UCHAR_MAX)
                end
              else (vll, vencoding) in
            if vencoding =? 0 then None
            else if negb (vencoding =? UCHAR_MAX) then
              ll ← zipLoadInteger zl q encoding;
              if ll =? vll then Some (Some p)
              else find_loop fuel zl (q + len) vstr skip (s32 skip) vencoding vll
            else find_loop fuel zl (q + len) vstr skip (s32 skip) vencoding vll
        else find_loop fuel zl (q + len) vstr skip (s32 (skipcnt - 1)) vencoding vll
  end.

Definition ziplistFind (zl : list Z) (p : Z) (vstr : list Z) (skip : Z) : option (option Z) :=
  find_loop (S (length zl)) zl p vstr skip 0 0 0.

(** The counting loop of [ziplistLen]. *)
Fixpoint count_loop (fuel : nat) (zl : list Z) (p len : Z) : option Z :=
  match fuel with
  | O => None
  | S fuel =>
      c ← bget zl p;
      if negb (c =? ZIP_END) then n ← zipRawEntryLength zl p; count_loop fuel zl (p + n) (u32 (len + 1))
      else Some len
  end.

(** The length, and the block with the length re-stored. *)
Definition ziplistLen (zl : list Z) : option (Z * list Z) :=
  n ← ZIPLIST_LENGTH zl;
  if n <? UINT16_MAX then Some (n, zl)
  else
    n ← count_loop (S (length zl)) zl ZIPLIST_HEADER_SIZE 0;
    zl ← (if n <? UINT16_MAX then set_LENGTH zl n else Some zl);
    Some (n, zl).

Definition ziplistBlobLen (zl : list Z) : option Z := ZIPLIST_BYTES zl.

End Ziplist.
