(* ===== verification/ZiplistInv.v ===== *)
(** * The layout of a ziplist

    A ziplist block is the image of a list of entries, each a content with the
    width of its back pointer.  [layout] is that image; the lemmas say what the
    macros of vr_ziplist.c read at an entry of it. *)

From S2P Require Import Prelude Bytes Bits NumConv Ziplist.

Module ZiplistInv.
Import NumConv Ziplist.

(** ** Contents *)

Inductive content := Str (s : list Z) | Num (e v : Z).

(** The bytes of an integer of the given encoding. *)
Definition int_bytes (e v : Z) : list Z :=
  if e =? ZIP_INT_8B then [u8 v]
  else if e =? ZIP_INT_16B then le_bytes 2 v
  else if e =? ZIP_INT_24B then le_bytes 3 v
  else if e =? ZIP_INT_32B then le_bytes 4 v
  else if e =? ZIP_INT_64B then le_bytes 8 v
  else [].

Definition int_ok (e v : Z) : Prop :=
  (is_imm e = true /\ v = e - ZIP_INT_IMM_MIN) \/
  ((e = ZIP_INT_8B \/ e = ZIP_INT_16B \/ e = ZIP_INT_24B \/ e = ZIP_INT_32B \/ e = ZIP_INT_64B) /\
   - 2 ^ (8 * zipIntSize e - 1) <= v < 2 ^ (8 * zipIntSize e - 1)).

Definition content_ok (c : content) : Prop :=
  match c with
  | Str s => bytes_ok s
  | Num e v => int_ok e v
  end.

Definition chead (c : content) : list Z :=
  match c with
  | Str s => encode_length_buf 0 (zlen s)
  | Num e v => [e]
  end.

Definition cbody (c : content) : list Z :=
  match c with
  | Str s => s
  | Num e v => int_bytes e v
  end.

(** The encoding byte as [ZIP_ENTRY_ENCODING] returns it. *)
Definition cenc (c : content) : Z :=
  match c with
  | Str s => if zlen s <=? 0x3f then ZIP_STR_06B else if zlen s <=? 0x3fff then ZIP_STR_14B else ZIP_STR_32B
  | Num e v => e
  end.

Definition cbytes (c : content) : list Z := chead c ++ cbody c.

(** The bytes the entry stands for. *)
Definition cvalue (c : content) : list Z :=
  match c with
  | Str s => s
  | Num e v => dec_string v
  end.

(** What [__ziplistInsert] stores for a string. *)
Definition content_of (s : list Z) : content :=
  match zipTryEncoding s with
  | Some (v, e) => Num e v
  | None => Str s
  end.

(** ** Entries *)

(** Whether the back pointer takes five bytes, and the content. *)
Definition ent : Type := bool * content.

Definition pfield (big : bool) (prev : Z) : list Z := if big then ZIP_BIGLEN :: le_bytes 4 prev else [prev].
Definition psize (big : bool) : Z := if big then 5 else 1.
Definition elen (e : ent) : Z := psize e.1 + zlen (cbytes e.2).
Definition ebytes (prev : Z) (e : ent) : list Z := pfield e.1 prev ++ cbytes e.2.

Fixpoint eall (prev : Z) (es : list ent) : list Z :=
  match es with
  | [] => []
  | e :: es => ebytes prev e ++ eall (elen e) es
  end.

(** The back pointers fit in their fields. *)
Fixpoint fits (prev : Z) (es : list ent) : Prop :=
  match es with
  | [] => True
  | e :: es => (ZIP_BIGLEN <= prev -> e.1 = true) /\ content_ok e.2 /\ fits (elen e) es
  end.

(** The total length of the entries, and the length of the last one. *)
Fixpoint esum (es : list ent) : Z :=
  match es with
  | [] => 0
  | e :: es => elen e + esum es
  end.

Fixpoint lastlen (prev : Z) (es : list ent) : Z :=
  match es with
  | [] => prev
  | e :: es => lastlen (elen e) es
  end.

(** The offset of the last of the entries that start at [off]. *)
Definition tailoff (off : Z) (es : list ent) : Z := off + esum es - lastlen 0 es.

Definition header (total tail cnt : Z) : list Z := le_bytes 4 total ++ le_bytes 4 tail ++ le_bytes 2 cnt.

Definition layout (es : list ent) (cnt : Z) : list Z :=
  header (11 + esum es) (tailoff 10 es) cnt ++ eall 0 es ++ [ZIP_END].

Definition count_ok (cnt : Z) (n : Z) : Prop := cnt = UINT16_MAX \/ (cnt = n /\ n < UINT16_MAX).

(** No more than this many bytes, whatever the widths of the back pointers. *)
Fixpoint cap (es : list ent) : Z :=
  match es with
  | [] => 11
  | e :: es => 5 + zlen (cbytes e.2) + cap es
  end.

Definition head_small (es : list ent) : Prop := match es with [] => True | e :: _ => e.1 = false end.

Record rep (zl : list Z) (es : list ent) : Prop := {
  rep_layout : exists cnt, zl = layout es cnt /\ count_ok cnt (zlen es);
  rep_fits : fits 0 es;
  rep_head : head_small es
}.

Definition contents (es : list ent) : list content := map snd es.
Definition values (es : list ent) : list (list Z) := map cvalue (contents es).

(** ** Lengths *)

Lemma zipIntSize_length e v : int_ok e v -> zlen (int_bytes e v) = zipIntSize e.
Proof.
  intros Hi. unfold int_bytes, zipIntSize. repeat (case_match; [len |]). done.
Qed.

Lemma cbytes_pos c : 1 <= zlen (cbytes c).
Proof. destruct c; unfold cbytes; cbn [chead]; [|len]. unfold encode_length_buf. repeat case_match; len. Qed.

Lemma elen_lower e : 2 <= elen e.
Proof. unfold elen. pose proof (cbytes_pos e.2). destruct e as [[|] c]; cbn in *; lia. Qed.

Lemma elen_upper e : elen e <= 5 + zlen (cbytes e.2).
Proof. unfold elen. destruct e as [[|] c]; cbn; lia. Qed.

Lemma length_pfield b prev : zlen (pfield b prev) = psize b.
Proof. destruct b; cbn; len. Qed.

Lemma length_ebytes prev e : zlen (ebytes prev e) = elen e.
Proof. unfold ebytes, elen. rewrite length_app. pose proof (length_pfield e.1 prev). lia. Qed.

Lemma length_eall es : forall prev, zlen (eall prev es) = esum es.
Proof.
  induction es as [|e es IH]; intros prev; cbn [eall esum]; [done |]. rewrite length_app, Nat2Z.inj_add, length_ebytes, IH. done.
Qed.

Lemma length_header a b c : length (header a b c) = 10%nat.
Proof. unfold header. len. Qed.

Lemma esum_nonneg es : 0 <= esum es.
Proof. rewrite <- (length_eall es 0). lia. Qed.

Lemma esum_length es : 2 * zlen es <= esum es.
Proof. induction es as [|e es IH]; cbn [esum length]; [lia |]. pose proof (elen_lower e). lia. Qed.

Lemma esum_app es1 es2 : esum (es1 ++ es2) = esum es1 + esum es2.
Proof. induction es1 as [|e es1 IH]; cbn [esum app]; lia. Qed.

Lemma lastlen_app es1 es2 : forall prev, lastlen prev (es1 ++ es2) = lastlen (lastlen prev es1) es2.
Proof. induction es1 as [|e es1 IH]; intros prev; cbn [lastlen app]; auto. Qed.

Lemma lastlen_le es : lastlen 0 es <= esum es.
Proof.
  destruct es as [|e es _] using rev_ind; [done |]. rewrite esum_app, lastlen_app. cbn. pose proof (esum_nonneg es). lia.
Qed.

Lemma lastlen_cons e es prev : lastlen prev (e :: es) = lastlen 0 (e :: es).
Proof. done. Qed.

Lemma eall_app es1 es2 : forall prev, eall prev (es1 ++ es2) = eall prev es1 ++ eall (lastlen prev es1) es2.
Proof. induction es1 as [|e es1 IH]; intros prev; cbn [eall lastlen app]; [done |]. by rewrite IH, <- app_assoc. Qed.

Lemma fits_app es1 es2 : forall prev, fits prev (es1 ++ es2) <-> fits prev es1 /\ fits (lastlen prev es1) es2.
Proof. induction es1 as [|e es1 IH]; intros prev; cbn [fits lastlen app]; [tauto |]. rewrite IH. tauto. Qed.

Lemma cap_bound es : 11 + esum es <= cap es.
Proof. induction es as [|[[|] c] es IH]; cbn [esum cap]; unfold elen in *; cbn in *; lia. Qed.

Lemma cap_app es1 es2 : cap (es1 ++ es2) = cap es1 + cap es2 - 11.
Proof. induction es1 as [|e es1 IH]; cbn [cap app]; lia. Qed.

Lemma cap_contents es1 : forall es2, contents es1 = contents es2 -> cap es1 = cap es2.
Proof.
  induction es1 as [|[b c] es1 IH]; intros [|[b' c'] es2]; try done. cbn. intros [= -> Hc]. by rewrite (IH es2).
Qed.

Lemma cap_lower es : 11 <= cap es.
Proof. pose proof (cap_bound es). pose proof (esum_nonneg es). lia. Qed.

(** ** Reading an entry *)

Lemma str06_bits n : 0 <= n <= 63 -> Z.lor ZIP_STR_06B n = n /\ Z.land n ZIP_STR_MASK = 0 /\ Z.land n 63 = n.
Proof.
  intros. split; [done |]. apply (byte_cases (fun n => n <= 63 -> Z.land n ZIP_STR_MASK = 0 /\ Z.land n 63 = n)); [|lia..].
  apply (bool_decide_unpack _). vm_compute. exact I.
Qed.

Lemma str14_bits h : 0 <= h <= 63 -> let b := u8 (Z.lor ZIP_STR_14B (Z.land h 63)) in
  b = 64 + h /\ Z.land b ZIP_STR_MASK = ZIP_STR_14B /\ Z.land b 63 = h.
Proof.
  intros. apply (byte_cases (fun h => h <= 63 -> u8 (Z.lor ZIP_STR_14B (Z.land h 63)) = 64 + h /\
    Z.land (u8 (Z.lor ZIP_STR_14B (Z.land h 63))) ZIP_STR_MASK = ZIP_STR_14B /\ Z.land (u8 (Z.lor ZIP_STR_14B (Z.land h 63))) 63 = h)); [|lia..].
  apply (bool_decide_unpack _). vm_compute. exact I.
Qed.

Lemma land_ff n : Z.land n 0xff = n mod 256.
Proof. apply (land_mask n 8). lia. Qed.

Lemma bits24 b1 b2 b3 b4 : 0 <= b1 < 256 -> 0 <= b2 < 256 -> 0 <= b3 < 256 -> 0 <= b4 < 256 ->
  Z.lor (Z.lor (Z.lor (Z.shiftl b1 24) (Z.shiftl b2 16)) (Z.shiftl b3 8)) b4 = ((b1 * 256 + b2) * 256 + b3) * 256 + b4.
Proof.
  intros. rewrite !Z.shiftl_mul_pow2 by lia. rewrite (lor_mod_small (b2 * 2 ^ 16) b1 24) by lia.
  replace (b1 * 2 ^ 24 + b2 * 2 ^ 16) with ((b1 * 256 + b2) * 2 ^ 16) by lia. rewrite (lor_mod_small (b3 * 2 ^ 8)) by lia.
  replace ((b1 * 256 + b2) * 2 ^ 16 + b3 * 2 ^ 8) with (((b1 * 256 + b2) * 256 + b3) * 2 ^ 8) by lia. rewrite (lor_mod_small b4) by lia. lia.
Qed.

Lemma split32 n : 0 <= n < 2 ^ 32 ->
  (((n / 2 ^ 24) mod 256 * 256 + (n / 2 ^ 16) mod 256) * 256 + (n / 2 ^ 8) mod 256) * 256 + n mod 256 = n.
Proof. intros. Z.to_euclidean_division_equations. lia. Qed.

Lemma bget_here x c (y : list Z) : bget (x ++ c :: y) (zlen x) = Some c.
Proof. by apply bget_mid. Qed.

Lemma bget_at x (l : list Z) i : 0 <= i -> bget (x ++ l) (zlen x + i) = bget l i.
Proof. intros. rewrite bget_app_r by lia. f_equal. lia. Qed.

(** Reads at the first offsets of an explicit block. *)
Ltac cells :=
  cbn [app]; repeat change (bget (?b :: ?l) 0) with (Some b); repeat change (bget (?b :: ?l) (0 + 0)) with (Some b);
  repeat change (bget (_ :: ?b :: ?l) (0 + 1)) with (Some b); repeat change (bget (_ :: _ :: ?b :: ?l) (0 + 2)) with (Some b);
  repeat change (bget (_ :: _ :: _ :: ?b :: ?l) (0 + 3)) with (Some b);
  repeat change (bget (_ :: _ :: _ :: _ :: ?b :: ?l) (0 + 4)) with (Some b); cbn [mbind option_bind].

Lemma decode_str n x y : 0 <= n < 2 ^ 32 ->
  ZIP_DECODE_LENGTH (x ++ encode_length_buf 0 n ++ y) (zlen x) =
  Some (if n <=? 63 then ZIP_STR_06B else if n <=? 16383 then ZIP_STR_14B else ZIP_STR_32B, zlen (encode_length_buf 0 n), n).
Proof.
  intros Hn. unfold encode_length_buf, ZIP_DECODE_LENGTH, ZIP_ENTRY_ENCODING. change (ZIP_IS_STR 0) with true. cbn iota.
  rewrite <- (Z.add_0_r (zlen x)), <- !Z.add_assoc, !bget_at by lia.
  destruct (Z.leb_spec n 0x3f); [|destruct (Z.leb_spec n 0x3fff)]; cells.
  - destruct (str06_bits n) as (H1 & H2 & H3); [lia |]. rewrite H1, uwrap_small by lia.
    rewrite (proj2 (Z.ltb_lt n ZIP_STR_MASK)) by (unfold ZIP_STR_MASK; lia). by rewrite H2, H3.
  - rewrite Z.shiftr_div_pow2 by lia. destruct (str14_bits (n / 2 ^ 8)) as (H1 & H2 & H3); [Z.to_euclidean_division_equations; lia |].
    cbn zeta in *. set (b := u8 _) in *. clearbody b. 
    rewrite (proj2 (Z.ltb_lt b ZIP_STR_MASK)) by (unfold ZIP_STR_MASK; Z.to_euclidean_division_equations; lia). rewrite H2, H3.
    change (ZIP_STR_14B <? ZIP_STR_MASK) with true. change (ZIP_STR_14B =? ZIP_STR_06B) with false. rewrite Z.eqb_refl. cbn iota. do 2 f_equal.
    rewrite land_ff, Z.shiftl_mul_pow2, lor_mod_small by (Z.to_euclidean_division_equations; lia).
    Z.to_euclidean_division_equations; lia.
  - rewrite !Z.shiftr_div_pow2, !land_ff by lia. change (ZIP_STR_32B <? ZIP_STR_MASK) with true. cbn iota.
    change (Z.land ZIP_STR_32B ZIP_STR_MASK) with ZIP_STR_32B. change (ZIP_STR_32B <? ZIP_STR_MASK) with true.
    change (ZIP_STR_32B =? ZIP_STR_06B) with false. change (ZIP_STR_32B =? ZIP_STR_14B) with false. rewrite Z.eqb_refl. cbn iota. do 2 f_equal.
    rewrite bits24 by (apply Z.mod_pos_bound; lia). rewrite split32 by lia. by apply uwrap_small.
Qed.

Lemma int_enc e v : int_ok e v -> 192 <= e < 255 /\ ZIP_IS_STR e = false.
Proof.
  intros H. assert (He : 192 <= e < 255).
  { destruct H as [[H _] | [H _]]; [unfold is_imm, ZIP_INT_IMM_MIN, ZIP_INT_IMM_MAX in H; zbool; lia |].
    destruct H as [-> | [-> | [-> | [-> | ->]]]]; vm_compute; intuition congruence. }
  split; [done |]. apply (byte_cases (fun e => 192 <= e -> ZIP_IS_STR e = false)); [|lia..]. apply (bool_decide_unpack _). vm_compute. exact I.
Qed.

Lemma cenc_str s : ZIP_IS_STR (cenc (Str s)) = true.
Proof. unfold cenc. destruct (_ <=? _); [done |]. by destruct (_ <=? _). Qed.

Lemma decode_content c x y : content_ok c -> zlen (cbytes c) < 2 ^ 32 ->
  ZIP_DECODE_LENGTH (x ++ cbytes c ++ y) (zlen x) = Some (cenc c, zlen (chead c), zlen (cbody c)).
Proof.
  unfold cbytes. intros Hc Hl. rewrite <- app_assoc. destruct c as [s | e v]; cbn [chead cbody cenc] in *.
  - apply decode_str. len.
  - destruct (int_enc e v Hc) as [He _]. unfold ZIP_DECODE_LENGTH, ZIP_ENTRY_ENCODING. cbn [app]. rewrite bget_here.
    cbn [mbind option_bind]. unfold ZIP_STR_MASK. rewrite (proj2 (Z.ltb_ge e 192)) by lia. cbn [mbind option_bind].
    rewrite (proj2 (Z.ltb_ge e 192)) by lia. by rewrite (zipIntSize_length e v Hc).
Qed.

(** The back pointer of an entry fits its field. *)
Definition fit1 (prev : Z) (e : ent) : Prop := 0 <= prev < 2 ^ 32 /\ (ZIP_BIGLEN <= prev -> e.1 = true).

Lemma first_byte prev e x y : fit1 prev e -> exists b, bget (x ++ ebytes prev e ++ y) (zlen x) = Some b /\ (b =? ZIP_END) = false.
Proof.
  intros [H1 H2]. unfold ebytes, pfield, ZIP_BIGLEN in *. destruct (e.1).
  - exists 254. split; [|done]. cbn [app]. by rewrite bget_here.
  - exists prev. split; [cbn [app]; by rewrite bget_here |]. unfold ZIP_END. destruct (Z.leb_spec 254 prev); [by specialize (H2 ltac:(lia)) | lia].
Qed.

Lemma decode_prevsize prev e x y : fit1 prev e -> ZIP_DECODE_PREVLENSIZE (x ++ ebytes prev e ++ y) (zlen x) = Some (psize e.1).
Proof.
  intros [H1 H2]. unfold ZIP_DECODE_PREVLENSIZE, ebytes, pfield, psize, ZIP_BIGLEN in *. destruct (e.1); cbn [app].
  - by rewrite bget_here.
  - rewrite bget_here. cbn. destruct (Z.ltb_spec prev 254); [done | by specialize (H2 ltac:(lia))].
Qed.

Lemma decode_prev prev e x y : fit1 prev e -> ZIP_DECODE_PREVLEN (x ++ ebytes prev e ++ y) (zlen x) = Some (psize e.1, prev).
Proof.
  intros H. unfold ZIP_DECODE_PREVLEN. rewrite decode_prevsize by done. destruct H as [H1 H2]. cbn [mbind option_bind].
  unfold ebytes, pfield, psize. destruct (e.1); cbn [app Z.eqb Pos.eqb].
  - replace (x ++ ZIP_BIGLEN :: (le_bytes 4 prev ++ cbytes e.2) ++ y) with ((x ++ [ZIP_BIGLEN]) ++ le_bytes 4 prev ++ cbytes e.2 ++ y)
      by (rewrite <- !app_assoc; done).
    rewrite bread_mid by len. cbn [mbind option_bind]. rewrite le_val_bytes. by rewrite uwrap_small.
  - by rewrite bget_here.
Qed.

Lemma decode_after prev e x y : content_ok e.2 -> elen e < 2 ^ 32 ->
  ZIP_DECODE_LENGTH (x ++ ebytes prev e ++ y) (zlen x + psize e.1) = Some (cenc e.2, zlen (chead e.2), zlen (cbody e.2)).
Proof.
  intros Hc Hl. unfold ebytes. rewrite <- app_assoc, app_assoc. pose proof (length_pfield e.1 prev). pose proof (elen_lower e).
  replace (zlen x + psize e.1) with (zlen (x ++ pfield e.1 prev)) by len. apply decode_content; [done |]. unfold elen, psize in *. destruct (e.1); lia.
Qed.

Lemma elen_split e : elen e = psize e.1 + zlen (chead e.2) + zlen (cbody e.2).
Proof. unfold elen, cbytes. len. Qed.

Lemma raw_length prev e x y : fit1 prev e -> content_ok e.2 -> elen e < 2 ^ 32 ->
  zipRawEntryLength (x ++ ebytes prev e ++ y) (zlen x) = Some (elen e).
Proof.
  intros Hf Hc Hl. unfold zipRawEntryLength. rewrite decode_prevsize by done. cbn [mbind option_bind]. rewrite decode_after by done.
  cbn [mbind option_bind]. rewrite <- elen_split, uwrap_small; [done |]. pose proof (elen_lower e). lia.
Qed.

Lemma read_entry prev e x y : fit1 prev e -> content_ok e.2 -> elen e < 2 ^ 32 ->
  zipEntry (x ++ ebytes prev e ++ y) (zlen x) =
  Some (mk_zlentry (psize e.1) prev (zlen (chead e.2)) (zlen (cbody e.2)) (psize e.1 + zlen (chead e.2)) (cenc e.2) (zlen x)).
Proof.
  intros Hf Hc Hl. unfold zipEntry. rewrite decode_prev by done. cbn [mbind option_bind]. rewrite decode_after by done.
  cbn [mbind option_bind]. rewrite uwrap_small; [done |]. rewrite elen_split in Hl. destruct (e.1); cbn in *; lia.
Qed.

(** The immediate encodings are none of the others. *)
Lemma imm_cases e : is_imm e = true -> Z.land e ZIP_INT_IMM_MASK - 1 = e - ZIP_INT_IMM_MIN /\
  Forall (fun t => (e =? t) = false) [ZIP_INT_8B; ZIP_INT_16B; ZIP_INT_24B; ZIP_INT_32B; ZIP_INT_64B].
Proof.
  intros He. pose proof He as He'. unfold is_imm, ZIP_INT_IMM_MIN, ZIP_INT_IMM_MAX in He'. zbool. revert He.
  apply (byte_cases (fun e => is_imm e = true -> Z.land e ZIP_INT_IMM_MASK - 1 = e - ZIP_INT_IMM_MIN /\
    Forall (fun t => (e =? t) = false) [ZIP_INT_8B; ZIP_INT_16B; ZIP_INT_24B; ZIP_INT_32B; ZIP_INT_64B])); [|lia].
  apply (bool_decide_unpack _). vm_compute. exact I.
Qed.

Lemma int24 v : - 2 ^ 23 <= v < 2 ^ 23 -> drop 1 (le_bytes 4 (s32 (Z.shiftl v 8))) = le_bytes 3 v /\
  Z.shiftr (s32 (le_val (0 :: le_bytes 3 v))) 8 = v.
Proof.
  intros Hv. rewrite Z.shiftl_mul_pow2, swrap_small, Z.shiftr_div_pow2 by lia. split.
  - cbn [le_bytes drop]. change (2 ^ 8) with 256. by rewrite Z.div_mul by lia.
  - cbn [le_val]. rewrite le_val_bytes. rewrite Z.add_0_l. change (8 * Z.of_nat 3) with 24. change 256 with (2 ^ 8) at 1.
    assert (Hs : s32 (2 ^ 8 * uwrap 24 v) = v * 2 ^ 8).
    { rewrite <- (swrap_small 32 ltac:(lia) (v * 2 ^ 8)) by lia.
      rewrite <- (swrap_uwrap 32 ltac:(lia) (2 ^ 8 * _)), <- (swrap_uwrap 32 ltac:(lia) (v * 2 ^ 8)). f_equal.
      unfold uwrap. change (2 ^ 32) with (2 ^ 8 * 2 ^ 24). rewrite (Z.mul_comm v), !Z.mul_mod_distr_l by lia. by rewrite Z.mod_mod by lia. }
    rewrite Hs. by apply Z.div_mul.
Qed.

(** Integers survive a store and a load. *)
Lemma load_int e v x y : int_ok e v -> zipLoadInteger (x ++ int_bytes e v ++ y) (zlen x) e = Some v.
Proof.
  intros [[He ->] | [He Hv]].
  - unfold zipLoadInteger. destruct (imm_cases e He) as [-> Hm]. rewrite !Forall_cons in Hm. destruct Hm as (-> & -> & -> & -> & -> & _). by rewrite He.
  - destruct He as [-> | [-> | [-> | [-> | ->]]]]; unfold zipLoadInteger, int_bytes.
    + rewrite Z.eqb_refl. cbn [app]. rewrite bget_here. cbn [mbind option_bind]. by rewrite swrap_uwrap, swrap_small by (done || lia).
    + change (bread (x ++ le_bytes 2 v ++ y) (zlen x) 2 ≫= (fun bs => Some (s16 (le_val bs))) = Some v).
      rewrite bread_mid by len. cbn [mbind option_bind]. f_equal. by apply (le_signed 2); [lia |].
    + change (bread (x ++ le_bytes 3 v ++ y) (zlen x) 3 ≫= (fun bs => Some (Z.shiftr (s32 (le_val (0 :: bs))) 8)) = Some v).
      rewrite bread_mid by len. cbn [mbind option_bind]. by rewrite (proj2 (int24 v Hv)).
    + change (bread (x ++ le_bytes 4 v ++ y) (zlen x) 4 ≫= (fun bs => Some (s32 (le_val bs))) = Some v).
      rewrite bread_mid by len. cbn [mbind option_bind]. f_equal. by apply (le_signed 4); [lia |].
    + change (bread (x ++ le_bytes 8 v ++ y) (zlen x) 8 ≫= (fun bs => Some (s64 (le_val bs))) = Some v).
      rewrite bread_mid by len. cbn [mbind option_bind]. f_equal. by apply (le_signed 8); [lia |].
Qed.

(** ** Storing a value *)

Lemma dec_string_short v : int64 v -> 1 <= zlen (dec_string v) < 32.
Proof.
  intros Hv. rewrite length_dec_string. destruct (uabs_digits v Hv) as ((? & _) & ? & _). destruct (_ <? _); lia.
Qed.

Lemma try_encoding s v e : zipTryEncoding s = Some (v, e) -> int_ok e v /\ int64 v /\ s = dec_string v.
Proof.
  unfold zipTryEncoding. destruct (_ || _); [done |]. destruct (string2ll s) as [u|] eqn:Hs; [|done]. cbn. intros [= -> <-].
  apply string2ll_sound in Hs as [Hv ->]. split; [|done]. unfold int_ok, is_imm, int64, LLONG_MIN, LLONG_MAX in *.
  unfold INT16_MIN, INT16_MAX, INT24_MIN, INT24_MAX, INT32_MIN, INT32_MAX, ZIP_INT_IMM_MIN, ZIP_INT_IMM_MAX.
  repeat match goal with |- context [if ?b then _ else _] => destruct b eqn:?; zbool end.
  - left. split; [|lia]. apply andb_true_iff. split; [apply Z.geb_le | apply Z.leb_le]; lia.
  - right. split; [auto 10 |]. change (zipIntSize ZIP_INT_8B) with 1. lia.
  - right. split; [auto 10 |]. change (zipIntSize ZIP_INT_16B) with 2. lia.
  - right. split; [auto 10 |]. change (zipIntSize ZIP_INT_24B) with 3. lia.
  - right. split; [auto 10 |]. change (zipIntSize ZIP_INT_32B) with 4. lia.
  - right. split; [auto 10 |]. change (zipIntSize ZIP_INT_64B) with 8. lia.
Qed.

Lemma try_encoding_dec v : int64 v -> exists e, zipTryEncoding (dec_string v) = Some (v, e).
Proof.
  intros Hv. pose proof (dec_string_short v Hv). unfold zipTryEncoding. rewrite Z.geb_leb. do 2 zguard. cbn [orb]. rewrite string2ll_complete by done. cbn. eauto.
Qed.

Lemma content_of_ok s : bytes_ok s -> content_ok (content_of s).
Proof. intros. unfold content_of. destruct (zipTryEncoding s) as [[v e]|] eqn:H1; [|done]. by apply try_encoding in H1 as [? _]. Qed.

Lemma cvalue_content_of s : cvalue (content_of s) = s.
Proof. unfold content_of. destruct (zipTryEncoding s) as [[v e]|] eqn:H1; [|done]. by apply try_encoding in H1 as (_ & _ & ->). Qed.

(** ** Entries of a whole block *)

Lemma lastlen_nonneg es : forall prev, 0 <= prev -> 0 <= lastlen prev es.
Proof. induction es as [|e es IH]; intros prev Hp; cbn [lastlen]; [done |]. apply IH. pose proof (elen_lower e). lia. Qed.

Lemma entry_fit es1 e es2 : fits 0 (es1 ++ e :: es2) -> esum (es1 ++ e :: es2) < 2 ^ 32 ->
  fit1 (lastlen 0 es1) e /\ content_ok e.2 /\ elen e < 2 ^ 32.
Proof.
  rewrite fits_app, esum_app. cbn [fits esum]. intros (_ & Hf & Hc & _) Hs. pose proof (lastlen_le es1). pose proof (lastlen_nonneg es1 0 ltac:(lia)).
  pose proof (elen_lower e). pose proof (esum_nonneg es1). pose proof (esum_nonneg es2). split; [|split; [done | lia]]. split; [lia | done].
Qed.

Lemma tailoff_app off es1 e es2 : tailoff off (es1 ++ e :: es2) = tailoff (off + esum es1) (e :: es2).
Proof. unfold tailoff. rewrite esum_app, lastlen_app. cbn [lastlen]. lia. Qed.

Lemma tailoff_nil off : tailoff off [] = off.
Proof. unfold tailoff. cbn. lia. Qed.

Lemma layout_split es1 es2 cnt : layout (es1 ++ es2) cnt =
  header (11 + esum (es1 ++ es2)) (tailoff 10 (es1 ++ es2)) cnt ++ eall 0 es1 ++ eall (lastlen 0 es1) es2 ++ [ZIP_END].
Proof. unfold layout. by rewrite eall_app, <- !app_assoc. Qed.

(** The offset of the entry after [es]. *)
Definition offset (es : list ent) : Z := 10 + esum es.

(** The block cut at an entry. *)
Lemma layout_at es1 e es2 cnt : exists x, layout (es1 ++ e :: es2) cnt = x ++ ebytes (lastlen 0 es1) e ++ eall (elen e) es2 ++ [ZIP_END] /\
  offset es1 = zlen x.
Proof.
  rewrite layout_split. cbn [eall]. rewrite <- !app_assoc, (app_assoc (header _ _ _)). eexists. split; [done |].
  unfold offset. pose proof (length_eall es1 0). rewrite length_app, length_header. lia.
Qed.

Lemma layout_end es cnt : exists x, layout es cnt = x ++ [ZIP_END] /\ offset es = zlen x.
Proof.
  unfold layout. rewrite app_assoc. eexists. split; [done |]. unfold offset. pose proof (length_eall es 0). rewrite length_app, length_header. lia.
Qed.

Section At.
Context (es1 : list ent) (e : ent) (es2 : list ent) (cnt : Z).
Context (Hfits : fits 0 (es1 ++ e :: es2)) (Hsum : esum (es1 ++ e :: es2) < 2 ^ 32).

Lemma at_first : exists b, bget (layout (es1 ++ e :: es2) cnt) (offset es1) = Some b /\ (b =? ZIP_END) = false.
Proof using Hfits Hsum. destruct (layout_at es1 e es2 cnt) as (x & -> & ->). apply first_byte. exact (proj1 (entry_fit _ _ _ Hfits Hsum)). Qed.

Lemma at_prev : ZIP_DECODE_PREVLEN (layout (es1 ++ e :: es2) cnt) (offset es1) = Some (psize e.1, lastlen 0 es1).
Proof using Hfits Hsum. destruct (layout_at es1 e es2 cnt) as (x & -> & ->). apply decode_prev. exact (proj1 (entry_fit _ _ _ Hfits Hsum)). Qed.

Lemma at_prevsize : ZIP_DECODE_PREVLENSIZE (layout (es1 ++ e :: es2) cnt) (offset es1) = Some (psize e.1).
Proof using Hfits Hsum. destruct (layout_at es1 e es2 cnt) as (x & -> & ->). apply decode_prevsize. exact (proj1 (entry_fit _ _ _ Hfits Hsum)). Qed.

Lemma at_length : ZIP_DECODE_LENGTH (layout (es1 ++ e :: es2) cnt) (offset es1 + psize e.1) = Some (cenc e.2, zlen (chead e.2), zlen (cbody e.2)).
Proof using Hfits Hsum. destruct (layout_at es1 e es2 cnt) as (x & -> & ->). apply entry_fit in Hfits as (_ & ? & ?); [|done]. by apply decode_after. Qed.

Lemma at_raw : zipRawEntryLength (layout (es1 ++ e :: es2) cnt) (offset es1) = Some (elen e).
Proof using Hfits Hsum. destruct (layout_at es1 e es2 cnt) as (x & -> & ->). apply entry_fit in Hfits as (? & ? & ?); [|done]. by apply raw_length. Qed.

Lemma at_entry : zipEntry (layout (es1 ++ e :: es2) cnt) (offset es1) = Some (mk_zlentry (psize e.1) (lastlen 0 es1) (zlen (chead e.2)) (zlen (cbody e.2))
  (psize e.1 + zlen (chead e.2)) (cenc e.2) (offset es1)).
Proof using Hfits Hsum. destruct (layout_at es1 e es2 cnt) as (x & -> & ->). apply entry_fit in Hfits as (? & ? & ?); [|done]. by apply read_entry. Qed.

Lemma at_body : bread (layout (es1 ++ e :: es2) cnt) (offset es1 + (psize e.1 + zlen (chead e.2))) (zlen (cbody e.2)) = Some (cbody e.2) /\
  (forall n v, e.2 = Num n v -> zipLoadInteger (layout (es1 ++ e :: es2) cnt) (offset es1 + (psize e.1 + zlen (chead e.2))) n = Some v).
Proof using Hfits Hsum.
  destruct (layout_at es1 e es2 cnt) as (x & -> & ->). apply entry_fit in Hfits as (_ & Hc & _); [|done]. pose proof (length_pfield e.1 (lastlen 0 es1)).
  unfold ebytes, cbytes. rewrite <- !app_assoc, (app_assoc (pfield _ _)), (app_assoc x). split; [apply bread_mid; len |].
  intros n v Hnv. rewrite Hnv in *. cbn [cbody chead]. replace (zlen x + (psize e.1 + zlen [n])) with (zlen (x ++ pfield e.1 (lastlen 0 es1) ++ [n])) by len.
  by apply load_int.
Qed.
End At.

Lemma at_end es cnt : bget (layout es cnt) (offset es) = Some ZIP_END.
Proof. destruct (layout_end es cnt) as (x & -> & ->). apply bget_here. Qed.

Lemma offset_snoc es e : offset (es ++ [e]) = offset es + elen e.
Proof. unfold offset. rewrite esum_app. cbn. lia. Qed.

#[export] Hint Rewrite length_header : vire_len.
End ZiplistInv.
