(* ===== verification/ZiplistOps.v ===== *)
(** * Updates of ziplists

    Resizing, the cascade of back pointer updates, insertion, deletion and
    merging, on the layout of ZiplistInv. *)

From S2P Require Import Prelude Bytes Bits NumConv Ziplist ZiplistInv.

Module ZiplistOps.
Import NumConv Ziplist ZiplistInv.

(** ** The header *)

Section Header.
Context (a b c : Z) (y : list Z).

Lemma header_bytes : 0 <= a < 2 ^ 32 -> ZIPLIST_BYTES (header a b c ++ y) = Some a.
Proof.
  intros. unfold ZIPLIST_BYTES, header. rewrite <- !app_assoc, bread_start by len. cbn [fmap option_fmap option_map].
  by rewrite le_val_bytes, uwrap_small.
Qed.

Lemma header_tail : 0 <= b < 2 ^ 32 -> ZIPLIST_TAIL_OFFSET (header a b c ++ y) = Some b.
Proof.
  intros. unfold ZIPLIST_TAIL_OFFSET, header. rewrite <- !app_assoc, bread_mid by len. cbn [fmap option_fmap option_map].
  by rewrite le_val_bytes, uwrap_small.
Qed.

Lemma header_count : 0 <= c < 2 ^ 16 -> ZIPLIST_LENGTH (header a b c ++ y) = Some c.
Proof.
  intros. unfold ZIPLIST_LENGTH, header. rewrite <- !app_assoc, (app_assoc (le_bytes 4 a)), bread_mid by len. cbn [fmap option_fmap option_map].
  by rewrite le_val_bytes, uwrap_small.
Qed.

Lemma set_bytes_header v : set_BYTES (header a b c ++ y) v = Some (header v b c ++ y).
Proof. unfold set_BYTES, header. rewrite <- !app_assoc. by rewrite bwrite_start by len. Qed.

Lemma set_tail_header v : set_TAIL_OFFSET (header a b c ++ y) v = Some (header a v c ++ y).
Proof. unfold set_TAIL_OFFSET, header. rewrite <- !app_assoc. by rewrite bwrite_mid by len. Qed.

Lemma set_length_header v : set_LENGTH (header a b c ++ y) v = Some (header a b v ++ y).
Proof.
  unfold set_LENGTH, header. rewrite <- !app_assoc, (app_assoc (le_bytes 4 a)). rewrite bwrite_mid by len. by rewrite <- !app_assoc.
Qed.
End Header.

Lemma layout_bytes es cnt : 11 + esum es < 2 ^ 32 -> ZIPLIST_BYTES (layout es cnt) = Some (11 + esum es).
Proof. intros. pose proof (esum_nonneg es). apply header_bytes. lia. Qed.

Lemma layout_tail es cnt : 11 + esum es < 2 ^ 32 -> ZIPLIST_TAIL_OFFSET (layout es cnt) = Some (tailoff 10 es).
Proof.
  intros. pose proof (esum_nonneg es). pose proof (lastlen_le es). pose proof (lastlen_nonneg es 0 ltac:(lia)).
  apply header_tail. unfold tailoff. lia.
Qed.

(** ** Back pointers *)

Definition bigof (n : Z) : bool := negb (n <? ZIP_BIGLEN).

Lemma prev_size n : zipPrevEncodeLength_size n = psize (bigof n).
Proof. unfold zipPrevEncodeLength_size, bigof. by destruct (n <? ZIP_BIGLEN). Qed.

Lemma write_prev x r y n : 0 <= n -> zlen r = psize (bigof n) ->
  zipPrevEncodeLength (x ++ r ++ y) (zlen x) n = Some (x ++ pfield (bigof n) n ++ y, psize (bigof n)).
Proof.
  intros Hn Hr. unfold zipPrevEncodeLength, bigof, psize, pfield in *. destruct (Z.ltb_spec n ZIP_BIGLEN) as [Hlt|Hge]; cbn [negb] in *.
  - destruct r as [|r0 [|]]; try (cbn in Hr; lia). cbn [app]. rewrite bset_mid by done. cbn [mbind option_bind].
    unfold ZIP_BIGLEN in *. by rewrite uwrap_small by lia.
  - destruct r as [|r0 r]; [cbn in Hr; lia |]. cbn [app]. rewrite bset_mid by done. cbn [mbind option_bind]. change (u8 ZIP_BIGLEN) with ZIP_BIGLEN.
    change (x ++ ZIP_BIGLEN :: r ++ y) with (x ++ [ZIP_BIGLEN] ++ r ++ y). rewrite app_assoc, bwrite_mid by len. cbn [mbind option_bind].
    by rewrite <- app_assoc.
Qed.

Lemma rewrite_prev x t e y n : 0 <= n -> e.1 = bigof n ->
  zipPrevEncodeLength (x ++ ebytes t e ++ y) (zlen x) n = Some (x ++ ebytes n e ++ y, psize e.1).
Proof.
  intros Hn He. unfold ebytes. rewrite <- !app_assoc, He. apply write_prev; [done |]. by rewrite length_pfield.
Qed.

Lemma write_prev_large x r y n : 0 <= n -> zlen r = 5 ->
  zipPrevEncodeLengthForceLarge (x ++ r ++ y) (zlen x) n = Some (x ++ pfield true n ++ y).
Proof.
  intros Hn Hr. unfold zipPrevEncodeLengthForceLarge, pfield. destruct r as [|r0 r]; [cbn in Hr; lia |]. cbn [app]. rewrite bset_mid by done.
  cbn [mbind option_bind]. change (u8 ZIP_BIGLEN) with ZIP_BIGLEN. change (x ++ ZIP_BIGLEN :: r ++ y) with (x ++ [ZIP_BIGLEN] ++ r ++ y).
  rewrite app_assoc, bwrite_mid by len. by rewrite <- app_assoc.
Qed.

Lemma rewrite_prev_large x t e y n : 0 <= n -> e.1 = true ->
  zipPrevEncodeLengthForceLarge (x ++ ebytes t e ++ y) (zlen x) n = Some (x ++ ebytes n e ++ y).
Proof. intros Hn He. unfold ebytes. rewrite <- !app_assoc, He. by apply write_prev_large; [|rewrite length_pfield]. Qed.

(** ** Resizing *)

Section Ops.
Context (junk : nat -> Z).

Lemma block_grow a b c y z n : 11 + zlen y <= n ->
  exists g, ziplistResize junk (header a b c ++ y ++ [z]) n = Some (header n b c ++ y ++ g ++ [ZIP_END]) /\
    zlen g = n - 11 - zlen y /\ (11 + zlen y < n -> exists g', g = z :: g').
Proof.
  intros Hn. unfold ziplistResize. destruct (brealloc_grow junk (header a b c ++ y ++ [z]) n) as (t & -> & Ht); [len |].
  rewrite <- !app_assoc, set_bytes_header. cbn [mbind option_bind]. destruct t as [|u t _] using rev_ind.
  - exists []. split; [|split; [lens; lia | lens; lia]]. rewrite app_nil_r. cbn [app]. rewrite app_assoc, bset_mid by len. by rewrite <- app_assoc.
  - exists (z :: t). split; [|split; [len | by eexists]]. rewrite (app_assoc [z]), (app_assoc y), (app_assoc (header _ _ _)).
    rewrite bset_mid by len. by rewrite <- !app_assoc.
Qed.

Lemma block_shrink a b c y z n : n = 11 + zlen y -> 1 <= zlen z ->
  ziplistResize junk (header a b c ++ y ++ z) n = Some (header n b c ++ y ++ [ZIP_END]).
Proof.
  intros Hn Hz. unfold ziplistResize. destruct z as [|z0 z]; [cbn in Hz; lia |].
  change (z0 :: z) with ([z0] ++ z). rewrite (app_assoc y), (app_assoc (header _ _ _)), brealloc_shrink by len.
  rewrite set_bytes_header. cbn [mbind option_bind]. rewrite app_assoc, bset_mid by len. by rewrite <- app_assoc.
Qed.

(** ** The cascade *)

(** A block with [pre] before the entries; the back pointer of the second entry
    is [qold], which may be wrong. *)
Definition img2 (cnt : Z) (pre : list Z) (q : Z) (e : ent) (qold : Z) (es : list ent) : list Z :=
  header (11 + zlen pre + esum (e :: es)) (tailoff (10 + zlen pre) (e :: es)) cnt ++ pre ++ ebytes q e ++ eall qold es ++ [ZIP_END].

Lemma tailoff_cons off e e2 es : tailoff off (e :: e2 :: es) = tailoff (off + elen e) (e2 :: es).
Proof. unfold tailoff. cbn [esum lastlen]. lia. Qed.

Lemma tailoff_one off e : tailoff off [e] = off.
Proof. unfold tailoff. cbn [esum lastlen]. lia. Qed.

Lemma tailoff_range off e es : 0 <= off -> off <= tailoff off (e :: es) < off + esum (e :: es).
Proof.
  intros. unfold tailoff. pose proof (lastlen_le (e :: es)). split; [lia |]. assert (2 <= lastlen 0 (e :: es)); [|lia].
  clear. revert e. induction es as [|e2 es IH]; intros e; [apply elen_lower | apply IH].
Qed.

Lemma img2_shift cnt pre q e e2 q2 es :
  header (11 + zlen pre + esum (e :: e2 :: es)) (tailoff (10 + zlen pre) (e :: e2 :: es)) cnt ++
    pre ++ ebytes q e ++ ebytes (elen e) e2 ++ eall q2 es ++ [ZIP_END] = img2 cnt (pre ++ ebytes q e) (elen e) e2 q2 es.
Proof.
  unfold img2. rewrite tailoff_cons. pose proof (length_ebytes q e). cbn [esum].
  replace (zlen (pre ++ ebytes q e)) with (zlen pre + elen e) by len. rewrite <- !app_assoc. f_equal. f_equal; [lia | f_equal; lia].
Qed.

(** One growing step: the back pointer of the second entry takes five bytes. *)
Lemma cascade_grow (K : list Z -> option (list Z)) cnt pre q e qold c2 es : ZIP_BIGLEN <= elen e -> zlen pre + cap (e :: (false, c2) :: es) < 2 ^ 32 ->
  let total := 11 + zlen pre + esum (e :: (false, c2) :: es) in let np := 10 + zlen pre + elen e in
  (zl ← ziplistResize junk (img2 cnt pre q e qold ((false, c2) :: es)) (u32 (total + 4));
   tail ← ZIPLIST_TAIL_OFFSET zl;
   zl ← (if negb (tail =? np) then set_TAIL_OFFSET zl (u32 (tail + 4)) else Some zl);
   zl ← bmove zl (np + 5) (np + 1) (u64 (total - np - 1 - 1));
   '(zl, _) ← zipPrevEncodeLength zl np (elen e); K zl) =
  K (img2 cnt (pre ++ ebytes q e) (elen e) (true, c2) (elen (false, c2)) es).
Proof.
  intros Hbig Hcap total np. set (e2 := (false, c2)) in *. pose proof (cap_bound es) as Hb. pose proof (elen_upper e). cbn [cap] in Hcap. change (e2.2) with c2 in Hcap.
  pose proof (elen_lower e). pose proof (esum_nonneg es). pose proof (length_ebytes q e). pose proof (cbytes_pos c2).
  assert (Ht : total = 11 + zlen pre + elen e + 1 + zlen (cbytes c2) + esum es) by (subst total; cbn [esum]; unfold elen at 2; cbn; lia).
  assert (He2 : elen e2 = 1 + zlen (cbytes c2)) by done.
  pose proof (tailoff_range (10 + zlen pre) e (e2 :: es) ltac:(lia)) as Htr. cbn [esum] in Htr.
  rewrite (uwrap_small 32 (total + 4)), (uwrap_small 64 (total - np - 1 - 1)) by lia. unfold img2 at 1. change (11 + zlen pre + esum (e :: e2 :: es)) with total. set (tl := tailoff (10 + zlen pre) (e :: e2 :: es)) in *.
  destruct (block_grow total tl cnt (pre ++ ebytes q e ++ eall qold (e2 :: es)) ZIP_END (total + 4)) as (g & Hres & Hg & _).
  { pose proof (length_eall (e2 :: es) qold). cbn [esum] in *. len. }
  rewrite <- !app_assoc in Hres. rewrite Hres. cbn [mbind option_bind]. rewrite header_tail by lia. cbn [mbind option_bind].
  set (tl' := tailoff (10 + zlen pre) (e :: (true, c2) :: es)).
  assert (Htl : (if negb (tl =? np) then set_TAIL_OFFSET (header (total + 4) tl cnt ++ pre ++ ebytes q e ++ eall qold (e2 :: es) ++ g ++ [ZIP_END]) (u32 (tl + 4))
    else Some (header (total + 4) tl cnt ++ pre ++ ebytes q e ++ eall qold (e2 :: es) ++ g ++ [ZIP_END])) =
    Some (header (total + 4) tl' cnt ++ pre ++ ebytes q e ++ eall qold (e2 :: es) ++ g ++ [ZIP_END])).
  { subst tl tl' np. rewrite !tailoff_cons. destruct es as [|e3 es].
    - by rewrite !tailoff_one, Z.eqb_refl.
    - rewrite !tailoff_cons. pose proof (tailoff_range (10 + zlen pre + elen e + elen e2) e3 es ltac:(lia)). pose proof (elen_lower e2).
      rewrite (proj2 (Z.eqb_neq _ _)) by lia. cbn [negb]. rewrite set_tail_header. rewrite uwrap_small by (cbn [esum] in *; lia). do 3 f_equal.
      unfold tailoff. subst e2. unfold elen. cbn. lia. }
  rewrite Htl. cbn [mbind option_bind]. clear Htl Hres.
  cbn [eall]. unfold ebytes at 2. subst e2. cbn [fst snd pfield]. pose proof (length_eall es (elen (false, c2))).
  replace (header (total + 4) tl' cnt ++ pre ++ ebytes q e ++ (([qold] ++ cbytes c2) ++ eall (elen (false, c2)) es) ++ g ++ [ZIP_END])
    with ((header (total + 4) tl' cnt ++ pre ++ ebytes q e ++ [qold]) ++ (cbytes c2 ++ eall (elen (false, c2)) es) ++ g ++ [ZIP_END])
    by by rewrite <- !app_assoc.
  rewrite bmove_right by len. cbn [mbind option_bind].
  set (r := [qold] ++ take (length g) ((cbytes c2 ++ eall (elen (false, c2)) es) ++ g)).
  assert (Hr : zlen r = psize (bigof (elen e))).
  { subst r. unfold bigof. rewrite (proj2 (Z.ltb_ge _ _)) by lia. cbn [psize negb]. len. }
  replace ((header (total + 4) tl' cnt ++ pre ++ ebytes q e ++ [qold]) ++ take (length g) ((cbytes c2 ++ eall (elen (false, c2)) es) ++ g) ++
    (cbytes c2 ++ eall (elen (false, c2)) es) ++ [ZIP_END]) with ((header (total + 4) tl' cnt ++ pre ++ ebytes q e) ++ r ++
    (cbytes c2 ++ eall (elen (false, c2)) es) ++ [ZIP_END]) by (subst r; by rewrite <- !app_assoc).
  replace np with (zlen (header (total + 4) tl' cnt ++ pre ++ ebytes q e)) by len. rewrite write_prev by (done || lia). cbn [mbind option_bind].
  f_equal. rewrite <- img2_shift. rewrite <- !app_assoc. f_equal; [f_equal; subst total; cbn [esum]; unfold elen; cbn; lia |].
  do 2 f_equal. unfold ebytes. cbn [fst snd]. rewrite <- !app_assoc. f_equal. unfold bigof. by rewrite (proj2 (Z.ltb_ge _ _)) by lia.
Qed.

(** The cascade repairs the back pointers from the second entry on. *)
Lemma cascade_spec cnt es : forall fuel pre q e qold, (length es < fuel)%nat ->
  fit1 q e -> content_ok e.2 -> 0 <= qold < 2 ^ 32 -> fits qold es -> zlen pre + cap (e :: es) < 2 ^ 32 ->
  exists es', cascade_loop junk fuel (img2 cnt pre q e qold es) (10 + zlen pre) (11 + zlen pre + esum (e :: es)) =
      Some (img2 cnt pre q e (elen e) es') /\ fits (elen e) es' /\ contents es' = contents es.
Proof.
  induction es as [|e2 es IH]; intros fuel pre q e qold Hfuel Hq Hc Hqo Hfits Hcap; (destruct fuel as [|fuel]; [lia |]);
    pose proof (elen_lower e) as Hel; pose proof (length_ebytes q e) as Hle; pose proof (elen_upper e); cbn [cap] in Hcap.
  - exists []. split; [|done]. cbn [cascade_loop]. unfold img2. cbn [eall app]. set (hd := header _ _ _). rewrite (app_assoc hd).
    assert (Hx : 10 + zlen pre = zlen (hd ++ pre)) by (subst hd; len). rewrite Hx.
    destruct (first_byte q e (hd ++ pre) [ZIP_END] Hq) as (b & -> & Hnb).
    cbn [mbind option_bind]. rewrite Hnb. rewrite read_entry by (done || lia). cbn [mbind option_bind headersize len].
    rewrite <- elen_split, uwrap_small by lia. rewrite bget_at by lia. rewrite bget_mid by lia. done.
  - destruct Hfits as (Hf2 & Hc2 & Hfs). pose proof (elen_lower e2). pose proof (elen_upper e2). pose proof (cap_bound es). pose proof (esum_nonneg es).
    set (total := 11 + zlen pre + esum (e :: e2 :: es)). set (hd := header total (tailoff (10 + zlen pre) (e :: e2 :: es)) cnt).
    assert (Hx : 10 + zlen pre = zlen (hd ++ pre)) by (subst hd; len). assert (Hfq : fit1 qold e2) by done.
    assert (Himg : forall t, img2 cnt pre q e t (e2 :: es) = (hd ++ pre) ++ ebytes q e ++ ebytes t e2 ++ eall (elen e2) es ++ [ZIP_END]).
    { intros t. unfold img2. cbn [eall]. by rewrite <- !app_assoc. }
    assert (Himg' : forall t, img2 cnt pre q e t (e2 :: es) = ((hd ++ pre) ++ ebytes q e) ++ ebytes t e2 ++ eall (elen e2) es ++ [ZIP_END]).
    { intros t. rewrite Himg. by rewrite <- !app_assoc. }
    assert (Hnp : 10 + zlen pre + elen e = zlen ((hd ++ pre) ++ ebytes q e)) by len.
    cbn [cascade_loop].
    assert (HB : exists b, bget (img2 cnt pre q e qold (e2 :: es)) (10 + zlen pre) = Some b /\ (b =? ZIP_END) = false) by (rewrite Himg, Hx; by apply first_byte).
    destruct HB as (b & -> & Hnb). cbn [mbind option_bind]. rewrite Hnb.
    assert (Hr1 : zipEntry (img2 cnt pre q e qold (e2 :: es)) (10 + zlen pre) =
      Some (mk_zlentry (psize e.1) q (zlen (chead e.2)) (zlen (cbody e.2)) (psize e.1 + zlen (chead e.2)) (cenc e.2) (10 + zlen pre)))
      by (rewrite Himg, Hx; apply read_entry; (done || lia)).
    rewrite Hr1. cbn [mbind option_bind headersize len]. rewrite <- elen_split, (uwrap_small 32 (elen e)) by lia.
    assert (HB : exists b, bget (img2 cnt pre q e qold (e2 :: es)) (10 + zlen pre + elen e) = Some b /\ (b =? ZIP_END) = false)
      by (rewrite Himg', Hnp; by apply first_byte).
    destruct HB as (b2 & -> & Hnb2). cbn [mbind option_bind]. rewrite Hnb2.
    assert (Hr2 : zipEntry (img2 cnt pre q e qold (e2 :: es)) (10 + zlen pre + elen e) =
      Some (mk_zlentry (psize e2.1) qold (zlen (chead e2.2)) (zlen (cbody e2.2)) (psize e2.1 + zlen (chead e2.2)) (cenc e2.2) (10 + zlen pre + elen e)))
      by (rewrite Himg', Hnp; apply read_entry; (done || lia)).
    rewrite Hr2. cbn [mbind option_bind prevrawlen prevrawlensize]. destruct (Z.eqb_spec qold (elen e)) as [-> | Hne].
    { exists (e2 :: es). split; [done |]. split; [|done]. done. }
    rewrite prev_size. destruct (bigof (elen e)) eqn:Hbig; unfold bigof in Hbig; zbool; destruct e2 as [[|] c2]; cbn [psize fst Z.ltb Z.compare Pos.compare Pos.compare_cont].
    + exists ((true, c2) :: es). rewrite Himg', Hnp, rewrite_prev by (lia || unfold bigof; zguard; done). cbn [mbind option_bind Z.gtb Z.compare Pos.compare Pos.compare_cont].
      by rewrite Himg'.
    + change (u64 (5 - 1)) with 4.
      destruct (IH fuel (pre ++ ebytes q e) (elen e) (true, c2) (elen (false, c2))) as (es' & Hl & Hf & Hcs); try done.
      { cbn in Hfuel. lia. } { split; [lia | done]. } { unfold elen in *. cbn in *. lia. } { cbn [cap snd] in *. len. }
      exists ((true, c2) :: es'). split; [|split; [done | cbn; by f_equal]]. etransitivity.
      { apply (cascade_grow (fun zl => cascade_loop junk fuel zl (10 + zlen pre + elen e) (u64 (total + 4)))); [done |]. cbn [cap snd] in *. lia. }
      replace (10 + zlen (pre ++ ebytes q e)) with (10 + zlen pre + elen e) in Hl by len.
      assert (Ht : u64 (total + 4) = 11 + zlen (pre ++ ebytes q e) + esum ((true, c2) :: es)).
      { rewrite uwrap_small; subst total; unfold elen in *; cbn in *; unfold elen in *; cbn in *; len. }
      rewrite Ht. etransitivity; [exact Hl |]. f_equal. rewrite <- img2_shift. unfold img2. cbn [eall]. by rewrite <- !app_assoc.
    + exists ((true, c2) :: es). rewrite Himg', Hnp, rewrite_prev_large by (lia || done). by rewrite Himg'.
    + exists ((false, c2) :: es). rewrite Himg', Hnp, rewrite_prev by (lia || unfold bigof; zguard; done). cbn [mbind option_bind Z.gtb Z.compare Pos.compare Pos.compare_cont].
      rewrite Himg'. split; [done |]. split; [|done]. split; [cbn; lia | done].
Qed.

(** ** Insertion *)

Lemma save_int e v x r y : int_ok e v -> zlen r = zlen (int_bytes e v) ->
  zipSaveInteger (x ++ r ++ y) (zlen x) v e = Some (x ++ int_bytes e v ++ y).
Proof.
  intros [[He ->] | [He Hv]] Hr; unfold zipSaveInteger, int_bytes in *.
  - destruct (imm_cases e He) as [_ Hm]. rewrite !Forall_cons in Hm. destruct Hm as (E1 & E2 & E3 & E4 & E5 & _). rewrite E1, E2, E3, E4, E5 in *.
    rewrite He. by destruct r.
  - destruct He as [-> | [-> | [-> | [-> | ->]]]].
    + rewrite Z.eqb_refl in *. destruct r as [|r0 [|]]; try (cbn in Hr; lia). cbn [app]. by rewrite bset_mid.
    + change (bwrite (x ++ r ++ y) (zlen x) (le_bytes 2 v) = Some (x ++ le_bytes 2 v ++ y)). change (zlen r = zlen (le_bytes 2 v)) in Hr. rewrite bwrite_mid by len. done.
    + change (bwrite (x ++ r ++ y) (zlen x) (drop 1 (le_bytes 4 (s32 (Z.shiftl v 8)))) = Some (x ++ le_bytes 3 v ++ y)).
      change (zlen r = zlen (le_bytes 3 v)) in Hr. rewrite (proj1 (int24 v Hv)), bwrite_mid by len. done.
    + change (bwrite (x ++ r ++ y) (zlen x) (le_bytes 4 v) = Some (x ++ le_bytes 4 v ++ y)). change (zlen r = zlen (le_bytes 4 v)) in Hr. rewrite bwrite_mid by len. done.
    + change (bwrite (x ++ r ++ y) (zlen x) (le_bytes 8 v) = Some (x ++ le_bytes 8 v ++ y)). change (zlen r = zlen (le_bytes 8 v)) in Hr. rewrite bwrite_mid by len. done.
Qed.

(** The value, the encoding and the payload length [__ziplistInsert] computes. *)
Lemma enc_parts s : exists v enc n,
  match zipTryEncoding s with Some (v, e) => (v, e, zipIntSize e) | None => (123456789, 0, zlen s) end = (v, enc, n) /\
  n = zlen (cbody (content_of s)) /\ encode_length_buf enc (zlen s) = chead (content_of s) /\
  (forall x r y, zlen r = n ->
    (if ZIP_IS_STR enc then bwrite (x ++ r ++ y) (zlen x) s else zipSaveInteger (x ++ r ++ y) (zlen x) v enc) =
    Some (x ++ cbody (content_of s) ++ y)).
Proof.
  unfold content_of. destruct (zipTryEncoding s) as [[v e]|] eqn:Ht; do 3 eexists; (split; [done |]).
  - apply try_encoding in Ht as (Hi & _). destruct (int_enc e v Hi) as [_ He]. cbn [cbody chead]. unfold encode_length_buf. rewrite He.
    rewrite (zipIntSize_length e v) by done. split; [done |]. split; [done |]. intros x r y Hr. apply save_int; [done |]. by rewrite (zipIntSize_length e v).
  - split; [done |]. split; [done |]. intros x r y Hr. change (ZIP_IS_STR 0) with true. cbn iota. rewrite bwrite_mid by lia. done.
Qed.

Definition incr_count (cnt incr : Z) : Z := if cnt <? UINT16_MAX then u16 (cnt + incr) else cnt.

Lemma incr_length a b cnt y incr : 0 <= cnt < 2 ^ 16 -> ZIPLIST_INCR_LENGTH (header a b cnt ++ y) incr = Some (header a b (incr_count cnt incr) ++ y).
Proof.
  intros Hc. unfold ZIPLIST_INCR_LENGTH, incr_count. rewrite header_count by done. cbn [mbind option_bind]. destruct (cnt <? UINT16_MAX); [|done]. apply set_length_header.
Qed.

(** The final stores of [__ziplistInsert]. *)
Lemma insert_finish s q T t cnt A r Y v enc n : 0 <= q -> 0 <= cnt < 2 ^ 16 ->
  zlen r = elen (bigof q, content_of s) -> n = zlen (cbody (content_of s)) -> encode_length_buf enc (zlen s) = chead (content_of s) ->
  (forall x r y, zlen r = n ->
    (if ZIP_IS_STR enc then bwrite (x ++ r ++ y) (zlen x) s else zipSaveInteger (x ++ r ++ y) (zlen x) v enc) =
    Some (x ++ cbody (content_of s) ++ y)) ->
  ('(zl, n) ← zipPrevEncodeLength (header T t cnt ++ A ++ r ++ Y) (10 + zlen A) q;
   '(zl, n') ← zipEncodeLength zl (10 + zlen A + n) enc (zlen s);
   zl ← (if ZIP_IS_STR enc then bwrite zl (10 + zlen A + n + n') s else zipSaveInteger zl (10 + zlen A + n + n') v enc);
   ZIPLIST_INCR_LENGTH zl 1) =
  Some (header T t (incr_count cnt 1) ++ A ++ ebytes q (bigof q, content_of s) ++ Y).
Proof.
  intros Hq Hcnt Hr Hn Henc Hpay. rewrite elen_split in Hr. cbn [fst snd] in Hr. set (c := content_of s) in *.
  destruct (take_drop_app r (Z.to_nat (psize (bigof q)))) as (r1 & r' & -> & Hr1); [destruct (bigof q); cbn in *; lia |].
  destruct (take_drop_app r' (length (chead c))) as (r2 & r3 & -> & Hr2); [destruct (bigof q); cbn in *; len |].
  assert (H1 : zlen r1 = psize (bigof q)) by (destruct (bigof q); cbn in *; lia). clear Hr1. pose proof (length_pfield (bigof q) q).
  rewrite <- !app_assoc, (app_assoc (header _ _ _)). replace (10 + zlen A) with (zlen (header T t cnt ++ A)) by len.
  rewrite write_prev by done. cbn [mbind option_bind]. unfold zipEncodeLength. rewrite Henc.
  rewrite (app_assoc (header T t cnt ++ A)). replace (zlen (header T t cnt ++ A) + psize (bigof q)) with (zlen ((header T t cnt ++ A) ++ pfield (bigof q) q)) by len.
  rewrite bwrite_mid by done. cbn [mbind option_bind]. rewrite (app_assoc (_ ++ pfield _ _)).
  replace (zlen ((header T t cnt ++ A) ++ pfield (bigof q) q) + zlen (chead c)) with (zlen (((header T t cnt ++ A) ++ pfield (bigof q) q) ++ chead c)) by len.
  rewrite Hpay by len. cbn [mbind option_bind]. rewrite <- !app_assoc, incr_length by done. unfold ebytes, cbytes. cbn [fst snd]. by rewrite <- !app_assoc.
Qed.

Lemma count_range cnt n : count_ok cnt n -> 0 <= n -> 0 <= cnt < 2 ^ 16.
Proof. unfold count_ok, UINT16_MAX. lia. Qed.

Lemma count_incr cnt n : count_ok cnt n -> 0 <= n -> count_ok (incr_count cnt 1) (n + 1).
Proof.
  unfold count_ok, incr_count, UINT16_MAX. intros [-> | [-> Hn]] H0; [by left |]. zguard. rewrite uwrap_small by lia. lia.
Qed.

Lemma elen_cap q s : elen (bigof q, content_of s) <= 5 + zlen (cbytes (content_of s)).
Proof. apply elen_upper. Qed.

(** Insertion at the end. *)
Lemma insert_end (es : list ent) cnt s : fits 0 es -> count_ok cnt (zlen es) -> cap es + 5 + zlen (cbytes (content_of s)) < 2 ^ 32 ->
  let e : ent := (bigof (lastlen 0 es), content_of s) in
  __ziplistInsert junk (layout es cnt) (offset es) s = Some (layout (es ++ [e]) (incr_count cnt 1)).
Proof.
  intros Hf Hcnt Hcap e. destruct (enc_parts s) as (v & enc & n & Hparts & Hn & Henc & Hpay). pose proof (count_range _ _ Hcnt ltac:(lia)) as Hcr.
  pose proof (cap_bound es). pose proof (esum_nonneg es). pose proof (lastlen_le es). pose proof (lastlen_nonneg es 0 ltac:(lia)) as Hq0.
  pose proof (elen_upper e) as Hup. cbn [snd e] in Hup. pose proof (elen_lower e).
  unfold __ziplistInsert. rewrite layout_bytes by lia. cbn [mbind option_bind]. rewrite at_end. cbn [mbind option_bind]. rewrite Z.eqb_refl. cbn [negb].
  assert (Hprev : (ptail ← ZIPLIST_ENTRY_TAIL (layout es cnt); t ← bget (layout es cnt) ptail;
    if negb (t =? ZIP_END) then zipRawEntryLength (layout es cnt) ptail else Some 0) = Some (lastlen 0 es)).
  { unfold ZIPLIST_ENTRY_TAIL. rewrite layout_tail by lia. cbn [mbind option_bind].
    destruct es as [|e0 es _] using rev_ind.
    - rewrite tailoff_nil. change 10 with (offset []). by rewrite at_end.
    - rewrite tailoff_app, tailoff_one. change (10 + esum es) with (offset es). destruct (at_first es e0 [] cnt) as (b & -> & Hb); [done | lia |].
      cbn [mbind option_bind]. rewrite Hb. cbn [negb]. rewrite at_raw by (done || lia). by rewrite lastlen_app. }
  rewrite Hprev. clear Hprev. cbn [mbind option_bind]. rewrite Hparts. cbn [mbind option_bind]. rewrite prev_size.
  unfold zipEncodeLength_size. rewrite Henc. replace (n + psize (bigof (lastlen 0 es)) + zlen (chead (content_of s))) with (elen e)
    by (rewrite elen_split; subst e n; cbn [fst snd]; lia).
  rewrite (uwrap_small 32 (11 + esum es + elen e + 0)) by lia. rewrite (Z.add_0_r (11 + esum es + elen e)).
  destruct (block_grow (11 + esum es) (tailoff 10 es) cnt (eall 0 es) ZIP_END (11 + esum es + elen e)) as (g & Hres & Hg & Hg1);
    [rewrite length_eall; lia |]. rewrite length_eall in *. destruct Hg1 as (g' & ->); [lia |].
  fold (layout es cnt) in Hres. rewrite Hres. cbn [mbind option_bind].
  assert (Hoff : offset es = 10 + zlen (eall 0 es)) by (rewrite length_eall; done).
  rewrite (app_assoc (header _ _ _) (eall 0 es)). cbn [app]. rewrite bget_mid by (rewrite Hoff; len). cbn [mbind option_bind]. rewrite Z.eqb_refl. cbn [negb].
  rewrite <- app_assoc, set_tail_header. cbn [mbind option_bind]. change (ZIP_END :: g' ++ [ZIP_END]) with ((ZIP_END :: g') ++ [ZIP_END]). rewrite Hoff.
  change (negb (0 =? 0)) with false. cbn iota. cbn [mbind option_bind].
  etransitivity; [apply (insert_finish s (lastlen 0 es) _ _ cnt (eall 0 es) (ZIP_END :: g') [ZIP_END] v enc n); (done || (subst n; fold e; lia)) |].
  f_equal. rewrite layout_split. cbn [eall]. rewrite app_nil_r. rewrite esum_app, tailoff_app, tailoff_one. cbn [esum].
  rewrite length_eall, Z.add_0_r, Z.add_assoc. done.
Qed.

(** The memory move of an insertion leaves room for the new entry and for the
    back pointer of the next one, whatever the change of its width. *)
Lemma insert_move X b b' q R g L z : 4 <= zlen X -> 0 <= L -> zlen g = L + (psize b' - psize b) ->
  exists r w, bmove (X ++ (pfield b q ++ R) ++ g ++ z) (zlen X + L) (zlen X - (psize b' - psize b)) (zlen R + psize b + (psize b' - psize b)) =
    Some (X ++ r ++ w ++ R ++ z) /\ zlen r = L /\ zlen w = psize b'.
Proof.
  intros HX HL Hg. pose proof (length_pfield b q) as Hp. destruct b, b'; cbn [psize] in *.
  - rewrite bmove_right by len. exists (take (length g) ((pfield true q ++ R) ++ g)), (pfield true q). rewrite <- !app_assoc. split; [done |]. split; len.
  - change (pfield true q) with ([ZIP_BIGLEN; u8 q; u8 (q / 256); u8 (q / 256 / 256)] ++ [u8 (q / 256 / 256 / 256)]). set (f := [ZIP_BIGLEN; _; _; _]).
    set (l := [u8 _]). rewrite <- (app_assoc f), <- (app_assoc f), (app_assoc X). rewrite bmove_right by (subst f l; len).
    exists (f ++ take (length g) ((l ++ R) ++ g)), l. rewrite <- !app_assoc. split; [done |]. subst f l. len.
  - destruct (take_drop_app X (length X - 4)) as (x & w & -> & Hx); [lia |]. rewrite <- (app_assoc x), (app_assoc w).
    rewrite bmove_right by len. exists (take (Z.to_nat L) ((pfield false q ++ R) ++ g)), (w ++ pfield false q).
    split; [|split; len]. f_equal. rewrite <- !app_assoc. f_equal. rewrite (app_assoc (take (length g) _) w).
    replace (length g) with (length w + Z.to_nat L)%nat by len. rewrite <- !app_assoc, take_app_add. by rewrite <- !app_assoc.
  - rewrite bmove_right by len. exists (take (length g) ((pfield false q ++ R) ++ g)), (pfield false q). rewrite <- !app_assoc. split; [done |]. split; len.
Qed.

(** The tail offset moves by [k], and by [d] too unless the entry at [p] is the last. *)
Lemma tail_step T t cnt pre n e qo es k d : fit1 n e -> content_ok e.2 -> elen e < 2 ^ 32 -> 0 <= qo < 2 ^ 32 -> fits qo es ->
  0 <= t < 2 ^ 32 -> 0 <= t + k < 2 ^ 32 -> let t' := t + k + match es with [] => 0 | _ => d end in 0 <= t' < 2 ^ 32 ->
  let rest := pre ++ ebytes n e ++ eall qo es ++ [ZIP_END] in
  (toff ← ZIPLIST_TAIL_OFFSET (header T t cnt ++ rest);
   zl ← set_TAIL_OFFSET (header T t cnt ++ rest) (u32 (toff + k));
   tail ← zipEntry zl (10 + zlen pre);
   after ← bget zl (10 + zlen pre + u32 (headersize tail + len tail));
   if negb (after =? ZIP_END) then toff ← ZIPLIST_TAIL_OFFSET zl; set_TAIL_OFFSET zl (u32 (toff + d)) else Some zl) =
  Some (header T t' cnt ++ rest).
Proof.
  intros Hfit Hc Hl Hqo Hfits Ht Htk t' Ht' rest. rewrite header_tail by done. cbn [mbind option_bind]. rewrite set_tail_header. cbn [mbind option_bind].
  rewrite (uwrap_small 32 (t + k)) by done. set (hd := header T (t + k) cnt). pose proof (elen_lower e). pose proof (length_ebytes n e).
  assert (Hr : hd ++ rest = (hd ++ pre) ++ ebytes n e ++ eall qo es ++ [ZIP_END]) by (subst rest; by rewrite <- !app_assoc).
  assert (Hp : 10 + zlen pre = zlen (hd ++ pre)) by (subst hd; len).
  assert (Hre : zipEntry (hd ++ rest) (10 + zlen pre) =
    Some (mk_zlentry (psize e.1) n (zlen (chead e.2)) (zlen (cbody e.2)) (psize e.1 + zlen (chead e.2)) (cenc e.2) (10 + zlen pre)))
    by (rewrite Hr, Hp; by apply read_entry).
  rewrite Hre. cbn [mbind option_bind headersize len]. rewrite <- elen_split, (uwrap_small 32 (elen e)) by lia. subst t'.
  assert (Hnp : 10 + zlen pre + elen e = zlen ((hd ++ pre) ++ ebytes n e)) by len. rewrite Hnp. destruct es as [|e3 es].
  - assert (Hb : bget (hd ++ rest) (zlen ((hd ++ pre) ++ ebytes n e)) = Some ZIP_END) by (rewrite Hr, app_assoc; apply bget_here).
    rewrite Hb. cbn [mbind option_bind]. rewrite Z.eqb_refl. cbn [negb]. subst hd. by rewrite Z.add_0_r.
  - assert (Hb : exists b, bget (hd ++ rest) (zlen ((hd ++ pre) ++ ebytes n e)) = Some b /\ (b =? ZIP_END) = false).
    { rewrite Hr, app_assoc. cbn [eall]. rewrite <- (app_assoc (ebytes qo e3)). apply first_byte. destruct Hfits as (? & _). by split. }
    destruct Hb as (b & -> & Hnb). cbn [mbind option_bind]. rewrite Hnb. cbn [negb]. subst hd. rewrite header_tail by done. cbn [mbind option_bind].
    rewrite set_tail_header. by rewrite uwrap_small by done.
Qed.

(** The same step as it is nested in [__ziplistDelete]. *)
Lemma tail_step_k {B} (K : list Z -> option B) T t cnt pre n e qo es m d : fit1 n e -> content_ok e.2 -> elen e < 2 ^ 32 -> 0 <= qo < 2 ^ 32 -> fits qo es ->
  0 <= t < 2 ^ 32 -> 0 <= t - m < 2 ^ 32 -> let t' := t - m + match es with [] => 0 | _ => d end in 0 <= t' < 2 ^ 32 ->
  let rest := pre ++ ebytes n e ++ eall qo es ++ [ZIP_END] in
  (toff ← ZIPLIST_TAIL_OFFSET (header T t cnt ++ rest);
   zl ← set_TAIL_OFFSET (header T t cnt ++ rest) (u32 (toff - m));
   tail ← zipEntry zl (10 + zlen pre);
   after ← bget zl (10 + zlen pre + u32 (headersize tail + len tail));
   zl ← (if negb (after =? ZIP_END) then toff ← ZIPLIST_TAIL_OFFSET zl; set_TAIL_OFFSET zl (u32 (toff + d)) else Some zl);
   K zl) = K (header T t' cnt ++ rest).
Proof.
  intros Hfit Hc Hl Hqo Hfits Ht Htk t' Ht' rest. pose proof (tail_step T t cnt pre n e qo es (- m) d Hfit Hc Hl Hqo Hfits Ht ltac:(lia) ltac:(lia)) as Hs.
  fold rest in Hs. rewrite Z.add_opp_r in Hs. fold t' in Hs. change (K (header T t' cnt ++ rest)) with (Some (header T t' cnt ++ rest) ≫= K). rewrite <- Hs.
  destruct (ZIPLIST_TAIL_OFFSET (header T t cnt ++ rest)) as [toff|]; [cbn [mbind option_bind] | done]. rewrite Z.add_opp_r.
  destruct (set_TAIL_OFFSET (header T t cnt ++ rest) _) as [zl|]; [cbn [mbind option_bind] | done].
  destruct (zipEntry zl _) as [tail|]; [cbn [mbind option_bind] | done]. by destruct (bget zl _).
Qed.

Lemma cascade_update cnt pre q e qold es : fit1 q e -> content_ok e.2 -> 0 <= qold < 2 ^ 32 -> fits qold es -> zlen pre + cap (e :: es) < 2 ^ 32 ->
  exists es', __ziplistCascadeUpdate junk (img2 cnt pre q e qold es) (10 + zlen pre) = Some (img2 cnt pre q e (elen e) es') /\
    fits (elen e) es' /\ contents es' = contents es.
Proof.
  intros Hq Hc Hqo Hf Hcap. unfold __ziplistCascadeUpdate. pose proof (cap_bound (e :: es)). pose proof (esum_nonneg (e :: es)).
  assert (Hby : ZIPLIST_BYTES (img2 cnt pre q e qold es) = Some (11 + zlen pre + esum (e :: es))) by (apply header_bytes; lia). rewrite Hby.
  cbn [mbind option_bind]. apply cascade_spec; try done. pose proof (esum_length es). pose proof (length_eall es qold). unfold img2. len.
Qed.

(** The cascade where the width of a back pointer has changed, and no work otherwise. *)
Lemma cascade_maybe cnt pre q e d qold es : d = elen e - qold -> fit1 q e -> content_ok e.2 -> 0 <= qold < 2 ^ 32 -> fits qold es ->
  zlen pre + cap (e :: es) < 2 ^ 32 ->
  exists es', (if negb (d =? 0) then __ziplistCascadeUpdate junk (img2 cnt pre q e qold es) (10 + zlen pre) else Some (img2 cnt pre q e qold es)) =
      Some (img2 cnt pre q e (elen e) es') /\ fits (elen e) es' /\ contents es' = contents es.
Proof.
  intros Hd Hq Hc Hqo Hf Hcap. destruct (Z.eqb_spec d 0) as [H0 | H0]; cbn [negb]; [|by apply cascade_update].
  exists es. replace qold with (elen e) in * by lia. done.
Qed.

(** Insertion before an entry. *)
Lemma insert_mid (es1 : list ent) (e2 : ent) (es : list ent) cnt s :
  let e : ent := (bigof (lastlen 0 es1), content_of s) in let e2' : ent := (bigof (elen e), e2.2) in
  fits 0 (es1 ++ e2 :: es) -> count_ok cnt (zlen (es1 ++ e2 :: es)) -> cap (es1 ++ e2 :: es) + 5 + zlen (cbytes (content_of s)) < 2 ^ 32 ->
  0 <= elen e + (psize (bigof (elen e)) - psize e2.1) ->
  exists es', __ziplistInsert junk (layout (es1 ++ e2 :: es) cnt) (offset es1) s = Some (layout (es1 ++ e :: e2' :: es') (incr_count cnt 1)) /\
    fits (elen e2') es' /\ contents es' = contents es.
Proof.
  intros e e2' Hf Hcnt Hcap Hroom. destruct (enc_parts s) as (v & enc & n & Hparts & Hn & Henc & Hpay). pose proof (count_range _ _ Hcnt ltac:(lia)) as Hcr.
  pose proof (cap_bound (es1 ++ e2 :: es)) as Hcb. rewrite esum_app in Hcb. cbn [esum] in Hcb.
  pose proof (elen_lower e). pose proof (elen_upper e) as Hup. cbn [snd e] in Hup. pose proof (elen_lower e2). pose proof (esum_nonneg es1). pose proof (esum_nonneg es).
  assert (Hsum : esum (es1 ++ e2 :: es) < 2 ^ 32) by (rewrite esum_app; cbn [esum]; lia).
  destruct (entry_fit es1 e2 es Hf Hsum) as ((Hq & Hq2) & Hc2 & _). set (q := lastlen 0 es1) in *.
  set (d := psize (bigof (elen e)) - psize e2.1) in *. assert (Hd : d = 0 \/ d = 4 \/ d = -4) by (subst d; destruct (bigof (elen e)), (e2.1); cbn; lia).
  unfold __ziplistInsert. rewrite layout_bytes by (rewrite esum_app; cbn [esum]; lia). cbn [mbind option_bind].
  destruct (at_first es1 e2 es cnt) as (b & -> & Hb); [done.. |]. cbn [mbind option_bind]. rewrite Hb. cbn [negb].
  rewrite at_prev by done. cbn [mbind option_bind]. fold q. rewrite Hparts. rewrite prev_size.
  unfold zipEncodeLength_size. rewrite Henc. replace (n + psize (bigof q) + zlen (chead (content_of s))) with (elen e)
    by (rewrite elen_split; subst e n; cbn [fst snd]; lia).
  unfold zipPrevLenByteDiff. rewrite at_prevsize by done. cbn [mbind option_bind]. rewrite (uwrap_small 32 (elen e)) by lia.
  rewrite prev_size. rewrite swrap_uwrap, swrap_small by lia. fold d.
  assert (HA : zlen (eall 0 es1) = esum es1) by apply length_eall. set (A := eall 0 es1) in *.
  assert (Htot : 11 + esum (es1 ++ e2 :: es) = 11 + esum es1 + elen e2 + esum es) by (rewrite esum_app; cbn [esum]; lia).
  assert (He2' : elen e2' = elen e2 + d) by (unfold elen; cbn [fst snd e2']; lia). pose proof (elen_upper e2') as Hup2. cbn [snd e2'] in Hup2.
  assert (Hcap2 : 11 + esum es1 + elen e2 + d + esum es + elen e < 2 ^ 32).
  { rewrite cap_app in Hcap. cbn [cap] in Hcap. pose proof (cap_bound es1). pose proof (cap_bound es). lia. }
  pose proof (elen_lower e2').
  rewrite (uwrap_small 32) by lia. rewrite (uwrap_small 64) by (unfold offset; lia).
  destruct (block_grow (11 + esum (es1 ++ e2 :: es)) (tailoff 10 (es1 ++ e2 :: es)) cnt (A ++ eall q (e2 :: es)) ZIP_END (11 + esum (es1 ++ e2 :: es) + elen e + d))
    as (g & Hres & Hg & _); [pose proof (length_eall (e2 :: es) q); cbn [esum] in *; len |].
  assert (Hzl : layout (es1 ++ e2 :: es) cnt = header (11 + esum (es1 ++ e2 :: es)) (tailoff 10 (es1 ++ e2 :: es)) cnt ++ (A ++ eall q (e2 :: es)) ++ [ZIP_END])
    by (rewrite layout_split; subst A; by rewrite <- app_assoc).
  rewrite Hzl, Hres. cbn [mbind option_bind]. clear Hres Hzl. set (T := 11 + esum (es1 ++ e2 :: es) + elen e + d). set (t := tailoff 10 (es1 ++ e2 :: es)).
  assert (Ht : 0 <= t < 2 ^ 32 /\ 10 + esum es1 <= t < 10 + esum es1 + elen e2 + esum es).
  { subst t. rewrite tailoff_app. pose proof (tailoff_range (10 + esum es1) e2 es ltac:(lia)). cbn [esum] in *. lia. }
  set (R := cbytes e2.2 ++ eall (elen e2) es). pose proof (length_eall es (elen e2)) as HR.
  assert (Hzl : header T t cnt ++ (A ++ eall q (e2 :: es)) ++ g ++ [ZIP_END] = (header T t cnt ++ A) ++ (pfield e2.1 q ++ R) ++ g ++ [ZIP_END])
    by (subst R; cbn [eall]; unfold ebytes; by rewrite <- !app_assoc).
  assert (HX : offset es1 = zlen (header T t cnt ++ A)) by (unfold offset; len).
  assert (Hfb : exists b, bget (header T t cnt ++ (A ++ eall q (e2 :: es)) ++ g ++ [ZIP_END]) (offset es1) = Some b /\ (b =? ZIP_END) = false).
  { cbn [eall]. rewrite <- !app_assoc, HX, (app_assoc (header _ _ _)). by apply first_byte. }
  destruct Hfb as (b1 & -> & Hb1). cbn [mbind option_bind]. rewrite Hb1. cbn [negb].
  destruct (insert_move (header T t cnt ++ A) e2.1 (bigof (elen e)) q R g (elen e) [ZIP_END]) as (r & w & Hmv & Hr & Hw); [len | lia | |].
  { pose proof (length_eall (e2 :: es) q). cbn [esum] in *. fold d. lens. lia. }
  fold d in Hmv. rewrite Hzl, HX. replace (11 + esum (es1 ++ e2 :: es) - zlen (header T t cnt ++ A) - 1 + d) with (zlen R + psize e2.1 + d)
    by (subst R; unfold elen in Htot; len).
  rewrite Hmv. clear Hmv Hzl. cbn [mbind option_bind]. rewrite (app_assoc (header _ _ _ ++ A)).
  replace (zlen (header T t cnt ++ A) + elen e) with (zlen ((header T t cnt ++ A) ++ r)) by len.
  rewrite write_prev by (done || lia). cbn [mbind option_bind].
  replace (((header T t cnt ++ A) ++ r) ++ pfield (bigof (elen e)) (elen e) ++ R ++ [ZIP_END]) with
    (header T t cnt ++ (A ++ r) ++ ebytes (elen e) e2' ++ eall (elen e2) es ++ [ZIP_END]) by (subst R; unfold ebytes; cbn [fst snd e2']; by rewrite <- !app_assoc).
  replace (zlen ((header T t cnt ++ A) ++ r)) with (10 + zlen (A ++ r)) by len.
  pose proof (elen_lower e2').
  assert (Hfit2 : fit1 (elen e) e2') by (split; [lia | cbn; unfold bigof; intros; zguard; done]).
  assert (Hfs : fits (elen e2) es) by (rewrite fits_app in Hf; by destruct Hf as (_ & _ & _ & ?)).
  assert (Hto : t + elen e + match es with [] => 0 | _ => d end = tailoff (10 + zlen (A ++ r)) (e2' :: es)).
  { subst t. rewrite tailoff_app. replace (10 + zlen (A ++ r)) with (10 + esum es1 + elen e) by len. destruct es as [|e3 es'].
    - rewrite !tailoff_one. lia.
    - rewrite !tailoff_cons. unfold tailoff. rewrite He2'. lia. }
  pose proof (tailoff_range (10 + zlen (A ++ r)) e2' es ltac:(lia)) as Htr. cbn [esum] in Htr.
  assert (HAr : zlen (A ++ r) = esum es1 + elen e) by len.
  rewrite tail_step; try done; try lia. rewrite Hto. cbn [mbind option_bind].
  assert (Himg : header T (tailoff (10 + zlen (A ++ r)) (e2' :: es)) cnt ++ (A ++ r) ++ ebytes (elen e) e2' ++ eall (elen e2) es ++ [ZIP_END] =
    img2 cnt (A ++ r) (elen e) e2' (elen e2) es) by (unfold img2; f_equal; f_equal; cbn [esum]; lia).
  rewrite Himg. destruct (cascade_maybe cnt (A ++ r) (elen e) e2' d (elen e2) es) as (es' & -> & Hf' & Hc'); try done; try lia.
  { rewrite cap_app in Hcap. cbn [cap] in *. cbn [snd e2']. pose proof (cap_bound es1). lia. }
  exists es'. split; [|done]. cbn [mbind option_bind]. unfold img2. rewrite <- (app_assoc A). rewrite <- HX. unfold offset. rewrite <- HA.
  etransitivity; [apply (insert_finish s q _ _ cnt A r _ v enc n); done || lia |]. f_equal. rewrite layout_split. cbn [eall]. subst A.
  rewrite esum_app, !tailoff_app, tailoff_cons. cbn [esum]. fold q. fold e. rewrite <- !app_assoc. f_equal. f_equal; [lia | f_equal; lia].
Qed.

(** ** Deletion *)

Lemma delete_skip_spec cnt num es2 : forall fuel es1 i k, (length es2 < fuel)%nat -> 0 <= i -> fits 0 (es1 ++ es2) -> esum (es1 ++ es2) < 2 ^ 32 ->
  delete_skip fuel (layout (es1 ++ es2) cnt) (offset es1) i num k =
  Some (offset (es1 ++ take (Z.to_nat (num - i)) es2), k + zlen (take (Z.to_nat (num - i)) es2)).
Proof.
  induction es2 as [|e es2 IH]; intros fuel es1 i k Hfuel Hi Hf Hs; (destruct fuel as [|fuel]; [cbn in Hfuel; lia |]); cbn [delete_skip].
  - rewrite take_nil, app_nil_r in *. rewrite at_end. cbn [mbind option_bind]. rewrite Z.eqb_refl. cbn. by rewrite Z.add_0_r.
  - destruct (at_first es1 e es2 cnt) as (b & -> & Hb); [done.. |]. cbn [mbind option_bind]. rewrite Hb. cbn [negb andb].
    destruct (Z.ltb_spec i num).
    + rewrite at_raw by done. cbn [mbind option_bind]. rewrite <- offset_snoc. change (e :: es2) with ([e] ++ es2). rewrite app_assoc.
      rewrite IH; [|cbn in Hfuel; lia | lia | by rewrite <- app_assoc..]. replace (Z.to_nat (num - i)) with (S (Z.to_nat (num - (i + 1)))) by lia.
      cbn [app take]. rewrite <- app_assoc. cbn [app length]. do 2 f_equal. lia.
    + replace (Z.to_nat (num - i)) with 0%nat by lia. cbn [take length]. rewrite app_nil_r. do 2 f_equal. lia.
Qed.

Lemma count_decr cnt n k : count_ok cnt n -> 0 <= k <= n -> count_ok (incr_count cnt (u32 (- k))) (n - k).
Proof.
  unfold count_ok, incr_count, UINT16_MAX. intros [-> | [-> Hn]] H0; [by left |]. zguard. right. split; [|lia].
  destruct (Z.eq_dec k 0) as [-> | Hk]; [rewrite (uwrap_small 32) by lia; rewrite uwrap_small; lia |].
  rewrite <- (uwrap_congr 32 ltac:(lia) (- k) 1), (uwrap_small 32) by lia. replace (n + (- k + 1 * 2 ^ 32)) with (n - k + 65536 * 2 ^ 16) by lia.
  rewrite uwrap_congr by lia. apply uwrap_small. lia.
Qed.

(** The write of the new back pointer before the memory move. *)
Lemma delete_write X D b b' q q' R : 0 <= q -> b' = bigof q -> 0 <= zlen D + psize b - psize b' ->
  exists D', zipPrevEncodeLength (X ++ D ++ (pfield b q' ++ R)) (zlen X + zlen D - (psize b' - psize b)) q = Some (X ++ D' ++ pfield b' q ++ R, psize b') /\
    zlen D' = zlen D - (psize b' - psize b).
Proof.
  intros Hq -> Hl. pose proof (length_pfield b q') as Hp.
  destruct (take_drop_app (D ++ pfield b q') (Z.to_nat (zlen D + psize b - psize (bigof q)))) as (D' & w & Hw & HD').
  { destruct (bigof q); cbn in *; len. }
  assert (Hlen : zlen (D ++ pfield b q') = zlen D' + zlen w) by (rewrite Hw; len). rewrite length_app in Hlen.
  exists D'. split; [|lia]. rewrite (app_assoc D), Hw. rewrite <- (app_assoc D'), (app_assoc X).
  replace (zlen X + zlen D - (psize (bigof q) - psize b)) with (zlen (X ++ D')) by len. rewrite write_prev by (done || lia). by rewrite <- app_assoc.
Qed.

Section Delete.
Context (es1 : list ent) (e1 : ent) (ed : list ent) (cnt : Z).
Let q := lastlen 0 es1.

(** All entries from [p] on are deleted. *)
Lemma delete_end num : let es := es1 ++ e1 :: ed in fits 0 es -> count_ok cnt (zlen es) -> cap es < 2 ^ 32 -> zlen (e1 :: ed) <= num ->
  __ziplistDelete junk (layout es cnt) (offset es1) num = Some (layout es1 (incr_count cnt (u32 (- zlen (e1 :: ed))))).
Proof.
  intros es Hf Hcnt Hcap Hnum. pose proof (cap_bound es) as Hb. pose proof (count_range _ _ Hcnt ltac:(lia)) as Hcr.
  pose proof (esum_length es). pose proof (esum_length ed). assert (Hes : esum es = esum es1 + elen e1 + esum ed) by (subst es; rewrite esum_app; cbn [esum]; lia).
  pose proof (elen_lower e1). pose proof (esum_nonneg es1). pose proof (lastlen_le es1). pose proof (lastlen_nonneg es1 0 ltac:(lia)).
  unfold __ziplistDelete. subst es. rewrite at_entry by (done || lia). cbn [mbind option_bind].
  pose proof (length_eall (es1 ++ e1 :: ed) 0) as Hl.
  rewrite delete_skip_spec; [|unfold layout; lens; lia | lia | done | lia]. rewrite Z.sub_0_r, take_ge by lia. cbn [mbind option_bind ze_p prevrawlen].
  rewrite (uwrap_small 32 (_ - _)) by (unfold offset; lia).
  replace (offset (es1 ++ e1 :: ed) - offset es1) with (elen e1 + esum ed) by (unfold offset; lia). rewrite Z.gtb_ltb. zguard.
  rewrite at_end. cbn [mbind option_bind]. rewrite Z.eqb_refl. cbn [negb]. unfold layout at 1. rewrite set_tail_header. cbn [mbind option_bind].
  rewrite header_bytes by lia. cbn [mbind option_bind]. rewrite (uwrap_small 32 (offset es1 - _)) by (unfold offset; lia).
  rewrite (uwrap_small 32 (_ + 0)) by lia. rewrite eall_app, <- app_assoc. pose proof (length_eall es1 0).
  rewrite block_shrink by len. cbn [mbind option_bind]. rewrite incr_length by done. cbn [mbind option_bind Z.eqb negb]. f_equal. unfold layout.
  f_equal. f_equal; lia.
Qed.

(** An entry [e2] is left after the deleted ones. *)
Lemma delete_mid (e2 : ent) (es3 : list ent) num : let es := es1 ++ (e1 :: ed) ++ e2 :: es3 in
  fits 0 es -> count_ok cnt (zlen es) -> cap es < 2 ^ 32 -> num = zlen (e1 :: ed) -> let e2' : ent := (bigof q, e2.2) in
  exists es', __ziplistDelete junk (layout es cnt) (offset es1) num = Some (layout (es1 ++ e2' :: es') (incr_count cnt (u32 (- zlen (e1 :: ed))))) /\
    fits (elen e2') es' /\ contents es' = contents es3.
Proof.
  intros es Hf Hcnt Hcap Hnum e2'. pose proof (cap_bound es) as Hb. pose proof (count_range _ _ Hcnt ltac:(lia)) as Hcr.
  pose proof (esum_length es). pose proof (esum_length ed). assert (Hes : esum es = esum es1 + elen e1 + esum ed + elen e2 + esum es3) by (subst es; rewrite !esum_app; cbn [esum]; lia).
  pose proof (elen_lower e1). pose proof (elen_lower e2). pose proof (esum_nonneg es1). pose proof (esum_nonneg es3). pose proof (lastlen_le es1). pose proof (lastlen_nonneg es1 0 ltac:(lia)).
  assert (Hes2 : es = (es1 ++ e1 :: ed) ++ e2 :: es3) by (subst es; by rewrite <- app_assoc).
  unfold __ziplistDelete. assert (He : zipEntry (layout es cnt) (offset es1) = Some (mk_zlentry (psize e1.1) q (zlen (chead e1.2)) (zlen (cbody e1.2))
    (psize e1.1 + zlen (chead e1.2)) (cenc e1.2) (offset es1))) by (subst es; cbn [app] in *; apply at_entry; (done || lia)).
  rewrite He. cbn [mbind option_bind]. pose proof (length_eall es 0) as Hl.
  assert (Hsk : delete_skip (S (length (layout es cnt))) (layout es cnt) (offset es1) 0 num 0 = Some (offset (es1 ++ e1 :: ed), zlen (e1 :: ed))).
  { assert (length ((e1 :: ed) ++ e2 :: es3) <= length es)%nat by (subst es; rewrite (length_app es1); lia).
    assert (zlen es <= zlen (layout es cnt)) by (unfold layout; rewrite !length_app; lia).
    etransitivity; [apply (delete_skip_spec cnt num ((e1 :: ed) ++ e2 :: es3)); [lia | lia | done | subst es; lia] |].
    by rewrite Z.sub_0_r, Hnum, Nat2Z.id, take_app_length. }
  rewrite Hsk. cbn [mbind option_bind ze_p prevrawlen].
  rewrite (uwrap_small 32 (_ - _)) by (unfold offset; rewrite esum_app; cbn [esum]; lia).
  replace (offset (es1 ++ e1 :: ed) - offset es1) with (elen e1 + esum ed) by (unfold offset; rewrite esum_app; cbn [esum]; lia). rewrite Z.gtb_ltb. zguard.
  assert (Hs2 : esum es < 2 ^ 32) by lia. clear He Hsk. clearbody es. subst es. destruct (entry_fit _ _ _ Hf Hs2) as ((Hq2 & Hq2') & Hc2 & _). set (q2 := lastlen 0 (es1 ++ e1 :: ed)) in *.
  set (d := psize (bigof q) - psize e2.1). set (D := eall q (e1 :: ed)). assert (HD : zlen D = elen e1 + esum ed) by apply length_eall.
  assert (Hroom : 0 <= zlen D + psize e2.1 - psize (bigof q)).
  { rewrite HD. assert (Hbf : bigof q = true -> psize e1.1 = 5).
    { unfold bigof. intros Hbq. zbool. rewrite <- app_assoc in Hf. rewrite fits_app in Hf. destruct Hf as (_ & Hf1 & _). fold q in Hf1. by rewrite Hf1. }
    pose proof (cbytes_pos e1.2). unfold elen at 1. destruct (bigof q); [|destruct (e1.1), (e2.1); cbn; lia]. rewrite Hbf by done. destruct (e2.1); cbn; lia. }
  destruct (at_first (es1 ++ e1 :: ed) e2 es3 cnt) as (b & -> & Hb0); [done.. |]. cbn [mbind option_bind]. rewrite Hb0. cbn [negb].
  unfold zipPrevLenByteDiff. rewrite at_prevsize by done. cbn [mbind option_bind]. rewrite prev_size, swrap_uwrap by lia. rewrite swrap_small by (destruct (bigof q), (e2.1); cbn; lia). fold d.
  set (A := eall 0 es1). assert (HA : zlen A = esum es1) by apply length_eall. rewrite esum_app in Hes. cbn [esum] in Hes. rewrite !esum_app in Hs2. cbn [esum] in Hs2.
  rewrite layout_split. rewrite (eall_app es1). fold q q2. set (T := 11 + esum _). set (t := tailoff 10 _). change (eall q (e1 :: ed)) with D. change (eall 0 es1) with A.
  assert (HT : T = 11 + esum es1 + zlen D + elen e2 + esum es3) by (subst T; rewrite !esum_app; cbn [esum]; lia).
  assert (Ht : t = tailoff (10 + zlen A + zlen D) (e2 :: es3)) by (subst t; rewrite tailoff_app, esum_app; cbn [esum]; f_equal; lia).
  assert (Hpd : offset (es1 ++ e1 :: ed) = zlen (header T t cnt ++ A) + zlen D) by (unfold offset; rewrite esum_app; cbn [esum]; len).
  set (R := cbytes e2.2 ++ eall (elen e2) es3 ++ [ZIP_END]).
  destruct (delete_write (header T t cnt ++ A) D e2.1 (bigof q) q q2 R) as (D' & Hw & HD'); [done.. |]. fold d in Hw, HD'.
  replace (header T t cnt ++ (A ++ D) ++ eall q2 (e2 :: es3) ++ [ZIP_END]) with ((header T t cnt ++ A) ++ D ++ pfield e2.1 q2 ++ R)
    by (subst R; cbn [eall]; unfold ebytes; by rewrite <- !app_assoc).
  rewrite Hpd, Hw. clear Hw. cbn [mbind option_bind].
  replace ((header T t cnt ++ A) ++ D' ++ pfield (bigof q) q ++ R) with (header T t cnt ++ (A ++ D') ++ ebytes q e2' ++ eall (elen e2) es3 ++ [ZIP_END])
    by (subst R; unfold ebytes; cbn [fst snd e2']; by rewrite <- !app_assoc).
  replace (zlen (header T t cnt ++ A) + zlen D - d) with (10 + zlen (A ++ D')) by len.
  assert (He2' : elen e2' = elen e2 + d) by (unfold elen; cbn [fst snd e2']; lia). pose proof (elen_lower e2'). pose proof (elen_upper e2').
  assert (Hcap2 : 11 + esum es1 + elen e2' + esum es3 + zlen D < 2 ^ 32).
  { rewrite !cap_app in Hcap. cbn [cap] in Hcap. pose proof (cap_bound es1). pose proof (cap_bound es3). pose proof (cap_bound ed). pose proof (elen_upper e1). cbn [snd e2'] in *. lia. }
  assert (Hfit2 : fit1 q e2') by (split; [lia | cbn; unfold bigof; intros; zguard; done]).
  assert (Hfs : fits (elen e2) es3) by (rewrite fits_app in Hf; by destruct Hf as (_ & _ & _ & ?)).
  pose proof (tailoff_range (10 + zlen A + zlen D) e2 es3 ltac:(lia)) as Htr. cbn [esum] in Htr.
  pose proof (tailoff_range (10 + zlen A) e2' es3 ltac:(lia)) as Htr'. cbn [esum] in Htr'.
  assert (Hto : t - (elen e1 + esum ed) + match es3 with [] => 0 | _ => d end = tailoff (10 + zlen A) (e2' :: es3)).
  { rewrite Ht. destruct es3 as [|e3 es3']; [rewrite !tailoff_one; lia |]. rewrite !tailoff_cons. unfold tailoff. rewrite He2'. lia. }
  rewrite (tail_step_k (fun zl => bytes ← ZIPLIST_BYTES zl; zl ← bmove zl (offset es1) (10 + zlen (A ++ D')) (u64 (bytes - (10 + zlen (A ++ D')) - 1)); Some (zl, d)));
    try done; try lia.
  rewrite Hto. set (t' := tailoff (10 + zlen A) (e2' :: es3)) in *. rewrite header_bytes by lia. cbn [mbind option_bind].
  set (E := ebytes q e2' ++ eall (elen e2) es3). assert (HE : zlen E = elen e2' + esum es3) by (subst E; pose proof (length_ebytes q e2'); pose proof (length_eall es3 (elen e2)); len).
  assert (HAD : zlen (A ++ D') = esum es1 + zlen D - d) by len. rewrite (uwrap_small 64) by lia.
  replace (header T t' cnt ++ (A ++ D') ++ ebytes q e2' ++ eall (elen e2) es3 ++ [ZIP_END]) with ((header T t' cnt ++ A) ++ D' ++ E ++ [ZIP_END])
    by (subst E; by rewrite <- !app_assoc).
  rewrite bmove_left by (unfold offset in *; len). cbn [mbind option_bind]. rewrite <- !app_assoc. rewrite header_bytes by lia. cbn [mbind option_bind].
  rewrite (uwrap_small 32 (_ + d)) by lia. rewrite (app_assoc A E). rewrite block_shrink by len. cbn [mbind option_bind]. rewrite incr_length by done.
  cbn [mbind option_bind]. set (cnt' := incr_count cnt _).
  replace (header (T - (elen e1 + esum ed) + d) t' cnt' ++ (A ++ E) ++ [ZIP_END]) with (img2 cnt' A q e2' (elen e2) es3)
    by (unfold img2; subst E; rewrite <- !app_assoc; f_equal; f_equal; cbn [esum]; lia).
  replace (offset es1) with (10 + zlen A) by (unfold offset; lia).
  destruct (cascade_maybe cnt' A q e2' d (elen e2) es3) as (es' & -> & Hf' & Hc'); try done; try lia.
  { rewrite !cap_app in Hcap. cbn [cap] in Hcap |- *. pose proof (cap_bound es1). pose proof (cap_lower ed). cbn [snd e2']. lia. }
  exists es'. split; [|done]. f_equal. unfold img2. rewrite layout_split. cbn [eall]. rewrite esum_app, tailoff_app. fold q A. rewrite <- !app_assoc. f_equal.
  f_equal; [cbn [esum]; lia | f_equal; lia].
Qed.
End Delete.

End Ops.
End ZiplistOps.
