(* ===== verification/ZiplistProps.v ===== *)
(** * Ziplists implement lists of strings

    Traversal, search and counting on the layout, and the refinement: any
    sequence of operations on a fresh ziplist behaves as on a list of byte
    strings.  The exception is an insertion of a short value before an entry
    whose back pointer is wider than it needs to be, which goes wrong in the
    code. *)

From S2P Require Import Prelude Bytes Bits NumConv Ziplist ZiplistInv ZiplistOps.

Module ZiplistProps.
Import NumConv Ziplist ZiplistInv ZiplistOps.

(** ** Specification *)

(** The position a C index denotes. *)
Definition zindex {A} (vs : list A) (i : Z) : option nat :=
  let n := zlen vs in
  if i <? 0 then if - i <=? n then Some (Z.to_nat (n + i)) else None
  else if i <? n then Some (Z.to_nat i) else None.

Inductive zop :=
  | ZPush (head : bool) (s : list Z)
  | ZInsert (i : Z) (s : list Z)
  | ZDelete (i : Z)
  | ZDeleteRange (i num : Z).

Definition zspec (o : zop) (vs : list (list Z)) : list (list Z) :=
  match o with
  | ZPush true s => s :: vs
  | ZPush false s => vs ++ [s]
  | ZInsert i s => match zindex vs i with Some k => take k vs ++ s :: drop k vs | None => vs end
  | ZDelete i => match zindex vs i with Some k => take k vs ++ drop (S k) vs | None => vs end
  | ZDeleteRange i num => match zindex vs i with Some k => take k vs ++ drop (k + Z.to_nat num) vs | None => vs end
  end.

Definition zrun (junk : nat -> Z) (o : zop) (zl : list Z) : option (list Z) :=
  match o with
  | ZPush head s => ziplistPush junk zl s head
  | ZInsert i s => p ← ziplistIndex zl i; match p with Some p => ziplistInsert junk zl p s | None => Some zl end
  | ZDelete i => p ← ziplistIndex zl i; match p with Some p => fst <$> ziplistDelete junk zl p | None => Some zl end
  | ZDeleteRange i num => ziplistDeleteRange junk zl i num
  end.

Definition value_of (g : zget) : list Z := match g with ZStr s => s | ZInt v => dec_string v end.

Fixpoint vsum (vs : list (list Z)) : Z := match vs with [] => 0 | v :: vs => 14 + zlen v + vsum vs end.

(** ** Traversal *)

Lemma length_contents es : length (contents es) = length es.
Proof. apply length_map. Qed.

Section Traverse.
Context (es : list ent) (cnt : Z) (Hfits : fits 0 es) (Hsum : 11 + esum es < 2 ^ 32).

Lemma index_fwd_spec es2 : forall fuel es1 i, es = es1 ++ es2 -> (length es2 < fuel)%nat -> 0 <= i ->
  index_fwd fuel (layout es cnt) (offset es1) i =
  Some (offset (es1 ++ take (Z.to_nat i) es2), if i <? zlen es2 then -1 else i - zlen es2).
Proof using Hfits Hsum.
  induction es2 as [|e es2 IH]; intros fuel es1 i Hes Hfuel Hi; (destruct fuel as [|fuel]; [cbn in Hfuel; lia |]); cbn [index_fwd].
  - rewrite app_nil_r in Hes. subst es1. rewrite at_end. cbn [mbind option_bind]. rewrite Z.eqb_refl, take_nil, app_nil_r. cbn [negb length].
    zguard. do 2 f_equal. lia.
  - assert (Hf' := Hfits). rewrite Hes in Hf'. assert (Hs' : esum (es1 ++ e :: es2) < 2 ^ 32) by (rewrite <- Hes; lia).
    rewrite Hes. destruct (at_first es1 e es2 cnt) as (b & -> & Hb); [done.. |]. cbn [mbind option_bind]. rewrite Hb. cbn [negb]. destruct (Z.eqb_spec i 0) as [-> | Hi0].
    + cbn [Z.to_nat take length]. rewrite app_nil_r. zguard. done.
    + rewrite at_raw by done. cbn [mbind option_bind]. rewrite <- offset_snoc, <- Hes. rewrite IH; [|by rewrite <- app_assoc | cbn in Hfuel; lia | lia].
      replace (Z.to_nat i) with (S (Z.to_nat (i - 1))) by lia. cbn [take]. rewrite <- app_assoc. cbn [app length]. do 2 f_equal.
      replace (i - 1 <? zlen es2) with (i <? Z.of_nat (S (length es2))) by (destruct (Z.ltb_spec i (Z.of_nat (S (length es2)))); symmetry; [apply Z.ltb_lt | apply Z.ltb_ge]; lia).
      destruct (_ <? _); lia.
Qed.

Lemma index_back_spec es1 : forall fuel e es2 i, es = es1 ++ e :: es2 -> (length es1 < fuel)%nat -> 0 <= i ->
  index_back fuel (layout es cnt) (offset es1) (lastlen 0 es1) i =
  Some (offset (take (Z.to_nat (zlen es1 - i)) es1), if i <? zlen es1 then -1 else i - zlen es1).
Proof using Hfits Hsum.
  induction es1 as [|e1 es1 IH] using rev_ind; intros fuel e es2 i Hes Hfuel Hi; (destruct fuel as [|fuel]; [lia |]); cbn [index_back].
  - cbn [lastlen Z.gtb Z.compare length]. rewrite take_nil. do 2 f_equal. zguard. lia.
  - rewrite lastlen_app. cbn [lastlen]. pose proof (elen_lower e1). rewrite Z.gtb_ltb. rewrite (proj2 (Z.ltb_lt 0 (elen e1))) by lia. rewrite length_app in *. cbn [length] in *.
    destruct (Z.eqb_spec i 0) as [-> | Hi0].
    + rewrite take_ge by len. zguard. done.
    + rewrite offset_snoc, Z.add_simpl_r. assert (Hes' : es = es1 ++ e1 :: e :: es2) by (rewrite Hes; by rewrite <- app_assoc).
      assert (Hp : ZIP_DECODE_PREVLEN (layout es cnt) (offset es1) = Some (psize e1.1, lastlen 0 es1)).
      { assert (Hf' := Hfits). assert (Hs' := Hsum). rewrite Hes' in Hf', Hs'. rewrite Hes'. apply at_prev; [done | lia]. }
      rewrite Hp. cbn [mbind option_bind]. rewrite (IH fuel e1 (e :: es2)); [|done | lia..].
      replace (Z.of_nat (length es1 + 1) - i) with (zlen es1 - (i - 1)) by lia. rewrite take_app_le by lia. do 2 f_equal.
      destruct (Z.ltb_spec (i - 1) (zlen es1)), (Z.ltb_spec i (Z.of_nat (length es1 + 1))); lia.
Qed.

Lemma length_layout : zlen (layout es cnt) = 11 + esum es.
Proof. unfold layout. rewrite !length_app, length_header. pose proof (length_eall es 0). cbn [length]. lia. Qed.

Lemma layout_fuel : (length es < length (layout es cnt))%nat.
Proof. pose proof length_layout. pose proof (esum_length es). lia. Qed.

(** The entry at a position. *)
Lemma at_position k : (k < length es)%nat -> exists e, es !! k = Some e /\ es = take k es ++ e :: drop (S k) es /\
  fits 0 (take k es ++ e :: drop (S k) es) /\ esum (take k es ++ e :: drop (S k) es) < 2 ^ 32.
Proof using Hfits Hsum.
  intros Hk. destruct (lookup_lt_is_Some_2 es k Hk) as [e He]. exists e. pose proof (lookup_split _ _ _ He) as Hs. split; [done |]. split; [done |].
  rewrite <- Hs. split; [done | lia].
Qed.

Lemma not_end k : (k < length es)%nat -> exists b, bget (layout es cnt) (offset (take k es)) = Some b /\ (b =? ZIP_END) = false.
Proof using Hfits Hsum.
  intros Hk. destruct (at_position k Hk) as (e & _ & Hs & Hf & Hb). pose proof (at_first _ _ _ cnt Hf Hb) as Hx. by rewrite <- Hs in Hx.
Qed.

Lemma tail_position : es <> [] -> tailoff 10 es = offset (take (length es - 1) es) /\
  ZIP_DECODE_PREVLEN (layout es cnt) (offset (take (length es - 1) es)) = Some (psize (default false (fst <$> last es)), lastlen 0 (take (length es - 1) es)).
Proof using Hfits Hsum.
  intros Hne. destruct (exists_last Hne) as (es0 & e & Hes). assert (Ht : take (length es - 1) es = es0).
  { rewrite Hes, length_app. cbn [length]. rewrite Nat.add_sub. apply take_app_length. }
  rewrite Ht. split; rewrite Hes.
  - by rewrite tailoff_app, tailoff_one.
  - rewrite last_snoc. cbn. assert (Hf := Hfits). assert (Hb := Hsum). rewrite Hes in Hf, Hb. apply at_prev; [done | lia].
Qed.

Lemma ziplistIndex_spec i : - 2 ^ 31 < i < 2 ^ 31 ->
  ziplistIndex (layout es cnt) i = Some ((fun k => offset (take k es)) <$> zindex es i).
Proof using Hfits Hsum.
  intros Hi. unfold ziplistIndex, zindex. pose proof layout_fuel as Hfuel. destruct (Z.ltb_spec i 0).
  - rewrite (swrap_small 32 ltac:(lia) (- i)), swrap_small by lia. unfold ZIPLIST_ENTRY_TAIL. rewrite layout_tail by done. cbn [mbind option_bind].
    destruct (decide (es = [])) as [-> | Hne].
    + rewrite tailoff_nil. change 10 with (offset []). rewrite at_end. cbn [mbind option_bind]. rewrite Z.eqb_refl. cbn [negb mbind option_bind].
      rewrite at_end. cbn [mbind option_bind]. rewrite Z.eqb_refl. cbn [orb length]. zguard. done.
    + assert (0 < length es)%nat by (destruct es; [done | cbn; lia]). destruct (tail_position Hne) as (-> & Hprev).
      destruct (not_end (length es - 1)) as (b & -> & Hb); [lia |]. cbn [mbind option_bind]. rewrite Hb. cbn [negb]. rewrite Hprev. cbn [mbind option_bind].
      destruct (at_position (length es - 1)) as (e & _ & Hes & _); [lia |].
      rewrite (index_back_spec _ _ _ _ _ Hes) by (rewrite ?length_take; lia). cbn [mbind option_bind]. rewrite take_take, length_take.
      destruct (Z.leb_spec (- i) (zlen es)).
      * replace (Z.to_nat _ `min` _)%nat with (Z.to_nat (zlen es + i)) by lia. destruct (not_end (Z.to_nat (zlen es + i))) as (b2 & -> & Hb2); [lia |].
        cbn [mbind option_bind]. rewrite Hb2. cbn [orb]. rewrite Z.gtb_ltb. destruct (Z.ltb_spec (- i - 1) (Z.of_nat ((length es - 1) `min` length es))); cbn [Z.ltb Z.compare]; [done |].
        zguard. done.
      * replace (Z.to_nat _ `min` _)%nat with 0%nat by lia. destruct (not_end 0) as (b2 & -> & Hb2); [lia |]. cbn [mbind option_bind]. rewrite Hb2. cbn [orb].
        rewrite Z.gtb_ltb. zguard. zguard. done.
  - change ZIPLIST_ENTRY_HEAD with (offset []). rewrite (index_fwd_spec es) by (done || lia). cbn [mbind option_bind app]. destruct (Z.ltb_spec i (zlen es)).
    + destruct (not_end (Z.to_nat i)) as (b & -> & Hb); [lia |]. cbn [mbind option_bind]. by rewrite Hb.
    + rewrite take_ge by lia. rewrite at_end. cbn [mbind option_bind]. rewrite Z.eqb_refl. done.
Qed.

Definition zget_of (c : content) : zget := match c with Str s => ZStr s | Num _ v => ZInt v end.

Lemma ziplistGet_spec k (e : ent) : es !! k = Some e -> ziplistGet (layout es cnt) (Some (offset (take k es))) = Some (Some (zget_of e.2)).
Proof using Hfits Hsum.
  intros He. destruct (at_position k) as (e' & He' & Hs & Hf & Hb); [by apply lookup_lt_Some in He |]. assert (e' = e) as -> by congruence. cbn [ziplistGet].
  destruct (not_end k) as (b & -> & Hb'); [by apply lookup_lt_Some in He |]. cbn [mbind option_bind]. rewrite Hb'.
  pose proof (at_entry _ _ _ cnt Hf Hb) as Hent. destruct (at_body _ _ _ cnt Hf Hb) as [H1 H2]. rewrite <- Hs in Hent, H1, H2. rewrite Hent. cbn [mbind option_bind encoding headersize len].
  destruct (e.2) as [s | n v] eqn:Hc.
  - rewrite cenc_str. cbn [cbody] in *. rewrite H1. done.
  - apply entry_fit in Hf as (_ & Hok & _); [|done]. rewrite Hc in Hok. destruct (int_enc n v Hok) as [_ Hn]. cbn [cenc]. rewrite Hn, (H2 n v eq_refl). done.
Qed.

Lemma value_zget_of c : value_of (zget_of c) = cvalue c.
Proof. by destruct c. Qed.

Lemma ziplistNext_spec k : (k < length es)%nat ->
  ziplistNext (layout es cnt) (offset (take k es)) = Some (if (S k <? length es)%nat then Some (offset (take (S k) es)) else None).
Proof using Hfits Hsum.
  intros Hk. destruct (at_position k Hk) as (e & He & Hs & Hf & Hb). unfold ziplistNext. destruct (not_end k Hk) as (b & -> & Hb'). cbn [mbind option_bind]. rewrite Hb'.
  assert (Hr : zipRawEntryLength (layout es cnt) (offset (take k es)) = Some (elen e)) by (rewrite Hs at 1; by apply at_raw).
  rewrite Hr. cbn [mbind option_bind]. rewrite <- offset_snoc, <- take_S_r by done. destruct (Nat.ltb_spec (S k) (length es)).
  - destruct (not_end (S k)) as (b2 & -> & Hb2); [done |]. cbn [mbind option_bind]. by rewrite Hb2.
  - rewrite take_ge by lia. rewrite at_end. cbn [mbind option_bind]. by rewrite Z.eqb_refl.
Qed.

Lemma ziplistPrev_spec k : (k <= length es)%nat ->
  ziplistPrev (layout es cnt) (offset (take k es)) = Some (if (k =? 0)%nat then None else Some (offset (take (k - 1) es))).
Proof using Hfits Hsum.
  intros Hk. unfold ziplistPrev. destruct (decide (k = length es)) as [-> | Hne].
  - rewrite take_ge, at_end by lia. cbn [mbind option_bind]. rewrite Z.eqb_refl. unfold ZIPLIST_ENTRY_TAIL. rewrite layout_tail by done. cbn [mbind option_bind].
    destruct (decide (es = [])) as [-> | Hnil].
    + rewrite tailoff_nil. change 10 with (offset []). rewrite at_end. cbn [mbind option_bind]. by rewrite Z.eqb_refl.
    + assert (0 < length es)%nat by (destruct es; [done | cbn; lia]). destruct (tail_position Hnil) as [-> _].
      destruct (not_end (length es - 1)) as (b & -> & Hb); [lia |]. cbn [mbind option_bind]. rewrite Hb. by rewrite (proj2 (Nat.eqb_neq _ 0)) by lia.
  - destruct (at_position k) as (e & He & Hs & Hf & Hb); [lia |]. destruct (not_end k) as (b & -> & Hb'); [lia |]. cbn [mbind option_bind]. rewrite Hb'.
    pose proof (esum_length (take k es)). unfold ZIPLIST_ENTRY_HEAD, ZIPLIST_HEADER_SIZE. destruct (Nat.eqb_spec k 0) as [-> | H0]; [done |].
    rewrite length_take in *. rewrite (proj2 (Z.eqb_neq (offset _) _)) by (unfold offset; lia).
    assert (Hp : ZIP_DECODE_PREVLEN (layout es cnt) (offset (take k es)) = Some (psize e.1, lastlen 0 (take k es))) by (rewrite Hs at 1; by apply at_prev).
    rewrite Hp. cbn [mbind option_bind]. destruct (at_position (k - 1)) as (e1 & He1 & _); [lia |].
    replace (take k es) with (take (k - 1) es ++ [e1]) by (rewrite <- take_S_r by done; f_equal; lia). rewrite lastlen_app, offset_snoc. cbn [lastlen].
    pose proof (elen_lower e1). rewrite Z.gtb_ltb. zguard. do 2 f_equal. lia.
Qed.

Lemma count_loop_spec es2 : forall fuel es1 n, es = es1 ++ es2 -> (length es2 < fuel)%nat -> 0 <= n -> n + zlen es2 < 2 ^ 32 ->
  count_loop fuel (layout es cnt) (offset es1) n = Some (n + zlen es2).
Proof using Hfits Hsum.
  induction es2 as [|e es2 IH]; intros fuel es1 n Hes Hfuel Hn Hb; (destruct fuel as [|fuel]; [cbn in Hfuel; lia |]); cbn [count_loop].
  - rewrite app_nil_r in Hes. subst es1. rewrite at_end. cbn [mbind option_bind]. rewrite Z.eqb_refl. cbn. by rewrite Z.add_0_r.
  - assert (Hf' := Hfits). rewrite Hes in Hf'. assert (Hs' : esum (es1 ++ e :: es2) < 2 ^ 32) by (rewrite <- Hes; lia). rewrite Hes.
    destruct (at_first es1 e es2 cnt) as (b & -> & Hb'); [done.. |]. cbn [mbind option_bind]. rewrite Hb'. cbn [negb]. rewrite at_raw by done. cbn [mbind option_bind].
    cbn [length] in *. rewrite <- offset_snoc, <- Hes, uwrap_small by lia. rewrite IH; [f_equal; lia | by rewrite <- app_assoc | lia..].
Qed.

Lemma ziplistLen_spec : count_ok cnt (zlen es) -> exists cnt', ziplistLen (layout es cnt) = Some (zlen es, layout es cnt') /\ count_ok cnt' (zlen es).
Proof using Hfits Hsum.
  intros Hc. pose proof (count_range _ _ Hc ltac:(lia)). pose proof (esum_length es). pose proof layout_fuel. unfold ziplistLen.
  assert (Hl : ZIPLIST_LENGTH (layout es cnt) = Some cnt) by (by apply header_count). rewrite Hl. cbn [mbind option_bind]. unfold count_ok, UINT16_MAX in *.
  destruct Hc as [Hc | [Hc Hn]].
  - rewrite (proj2 (Z.ltb_ge cnt _)) by lia. change ZIPLIST_HEADER_SIZE with (offset []). rewrite (count_loop_spec es) by (done || lia). cbn [mbind option_bind].
    destruct (Z.ltb_spec (0 + zlen es) 65535); [|exists cnt; auto]. exists (zlen es). split; [|by right].
    assert (Hset : set_LENGTH (layout es cnt) (0 + zlen es) = Some (layout es (zlen es))) by apply set_length_header. by rewrite Hset.
  - rewrite (proj2 (Z.ltb_lt cnt _)) by lia. exists cnt. rewrite Hc. auto.
Qed.

(** ** Comparison and search *)

Lemma int_ok_int64 n v : int_ok n v -> int64 v.
Proof.
  unfold int_ok, is_imm, int64, LLONG_MIN, LLONG_MAX, ZIP_INT_IMM_MIN, ZIP_INT_IMM_MAX. intros [[H ->] | [H Hv]]; [zbool; lia |].
  assert (zipIntSize n <= 8) by (destruct H as [-> | [-> | [-> | [-> | ->]]]]; done).
  pose proof (Z.pow_le_mono_r 2 (8 * zipIntSize n - 1) 63 ltac:(lia) ltac:(lia)). lia.
Qed.

(** Comparing an integer entry with a string through [zipTryEncoding]. *)
Lemma compare_int n v s : int_ok n v ->
  match zipTryEncoding s with Some (u, _) => v =? u | None => false end = bool_decide (dec_string v = s).
Proof.
  intros Hi. pose proof (int_ok_int64 n v Hi) as Hv. destruct (zipTryEncoding s) as [[u m]|] eqn:Hs.
  - apply try_encoding in Hs as (_ & Hu & ->). destruct (Z.eqb_spec v u) as [-> | Hne]; [by rewrite bool_decide_eq_true_2 |].
    symmetry. apply bool_decide_eq_false. intros Heq. apply Hne. pose proof (string2ll_complete v Hv) as H1. rewrite Heq, string2ll_complete in H1 by done. congruence.
  - symmetry. apply bool_decide_eq_false. intros <-. destruct (try_encoding_dec v Hv). congruence.
Qed.

Lemma ziplistCompare_spec k (e : ent) s : es !! k = Some e ->
  ziplistCompare (layout es cnt) (offset (take k es)) s = Some (bool_decide (cvalue e.2 = s)).
Proof using Hfits Hsum.
  intros He. destruct (at_position k) as (e' & He' & Hs & Hf & Hb); [by apply lookup_lt_Some in He |]. assert (e' = e) as -> by congruence.
  unfold ziplistCompare. destruct (not_end k) as (b & -> & Hb'); [by apply lookup_lt_Some in He |]. cbn [mbind option_bind]. rewrite Hb'.
  pose proof (at_entry _ _ _ cnt Hf Hb) as Hent. destruct (at_body _ _ _ cnt Hf Hb) as [H1 H2]. rewrite <- Hs in Hent, H1, H2. rewrite Hent.
  cbn [mbind option_bind encoding headersize len]. destruct (e.2) as [u | n v] eqn:Hc.
  - rewrite cenc_str. cbn [cbody cvalue] in *. destruct (Z.eqb_spec (zlen u) (zlen s)) as [Hl | Hl].
    + rewrite <- Hl, H1. done.
    + symmetry. f_equal. apply bool_decide_eq_false. by intros ->.
  - apply entry_fit in Hf as (_ & Hok & _); [|done]. rewrite Hc in Hok. destruct (int_enc n v Hok) as [_ Hn]. cbn [cenc cvalue]. rewrite Hn.
    rewrite <- (compare_int n v s Hok). rewrite (H2 n v eq_refl). by destruct (zipTryEncoding s) as [[u m]|].
Qed.

(** The first position at which the value is compared and equal: after each
    comparison [skip] entries are passed over. *)
Fixpoint zfind (vs : list (list Z)) (v : list Z) (skip skipcnt : Z) (k : nat) : option nat :=
  match vs with
  | [] => None
  | u :: vs => if skipcnt =? 0 then if bool_decide (u = v) then Some k else zfind vs v skip skip (S k)
               else zfind vs v skip (skipcnt - 1) (S k)
  end.

Lemma zfind_lt vs v skip : forall skipcnt k m, zfind vs v skip skipcnt k = Some m -> (m < k + length vs)%nat.
Proof.
  induction vs as [|u vs IH]; intros skipcnt k m; cbn [zfind length]; [done |]. destruct (_ =? _); [destruct (bool_decide _) |].
  - intros [= ->]. lia.
  - intros H. apply IH in H. lia.
  - intros H. apply IH in H. lia.
Qed.

Definition cache_ok (v : list Z) (venc vll : Z) : Prop :=
  venc = 0 \/ match zipTryEncoding v with Some (u, m) => venc = m /\ vll = u | None => venc = UCHAR_MAX end.

Lemma try_encoding_range v u m : zipTryEncoding v = Some (u, m) -> 192 <= m < 255.
Proof. intros H. apply try_encoding in H as (H & _). by apply int_enc in H as [? _]. Qed.

Lemma find_loop_spec v skip es2 : forall fuel es1 skipcnt venc vll, es = es1 ++ es2 -> (length es2 < fuel)%nat -> 0 <= skip < 2 ^ 31 -> 0 <= skipcnt < 2 ^ 31 ->
  cache_ok v venc vll ->
  find_loop fuel (layout es cnt) (offset es1) v skip skipcnt venc vll =
  Some ((fun k => offset (take k es)) <$> zfind (values es2) v skip skipcnt (length es1)).
Proof using Hfits Hsum.
  induction es2 as [|e es2 IH]; intros fuel es1 skipcnt venc vll Hes Hfuel Hsk Hsc Hca; (destruct fuel as [|fuel]; [cbn in Hfuel; lia |]); cbn [find_loop].
  - rewrite app_nil_r in Hes. subst es1. rewrite at_end. cbn [mbind option_bind]. by rewrite Z.eqb_refl.
  - assert (Hf := Hfits). rewrite Hes in Hf. assert (Hb : esum (es1 ++ e :: es2) < 2 ^ 32) by (rewrite <- Hes; lia).
    destruct (at_first es1 e es2 cnt Hf Hb) as (b & Hb1 & Hb2). pose proof (at_prevsize _ _ _ cnt Hf Hb) as Hp. pose proof (at_length _ _ _ cnt Hf Hb) as Hl.
    destruct (at_body _ _ _ cnt Hf Hb) as [H1 H2]. rewrite <- Hes in Hb1, Hp, Hl, H1, H2. rewrite Hb1. cbn [mbind option_bind]. rewrite Hb2, Hp. cbn [mbind option_bind].
    rewrite Hl. cbn [mbind option_bind]. set (q := offset es1 + (psize e.1 + zlen (chead e.2))) in *.
    replace (offset es1 + psize e.1 + zlen (chead e.2)) with q by (subst q; lia).
    assert (Hnext : q + zlen (cbody e.2) = offset (es1 ++ [e])) by (rewrite offset_snoc, elen_split; subst q; lia). rewrite Hnext.
    assert (HIH : forall skipcnt venc vll, 0 <= skipcnt < 2 ^ 31 -> cache_ok v venc vll ->
      find_loop fuel (layout es cnt) (offset (es1 ++ [e])) v skip skipcnt venc vll = Some ((fun k => offset (take k es)) <$> zfind (values es2) v skip skipcnt (S (length es1)))).
    { intros c1 v1 l1 Hc1 Hca1. rewrite IH; try done; [|by rewrite <- app_assoc | cbn in Hfuel; lia]. rewrite length_app, Nat.add_1_r. done. }
    assert (Hhit : offset es1 = offset (take (length es1) es)) by (rewrite Hes, take_app_length; done).
    cbn [values contents map zfind]. rewrite !swrap_small by lia. destruct (Z.eqb_spec skipcnt 0) as [Hs0 | Hs0]; [|apply HIH; [lia | done]].
    destruct (e.2) as [u | n w] eqn:Hc.
    + rewrite cenc_str. cbn [cbody cvalue] in *. destruct (Z.eqb_spec (zlen u) (zlen v)) as [Hlv | Hlv].
      * rewrite H1. cbn [mbind option_bind andb]. case_bool_decide; [by rewrite Hhit | by apply HIH].
      * cbn [mbind option_bind andb]. rewrite bool_decide_eq_false_2 by (by intros ->). by apply HIH.
    + apply entry_fit in Hf as (_ & Hok & _); [|done]. rewrite Hc in Hok. destruct (int_enc n w Hok) as [_ Hn]. cbn [cenc cvalue]. rewrite Hn.
      rewrite <- (compare_int n w v Hok). specialize (H2 n w eq_refl). unfold UCHAR_MAX in *.
      assert (Hgo : forall venc' vll', match zipTryEncoding v with Some (u, m) => venc' = m /\ vll' = u | None => venc' = 255 end ->
        (if venc' =? 0 then None else if negb (venc' =? 255) then ll ← zipLoadInteger (layout es cnt) q n;
           if ll =? vll' then Some (Some (offset es1)) else find_loop fuel (layout es cnt) (offset (es1 ++ [e])) v skip skip venc' vll'
         else find_loop fuel (layout es cnt) (offset (es1 ++ [e])) v skip skip venc' vll') =
        Some ((fun k => offset (take k es)) <$> (if match zipTryEncoding v with Some (u, _) => w =? u | None => false end then Some (length es1) else zfind (values es2) v skip skip (S (length es1))))).
      { intros venc' vll' Hca'. assert (Hca2 : cache_ok v venc' vll') by (by right). destruct (zipTryEncoding v) as [[u m]|] eqn:Ht.
        - apply try_encoding_range in Ht. destruct Hca' as [-> ->]. rewrite (proj2 (Z.eqb_neq m 0)), (proj2 (Z.eqb_neq m 255)) by lia. cbn [negb]. rewrite H2. cbn [mbind option_bind].
          destruct (w =? u); [by rewrite Hhit | by apply HIH].
        - subst venc'. by apply HIH. }
      destruct Hca as [-> | Hca].
      * rewrite Z.eqb_refl. destruct (zipTryEncoding v) as [[u m]|] eqn:Ht; by apply Hgo.
      * assert (Hv0 : venc <> 0).
        { clear Hgo. destruct (zipTryEncoding v) as [[u m]|] eqn:Ht; [apply try_encoding_range in Ht; lia | unfold UCHAR_MAX in Hca; lia]. }
        rewrite (proj2 (Z.eqb_neq venc 0)) by done. exact (Hgo venc vll Hca).
Qed.

Lemma ziplistFind_spec v skip : 0 <= skip < 2 ^ 31 ->
  ziplistFind (layout es cnt) ZIPLIST_ENTRY_HEAD v skip = Some ((fun k => offset (take k es)) <$> zfind (values es) v skip 0 0).
Proof using Hfits Hsum.
  intros Hs. unfold ziplistFind. change ZIPLIST_ENTRY_HEAD with (offset []). pose proof layout_fuel. apply find_loop_spec; try done; [lia.. | by left].
Qed.
End Traverse.

(** ** Refinement of lists *)

Lemma values_app es1 es2 : values (es1 ++ es2) = values es1 ++ values es2.
Proof. unfold values, contents. by rewrite !map_app. Qed.

Lemma values_take k es : values (take k es) = take k (values es).
Proof. unfold values, contents. by rewrite !firstn_map. Qed.

Lemma values_drop k es : values (drop k es) = drop k (values es).
Proof. unfold values, contents. by rewrite !skipn_map. Qed.

Lemma values_contents es1 es2 : contents es1 = contents es2 -> values es1 = values es2.
Proof. unfold values. by intros ->. Qed.

Lemma length_values es : length (values es) = length es.
Proof. unfold values, contents. by rewrite !length_map. Qed.

Lemma lookup_values (es : list ent) : forall k (e : ent), es !! k = Some e -> values es !! k = Some (cvalue e.2).
Proof. induction es as [|e0 es IH]; intros [|k] e; cbn; try done; [by intros [= ->] | apply IH]. Qed.

Lemma zindex_length {A B} (l : list A) (k : list B) i : length l = length k -> zindex l i = zindex k i.
Proof. unfold zindex. by intros ->. Qed.

Lemma zindex_lt {A} (l : list A) i k : zindex l i = Some k -> (k < length l)%nat.
Proof. unfold zindex. repeat case_match; intros [= <-]; zbool; lia. Qed.

Lemma cbytes_value c : content_ok c -> zlen (cbytes c) <= 9 + zlen (cvalue c).
Proof.
  destruct c as [s | n v]; unfold cbytes; cbn [chead cbody cvalue content_ok]; rewrite length_app; intros Hok.
  - unfold encode_length_buf. change (ZIP_IS_STR 0) with true. cbn iota. destruct (_ <=? _); [cbn [length]; lia |]. destruct (_ <=? _); cbn [length]; lia.
  - pose proof (zipIntSize_length n v Hok). cbn [length]. unfold zipIntSize in *. repeat case_match; lia.
Qed.

Lemma cap_vsum es : forall q, fits q es -> cap es <= 11 + vsum (values es).
Proof.
  induction es as [|e es IH]; intros q; [done |]. intros (_ & Hc & Hf). cbn [cap values contents map vsum]. specialize (IH _ Hf). pose proof (cbytes_value _ Hc). unfold values, contents in IH. lia.
Qed.

Definition denotes (zl : list Z) (vs : list (list Z)) : Prop := exists es, rep zl es /\ values es = vs.

(** The back pointer after [es1] is no wider than it needs to be. *)
Definition tight (es1 es2 : list ent) : Prop := match es2 with [] => True | e :: _ => e.1 = bigof (lastlen 0 es1) end.

Definition insertable (es1 es2 : list ent) (s : list Z) : Prop := tight es1 es2 \/ 3 <= zlen (cbytes (content_of s)).

Lemma tight_head es2 : head_small es2 -> tight [] es2.
Proof. by destruct es2. Qed.

Lemma insert_rep junk es1 es2 cnt s : rep (layout (es1 ++ es2) cnt) (es1 ++ es2) -> count_ok cnt (zlen (es1 ++ es2)) -> bytes_ok s -> insertable es1 es2 s ->
  11 + vsum (values es1 ++ s :: values es2) < 2 ^ 32 ->
  exists zl', __ziplistInsert junk (layout (es1 ++ es2) cnt) (offset es1) s = Some zl' /\ denotes zl' (values es1 ++ s :: values es2).
Proof.
  intros [_ Hf Hh] Hcnt Hs Hins Hsz. pose proof (content_of_ok s Hs) as Hok. set (e := (bigof (lastlen 0 es1), content_of s) : ent).
  assert (Hcap : cap (es1 ++ es2) + 5 + zlen (cbytes (content_of s)) < 2 ^ 32).
  { pose proof (cap_vsum _ _ Hf). pose proof (cbytes_value _ Hok) as Hb. rewrite cvalue_content_of in Hb. rewrite values_app in *.
    assert (Hv : forall a b, vsum (a ++ b) = vsum a + vsum b) by (induction a; intros; cbn [app vsum]; [lia | rewrite IHa; lia]).
    rewrite Hv in *. cbn [vsum] in Hsz. lia. }
  assert (Hfe : forall es', fits (elen e) es' -> fits 0 (es1 ++ e :: es')).
  { intros es' Hf'. rewrite fits_app in Hf |- *. destruct Hf as [Hf1 _]. split; [done |]. split; [cbn; unfold bigof; intros; zguard; done |]. done. }
  assert (Hhd : forall es', head_small (es1 ++ e :: es')) by (intros es'; destruct es1; done).
  pose proof (count_incr _ _ Hcnt ltac:(lia)) as Hc1.
  assert (Hval : cvalue (content_of s) = s) by apply cvalue_content_of.
  destruct es2 as [|e2 es].
  - rewrite !app_nil_r in *. rewrite insert_end by done. eexists. split; [done |]. fold e. exists (es1 ++ [e]). split.
    + split; [eexists; split; [done |]; rewrite length_app; cbn [length]; by rewrite Nat2Z.inj_add | by apply Hfe | apply Hhd].
    + rewrite values_app. cbn. by rewrite Hval.
  - assert (Hlow : 2 <= elen e) by apply elen_lower.
    destruct (insert_mid junk es1 e2 es cnt s) as (es' & Hrun & Hf' & Hc'); try done.
    { fold e. destruct Hins as [Ht | H3].
      - cbn in Ht. rewrite Ht. assert (He : elen e = psize (bigof (lastlen 0 es1)) + zlen (cbytes (content_of s))) by done. pose proof (cbytes_pos (content_of s)). destruct (bigof (elen e)), (bigof (lastlen 0 es1)); cbn in *; lia.
      - assert (4 <= elen e) by (unfold elen, psize; cbn [fst snd e]; destruct (bigof (lastlen 0 es1)); lia). destruct (bigof (elen e)), (e2.1); cbn; lia. }
    rewrite Hrun. eexists. split; [done |]. fold e. exists (es1 ++ e :: (bigof (elen e), e2.2) :: es'). split.
    + split; [eexists; split; [done |] | | apply Hhd].
      * apply (f_equal length) in Hc'. rewrite !length_contents in Hc'. rewrite length_app in *. cbn [length] in *. rewrite Hc'.
        replace (Z.of_nat (length es1 + S (S (length es)))) with (Z.of_nat (length es1 + S (length es)) + 1) by lia. done.
      * apply Hfe. rewrite fits_app in Hf. destruct Hf as (_ & _ & Hc2 & _). split; [cbn; unfold bigof; intros; zguard; done |]. done.
    + rewrite values_app. cbn. rewrite Hval. unfold contents in Hc'. by rewrite Hc'.
Qed.

(** A deletion keeps the entries before and leaves a tight back pointer. *)
Lemma delete_layout junk es1 e1 es2 cnt num : rep (layout (es1 ++ e1 :: es2) cnt) (es1 ++ e1 :: es2) -> count_ok cnt (zlen (es1 ++ e1 :: es2)) ->
  cap (es1 ++ e1 :: es2) < 2 ^ 32 -> 0 < num ->
  exists es2' cnt', __ziplistDelete junk (layout (es1 ++ e1 :: es2) cnt) (offset es1) num = Some (layout (es1 ++ es2') cnt') /\
    rep (layout (es1 ++ es2') cnt') (es1 ++ es2') /\ count_ok cnt' (zlen (es1 ++ es2')) /\ tight es1 es2' /\
    values es2' = drop (Z.to_nat num) (values (e1 :: es2)).
Proof.
  intros Hrep Hcnt Hcap Hnum. pose proof Hrep as [_ Hf Hh]. destruct (decide (zlen (e1 :: es2) <= num)) as [Hle | Hgt].
  - rewrite delete_end by done. exists [], (incr_count cnt (u32 (- zlen (e1 :: es2)))). rewrite !app_nil_r, drop_ge by (rewrite length_values; lia).
    assert (Hc : count_ok (incr_count cnt (u32 (- zlen (e1 :: es2)))) (zlen es1)).
    { replace (zlen es1) with (zlen (es1 ++ e1 :: es2) - zlen (e1 :: es2)) by len. apply count_decr; [done | len]. }
    split_and!; [done | split | done..]; [eauto | rewrite fits_app in Hf; by destruct Hf | by destruct es1].
  - destruct (Z.to_nat num) as [|k] eqn:Hk; [lia |]. cbn [length] in Hgt. assert (Hs : es2 = take k es2 ++ drop k es2) by by rewrite take_drop. destruct (drop k es2) as [|e2 es3] eqn:Hd.
    { apply (f_equal length) in Hd. rewrite length_drop in Hd. cbn in Hd. lia. }
    set (ed := take k es2) in *. assert (Hkd : k = length ed) by (subst ed; rewrite length_take; lia). clearbody ed.
    rewrite <- values_drop. cbn [drop]. subst es2.
    destruct (delete_mid junk es1 e1 ed cnt e2 es3 num) as (es' & Hrun & Hf' & Hc'); try done; [cbn [length]; lia |].
    set (e2' := (bigof (lastlen 0 es1), e2.2) : ent) in *. eexists (e2' :: es'), _. split; [exact Hrun |].
    assert (Hcnt' : count_ok (incr_count cnt (u32 (- zlen (e1 :: ed)))) (zlen (es1 ++ e2' :: es'))).
    { apply (f_equal length) in Hc'. rewrite !length_contents in Hc'.
      replace (zlen (es1 ++ e2' :: es')) with (zlen (es1 ++ e1 :: ed ++ e2 :: es3) - zlen (e1 :: ed)) by (rewrite !length_app; cbn [length]; rewrite !length_app; cbn [length]; lia). apply count_decr; [done | len]. }
    rewrite app_comm_cons, app_assoc, fits_app in Hf. destruct Hf as [Hf1 (_ & Hc2 & _)]. split_and!; [split | done | done |].
    + eauto.
    + rewrite fits_app in *. destruct Hf1 as [Hf1 _]. split; [done |]. split; [cbn; unfold bigof; intros; zguard; done | done].
    + by destruct es1.
    + rewrite Hd. cbn. unfold contents in Hc'. by rewrite Hc'.
Qed.

Lemma delete_rep junk es1 e1 es2 cnt num : rep (layout (es1 ++ e1 :: es2) cnt) (es1 ++ e1 :: es2) -> count_ok cnt (zlen (es1 ++ e1 :: es2)) ->
  cap (es1 ++ e1 :: es2) < 2 ^ 32 -> 0 <= num ->
  exists zl', __ziplistDelete junk (layout (es1 ++ e1 :: es2) cnt) (offset es1) num = Some zl' /\
    denotes zl' (values es1 ++ drop (Z.to_nat num) (values (e1 :: es2))).
Proof.
  intros Hrep Hcnt Hcap Hnum. destruct (Z.eq_dec num 0) as [-> | Hne].
  - pose proof Hrep as [_ Hf Hh]. pose proof (cap_bound (es1 ++ e1 :: es2)). exists (layout (es1 ++ e1 :: es2) cnt). split.
    + unfold __ziplistDelete. rewrite at_entry by (done || lia). cbn [mbind option_bind]. pose proof (layout_fuel (es1 ++ e1 :: es2) cnt).
      rewrite delete_skip_spec; [|rewrite length_app in *; lia | lia | done | lia]. cbn [Z.to_nat Z.sub take mbind option_bind ze_p]. rewrite app_nil_r, Z.sub_diag. done.
    + exists (es1 ++ e1 :: es2). split; [done |]. by rewrite values_app.
  - destruct (delete_layout junk es1 e1 es2 cnt num) as (es2' & cnt' & -> & Hr & _ & _ & Hv); [done.. | lia |]. eexists. split; [done |].
    exists (es1 ++ es2'). split; [done |]. by rewrite values_app, Hv.
Qed.

(** An entry deleted and another inserted in its place. *)
Lemma replace_rep junk zl vs k v s : denotes zl vs -> vs !! k = Some v -> bytes_ok s -> 11 + vsum vs < 2 ^ 32 -> 11 + vsum (<[k := s]> vs) < 2 ^ 32 ->
  exists p, ziplistIndex zl (Z.of_nat k) = Some (Some p) /\
    exists zl1 zl2, ziplistDelete junk zl p = Some (zl1, p) /\ ziplistInsert junk zl1 p s = Some zl2 /\ denotes zl2 (<[k := s]> vs).
Proof.
  intros (es & Hrep & <-) Hk Hs Hsz Hsz'. pose proof Hrep as [(cnt & -> & Hcnt) Hf _]. pose proof (cap_vsum _ _ Hf). pose proof (cap_bound es).
  assert (Hkl : (k < length es)%nat) by (apply lookup_lt_Some in Hk; by rewrite length_values in Hk).
  destruct (lookup_lt_is_Some_2 es k Hkl) as [e He]. pose proof (take_drop_middle _ _ _ He) as Hmid. exists (offset (take k es)). split.
  { pose proof (esum_length es). rewrite ziplistIndex_spec by (done || lia). unfold zindex. do 2 zguard. by rewrite Nat2Z.id. }
  assert (Hins : <[k := s]> (values es) = values (take k es) ++ s :: drop 1 (values (e :: drop (S k) es))).
  { rewrite insert_take_drop by by rewrite length_values. rewrite values_take. cbn [values contents map drop]. f_equal. f_equal. symmetry. apply values_drop. }
  destruct (delete_layout junk (take k es) e (drop (S k) es) cnt 1) as (es2 & cnt2 & Hdel & Hr2 & Hc2 & Ht2 & Hv2); [by rewrite Hmid.. | rewrite Hmid; lia | lia |].
  rewrite Hmid in Hdel. change (Z.to_nat 1) with 1%nat in Hv2. rewrite Hins, <- Hv2 in *.
  destruct (insert_rep junk (take k es) es2 cnt2 s) as (zl2 & Hz2 & Hd2); [done | done | done | by left | done |].
  exists (layout (take k es ++ es2) cnt2), zl2. unfold ziplistDelete, ziplistInsert. by rewrite Hdel.
Qed.

Definition int32 (i : Z) : Prop := - 2 ^ 31 < i < 2 ^ 31.

(** An insertion at an index stores at least three bytes besides the back pointer. *)
Definition zop_ok (o : zop) : Prop :=
  match o with
  | ZPush _ s => bytes_ok s
  | ZInsert i s => int32 i /\ bytes_ok s /\ 3 <= zlen (cbytes (content_of s))
  | ZDelete i => int32 i
  | ZDeleteRange i num => int32 i /\ 0 <= num < 2 ^ 32
  end.

Lemma vsum_app a b : vsum (a ++ b) = vsum a + vsum b.
Proof. induction a as [|x a IH]; cbn [app vsum]; lia. Qed.

Lemma vsum_nonneg a : 0 <= vsum a.
Proof. induction a as [|x a IH]; cbn [vsum]; lia. Qed.

Lemma vsum_length a : 14 * zlen a <= vsum a.
Proof. induction a as [|x a IH]; cbn [vsum length]; lia. Qed.

Definition added (o : zop) : Z := match o with ZPush _ s | ZInsert _ s => 14 + zlen s | _ => 0 end.

Lemma vsum_cut vs k m : (k <= m)%nat -> vsum (take k vs ++ drop m vs) <= vsum vs.
Proof.
  intros. rewrite vsum_app. rewrite <- (take_drop k vs) at 3. rewrite vsum_app. enough (vsum (drop m vs) <= vsum (drop k vs)) by lia.
  replace m with (k + (m - k))%nat by lia. rewrite <- drop_drop. rewrite <- (take_drop (m - k) (drop k vs)) at 2. rewrite vsum_app. pose proof (vsum_nonneg (take (m - k) (drop k vs))). lia.
Qed.

Lemma vsum_spec o vs : vsum (zspec o vs) <= vsum vs + added o.
Proof.
  destruct o as [[|] s | i s | i | i num]; cbn [zspec added vsum]; rewrite ?vsum_app; cbn [vsum]; try lia.
  - destruct (zindex vs i); [|lia]. rewrite vsum_app. cbn [vsum]. rewrite <- (take_drop n vs) at 3. rewrite vsum_app. lia.
  - destruct (zindex vs i); [|lia]. pose proof (vsum_cut vs n (S n) ltac:(lia)). lia.
  - destruct (zindex vs i); [|lia]. pose proof (vsum_cut vs n (n + Z.to_nat num) ltac:(lia)). lia.
Qed.

Section Run.
Context (junk : nat -> Z).

(** Every update does on the block what its specification does on the list. *)
Lemma zrun_spec o zl vs : denotes zl vs -> zop_ok o -> 11 + vsum vs < 2 ^ 32 -> 11 + vsum (zspec o vs) < 2 ^ 32 ->
  exists zl', zrun junk o zl = Some zl' /\ denotes zl' (zspec o vs).
Proof.
  intros (es & Hrep & <-) Hok Hsz Hsz'. pose proof Hrep as [(cnt & -> & Hcnt) Hf Hh]. pose proof (cap_vsum _ _ Hf) as Hcap. pose proof (cap_bound es) as Hcb.
  assert (Hidx : forall i, int32 i -> ziplistIndex (layout es cnt) i = Some ((fun k => offset (take k es)) <$> zindex (values es) i)).
  { intros i Hi. rewrite (zindex_length (values es) es) by apply length_values. apply ziplistIndex_spec; [done | lia | done]. }
  assert (Hcut : forall i k, zindex (values es) i = Some k -> exists e, es = take k es ++ e :: drop (S k) es).
  { intros i k Hk. apply zindex_lt in Hk. rewrite length_values in Hk. destruct (lookup_lt_is_Some_2 es k Hk) as [e He]. exists e. by apply lookup_split. }
  assert (Hins : forall k s, bytes_ok s -> insertable (take k es) (drop k es) s -> 11 + vsum (take k (values es) ++ s :: drop k (values es)) < 2 ^ 32 ->
    exists zl', __ziplistInsert junk (layout es cnt) (offset (take k es)) s = Some zl' /\ denotes zl' (take k (values es) ++ s :: drop k (values es))).
  { intros k s Hs Hi Hb. rewrite <- values_take, <- values_drop in *. pose proof (insert_rep junk (take k es) (drop k es) cnt s) as Hx. rewrite take_drop in Hx. by apply Hx. }
  destruct o as [hd s | i s | i | i num]; cbn [zop_ok zrun] in *.
  - unfold ziplistPush. destruct hd; cbn [zspec] in *.
    + apply (Hins 0%nat); [done | left; by apply tight_head | done].
    + unfold ZIPLIST_ENTRY_END. rewrite layout_bytes by lia. cbn [mbind option_bind]. replace (11 + esum es - 1) with (offset es) by (unfold offset; lia).
      specialize (Hins (length es) s). rewrite !(take_ge es), !(drop_ge es) in Hins by lia. rewrite !take_ge, !drop_ge in Hins by (rewrite length_values; lia).
      apply Hins; [done | by left | done].
  - destruct Hok as (Hi & Hs & H3). rewrite Hidx by done. cbn [mbind option_bind zspec] in *. destruct (zindex (values es) i) as [k|] eqn:Hk; cbn [fmap option_fmap option_map].
    + apply Hins; [done | by right | done].
    + eexists. split; [done |]. by exists es.
  - rewrite Hidx by done. cbn [mbind option_bind zspec] in *. destruct (zindex (values es) i) as [k|] eqn:Hk; cbn [fmap option_fmap option_map].
    + destruct (Hcut _ _ Hk) as [e He]. pose proof (delete_rep junk (take k es) e (drop (S k) es) cnt 1) as Hx. rewrite <- He in Hx.
      destruct Hx as (zl' & Hrun & Hd); [done.. | lia | lia |]. unfold ziplistDelete. rewrite Hrun. cbn. eexists. split; [done |].
      cbn in Hd. rewrite values_take in Hd. change (map cvalue (map snd (drop (S k) es))) with (values (drop (S k) es)) in Hd. by rewrite values_drop in Hd.
    + eexists. split; [done |]. by exists es.
  - destruct Hok as [Hi Hn]. unfold ziplistDeleteRange. rewrite Hidx by done. cbn [mbind option_bind zspec] in *.
    destruct (zindex (values es) i) as [k|] eqn:Hk; cbn [fmap option_fmap option_map].
    + destruct (Hcut _ _ Hk) as [e He]. pose proof (delete_rep junk (take k es) e (drop (S k) es) cnt num) as Hx. rewrite <- He in Hx.
      destruct Hx as (zl' & Hrun & Hd); [done.. | lia | lia |]. rewrite Hrun. eexists. split; [done |].
      assert (Hdr : e :: drop (S k) es = drop k es) by (rewrite He at 2; symmetry; apply drop_app_exact; rewrite length_take; apply zindex_lt in Hk; rewrite length_values in Hk; lia).
      by rewrite Hdr, values_take, values_drop, drop_drop in Hd.
    + eexists. split; [done |]. by exists es.
Qed.

Fixpoint zruns (os : list zop) (zl : list Z) : option (list Z) :=
  match os with
  | [] => Some zl
  | o :: os => zl ← zrun junk o zl; zruns os zl
  end.

Fixpoint zspecs (os : list zop) (vs : list (list Z)) : list (list Z) :=
  match os with
  | [] => vs
  | o :: os => zspecs os (zspec o vs)
  end.

Fixpoint osum (os : list zop) : Z := match os with [] => 0 | o :: os => added o + osum os end.

Lemma osum_nonneg os : 0 <= osum os.
Proof. induction os as [|o os IH]; cbn [osum]; [lia |]. unfold added. destruct o; lia. Qed.

Lemma zruns_spec os : forall zl vs, denotes zl vs -> Forall zop_ok os -> 11 + vsum vs + osum os < 2 ^ 32 ->
  exists zl', zruns os zl = Some zl' /\ denotes zl' (zspecs os vs) /\ 11 + vsum (zspecs os vs) < 2 ^ 32.
Proof.
  induction os as [|o os IH]; intros zl vs Hd Hok Hsz; cbn [zruns zspecs osum] in *; [exists zl; repeat split; [done | lia] |].
  apply Forall_cons in Hok as [Ho Hos]. pose proof (vsum_spec o vs). pose proof (osum_nonneg os). assert (0 <= added o) by (unfold added; destruct o; lia).
  destruct (zrun_spec o zl vs) as (zl1 & -> & Hd1); [done | done | lia | lia |]. cbn [mbind option_bind]. apply IH; [done | done | lia].
Qed.

Lemma ziplistNew_spec : exists zl, ziplistNew junk = Some zl /\ denotes zl [].
Proof.
  exists (layout [] 0). split.
  - unfold ziplistNew. pose proof (length_brealloc junk [] (ZIPLIST_HEADER_SIZE + 1) ltac:(done)) as Hl. set (b := brealloc _ _ _) in *. clearbody b. unfold ZIPLIST_HEADER_SIZE in Hl.
    do 12 (destruct b as [|? b]; [cbn in Hl; try lia |]); [|cbn in Hl; lia]. done.
  - exists []. split; [|done]. split; [|done | done]. exists 0. split; [done | right]. done.
Qed.
End Run.

(** ** Merging *)

Section Merge.
Context (junk : nat -> Z).

(** The block after the copies and the header updates, before the cascade. *)
Lemma merge_copy (a b : list ent) ca cb : fits 0 a -> fits 0 b -> count_ok ca (zlen a) -> count_ok cb (zlen b) -> cap a + cap b < 2 ^ 32 ->
  let cnt := if ca + cb <? UINT16_MAX then ca + cb else UINT16_MAX in
  exists ap, ziplistMerge junk (layout a ca) (layout b cb) =
    (zl ← __ziplistCascadeUpdate junk (header (11 + esum a + esum b) (10 + esum a + tailoff 0 b) cnt ++ eall 0 a ++ eall 0 b ++ [ZIP_END]) (tailoff 10 a); Some (zl, ap)).
Proof.
  intros Ha Hb Hca Hcb Hcap cnt. pose proof (cap_bound a). pose proof (cap_bound b). pose proof (esum_nonneg a). pose proof (esum_nonneg b).
  pose proof (count_range _ _ Hca ltac:(lia)). pose proof (count_range _ _ Hcb ltac:(lia)). pose proof (length_eall a 0) as Hla. pose proof (length_eall b 0) as Hlb.
  pose proof (lastlen_le b). pose proof (lastlen_nonneg b 0 ltac:(lia)).
  assert (HLa : ZIPLIST_LENGTH (layout a ca) = Some ca) by (by apply header_count). assert (HLb : ZIPLIST_LENGTH (layout b cb) = Some cb) by (by apply header_count).
  exists (ca >=? cb). unfold ziplistMerge. rewrite !layout_bytes, HLa, HLb by lia. cbn [mbind option_bind]. rewrite !layout_tail by lia.
  unfold ZIPLIST_HEADER_SIZE, ZIPLIST_END_SIZE. change (4 * 2 + 2) with 10. rewrite (uwrap_small 64 (11 + esum a + (11 + esum b) - 10 - 1)) by lia.
  replace (11 + esum a + (11 + esum b) - 10 - 1) with (11 + esum a + esum b) by lia.
  assert (Htail : u32 (11 + esum a - 1 + (tailoff 10 b - 10)) = 10 + esum a + tailoff 0 b) by (unfold tailoff; rewrite uwrap_small; lia).
  destruct (ca >=? cb); cbn [mbind option_bind].
  - rewrite (uwrap_small 64 (11 + esum b - 10)) by lia. assert (Hbr : bread (layout b cb) 10 (11 + esum b - 10) = Some (eall 0 b ++ [ZIP_END]))
      by (unfold layout; apply bread_end; len). rewrite Hbr. cbn [mbind option_bind].
    destruct (brealloc_grow junk (layout a ca) (11 + esum a + esum b)) as (t & -> & Ht); [unfold layout; len |]. unfold layout in *. rewrite <- !app_assoc.
    assert (Htl : zlen ([ZIP_END] ++ t) = esum b + 1) by len. rewrite (app_assoc (header _ _ _)). rewrite bwrite_end by len. cbn [mbind option_bind].
    rewrite <- app_assoc, set_bytes_header. cbn [mbind option_bind]. rewrite set_length_header. cbn [mbind option_bind]. rewrite set_tail_header. cbn [mbind option_bind].
    rewrite (uwrap_small 32 (11 + esum a + esum b)) by lia. rewrite Htail. done.
  - rewrite (uwrap_small 64 (11 + esum b - 10)), (uwrap_small 64 (11 + esum a - 1)) by lia.
    assert (Hbr : bread (layout a ca) 0 (11 + esum a - 1) = Some (header (11 + esum a) (tailoff 10 a) ca ++ eall 0 a)) by (unfold layout; rewrite app_assoc; apply bread_start; len).
    rewrite Hbr. destruct (brealloc_grow junk (layout b cb) (11 + esum a + esum b)) as (t & -> & Ht); [unfold layout; len |].
    assert (Hlen : zlen t = esum a) by (unfold layout in Ht; lens; lia). unfold layout. rewrite <- (app_nil_r t), <- !app_assoc, (app_assoc (eall 0 b)).
    rewrite bmove_right by len. cbn [mbind option_bind]. rewrite app_nil_r. rewrite (app_assoc (header _ _ _) (take _ _)). rewrite bwrite_start by len. cbn [mbind option_bind].
    rewrite <- !app_assoc, set_bytes_header. cbn [mbind option_bind]. rewrite set_length_header. cbn [mbind option_bind]. rewrite set_tail_header. cbn [mbind option_bind].
    rewrite (uwrap_small 32 (11 + esum a + esum b)) by lia. rewrite Htail. done.
Qed.

Lemma count_merge ca cb a b : count_ok ca a -> count_ok cb b -> 0 <= a -> 0 <= b -> count_ok (if ca + cb <? UINT16_MAX then ca + cb else UINT16_MAX) (a + b).
Proof. unfold count_ok, UINT16_MAX. intros. zcase; lia. Qed.

(** Merging with a non-empty second list appends it. *)
Lemma merge_denotes z1 z2 vs1 vs2 : denotes z1 vs1 -> denotes z2 vs2 -> vs2 <> [] -> 22 + vsum (vs1 ++ vs2) < 2 ^ 32 ->
  exists zl ap, ziplistMerge junk z1 z2 = Some (zl, ap) /\ denotes zl (vs1 ++ vs2).
Proof.
  intros (a & [(ca & -> & Hca) Hfa Hha] & <-) (b & [(cb & -> & Hcb) Hfb Hhb] & <-) Hne Hsz. rewrite vsum_app in Hsz.
  pose proof (cap_vsum _ _ Hfa). pose proof (cap_vsum _ _ Hfb). pose proof (count_merge _ _ _ _ Hca Hcb ltac:(lia) ltac:(lia)) as Hcnt.
  destruct (merge_copy a b ca cb Hfa Hfb Hca Hcb ltac:(lia)) as (ap & ->). set (cnt := if _ <? _ then _ else _) in *.
  destruct b as [|e2 b]; [done |]. pose proof (cap_bound a). pose proof (cap_bound (e2 :: b)) as Hcb2. cbn [esum] in Hcb2. pose proof (elen_lower e2). pose proof (esum_nonneg b). pose proof (esum_nonneg a).
  destruct Hfb as (Hf2 & Hc2 & Hfb'). destruct (decide (a = [])) as [-> | Hna].
  - destruct (cascade_update junk cnt [] 0 e2 (elen e2) b) as (es' & Hrun & Hf' & Hc'); try done; [cbn; lia.. | cbn [length]; lia |].
    exists (img2 cnt [] 0 e2 (elen e2) es'), ap. split.
    + change (tailoff 10 []) with (10 + zlen (@nil Z)). change (eall 0 [] ++ ?x) with x. replace (header _ _ cnt ++ _) with (img2 cnt [] 0 e2 (elen e2) b); [by rewrite Hrun |].
      unfold img2. cbn [eall app length esum]. rewrite <- !app_assoc. f_equal. f_equal. unfold tailoff. cbn [esum]. lia.
    + exists (e2 :: es'). split; [|cbn; unfold contents in Hc'; by rewrite Hc']. split; [|done | done]. exists cnt. split.
      * unfold img2, layout. cbn [eall app length]. by rewrite <- !app_assoc.
      * apply (f_equal length) in Hc'. rewrite !length_contents in Hc'. cbn [length] in *. by rewrite Hc'.
  - destruct (exists_last Hna) as (a0 & e & ->). assert (Hs : esum (a0 ++ e :: []) < 2 ^ 32) by lia. destruct (entry_fit a0 e [] Hfa Hs) as (Hfe & Hce & _).
    rewrite esum_app, cap_app in *. cbn [esum cap] in *. pose proof (cap_bound a0). pose proof (length_eall a0 0) as HA. pose proof (elen_lower e). pose proof (elen_upper e).
    destruct (cascade_update junk cnt (eall 0 a0) (lastlen 0 a0) e 0 (e2 :: b)) as (es' & Hrun & Hf' & Hc'); try done; [cbn [cap] in *; lia |].
    exists (img2 cnt (eall 0 a0) (lastlen 0 a0) e (elen e) es'), ap. split.
    + rewrite tailoff_app, tailoff_one, eall_app. replace (10 + esum a0) with (10 + zlen (eall 0 a0)) by lia.
      replace (header _ _ cnt ++ _) with (img2 cnt (eall 0 a0) (lastlen 0 a0) e 0 (e2 :: b)); [by rewrite Hrun |].
      unfold img2. cbn [eall]. rewrite app_nil_r, <- !app_assoc. f_equal. f_equal; [cbn [esum]; lia |]. rewrite tailoff_cons. unfold tailoff. cbn [esum]. lia.
    + exists (a0 ++ e :: es'). split; [|rewrite !values_app, <- app_assoc; cbn; unfold contents in Hc'; by rewrite Hc']. split.
      * exists cnt. split.
        { unfold img2, layout. rewrite eall_app, esum_app, tailoff_app. cbn [eall]. rewrite <- !app_assoc. f_equal. f_equal; [cbn [esum]; lia | f_equal; lia]. }
        apply (f_equal length) in Hc'. rewrite !length_contents in Hc'. rewrite !length_app in *. cbn [length] in *. rewrite Hc'.
        replace (Z.of_nat (length a0 + S (S (length b)))) with (Z.of_nat (length a0 + 1) + Z.of_nat (S (length b))) by lia. done.
      * rewrite fits_app in *. destruct Hfa as [Hfa ?]. split; [done |]. destruct Hfe. done.
      * by destruct a0.
Qed.
End Merge.

(** ** Where the code goes wrong *)

(** The block shrinks before the entries are moved: the move reads past its end. *)
Lemma insert_short junk (es1 : list ent) c2 (es3 : list ent) cnt s : let e2 : ent := (true, c2) in let es := es1 ++ e2 :: es3 in fits 0 es -> cap es + 6 < 2 ^ 32 ->
  lastlen 0 es1 < ZIP_BIGLEN -> zlen (cbytes (content_of s)) = 1 -> __ziplistInsert junk (layout es cnt) (offset es1) s = None.
Proof.
  intros e2 es Hf Hcap Hq Hone. destruct (enc_parts s) as (v & enc & n & Hparts & Hn & Henc & _).
  pose proof (cap_bound es) as Hcb. assert (Hes : esum es = esum es1 + elen e2 + esum es3) by (subst es; rewrite esum_app; cbn [esum]; lia).
  pose proof (esum_nonneg es1). pose proof (esum_nonneg es3). pose proof (lastlen_nonneg es1 0 ltac:(lia)). pose proof (cbytes_pos c2).
  assert (He2 : elen e2 = 5 + zlen (cbytes c2)) by done. assert (Hbq : bigof (lastlen 0 es1) = false) by (unfold bigof, ZIP_BIGLEN in *; zguard; done).
  unfold __ziplistInsert. rewrite layout_bytes by lia. cbn [mbind option_bind]. subst es.
  destruct (at_first es1 e2 es3 cnt) as (b & -> & Hb); [done | lia |]. cbn [mbind option_bind]. rewrite Hb. cbn [negb].
  rewrite at_prev by (done || lia). cbn [mbind option_bind]. rewrite Hparts. rewrite prev_size, Hbq. unfold zipEncodeLength_size. rewrite Henc.
  assert (Hreq : n + psize false + zlen (chead (content_of s)) = 2) by (unfold cbytes in Hone; rewrite length_app in Hone; cbn [psize]; lia). rewrite Hreq.
  unfold zipPrevLenByteDiff. rewrite at_prevsize by (done || lia). cbn [mbind option_bind fst e2]. change (s32 (u32 (zipPrevEncodeLength_size (u32 2) - psize true))) with (-4).
  rewrite (uwrap_small 32 (11 + _ + 2 + -4)) by lia. set (body := eall 0 es1 ++ eall (lastlen 0 es1) (e2 :: es3)).
  assert (Hbl : zlen body = esum es1 + elen e2 + esum es3) by (subst body; rewrite length_app, Nat2Z.inj_add, !length_eall; cbn [esum]; lia).
  assert (Hlay : layout (es1 ++ e2 :: es3) cnt = header (11 + esum (es1 ++ e2 :: es3)) (tailoff 10 (es1 ++ e2 :: es3)) cnt ++ body ++ [ZIP_END])
    by (rewrite layout_split; subst body; by rewrite <- app_assoc). rewrite Hlay.
  destruct (take_drop_app body (length body - 2)) as (y & w & Hyw & Hy); [lia |]. rewrite Hyw, <- app_assoc. rewrite block_shrink by (rewrite ?Hyw in *; len).
  cbn [mbind option_bind].
  assert (Hfirst : bget y (zlen (eall 0 es1)) = Some ZIP_BIGLEN).
  { rewrite <- (bget_app_l y w) by (rewrite length_eall; lia). rewrite <- Hyw. subst body. cbn [eall]. unfold ebytes. cbn [fst e2 pfield app]. apply bget_here. }
  assert (Hoff : offset es1 = zlen (header (11 + esum (es1 ++ e2 :: es3) + 2 + -4) (tailoff 10 (es1 ++ e2 :: es3)) cnt) + zlen (eall 0 es1))
    by (unfold offset; rewrite length_header, length_eall; lia).
  rewrite Hoff, bget_at, bget_app_l by (rewrite ?length_eall; lia). rewrite Hfirst. cbn [mbind option_bind]. change (negb (ZIP_BIGLEN =? ZIP_END)) with true. cbn iota.
  unfold bmove, bread. rewrite (proj2 (Z.leb_gt (_ + _) (zlen _))); [by rewrite !andb_false_r |]. rewrite !length_app, !length_header. rewrite length_eall. rewrite uwrap_small by lia. cbn [length]. lia.
Qed.

Lemma cascade_last junk x q e : fit1 q e -> content_ok e.2 -> elen e < 2 ^ 32 -> forall n, ZIPLIST_BYTES (x ++ ebytes q e ++ [ZIP_END]) = Some n ->
  __ziplistCascadeUpdate junk (x ++ ebytes q e ++ [ZIP_END]) (zlen x) = Some (x ++ ebytes q e ++ [ZIP_END]).
Proof.
  intros Hq Hc Hl n Hn. unfold __ziplistCascadeUpdate. rewrite Hn. cbn [mbind option_bind cascade_loop]. destruct (first_byte q e x [ZIP_END] Hq) as (b & -> & Hb).
  cbn [mbind option_bind]. rewrite Hb, read_entry by done. cbn [mbind option_bind headersize len]. pose proof (elen_lower e). pose proof (length_ebytes q e).
  rewrite <- elen_split, uwrap_small by lia. rewrite bget_at by lia. rewrite bget_mid by lia. done.
Qed.

(** A merge with an empty second list leaves the tail offset at the terminator. *)
Lemma merge_empty junk (a : list ent) ca : a <> [] -> fits 0 a -> count_ok ca (zlen a) -> cap a + 11 < 2 ^ 32 ->
  exists zl ap cnt, ziplistMerge junk (layout a ca) (layout [] 0) = Some (zl, ap) /\ count_ok cnt (zlen a) /\
    zl = header (11 + esum a) (offset a) cnt ++ eall 0 a ++ [ZIP_END].
Proof.
  intros Hne Hf Hca Hcap. assert (Hc0 : count_ok 0 (zlen (@nil ent))) by (by right). pose proof (count_merge _ _ _ _ Hca Hc0 ltac:(lia) ltac:(lia)) as Hcnt.
  destruct (merge_copy junk a [] ca 0 Hf I Hca Hc0) as (ap & ->); [cbn; lia |]. set (cnt := if _ <? _ then _ else _) in *. cbn [length] in Hcnt. rewrite Z.add_0_r in Hcnt.
  rewrite tailoff_nil, !Z.add_0_r. cbn [esum]. rewrite ?Z.add_0_r. change (eall 0 [] ++ [ZIP_END]) with [ZIP_END]. pose proof (cap_bound a).
  exists (header (11 + esum a) (10 + esum a) cnt ++ eall 0 a ++ [ZIP_END]), ap, cnt. split; [|done].
  destruct (exists_last Hne) as (a0 & e & ->). assert (Hs : esum (a0 ++ e :: []) < 2 ^ 32) by lia. destruct (entry_fit a0 e [] Hf Hs) as (Hfe & Hce & Hle).
  rewrite tailoff_app, tailoff_one, eall_app. cbn [eall]. rewrite app_nil_r, <- app_assoc. set (hd := header _ _ cnt).
  rewrite (app_assoc hd). replace (10 + esum a0) with (zlen (hd ++ eall 0 a0)) by (rewrite length_app, Nat2Z.inj_add, length_eall; subst hd; len).
  pose proof (esum_nonneg (a0 ++ [e])). rewrite (cascade_last junk (hd ++ eall 0 a0) (lastlen 0 a0) e Hfe Hce Hle (11 + esum (a0 ++ [e]))); [done |].
  rewrite <- app_assoc. apply header_bytes. lia.
Qed.

(** What the readers of a block that denotes a list return. *)
Lemma denotes_reads zl vs : denotes zl vs -> 11 + vsum vs < 2 ^ 32 ->
  (exists zl', ziplistLen zl = Some (zlen vs, zl')) /\
  (forall i, int32 i -> exists g, (p ← ziplistIndex zl i; ziplistGet zl p) = Some g /\ value_of <$> g = (k ← zindex vs i; vs !! k)) /\
  (forall v skip, 0 <= skip < 2 ^ 31 ->
     ziplistFind zl ZIPLIST_ENTRY_HEAD v skip = match zfind vs v skip 0 0 with Some k => ziplistIndex zl (Z.of_nat k) | None => Some None end).
Proof.
  intros (es & [(cnt & -> & Hcnt) Hf _] & <-) Hsz. pose proof (cap_vsum _ _ Hf). pose proof (cap_bound es). pose proof (vsum_length (values es)) as Hvl. rewrite length_values in Hvl.
  rewrite length_values. split; [|split].
  - destruct (ziplistLen_spec es cnt Hf ltac:(lia) Hcnt) as (cnt' & -> & _). eauto.
  - intros i Hi. rewrite ziplistIndex_spec by (done || lia). cbn [mbind option_bind]. rewrite (zindex_length (values es) es) by apply length_values.
    destruct (zindex es i) as [k|] eqn:Hk; [|exists None; done]. cbn [fmap option_fmap option_map mbind option_bind]. apply zindex_lt in Hk.
    destruct (lookup_lt_is_Some_2 es k Hk) as [e He]. rewrite (ziplistGet_spec es cnt Hf ltac:(lia) k e He). eexists. split; [done |]. cbn. by rewrite value_zget_of, (lookup_values es k e).
  - intros v skip Hs. rewrite ziplistFind_spec by (done || lia). destruct (zfind (values es) v skip 0 0) as [k|] eqn:Hz; [|done]. cbn [fmap option_fmap option_map].
    apply zfind_lt in Hz. rewrite length_values in Hz. cbn in Hz. rewrite ziplistIndex_spec by (done || lia). unfold zindex. do 2 zguard. rewrite Nat2Z.id. done.
Qed.

Lemma denotes_iterates zl vs k v s : denotes zl vs -> 11 + vsum vs < 2 ^ 32 -> vs !! k = Some v ->
  exists p, ziplistIndex zl (Z.of_nat k) = Some (Some p) /\ ziplistIndex zl (Z.of_nat k - zlen vs) = Some (Some p) /\
    ziplistNext zl p = (if (S k <? length vs)%nat then ziplistIndex zl (Z.of_nat (S k)) else Some None) /\
    ziplistPrev zl p = (if (k =? 0)%nat then Some None else ziplistIndex zl (Z.of_nat (k - 1))) /\
    ziplistCompare zl p s = Some (bool_decide (v = s)).
Proof.
  intros (es & [(cnt & -> & Hcnt) Hf _] & <-) Hsz Hk. pose proof (cap_vsum _ _ Hf). pose proof (cap_bound es). pose proof (vsum_length (values es)) as Hvl. rewrite length_values in *.
  assert (Hkl : (k < length es)%nat) by (apply lookup_lt_Some in Hk; by rewrite length_values in Hk). destruct (lookup_lt_is_Some_2 es k Hkl) as [e He].
  assert (Hidx : forall m, (m < length es)%nat -> ziplistIndex (layout es cnt) (Z.of_nat m) = Some (Some (offset (take m es)))).
  { intros m Hm. rewrite ziplistIndex_spec by (done || lia). unfold zindex. do 2 zguard. by rewrite Nat2Z.id. }
  exists (offset (take k es)). split; [by apply Hidx |]. split; [|split; [|split]].
  - rewrite ziplistIndex_spec by (done || lia). unfold zindex. do 2 zguard. cbn. do 4 f_equal. lia.
  - rewrite ziplistNext_spec by (done || lia). destruct (Nat.ltb_spec (S k) (length es)); [|done]. by rewrite Hidx.
  - rewrite ziplistPrev_spec by (done || lia). destruct (Nat.eqb_spec k 0); [done |]. by rewrite Hidx by lia.
  - rewrite (ziplistCompare_spec es cnt Hf ltac:(lia) k e s He). rewrite (lookup_values es k e He) in Hk. by injection Hk as <-.
Qed.

Lemma tail_lost (a : list ent) cnt : a <> [] -> fits 0 a -> 11 + esum a < 2 ^ 32 -> let zl := header (11 + esum a) (offset a) cnt ++ eall 0 a ++ [ZIP_END] in
  ziplistIndex zl (-1) = Some None /\ exists p, ziplistIndex zl 0 = Some (Some p).
Proof.
  intros Hne Hf Hsz zl. pose proof (esum_nonneg a). assert (Hoff : offset a = zlen (header (11 + esum a) (offset a) cnt ++ eall 0 a))
    by (rewrite length_app, Nat2Z.inj_add, length_eall, length_header; unfold offset; lia).
  assert (Hend : bget zl (offset a) = Some ZIP_END) by (subst zl; rewrite app_assoc; by apply bget_mid). split.
  - unfold ziplistIndex. cbn [Z.ltb Z.compare]. unfold ZIPLIST_ENTRY_TAIL. assert (Ht : ZIPLIST_TAIL_OFFSET zl = Some (offset a)) by (apply header_tail; unfold offset; lia).
    rewrite Ht. cbn [mbind option_bind]. rewrite Hend. cbn [mbind option_bind]. rewrite Z.eqb_refl. cbn [negb mbind option_bind]. rewrite Hend. cbn [mbind option_bind]. by rewrite Z.eqb_refl.
  - exists 10. destruct a as [|e a]; [done |]. unfold ziplistIndex. cbn [Z.ltb Z.compare index_fwd]. destruct Hf as (Hf1 & _).
    assert (Hb : exists b, bget zl 10 = Some b /\ (b =? ZIP_END) = false).
    { subst zl. set (hd := header _ _ _). cbn [eall]. rewrite <- app_assoc. replace 10 with (zlen hd) by (subst hd; len). by apply first_byte. }
    change ZIPLIST_ENTRY_HEAD with 10. destruct Hb as (b & Hb1 & Hb2). rewrite Hb1. cbn [mbind option_bind]. rewrite Hb2. cbn [negb Z.eqb mbind option_bind].
    rewrite Hb1. cbn [mbind option_bind]. by rewrite Hb2.
Qed.

(** ** Theorems *)

(** C10. A fresh ziplist followed by any pushes, insertions, deletions and range
    deletions behaves as a list of byte strings: no access leaves the block, the
    length is that of the list, reading at any index, counted from either end,
    gives the string at that position, and a search with any skip distance finds
    the first match among the entries compared.  Values are stored as
    integers where they can be.  Pushes are unrestricted; a value inserted at an
    index must take at least three bytes. *)
Theorem ziplist_refines_list junk os : Forall zop_ok os -> 11 + osum os < 2 ^ 32 ->
  exists zl0 zl, ziplistNew junk = Some zl0 /\ zruns junk os zl0 = Some zl /\
    let vs := zspecs os [] in
    (exists zl', ziplistLen zl = Some (zlen vs, zl')) /\
    (forall i, int32 i -> exists g, (p ← ziplistIndex zl i; ziplistGet zl p) = Some g /\ value_of <$> g = (k ← zindex vs i; vs !! k)) /\
    (forall v skip, 0 <= skip < 2 ^ 31 ->
       ziplistFind zl ZIPLIST_ENTRY_HEAD v skip = match zfind vs v skip 0 0 with Some k => ziplistIndex zl (Z.of_nat k) | None => Some None end).
Proof.
  intros Hok Hsz. destruct (ziplistNew_spec junk) as (zl0 & Hnew & Hd0). destruct (zruns_spec junk os zl0 [] Hd0 Hok ltac:(cbn; lia)) as (zl & Hrun & Hd & Hb).
  exists zl0, zl. split; [done |]. split; [done |]. set (vs := zspecs os []) in *. clearbody vs. by apply denotes_reads.
Qed.

Definition abc : list zop := [ZPush false [97]; ZPush false [49; 50; 51]; ZPush true (replicate 300 98); ZInsert 1 [120; 121; 122]; ZDelete (-1)].

Lemma ziplist_refines_list_witness : zspecs abc [] = [replicate 300 98; [120; 121; 122]; [97]] /\
  exists zl0 zl, ziplistNew (fun _ => 0) = Some zl0 /\ zruns (fun _ => 0) abc zl0 = Some zl /\
    let vs := zspecs abc [] in
    (exists zl', ziplistLen zl = Some (zlen vs, zl')) /\
    (forall i, int32 i -> exists g, (p ← ziplistIndex zl i; ziplistGet zl p) = Some g /\ value_of <$> g = (k ← zindex vs i; vs !! k)) /\
    (forall v skip, 0 <= skip < 2 ^ 31 ->
       ziplistFind zl ZIPLIST_ENTRY_HEAD v skip = match zfind vs v skip 0 0 with Some k => ziplistIndex zl (Z.of_nat k) | None => Some None end).
Proof.
  split; [vm_compute; reflexivity |]. apply (ziplist_refines_list (fun _ => 0) abc).
  - repeat constructor; try (apply (bool_decide_unpack _); vm_compute; exact I); vm_compute; congruence.
  - vm_compute. reflexivity.
Defined.

(** The entry at a position is reached from both ends, its neighbours are the
    results of [ziplistNext] and [ziplistPrev], and [ziplistCompare] with a
    string decides equality, however the entry is encoded. *)
Theorem ziplist_iterates zl vs k v s : denotes zl vs -> 11 + vsum vs < 2 ^ 32 -> vs !! k = Some v ->
  exists p, ziplistIndex zl (Z.of_nat k) = Some (Some p) /\ ziplistIndex zl (Z.of_nat k - zlen vs) = Some (Some p) /\
    ziplistNext zl p = (if (S k <? length vs)%nat then ziplistIndex zl (Z.of_nat (S k)) else Some None) /\
    ziplistPrev zl p = (if (k =? 0)%nat then Some None else ziplistIndex zl (Z.of_nat (k - 1))) /\
    ziplistCompare zl p s = Some (bool_decide (v = s)).
Proof.
  intros Hd Hsz Hk. by apply denotes_iterates.
Qed.

(** The list [a; 12] in a block, with the widths of its back pointers. *)
Definition two : list ent := [(false, Str [97]); (false, Num 253 12)].

Ltac small_prev := let H := fresh in intros H; vm_compute in H; exfalso; by apply H.

Lemma two_fits : fits 0 two.
Proof. split; [small_prev |]. split; [by repeat constructor |]. split; [small_prev |]. split; [by left | done]. Qed.

Lemma two_denotes : denotes (layout two 2) [[97]; [49; 50]].
Proof.
  exists two. split; [|reflexivity]. split; [exists 2; split; [done | by right] | apply two_fits | done].
Qed.

Lemma ziplist_iterates_witness :
  exists p, ziplistIndex (layout two 2) 1 = Some (Some p) /\ ziplistIndex (layout two 2) (1 - 2) = Some (Some p) /\
    ziplistNext (layout two 2) p = Some None /\ ziplistPrev (layout two 2) p = ziplistIndex (layout two 2) 0 /\
    ziplistCompare (layout two 2) p [49; 50] = Some true.
Proof. exact (ziplist_iterates (layout two 2) [[97]; [49; 50]] 1 [49; 50] [49; 50] two_denotes eq_refl eq_refl). Defined.

(** C11. Merging two ziplists, the second not empty, appends the second list to the
    first, whichever of the two blocks is reused. *)
Theorem ziplist_merge_appends junk z1 z2 vs1 vs2 : denotes z1 vs1 -> denotes z2 vs2 -> vs2 <> [] -> 22 + vsum (vs1 ++ vs2) < 2 ^ 32 ->
  exists zl ap, ziplistMerge junk z1 z2 = Some (zl, ap) /\ denotes zl (vs1 ++ vs2).
Proof. apply merge_denotes. Qed.

Lemma ziplist_merge_appends_witness : exists zl ap, ziplistMerge (fun _ => 7) (layout two 2) (layout two 2) = Some (zl, ap) /\
  denotes zl [[97]; [49; 50]; [97]; [49; 50]].
Proof. exact (ziplist_merge_appends (fun _ => 7) _ _ _ _ two_denotes two_denotes ltac:(done) eq_refl). Defined.


(** Such a block is reached by three pushes and a deletion. *)
Definition wide : list zop := [ZPush false (replicate 300 97); ZPush false (replicate 248 98); ZPush false [49; 50]; ZDelete 0].

Definition wide_block : list ent := [(false, Str (replicate 248 98)); (true, Num 253 12)].


(** After a merge with an empty second list the tail offset points to the
    terminator: the list keeps its entries but reading the last one finds none. *)
Theorem ziplist_merge_empty_tail junk (a : list ent) ca : a <> [] -> fits 0 a -> count_ok ca (zlen a) -> cap a + 11 < 2 ^ 32 ->
  exists zl ap, ziplistMerge junk (layout a ca) (layout [] 0) = Some (zl, ap) /\
    ziplistIndex zl (-1) = Some None /\ exists p, ziplistIndex zl 0 = Some (Some p).
Proof.
  intros Hne Hf Hca Hcap. destruct (merge_empty junk a ca Hne Hf Hca Hcap) as (zl & ap & cnt & Hrun & _ & ->). exists (header (11 + esum a) (offset a) cnt ++ eall 0 a ++ [ZIP_END]), ap.
  split; [done |]. pose proof (cap_bound a). apply tail_lost; [done | done | lia].
Qed.
Lemma ziplist_merge_empty_tail_witness : exists zl ap, ziplistMerge (fun _ => 7) (layout two 2) (layout [] 0) = Some (zl, ap) /\
  ziplistIndex zl (-1) = Some None /\ exists p, ziplistIndex zl 0 = Some (Some p).
Proof.
  apply (ziplist_merge_empty_tail (fun _ => 7) two 2); [done | apply two_fits | by right | vm_compute; reflexivity].
Defined.

End ZiplistProps.
