(* ===== verification/ZiplistKit.v ===== *)
(** * Ziplists: the operations by position

    What the ziplist functions return on a block that denotes a list of
    values, in terms of positions in that list. *)

From S2P Require Import Prelude Bytes NumConv Ziplist ZiplistInv ZiplistOps ZiplistProps.
Import NumConv Ziplist.
Import ZiplistProps(denotes, vsum, value_of, zindex).

Module ZiplistKit.

Abbreviation bytes := (list Z).

Definition zget_ok (g : zget) : Prop := match g with ZStr s => bytes_ok s | ZInt v => int64 v end.

Lemma index_layout es cnt k : ZiplistInv.fits 0 es -> 11 + ZiplistInv.esum es < 2 ^ 32 -> (k < length es)%nat ->
  ziplistIndex (ZiplistInv.layout es cnt) (Z.of_nat k) = Some (Some (ZiplistInv.offset (take k es))).
Proof.
  intros Hf Hs Hk. pose proof (ZiplistInv.esum_length es). rewrite ZiplistProps.ziplistIndex_spec by (done || lia). unfold zindex. do 2 zguard. by rewrite Nat2Z.id.
Qed.

Section Zip.
Context (zl : list Z) (vs : list bytes) (Hd : denotes zl vs) (Hsz : 11 + vsum vs < 2 ^ 32).

Lemma zip_entry k v : vs !! k = Some v -> bytes_ok v -> exists p g, ziplistIndex zl (Z.of_nat k) = Some (Some p) /\
  ziplistGet zl (Some p) = Some (Some g) /\ value_of g = v /\ zget_ok g /\
  ziplistNext zl p = (if (S k <? length vs)%nat then ziplistIndex zl (Z.of_nat (S k)) else Some None).
Proof using Hd Hsz.
  intros Hk Hv. destruct (ZiplistProps.denotes_iterates zl vs k v [] Hd Hsz Hk) as (p & Hp & _ & Hn & _). destruct Hd as (es & [(cnt & Hz & Hcnt) Hf _] & Hvs).
  pose proof (ZiplistProps.cap_vsum _ _ Hf) as Hcap. pose proof (ZiplistInv.cap_bound es). rewrite Hvs in Hcap.
  assert (Hkl : (k < length es)%nat) by (apply lookup_lt_Some in Hk; by rewrite <- Hvs, ZiplistProps.length_values in Hk). destruct (lookup_lt_is_Some_2 es k Hkl) as [e He].
  pose proof (ZiplistProps.ziplistGet_spec es cnt Hf ltac:(lia) k e He) as Hg. pose proof (ZiplistProps.lookup_values es k e He) as Hl. rewrite Hvs, Hk in Hl. injection Hl as Hl.
  assert (Hpo : p = ZiplistInv.offset (take k es)).
  { rewrite Hz, index_layout in Hp by (done || lia). by injection Hp. }
  exists p, (ZiplistProps.zget_of e.2). split_and!; [done | by rewrite Hpo, Hz | by rewrite ZiplistProps.value_zget_of | | done].
  pose proof (take_drop_middle _ _ _ He) as Hm. rewrite <- Hm in Hf. apply ZiplistInv.entry_fit in Hf as (_ & Hok & _); [|rewrite Hm; lia].
  destruct (e.2) as [s | n z]; cbn in *; [by subst v | by eapply ZiplistProps.int_ok_int64].
Qed.

Lemma zip_first : ziplistIndex zl 0 = Some (match vs with [] => None | _ => Some ZIPLIST_ENTRY_HEAD end).
Proof using Hd Hsz.
  destruct Hd as (es & [(cnt & Hz & Hcnt) Hf _] & Hvs). pose proof (ZiplistProps.cap_vsum _ _ Hf) as Hcap. pose proof (ZiplistInv.cap_bound es). rewrite Hvs in Hcap.
  rewrite Hz, ZiplistProps.ziplistIndex_spec by (done || lia). pose proof (ZiplistProps.length_values es) as Hl. rewrite Hvs in Hl. unfold zindex.
  by destruct vs, es.
Qed.

Lemma zip_len : exists zl', ziplistLen zl = Some (zlen vs, zl') /\ denotes zl' vs.
Proof using Hd Hsz.
  destruct Hd as (es & [(cnt & Hz & Hcnt) Hf Hh] & Hvs). pose proof (ZiplistProps.cap_vsum _ _ Hf) as Hcap. pose proof (ZiplistInv.cap_bound es). rewrite Hvs in Hcap.
  destruct (ZiplistProps.ziplistLen_spec es cnt Hf ltac:(lia) Hcnt) as (cnt' & Hl & Hc'). rewrite Hz, Hl, <- Hvs, ZiplistProps.length_values. eexists. split; [done |].
  exists es. split; [|done]. split; [eauto | done..].
Qed.

Lemma zip_delete junk k v : vs !! k = Some v -> exists p zl', ziplistIndex zl (Z.of_nat k) = Some (Some p) /\ ziplistDelete junk zl p = Some (zl', p) /\
  denotes zl' (take k vs ++ drop (S k) vs) /\ ((S k < length vs)%nat -> ziplistIndex zl' (Z.of_nat k) = Some (Some p)).
Proof using Hd Hsz.
  intros Hk. destruct Hd as (es & Hrep & Hvs). pose proof Hrep as [(cnt & Hz & Hcnt) Hf _]. subst zl.
  pose proof (ZiplistProps.cap_vsum _ _ Hf) as Hcap. pose proof (ZiplistInv.cap_bound es). rewrite Hvs in Hcap.
  assert (Hkl : (k < length es)%nat) by (apply lookup_lt_Some in Hk; by rewrite <- Hvs, ZiplistProps.length_values in Hk). destruct (lookup_lt_is_Some_2 es k Hkl) as [e He].
  pose proof (take_drop_middle _ _ _ He) as Hm.
  destruct (ZiplistProps.delete_layout junk (take k es) e (drop (S k) es) cnt 1) as (es2 & cnt2 & Hdel & Hr2 & Hc2 & _ & Hv2); [by rewrite Hm.. | rewrite Hm; lia | lia |].
  rewrite Hm in Hdel. assert (Hvals : ZiplistInv.values (take k es ++ es2) = take k vs ++ drop (S k) vs).
  { rewrite ZiplistProps.values_app, Hv2, ZiplistProps.values_take, Hvs. f_equal. change (ZiplistInv.values (drop (S k) es) = drop (S k) vs). by rewrite ZiplistProps.values_drop, Hvs. }
  exists (ZiplistInv.offset (take k es)), (ZiplistInv.layout (take k es ++ es2) cnt2). split_and!.
  - apply index_layout; (done || lia).
  - unfold ziplistDelete. by rewrite Hdel.
  - exists (take k es ++ es2). by rewrite Hvals.
  - intros Hlt. pose proof Hr2 as [_ Hf2 _]. pose proof (ZiplistProps.cap_vsum _ _ Hf2) as Hcap2. pose proof (ZiplistInv.cap_bound (take k es ++ es2)).
    rewrite Hvals in Hcap2. pose proof (ZiplistProps.vsum_cut vs k (S k) ltac:(lia)). apply (f_equal length) in Hvals.
    rewrite ZiplistProps.length_values, !length_app, !length_take, length_drop in Hvals. assert (length vs = length es) by (by rewrite <- Hvs, ZiplistProps.length_values).
    rewrite index_layout; [|done | lia | rewrite length_app, length_take; lia]. by rewrite take_app_le, take_take, Nat.min_id by (rewrite length_take; lia).
Qed.

(** An index counted from either end. *)
Lemma zip_index i : ZiplistProps.int32 i -> ziplistIndex zl i = match zindex vs i with Some k => ziplistIndex zl (Z.of_nat k) | None => Some None end.
Proof using Hd Hsz.
  intros Hi. destruct Hd as (es & [(cnt & Hz & Hcnt) Hf _] & Hvs). pose proof (ZiplistProps.cap_vsum _ _ Hf) as Hcap. pose proof (ZiplistInv.cap_bound es). rewrite Hvs in Hcap.
  rewrite Hz, ZiplistProps.ziplistIndex_spec by (done || lia). assert (Hl : length vs = length es) by (by rewrite <- Hvs, ZiplistProps.length_values).
  rewrite (ZiplistProps.zindex_length es vs) by done. destruct (zindex vs i) as [k|] eqn:Hk; [|done]. apply ZiplistProps.zindex_lt in Hk. rewrite index_layout; (done || lia).
Qed.

Lemma zip_prev k : (k < length vs)%nat -> exists p, ziplistIndex zl (Z.of_nat k) = Some (Some p) /\ ziplistPrev zl p = (if decide (k = 0%nat) then Some None else ziplistIndex zl (Z.of_nat (k - 1))).
Proof using Hd Hsz.
  intros Hk. destruct Hd as (es & [(cnt & Hz & Hcnt) Hf _] & Hvs). pose proof (ZiplistProps.cap_vsum _ _ Hf) as Hcap. pose proof (ZiplistInv.cap_bound es). rewrite Hvs in Hcap.
  assert (Hl : length vs = length es) by (by rewrite <- Hvs, ZiplistProps.length_values). exists (ZiplistInv.offset (take k es)). rewrite Hz. split; [apply index_layout; (done || lia) |].
  rewrite ZiplistProps.ziplistPrev_spec by (done || lia). destruct k; [done |]. rewrite decide_False by lia. cbn [Nat.eqb]. rewrite index_layout; (done || lia).
Qed.

Lemma zip_compare k v u : vs !! k = Some v -> exists p, ziplistIndex zl (Z.of_nat k) = Some (Some p) /\ ziplistCompare zl p u = Some (bool_decide (v = u)).
Proof using Hd Hsz.
  intros Hk. destruct Hd as (es & [(cnt & Hz & Hcnt) Hf _] & Hvs). pose proof (ZiplistProps.cap_vsum _ _ Hf) as Hcap. pose proof (ZiplistInv.cap_bound es). rewrite Hvs in Hcap.
  assert (Hkl : (k < length es)%nat) by (apply lookup_lt_Some in Hk; by rewrite <- Hvs, ZiplistProps.length_values in Hk). destruct (lookup_lt_is_Some_2 es k Hkl) as [e He].
  exists (ZiplistInv.offset (take k es)). rewrite Hz. split; [apply index_layout; (done || lia) |]. rewrite (ZiplistProps.ziplistCompare_spec es cnt Hf ltac:(lia) k e u He).
  pose proof (ZiplistProps.lookup_values es k e He) as Hl. rewrite Hvs, Hk in Hl. by injection Hl as <-.
Qed.
End Zip.

End ZiplistKit.
