(* ===== verification/Hll.v ===== *)
(** * HyperLogLog registers (vr_hyperloglog.c): the code

    A HyperLogLog is a string object: a header of 16 bytes - the magic word, the
    encoding, a cached estimate - and 16384 registers of six bits.  The dense
    encoding packs the registers into bytes; the sparse one is a sequence of
    opcodes, each a run of registers with one value.  [hllAdd] raises one
    register, splitting and merging opcodes in place and moving to the dense
    encoding when a run does not fit any more.

    An sds string is the list of its bytes; in memory a terminator stands behind
    them, and after [sdsMakeRoomFor] the room asked for, with unknown contents.
    The estimator, which computes with doubles, is left out. *)

From S2P Require Import Prelude Bytes.

Module Hll.

(** ** The header and the constants *)

Definition HLL_P : Z := 14.
Definition HLL_REGISTERS : Z := Z.shiftl 1 HLL_P.
Definition HLL_P_MASK : Z := HLL_REGISTERS - 1.
Definition HLL_BITS : Z := 6.
Definition HLL_REGISTER_MAX : Z := Z.shiftl 1 HLL_BITS - 1.
Definition HLL_HDR_SIZE : Z := 16.
Definition HLL_DENSE_SIZE : Z := HLL_HDR_SIZE + (HLL_REGISTERS * HLL_BITS + 7) / 8.
Definition HLL_DENSE : Z := 0.
Definition HLL_SPARSE : Z := 1.
Definition HLL_MAX_ENCODING : Z := 1.

(** Offsets of the fields of [struct hllhdr]. *)
Definition hdr_magic : Z := 0.
Definition hdr_encoding : Z := 4.
Definition hdr_card : Z := 8.

(** [HLL_INVALIDATE_CACHE]: the top bit of [card[7]]. *)
Definition HLL_INVALIDATE_CACHE (m : list Z) : option (list Z) :=
  b ← bget m (hdr_card + 7); bset m (hdr_card + 7) (Z.lor b (Z.shiftl 1 7)).

Definition HLL_VALID_CACHE (m : list Z) : option bool :=
  b ← bget m (hdr_card + 7); Some (Z.land b (Z.shiftl 1 7) =? 0).

(** ** Dense registers: [m] is the memory, [p] the offset of the array *)

Definition HLL_DENSE_GET_REGISTER (m : list Z) (p regnum : Z) : option Z :=
  let byte := regnum * HLL_BITS / 8 in
  let fb := Z.land (regnum * HLL_BITS) 7 in
  let fb8 := 8 - fb in
  b0 ← bget m (p + byte);
  b1 ← bget m (p + byte + 1);
  Some (Z.land (Z.lor (Z.shiftr b0 fb) (Z.shiftl b1 fb8)) HLL_REGISTER_MAX).

Definition HLL_DENSE_SET_REGISTER (m : list Z) (p regnum val : Z) : option (list Z) :=
  let byte := regnum * HLL_BITS / 8 in
  let fb := Z.land (regnum * HLL_BITS) 7 in
  let fb8 := 8 - fb in
  b ← bget m (p + byte);
  m ← bset m (p + byte) (Z.land b (Z.lnot (Z.shiftl HLL_REGISTER_MAX fb)));
  b ← bget m (p + byte);
  m ← bset m (p + byte) (Z.lor b (Z.shiftl val fb));
  b ← bget m (p + byte + 1);
  m ← bset m (p + byte + 1) (Z.land b (Z.lnot (Z.shiftr HLL_REGISTER_MAX fb8)));
  b ← bget m (p + byte + 1);
  bset m (p + byte + 1) (Z.lor b (Z.shiftr val fb8)).

(** ** Sparse opcodes *)

Definition HLL_SPARSE_XZERO_BIT : Z := 0x40.
Definition HLL_SPARSE_VAL_BIT : Z := 0x80.
Definition HLL_SPARSE_IS_ZERO (b : Z) : bool := Z.land b 0xc0 =? 0.
Definition HLL_SPARSE_IS_XZERO (b : Z) : bool := Z.land b 0xc0 =? HLL_SPARSE_XZERO_BIT.
Definition HLL_SPARSE_IS_VAL (b : Z) : bool := negb (Z.land b HLL_SPARSE_VAL_BIT =? 0).
Definition HLL_SPARSE_ZERO_LEN (b : Z) : Z := Z.land b 0x3f + 1.
Definition HLL_SPARSE_XZERO_LEN (b b1 : Z) : Z := Z.lor (Z.shiftl (Z.land b 0x3f) 8) b1 + 1.
Definition HLL_SPARSE_VAL_VALUE (b : Z) : Z := Z.land (Z.shiftr b 2) 0x1f + 1.
Definition HLL_SPARSE_VAL_LEN (b : Z) : Z := Z.land b 0x3 + 1.
Definition HLL_SPARSE_VAL_MAX_VALUE : Z := 32.
Definition HLL_SPARSE_VAL_MAX_LEN : Z := 4.
Definition HLL_SPARSE_ZERO_MAX_LEN : Z := 64.
Definition HLL_SPARSE_XZERO_MAX_LEN : Z := 16384.

(** The bytes the [_SET] macros store. *)
Definition HLL_SPARSE_VAL_SET (val len : Z) : list Z := [u8 (Z.lor (Z.lor (Z.shiftl (val - 1) 2) (len - 1)) HLL_SPARSE_VAL_BIT)].
Definition HLL_SPARSE_ZERO_SET (len : Z) : list Z := [u8 (len - 1)].
Definition HLL_SPARSE_XZERO_SET (len : Z) : list Z :=
  let l := len - 1 in [u8 (Z.lor (Z.shiftr l 8) HLL_SPARSE_XZERO_BIT); u8 (Z.land l 0xff)].

(** ** The hash function and the pattern *)

Definition M64 : Z := 0xc6a4a7935bd1e995.
Definition xor_shr64 (h : Z) : Z := Z.lxor h (Z.shiftr h 47).

Fixpoint murmur64_loop (n : nat) (data : list Z) (h : Z) : option (list Z * Z) :=
  match n with
  | O => Some (data, h)
  | S n =>
      w ← bread data 0 8;
      let k := u64 (le_val w * M64) in
      let k := xor_shr64 k in
      let k := u64 (k * M64) in
      murmur64_loop n (drop 8 data) (u64 (Z.lxor h k * M64))
  end.

(** The cases [i] to 1 of the switch, which fall through. *)
Fixpoint murmur64_tail (i : nat) (data : list Z) (h : Z) : option Z :=
  match i with
  | O => Some h
  | S i => b ← bget data (Z.of_nat i); murmur64_tail i data (Z.lxor h (Z.shiftl b (8 * Z.of_nat i)))
  end.

Definition MurmurHash64A (key : list Z) (seed : Z) : option Z :=
  let len := s32 (zlen key) in
  let h := Z.lxor seed (u64 (len * M64)) in
  '(rest, h) ← murmur64_loop (Z.to_nat (len / 8)) key h;
  h ← (if Z.land len 7 =? 0 then Some h else h ← murmur64_tail (Z.to_nat (Z.land len 7)) rest h; Some (u64 (h * M64)));
  Some (xor_shr64 (u64 (xor_shr64 h * M64))).

Fixpoint pat_loop (fuel : nat) (hash bit count : Z) : option Z :=
  match fuel with
  | O => None
  | S fuel => if Z.land hash bit =? 0 then pat_loop fuel hash (u64 (Z.shiftl bit 1)) (count + 1) else Some count
  end.

(** The count and the register. *)
Definition hllPatLen (ele : list Z) : option (Z * Z) :=
  hash ← MurmurHash64A ele 0xadc83b19;
  let index := Z.land hash HLL_P_MASK in
  let hash := Z.lor hash (Z.shiftl 1 63) in
  count ← pat_loop 51 hash HLL_REGISTERS 1;
  Some (count, s32 index).

(** ** Dense updates *)

Definition hllDenseAdd (m : list Z) (registers : Z) (ele : list Z) : option (list Z * bool) :=
  '(count, index) ← hllPatLen ele;
  let count := u8 count in
  oldcount ← HLL_DENSE_GET_REGISTER m registers index;
  if count >? oldcount then
    m ← HLL_DENSE_SET_REGISTER m registers index count;
    Some (m, true)
  else Some (m, false).

(** ** From sparse to dense *)

(** [while(runlen--)]. *)
Fixpoint set_run (runlen : nat) (m : list Z) (p idx regval : Z) : option (list Z) :=
  match runlen with
  | O => Some m
  | S runlen => m ← HLL_DENSE_SET_REGISTER m p idx regval; set_run runlen m p (idx + 1) regval
  end.

(** The opcodes of [m] from [p] to [end_], into the dense string [d]. *)
Fixpoint dense_loop (fuel : nat) (m : list Z) (p end_ : Z) (d : list Z) (idx : Z) : option (list Z * Z) :=
  match fuel with
  | O => None
  | S fuel =>
      if p <? end_ then
        b ← bget m p;
        if HLL_SPARSE_IS_ZERO b then dense_loop fuel m (p + 1) end_ d (s32 (idx + HLL_SPARSE_ZERO_LEN b))
        else if HLL_SPARSE_IS_XZERO b then
          b1 ← bget m (p + 1);
          dense_loop fuel m (p + 2) end_ d (s32 (idx + HLL_SPARSE_XZERO_LEN b b1))
        else
          let runlen := HLL_SPARSE_VAL_LEN b in
          d ← set_run (Z.to_nat runlen) d HLL_HDR_SIZE idx (HLL_SPARSE_VAL_VALUE b);
          dense_loop fuel m (p + 1) end_ d (s32 (idx + runlen))
      else Some (d, idx)
  end.

(** The string, or [Some None] for [VR_ERROR]. *)
Definition hllSparseToDense (s : list Z) : option (option (list Z)) :=
  encoding ← bget s hdr_encoding;
  if encoding =? HLL_DENSE then Some (Some s)
  else
    let dense := replicate (Z.to_nat HLL_DENSE_SIZE) 0 ++ [0] in
    oldhdr ← bread s 0 HLL_HDR_SIZE;
    dense ← bwrite dense 0 oldhdr;
    dense ← bset dense hdr_encoding HLL_DENSE;
    '(dense, idx) ← dense_loop (S (length s)) (s ++ [0]) HLL_HDR_SIZE (zlen s) dense 0;
    if negb (idx =? HLL_REGISTERS) then Some None
    else Some (Some (take (Z.to_nat HLL_DENSE_SIZE) dense)).

(** ** Sparse updates *)

Definition SDS_MAX_PREALLOC : Z := 1024 * 1024.

Section Add.
Context (junk : nat -> Z) (hll_sparse_max_bytes : Z).

(** [sdsMakeRoomFor] of a string without spare room: the bytes with their
    terminator, and room for at least [addlen] more. *)
Definition sdsMakeRoomFor (s : list Z) (addlen : Z) : list Z :=
  let newlen := zlen s + addlen in
  let newlen := if newlen <? SDS_MAX_PREALLOC then newlen * 2 else newlen + SDS_MAX_PREALLOC in
  if 0 >=? addlen then s ++ [0] else brealloc junk (s ++ [0]) (newlen + 1).

(** [sdsIncrLen] of the string of length [len] in [m]; the room is all of [m] but
    the place of the terminator. *)
Definition sdsIncrLen (m : list Z) (len incr : Z) : option (list Z * Z) :=
  if ((0 <=? incr) && (incr <=? zlen m - 1 - len)) || ((incr <? 0) && (- incr <=? len)) then
    m ← bset m (len + incr) 0; Some (m, len + incr)
  else None.

(** Step 1: the opcode at [p], the one before it, the first register it covers
    and their number. *)
Fixpoint locate_loop (fuel : nat) (m : list Z) (p end_ first : Z) (prev : option Z) (span index : Z)
  : option (Z * option Z * Z * Z) :=
  match fuel with
  | O => None
  | S fuel =>
      if p <? end_ then
        b ← bget m p;
        '(span, oplen) ←
          (if HLL_SPARSE_IS_ZERO b then Some (HLL_SPARSE_ZERO_LEN b, 1)
           else if HLL_SPARSE_IS_VAL b then Some (HLL_SPARSE_VAL_LEN b, 1)
           else b1 ← bget m (p + 1); Some (HLL_SPARSE_XZERO_LEN b b1, 2));
        if index <=? first + span - 1 then Some (p, prev, first, span)
        else locate_loop fuel m (p + oplen) end_ (first + span) (Some p) span index
      else Some (p, prev, first, span)
  end.

Definition zero_run (len : Z) : list Z :=
  if len >? HLL_SPARSE_ZERO_MAX_LEN then HLL_SPARSE_XZERO_SET len else HLL_SPARSE_ZERO_SET len.

(** Step 2, case D: the bytes of [seq], for a run of zeros and a run of [curval]. *)
Definition split_zeros (first last index count : Z) : list Z :=
  (if negb (index =? first) then zero_run (index - first) else []) ++
  HLL_SPARSE_VAL_SET count 1 ++
  (if negb (index =? last) then zero_run (last - index) else []).

Definition split_val (first last index count curval : Z) : list Z :=
  (if negb (index =? first) then HLL_SPARSE_VAL_SET curval (index - first) else []) ++
  HLL_SPARSE_VAL_SET count 1 ++
  (if negb (index =? last) then HLL_SPARSE_VAL_SET curval (last - index) else []).

(** Step 4: [scanlen] opcodes from [p]. *)
Fixpoint merge_loop (scanlen : nat) (m : list Z) (p end_ : Z) : option (list Z * Z) :=
  match scanlen with
  | O => Some (m, end_)
  | S scanlen =>
      if p <? end_ then
        b ← bget m p;
        if HLL_SPARSE_IS_XZERO b then merge_loop scanlen m (p + 2) end_
        else if HLL_SPARSE_IS_ZERO b then merge_loop scanlen m (p + 1) end_
        else if p + 1 <? end_ then
          b1 ← bget m (p + 1);
          if HLL_SPARSE_IS_VAL b1 then
            let v1 := HLL_SPARSE_VAL_VALUE b in
            let v2 := HLL_SPARSE_VAL_VALUE b1 in
            let len := HLL_SPARSE_VAL_LEN b + HLL_SPARSE_VAL_LEN b1 in
            if (v1 =? v2) && (len <=? HLL_SPARSE_VAL_MAX_LEN) then
              m ← bwrite m (p + 1) (HLL_SPARSE_VAL_SET v1 len);
              m ← bmove m p (p + 1) (end_ - p);
              '(m, end_) ← sdsIncrLen m end_ (-1);
              merge_loop scanlen m p end_
            else merge_loop scanlen m (p + 1) end_
          else merge_loop scanlen m (p + 1) end_
        else merge_loop scanlen m (p + 1) end_
      else Some (m, end_)
  end.

Definition updated (m : list Z) (prev : option Z) (end_ : Z) : option (list Z * Z) :=
  '(m, end_) ← merge_loop 5 m (default HLL_HDR_SIZE prev) end_;
  m ← HLL_INVALIDATE_CACHE m;
  Some (take (Z.to_nat end_) m, 1).

Definition promote (s ele : list Z) : option (list Z * Z) :=
  r ← hllSparseToDense s;
  match r with
  | None => Some (s, -1)
  | Some d =>
      '(d, dense_retval) ← hllDenseAdd (d ++ [0]) HLL_HDR_SIZE ele;
      if (dense_retval : bool) then Some (take (length d - 1) d, 1) else None
  end.

(** The string and the result: 1, 0 or -1. *)
Definition hllSparseAdd (s ele : list Z) : option (list Z * Z) :=
  '(count, index) ← hllPatLen ele;
  let count := u8 count in
  if count >? HLL_SPARSE_VAL_MAX_VALUE then promote s ele
  else
    let m := sdsMakeRoomFor s 3 in
    let end_ := zlen s in
    '(p, prev, first, span) ← locate_loop (S (length s)) m HLL_HDR_SIZE end_ 0 None 0 index;
    if span =? 0 then Some (s, -1)
    else
      b ← bget m p;
      let is_zero := HLL_SPARSE_IS_ZERO b in
      let is_xzero := negb is_zero && HLL_SPARSE_IS_XZERO b in
      let is_val := negb is_zero && negb is_xzero in
      let next := if HLL_SPARSE_IS_XZERO b then p + 2 else p + 1 in
      let has_next := negb (next >=? end_) in
      runlen ←
        (if is_zero then Some (HLL_SPARSE_ZERO_LEN b)
         else if is_xzero then b1 ← bget m (p + 1); Some (HLL_SPARSE_XZERO_LEN b b1)
         else Some (HLL_SPARSE_VAL_LEN b));
      if is_val && (HLL_SPARSE_VAL_VALUE b >=? count) then Some (s, 0)
      else if (is_val && (runlen =? 1)) || (is_zero && (runlen =? 1)) then
        m ← bwrite m p (HLL_SPARSE_VAL_SET count 1);
        updated m prev end_
      else
        let last := s32 (first + span - 1) in
        let seq := if is_val then split_val first last index count (HLL_SPARSE_VAL_VALUE b) else split_zeros first last index count in
        let seqlen := zlen seq in
        let oldlen := if is_xzero then 2 else 1 in
        let deltalen := seqlen - oldlen in
        if (deltalen >? 0) && (u64 (end_ + deltalen) >? hll_sparse_max_bytes) then promote s ele
        else
          m ← (if negb (deltalen =? 0) && has_next then bmove m (next + deltalen) next (end_ - next) else Some m);
          '(m, end_) ← sdsIncrLen m end_ deltalen;
          m ← bwrite m p seq;
          updated m prev end_.

Definition hllAdd (s ele : list Z) : option (list Z * Z) :=
  encoding ← bget s hdr_encoding;
  if encoding =? HLL_DENSE then
    '(m, changed) ← hllDenseAdd (s ++ [0]) HLL_HDR_SIZE ele;
    Some (take (length s) m, if (changed : bool) then 1 else 0)
  else if encoding =? HLL_SPARSE then hllSparseAdd s ele
  else Some (s, -1).

End Add.

(** ** Merging registers into an array of bytes *)

Definition max_at (max : list Z) (i val : Z) : option (list Z) :=
  old ← bget max i; if val >? old then bset max i val else Some max.

Fixpoint merge_dense (n : nat) (max m : list Z) (i : Z) : option (list Z) :=
  match n with
  | O => Some max
  | S n =>
      val ← HLL_DENSE_GET_REGISTER m HLL_HDR_SIZE i;
      max ← max_at max i val;
      merge_dense n max m (i + 1)
  end.

Fixpoint max_run (runlen : nat) (max : list Z) (i regval : Z) : option (list Z) :=
  match runlen with
  | O => Some max
  | S runlen => max ← max_at max i regval; max_run runlen max (i + 1) regval
  end.

Fixpoint merge_sparse (fuel : nat) (max m : list Z) (p end_ i : Z) : option (list Z * Z) :=
  match fuel with
  | O => None
  | S fuel =>
      if p <? end_ then
        b ← bget m p;
        if HLL_SPARSE_IS_ZERO b then merge_sparse fuel max m (p + 1) end_ (s32 (i + HLL_SPARSE_ZERO_LEN b))
        else if HLL_SPARSE_IS_XZERO b then
          b1 ← bget m (p + 1);
          merge_sparse fuel max m (p + 2) end_ (s32 (i + HLL_SPARSE_XZERO_LEN b b1))
        else
          let runlen := HLL_SPARSE_VAL_LEN b in
          max ← max_run (Z.to_nat runlen) max i (HLL_SPARSE_VAL_VALUE b);
          merge_sparse fuel max m (p + 1) end_ (s32 (i + runlen))
      else Some (max, i)
  end.

(** The array and whether the result is [VR_OK]. *)
Definition hllMerge (max s : list Z) : option (list Z * bool) :=
  encoding ← bget s hdr_encoding;
  if encoding =? HLL_DENSE then max ← merge_dense (Z.to_nat HLL_REGISTERS) max (s ++ [0]) 0; Some (max, true)
  else
    '(max, i) ← merge_sparse (S (length s)) max (s ++ [0]) HLL_HDR_SIZE (zlen s) 0;
    Some (max, i =? HLL_REGISTERS).

(** ** New objects *)

Fixpoint create_loop (fuel : nat) (m : list Z) (p aux : Z) : option (list Z * Z) :=
  match fuel with
  | O => None
  | S fuel =>
      if aux =? 0 then Some (m, p)
      else
        let xzero := if HLL_SPARSE_XZERO_MAX_LEN >? aux then aux else HLL_SPARSE_XZERO_MAX_LEN in
        m ← bwrite m p (HLL_SPARSE_XZERO_SET xzero);
        create_loop fuel m (p + 2) (aux - xzero)
  end.

Definition createHLLObject : option (list Z) :=
  let sparselen := HLL_HDR_SIZE + (HLL_REGISTERS + (HLL_SPARSE_XZERO_MAX_LEN - 1)) / HLL_SPARSE_XZERO_MAX_LEN * 2 in
  '(s, p) ← create_loop 3 (replicate (Z.to_nat sparselen) 0) HLL_HDR_SIZE HLL_REGISTERS;
  if negb (p =? sparselen) then None
  else
    s ← bwrite s hdr_magic [72; 89; 76; 76];
    bset s hdr_encoding HLL_SPARSE.

End Hll.
