(* ===== verification/HllDense.v ===== *)
(** * HyperLogLog: the dense registers

    The memory as a sequence of bits: a register is six bits of it, setting a
    register changes these bits and no others. *)

From S2P Require Import Prelude Bytes Bits Hll.
Import Hll.

Module HllDense.

(** ** Memory as bits *)

Definition mbit (m : list Z) (n : Z) : bool := match bget m (n / 8) with Some b => Z.testbit b (n mod 8) | None => false end.

Lemma byte_at m i : 0 <= i < zlen m -> exists b, bget m i = Some b.
Proof. intros. unfold bget. zguard. apply lookup_lt_is_Some. lia. Qed.

Lemma bget_nat m k : bget m (Z.of_nat k) = m !! k.
Proof. unfold bget. zguard. by rewrite Nat2Z.id. Qed.

Lemma bget_ok m i b : bytes_ok m -> bget m i = Some b -> 0 <= b < 256.
Proof. unfold bget, bytes_ok. intros Hm Hb. case_match; [|done]. by eapply Forall_lookup_1 in Hm. Qed.

Lemma bset_insert m i v : 0 <= i < zlen m -> bset m i v = Some (<[Z.to_nat i := u8 v]> m).
Proof. intros. unfold bset. by do 2 zguard. Qed.

Lemma bget_insert m i j v : 0 <= i < zlen m -> bget (<[Z.to_nat i := v]> m) j = if j =? i then Some v else bget m j.
Proof.
  intros. unfold bget. destruct (Z.leb_spec 0 j).
  - destruct (Z.eqb_spec j i) as [->|]; [rewrite list_lookup_insert_eq by lia | rewrite list_lookup_insert_ne by lia]; done.
  - destruct (Z.eqb_spec j i); [lia | done].
Qed.

Lemma testbit_u8 v j : 0 <= j < 8 -> Z.testbit (u8 v) j = Z.testbit v j.
Proof. intros. unfold uwrap. rewrite Z.mod_pow2_bits_low; [done | lia]. Qed.

Lemma testbit_high v k j : 0 <= v < 2 ^ k -> k <= j -> Z.testbit v j = false.
Proof.
  intros Hv Hj. destruct (Z.leb_spec 0 k); [| rewrite Z.pow_neg_r in Hv; lia].
  rewrite <- (Z.mod_small v (2 ^ k)) by done. by apply Z.mod_pow2_bits_high.
Qed.

Lemma testbit_mask j : Z.testbit HLL_REGISTER_MAX j = (0 <=? j) && (j <? 6).
Proof. change HLL_REGISTER_MAX with (Z.ones 6). destruct (Z.leb_spec 0 j); [rewrite Z.testbit_ones_nonneg by lia; done | by rewrite Z.testbit_neg_r]. Qed.

Lemma low_bits a b k : 0 <= a < 2 ^ k -> 0 <= b < 2 ^ k -> (forall j, 0 <= j < k -> Z.testbit a j = Z.testbit b j) -> a = b.
Proof.
  intros Ha Hb H. apply Z.bits_inj'. intros j Hj. destruct (Z.ltb_spec j k); [by apply H |]. by rewrite !(testbit_high _ k) by lia.
Qed.

(** Bytes with the same bits are equal. *)
Lemma bget_bits m m' i : bytes_ok m -> bytes_ok m' -> length m = length m' -> 0 <= i ->
  (forall n, 8 * i <= n < 8 * i + 8 -> mbit m n = mbit m' n) -> bget m i = bget m' i.
Proof.
  intros Hm Hm' Hl Hi H. destruct (Z.ltb_spec i (zlen m)).
  - destruct (byte_at m i) as [b Hb]; [lia |]. destruct (byte_at m' i) as [b' Hb']; [lia |]. rewrite Hb, Hb'. f_equal.
    apply (low_bits _ _ 8); [exact (bget_ok m i b Hm Hb) | exact (bget_ok m' i b' Hm' Hb') |]. intros j Hj. specialize (H (8 * i + j) ltac:(lia)). unfold mbit in H.
    replace ((8 * i + j) / 8) with i in H by (Z.div_mod_to_equations; lia). replace ((8 * i + j) mod 8) with j in H by (Z.div_mod_to_equations; lia).
    by rewrite Hb, Hb' in H.
  - unfold bget. zguard. rewrite !lookup_ge_None_2 by lia. done.
Qed.

(** ** Registers *)

Lemma field_place p i : 0 <= p -> 0 <= i -> p + i * HLL_BITS / 8 = (8 * p + 6 * i) / 8 /\ Z.land (i * HLL_BITS) 7 = (8 * p + 6 * i) mod 8.
Proof.
  intros. change 7 with (2 ^ 3 - 1). rewrite land_mask by lia. unfold HLL_BITS. split; Z.div_mod_to_equations; lia.
Qed.

Lemma reg_get_spec m p i : bytes_ok m -> 0 <= p -> 0 <= i -> (8 * p + 6 * i) / 8 + 1 < zlen m ->
  exists v, HLL_DENSE_GET_REGISTER m p i = Some v /\ 0 <= v < 64 /\ forall j, 0 <= j < 6 -> Z.testbit v j = mbit m (8 * p + 6 * i + j).
Proof.
  intros Hm Hp Hi Hl. unfold HLL_DENSE_GET_REGISTER. destruct (field_place p i Hp Hi) as [-> ->]. set (A := 8 * p + 6 * i) in *.
  assert (0 <= A) by lia. clearbody A. clear Hp Hi p i. pose proof (Z.mod_pos_bound A 8 ltac:(lia)). pose proof (Z.div_mod A 8 ltac:(lia)) as HA.
  destruct (byte_at m (A / 8)) as [b0 Hb0]; [lia |]. destruct (byte_at m (A / 8 + 1)) as [b1 Hb1]; [lia |]. rewrite Hb0, Hb1. cbn [mbind option_bind].
  eexists. split; [done |]. split.
  { change HLL_REGISTER_MAX with (2 ^ 6 - 1). rewrite land_mask by lia. apply Z.mod_pos_bound. lia. }
  intros j Hj. rewrite Z.land_spec, Z.lor_spec, Z.shiftr_spec, Z.shiftl_spec, testbit_mask by lia. do 2 zguard. rewrite andb_true_r. unfold mbit.
  destruct (Z.ltb_spec (A mod 8 + j) 8).
  - replace ((A + j) / 8) with (A / 8) by (Z.div_mod_to_equations; lia). replace ((A + j) mod 8) with (A mod 8 + j) by (Z.div_mod_to_equations; lia).
    rewrite Hb0, (Z.testbit_neg_r _ (j - _)), orb_false_r by lia. f_equal. lia.
  - replace ((A + j) / 8) with (A / 8 + 1) by (Z.div_mod_to_equations; lia). replace ((A + j) mod 8) with (j - (8 - A mod 8)) by (Z.div_mod_to_equations; lia).
    rewrite Hb1, (testbit_high b0 8) by (exact (bget_ok m _ _ Hm Hb0) || lia). done.
Qed.

Lemma reg_set_spec m p i v : bytes_ok m -> 0 <= p -> 0 <= i -> (8 * p + 6 * i) / 8 + 1 < zlen m -> 0 <= v < 64 ->
  exists m', HLL_DENSE_SET_REGISTER m p i v = Some m' /\ bytes_ok m' /\ length m' = length m /\
    forall n, 0 <= n -> mbit m' n = if (8 * p + 6 * i <=? n) && (n <? 8 * p + 6 * i + 6) then Z.testbit v (n - (8 * p + 6 * i)) else mbit m n.
Proof.
  intros Hm Hp Hi Hl Hv. unfold HLL_DENSE_SET_REGISTER. destruct (field_place p i Hp Hi) as [-> ->]. set (A := 8 * p + 6 * i) in *.
  assert (0 <= A) by lia. clearbody A. clear Hp Hi p i. pose proof (Z.mod_pos_bound A 8 ltac:(lia)). pose proof (Z.div_mod A 8 ltac:(lia)) as HA.
  destruct (byte_at m (A / 8)) as [b0 Hb0]; [lia |]. destruct (byte_at m (A / 8 + 1)) as [b1 Hb1]; [lia |].
  rewrite Hb0. cbn [mbind option_bind]. rewrite bset_insert by lia. cbn [mbind option_bind]. rewrite bget_insert, Z.eqb_refl by lia. cbn [mbind option_bind].
  rewrite bset_insert by (rewrite length_insert; lia). cbn [mbind option_bind]. rewrite list_insert_insert_eq, bget_insert by lia. zguard. rewrite Hb1. cbn [mbind option_bind].
  rewrite bset_insert by (rewrite length_insert; lia). cbn [mbind option_bind]. rewrite bget_insert, Z.eqb_refl by (rewrite length_insert; lia). cbn [mbind option_bind].
  rewrite bset_insert by (rewrite !length_insert; lia). rewrite list_insert_insert_eq. eexists. split; [done |]. split; [|split].
  { apply Forall_insert; [apply Forall_insert; [done |] |]; apply u8_range. }
  { by rewrite !length_insert. }
  intros n Hn. unfold mbit. pose proof (Z.mod_pos_bound n 8 ltac:(lia)). rewrite !bget_insert by (rewrite ?length_insert; lia). destruct (Z.eqb_spec (n / 8) (A / 8 + 1)) as [E|E]; [|destruct (Z.eqb_spec (n / 8) (A / 8)) as [E'|E']].
  - rewrite E, Hb1, testbit_u8, Z.lor_spec, testbit_u8, Z.land_spec, Z.lnot_spec, !Z.shiftr_spec, testbit_mask by lia.
    replace (n mod 8 + (8 - A mod 8)) with (n - A) by (Z.div_mod_to_equations; lia). replace (A <=? n) with true by (symmetry; apply Z.leb_le; Z.div_mod_to_equations; lia).
    replace (0 <=? n - A) with true by (symmetry; apply Z.leb_le; Z.div_mod_to_equations; lia). replace (n - A <? 6) with (n <? A + 6) by (destruct (Z.ltb_spec (n - A) 6), (Z.ltb_spec n (A + 6)); lia).
    cbn [andb]. destruct (Z.ltb_spec n (A + 6)); cbn [negb]; [by rewrite andb_false_r |]. rewrite (testbit_high v 6) by lia. by rewrite andb_true_r, orb_false_r.
  - rewrite E', Hb0, testbit_u8, Z.lor_spec, testbit_u8, Z.land_spec, Z.lnot_spec, !Z.shiftl_spec, testbit_mask by lia.
    replace (n mod 8 - A mod 8) with (n - A) by (Z.div_mod_to_equations; lia). replace (n - A <? 6) with (n <? A + 6) by (destruct (Z.ltb_spec (n - A) 6), (Z.ltb_spec n (A + 6)); lia).
    replace (0 <=? n - A) with (A <=? n) by (destruct (Z.leb_spec 0 (n - A)), (Z.leb_spec A n); lia).
    destruct (Z.leb_spec A n), (Z.ltb_spec n (A + 6)); cbn [andb negb]; try by rewrite andb_false_r. { rewrite (testbit_high v 6) by lia. by rewrite andb_true_r, orb_false_r. }
    all: rewrite (Z.testbit_neg_r v) by lia; by rewrite andb_true_r, orb_false_r.
  - destruct ((A <=? n) && (n <? A + 6)) eqn:Hin; [|done]. zbool. exfalso. Z.div_mod_to_equations. lia.
Qed.

(** ** A dense string and its registers *)

Record dense (s regs : list Z) : Prop := {
  de_ok : bytes_ok s;
  de_size : zlen s = HLL_DENSE_SIZE;
  de_len : zlen regs = HLL_REGISTERS;
  de_range : Forall (fun v => 0 <= v < 64) regs;
  de_get i v : regs !! i = Some v -> HLL_DENSE_GET_REGISTER (s ++ [0]) HLL_HDR_SIZE (Z.of_nat i) = Some v
}.

Lemma get_of_bits m p i v : bytes_ok m -> 0 <= p -> 0 <= i -> (8 * p + 6 * i) / 8 + 1 < zlen m -> 0 <= v < 64 ->
  (forall j, 0 <= j < 6 -> mbit m (8 * p + 6 * i + j) = Z.testbit v j) -> HLL_DENSE_GET_REGISTER m p i = Some v.
Proof.
  intros Hm Hp Hi Hl Hv H. destruct (reg_get_spec m p i Hm Hp Hi Hl) as (w & -> & Hw & Hb). f_equal. apply (low_bits _ _ 6); [done | done |].
  intros j Hj. by rewrite Hb, H.
Qed.

Lemma mem_ok s : bytes_ok s -> bytes_ok (s ++ [0]).
Proof. intros. apply Forall_app. split; [done |]. repeat constructor; lia. Qed.

(** The registers are in the string and its terminator. *)
Lemma reg_place s i : zlen s = HLL_DENSE_SIZE -> 0 <= i < HLL_REGISTERS -> (8 * HLL_HDR_SIZE + 6 * i) / 8 + 1 < zlen (s ++ [0]).
Proof.
  rewrite length_app. change HLL_DENSE_SIZE with 12304. change HLL_REGISTERS with 16384. change HLL_HDR_SIZE with 16. simpl length. intros.
  Z.div_mod_to_equations. lia.
Qed.

(** A block that ends with the terminator and starts with the header, whose
    other bytes have changed. *)
Lemma same_ends s m : bytes_ok s -> bytes_ok m -> zlen s = HLL_DENSE_SIZE -> length m = length (s ++ [0]) ->
  (forall n, 0 <= n -> n < 8 * HLL_HDR_SIZE \/ 8 * HLL_DENSE_SIZE <= n -> mbit m n = mbit (s ++ [0]) n) ->
  exists s', m = s' ++ [0] /\ zlen s' = HLL_DENSE_SIZE /\ bytes_ok s' /\ take 16 s' = take 16 s.
Proof.
  intros Hs Hm Hl Hlm H. rewrite length_app in Hlm. simpl length in Hlm. exists (take (length s) m). pose proof (mem_ok s Hs) as Hs0.
  change HLL_HDR_SIZE with 16 in H. change HLL_DENSE_SIZE with 12304 in *.
  assert (Hb : forall i, 0 <= i < 16 \/ i = 12304 -> bget m i = bget (s ++ [0]) i).
  { intros i Hi. apply bget_bits; [done | done | len | lia |]. intros n Hn. apply H; lia. }
  assert (Hz : m !! length s = Some 0).
  { pose proof (Hb 12304 ltac:(lia)) as E. rewrite <- Hl, bget_mid in E by done. by rewrite bget_nat in E. }
  split; [|split; [|split]].
  - rewrite (lookup_split m _ _ Hz) at 1. rewrite (drop_ge m) by lia. done.
  - rewrite length_take. lia.
  - by apply Forall_take.
  - rewrite take_take, Nat.min_l by lia. apply list_eq. intros k. destruct (decide (k < 16)%nat).
    + rewrite !lookup_take_lt by lia. pose proof (Hb (Z.of_nat k) ltac:(lia)) as E. rewrite bget_app_l in E by lia. by rewrite !bget_nat in E.
    + by rewrite !lookup_take_ge by lia.
Qed.

Lemma dense_set s regs i v : dense s regs -> 0 <= i < HLL_REGISTERS -> 0 <= v < 64 ->
  exists s', HLL_DENSE_SET_REGISTER (s ++ [0]) HLL_HDR_SIZE i v = Some (s' ++ [0]) /\ dense s' (<[Z.to_nat i := v]> regs) /\ take 16 s' = take 16 s.
Proof.
  intros [Hs Hl Hr Hv Hg] Hi Hvr. pose proof (reg_place s i Hl Hi) as Hp. assert (HH : HLL_HDR_SIZE = 16) by done.
  destruct (reg_set_spec (s ++ [0]) HLL_HDR_SIZE i v) as (m & Hset & Hm & Hlm & Hbits); [by apply mem_ok | done | lia | done | done |].
  destruct (same_ends s m Hs Hm Hl Hlm) as (s' & -> & Hl' & Hs' & Ht).
  { intros n Hn Hc. rewrite Hbits by done. case_match; [|done]. zbool. change HLL_DENSE_SIZE with 12304 in *. change HLL_REGISTERS with 16384 in *. change HLL_HDR_SIZE with 16 in *. lia. }
  exists s'. split; [done |]. split; [|done]. split; [done | done | by rewrite length_insert | by apply Forall_insert |].
  intros j w Hj. assert (Hjr : 0 <= Z.of_nat j < HLL_REGISTERS). { apply lookup_lt_Some in Hj. rewrite length_insert in Hj. lia. }
  pose proof (reg_place s' _ Hl' Hjr) as Hp'. destruct (decide (j = Z.to_nat i)) as [->|Hne].
  - rewrite list_lookup_insert_eq in Hj by lia. injection Hj as <-. rewrite Z2Nat.id in * by lia. apply get_of_bits; [done | done | lia | done | done |].
    intros k Hk. rewrite Hbits by lia. do 2 zguard. cbn [andb]. f_equal. lia.
  - rewrite list_lookup_insert_ne in Hj by done. pose proof (reg_place s _ Hl Hjr) as Hp''.
    destruct (reg_get_spec (s ++ [0]) HLL_HDR_SIZE (Z.of_nat j)) as (u & Hu & Hur & Hub); [by apply mem_ok | done | lia | done |].
    rewrite (Hg j w Hj) in Hu. injection Hu as <-. apply get_of_bits; [done | done | lia | done | done |].
    intros k Hk. rewrite Hub, Hbits by lia. case_match; [|done]. zbool. exfalso. apply Hne. lia.
Qed.

End HllDense.
