(* ===== verification/HllSparse.v ===== *)
(** * HyperLogLog: the opcodes of the sparse encoding

    A sparse string is a header and a sequence of opcodes that expands to the
    registers; searching, splitting, merging and the conversion to the dense
    encoding keep that sequence well formed. *)

From S2P Require Import Prelude Bytes Bits Hll HllDense.
Import Hll HllDense.

Module HllSparse.

(** ** Opcodes *)

Inductive op := Zero (n : Z) | XZero (n : Z) | Val (v n : Z).

Definition op_ok (o : op) : Prop :=
  match o with
  | Zero n => 1 <= n <= HLL_SPARSE_ZERO_MAX_LEN
  | XZero n => 1 <= n <= HLL_SPARSE_XZERO_MAX_LEN
  | Val v n => 1 <= v <= HLL_SPARSE_VAL_MAX_VALUE /\ 1 <= n <= HLL_SPARSE_VAL_MAX_LEN
  end.

Definition enc (o : op) : list Z :=
  match o with Zero n => HLL_SPARSE_ZERO_SET n | XZero n => HLL_SPARSE_XZERO_SET n | Val v n => HLL_SPARSE_VAL_SET v n end.

Definition runs (o : op) : list Z :=
  match o with Zero n | XZero n => replicate (Z.to_nat n) 0 | Val v n => replicate (Z.to_nat n) v end.

Definition encs (os : list op) : list Z := concat (enc <$> os).
Definition expand (os : list op) : list Z := concat (runs <$> os).

(** What the macros see at the first byte of an opcode. *)
Definition seen (o : op) : Prop :=
  match o with
  | Zero n => exists b, enc o = [b] /\ HLL_SPARSE_IS_ZERO b = true /\ HLL_SPARSE_IS_XZERO b = false /\ HLL_SPARSE_IS_VAL b = false /\ HLL_SPARSE_ZERO_LEN b = n
  | XZero n => exists b b1, enc o = [b; b1] /\ HLL_SPARSE_IS_ZERO b = false /\ HLL_SPARSE_IS_XZERO b = true /\ HLL_SPARSE_IS_VAL b = false /\ HLL_SPARSE_XZERO_LEN b b1 = n
  | Val v n => exists b, enc o = [b] /\ HLL_SPARSE_IS_ZERO b = false /\ HLL_SPARSE_IS_XZERO b = false /\ HLL_SPARSE_IS_VAL b = true /\ HLL_SPARSE_VAL_VALUE b = v /\ HLL_SPARSE_VAL_LEN b = n
  end.

Lemma range_cases (P : Z -> Prop) n k b : Forall P (seqZ n k) -> n <= b < n + k -> P b.
Proof. rewrite Forall_forall. intros HP Hb. apply HP, elem_of_seqZ. lia. Qed.

Lemma seen_zero n : op_ok (Zero n) -> seen (Zero n).
Proof.
  unfold op_ok. change HLL_SPARSE_ZERO_MAX_LEN with 64. intros Hn. exists (u8 (n - 1)). split; [done |].
  apply (range_cases (fun n => HLL_SPARSE_IS_ZERO (u8 (n - 1)) = true /\ HLL_SPARSE_IS_XZERO (u8 (n - 1)) = false /\ HLL_SPARSE_IS_VAL (u8 (n - 1)) = false /\ HLL_SPARSE_ZERO_LEN (u8 (n - 1)) = n) 1 64); [|lia].
  repeat constructor.
Qed.

Lemma seen_val v n : op_ok (Val v n) -> seen (Val v n).
Proof.
  unfold op_ok. change HLL_SPARSE_VAL_MAX_VALUE with 32. change HLL_SPARSE_VAL_MAX_LEN with 4. intros [Hv Hn]. eexists. split; [done |].
  pose (P v n := let b := u8 (Z.lor (Z.lor (Z.shiftl (v - 1) 2) (n - 1)) HLL_SPARSE_VAL_BIT) in
    HLL_SPARSE_IS_ZERO b = false /\ HLL_SPARSE_IS_XZERO b = false /\ HLL_SPARSE_IS_VAL b = true /\ HLL_SPARSE_VAL_VALUE b = v /\ HLL_SPARSE_VAL_LEN b = n).
  assert (H : Forall (fun v => Forall (P v) (seqZ 1 4)) (seqZ 1 32)) by by repeat constructor.
  apply (range_cases _ 1 4 n (range_cases _ 1 32 v H ltac:(lia))). lia.
Qed.

Lemma seen_xzero n : op_ok (XZero n) -> seen (XZero n).
Proof.
  unfold op_ok. change HLL_SPARSE_XZERO_MAX_LEN with 16384. intros Hn. eexists _, _. split; [done |].
  set (l := n - 1). assert (Hl : 0 <= l < 16384) by lia. rewrite Z.shiftr_div_pow2 by lia. change (2 ^ 8) with 256. change 0xff with (2 ^ 8 - 1). rewrite land_mask by lia.
  assert (Hh : 0 <= l / 256 < 0 + 64) by (Z.div_mod_to_equations; lia). assert (Hlo : 0 <= l mod 2 ^ 8 < 256) by (apply Z.mod_pos_bound; lia).
  rewrite (uwrap_small 8 (l mod 2 ^ 8)) by lia. unfold HLL_SPARSE_XZERO_LEN.
  pose (P h := HLL_SPARSE_IS_ZERO (u8 (Z.lor h HLL_SPARSE_XZERO_BIT)) = false /\ HLL_SPARSE_IS_XZERO (u8 (Z.lor h HLL_SPARSE_XZERO_BIT)) = true /\ HLL_SPARSE_IS_VAL (u8 (Z.lor h HLL_SPARSE_XZERO_BIT)) = false /\ Z.land (u8 (Z.lor h HLL_SPARSE_XZERO_BIT)) 0x3f = h).
  assert (HP : Forall P (seqZ 0 64)) by by repeat constructor. destruct (range_cases P 0 64 _ HP Hh) as (-> & -> & -> & ->). repeat (split; [done |]). rewrite Z.shiftl_mul_pow2, lor_mod_small by lia. change (2 ^ 8) with 256. subst l. Z.div_mod_to_equations. lia.
Qed.

Lemma op_seen o : op_ok o -> seen o.
Proof. destruct o; [apply seen_zero | apply seen_xzero | apply seen_val]. Qed.

(** ** Sequences of opcodes *)

Lemma encs_cons o os : encs (o :: os) = enc o ++ encs os.
Proof. done. Qed.

Lemma encs_app os os' : encs (os ++ os') = encs os ++ encs os'.
Proof. unfold encs. by rewrite fmap_app, concat_app. Qed.

Lemma expand_cons o os : expand (o :: os) = runs o ++ expand os.
Proof. done. Qed.

Lemma expand_app os os' : expand (os ++ os') = expand os ++ expand os'.
Proof. unfold expand. by rewrite fmap_app, concat_app. Qed.

Lemma enc_length o : op_ok o -> (0 < length (enc o))%nat.
Proof. by destruct o; cbn; lia. Qed.

Lemma length_encs os : Forall op_ok os -> (length os <= length (encs os))%nat.
Proof. induction 1 as [|o os Ho _ IH]; [cbn; lia |]. rewrite encs_cons. pose proof (enc_length o Ho). len. Qed.

Lemma enc_ok o : bytes_ok (enc o).
Proof. destruct o; repeat constructor; apply u8_range. Qed.

Lemma encs_ok os : bytes_ok (encs os).
Proof. induction os; [constructor |]. rewrite encs_cons. apply Forall_app. split; [apply enc_ok | done]. Qed.

Lemma runs_range o : op_ok o -> Forall (fun v => 0 <= v <= 32) (runs o).
Proof. destruct o; intros Ho; apply Forall_replicate; [lia | lia |]. unfold op_ok in Ho. change HLL_SPARSE_VAL_MAX_VALUE with 32 in Ho. lia. Qed.

Lemma expand_range os : Forall op_ok os -> Forall (fun v => 0 <= v <= 32) (expand os).
Proof. induction 1; [constructor |]. rewrite expand_cons. apply Forall_app. split; [by apply runs_range | done]. Qed.

Lemma runs_width o : op_ok o -> 1 <= zlen (runs o).
Proof. destruct o; unfold op_ok; intros; cbn; rewrite length_replicate; lia. Qed.

(** ** Searching *)

(** The opcode before the ones after [pre], which start at [base]. *)
Definition prev_of (base : Z) (pre : list op) (prev prev' : option Z) : Prop :=
  (pre = [] /\ prev' = prev) \/ exists pre1 o1, pre = pre1 ++ [o1] /\ prev' = Some (base + zlen (encs pre1)).

Lemma find_ok os : forall fuel x y first prev span index, Forall op_ok os -> (length os < fuel)%nat -> first <= index < first + zlen (expand os) ->
  exists pre o post prev', os = pre ++ o :: post /\
    locate_loop fuel (x ++ encs os ++ y) (zlen x) (zlen x + zlen (encs os)) first prev span index =
      Some (zlen x + zlen (encs pre), prev', first + zlen (expand pre), zlen (runs o)) /\
    first + zlen (expand pre) <= index < first + zlen (expand pre) + zlen (runs o) /\ prev_of (zlen x) pre prev prev'.
Proof.
  induction os as [|o os IH]; intros fuel x y first prev span index Hok Hf Hi; [cbn in Hi; lia |].
  destruct fuel as [|fuel]; [cbn in Hf; lia |]. apply Forall_cons in Hok as [Ho Hok]. pose proof (enc_length o Ho) as Hel.
  assert (Hstep : locate_loop (S fuel) (x ++ encs (o :: os) ++ y) (zlen x) (zlen x + zlen (encs (o :: os))) first prev span index =
    if index <=? first + zlen (runs o) - 1 then Some (zlen x, prev, first, zlen (runs o))
    else locate_loop fuel ((x ++ enc o) ++ encs os ++ y) (zlen (x ++ enc o)) (zlen (x ++ enc o) + zlen (encs os)) (first + zlen (runs o)) (Some (zlen x)) (zlen (runs o)) index).
  { replace ((x ++ enc o) ++ encs os ++ y) with (x ++ encs (o :: os) ++ y) by (rewrite encs_cons, <- !app_assoc; done).
    replace (zlen (x ++ enc o) + zlen (encs os)) with (zlen x + zlen (encs (o :: os))) by (rewrite encs_cons, !length_app; lia).
    cbn [locate_loop]. replace (zlen x <? zlen x + zlen (encs (o :: os))) with true by (symmetry; apply Z.ltb_lt; rewrite encs_cons, length_app; lia).
    rewrite length_app, Nat2Z.inj_add. pose proof (op_seen o Ho) as Hs. destruct o as [n|n|v n]; cbn [seen] in Hs; unfold op_ok in Ho.
    - destruct Hs as (b & He & E1 & E2 & E3 & E4). rewrite encs_cons, He. cbn [app]. rewrite (bget_mid x b _ (zlen x)) by done. cbn [mbind option_bind]. rewrite E1, E4. cbn [mbind option_bind runs]. rewrite length_replicate, Z2Nat.id by lia. done.
    - destruct Hs as (b & b1 & He & E1 & E2 & E3 & E4). rewrite encs_cons, He. cbn [app]. rewrite (bget_mid x b _ (zlen x)) by done. cbn [mbind option_bind]. rewrite E1, E3.
      replace (x ++ b :: b1 :: encs os ++ y) with ((x ++ [b]) ++ b1 :: encs os ++ y) by (rewrite <- app_assoc; done). rewrite bget_mid by len. cbn [mbind option_bind]. rewrite E4. cbn [mbind option_bind runs]. rewrite length_replicate, Z2Nat.id by lia. done.
    - destruct Hs as (b & He & E1 & E2 & E3 & E4 & E5). rewrite encs_cons, He. cbn [app]. rewrite (bget_mid x b _ (zlen x)) by done. cbn [mbind option_bind]. rewrite E1, E3, E5. cbn [mbind option_bind runs]. rewrite length_replicate, Z2Nat.id by lia. done. }
  rewrite Hstep. clear Hstep. rewrite expand_cons, length_app in Hi. destruct (Z.leb_spec index (first + zlen (runs o) - 1)).
  - exists [], o, os, prev. split; [done |]. cbn [encs expand]. split; [|split; [|by left]]. { do 4 f_equal; cbn; lia. } cbn. lia.
  - destruct (IH fuel (x ++ enc o) y (first + zlen (runs o)) (Some (zlen x)) (zlen (runs o)) index Hok) as (pre & o' & post & prev' & -> & -> & Hr & Hp); [cbn in Hf; lia | lia |].
    exists (o :: pre), o', post, prev'. split; [done |]. rewrite encs_cons, expand_cons, !length_app. split; [repeat (apply (f_equal Some) || apply (f_equal2 pair) || lia || done) |]. split; [lia |]. right.
    destruct Hp as [[-> ->]|(pre1 & o1 & -> & ->)]; [exists [], o | exists (o :: pre1), o1]; split; try done; [cbn; f_equal; lia |]. rewrite encs_cons, !length_app. f_equal. lia.
Qed.

(** ** Changing the length of the string *)

Lemma incr_ok a c y len incr : len + incr = zlen a -> 0 <= len -> (0 <= incr -> incr <= zlen (a ++ c :: y) - 1 - len) ->
  sdsIncrLen (a ++ c :: y) len incr = Some (a ++ 0 :: y, zlen a).
Proof.
  intros Ha Hl Hi. unfold sdsIncrLen.
  replace (_ || _) with true. 2: { symmetry. apply orb_true_iff. rewrite !andb_true_iff, !Z.leb_le, Z.ltb_lt. destruct (Z.leb_spec 0 incr); [left | right]; lia. }
  rewrite Ha, bset_mid by done. done.
Qed.

(** ** Merging *)

Lemma merge_two v k k2 x rest y0 y : op_ok (Val v k) -> op_ok (Val v k2) -> k + k2 <= 4 -> 
  exists y', (m ← bwrite (x ++ encs (Val v k :: Val v k2 :: rest) ++ y0 :: y) (zlen x + 1) (HLL_SPARSE_VAL_SET v (k + k2));
    m ← bmove m (zlen x) (zlen x + 1) (2 + zlen (encs rest));
    sdsIncrLen m (zlen x + zlen (encs (Val v k :: Val v k2 :: rest))) (-1)) =
  Some (x ++ encs (Val v (k + k2) :: rest) ++ 0 :: y', zlen x + zlen (encs (Val v (k + k2) :: rest))).
Proof.
  intros H1 H2 Hk. destruct (op_seen _ H1) as (b & He & _). destruct (op_seen _ H2) as (b2 & He2 & _). rewrite !encs_cons, He, He2. cbn [app].
  change (enc (Val v (k + k2))) with (HLL_SPARSE_VAL_SET v (k + k2)). assert (HV : exists nb, HLL_SPARSE_VAL_SET v (k + k2) = [nb]) by by eexists. destruct HV as [nb ->].
  replace (x ++ b :: b2 :: encs rest ++ y0 :: y) with ((x ++ [b]) ++ [b2] ++ encs rest ++ y0 :: y) by (rewrite <- app_assoc; done).
  rewrite bwrite_mid by len. cbn [mbind option_bind]. 
  replace ((x ++ [b]) ++ [nb] ++ encs rest ++ y0 :: y) with (x ++ [b] ++ (nb :: encs rest ++ [y0]) ++ y) by (cbn [app]; rewrite <- !app_assoc; done).
  rewrite bmove_left by (cbn [length]; rewrite ?length_app; cbn [length]; lia). cbn [mbind option_bind].
  set (t := drop _ _ ++ y). exists t. replace (x ++ (nb :: encs rest ++ [y0]) ++ t) with ((x ++ nb :: encs rest) ++ y0 :: t) by (cbn [app]; rewrite <- !app_assoc; done).
  rewrite incr_ok by len. f_equal. f_equal; [rewrite <- app_assoc; done | len].
Qed.

Lemma merge_ok n : forall x os y, Forall op_ok os -> y <> [] -> exists os' y',
  merge_loop n (x ++ encs os ++ y) (zlen x) (zlen x + zlen (encs os)) = Some (x ++ encs os' ++ y', zlen x + zlen (encs os')) /\
  Forall op_ok os' /\ expand os' = expand os /\ y' <> [].
Proof.
  induction n as [|n IH]; intros x os y Hok Hy; [by exists os, y |]. destruct os as [|o os].
  { exists [], y. cbn [merge_loop encs]. rewrite (proj2 (Z.ltb_ge _ _)) by (cbn; lia). done. }
  assert (Hskip : exists os' y', merge_loop n (x ++ encs (o :: os) ++ y) (zlen x + zlen (enc o)) (zlen x + zlen (encs (o :: os))) = Some (x ++ encs os' ++ y', zlen x + zlen (encs os')) /\
    Forall op_ok os' /\ expand os' = expand (o :: os) /\ y' <> []).
  { apply Forall_cons in Hok as [Ho Hok]. destruct (IH (x ++ enc o) os y Hok Hy) as (os' & y' & E & Hok' & He & Hy'). exists (o :: os'), y'. split; [|split; [by constructor | split; [by rewrite !expand_cons, He | done]]].
    rewrite length_app, Nat2Z.inj_add, <- !app_assoc in E. rewrite !encs_cons, !length_app, !Nat2Z.inj_add, !Z.add_assoc, <- !app_assoc. done. }
  pose proof Hok as [Ho Hoks]%Forall_cons. pose proof (enc_length o Ho). cbn [merge_loop].
  replace (zlen x <? _) with true by (symmetry; apply Z.ltb_lt; rewrite encs_cons, length_app; lia).
  pose proof (op_seen o Ho) as Hs. destruct o as [k|k|v k]; cbn [seen] in Hs.
  - destruct Hs as (b & He & E1 & E2 & E3 & E4). rewrite He in Hskip. revert Hskip. rewrite encs_cons, He. cbn [app]. rewrite (bget_mid x b _ (zlen x)) by done. cbn [mbind option_bind]. by rewrite E1, E2.
  - destruct Hs as (b & b1 & He & E1 & E2 & E3 & E4). rewrite He in Hskip. revert Hskip. rewrite encs_cons, He. cbn [app]. rewrite (bget_mid x b _ (zlen x)) by done. cbn [mbind option_bind]. by rewrite E2.
  - destruct Hs as (b & He & E1 & E2 & E3 & E4 & E5). rewrite He in Hskip. change (zlen [b]) with 1 in Hskip.
    assert (Hb : bget (x ++ encs (Val v k :: os) ++ y) (zlen x) = Some b) by (rewrite encs_cons, He; by apply bget_mid). rewrite Hb. cbn [mbind option_bind]. rewrite E1, E2.
    destruct (Z.ltb_spec (zlen x + 1) (zlen x + zlen (encs (Val v k :: os)))) as [Hlt|]; [|done].
    destruct os as [|o2 os]. { exfalso. rewrite encs_cons, He in Hlt. cbn in Hlt. lia. }
    pose proof Hoks as [Ho2 Hoks2]%Forall_cons. pose proof (op_seen o2 Ho2) as Hs2.
    assert (Hb2 : exists b2 t, enc o2 = b2 :: t /\ bget (x ++ encs (Val v k :: o2 :: os) ++ y) (zlen x + 1) = Some b2).
    { destruct (enc o2) as [|b2 t] eqn:Ee. { pose proof (enc_length o2 Ho2) as Hl. rewrite Ee in Hl. cbn in Hl. lia. } exists b2, t. split; [done |].
      rewrite !encs_cons, He, Ee. cbn [app]. replace (x ++ b :: b2 :: _) with ((x ++ [b]) ++ b2 :: (t ++ encs os) ++ y) by (rewrite <- !app_assoc; done). apply bget_mid. len. }
    destruct Hb2 as (b2 & t & Ee2 & Hb2). rewrite Hb2. cbn [mbind option_bind]. destruct o2 as [k2|k2|v2 k2]; cbn [seen] in Hs2.
    + destruct Hs2 as (b' & He' & _ & _ & F3 & _). rewrite He' in Ee2. injection Ee2 as <- <-. by rewrite F3.
    + destruct Hs2 as (b' & b1' & He' & _ & _ & F3 & _). rewrite He' in Ee2. injection Ee2 as <- <-. by rewrite F3.
    + destruct Hs2 as (b' & He' & _ & _ & F3 & F4 & F5). rewrite He' in Ee2. injection Ee2 as <- <-. rewrite F3, E4, E5, F4, F5. change HLL_SPARSE_VAL_MAX_LEN with 4.
      destruct (Z.eqb_spec v v2) as [<-|]; [|done]. destruct (Z.leb_spec (k + k2) 4) as [Hk|]; [|done]. cbn [andb].
      destruct y as [|y0 y]; [done |]. destruct (merge_two v k k2 x os y0 y Ho Ho2 Hk) as (y' & E). revert E.
      replace (zlen x + zlen (encs (Val v k :: Val v k2 :: os)) - zlen x) with (2 + zlen (encs os)) by (rewrite !encs_cons, He, He'; len).
      destruct (bwrite _ _ _) as [m1|]; [|done]. cbn [mbind option_bind]. destruct (bmove _ _ _ _) as [m2|]; [|done]. cbn [mbind option_bind]. intros ->. cbn [mbind option_bind].
      destruct (IH x (Val v (k + k2) :: os) (0 :: y')) as (os' & y'' & -> & Hok' & Hex & Hy'); [|done |].
      { constructor; [|done]. unfold op_ok in *. change HLL_SPARSE_VAL_MAX_LEN with 4 in *. lia. }
      exists os', y''. split; [done |]. split; [done |]. split; [|done]. rewrite Hex, !expand_cons. cbn [runs]. unfold op_ok in *. by rewrite app_assoc, <- replicate_add, Z2Nat.inj_add by lia.
Qed.

(** ** Replacing an opcode *)

(** Making room for [b] in place of [a], before [c]: the place of [a] gets the
    length of [b]. *)
Lemma room_ok (x a c y b : list Z) : (0 < length a)%nat -> zlen b - zlen a < zlen y ->
  exists a' z0 z, length a' = length b /\
  (if negb (zlen b - zlen a =? 0) && negb (zlen x + zlen a >=? zlen x + zlen a + zlen c)
   then bmove (x ++ a ++ c ++ y) (zlen x + zlen a + (zlen b - zlen a)) (zlen x + zlen a) (zlen x + zlen a + zlen c - (zlen x + zlen a))
   else Some (x ++ a ++ c ++ y)) = Some (x ++ a' ++ c ++ z0 :: z).
Proof.
  intros Ha Hy. rewrite Z.geb_leb. destruct (Z.leb_spec (zlen a) (zlen b)) as [Hge|Hlt].
  - destruct (take_drop_app y (length b - length a)) as (h & z & -> & Hh); [lia |]. destruct z as [|z0 z]. { exfalso. rewrite app_nil_r in Hy. lia. }
    exists (a ++ take (length h) (c ++ h)), z0, z. split. { rewrite length_app, length_take, length_app. lia. }
    destruct (negb _ && negb _) eqn:E.
    + rewrite (app_assoc x a), bmove_right by (rewrite ?length_app; lia). by rewrite <- !app_assoc.
    + apply andb_false_iff in E as [E%negb_false_iff%Z.eqb_eq|E%negb_false_iff%Z.leb_le].
      * assert (h = []) as -> by (apply nil_length_inv; lia). by rewrite app_nil_r, <- ?app_assoc.
      * assert (c = []) as -> by (apply nil_length_inv; lia). cbn [app]. by rewrite take_ge, <- !app_assoc by lia.
  - destruct (take_drop_app a (length b)) as (a' & h & -> & Hh); [lia |]. rewrite length_app in *.
    assert (Hz : exists z0 z, drop (length c) (h ++ c) ++ y = z0 :: z).
    { destruct (drop (length c) (h ++ c) ++ y) eqn:E; [|by eexists _, _]. apply (f_equal length) in E. rewrite length_app, length_drop, length_app in E. cbn in E. lia. }
    destruct Hz as (z0 & z & Hz). exists a', z0, z. split; [done |]. rewrite <- Hz. destruct (negb _ && negb _) eqn:E.
    + rewrite <- (app_assoc a'), (app_assoc x a'), bmove_left by (rewrite ?length_app; lia). by rewrite <- !app_assoc.
    + apply andb_false_iff in E as [E%negb_false_iff%Z.eqb_eq|E%negb_false_iff%Z.leb_le]; [lia |].
      assert (c = []) as -> by (apply nil_length_inv; lia). cbn [app length drop]. by rewrite app_nil_r, <- ?app_assoc.
Qed.

Lemma splice_ok (x a c y b : list Z) : (0 < length a)%nat -> zlen b - zlen a < zlen y ->
  exists z, (m ← (if negb (zlen b - zlen a =? 0) && negb (zlen x + zlen a >=? zlen x + zlen a + zlen c)
   then bmove (x ++ a ++ c ++ y) (zlen x + zlen a + (zlen b - zlen a)) (zlen x + zlen a) (zlen x + zlen a + zlen c - (zlen x + zlen a))
   else Some (x ++ a ++ c ++ y));
   '(m, end_) ← sdsIncrLen m (zlen x + zlen a + zlen c) (zlen b - zlen a);
   m ← bwrite m (zlen x) b;
   Some (m, end_)) = Some (x ++ b ++ c ++ 0 :: z, zlen x + zlen b + zlen c).
Proof.
  intros Ha Hy. destruct (room_ok x a c y b Ha Hy) as (a' & z0 & z & Hl & E). exists z. rewrite E. cbn [mbind option_bind].
  assert (Hm : 0 <= zlen b - zlen a -> zlen b - zlen a <= zlen (x ++ a' ++ c ++ z0 :: z) - 1 - (zlen x + zlen a + zlen c)) by (intros; rewrite !length_app; cbn [length]; lia).
  replace (x ++ a' ++ c ++ z0 :: z) with ((x ++ a' ++ c) ++ z0 :: z) in * by (rewrite <- !app_assoc; done).
  rewrite incr_ok by (done || (rewrite ?length_app; lia)). cbn [mbind option_bind]. rewrite <- !app_assoc, bwrite_mid by done. cbn [mbind option_bind]. f_equal. f_equal. rewrite !length_app. lia.
Qed.

(** ** To the dense encoding *)

Lemma set_run_ok n : forall s A B C v, dense s (A ++ B ++ C) -> length B = n -> 0 <= v < 64 ->
  exists s', set_run n (s ++ [0]) HLL_HDR_SIZE (zlen A) v = Some (s' ++ [0]) /\ dense s' (A ++ replicate n v ++ C) /\ take 16 s' = take 16 s.
Proof.
  induction n as [|n IH]; intros s A B C v Hd HB Hv.
  - destruct B; [|done]. by exists s.
  - destruct B as [|b B]; [done |]. injection HB as HB. pose proof (de_len _ _ Hd) as Hl. rewrite !length_app in Hl. cbn [length] in Hl.
    destruct (dense_set s _ (zlen A) v Hd) as (s1 & E1 & Hd1 & Ht1); [lia | done |]. cbn [set_run]. rewrite E1. cbn [mbind option_bind].
    rewrite Nat2Z.id, insert_app_r_alt, Nat.sub_diag in Hd1 by lia. cbn [app] in Hd1. replace (A ++ <[0%nat:=v]> (b :: B ++ C)) with ((A ++ [v]) ++ B ++ C) in Hd1 by (rewrite <- app_assoc; done).
    destruct (IH s1 (A ++ [v]) B C v Hd1 HB Hv) as (s' & E & Hd' & Ht). exists s'. rewrite <- zlen_snoc with (b := v). split; [done |]. split; [|congruence].
    by rewrite <- app_assoc in Hd'.
Qed.

Lemma dense_loop_ok os : forall fuel x y s A C, Forall op_ok os -> (length os < fuel)%nat -> dense s (A ++ replicate (length (expand os)) 0 ++ C) ->
  exists s', dense_loop fuel (x ++ encs os ++ y) (zlen x) (zlen x + zlen (encs os)) (s ++ [0]) (zlen A) = Some (s' ++ [0], zlen A + zlen (expand os)) /\
    dense s' (A ++ expand os ++ C) /\ take 16 s' = take 16 s.
Proof.
  induction os as [|o os IH]; intros fuel x y s A C Hok Hf Hd; (destruct fuel as [|fuel]; [cbn in Hf; lia |]).
  { exists s. cbn [dense_loop]. rewrite (proj2 (Z.ltb_ge _ _)) by (cbn; lia). cbn. by rewrite Z.add_0_r. }
  apply Forall_cons in Hok as [Ho Hok]. pose proof (enc_length o Ho) as Hel. pose proof (de_len _ _ Hd) as Hl. change HLL_REGISTERS with 16384 in Hl. rewrite expand_cons, !length_app, length_replicate in Hl.
  rewrite expand_cons, length_app, replicate_add, <- app_assoc in Hd.
  destruct (set_run_ok (length (runs o)) s A (replicate (length (runs o)) 0) (replicate (length (expand os)) 0 ++ C) (default 0 (hd_error (runs o))) Hd) as (s1 & E1 & Hd1 & Ht1); [by rewrite length_replicate | |].
  { pose proof (runs_range o Ho) as Hr. destruct (runs o); [cbn; lia |]. apply Forall_cons in Hr as [Hr _]. cbn. lia. }
  assert (Hrep : replicate (length (runs o)) (default 0 (hd_error (runs o))) = runs o).
  { pose proof (runs_width o Ho) as Hw. destruct o; cbn [runs] in *; rewrite length_replicate in *; destruct (Z.to_nat _) eqn:En; try done; cbn; lia. }
  rewrite Hrep, app_assoc in Hd1.
  assert (Hstep : exists s2, dense_loop (S fuel) (x ++ encs (o :: os) ++ y) (zlen x) (zlen x + zlen (encs (o :: os))) (s ++ [0]) (zlen A) =
    dense_loop fuel ((x ++ enc o) ++ encs os ++ y) (zlen (x ++ enc o)) (zlen (x ++ enc o) + zlen (encs os)) (s2 ++ [0]) (zlen (A ++ runs o)) /\ dense s2 ((A ++ runs o) ++ replicate (length (expand os)) 0 ++ C) /\ take 16 s2 = take 16 s).
  { replace ((x ++ enc o) ++ encs os ++ y) with (x ++ encs (o :: os) ++ y) by (rewrite encs_cons, <- !app_assoc; done).
    replace (zlen (x ++ enc o) + zlen (encs os)) with (zlen x + zlen (encs (o :: os))) by (rewrite encs_cons, !length_app; lia).
    cbn [dense_loop]. replace (zlen x <? zlen x + zlen (encs (o :: os))) with true by (symmetry; apply Z.ltb_lt; rewrite encs_cons, length_app; lia).
    rewrite !length_app, !Nat2Z.inj_add. pose proof (op_seen o Ho) as Hs. destruct o as [n|n|v n]; cbn [seen] in Hs; unfold op_ok in Ho; cbn [runs] in *; rewrite length_replicate in *.
    - destruct Hs as (b & He & E2 & E3 & E4 & E5). rewrite encs_cons, He. cbn [app]. rewrite (bget_mid x b _ (zlen x)) by done. cbn [mbind option_bind]. rewrite E2, E5, swrap_small, Z2Nat.id by lia. exists s. rewrite <- app_assoc. done.
    - destruct Hs as (b & b1 & He & E2 & E3 & E4 & E5). rewrite encs_cons, He. cbn [app]. rewrite (bget_mid x b _ (zlen x)) by done. cbn [mbind option_bind]. rewrite E2, E3.
      replace (x ++ b :: b1 :: encs os ++ y) with ((x ++ [b]) ++ b1 :: encs os ++ y) by (rewrite <- app_assoc; done). rewrite bget_mid by len. cbn [mbind option_bind]. rewrite E5, swrap_small, Z2Nat.id by lia. exists s. rewrite <- (app_assoc A). done.
    - destruct Hs as (b & He & E2 & E3 & E4 & E5 & E6). rewrite encs_cons, He. cbn [app]. rewrite (bget_mid x b _ (zlen x)) by done. cbn [mbind option_bind]. rewrite E2, E3, E5, E6. 
      replace (default 0 (hd_error (replicate (Z.to_nat n) v))) with v in E1 by (destruct (Z.to_nat n) eqn:En; [lia | done]). rewrite E1. cbn [mbind option_bind]. rewrite swrap_small, Z2Nat.id by lia. by exists s1. }
  destruct Hstep as (s2 & -> & Hd2 & Ht2). destruct (IH fuel (x ++ enc o) y s2 (A ++ runs o) C Hok) as (s' & -> & Hd' & Ht'); [cbn in Hf; lia | done |].
  exists s'. split; [|split; [by rewrite expand_cons, <- !app_assoc in * | congruence]]. rewrite expand_cons, !length_app. do 2 f_equal. lia.
Qed.

End HllSparse.
