(* ===== verification/HllProps.v ===== *)
(** * HyperLogLog: the registers are maxima

    The hash pattern of an element, what a string in either encoding means as a
    list of registers, each operation on it, and that any insertions compute,
    register by register, the longest pattern of the elements. *)

From S2P Require Import Prelude Bytes Bits Hll HllDense HllSparse.
Import Hll HllDense HllSparse.

Module HllProps.

(** ** The pattern of an element *)

Definition ele_ok (e : list Z) : Prop := zlen e < 2 ^ 31.

Lemma loop64_ok n : forall data h, 8 * Z.of_nat n <= zlen data -> exists h', murmur64_loop n data h = Some (drop (8 * n) data, h').
Proof.
  induction n as [|n IH]; intros data h Hl; [by exists h |]. cbn [murmur64_loop]. unfold bread. do 3 zguard. cbn [andb mbind option_bind].
  destruct (IH (drop 8 data) (u64 (Z.lxor h (u64 (xor_shr64 (u64 (le_val (take 8 data) * M64)) * M64)) * M64))) as [h' E]; [rewrite length_drop; lia |].
  exists h'. etransitivity; [exact E |]. rewrite drop_drop. do 3 f_equal. lia.
Qed.

Lemma tail64_ok i : forall data h, Z.of_nat i <= zlen data -> exists h', murmur64_tail i data h = Some h'.
Proof.
  induction i as [|i IH]; intros data h Hl; [by exists h |]. cbn [murmur64_tail]. destruct (byte_at data (Z.of_nat i)) as [b ->]; [lia |]. cbn [mbind option_bind]. apply IH. lia.
Qed.

Lemma murmur64_ok e seed : ele_ok e -> exists h, MurmurHash64A e seed = Some h.
Proof.
  intros He. unfold MurmurHash64A. unfold ele_ok in He. rewrite swrap_small by lia. destruct (loop64_ok (Z.to_nat (zlen e / 8)) e (Z.lxor seed (u64 (zlen e * M64)))) as [h ->].
  { rewrite Z2Nat.id by (apply Z.div_pos; lia). Z.div_mod_to_equations. lia. }
  cbn [mbind option_bind]. change 7 with (2 ^ 3 - 1). rewrite land_mask by lia. change (2 ^ 3) with 8. destruct (Z.eqb_spec (zlen e mod 8) 0); [by eexists |].
  match goal with |- context [murmur64_tail ?i ?d ?h] => destruct (tail64_ok i d h) as [h' ->] end; [|by eexists].
  rewrite length_drop. Z.div_mod_to_equations. lia.
Qed.

Lemma land_bit h j : 0 <= j -> (Z.land h (2 ^ j) =? 0) = negb (Z.testbit h j).
Proof.
  intros Hj. destruct (Z.testbit h j) eqn:E; [apply Z.eqb_neq | apply Z.eqb_eq].
  - intros H. apply (f_equal (fun z => Z.testbit z j)) in H. rewrite Z.land_spec, E, Z.pow2_bits_true, Z.bits_0 in H by done. done.
  - apply Z.bits_inj'. intros i Hi. rewrite Z.land_spec, Z.bits_0. destruct (decide (i = j)) as [->|]; [by rewrite E |]. rewrite Z.pow2_bits_false by lia. apply andb_false_r.
Qed.

(** The loop counts the zero bits from [j] up to the first one. *)
Lemma pat_loop_ok fuel : forall h j count, Z.testbit h 63 = true -> 0 <= j <= 63 -> 63 - j < Z.of_nat fuel ->
  exists c, pat_loop fuel h (2 ^ j) count = Some (count + c) /\ 0 <= c <= 63 - j /\ Z.testbit h (j + c) = true /\ forall i, j <= i < j + c -> Z.testbit h i = false.
Proof.
  induction fuel as [|fuel IH]; intros h j count Ht Hj Hf; [lia |]. cbn [pat_loop]. rewrite land_bit by lia. destruct (Z.testbit h j) eqn:E; cbn [negb].
  - exists 0. rewrite !Z.add_0_r. split; [done |]. split; [lia |]. split; [done |]. lia.
  - assert (j <> 63) by congruence. assert (Hs : u64 (Z.shiftl (2 ^ j) 1) = 2 ^ Z.succ j).
    { rewrite Z.shiftl_mul_pow2, <- Z.pow_add_r by lia. apply uwrap_small. split; [apply Z.pow_nonneg; lia | apply Z.pow_lt_mono_r; lia]. }
    rewrite Hs.
    destruct (IH h (Z.succ j) (count + 1) Ht) as (c & -> & Hc & Hb & Hz); [lia | lia |]. exists (c + 1). split; [f_equal; lia |]. split; [lia |]. split; [rewrite <- Hb; f_equal; lia |].
    intros i Hi. destruct (decide (i = j)) as [->|]; [done |]. apply Hz. lia.
Qed.

(** The register is the hash modulo their number, the count one more than the
    number of zeros above those bits, at most 50. *)
Lemma hllPatLen_spec e : ele_ok e -> exists h c, MurmurHash64A e 0xadc83b19 = Some h /\ hllPatLen e = Some (c, h mod HLL_REGISTERS) /\
  1 <= c <= 50 /\ (c < 50 -> Z.testbit h (13 + c) = true) /\ forall i, 1 <= i < c -> Z.testbit h (13 + i) = false.
Proof.
  intros He. destruct (murmur64_ok e 0xadc83b19 He) as [h Hh]. exists h. unfold hllPatLen. rewrite Hh. cbn [mbind option_bind].
  assert (H63 : forall i, Z.testbit (Z.lor h (Z.shiftl 1 63)) i = Z.testbit h i || (i =? 63)).
  { intros i. rewrite Z.lor_spec. f_equal. rewrite Z.shiftl_1_l. destruct (Z.eqb_spec i 63) as [->|]; [by apply Z.pow2_bits_true | by apply Z.pow2_bits_false]. }
  destruct (pat_loop_ok 51 (Z.lor h (Z.shiftl 1 63)) 14 1) as (c & E & Hc & Hb & Hz); [by rewrite H63, orb_true_r | lia | lia |]. change HLL_REGISTERS with (2 ^ 14) at 1. rewrite E. cbn [mbind option_bind].
  exists (1 + c). split; [done |]. change HLL_P_MASK with (2 ^ 14 - 1). rewrite land_mask by lia. pose proof (Z.mod_pos_bound h (2 ^ 14) ltac:(lia)). rewrite swrap_small by lia. split; [done |].
  split; [lia |]. split.
  - intros Hlt. rewrite H63 in Hb. replace (13 + (1 + c)) with (14 + c) by lia. apply orb_true_iff in Hb as [Hb|Hb]; [done |]. zbool. lia.
  - intros i Hi. specialize (Hz (13 + i) ltac:(lia)). rewrite H63 in Hz. by apply orb_false_iff in Hz as [Hz _].
Qed.

Lemma pat_ok e : ele_ok e -> exists c i, hllPatLen e = Some (c, i) /\ 1 <= c <= 50 /\ 0 <= i < HLL_REGISTERS.
Proof. intros He. destruct (hllPatLen_spec e He) as (h & c & _ & E & Hc & _). exists c, (h mod HLL_REGISTERS). split; [done |]. split; [done |]. by apply Z.mod_pos_bound. Qed.

(** ** Strings and their registers *)

Definition magic : list Z := [72; 89; 76; 76].

Definition sparse (s regs : list Z) : Prop := exists hdr os, s = hdr ++ encs os /\ zlen hdr = 16 /\ bytes_ok hdr /\ bget hdr 4 = Some 1 /\
  Forall op_ok os /\ expand os = regs /\ zlen regs = HLL_REGISTERS.

Definition hll (s regs : list Z) : Prop := take 4 s = magic /\ (sparse s regs \/ (bget s 4 = Some 0 /\ dense s regs)).

(** Raising register [i] to [c]: the registers, and 1 when it was lower. *)
Definition raise (regs : list Z) (i c : Z) : list Z * Z := if c >? default 0 (regs !! Z.to_nat i) then (<[Z.to_nat i := c]> regs, 1) else (regs, 0).

Lemma take4_16 (s s' : list Z) : take 16 s = take 16 s' -> take 4 s = take 4 s'.
Proof. intros H. apply (f_equal (take 4)) in H. by rewrite !take_take in H. Qed.

Lemma bget_take16 (s s' : list Z) i : take 16 s = take 16 s' -> 0 <= i < 16 -> bget s i = bget s' i.
Proof. intros H Hi. unfold bget. zguard. apply (f_equal (fun l => l !! Z.to_nat i)) in H. by rewrite !lookup_take_lt in H by lia. Qed.

(** ** Dense insertion *)

Lemma dense_add_ok s regs e c i : dense s regs -> hllPatLen e = Some (c, i) -> 1 <= c <= 50 -> 0 <= i < HLL_REGISTERS ->
  exists s', hllDenseAdd (s ++ [0]) HLL_HDR_SIZE e = Some (s' ++ [0], (raise regs i c).2 =? 1) /\ dense s' (raise regs i c).1 /\ take 16 s' = take 16 s.
Proof.
  intros Hd Hp Hc Hi. unfold hllDenseAdd. rewrite Hp. cbn [mbind option_bind]. rewrite uwrap_small by lia. pose proof (de_len _ _ Hd) as Hl.
  destruct (lookup_lt_is_Some_2 regs (Z.to_nat i)) as [old Ho]; [lia |]. pose proof (de_get _ _ Hd _ _ Ho) as Hg. rewrite Z2Nat.id in Hg by lia. rewrite Hg. cbn [mbind option_bind].
  unfold raise. rewrite Ho. cbn [default from_option id]. destruct (c >? old); [|by exists s].
  destruct (dense_set s regs i c Hd Hi) as (s' & -> & Hd' & Ht); [lia |]. by exists s'.
Qed.

(** ** To the dense encoding *)

Lemma zero_dense hdr : zlen hdr = 16 -> bytes_ok hdr -> dense (hdr ++ replicate (Z.to_nat (HLL_DENSE_SIZE - 16)) 0) (replicate (Z.to_nat HLL_REGISTERS) 0).
Proof.
  intros Hl Hok. assert (Hb : bytes_ok (hdr ++ replicate (Z.to_nat (HLL_DENSE_SIZE - 16)) 0)) by (apply Forall_app; split; [done |]; apply Forall_replicate; lia).
  assert (Hs : zlen (hdr ++ replicate (Z.to_nat (HLL_DENSE_SIZE - 16)) 0) = HLL_DENSE_SIZE) by (rewrite length_app, length_replicate; change HLL_DENSE_SIZE with 12304; lia).
  split; [done | done | rewrite length_replicate; by apply Z2Nat.id | apply Forall_replicate; lia |].
  intros i v Hv. apply lookup_replicate in Hv as [-> Hi]. assert (0 <= Z.of_nat i < HLL_REGISTERS) as Hr by (change HLL_REGISTERS with 16384 in *; lia).
  pose proof (reg_place _ _ Hs Hr) as Hp. apply get_of_bits; [by apply mem_ok | done | lia | done | done |]. intros j Hj. change HLL_HDR_SIZE with 16. unfold mbit. rewrite Z.bits_0, <- app_assoc, bget_app_r by (Z.div_mod_to_equations; lia).
  rewrite <- replicate_S_end. unfold bget. destruct (0 <=? _); [|done]. destruct (replicate _ 0 !! _) as [b|] eqn:E; [|done]. apply lookup_replicate in E as [-> _]. apply Z.bits_0.
Qed.

Lemma set_encoding hdr v : zlen hdr = 16 -> bytes_ok hdr -> exists hdr', (forall y, bset (hdr ++ y) 4 v = Some (hdr' ++ y)) /\ zlen hdr' = 16 /\ bytes_ok hdr' /\ bget hdr' 4 = Some (u8 v) /\ take 4 hdr' = take 4 hdr.
Proof.
  intros Hl Hok. exists (<[4%nat := u8 v]> hdr). split; [|split; [by rewrite length_insert | split; [by apply Forall_insert; [|apply u8_range] |]]].
  - intros y. rewrite bset_insert by (rewrite length_app; lia). rewrite insert_app_l by (change (Z.to_nat 4) with 4%nat; lia). done.
  - split; [|by rewrite take_insert_ge by lia]. unfold bget. cbn [Z.leb]. change (Z.to_nat 4) with 4%nat. by rewrite list_lookup_insert_eq by lia.
Qed.

Lemma to_dense_ok s regs : sparse s regs -> exists d, hllSparseToDense s = Some (Some d) /\ dense d regs /\ bget d 4 = Some 0 /\ take 4 d = take 4 s.
Proof.
  intros (hdr & os & -> & Hl & Hok & He & Hos & Hex & Hr). unfold hllSparseToDense, hdr_encoding. rewrite bget_app_l, He by lia. cbn [mbind option_bind]. change (1 =? HLL_DENSE) with false. cbn iota.
  rewrite bread_start by done. cbn [mbind option_bind]. replace (Z.to_nat HLL_DENSE_SIZE) with (16 + Z.to_nat (HLL_DENSE_SIZE - 16))%nat by (change HLL_DENSE_SIZE with 12304; lia).
  rewrite replicate_add, <- (app_assoc (replicate 16 0)), bwrite_start by (rewrite length_replicate; lia). cbn [mbind option_bind].
  destruct (set_encoding hdr HLL_DENSE Hl Hok) as (hdr' & -> & Hl' & Hok' & He' & Ht). cbn [mbind option_bind].
  pose proof (zero_dense hdr' Hl' Hok') as Hd. rewrite (app_assoc hdr').
  destruct (dense_loop_ok os (S (length (hdr ++ encs os))) hdr [0] (hdr' ++ replicate (Z.to_nat (HLL_DENSE_SIZE - 16)) 0) [] [] Hos) as (s' & E & Hd' & Ht'); [pose proof (length_encs os Hos); rewrite length_app; lia | |].
  { rewrite app_nil_r, Hex. cbn [app]. replace (length regs) with (Z.to_nat HLL_REGISTERS) by (change HLL_REGISTERS with 16384 in *; lia). exact Hd. }
  rewrite <- app_assoc, length_app, Nat2Z.inj_add. change HLL_HDR_SIZE with 16. change (zlen []) with 0 in E. rewrite length_app, Hl in E. rewrite Hl, E. cbn [mbind option_bind].
  rewrite Hex, Hr, Z.add_0_l, Z.eqb_refl. cbn [negb]. rewrite Hex, app_nil_r in Hd'. cbn [app] in Hd'. exists s'. split; [|split; [done | split]].
  - do 2 f_equal. apply take_app_exact. pose proof (de_size _ _ Hd') as Hz. change HLL_DENSE_SIZE with 12304 in *. lia.
  - rewrite (bget_take16 _ _ 4 Ht') by lia. rewrite bget_app_l by lia. done.
  - rewrite (take4_16 _ _ Ht'), !take_app_le by lia. done.
Qed.

(** ** Sparse insertion *)

Section Add.
Context (junk : nat -> Z) (mx : Z).

Lemma invalidate_ok hdr : zlen hdr = 16 -> bytes_ok hdr -> exists hdr', (forall y, HLL_INVALIDATE_CACHE (hdr ++ y) = Some (hdr' ++ y)) /\ zlen hdr' = 16 /\ bytes_ok hdr' /\ bget hdr' 4 = bget hdr 4 /\ take 4 hdr' = take 4 hdr.
Proof using.
  intros Hl Hok. destruct (byte_at hdr 15) as [b Hb]; [lia |]. exists (<[15%nat := u8 (Z.lor b (Z.shiftl 1 7))]> hdr).
  split; [|split; [by rewrite length_insert | split; [by apply Forall_insert; [|apply u8_range] | split]]].
  - intros y. unfold HLL_INVALIDATE_CACHE, hdr_card. change (8 + 7) with 15. rewrite bget_app_l, Hb by lia. cbn [mbind option_bind]. rewrite bset_insert by (rewrite length_app; lia). change (Z.to_nat 15) with 15%nat. rewrite insert_app_l by lia. done.
  - unfold bget. cbn [Z.leb]. change (Z.to_nat 4) with 4%nat. by rewrite list_lookup_insert_ne.
  - by rewrite take_insert_ge by lia.
Qed.

(** After the opcodes from [pre] on were changed: merging and the cache. *)
Lemma updated_ok hdr pre os prev y : zlen hdr = 16 -> bytes_ok hdr -> bget hdr 4 = Some 1 -> Forall op_ok (pre ++ os) -> y <> [] -> zlen (expand (pre ++ os)) = HLL_REGISTERS ->
  prev_of 16 pre None prev ->
  exists s', updated (hdr ++ encs (pre ++ os) ++ y) prev (16 + zlen (encs (pre ++ os))) = Some (s', 1) /\ sparse s' (expand (pre ++ os)) /\ take 4 s' = take 4 hdr.
Proof using.
  intros Hl Hok He Hos Hy Hr Hp.
  assert (Hm : exists os' y', merge_loop 5 (hdr ++ encs (pre ++ os) ++ y) (default HLL_HDR_SIZE prev) (16 + zlen (encs (pre ++ os))) = Some (hdr ++ encs os' ++ y', 16 + zlen (encs os')) /\ Forall op_ok os' /\ expand os' = expand (pre ++ os) /\ y' <> []).
  { destruct Hp as [[-> ->]|(pre1 & o1 & -> & ->)]; cbn [default from_option id app].
    - destruct (merge_ok 5 hdr os y Hos Hy) as (os' & y' & E & Hos' & Hex & Hy'). exists os', y'. change HLL_HDR_SIZE with 16. rewrite Hl in E. done.
    - rewrite <- app_assoc in *. cbn [app] in *. pose proof Hos as [Hos1 Hos2]%Forall_app. destruct (merge_ok 5 (hdr ++ encs pre1) (o1 :: os) y Hos2 Hy) as (os' & y' & E & Hos' & Hex & Hy').
      exists (pre1 ++ os'), y'. split; [|split; [by apply Forall_app | split; [by rewrite !expand_app, Hex | done]]].
      rewrite length_app, Nat2Z.inj_add, Hl, <- !app_assoc in E. by rewrite !encs_app, !length_app, !Nat2Z.inj_add, !Z.add_assoc, <- !app_assoc. }
  destruct Hm as (os' & y' & E & Hos' & Hex & _). unfold updated. rewrite E. cbn [mbind option_bind]. destruct (invalidate_ok hdr Hl Hok) as (hdr' & -> & Hl' & Hok' & He' & Ht). cbn [mbind option_bind].
  eexists. split; [done |]. rewrite app_assoc, take_app_exact by (rewrite length_app; lia). split; [|by rewrite take_app_le by lia].
  exists hdr', os'. rewrite <- Hex in *. rewrite He', He. done.
Qed.

Lemma expand_update pre o post mid i c : zlen (expand pre) <= i < zlen (expand pre) + zlen (runs o) ->
  expand mid = <[Z.to_nat (i - zlen (expand pre)) := c]> (runs o) -> expand (pre ++ mid ++ post) = <[Z.to_nat i := c]> (expand (pre ++ o :: post)).
Proof using.
  intros Hi Hm. rewrite !expand_app, expand_cons, Hm, insert_app_r_alt, insert_app_l by lia. do 3 f_equal. lia.
Qed.

Lemma lookup_run pre o post i : zlen (expand pre) <= i < zlen (expand pre) + zlen (runs o) ->
  expand (pre ++ o :: post) !! Z.to_nat i = runs o !! Z.to_nat (i - zlen (expand pre)).
Proof using. intros Hi. rewrite expand_app, expand_cons, lookup_app_r, lookup_app_l by lia. f_equal. lia. Qed.

Lemma promote_ok s regs e c i : take 4 s = magic -> sparse s regs -> hllPatLen e = Some (c, i) -> 1 <= c <= 50 -> 0 <= i < HLL_REGISTERS ->
  c > default 0 (regs !! Z.to_nat i) -> exists s', promote s e = Some (s', 1) /\ hll s' (<[Z.to_nat i := c]> regs).
Proof using.
  intros Hmg Hs Hp Hc Hi Hlt. unfold promote. destruct (to_dense_ok s regs Hs) as (d & -> & Hd & He & Ht). cbn [mbind option_bind].
  destruct (dense_add_ok d regs e c i Hd Hp Hc Hi) as (s' & -> & Hd' & Ht'). cbn [mbind option_bind]. unfold raise in *. rewrite (proj2 (Z.gtb_lt _ _)) in * by lia. cbn [fst snd] in *.
  change (1 =? 1) with true. cbn iota. eexists. split; [done |]. rewrite length_app, Nat.add_sub, take_app_length. split; [by rewrite (take4_16 _ _ Ht'), Ht | right].
  by rewrite (bget_take16 _ _ 4 Ht') by lia.
Qed.

(** The opcodes that replace a run of [n] registers of value [v] when the one at
    [k] is raised. *)
Definition zrun (n : Z) : op := if n >? HLL_SPARSE_ZERO_MAX_LEN then XZero n else Zero n.

Definition zeros_mid (k n c : Z) : list op := (if k =? 0 then [] else [zrun k]) ++ [Val c 1] ++ (if k =? n - 1 then [] else [zrun (n - 1 - k)]).
Definition val_mid (v k n c : Z) : list op := (if k =? 0 then [] else [Val v k]) ++ [Val c 1] ++ (if k =? n - 1 then [] else [Val v (n - 1 - k)]).

Lemma zrun_runs n : runs (zrun n) = replicate (Z.to_nat n) 0.
Proof using. unfold zrun. by destruct (n >? _). Qed.

Lemma zrun_ok n : 1 <= n <= 16384 -> op_ok (zrun n).
Proof using. unfold zrun. change HLL_SPARSE_ZERO_MAX_LEN with 64. intros. destruct (Z.gtb_spec n 64); [done |]. unfold op_ok. change HLL_SPARSE_ZERO_MAX_LEN with 64. lia. Qed.

Lemma zrun_enc n : enc (zrun n) = zero_run n.
Proof using. unfold zrun, zero_run. by destruct (n >? _). Qed.

Lemma split_replicate (v c k n : Z) : 0 <= k < n -> <[Z.to_nat k := c]> (replicate (Z.to_nat n) v) = replicate (Z.to_nat k) v ++ c :: replicate (Z.to_nat (n - 1 - k)) v.
Proof using.
  intros. replace (Z.to_nat n) with (Z.to_nat k + S (Z.to_nat (n - 1 - k)))%nat by lia. rewrite replicate_add, insert_app_r_alt by (rewrite length_replicate; lia).
  rewrite length_replicate, Nat.sub_diag. done.
Qed.

Lemma zeros_mid_ok k n c : 0 <= k < n -> n <= 16384 -> 1 <= c <= 32 ->
  Forall op_ok (zeros_mid k n c) /\ expand (zeros_mid k n c) = <[Z.to_nat k := c]> (replicate (Z.to_nat n) 0) /\
  forall first, encs (zeros_mid k n c) = split_zeros first (first + n - 1) (first + k) c.
Proof using.
  intros Hk Hn Hc. unfold zeros_mid. split; [|split].
  - apply Forall_app. split; [|constructor; [unfold op_ok; change HLL_SPARSE_VAL_MAX_VALUE with 32; change HLL_SPARSE_VAL_MAX_LEN with 4; lia |]]; case_match; zbool; repeat constructor; apply zrun_ok; lia.
  - rewrite split_replicate, !expand_app by lia. cbn [expand fmap list_fmap concat runs app]. f_equal; [|f_equal]; case_match; zbool; cbn [expand fmap list_fmap concat]; rewrite ?zrun_runs, ?app_nil_r; subst; try done.
    replace (n - 1 - (n - 1)) with 0 by lia. done.
  - intros first. unfold split_zeros. rewrite !encs_app. replace (first + k =? first) with (k =? 0) by (destruct (Z.eqb_spec k 0), (Z.eqb_spec (first + k) first); lia).
    replace (first + k =? first + n - 1) with (k =? n - 1) by (destruct (Z.eqb_spec k (n - 1)), (Z.eqb_spec (first + k) (first + n - 1)); lia).
    f_equal; [|f_equal]; case_match; cbn [negb encs fmap list_fmap concat]; rewrite ?zrun_enc, ?app_nil_r; try done; f_equal; lia.
Qed.

Lemma val_mid_ok v k n c : 0 <= k < n -> n <= 4 -> 1 <= v <= 32 -> 1 <= c <= 32 ->
  Forall op_ok (val_mid v k n c) /\ expand (val_mid v k n c) = <[Z.to_nat k := c]> (replicate (Z.to_nat n) v) /\
  forall first, encs (val_mid v k n c) = split_val first (first + n - 1) (first + k) c v.
Proof using.
  intros Hk Hn Hv Hc. assert (HV : forall w m, 1 <= w <= 32 -> 1 <= m <= 4 -> op_ok (Val w m)) by (intros; split; done). unfold val_mid. split; [|split].
  - rewrite !Forall_app, Forall_singleton. split; [|split; [apply HV; lia |]]; case_match; zbool; rewrite ?Forall_singleton; (apply Forall_nil_2 || (apply HV; lia)).
  - rewrite split_replicate, !expand_app by lia. cbn [expand fmap list_fmap concat runs app]. f_equal; [|f_equal]; case_match; zbool; cbn [expand fmap list_fmap concat runs]; rewrite ?app_nil_r; subst; try done.
    replace (n - 1 - (n - 1)) with 0 by lia. done.
  - intros first. unfold split_val. rewrite !encs_app. replace (first + k =? first) with (k =? 0) by (destruct (Z.eqb_spec k 0), (Z.eqb_spec (first + k) first); lia).
    replace (first + k =? first + n - 1) with (k =? n - 1) by (destruct (Z.eqb_spec k (n - 1)), (Z.eqb_spec (first + k) (first + n - 1)); lia).
    f_equal; [|f_equal]; case_match; cbn [negb encs fmap list_fmap concat enc]; rewrite ?app_nil_r; try done; f_equal; lia.
Qed.

(** [mid] takes the place of [o], which covers register [i], and raises it. *)
Section Replace.
Context (hdr : list Z) (pre post mid : list op) (o : op) (prev : option Z) (y : list Z) (i c : Z).
Context (Hl : zlen hdr = 16) (Hok : bytes_ok hdr) (He : bget hdr 4 = Some 1) (Hmg : take 4 hdr = magic).
Context (Hos : Forall op_ok (pre ++ o :: post)) (Hr : zlen (expand (pre ++ o :: post)) = HLL_REGISTERS) (Hp : prev_of 16 pre None prev).
Context (Hi : zlen (expand pre) <= i < zlen (expand pre) + zlen (runs o)) (Hmid : Forall op_ok mid) (Hex : expand mid = <[Z.to_nat (i - zlen (expand pre)) := c]> (runs o)).

Lemma replaced_ok z : exists s', updated (hdr ++ encs (pre ++ mid ++ post) ++ 0 :: z) prev (16 + zlen (encs (pre ++ mid ++ post))) = Some (s', 1) /\
  hll s' (<[Z.to_nat i := c]> (expand (pre ++ o :: post))).
Proof using Hl Hok He Hmg Hos Hr Hp Hi Hmid Hex.
  pose proof Hos as [Hpre [Ho Hpost]%Forall_cons]%Forall_app. pose proof (expand_update pre o post mid i c Hi Hex) as HE.
  destruct (updated_ok hdr pre (mid ++ post) prev (0 :: z)) as (s' & E & Hs & Ht); [done | done | done | by rewrite !Forall_app | done | by rewrite HE, length_insert | done |].
  exists s'. split; [done |]. split; [by rewrite Ht | left]. by rewrite <- HE.
Qed.

Lemma swap_in_ok : zlen (encs mid) - zlen (enc o) < zlen y -> exists s',
  (m ← (if negb (zlen (encs mid) - zlen (enc o) =? 0) && negb (16 + zlen (encs pre) + zlen (enc o) >=? 16 + zlen (encs (pre ++ o :: post)))
        then bmove (hdr ++ encs (pre ++ o :: post) ++ y) (16 + zlen (encs pre) + zlen (enc o) + (zlen (encs mid) - zlen (enc o))) (16 + zlen (encs pre) + zlen (enc o))
               (16 + zlen (encs (pre ++ o :: post)) - (16 + zlen (encs pre) + zlen (enc o)))
        else Some (hdr ++ encs (pre ++ o :: post) ++ y));
   '(m, end_) ← sdsIncrLen m (16 + zlen (encs (pre ++ o :: post))) (zlen (encs mid) - zlen (enc o));
   m ← bwrite m (16 + zlen (encs pre)) (encs mid);
   updated m prev end_) = Some (s', 1) /\ hll s' (<[Z.to_nat i := c]> (expand (pre ++ o :: post))).
Proof using Hl Hok He Hmg Hos Hr Hp Hi Hmid Hex.
  intros Hd. pose proof Hos as [Hpre [Ho Hpost]%Forall_cons]%Forall_app. destruct (splice_ok (hdr ++ encs pre) (enc o) (encs post) y (encs mid) (enc_length o Ho) Hd) as (z & E).
  destruct (replaced_ok z) as (s' & Hu & Hs). exists s'. split; [|done]. rewrite <- Hu.
  replace ((hdr ++ encs pre) ++ enc o ++ encs post ++ y) with (hdr ++ encs (pre ++ o :: post) ++ y) in E by (rewrite encs_app, encs_cons, <- !app_assoc; done).
  replace (zlen (hdr ++ encs pre) + zlen (enc o) + zlen (encs post)) with (16 + zlen (encs (pre ++ o :: post))) in E by (rewrite encs_app, encs_cons, !length_app; lia).
  replace (zlen (hdr ++ encs pre)) with (16 + zlen (encs pre)) in E by (rewrite length_app; lia).
  replace (hdr ++ encs (pre ++ mid ++ post) ++ 0 :: z) with ((hdr ++ encs pre) ++ encs mid ++ encs post ++ 0 :: z) by (rewrite !encs_app, <- !app_assoc; done).
  replace (16 + zlen (encs (pre ++ mid ++ post))) with (16 + zlen (encs pre) + zlen (encs mid) + zlen (encs post)) by (rewrite !encs_app, !length_app; lia).
  revert E. destruct (if negb _ && _ then _ else _) as [m1|]; [|done]. cbn [mbind option_bind]. destruct (sdsIncrLen _ _ _) as [[m2 e2]|]; [|done]. cbn [mbind option_bind].
  destruct (bwrite _ _ _) as [m3|]; [|done]. cbn [mbind option_bind]. intros [= -> ->]. done.
Qed.

Lemma in_place_ok y0 : length (encs mid) = length (enc o) -> y = 0 :: y0 -> exists s',
  (m ← bwrite (hdr ++ encs (pre ++ o :: post) ++ y) (16 + zlen (encs pre)) (encs mid); updated m prev (16 + zlen (encs (pre ++ o :: post)))) = Some (s', 1) /\
  hll s' (<[Z.to_nat i := c]> (expand (pre ++ o :: post))).
Proof using Hl Hok He Hmg Hos Hr Hp Hi Hmid Hex.
  intros Hlen Hy. rewrite Hy. replace (hdr ++ encs (pre ++ o :: post) ++ 0 :: y0) with ((hdr ++ encs pre) ++ enc o ++ encs post ++ 0 :: y0) by (rewrite encs_app, encs_cons, <- !app_assoc; done).
  rewrite bwrite_mid by (done || (rewrite length_app; lia)). cbn [mbind option_bind]. destruct (replaced_ok y0) as (s' & E & Hs). exists s'. split; [|done]. rewrite <- E. f_equal.
  - rewrite !encs_app, <- !app_assoc. done.
  - rewrite !encs_app, encs_cons, !length_app. lia.
Qed.
End Replace.

Lemma zeros_mid_length k n c : 0 <= k < n -> zlen (encs (zeros_mid k n c)) <= if n <=? 64 then 3 else 5.
Proof using.
  intros Hk. assert (HZ : forall m, zlen (enc (zrun m)) = if m >? 64 then 2 else 1) by (intros m; rewrite zrun_enc; unfold zero_run; change HLL_SPARSE_ZERO_MAX_LEN with 64; by case_match).
  assert (HE : zlen (encs (zeros_mid k n c)) = (if k =? 0 then 0 else zlen (enc (zrun k))) + 1 + (if k =? n - 1 then 0 else zlen (enc (zrun (n - 1 - k))))).
  { unfold zeros_mid. rewrite !encs_app, !length_app, !Nat2Z.inj_add, Z.add_assoc. f_equal; [f_equal |]; case_match; cbn [encs fmap list_fmap concat]; rewrite ?app_nil_r; done. }
  rewrite HE, !HZ, !Z.gtb_ltb. zcase; lia.
Qed.

Lemma val_mid_length v k n c : zlen (encs (val_mid v k n c)) <= 3.
Proof using. unfold val_mid. destruct (k =? 0), (k =? n - 1); cbn; lia. Qed.

Lemma op_byte hdr pre o post y b t : zlen hdr = 16 -> enc o = b :: t -> bget (hdr ++ encs (pre ++ o :: post) ++ y) (16 + zlen (encs pre)) = Some b /\
  forall b1 t', t = b1 :: t' -> bget (hdr ++ encs (pre ++ o :: post) ++ y) (16 + zlen (encs pre) + 1) = Some b1.
Proof using.
  intros Hl He. rewrite encs_app, encs_cons, He. split.
  - replace (hdr ++ _) with ((hdr ++ encs pre) ++ b :: (t ++ encs post) ++ y) by (rewrite <- !app_assoc; done). apply bget_mid. rewrite length_app. lia.
  - intros b1 t' ->. replace (hdr ++ _) with ((hdr ++ encs pre ++ [b]) ++ b1 :: (t' ++ encs post) ++ y) by (rewrite <- !app_assoc; done). apply bget_mid. rewrite !length_app. cbn [length]. lia.
Qed.

Lemma raise_new regs i c old : regs !! Z.to_nat i = Some old -> old < c -> raise regs i c = (<[Z.to_nat i := c]> regs, 1).
Proof using. intros H Hc. unfold raise. rewrite H. cbn [default from_option id]. by rewrite (proj2 (Z.gtb_lt _ _)). Qed.

Lemma sparse_add_ok s regs e c i : take 4 s = magic -> sparse s regs -> hllPatLen e = Some (c, i) -> 1 <= c <= 50 -> 0 <= i < HLL_REGISTERS ->
  exists s', hllSparseAdd junk mx s e = Some (s', (raise regs i c).2) /\ hll s' (raise regs i c).1.
Proof using.
  intros Hmg Hs Hpat Hc Hi. pose proof (promote_ok s regs e c i Hmg Hs Hpat Hc Hi) as Hpromote. pose proof Hs as Hs0. destruct Hs as (hdr & os & Hsd & Hl & Hok & He & Hos & Hex & Hr).
  unfold hllSparseAdd. rewrite Hpat. cbn [mbind option_bind]. rewrite uwrap_small by lia. change HLL_SPARSE_VAL_MAX_VALUE with 32.
  destruct (lookup_lt_is_Some_2 regs (Z.to_nat i)) as [old Hold]; [lia |]. assert (Hor : 0 <= old <= 32) by (pose proof (expand_range os Hos) as Hrg; rewrite Hex in Hrg; exact (Forall_lookup_1 _ _ _ _ Hrg Hold)).
  rewrite Hold in Hpromote. cbn [default from_option id] in Hpromote. destruct (Z.gtb_spec c 32) as [Hbig|Hsmall].
  { rewrite (raise_new regs i c old Hold) by lia. apply Hpromote. lia. }
  assert (Hm : exists y0, sdsMakeRoomFor junk s 3 = hdr ++ encs os ++ 0 :: y0 /\ 3 <= zlen y0).
  { unfold sdsMakeRoomFor. cbn [Z.geb Z.compare]. set (n := if _ <? _ then _ else _). assert (Hn : zlen s + 3 <= n) by (subst n; unfold SDS_MAX_PREALLOC; zcase; lia). destruct (brealloc_grow junk (s ++ [0]) (n + 1)) as (t & -> & Ht); [len |]. exists t. rewrite length_app in Ht. cbn [length] in Ht. split; [|lia]. rewrite Hsd, <- !app_assoc. done. }
  destruct Hm as (y0 & Hm & Hy0). rewrite Hm. destruct (find_ok os (S (length s)) hdr (0 :: y0) 0 None 0 i Hos) as (pre & o & post & prev & Hosd & Hfind & Hrange & Hprev);
    [rewrite Hsd, length_app; pose proof (length_encs os Hos); lia | rewrite Hex; lia |].
  change HLL_HDR_SIZE with 16. assert (Hzs : zlen s = 16 + zlen (encs os)) by (rewrite Hsd, length_app; lia). rewrite Hzs. rewrite Hl in Hfind, Hprev. rewrite Hfind. cbn [mbind option_bind]. clear Hfind Hm.
  rewrite !Z.add_0_l in *. subst os. pose proof Hos as [Hpre [Ho Hpost]%Forall_cons]%Forall_app. pose proof (runs_width o Ho) as Hw. rewrite (proj2 (Z.eqb_neq _ 0)) by lia.
  assert (Hmg' : take 4 hdr = magic) by (rewrite Hsd, take_app_le in Hmg by lia; done). rewrite <- Hex in Hold, Hr, Hpromote |- *. rewrite (lookup_run pre o post i Hrange) in Hold.
  set (first := zlen (expand pre)) in *. set (k := i - first) in *. assert (Hik : first + k = i) by (subst k; lia).
  pose proof (fun mid => swap_in_ok hdr pre post mid o prev (0 :: y0) i c Hl Hok He Hmg' Hos Hr Hprev Hrange) as Hrep.
  pose proof (fun mid => in_place_ok hdr pre post mid o prev (0 :: y0) i c Hl Hok He Hmg' Hos Hr Hprev Hrange) as Hin.
  assert (Hlast : s32 (first + zlen (runs o) - 1) = first + zlen (runs o) - 1).
  { apply swrap_small; [lia |]. rewrite expand_app, expand_cons, !length_app in Hr. change HLL_REGISTERS with 16384 in Hr. subst first. lia. }
  rewrite Hlast. assert (Hy4 : 4 <= zlen (0 :: y0)) by (cbn [length]; lia).
  assert (Hold' : expand (pre ++ o :: post) !! Z.to_nat i = Some old) by by rewrite (lookup_run pre o post i Hrange).
  assert (HVc : Forall op_ok [Val c 1]) by (apply Forall_singleton; split; [change HLL_SPARSE_VAL_MAX_VALUE with 32; lia | done]).
  pose proof (op_seen o Ho) as Hseen. destruct o as [n|n|v n]; cbn [seen] in Hseen; unfold op_ok in Ho; change HLL_SPARSE_ZERO_MAX_LEN with 64 in *; change HLL_SPARSE_XZERO_MAX_LEN with 16384 in *; cbn [runs] in *; rewrite length_replicate, Z2Nat.id in * by lia; apply lookup_replicate in Hold as [Hov Hkn].
  - destruct Hseen as (b & Hb & E1 & E2 & E3 & E4). destruct (op_byte hdr pre (Zero n) post (0 :: y0) b [] Hl Hb) as [-> _]. cbn [mbind option_bind]. rewrite E1, E2, E4. cbn [negb andb orb mbind option_bind]. rewrite (raise_new _ i c old Hold') by lia.
    rewrite Hb in Hrep, Hin. change (zlen [b]) with 1 in Hrep. destruct (Z.eqb_spec n 1) as [->|Hn1].
    + refine (Hin [Val c 1] HVc _ y0 eq_refl eq_refl). fold first k. by replace k with 0 by lia.
    + destruct (zeros_mid_ok k n c) as (Hmok & Hmex & Hmenc); [lia | lia | lia |]. pose proof (zeros_mid_length k n c ltac:(lia)) as Hml. rewrite (proj2 (Z.leb_le n 64)) in Hml by lia. specialize (Hmenc first). rewrite Hik in Hmenc. rewrite <- Hmenc.
      destruct (_ && (_ >? mx)); [apply Hpromote; lia | apply (Hrep _ Hmok Hmex); lia].
  - destruct Hseen as (b & b1 & Hb & E1 & E2 & E3 & E4). destruct (op_byte hdr pre (XZero n) post (0 :: y0) b [b1] Hl Hb) as [-> Hb1]. cbn [mbind option_bind]. rewrite (Hb1 b1 []) by done. rewrite E1, E2. cbn [negb andb orb mbind option_bind]. rewrite (raise_new _ i c old Hold') by lia.
    rewrite Hb in Hrep. change (zlen [b; b1]) with 2 in Hrep.
    destruct (zeros_mid_ok k n c) as (Hmok & Hmex & Hmenc); [lia | lia | lia |]. pose proof (zeros_mid_length k n c ltac:(lia)) as Hml. specialize (Hmenc first). rewrite Hik in Hmenc. rewrite <- Hmenc.
    destruct (_ && (_ >? mx)); [apply Hpromote; lia | apply (Hrep _ Hmok Hmex)]. destruct (n <=? 64); lia.
  - destruct Hseen as (b & Hb & E1 & E2 & E3 & E4 & E5). destruct (op_byte hdr pre (Val v n) post (0 :: y0) b [] Hl Hb) as [-> _]. cbn [mbind option_bind]. rewrite E1, E2, E4, E5. cbn [negb andb orb mbind option_bind]. subst old.
    rewrite Z.geb_leb. destruct (Z.leb_spec c v) as [Hle|Hlt]. { exists s. unfold raise. rewrite Hold'. cbn [default from_option id]. rewrite (Z.gtb_ltb c v), (proj2 (Z.ltb_ge _ _)) by lia. cbn [fst snd]. split; [done |]. split; [done | left; by rewrite Hex]. }
    rewrite (raise_new _ i c v Hold') by lia. rewrite Hb in Hrep, Hin. change (zlen [b]) with 1 in Hrep. rewrite orb_false_r. destruct (Z.eqb_spec n 1) as [->|Hn1].
    + refine (Hin [Val c 1] HVc _ y0 eq_refl eq_refl). fold first k. by replace k with 0 by lia.
    + change HLL_SPARSE_VAL_MAX_LEN with 4 in Ho. change HLL_SPARSE_VAL_MAX_VALUE with 32 in Ho. destruct (val_mid_ok v k n c) as (Hmok & Hmex & Hmenc); [lia | lia | lia | lia |]. pose proof (val_mid_length v k n c) as Hml. specialize (Hmenc first). rewrite Hik in Hmenc. rewrite <- Hmenc.
      destruct (_ && (_ >? mx)); [apply Hpromote; lia | apply (Hrep _ Hmok Hmex); lia].
Qed.

(** ** [hllAdd] *)

Lemma add_ok s regs e c i regs' r : hll s regs -> hllPatLen e = Some (c, i) -> 1 <= c <= 50 -> 0 <= i < HLL_REGISTERS -> raise regs i c = (regs', r) ->
  exists s', hllAdd junk mx s e = Some (s', r) /\ hll s' regs'.
Proof using.
  intros Hh Hp Hc Hi Hraise. replace regs' with (raise regs i c).1 by by rewrite Hraise. replace r with (raise regs i c).2 by by rewrite Hraise. clear Hraise. revert Hh Hp Hc Hi.
  intros [Hmg [Hs|[He Hd]]] Hp Hc Hi; unfold hllAdd, hdr_encoding.
  - pose proof Hs as (hdr & os & -> & Hl & _ & He & _). rewrite bget_app_l, He by lia. cbn [mbind option_bind]. change (1 =? HLL_DENSE) with false. change (1 =? HLL_SPARSE) with true. cbn iota. by apply sparse_add_ok.
  - rewrite He. cbn [mbind option_bind]. change (0 =? HLL_DENSE) with true. cbn iota. destruct (dense_add_ok s regs e c i Hd Hp Hc Hi) as (s' & -> & Hd' & Ht). cbn [mbind option_bind].
    exists s'. pose proof (de_size _ _ Hd) as Hz. pose proof (de_size _ _ Hd') as Hz'. rewrite take_app_exact by lia. split.
    + do 2 f_equal. unfold raise. by destruct (c >? _).
    + split; [by rewrite (take4_16 _ _ Ht) | right]. by rewrite (bget_take16 _ _ 4 Ht) by lia.
Qed.

End Add.

Lemma create_ok : exists s, createHLLObject = Some s /\ hll s (replicate (Z.to_nat HLL_REGISTERS) 0).
Proof.
  eexists. split; [reflexivity |]. split; [done | left]. exists (magic ++ 1 :: replicate 11 0), [XZero 16384].
  split; [done |]. split; [done |]. split; [by repeat constructor |]. split; [done |]. split; [by apply Forall_singleton |]. split; [by cbn [expand fmap list_fmap concat runs]; rewrite app_nil_r |]. rewrite length_replicate. by apply Z2Nat.id.
Qed.

(** ** Merging *)

Lemma max_at_ok A b C v : 0 <= v < 256 -> max_at (A ++ b :: C) (zlen A) v = Some (A ++ Z.max b v :: C).
Proof.
  intros Hv. unfold max_at. rewrite bget_mid by done. cbn [mbind option_bind]. rewrite Z.gtb_ltb. destruct (Z.ltb_spec b v).
  - rewrite bset_mid, uwrap_small, Z.max_r by lia. done.
  - by rewrite Z.max_l by lia.
Qed.

Lemma max_run_ok n : forall A B C v, length B = n -> 0 <= v < 256 -> max_run n (A ++ B ++ C) (zlen A) v = Some (A ++ zip_with Z.max B (replicate n v) ++ C).
Proof.
  induction n as [|n IH]; intros A B C v HB Hv; destruct B as [|b B]; try done. injection HB as HB. cbn [max_run app]. rewrite max_at_ok by done. cbn [mbind option_bind].
  rewrite <- zlen_snoc with (b := Z.max b v). replace (A ++ Z.max b v :: B ++ C) with ((A ++ [Z.max b v]) ++ B ++ C) by (rewrite <- app_assoc; done). rewrite IH by done. cbn. by rewrite <- app_assoc.
Qed.

Lemma merge_dense_ok s regs : dense s regs -> forall n A B RA RB, regs = RA ++ RB -> length A = length RA -> length B = n -> length RB = n ->
  merge_dense n (A ++ B) (s ++ [0]) (zlen A) = Some (A ++ zip_with Z.max B RB).
Proof.
  intros Hd. induction n as [|n IH]; intros A B RA RB Hr HA HB HRB; destruct B as [|b B], RB as [|r RB]; try done. injection HB as HB. injection HRB as HRB. cbn [merge_dense].
  assert (Hg : regs !! length A = Some r) by (rewrite Hr, HA; by apply list_lookup_middle). rewrite (de_get _ _ Hd _ _ Hg). cbn [mbind option_bind].
  pose proof (Forall_lookup_1 _ _ _ _ (de_range _ _ Hd) Hg) as Hrr. cbn beta in Hrr. rewrite max_at_ok by lia. cbn [mbind option_bind]. rewrite <- zlen_snoc with (b := Z.max b r).
  replace (A ++ Z.max b r :: B) with ((A ++ [Z.max b r]) ++ B) by (rewrite <- app_assoc; done). rewrite (IH (A ++ [Z.max b r]) B (RA ++ [r]) RB); [cbn; by rewrite <- app_assoc | by rewrite Hr, <- app_assoc | rewrite !length_app, HA; done | done | done].
Qed.

Lemma max_zeros B : bytes_ok B -> zip_with Z.max B (replicate (length B) 0) = B.
Proof. induction 1 as [|b B Hb _ IH]; [done |]. cbn. rewrite IH, Z.max_l by lia. done. Qed.

Lemma merge_sparse_ok os : forall fuel x y A B C, Forall op_ok os -> (length os < fuel)%nat -> bytes_ok B -> length B = length (expand os) -> zlen A + zlen B <= 16384 ->
  merge_sparse fuel (A ++ B ++ C) (x ++ encs os ++ y) (zlen x) (zlen x + zlen (encs os)) (zlen A) = Some (A ++ zip_with Z.max B (expand os) ++ C, zlen A + zlen (expand os)).
Proof.
  induction os as [|o os IH]; intros fuel x y A B C Hok Hf HB Hl Hmax; (destruct fuel as [|fuel]; [cbn in Hf; lia |]).
  { destruct B; [|done]. cbn [merge_sparse]. rewrite (proj2 (Z.ltb_ge _ _)) by (cbn; lia). cbn. by rewrite Z.add_0_r. }
  apply Forall_cons in Hok as [Ho Hok]. pose proof (enc_length o Ho) as Hel. rewrite expand_cons, length_app in Hl. destruct (take_drop_app B (length (runs o))) as (B1 & B2 & -> & HB1); [lia |].
  apply Forall_app in HB as [HBb1 HBb2]. rewrite !length_app in Hl, Hmax. set (R := zip_with Z.max B1 (runs o)). assert (HR : length R = length (runs o)) by (subst R; rewrite length_zip_with; lia).
  assert (Hstep : merge_sparse (S fuel) (A ++ (B1 ++ B2) ++ C) (x ++ encs (o :: os) ++ y) (zlen x) (zlen x + zlen (encs (o :: os))) (zlen A) =
    merge_sparse fuel ((A ++ R) ++ B2 ++ C) ((x ++ enc o) ++ encs os ++ y) (zlen (x ++ enc o)) (zlen (x ++ enc o) + zlen (encs os)) (zlen (A ++ R))).
  { replace ((x ++ enc o) ++ encs os ++ y) with (x ++ encs (o :: os) ++ y) by (rewrite encs_cons, <- !app_assoc; done).
    replace (zlen (x ++ enc o) + zlen (encs os)) with (zlen x + zlen (encs (o :: os))) by (rewrite encs_cons, !length_app; lia).
    replace (zlen (A ++ R)) with (zlen A + zlen (runs o)) by (rewrite length_app; lia). clear HR.
    cbn [merge_sparse]. replace (zlen x <? zlen x + zlen (encs (o :: os))) with true by (symmetry; apply Z.ltb_lt; rewrite encs_cons, length_app; lia).
    rewrite length_app, Nat2Z.inj_add, <- !app_assoc. pose proof (op_seen o Ho) as Hs. destruct o as [n|n|v n]; cbn [seen] in Hs; unfold op_ok in Ho; cbn [runs] in *; rewrite length_replicate, ?Z2Nat.id in * by lia.
    - destruct Hs as (b & He & E2 & E3 & E4 & E5). rewrite encs_cons, He. cbn [app]. rewrite (bget_mid x b _ (zlen x)) by done. cbn [mbind option_bind]. rewrite E2, E5, swrap_small by lia. subst R. rewrite <- HB1, max_zeros by done. done.
    - destruct Hs as (b & b1 & He & E2 & E3 & E4 & E5). rewrite encs_cons, He. cbn [app]. rewrite (bget_mid x b _ (zlen x)) by done. cbn [mbind option_bind]. rewrite E2, E3.
      replace (x ++ b :: b1 :: encs os ++ y) with ((x ++ [b]) ++ b1 :: encs os ++ y) by (rewrite <- app_assoc; done). rewrite bget_mid by len. cbn [mbind option_bind]. rewrite E5, swrap_small by lia. subst R. rewrite <- HB1, max_zeros by done. done.
    - destruct Hs as (b & He & E2 & E3 & E4 & E5 & E6). rewrite encs_cons, He. cbn [app]. rewrite (bget_mid x b _ (zlen x)) by done. cbn [mbind option_bind]. rewrite E2, E3, E5, E6.
      change HLL_SPARSE_VAL_MAX_VALUE with 32 in Ho. rewrite max_run_ok by lia. cbn [mbind option_bind]. rewrite swrap_small by lia. done. }
  rewrite Hstep, (IH fuel (x ++ enc o) y (A ++ R) B2 C Hok); [|cbn in Hf; lia | done | lia | rewrite length_app; lia].
  rewrite expand_cons, zip_with_app by lia. fold R. rewrite <- !app_assoc, !length_app, HR. do 2 f_equal. lia.
Qed.

Lemma merge_max_sparse s regs max : sparse s regs -> bytes_ok max -> zlen max = HLL_REGISTERS -> hllMerge max s = Some (zip_with Z.max max regs, true).
Proof.
  intros (hdr & os & -> & Hl & _ & He & Hos & Hex & Hr) Hm Hml. unfold hllMerge, hdr_encoding. rewrite bget_app_l, He by lia. cbn [mbind option_bind]. change (1 =? HLL_DENSE) with false. cbn iota.
  rewrite <- app_assoc, !length_app, Nat2Z.inj_add. pose proof (length_encs os Hos).
  pose proof (merge_sparse_ok os (S (length hdr + length (encs os))) hdr [0] [] max [] Hos ltac:(lia) Hm) as E. rewrite Hex, !app_nil_r in E. cbn [app] in E. change (zlen []) with 0 in E. rewrite Hl in E. rewrite Hl. change HLL_HDR_SIZE with 16.
  assert (HLL_REGISTERS = 16384) by done. rewrite E; [|lia | lia]. cbn [mbind option_bind]. by rewrite Hr.
Qed.

Lemma merge_max_dense s regs max : bget s 4 = Some 0 -> dense s regs -> zlen max = HLL_REGISTERS -> hllMerge max s = Some (zip_with Z.max max regs, true).
Proof.
  intros He Hd Hml. unfold hllMerge, hdr_encoding. rewrite He. cbn [mbind option_bind]. rewrite (proj2 (Z.eqb_eq 0 HLL_DENSE)) by done. pose proof (de_len _ _ Hd) as Hr.
  assert (HN : Z.of_nat (Z.to_nat HLL_REGISTERS) = HLL_REGISTERS) by (apply Z2Nat.id; lia). revert HN. generalize (Z.to_nat HLL_REGISTERS). intros N HN.
  pose proof (merge_dense_ok s regs Hd N [] max [] regs eq_refl eq_refl ltac:(lia) ltac:(lia)) as E. change (zlen []) with 0 in E. cbn [app] in E. by rewrite E.
Qed.

Lemma merge_max s regs max : hll s regs -> bytes_ok max -> zlen max = HLL_REGISTERS -> hllMerge max s = Some (zip_with Z.max max regs, true).
Proof. intros [_ [Hs|[He Hd]]] Hm Hl; [by apply merge_max_sparse | by apply merge_max_dense]. Qed.

Lemma hll_bytes s regs : hll s regs -> bytes_ok s.
Proof. intros [_ [(hdr & os & -> & _ & Hok & _)|[_ Hd]]]; [apply Forall_app; split; [done | apply encs_ok] | apply (de_ok _ _ Hd)]. Qed.

(** A string has one list of registers. *)
Lemma hll_range s regs : hll s regs -> zlen regs = HLL_REGISTERS /\ bytes_ok regs.
Proof.
  intros [_ [(hdr & os & _ & _ & _ & _ & Hos & <- & Hr)|[_ Hd]]].
  - split; [done |]. eapply Forall_impl; [by apply expand_range |]. cbn beta. lia.
  - split; [apply (de_len _ _ Hd) |]. eapply Forall_impl; [apply (de_range _ _ Hd) |]. cbn beta. lia.
Qed.

Lemma zeros_max regs : bytes_ok regs -> zip_with Z.max (replicate (length regs) 0) regs = regs.
Proof. induction 1 as [|b regs Hb _ IH]; [done |]. cbn. rewrite IH, Z.max_r by lia. done. Qed.

Lemma hll_unique s regs regs' : hll s regs -> hll s regs' -> regs = regs'.
Proof.
  intros H H'. destruct (hll_range _ _ H) as [Hl Hb]. destruct (hll_range _ _ H') as [Hl' Hb']. assert (Hll : length regs' = length regs) by lia.
  assert (Hz : bytes_ok (replicate (length regs) 0)) by (apply Forall_replicate; lia). pose proof (merge_max s regs _ H Hz) as E. pose proof (merge_max s regs' _ H' Hz) as E'. rewrite length_replicate in E, E'.
  rewrite E' in E by done. specialize (E Hl). injection E as E. rewrite <- Hll in E at 1. rewrite !zeros_max in E by done. done.
Qed.

(** ** Sequences of insertions *)

(** What an element asks of register [i]: its count if it belongs there. *)
Definition hit (e : list Z) (i : Z) : Z := match hllPatLen e with Some (c, j) => if j =? i then c else 0 | None => 0 end.

Definition register (es : list (list Z)) (i : Z) : Z := foldl (fun r e => Z.max r (hit e i)) 0 es.
Definition registers (es : list (list Z)) : list Z := register es <$> seqZ 0 HLL_REGISTERS.

(** 1 when [e] raises its register above that of [es]. *)
Definition changes (es : list (list Z)) (e : list Z) : Z := match hllPatLen e with Some (c, j) => if c >? register es j then 1 else 0 | None => 0 end.

Fixpoint answers (seen es : list (list Z)) : list Z := match es with [] => [] | e :: es => changes seen e :: answers (seen ++ [e]) es end.

Fixpoint add_all (junk : nat -> Z) (mx : Z) (s : list Z) (es : list (list Z)) : option (list Z * list Z) :=
  match es with
  | [] => Some (s, [])
  | e :: es => '(s, r) ← hllAdd junk mx s e; '(s, rs) ← add_all junk mx s es; Some (s, r :: rs)
  end.

Lemma register_snoc es e i : register (es ++ [e]) i = Z.max (register es i) (hit e i).
Proof. unfold register. by rewrite foldl_app. Qed.

Lemma registers_at es j : registers es !! j = if Z.of_nat j <? HLL_REGISTERS then Some (register es (Z.of_nat j)) else None.
Proof.
  unfold registers. rewrite list_lookup_fmap. generalize HLL_REGISTERS. intros N. destruct (Z.ltb_spec (Z.of_nat j) N).
  - rewrite lookup_seqZ_lt by lia. cbn. by rewrite Z.add_0_l.
  - by rewrite lookup_seqZ_ge by lia.
Qed.

Lemma registers_lookup es i : 0 <= i < HLL_REGISTERS -> registers es !! Z.to_nat i = Some (register es i).
Proof. intros Hi. rewrite registers_at, Z2Nat.id by lia. by rewrite (proj2 (Z.ltb_lt _ _)) by lia. Qed.

Lemma registers_nil : registers [] = replicate (Z.to_nat HLL_REGISTERS) 0.
Proof. unfold registers. generalize HLL_REGISTERS. intros N. change (register []) with (fun _ : Z => 0). rewrite (const_fmap _ _ 0) by done. by rewrite length_seqZ. Qed.

Lemma register_pos es i : 0 <= register es i.
Proof. induction es as [|e es IH] using rev_ind; [done |]. rewrite register_snoc. lia. Qed.

Lemma registers_insert es e c i : hllPatLen e = Some (c, i) -> 0 <= i < HLL_REGISTERS -> <[Z.to_nat i := Z.max (register es i) c]> (registers es) = registers (es ++ [e]).
Proof.
  intros Hp Hi. apply list_eq. intros j. destruct (decide (j = Z.to_nat i)) as [->|Hne].
  - rewrite list_lookup_insert_eq by (eapply lookup_lt_Some, registers_lookup, Hi). rewrite registers_lookup, register_snoc by done. unfold hit. by rewrite Hp, Z.eqb_refl.
  - rewrite list_lookup_insert_ne, !registers_at by done. destruct (Z.ltb_spec (Z.of_nat j) HLL_REGISTERS); [|done]. rewrite register_snoc. unfold hit. rewrite Hp, (proj2 (Z.eqb_neq _ _)) by lia.
    by rewrite Z.max_l by apply register_pos.
Qed.

Lemma raise_registers es e c i : hllPatLen e = Some (c, i) -> 0 <= i < HLL_REGISTERS -> raise (registers es) i c = (registers (es ++ [e]), changes es e).
Proof.
  intros Hp Hi. unfold raise, changes. rewrite <- (registers_insert es e c i Hp Hi), Hp, registers_lookup by done. cbn [default from_option id]. rewrite Z.gtb_ltb. destruct (Z.ltb_spec (register es i) c).
  - by rewrite Z.max_r by lia.
  - by rewrite Z.max_l, list_insert_id by (lia || by apply registers_lookup).
Qed.

Lemma add_all_ok junk mx es : forall seen s, Forall ele_ok es -> hll s (registers seen) -> exists s', add_all junk mx s es = Some (s', answers seen es) /\ hll s' (registers (seen ++ es)).
Proof.
  induction es as [|e es IH]; intros seen s Hes Hs; [exists s; by rewrite app_nil_r |]. apply Forall_cons in Hes as [He Hes]. destruct (pat_ok e He) as (c & i & Hp & Hc & Hi).
  destruct (add_ok junk mx s _ e c i _ _ Hs Hp Hc Hi (raise_registers seen e c i Hp Hi)) as (s1 & E & Hs1). cbn [add_all answers]. rewrite E. cbn [mbind option_bind].
  destruct (IH (seen ++ [e]) s1 Hes Hs1) as (s' & -> & Hs'). cbn [mbind option_bind]. exists s'. split; [done |]. by rewrite <- app_assoc in Hs'.
Qed.

(** C9. Whatever [hll_sparse_max_bytes] allows - the registers may stay in the
    opcodes of the sparse encoding, be split and merged there, or move to the
    packed dense one at any insertion - every sequence of insertions into a new
    HyperLogLog succeeds without an access outside the string and its
    terminator or a failed assertion.  An insertion reports 1 exactly when the
    pattern of the element is longer than those of all elements before it in
    its register, and the string then holds, as [hllMerge] reads it into any
    array, the longest pattern of each of the 16384 registers: a function of
    the set of the elements, whatever their order and number. *)
Theorem hll_registers junk mx es max : Forall ele_ok es -> bytes_ok max -> zlen max = HLL_REGISTERS ->
  exists s0 s, createHLLObject = Some s0 /\ add_all junk mx s0 es = Some (s, answers [] es) /\ hllMerge max s = Some (zip_with Z.max max (registers es), true).
Proof.
  intros Hes Hm Hl. destruct create_ok as (s0 & Hc & Hs0). rewrite <- registers_nil in Hs0. destruct (add_all_ok junk mx es [] s0 Hes Hs0) as (s & Ha & Hs).
  exists s0, s. split; [done |]. split; [done |]. by apply merge_max.
Qed.

(** Three elements, into an array of ones. *)
Lemma hll_registers_witness : exists s0 s, createHLLObject = Some s0 /\ add_all (fun _ => 170) 3000 s0 [[97]; [98]; [97]] = Some (s, answers [] [[97]; [98]; [97]]) /\
  hllMerge (replicate (Z.to_nat HLL_REGISTERS) 1) s = Some (zip_with Z.max (replicate (Z.to_nat HLL_REGISTERS) 1) (registers [[97]; [98]; [97]]), true).
Proof.
  apply hll_registers; [by repeat constructor | apply Forall_replicate; lia | rewrite length_replicate; apply Z2Nat.id; vm_compute; discriminate].
Defined.

Example answers_three : answers [] [[97]; [98]; [97]] = [1; 1; 0].
Proof. by vm_compute. Qed.

End HllProps.
