(* ===== verification/HllLimits.v ===== *)
(** * HyperLogLog: sparse strings that cover the wrong number of registers

    The opcodes of a sparse string may stand for any number of registers: SET
    stores any bytes, and only the header is checked.  [hllMerge] and
    [hllSparseToDense] compare the number with 16384 after their loops, whose
    writes are not checked.  Here both are characterised for all sequences of
    opcodes. *)

From S2P Require Import Prelude Bytes Bits Hll HllDense HllSparse HllProps.
Import Hll HllDense HllSparse HllProps.

Module HllLimits.

(** The registers an opcode stands for, and the first register no opcode with a
    value reaches. *)
Definition width (o : op) : Z := match o with Zero n | XZero n | Val _ n => n end.

Fixpoint top (i : Z) (os : list op) : Z :=
  match os with
  | [] => 0
  | o :: os => Z.max (match o with Val _ _ => i + width o | _ => 0 end) (top (i + width o) os)
  end.

(** The value the opcodes give register [r], the first one being [i]. *)
Definition reg_at (i : Z) (vs : list Z) (r : nat) : Z := if Z.of_nat r <? i then 0 else default 0 (vs !! (r - Z.to_nat i)%nat).

Lemma width_runs o : op_ok o -> zlen (runs o) = width o.
Proof. destruct o; cbn [op_ok runs width]; rewrite length_replicate; lia. Qed.

Lemma width_pos o : op_ok o -> 1 <= width o.
Proof. destruct o; cbn [op_ok width]; lia. Qed.

(** ** One opcode *)

Section Step.
Context (x y : list Z) (o : op) (os : list op) (Ho : op_ok o).

Abbreviation here := (x ++ encs (o :: os) ++ y).
Abbreviation last := (zlen x + zlen (encs (o :: os))).
Abbreviation next := (zlen (x ++ enc o)).

Lemma more_opcodes : (zlen x <? last) = true.
Proof. apply Z.ltb_lt. pose proof (enc_length o Ho). rewrite encs_cons, length_app. lia. Qed.

Lemma dense_step fuel d i :
  dense_loop (S fuel) here (zlen x) last d i =
    d ← (match o with Val v n => set_run (Z.to_nat n) d HLL_HDR_SIZE i v | _ => Some d end); dense_loop fuel here next last d (s32 (i + width o)).
Proof.
  cbn [dense_loop]. rewrite more_opcodes, length_app, Nat2Z.inj_add. pose proof (op_seen o Ho) as Hs. destruct o as [n|n|v n]; cbn [seen] in Hs; cbn [width].
  - destruct Hs as (b & He & E1 & E2 & E3 & E4). rewrite encs_cons, He. cbn [app]. rewrite (bget_mid x b _ (zlen x)) by done. cbn [mbind option_bind]. by rewrite E1, E4.
  - destruct Hs as (b & b1 & He & E1 & E2 & E3 & E4). rewrite encs_cons, He. cbn [app]. rewrite (bget_mid x b _ (zlen x)) by done. cbn [mbind option_bind]. rewrite E1, E2.
    replace (x ++ b :: b1 :: encs os ++ y) with ((x ++ [b]) ++ b1 :: encs os ++ y) by (rewrite <- app_assoc; done). rewrite bget_mid by len. cbn [mbind option_bind]. by rewrite E4.
  - destruct Hs as (b & He & E1 & E2 & E3 & E4 & E5). rewrite encs_cons, He. cbn [app]. rewrite (bget_mid x b _ (zlen x)) by done. cbn [mbind option_bind]. by rewrite E1, E2, E4, E5.
Qed.

Lemma merge_step fuel max i :
  merge_sparse (S fuel) max here (zlen x) last i =
    max ← (match o with Val v n => max_run (Z.to_nat n) max i v | _ => Some max end); merge_sparse fuel max here next last (s32 (i + width o)).
Proof.
  cbn [merge_sparse]. rewrite more_opcodes, length_app, Nat2Z.inj_add. pose proof (op_seen o Ho) as Hs. destruct o as [n|n|v n]; cbn [seen] in Hs; cbn [width].
  - destruct Hs as (b & He & E1 & E2 & E3 & E4). rewrite encs_cons, He. cbn [app]. rewrite (bget_mid x b _ (zlen x)) by done. cbn [mbind option_bind]. by rewrite E1, E4.
  - destruct Hs as (b & b1 & He & E1 & E2 & E3 & E4). rewrite encs_cons, He. cbn [app]. rewrite (bget_mid x b _ (zlen x)) by done. cbn [mbind option_bind]. rewrite E1, E2.
    replace (x ++ b :: b1 :: encs os ++ y) with ((x ++ [b]) ++ b1 :: encs os ++ y) by (rewrite <- app_assoc; done). rewrite bget_mid by len. cbn [mbind option_bind]. by rewrite E4.
  - destruct Hs as (b & He & E1 & E2 & E3 & E4 & E5). rewrite encs_cons, He. cbn [app]. rewrite (bget_mid x b _ (zlen x)) by done. cbn [mbind option_bind]. by rewrite E1, E2, E4, E5.
Qed.

(** The loop goes on with the rest of the opcodes. *)
Lemma here_next : here = (x ++ enc o) ++ encs os ++ y /\ last = next + zlen (encs os).
Proof. rewrite encs_cons, <- !app_assoc, !length_app. split; [done | lia]. Qed.

End Step.

(** ** Merging *)

Definition raised (i : Z) (vs max : list Z) : list Z := imap (fun r b => Z.max b (reg_at i vs r)) max.

Lemma length_raised i vs max : length (raised i vs max) = length max.
Proof. apply length_imap. Qed.

Lemma raised_nonneg i vs max : Forall (fun b => 0 <= b) max -> Forall (fun b => 0 <= b) (raised i vs max).
Proof. intros H. apply Forall_lookup. intros r b. unfold raised. rewrite list_lookup_imap. destruct (max !! r) as [b0|] eqn:E; [|done]. intros [= <-]. pose proof (Forall_lookup_1 _ _ _ _ H E). cbn in *. lia. Qed.

Lemma raised_zeros i n max : Forall (fun b => 0 <= b) max -> raised i (replicate n 0) max = max.
Proof.
  intros H. apply list_eq. intros r. unfold raised. rewrite list_lookup_imap. destruct (max !! r) as [b|] eqn:E; [|done]. cbn. f_equal. pose proof (Forall_lookup_1 _ _ _ _ H E) as Hb. cbn in Hb.
  unfold reg_at. destruct (_ <? _); [lia |]. destruct (replicate n 0 !! _) as [z|] eqn:Ez; [apply lookup_replicate in Ez as [-> _] |]; cbn; lia.
Qed.

Lemma raised_app i vs ws max : 0 <= i -> Forall (fun b => 0 <= b) max -> Forall (fun v => 0 <= v) vs -> raised (i + zlen vs) ws (raised i vs max) = raised i (vs ++ ws) max.
Proof.
  intros Hi H Hv. apply list_eq. intros r. unfold raised. rewrite !list_lookup_imap. destruct (max !! r) as [b|] eqn:E; [|done]. cbn. f_equal. pose proof (Forall_lookup_1 _ _ _ _ H E) as Hb. cbn in Hb.
  unfold reg_at. destruct (Z.ltb_spec (Z.of_nat r) i); [rewrite (proj2 (Z.ltb_lt _ _)) by lia; lia |]. destruct (Z.ltb_spec (Z.of_nat r) (i + zlen vs)).
  - rewrite lookup_app_l by lia. destruct (vs !! _) as [z|] eqn:Ez; cbn; [pose proof (Forall_lookup_1 _ _ _ _ Hv Ez) as Hz; cbn in Hz |]; lia.
  - rewrite (lookup_ge_None_2 vs), lookup_app_r by lia. replace (r - Z.to_nat i - length vs)%nat with (r - Z.to_nat (i + zlen vs))%nat by lia. cbn. lia.
Qed.

Lemma max_at_any max i v : 0 <= i -> 0 <= v < 256 -> Forall (fun b => 0 <= b) max ->
  max_at max i v = if i <? zlen max then Some (raised i [v] max) else None.
Proof.
  intros Hi Hv H. destruct (Z.ltb_spec i (zlen max)) as [Hlt|Hge].
  - destruct (lookup_lt_is_Some_2 max (Z.to_nat i)) as [b Hb]; [lia |]. pose proof (take_drop_middle _ _ _ Hb) as Hm. set (A := take _ max) in *. set (C := drop _ max) in *.
    assert (HA : zlen A = i) by (subst A; rewrite length_take; lia). rewrite <- Hm at 1. rewrite <- HA at 1. rewrite max_at_ok by done. f_equal. apply list_eq. intros r. unfold raised. rewrite list_lookup_imap.
    rewrite <- Hm. unfold reg_at. destruct (Nat.lt_trichotomy r (length A)) as [Hr|[Hr|Hr]].
    + rewrite !lookup_app_l by done. destruct (A !! r) as [a|] eqn:Ea; [|done]. cbn. rewrite (proj2 (Z.ltb_lt _ _)) by lia. f_equal.
      assert (Ha : max !! r = Some a) by (rewrite <- Hm, lookup_app_l; done). pose proof (Forall_lookup_1 _ _ _ _ H Ha) as H0. cbn in H0. lia.
    + subst r. rewrite !list_lookup_middle by done. cbn. rewrite (proj2 (Z.ltb_ge _ _)) by lia. replace (length A - Z.to_nat i)%nat with O by lia. done.
    + rewrite !lookup_app_r, !lookup_cons_ne_0 by lia. destruct (C !! _) as [a|] eqn:Ea; [|done]. cbn. rewrite (proj2 (Z.ltb_ge _ _)) by lia. rewrite lookup_nil. cbn. f_equal.
      assert (Ha : max !! r = Some a) by (rewrite <- Hm, lookup_app_r, lookup_cons_ne_0 by lia; done). pose proof (Forall_lookup_1 _ _ _ _ H Ha) as H0. cbn in H0. lia.
  - unfold max_at, bget. rewrite (proj2 (Z.leb_le _ _)) by lia. by rewrite lookup_ge_None_2 by lia.
Qed.

Lemma max_run_any n : forall max i v, 0 <= i -> 0 <= v < 256 -> Forall (fun b => 0 <= b) max -> (0 < n)%nat ->
  max_run n max i v = if i + Z.of_nat n <=? zlen max then Some (raised i (replicate n v) max) else None.
Proof.
  induction n as [|n IH]; intros max i v Hi Hv H Hn; [lia |]. cbn [max_run]. rewrite max_at_any by done. destruct (Z.ltb_spec i (zlen max)); cbn [mbind option_bind]; [|by rewrite (proj2 (Z.leb_gt _ _)) by lia].
  destruct n as [|n]; [cbn [max_run]; by rewrite (proj2 (Z.leb_le _ _)) by lia |]. rewrite IH, length_raised by (lia || done || by apply raised_nonneg).
  replace (i + 1 + Z.of_nat (S n)) with (i + Z.of_nat (S (S n))) by lia. destruct (_ <=? _); [|done]. f_equal. change (i + 1) with (i + zlen [v]). rewrite raised_app by first [done | repeat constructor; lia]. done.
Qed.

Lemma merge_any os : forall fuel x y max i, Forall op_ok os -> (length os < fuel)%nat -> Forall (fun b => 0 <= b) max -> zlen max = 16384 -> 0 <= i -> i + zlen (expand os) < 2 ^ 31 ->
  merge_sparse fuel max (x ++ encs os ++ y) (zlen x) (zlen x + zlen (encs os)) i =
    if top i os <=? 16384 then Some (raised i (expand os) max, i + zlen (expand os)) else None.
Proof.
  induction os as [|o os IH]; intros fuel x y max i Hok Hf Hm Hl Hi Hw; (destruct fuel as [|fuel]; [cbn in Hf; lia |]).
  { cbn [merge_sparse top]. rewrite (proj2 (Z.ltb_ge _ _)) by (cbn; lia). change (expand []) with (replicate 0 0). rewrite raised_zeros by done. cbn. by rewrite Z.add_0_r. }
  apply Forall_cons in Hok as [Ho Hok]. pose proof (width_runs o Ho) as Hwr. pose proof (width_pos o Ho) as Hwp. rewrite expand_cons, length_app in Hw. rewrite merge_step by done.
  rewrite (swrap_small 32) by lia. destruct (here_next x y o os) as [-> ->]. cbn [top].
  assert (Hrun : match o with Val v n => max_run (Z.to_nat n) max i v | _ => Some max end = if (match o with Val _ _ => i + width o | _ => 0 end) <=? 16384 then Some (raised i (runs o) max) else None).
  { destruct o as [n|n|v n]; cbn [runs width op_ok] in *; [by rewrite raised_zeros | by rewrite raised_zeros |]. change HLL_SPARSE_VAL_MAX_VALUE with 32 in Ho. rewrite max_run_any, Z2Nat.id by (lia || done). by rewrite Hl. }
  rewrite Hrun. destruct (Z.leb_spec (match o with Val _ _ => i + width o | _ => 0 end) 16384) as [Ht|Ht]; cbn [mbind option_bind].
  - rewrite IH; [|done | cbn in Hf; lia | by apply raised_nonneg | by rewrite length_raised | lia | lia].
    destruct (Z.leb_spec (top (i + width o) os) 16384); [rewrite (proj2 (Z.leb_le _ _)) by lia | by rewrite (proj2 (Z.leb_gt _ _)) by lia].
    rewrite expand_cons, length_app, <- Hwr, raised_app; [do 2 f_equal; lia | done | done |]. eapply Forall_impl; [by apply runs_range |]. cbn. lia.
  - by rewrite (proj2 (Z.leb_gt _ _)) by lia.
Qed.

(** ** Converting *)

(** A register past the last one lies outside the string. *)
Lemma set_register_outside s i v : zlen s = HLL_DENSE_SIZE -> 16384 <= i -> HLL_DENSE_SET_REGISTER (s ++ [0]) HLL_HDR_SIZE i v = None.
Proof.
  intros Hs Hi. assert (Hlen : forall m m' j b, bset m j b = Some m' -> length m' = length m) by (intros m m' j b; unfold bset; destruct (_ && _); [intros [= <-]; apply length_insert | done]).
  assert (Hbyte : 12288 <= i * HLL_BITS / 8) by (change HLL_BITS with 6; Z.div_mod_to_equations; lia). unfold HLL_DENSE_SET_REGISTER. set (byte := i * HLL_BITS / 8) in *.
  destruct (bget _ _); [|done]. cbn [mbind option_bind]. destruct (bset _ _ _) as [m1|] eqn:E1; [|done]. cbn [mbind option_bind]. destruct (bget m1 _); [|done]. cbn [mbind option_bind].
  destruct (bset m1 _ _) as [m2|] eqn:E2; [|done]. cbn [mbind option_bind]. apply Hlen in E1, E2. unfold bget. change HLL_HDR_SIZE with 16. change HLL_DENSE_SIZE with 12304 in Hs.
  rewrite (proj2 (Z.leb_le _ _)) by lia. rewrite lookup_ge_None_2; [done |]. rewrite E2, E1, length_app. cbn [length]. lia.
Qed.

Lemma set_run_any n : forall s regs i v, dense s regs -> 0 <= i -> 0 <= v < 64 -> (0 < n)%nat ->
  match set_run n (s ++ [0]) HLL_HDR_SIZE i v with
  | Some d => i + Z.of_nat n <= 16384 /\ exists s' regs', d = s' ++ [0] /\ dense s' regs'
  | None => 16384 < i + Z.of_nat n
  end.
Proof.
  induction n as [|n IH]; intros s regs i v Hd Hi Hv Hn; [lia |]. cbn [set_run]. destruct (Z.lt_ge_cases i 16384) as [Hlt|Hge].
  - destruct (dense_set s regs i v Hd) as (s1 & -> & Hd1 & _); [change HLL_REGISTERS with 16384; lia | done |]. cbn [mbind option_bind].
    destruct n as [|n]; [cbn [set_run]; split; [lia | by eexists _, _] |]. specialize (IH s1 _ (i + 1) v Hd1 ltac:(lia) Hv ltac:(lia)).
    destruct (set_run (S n) _ _ _ _); [destruct IH as [IH ?]; split; [lia | done] | lia].
  - rewrite set_register_outside by (done || by eapply de_size). cbn. lia.
Qed.

Lemma dense_any os : forall fuel x y s regs i, Forall op_ok os -> (length os < fuel)%nat -> dense s regs -> 0 <= i -> i + zlen (expand os) < 2 ^ 31 ->
  match dense_loop fuel (x ++ encs os ++ y) (zlen x) (zlen x + zlen (encs os)) (s ++ [0]) i with
  | Some (_, j) => top i os <= 16384 /\ j = i + zlen (expand os)
  | None => 16384 < top i os
  end.
Proof.
  induction os as [|o os IH]; intros fuel x y s regs i Hok Hf Hd Hi Hw; (destruct fuel as [|fuel]; [cbn in Hf; lia |]).
  { cbn [dense_loop top]. rewrite (proj2 (Z.ltb_ge _ _)) by (cbn; lia). cbn. lia. }
  apply Forall_cons in Hok as [Ho Hok]. pose proof (width_runs o Ho) as Hwr. pose proof (width_pos o Ho) as Hwp. rewrite expand_cons, length_app in *. rewrite dense_step by done.
  rewrite (swrap_small 32) by lia. destruct (here_next x y o os) as [-> ->]. cbn [top].
  assert (Hrun : match (match o with Val v n => set_run (Z.to_nat n) (s ++ [0]) HLL_HDR_SIZE i v | _ => Some (s ++ [0]) end) with
    | Some d => (match o with Val _ _ => i + width o | _ => 0 end) <= 16384 /\ exists s' regs', d = s' ++ [0] /\ dense s' regs'
    | None => 16384 < (match o with Val _ _ => i + width o | _ => 0 end) end).
  { destruct o as [n|n|v n]; cbn [width op_ok] in *; [split; [lia | by eexists _, _]..|]. change HLL_SPARSE_VAL_MAX_VALUE with 32 in Ho.
    pose proof (set_run_any (Z.to_nat n) s regs i v Hd Hi ltac:(lia) ltac:(lia)) as Hr. by rewrite Z2Nat.id in Hr by lia. }
  destruct (match o with Val v n => set_run _ _ _ _ _ | _ => _ end) as [d|]; cbn [mbind option_bind]; [|lia]. destruct Hrun as [Ht (s' & regs' & -> & Hd')].
  specialize (IH fuel (x ++ enc o) y s' regs' (i + width o) Hok ltac:(cbn in Hf; lia) Hd' ltac:(lia) ltac:(lia)).
  destruct (dense_loop _ _ _ _ _ _) as [[? j]|]; [destruct IH as [? ->]; split; lia | lia].
Qed.

(** The conversion up to its loop: a dense string of zeros with the old header. *)
Lemma dense_prefix hdr os : zlen hdr = 16 -> bytes_ok hdr -> bget hdr 4 = Some 1 ->
  exists s regs, dense s regs /\ hllSparseToDense (hdr ++ encs os) =
    '(dense, idx) ← dense_loop (S (length (hdr ++ encs os))) (hdr ++ encs os ++ [0]) (zlen hdr) (zlen hdr + zlen (encs os)) (s ++ [0]) 0;
    if negb (idx =? HLL_REGISTERS) then Some None else Some (Some (take (Z.to_nat HLL_DENSE_SIZE) dense)).
Proof.
  intros Hl Hok He. unfold hllSparseToDense, hdr_encoding. rewrite bget_app_l, He by lia. cbn [mbind option_bind]. change (1 =? HLL_DENSE) with false. cbn iota.
  rewrite bread_start by done. cbn [mbind option_bind]. assert (HZ : replicate (Z.to_nat HLL_DENSE_SIZE) 0 = replicate 16 0 ++ replicate (Z.to_nat (HLL_DENSE_SIZE - 16)) 0) by (rewrite <- replicate_add; f_equal; change HLL_DENSE_SIZE with 12304; lia).
  rewrite HZ, <- (app_assoc (replicate 16 0)), bwrite_start by (rewrite length_replicate; lia). cbn [mbind option_bind].
  destruct (set_encoding hdr HLL_DENSE Hl Hok) as (hdr' & -> & Hl' & Hok' & _). cbn [mbind option_bind]. eexists _, _. split; [exact (zero_dense hdr' Hl' Hok') |].
  rewrite (app_assoc hdr'), <- (app_assoc hdr), !length_app, Nat2Z.inj_add. change HLL_HDR_SIZE with 16. by rewrite Hl.
Qed.

(** C35. A sparse string is checked too late.  For any header with the sparse
    encoding and any opcodes, [hllMerge] into an array of 16384 registers returns
    exactly when no opcode with a value reaches past the last register: it then
    raises each register to the value the opcodes give it and reports whether they
    cover 16384 registers.  Otherwise it leaves the array, and the conversion
    [hllSparseToDense] behaves the same: it returns the dense registers, or the
    error for a wrong number of registers, unless a value opcode reaches past the
    last register, and then writes outside the dense string.  (The opcodes cover
    fewer than 2^31 registers, so that the index does not overflow.) *)
Theorem sparse_checked_late hdr os max : zlen hdr = 16 -> bytes_ok hdr -> bget hdr 4 = Some 1 -> Forall op_ok os -> zlen (expand os) < 2 ^ 31 ->
  bytes_ok max -> zlen max = HLL_REGISTERS ->
  hllMerge max (hdr ++ encs os) =
    (if top 0 os <=? HLL_REGISTERS then Some (imap (fun r b => Z.max b (default 0 (expand os !! r))) max, zlen (expand os) =? HLL_REGISTERS) else None) /\
  match hllSparseToDense (hdr ++ encs os) with
  | Some (Some d) => zlen (expand os) = HLL_REGISTERS /\ dense d (expand os)
  | Some None => top 0 os <= HLL_REGISTERS /\ zlen (expand os) <> HLL_REGISTERS
  | None => HLL_REGISTERS < top 0 os
  end.
Proof.
  intros Hl Hok He Hos Hw Hmax Hml. assert (HR : HLL_REGISTERS = 16384) by done. rewrite HR in *. split.
  - unfold hllMerge, hdr_encoding. rewrite bget_app_l, He by lia. cbn [mbind option_bind]. change (1 =? HLL_DENSE) with false. cbn iota.
    rewrite <- app_assoc, !length_app, Nat2Z.inj_add, HR. change HLL_HDR_SIZE with 16. rewrite <- Hl.
    rewrite merge_any; [|done | pose proof (length_encs os Hos); lia | eapply Forall_impl; [exact Hmax |]; cbn; lia | done | lia | lia].
    destruct (_ <=? _); [|done]. cbn [mbind option_bind]. rewrite Z.add_0_l. do 3 f_equal. unfold raised. apply imap_ext. intros r b _. unfold reg_at. rewrite (proj2 (Z.ltb_ge _ _)) by lia. by rewrite Nat.sub_0_r.
  - destruct (decide (zlen (expand os) = 16384)) as [Hex|Hex].
    { destruct (to_dense_ok (hdr ++ encs os) (expand os)) as (d & -> & Hd & _); [by exists hdr, os; rewrite HR |]. by split. }
    destruct (dense_prefix hdr os Hl Hok He) as (s & regs & Hd & ->).
    pose proof (dense_any os (S (length (hdr ++ encs os))) hdr [0] s regs 0 Hos ltac:(pose proof (length_encs os Hos); rewrite length_app; lia) Hd ltac:(lia) ltac:(lia)) as Hany.
    destruct (dense_loop _ _ _ _ _ _) as [[d' j]|]; [|done]. destruct Hany as [Ht ->]. cbn [mbind option_bind]. rewrite Z.add_0_l, HR, (proj2 (Z.eqb_neq _ _)) by done. by split.
Qed.

(** A value right behind 16384 zeros. *)
Definition bad_hdr : list Z := magic ++ 1 :: replicate 11 0.
Definition bad_ops : list op := [XZero 16384; Val 1 1].

Lemma sparse_checked_late_witness :
  hllMerge (replicate (Z.to_nat HLL_REGISTERS) 0) (bad_hdr ++ encs bad_ops) = None /\
  match hllSparseToDense (bad_hdr ++ encs bad_ops) with None => HLL_REGISTERS < top 0 bad_ops | Some _ => False end.
Proof.
  assert (Hw : zlen (expand bad_ops) = 16385) by (vm_compute; reflexivity).
  destruct (sparse_checked_late bad_hdr bad_ops (replicate (Z.to_nat HLL_REGISTERS) 0)) as [H1 H2].
  - reflexivity.
  - repeat constructor; lia.
  - reflexivity.
  - apply Forall_cons. split; [by vm_compute |]. apply Forall_cons. split; [by vm_compute | constructor].
  - lia.
  - apply Forall_replicate. lia.
  - rewrite length_replicate. reflexivity.
  - split; [exact H1 |]. change HLL_REGISTERS with 16384 in *. destruct (hllSparseToDense _) as [[d |] |]; [destruct H2; lia | destruct H2 as [H2 _]; vm_compute in H2; by destruct H2 | exact H2].
Defined.

End HllLimits.
