(* ===== verification/SetType.v ===== *)
(** * Set values (vr_t_set.c, vr_server.c): the code

    A set is an integer set while its members are integers and few, and a hash
    table of string objects otherwise.  The file models the operations the set
    commands are written with: creation, insertion with the conversion of the
    encoding, removal with the shrinking of a sparse table, membership, size,
    iteration and the choice of a random member. *)

From S2P Require Import Prelude Bytes NumConv Object Intset Dict DictInv DictIter ObjDict.
Import NumConv Object Intset Dict DictIter ObjDict.

Module SetType.

(** The encodings [OBJ_ENCODING_INTSET] and [OBJ_ENCODING_HT]. *)
Inductive setobj :=
  | SetInt (ptr : intset)
  | SetHT (ptr : dict elem unit).

Definition HASHTABLE_MIN_FILL : Z := 10.

Definition htNeedsResize {K V} (d : dict K V) : bool :=
  let size := s64 (dictSlots d) in
  let used := s64 (dictSize d) in
  negb (size =? 0) && negb (used =? 0) && (size >? DICT_HT_INITIAL_SIZE) &&
  (Z.quot (s64 (used * 100)) size <? HASHTABLE_MIN_FILL).

(** The entry [dictNext] and [setTypeNext] deliver: an object or an integer. *)
Inductive element := EObj (o : robj) | EInt (z : Z).

Inductive setTypeIterator :=
  | SiHT (di : dictIterator elem unit)
  | SiInt (ii : Z).

Section Code.
(** The bytes of fresh memory, the seed of the hash function, the static
    [dict_can_resize], [server.set_max_intset_entries] and the addresses of the
    two tables of the dictionary iterated over. *)
Context (junk : nat -> Z) (seed : Z) (can_resize : bool) (set_max_intset_entries : Z) (a0 a1 : Z).

#[local] Instance setDictType : DictType elem unit := objDictType seed unit.

(** [None] where the argument is no string object. *)
Definition setTypeCreate (value : robj) : option setobj :=
  r ← isObjectRepresentableAsLongLong value;
  match r with
  | Some _ => Some (SetInt intsetNew)
  | None => Some (SetHT dictCreate)
  end.

Definition setTypeInitIterator (subject : setobj) : setTypeIterator :=
  match subject with
  | SetHT _ => SiHT dictGetIterator
  | SetInt _ => SiInt 0
  end.

(** The subject, the iterator and the element, [None] for the return value -1. *)
Definition setTypeNext (subject : setobj) (si : setTypeIterator) : option (setobj * setTypeIterator * option element) :=
  match si, subject with
  | SiHT di, SetHT d =>
      '(d, di, de) ← dictNext a0 a1 d di;
      Some (SetHT d, SiHT di, option_map (fun de => EObj (proj1_sig (key de))) de)
  | SiInt ii, SetInt st =>
      r ← intsetGet st (u32 ii);
      Some (SetInt st, SiInt (s32 (ii + 1)), option_map EInt r)
  | _, _ => None
  end.

Definition setTypeNextObject (subject : setobj) (si : setTypeIterator) : option (setobj * setTypeIterator * option robj) :=
  '(subject, si, e) ← setTypeNext subject si;
  Some (subject, si, option_map (fun e => match e with EInt z => createStringObjectFromLongLong z | EObj o => o end) e).

Definition setTypeReleaseIterator (subject : setobj) (si : setTypeIterator) : option setobj :=
  match si, subject with
  | SiHT di, SetHT d => d ← dictReleaseIterator a0 a1 d di; Some (SetHT d)
  | SiInt _, _ => Some subject
  | _, _ => None
  end.

(** The loop of [setTypeConvert]: every integer becomes an object of [d]. *)
Fixpoint convert_loop (fuel : nat) (subject : setobj) (si : setTypeIterator) (d : dict elem unit) : option (dict elem unit) :=
  match fuel with
  | O => None
  | S fuel =>
      '(subject, si, e) ← setTypeNext subject si;
      match e with
      | None => Some d
      | Some (EInt intele) =>
          element ← to_elem (createStringObjectFromLongLong intele);
          '(d, st) ← dictAdd can_resize d element tt;
          if st =? DICT_OK then convert_loop fuel subject si d else None
      | Some (EObj _) => None
      end
  end.

(** To [OBJ_ENCODING_HT], the only target the code supports. *)
Definition setTypeConvert (setobj : setobj) : option SetType.setobj :=
  match setobj with
  | SetHT _ => None
  | SetInt st =>
      '(d, _) ← dictExpand dictCreate (intsetLen st);
      d ← convert_loop (S (Z.to_nat (intsetLen st))) setobj (setTypeInitIterator setobj) d;
      Some (SetHT d)
  end.

(** The set and the return value. *)
Definition setTypeAdd (subject : setobj) (value : robj) : option (setobj * Z) :=
  match subject with
  | SetHT d =>
      obj ← dupStringObjectUnconstant value;
      obj ← to_elem obj;
      '(d, st) ← dictAdd can_resize d obj tt;
      Some (SetHT d, if st =? DICT_OK then 1 else 0)
  | SetInt st =>
      r ← isObjectRepresentableAsLongLong value;
      match r with
      | Some llval =>
          '(st, success) ← intsetAdd junk st llval;
          if negb (success =? 0) then
            subject ← (if intsetLen st >? set_max_intset_entries then setTypeConvert (SetInt st) else Some (SetInt st));
            Some (subject, 1)
          else Some (SetInt st, 0)
      | None =>
          subject ← setTypeConvert subject;
          obj ← dupStringObjectUnconstant value;
          match subject with
          | SetHT d =>
              obj ← to_elem obj;
              '(d, st) ← dictAdd can_resize d obj tt;
              if st =? DICT_OK then Some (SetHT d, 1) else None
          | SetInt _ => None
          end
      end
  end.

Definition setTypeRemove (setobj : setobj) (value : robj) : option (SetType.setobj * Z) :=
  match setobj with
  | SetHT d =>
      value ← to_elem value;
      '(d, st) ← dictDelete d value;
      if st =? DICT_OK then
        d ← (if htNeedsResize d then '(d, _) ← dictResize can_resize d; Some d else Some d);
        Some (SetHT d, 1)
      else Some (SetHT d, 0)
  | SetInt st =>
      r ← isObjectRepresentableAsLongLong value;
      match r with
      | Some llval =>
          '(st, success) ← intsetRemove junk st llval;
          Some (SetInt st, if negb (success =? 0) then 1 else 0)
      | None => Some (setobj, 0)
      end
  end.

Definition setTypeIsMember (subject : setobj) (value : robj) : option bool :=
  match subject with
  | SetHT d =>
      value ← to_elem value;
      r ← dictFind d value;
      Some (match r with Some _ => true | None => false end)
  | SetInt st =>
      r ← isObjectRepresentableAsLongLong value;
      match r with
      | Some llval => intsetFind st llval
      | None => Some false
      end
  end.

Definition setTypeSize (subject : setobj) : Z :=
  match subject with
  | SetHT d => dictSize d
  | SetInt st => intsetLen st
  end.

(** [while ((ele = setTypeNextObject(si)) != NULL)] of the commands. *)
Fixpoint members_loop (fuel : nat) (subject : setobj) (si : setTypeIterator) : option (setobj * setTypeIterator * list robj) :=
  match fuel with
  | O => None
  | S fuel =>
      '(subject, si, e) ← setTypeNextObject subject si;
      match e with
      | None => Some (subject, si, [])
      | Some e => '(subject, si, es) ← members_loop fuel subject si; Some (subject, si, e :: es)
      end
  end.

Definition members (subject : setobj) : option (setobj * list robj) :=
  '(subject, si, es) ← members_loop (S (S (Z.to_nat (setTypeSize subject)))) subject (setTypeInitIterator subject);
  subject ← setTypeReleaseIterator subject si;
  Some (subject, es).

End Code.

End SetType.
