(* ===== verification/SetProps.v ===== *)
(** * Set values: refinement of finite sets

    Both encodings represent a list of distinct byte strings, and every
    operation of SetType acts on the finite set of these strings; the
    conversions between the encodings do not show. *)

From stdpp Require Import gmap.
From S2P Require Import Prelude Bytes NumConv Object Intset Dict DictInv DictOps DictProps DictIter ObjDict SetType.
Import NumConv Object Intset Dict DictInv DictOps DictProps DictIter ObjDict SetType.

Module SetProps.

Abbreviation bytes := (list Z).

Definition card (X : gset bytes) : nat := base.size X.

Section Spec.
Context (junk : nat -> Z) (seed : Z) (can_resize : bool) (set_max_intset_entries : Z) (a0 a1 : Z).

#[local] Hint Extern 0 (DictType elem unit) => exact (setDictType seed) : typeclass_instances.
#[local] Instance set_laws : DictTypeLaws elem unit := objDictLaws seed unit.

Lemma member_compare (e1 e2 : elem) : @keyCompare elem unit _ e1 e2 = bool_decide (bytes_of e1 = bytes_of e2).
Proof using. apply (obj_compare seed unit). Qed.

(** ** Members *)

Definition ekey (e : dictEntry elem unit) : bytes := bytes_of (key e).

(** The members, in the order an iterator delivers them. *)
Definition holds (s : setobj) (l : list bytes) : Prop :=
  match s with
  | SetInt st => exists vs, rep st vs /\ l = dec_string <$> vs
  | SetHT d => dict_ok d /\ l = ekey <$> entries d
  end.

Definition sdenotes (s : setobj) (X : gset bytes) : Prop := exists l, holds s l /\ X = list_to_set l.

Lemma rep_int64 st vs : rep st vs -> Forall int64 vs.
Proof using.
  intros [He _ _ Hw _ _]. eapply Forall_impl; [exact Hw |]. intros v Hv. unfold in_enc, int64, LLONG_MIN, LLONG_MAX in *.
  destruct He as [He | [He | He]]; rewrite He in Hv; cbn in Hv; lia.
Qed.

Lemma increasing_NoDup vs : increasing vs -> NoDup vs.
Proof using.
  induction 1 as [|x l Hs IH Hx]; constructor; [|done]. intros Hin. rewrite Forall_forall in Hx. specialize (Hx x Hin). lia.
Qed.

Lemma dec_elem v vs : int64 v -> Forall int64 vs -> dec_string v ∈ dec_string <$> vs <-> v ∈ vs.
Proof using.
  intros Hv Hvs. rewrite list_elem_of_fmap. split; [|by eauto]. intros (w & Heq & Hw). rewrite Forall_forall in Hvs.
  assert (v = w) as -> by (apply dec_string_inj; try done; by apply Hvs). done.
Qed.

Lemma dec_NoDup vs : Forall int64 vs -> NoDup vs -> NoDup (dec_string <$> vs).
Proof using.
  intros Hf Hn. induction Hn as [|v vs Hv Hn IH]; cbn; [constructor |]. inversion_clear Hf. constructor; [by rewrite dec_elem | auto].
Qed.

Lemma distinct_NoDup (l : list (dictEntry elem unit)) : distinct l -> NoDup (ekey <$> l).
Proof using.
  induction l as [|e l IH]; cbn [distinct fmap list_fmap]; [constructor |]. intros [Hf Hd]. constructor; [|auto]. rewrite list_elem_of_fmap. intros (e' & Heq & Hin).
  rewrite Forall_forall in Hf. specialize (Hf e' Hin). rewrite member_compare in Hf. by apply bool_decide_eq_false in Hf.
Qed.

Lemma holds_NoDup s l : holds s l -> NoDup l.
Proof using.
  destruct s as [st | d]; [intros (vs & Hr & ->) | intros [Hok ->]].
  - apply dec_NoDup; [by eapply rep_int64 | apply increasing_NoDup, Hr].
  - apply distinct_NoDup, Hok.
Qed.

Lemma assoc_member d k : dict_ok d ->
  match assoc (entries d) k with
  | Some e => ekey e = bytes_of k /\ e ∈ entries d
  | None => bytes_of k ∉ ekey <$> entries d
  end.
Proof using.
  intros Hok. destruct (assoc (entries d) k) as [e|] eqn:Ha.
  - apply assoc_elem in Ha as [Hin Hm]. unfold matches in Hm. rewrite member_compare, bool_decide_eq_true in Hm. done.
  - rewrite list_elem_of_fmap. intros (e & Heq & Hin). pose proof (assoc_not_elem _ _ _ Ha Hin) as Hm. unfold matches in Hm.
    rewrite member_compare in Hm. by apply bool_decide_eq_false in Hm.
Qed.

Lemma representable o s : robj_ok o -> sval o = Some s -> isObjectRepresentableAsLongLong o = Some (string2ll s).
Proof using. destruct o as [e c p | c z | t p]; cbn; intros Hok [= <-]; [done |]. by rewrite string2ll_complete. Qed.

Lemma not_integer s vs : string2ll s = None -> Forall int64 vs -> s ∉ dec_string <$> vs.
Proof using.
  intros Hn Hvs. rewrite list_elem_of_fmap. intros (v & -> & Hin). rewrite Forall_forall in Hvs. rewrite string2ll_complete in Hn; [done | by apply Hvs].
Qed.

(** ** Conversion *)

Lemma intsetGet_spec st vs (i : nat) : rep st vs -> (i <= length vs)%nat -> intsetGet st (u32 (Z.of_nat i)) = Some (vs !! i).
Proof using.
  intros Hr Hi. pose proof (rep_max _ _ Hr) as Hm. unfold INTSET_MAX in Hm. rewrite uwrap_small by lia. unfold intsetGet. rewrite (rep_len _ _ Hr).
  destruct (vs !! i) as [v|] eqn:Hv.
  - pose proof (lookup_lt_Some _ _ _ Hv). zguard. rewrite swrap_small by (simpl; lia). by rewrite (get_rep _ _ _ _ Hr Hv).
  - apply lookup_ge_None in Hv. by zguard.
Qed.

Lemma fromLongLong_elem v : int64 v -> exists e, to_elem (createStringObjectFromLongLong v) = Some e /\ bytes_of e = dec_string v.
Proof using.
  intros Hv. destruct (to_elem_spec (createStringObjectFromLongLong v) (dec_string v)) as (e & He & Hb & _); [| apply sval_fromLongLong | by eauto].
  unfold createStringObjectFromLongLong. by destruct (_ && _).
Qed.

(** Insertion of a new member. *)
Lemma dictAdd_member d k : dict_ok d -> zlen (entries d) < DICT_MAX ->
  exists d', dict_ok d' /\
    dictAdd can_resize d k tt = Some (d', if bool_decide (bytes_of k ∈ ekey <$> entries d) then DICT_ERR else DICT_OK) /\
    ekey <$> entries d' ≡ₚ (if bool_decide (bytes_of k ∈ ekey <$> entries d) then ekey <$> entries d else bytes_of k :: (ekey <$> entries d)).
Proof using.
  intros Hok Hm. destruct (dictAdd_spec can_resize d k tt Hok Hm) as (d' & Hok' & Hs). pose proof (assoc_member d k Hok) as Ha.
  exists d'. split; [done |]. destruct (assoc (entries d) k) as [e|].
  - destruct Hs as [-> Hp], Ha as [Heq Hin]. rewrite bool_decide_eq_true_2 by (rewrite list_elem_of_fmap; eauto). by rewrite Hp.
  - destruct Hs as [-> Hp]. rewrite bool_decide_eq_false_2 by done. split; [done |]. by rewrite Hp.
Qed.

Lemma convert_loop_spec st vs : rep st vs -> forall fuel (i : nat) d, (i <= length vs)%nat -> (length vs - i < fuel)%nat ->
  dict_ok d -> ekey <$> entries d ≡ₚ dec_string <$> take i vs ->
  exists d', convert_loop seed can_resize a0 a1 fuel (SetInt st) (SiInt (Z.of_nat i)) d = Some d' /\ dict_ok d' /\
    ekey <$> entries d' ≡ₚ dec_string <$> vs.
Proof using.
  intros Hr. pose proof (rep_max _ _ Hr) as Hm. unfold INTSET_MAX in Hm. pose proof (rep_int64 _ _ Hr) as H64.
  induction fuel as [|fuel IH]; intros i d Hi Hf Hok Hp; [lia |]. cbn [convert_loop setTypeNext]. rewrite (intsetGet_spec _ _ _ Hr Hi).
  cbn [mbind option_bind]. destruct (vs !! i) as [v|] eqn:Hv; cbn [option_map].
  2: { apply lookup_ge_None in Hv. exists d. by rewrite take_ge in Hp by lia. }
  pose proof (lookup_lt_Some _ _ _ Hv). assert (int64 v) as Hv64 by (by eapply Forall_lookup_1). destruct (fromLongLong_elem v Hv64) as (e & -> & He). cbn [mbind option_bind].
  assert (Hc : zlen (entries d) < DICT_MAX).
  { apply Permutation_length in Hp. rewrite !length_fmap, length_take in Hp. unfold DICT_MAX. lia. }
  assert (Hnew : dec_string v ∉ ekey <$> entries d).
  { rewrite Hp, dec_elem by (done || by apply Forall_take). intros (j & Hj & Hlt)%elem_of_take. pose proof (increasing_NoDup _ (rep_sorted _ _ Hr)) as Hn.
    assert (j = i) by (by eapply NoDup_lookup). lia. }
  destruct (dictAdd_member d e Hok Hc) as (d' & Hok' & -> & Hp'). rewrite He, bool_decide_eq_false_2 in * by done. cbn [mbind option_bind]. change (DICT_OK =? DICT_OK) with true. cbn iota.
  rewrite swrap_small by (simpl; lia). replace (Z.of_nat i + 1) with (Z.of_nat (S i)) by lia. apply IH; [lia | lia | done |].
  rewrite (take_S_r _ _ _ Hv), fmap_app, Hp', Hp. cbn. apply Permutation_cons_append.
Qed.

Lemma convert_spec st vs : rep st vs ->
  exists d, setTypeConvert seed can_resize a0 a1 (SetInt st) = Some (SetHT d) /\ dict_ok d /\ ekey <$> entries d ≡ₚ dec_string <$> vs.
Proof using.
  intros Hr. pose proof (rep_max _ _ Hr) as Hm. unfold INTSET_MAX in Hm. cbn [setTypeConvert setTypeInitIterator]. unfold intsetLen. rewrite (rep_len _ _ Hr).
  destruct (dictExpand_spec (dictCreate (K := elem) (V := unit)) (zlen vs) dict_ok_create) as (d0 & -> & Hok0 & He0 & _); [lia |]. cbn [mbind option_bind].
  destruct (convert_loop_spec st vs Hr (S (Z.to_nat (zlen vs))) 0 d0) as (d & Hd & Hok & Hp); [lia | lia | done | by rewrite He0 |].
  change (Z.of_nat 0) with 0 in Hd. rewrite Hd. cbn. eauto.
Qed.

(** ** The operations *)

Lemma holds_size s l : holds s l -> Z.of_nat (card (list_to_set l : gset bytes)) = zlen l.
Proof using. intros Hl. unfold card. by rewrite size_list_to_set by (by eapply holds_NoDup). Qed.

Lemma size_spec s l : holds s l -> setTypeSize s = zlen l.
Proof using.
  destruct s as [st | d]; cbn [holds setTypeSize]; [intros (vs & Hr & ->) | intros [Hok ->]]; rewrite length_fmap.
  - apply Hr.
  - unfold dictSize. by rewrite (count_zero d Hok).
Qed.

Lemma elem_of_arg o b : robj_ok o -> sval o = Some b -> exists e, to_elem o = Some e /\ bytes_of e = b.
Proof using. intros Hok Hs. destruct (to_elem_spec o b Hok Hs) as (e & ? & ? & _). eauto. Qed.

Lemma dup_elem o b : robj_ok o -> sval o = Some b -> exists o' e, dupStringObjectUnconstant o = Some o' /\ to_elem o' = Some e /\ bytes_of e = b.
Proof using. intros Hok Hs. destruct (dupString_spec o b Hs) as (o' & ? & ? & ?). destruct (elem_of_arg o' b) as (e & ? & ?); eauto 6. Qed.

Lemma b2z_status (b : bool) : (if (if b then DICT_ERR else DICT_OK) =? DICT_OK then 1 else 0) = b2z (negb b).
Proof using. by destruct b. Qed.

Lemma perm_add b l l' X : l' ≡ₚ (if bool_decide (b ∈ l) then l else b :: l) -> X = list_to_set l -> {[b]} ∪ X = (list_to_set l' : gset bytes).
Proof using. intros Hp ->. rewrite Hp. case_bool_decide; set_solver. Qed.

Lemma add_spec s X o b : sdenotes s X -> robj_ok o -> sval o = Some b -> Z.of_nat (card X) + 1 < INTSET_MAX ->
  exists s', setTypeAdd junk seed can_resize set_max_intset_entries a0 a1 s o = Some (s', b2z (bool_decide (b ∉ X))) /\ sdenotes s' ({[b]} ∪ X).
Proof using.
  intros (l & Hl & HX) Hok Hs Hsz. rewrite HX, (holds_size s l Hl) in Hsz. unfold INTSET_MAX in Hsz.
  assert (Hflag : bool_decide (b ∉ X) = negb (bool_decide (b ∈ l))).
  { rewrite HX, <- bool_decide_not. apply bool_decide_ext. set_solver. }
  rewrite Hflag. destruct (dup_elem o b Hok Hs) as (o' & e & Hdup & He & Hb). destruct s as [st | d]; cbn [setTypeAdd holds] in *.
  - destruct Hl as (vs & Hr & ->). rewrite length_fmap in Hsz. pose proof (rep_int64 _ _ Hr) as H64. rewrite (representable o b Hok Hs). cbn [mbind option_bind].
    destruct (string2ll b) as [v|] eqn:Hv.
    + apply string2ll_sound in Hv as [Hv ->]. destruct (intsetAdd_spec junk st vs v Hr Hv ltac:(unfold INTSET_MAX; lia)) as (st' & -> & Hr' & _). cbn [mbind option_bind].
      rewrite (bool_decide_ext _ _ (dec_elem v vs Hv H64)), <- bool_decide_not.
      assert (Hset : {[dec_string v]} ∪ X = list_to_set (dec_string <$> set_insert v vs)).
      { subst X. apply sets.set_eq. intros x. rewrite elem_of_union, elem_of_singleton, !elem_of_list_to_set, !list_elem_of_fmap. setoid_rewrite elem_of_set_insert. naive_solver. }
      destruct (bool_decide_reflect (v ∉ vs)) as [Hnin | Hin]; cbn [b2z Z.eqb negb].
      * destruct (intsetLen st' >? set_max_intset_entries).
        -- destruct (convert_spec st' _ Hr') as (d & -> & Hokd & Hp). cbn. eexists. split; [done |]. eexists. split; [by split |]. by rewrite Hp.
        -- cbn. eexists. split; [done |]. eexists. split; [by exists (set_insert v vs) | done].
      * eexists. split; [done |]. eexists. split; [by exists (set_insert v vs) | done].
    + pose proof (not_integer b vs Hv H64) as Hnin. destruct (convert_spec st vs Hr) as (d & -> & Hokd & Hp). cbn [mbind option_bind]. rewrite Hdup. cbn [mbind option_bind]. rewrite He. cbn [mbind option_bind].
      destruct (dictAdd_member d e Hokd) as (d' & Hok' & -> & Hp').
      { apply Permutation_length in Hp. rewrite !length_fmap in Hp. unfold DICT_MAX. lia. }
      assert (Hnin' : b ∉ ekey <$> entries d) by (by rewrite Hp). rewrite Hb, !bool_decide_eq_false_2 in * by done. cbn. eexists. split; [done |]. eexists. split; [by split |].
      rewrite Hp', Hp, HX. set_solver.
  - destruct Hl as [Hokd ->]. rewrite length_fmap in Hsz. rewrite Hdup. cbn [mbind option_bind]. rewrite He. cbn [mbind option_bind].
    destruct (dictAdd_member d e Hokd) as (d' & Hok' & -> & Hp'); [unfold DICT_MAX; lia |]. rewrite Hb in *. cbn [mbind option_bind]. rewrite b2z_status.
    eexists. split; [done |]. eexists. split; [by split |]. by eapply perm_add.
Qed.

Lemma remove_spec s X o b : sdenotes s X -> robj_ok o -> sval o = Some b ->
  exists s', setTypeRemove junk seed can_resize s o = Some (s', b2z (bool_decide (b ∈ X))) /\ sdenotes s' (X ∖ {[b]}).
Proof using.
  intros (l & Hl & HX) Hok Hs. pose proof (holds_NoDup _ _ Hl) as Hnd.
  assert (Hflag : bool_decide (b ∈ X) = bool_decide (b ∈ l)) by (apply bool_decide_ext; set_solver).
  rewrite Hflag. destruct s as [st | d]; cbn [setTypeRemove holds] in *.
  - destruct Hl as (vs & Hr & ->). pose proof (rep_int64 _ _ Hr) as H64. rewrite (representable o b Hok Hs). cbn [mbind option_bind]. destruct (string2ll b) as [v|] eqn:Hv.
    + apply string2ll_sound in Hv as [Hv ->]. destruct (intsetRemove_spec junk st vs v Hr Hv) as (st' & -> & Hr'). cbn [mbind option_bind].
      rewrite (bool_decide_ext _ _ (dec_elem v vs Hv H64)). eexists. split; [by destruct (bool_decide (v ∈ vs)) |]. eexists. split; [by exists (set_remove v vs) |].
      subst X. apply sets.set_eq. intros x. rewrite elem_of_difference, elem_of_singleton, !elem_of_list_to_set, !list_elem_of_fmap. setoid_rewrite elem_of_set_remove.
      rewrite Forall_forall in H64. split; [intros [(w & -> & Hw) Hne]; exists w; split_and!; [done | congruence | done] |].
      intros (w & -> & Hne & Hw). split; [by eauto |]. intros Heq. apply Hne, dec_string_inj; [by apply H64 | done | done].
    + pose proof (not_integer b vs Hv H64) as Hnin. rewrite bool_decide_eq_false_2 by done. eexists. split; [done |]. eexists. split; [by exists vs |]. set_solver.
  - destruct Hl as [Hokd ->]. destruct (elem_of_arg o b Hok Hs) as (e & -> & Hb). cbn [mbind option_bind]. unfold dictDelete.
    destruct (dictGenericDelete_spec d e Hokd) as (d' & Hok' & Hd). pose proof (assoc_member d e Hokd) as Ha. rewrite Hb in Ha. destruct (assoc (entries d) e) as [en|].
    + destruct Hd as [-> Hp], Ha as [Heq Hin]. cbn [mbind option_bind]. change (DICT_OK =? DICT_OK) with true. cbn iota.
      rewrite bool_decide_eq_true_2 by (rewrite list_elem_of_fmap; eauto).
      assert (Hset : X ∖ {[b]} = list_to_set (ekey <$> entries d')).
      { rewrite Hp in Hnd. cbn in Hnd. apply NoDup_cons in Hnd as [Hnin _]. subst X. rewrite Hp. cbn. rewrite Heq in *. set_solver. }
      destruct (htNeedsResize d'); [destruct (dictResize_spec can_resize d' Hok') as (d2 & st & -> & Hok2 & He2) |]; cbn [mbind option_bind].
      * eexists. split; [done |]. eexists. split; [by split |]. by rewrite He2.
      * eexists. split; [done |]. eexists. by split.
    + destruct Hd as [-> Hp]. cbn [mbind option_bind]. rewrite bool_decide_eq_false_2 by done. cbn. eexists. split; [done |]. eexists. split; [by split |].
      rewrite Hp. set_solver.
Qed.

Lemma member_spec s X o b : sdenotes s X -> robj_ok o -> sval o = Some b -> setTypeIsMember seed s o = Some (bool_decide (b ∈ X)).
Proof using.
  intros (l & Hl & HX) Hok Hs. assert (Hflag : bool_decide (b ∈ X) = bool_decide (b ∈ l)) by (apply bool_decide_ext; set_solver).
  rewrite Hflag. destruct s as [st | d]; cbn [setTypeIsMember holds] in *.
  - destruct Hl as (vs & Hr & ->). pose proof (rep_int64 _ _ Hr) as H64. rewrite (representable o b Hok Hs). cbn [mbind option_bind]. destruct (string2ll b) as [v|] eqn:Hv.
    + apply string2ll_sound in Hv as [Hv ->]. rewrite (intsetFind_spec _ _ _ Hr Hv). f_equal. apply bool_decide_ext. by rewrite dec_elem.
    + by rewrite bool_decide_eq_false_2 by (by apply not_integer).
  - destruct Hl as [Hokd ->]. destruct (elem_of_arg o b Hok Hs) as (e & -> & Hb). cbn [mbind option_bind]. pose proof (dictFind_spec d e Hokd) as Hf.
    pose proof (assoc_member d e Hokd) as Ha. rewrite Hb in Ha. destruct (assoc (entries d) e) as [en|].
    + destruct Hf as (r & -> & _), Ha as [Heq Hin]. cbn. by rewrite bool_decide_eq_true_2 by (rewrite list_elem_of_fmap; eauto).
    + rewrite Hf. cbn. by rewrite bool_decide_eq_false_2.
Qed.

Lemma create_spec o b : robj_ok o -> sval o = Some b -> exists s, setTypeCreate o = Some s /\ sdenotes s ∅.
Proof using.
  intros Hok Hs. unfold setTypeCreate. rewrite (representable o b Hok Hs). cbn. destruct (string2ll b); eexists; (split; [done |]); exists []; (split; [|done]).
  - exists []. split; [apply rep_new | done].
  - split; [apply dict_ok_create | done].
Qed.

(** ** Iteration *)

Lemma members_int st vs : rep st vs -> forall fuel (i : nat), (i <= length vs)%nat -> (length vs - i < fuel)%nat ->
  exists si es, members_loop a0 a1 fuel (SetInt st) (SiInt (Z.of_nat i)) = Some (SetInt st, SiInt si, es) /\
    sval <$> es = Some <$> (dec_string <$> drop i vs).
Proof using.
  intros Hr. pose proof (rep_max _ _ Hr) as Hm. unfold INTSET_MAX in Hm. induction fuel as [|fuel IH]; intros i Hi Hf; [lia |].
  cbn [members_loop]. unfold setTypeNextObject. cbn [setTypeNext]. rewrite (intsetGet_spec _ _ _ Hr Hi). cbn [mbind option_bind].
  rewrite swrap_small by (simpl; lia). destruct (vs !! i) as [v|] eqn:Hv; cbn [option_map].
  - pose proof (lookup_lt_Some _ _ _ Hv). replace (Z.of_nat i + 1) with (Z.of_nat (S i)) by lia. destruct (IH (S i)) as (si & es & -> & Hes); [lia | lia |].
    cbn [mbind option_bind]. eexists _, _. split; [done |]. rewrite (drop_S _ _ _ Hv). cbn [fmap list_fmap]. by rewrite Hes, sval_fromLongLong.
  - apply lookup_ge_None in Hv. eexists _, _. split; [done |]. by rewrite drop_ge by lia.
Qed.

Lemma members_iterate fuel : forall d it d' it' es, iterate a0 a1 fuel d it = Some (d', it', es) ->
  members_loop a0 a1 fuel (SetHT d) (SiHT it) = Some (SetHT d', SiHT it', (fun e => proj1_sig (key e)) <$> es).
Proof using.
  induction fuel as [|fuel IH]; intros d it d' it' es; [done |]. cbn [iterate members_loop]. unfold setTypeNextObject. cbn [setTypeNext].
  destruct (dictNext a0 a1 d it) as [[[d1 it1] [e|]]|]; cbn; [| by intros [= <- <- <-] | done].
  destruct (iterate a0 a1 fuel d1 it1) as [[[d2 it2] es2]|] eqn:Hit; cbn; [|done]. intros [= <- <- <-]. by rewrite (IH _ _ _ _ _ Hit).
Qed.

Lemma members_spec s l : holds s l -> exists es, members a0 a1 s = Some (s, es) /\ sval <$> es = Some <$> l.
Proof using.
  intros Hl. unfold members. rewrite (size_spec s l Hl). destruct s as [st | d]; cbn [holds setTypeInitIterator] in *.
  - destruct Hl as (vs & Hr & ->). rewrite length_fmap. destruct (members_int st vs Hr (S (S (Z.to_nat (zlen vs)))) 0) as (si & es & Hes & Hv); [lia | lia |].
    change (Z.of_nat 0) with 0 in Hes. rewrite Hes. cbn. eauto.
  - destruct Hl as [Hok ->]. rewrite length_fmap. destruct (iterator_spec a0 a1 false d Hok) as (it & Hit & Hrel); [done |].
    rewrite Nat2Z.id. cbn [fresh iterating] in *. rewrite (members_iterate _ _ _ _ _ _ Hit). cbn [mbind option_bind setTypeReleaseIterator]. rewrite Hrel. cbn [mbind option_bind].
    eexists. split; [done |]. rewrite <- !list_fmap_compose. apply list_fmap_ext. intros i e _. cbn. apply elem_ok.
Qed.

(** ** Sequences of operations *)

Inductive sop := SAdd (o : robj) | SRem (o : robj) | SIsMember (o : robj) | SCard.

Definition sop_arg (o : sop) : robj := match o with SAdd o | SRem o | SIsMember o => o | SCard => IntObj false 0 end.

Definition sop_ok (o : sop) : Prop := str_obj (sop_arg o) = true.

(** The C side: the set and the value returned. *)
Definition sop_run (o : sop) (s : setobj) : option (setobj * Z) :=
  match o with
  | SAdd o => setTypeAdd junk seed can_resize set_max_intset_entries a0 a1 s o
  | SRem o => setTypeRemove junk seed can_resize s o
  | SIsMember o => b ← setTypeIsMember seed s o; Some (s, b2z b)
  | SCard => Some (s, setTypeSize s)
  end.

Fixpoint sop_runs (os : list sop) (s : setobj) : option (setobj * list Z) :=
  match os with
  | [] => Some (s, [])
  | o :: os => '(s, r) ← sop_run o s; '(s, rs) ← sop_runs os s; Some (s, r :: rs)
  end.

(** The specification on finite sets of byte strings. *)
Definition sop_spec (o : sop) (X : gset bytes) : gset bytes * Z :=
  let b := default [] (sval (sop_arg o)) in
  match o with
  | SAdd _ => ({[b]} ∪ X, b2z (bool_decide (b ∉ X)))
  | SRem _ => (X ∖ {[b]}, b2z (bool_decide (b ∈ X)))
  | SIsMember _ => (X, b2z (bool_decide (b ∈ X)))
  | SCard => (X, Z.of_nat (card X))
  end.

Fixpoint sop_specs (os : list sop) (X : gset bytes) : gset bytes * list Z :=
  match os with
  | [] => (X, [])
  | o :: os => let '(X, r) := sop_spec o X in let '(X, rs) := sop_specs os X in (X, r :: rs)
  end.

Lemma sop_run_spec o s X : sdenotes s X -> sop_ok o -> Z.of_nat (card X) + 1 < INTSET_MAX ->
  exists s', sop_run o s = Some (s', (sop_spec o X).2) /\ sdenotes s' (sop_spec o X).1.
Proof using.
  intros Hd Ho Hsz. apply str_obj_spec in Ho as (Hok & b & Hb). unfold sop_spec. rewrite Hb. destruct o as [o | o | o | ]; cbn [sop_run sop_arg default fst snd] in *.
  - by apply add_spec.
  - by apply remove_spec.
  - rewrite (member_spec s X o b Hd Hok Hb). by exists s.
  - exists s. split; [|done]. destruct Hd as (l & Hl & ->). by rewrite (size_spec s l Hl), (holds_size s l Hl).
Qed.

Lemma sop_spec_size o X : (card (sop_spec o X).1 <= S (card X))%nat.
Proof using.
  unfold card. destruct o; cbn -[default]; try lia.
  - rewrite size_union_alt, size_singleton. pose proof (subseteq_size (X ∖ {[default [] (sval o)]}) X ltac:(set_solver)). lia.
  - pose proof (subseteq_size (X ∖ {[default [] (sval o)]}) X ltac:(set_solver)). lia.
Qed.

Lemma sop_runs_spec os : forall s X, sdenotes s X -> Forall sop_ok os -> Z.of_nat (card X) + zlen os < INTSET_MAX ->
  exists s', sop_runs os s = Some (s', (sop_specs os X).2) /\ sdenotes s' (sop_specs os X).1.
Proof using.
  induction os as [|o os IH]; intros s X Hd Hos Hsz; [by eauto |]. inversion_clear Hos. cbn [sop_runs sop_specs]. simpl length in Hsz.
  destruct (sop_run_spec o s X) as (s1 & -> & Hd1); auto; [lia |]. pose proof (sop_spec_size o X). destruct (sop_spec o X) as [X1 r]. cbn [fst snd] in *.
  destruct (IH s1 X1) as (s2 & Hs2 & Hd2); auto; [lia |]. cbn [mbind option_bind]. rewrite Hs2. cbn. destruct (sop_specs os X1). eauto.
Qed.

(** C6. The two encodings of a set are indistinguishable: for every value of
    [set-max-intset-entries], every sequence of insertions, removals,
    membership tests and size queries on a set created for its first member
    answers as the mathematical set of byte strings does, although the
    representation switches from sorted integers of growing width to a hash
    table under incremental rehashing; an iterator then delivers each member
    once and leaves the set as it was. *)
Theorem set_value_refines o os : sop_ok (SAdd o) -> Forall sop_ok os -> zlen os + 1 < INTSET_MAX ->
  exists s0 s es l, setTypeCreate o = Some s0 /\ sop_runs (SAdd o :: os) s0 = Some (s, (sop_specs (SAdd o :: os) ∅).2) /\
    members a0 a1 s = Some (s, es) /\ sval <$> es = Some <$> l /\ NoDup l /\ list_to_set l = (sop_specs (SAdd o :: os) ∅).1.
Proof using.
  intros Ho Hos Hsz. pose proof Ho as (Hok & b & Hb)%str_obj_spec. destruct (create_spec o b Hok Hb) as (s0 & -> & Hd0).
  destruct (sop_runs_spec (SAdd o :: os) s0 ∅ Hd0) as (s & Hs & l & Hl & HX); [by constructor | unfold card; rewrite size_empty; simpl length; lia |].
  destruct (members_spec s l Hl) as (es & Hes & Hv). exists s0, s, es, l. split_and!; try done. by eapply holds_NoDup.
Qed.

End Spec.

(** Integers up to the limit of two, then one more, then a name. *)
Lemma set_value_refines_witness : exists s0 s es l,
  setTypeCreate (SdsObj OBJ_ENCODING_EMBSTR false [53]) = Some s0 /\
  sop_runs (fun _ => 170) 5381 true 2 0x1000 0x2000
    [SAdd (SdsObj OBJ_ENCODING_EMBSTR false [53]); SAdd (IntObj false (-70000)); SAdd (IntObj true 5); SAdd (IntObj true 9);
     SIsMember (SdsObj OBJ_ENCODING_RAW false [57]); SAdd (SdsObj OBJ_ENCODING_EMBSTR false [48; 57]); SRem (IntObj true 5); SCard] s0 =
    Some (s, [1; 1; 0; 1; 1; 1; 1; 3]) /\
  members 0x1000 0x2000 s = Some (s, es) /\ sval <$> es = Some <$> l /\ NoDup l.
Proof.
  destruct (set_value_refines (fun _ => 170) 5381 true 2 0x1000 0x2000 (SdsObj OBJ_ENCODING_EMBSTR false [53])
    [SAdd (IntObj false (-70000)); SAdd (IntObj true 5); SAdd (IntObj true 9);
     SIsMember (SdsObj OBJ_ENCODING_RAW false [57]); SAdd (SdsObj OBJ_ENCODING_EMBSTR false [48; 57]); SRem (IntObj true 5); SCard])
    as (s0 & s & es & l & H1 & H2 & H3 & H4 & H5 & _); [by vm_compute | repeat constructor | by vm_compute |].
  exists s0, s, es, l. split_and!; [exact H1 | exact H2 | exact H3 | exact H4 | exact H5].
Defined.

End SetProps.
