(* ===== verification/HashType.v ===== *)
(** * Hash values (vr_t_hash.c): the code

    A hash is a ziplist of alternating fields and values while it is small, and
    a hash table of string objects otherwise.  The file models the operations
    the hash commands are written with: lookup, insertion with the conversion
    of the encoding, deletion with the shrinking of a sparse table, length and
    iteration. *)

From S2P Require Import Prelude Bytes NumConv Object Dict DictInv DictIter ObjDict Ziplist SetType.
Import NumConv Object Dict DictIter ObjDict Ziplist.
Import SetType(htNeedsResize).

Module HashType.

(** The encodings [OBJ_ENCODING_ZIPLIST] and [OBJ_ENCODING_HT]. *)
Inductive hashobj :=
  | HashZip (ptr : list Z)
  | HashHT (ptr : dict elem elem).

Definition OBJ_HASH_KEY : Z := 1.
Definition OBJ_HASH_VALUE : Z := 2.

Inductive hashTypeIterator :=
  | HiZip (fptr vptr : option Z)
  | HiHT (di : dictIterator elem elem) (de : option (dictEntry elem elem)).

(** The bytes of a decoded string object. *)
Definition sds_ptr (o : robj) : option (list Z) := match o with SdsObj _ _ s => Some s | _ => None end.

(** The object a string or integer of a ziplist is copied to. *)
Definition zget_object (g : zget) : robj := match g with ZStr s => createStringObject s | ZInt v => createStringObjectFromLongLong v end.

Section Code.
(** The bytes of fresh memory, the seed of the hash function, the static
    [dict_can_resize], the limits [server.hash_max_ziplist_entries] and
    [server.hash_max_ziplist_value] and the addresses of the two tables of the
    dictionary iterated over. *)
Context (junk : nat -> Z) (seed : Z) (can_resize : bool) (hash_max_ziplist_entries hash_max_ziplist_value : Z) (a0 a1 : Z).

#[local] Instance hashDictType : DictType elem elem := objDictType seed elem.

(** The field and the value a ziplist holds at [fptr]. *)
Definition zip_find (zl field : list Z) : option (option (Z * Z)) :=
  fptr ← ziplistIndex zl 0;
  match fptr with
  | None => Some None
  | Some fptr =>
      fptr ← ziplistFind zl fptr field 1;
      match fptr with
      | None => Some None
      | Some fptr => vptr ← ziplistNext zl fptr; vptr ← vptr; Some (Some (fptr, vptr))
      end
  end.

(** [None] inside for the return value -1. *)
Definition hashTypeGetFromZiplist (zl : list Z) (field : robj) : option (option zget) :=
  field_new ← getDecodedObject field;
  f ← sds_ptr field_new;
  r ← zip_find zl f;
  match r with
  | Some (_, vptr) => g ← ziplistGet zl (Some vptr); g ← g; Some (Some g)
  | None => Some None
  end.

Definition hashTypeGetFromHashTable (d : dict elem elem) (field : robj) : option (option robj) :=
  f ← to_elem field;
  de ← dictFind d f;
  match de with
  | None => Some None
  | Some r => e ← deref d r; v ← val e; Some (Some (proj1_sig v))
  end.

Definition hashTypeGetObject (o : hashobj) (field : robj) : option (option robj) :=
  match o with
  | HashZip zl => g ← hashTypeGetFromZiplist zl field; Some (option_map zget_object g)
  | HashHT d => hashTypeGetFromHashTable d field
  end.

Definition hashTypeGetValueLength (o : hashobj) (field : robj) : option Z :=
  match o with
  | HashZip zl =>
      g ← hashTypeGetFromZiplist zl field;
      match g with
      | None => Some 0
      | Some (ZStr s) => Some (zlen s)
      | Some (ZInt v) => sdigits10 v
      end
  | HashHT d =>
      aux ← hashTypeGetFromHashTable d field;
      match aux with
      | None => Some 0
      | Some aux => stringObjectLen aux
      end
  end.

Definition hashTypeExists (o : hashobj) (field : robj) : option bool :=
  match o with
  | HashZip zl => g ← hashTypeGetFromZiplist zl field; Some (match g with Some _ => true | None => false end)
  | HashHT d => aux ← hashTypeGetFromHashTable d field; Some (match aux with Some _ => true | None => false end)
  end.

(** ** Iteration *)

Definition hashTypeInitIterator (subject : hashobj) : hashTypeIterator :=
  match subject with
  | HashZip _ => HiZip None None
  | HashHT _ => HiHT dictGetIterator None
  end.

Definition hashTypeReleaseIterator (subject : hashobj) (hi : hashTypeIterator) : option hashobj :=
  match hi, subject with
  | HiHT di _, HashHT d => HashHT <$> dictReleaseIterator a0 a1 d di
  | HiZip _ _, HashZip _ => Some subject
  | _, _ => None
  end.

(** The cursor moves to [fptr] and the value after it. *)
Definition zip_cursor (zl : list Z) (fptr : Z) : option hashTypeIterator :=
  vptr ← ziplistNext zl fptr;
  vptr ← vptr;
  Some (HiZip (Some fptr) (Some vptr)).

(** The subject, the iterator and whether the return value is [VR_OK]. *)
Definition hashTypeNext (subject : hashobj) (hi : hashTypeIterator) : option (hashobj * hashTypeIterator * bool) :=
  match hi, subject with
  | HiZip fptr vptr, HashZip zl =>
      fptr ←
        match fptr, vptr with
        | None, None => ziplistIndex zl 0
        | Some _, Some vptr => ziplistNext zl vptr
        | _, _ => None
        end;
      match fptr with
      | None => Some (subject, hi, false)
      | Some fptr => hi ← zip_cursor zl fptr; Some (subject, hi, true)
      end
  | HiHT di _, HashHT d =>
      '(d, di, de) ← dictNext a0 a1 d di;
      Some (HashHT d, HiHT di de, match de with Some _ => true | None => false end)
  | _, _ => None
  end.

Definition hashTypeCurrentFromZiplist (zl : list Z) (hi : hashTypeIterator) (what : Z) : option zget :=
  match hi with
  | HiZip fptr vptr => g ← ziplistGet zl (if negb (Z.land what OBJ_HASH_KEY =? 0) then fptr else vptr); g
  | HiHT _ _ => None
  end.

Definition hashTypeCurrentFromHashTable (hi : hashTypeIterator) (what : Z) : option robj :=
  match hi with
  | HiHT _ (Some de) => if negb (Z.land what OBJ_HASH_KEY =? 0) then Some (proj1_sig (key de)) else v ← val de; Some (proj1_sig v)
  | _ => None
  end.

Definition hashTypeCurrentObject (subject : hashobj) (hi : hashTypeIterator) (what : Z) : option robj :=
  match subject with
  | HashZip zl => g ← hashTypeCurrentFromZiplist zl hi what; Some (zget_object g)
  | HashHT _ => hashTypeCurrentFromHashTable hi what
  end.

(** ** Conversion *)

Fixpoint hconvert_loop (fuel : nat) (o : hashobj) (hi : hashTypeIterator) (d : dict elem elem) : option (dict elem elem * hashobj * hashTypeIterator) :=
  match fuel with
  | O => None
  | S fuel =>
      '(o, hi, more) ← hashTypeNext o hi;
      if (more : bool) then
        field ← hashTypeCurrentObject o hi OBJ_HASH_KEY;
        field ← tryObjectEncoding field;
        value ← hashTypeCurrentObject o hi OBJ_HASH_VALUE;
        value ← tryObjectEncoding value;
        field ← to_elem field;
        value ← to_elem value;
        '(d, ret) ← dictAdd can_resize d field value;
        if ret =? DICT_OK then hconvert_loop fuel o hi d else None
      else Some (d, o, hi)
  end.

(** The target encoding is [OBJ_ENCODING_HT]; a converted hash makes
    [hashTypeConvert] panic. *)
Definition hashTypeConvertZiplist (zl : list Z) : option hashobj :=
  let o := HashZip zl in
  '(d, o, hi) ← hconvert_loop (S (length zl)) o (hashTypeInitIterator o) dictCreate;
  _ ← hashTypeReleaseIterator o hi;
  Some (HashHT d).

Definition hashTypeConvert (o : hashobj) : option hashobj :=
  match o with HashZip zl => hashTypeConvertZiplist zl | HashHT _ => None end.

(** ** Updates *)

(** The length; counting a long ziplist re-stores its length field. *)
Definition hashTypeLength (o : hashobj) : option (hashobj * Z) :=
  match o with
  | HashZip zl => '(n, zl) ← ziplistLen zl; Some (HashZip zl, n / 2)
  | HashHT d => Some (o, dictSize d)
  end.

(** The hash, and whether the field existed. *)
Definition hashTypeSet (o : hashobj) (field value : robj) : option (hashobj * bool) :=
  match o with
  | HashZip zl =>
      field_new ← getDecodedObject field;
      value_new ← getDecodedObject value;
      f ← sds_ptr field_new;
      v ← sds_ptr value_new;
      r ← zip_find zl f;
      '(zl, update) ←
        match r with
        | Some (_, vptr) =>
            '(zl, vptr) ← ziplistDelete junk zl vptr;
            zl ← ziplistInsert junk zl vptr v;
            Some (zl, true)
        | None =>
            zl ← ziplistPush junk zl f false;
            zl ← ziplistPush junk zl v false;
            Some (zl, false)
        end;
      '(o, length) ← hashTypeLength (HashZip zl);
      if length >? hash_max_ziplist_entries then o ← hashTypeConvert o; Some (o, update)
      else Some (o, update)
  | HashHT d =>
      field_new ← dupStringObjectUnconstant field;
      value_new ← dupStringObjectUnconstant value;
      f ← to_elem field_new;
      v ← to_elem value_new;
      '(d, inserted) ← dictReplace can_resize d f v;
      Some (HashHT d, inserted =? 0)
  end.

Definition hashTypeDelete (o : hashobj) (field : robj) : option (hashobj * bool) :=
  match o with
  | HashZip zl =>
      field_new ← getDecodedObject field;
      f ← sds_ptr field_new;
      fptr ← ziplistIndex zl 0;
      match fptr with
      | None => Some (o, false)
      | Some fptr =>
          fptr ← ziplistFind zl fptr f 1;
          match fptr with
          | None => Some (o, false)
          | Some fptr =>
              '(zl, fptr) ← ziplistDelete junk zl fptr;
              '(zl, _) ← ziplistDelete junk zl fptr;
              Some (HashZip zl, true)
          end
      end
  | HashHT d =>
      f ← to_elem field;
      '(d, st) ← dictDelete d f;
      if st =? DICT_OK then
        d ← (if htNeedsResize d then '(d, _) ← dictResize can_resize d; Some d else Some d);
        Some (HashHT d, true)
      else Some (HashHT d, false)
  end.

(** [hashTypeTryConversion] on the arguments [start .. end]. *)
Definition hashTypeTryConversion (o : hashobj) (argv : list robj) : option hashobj :=
  match o with
  | HashHT _ => Some o
  | HashZip _ =>
      if existsb (fun a => match a with SdsObj _ _ s => zlen s >? hash_max_ziplist_value | _ => false end) argv
      then hashTypeConvert o else Some o
  end.

(** One object encoded when the hash is a table. *)
Definition hashTypeTryObjectEncoding (subject : hashobj) (o : robj) : option robj :=
  match subject with HashHT _ => tryObjectEncoding o | HashZip _ => Some o end.

Definition createHashObject : option hashobj := zl ← ziplistNew junk; Some (HashZip zl).
End Code.

End HashType.
