(* ===== verification/HashProps.v ===== *)
(** * Hash values: refinement of finite maps

    Both encodings represent a list of pairs with distinct fields, and every
    operation of HashType acts on the finite map of these pairs; the
    conversions between the encodings do not show. *)

From stdpp Require Import gmap.
From S2P Require Import Prelude Bytes NumConv Object Dict DictInv DictOps DictProps DictIter ObjDict Ziplist ZiplistInv ZiplistOps ZiplistProps ZiplistKit SetType SetProps HashType.
Import NumConv Object Dict DictInv DictOps DictProps DictIter ObjDict Ziplist HashType.
Import ZiplistProps(denotes, vsum, value_of, zfind, vsum_app, vsum_nonneg, vsum_length).
Import SetProps(elem_of_arg, dup_elem).
Import ZiplistKit(zget_ok, zip_entry, zip_first, zip_len, zip_delete).

Module HashProps.

Abbreviation bytes := (list Z).
Abbreviation pairs := (list (bytes * bytes)).
Abbreviation hmap := (gmap bytes bytes).

(** ** Pairs *)

Fixpoint flat (kvs : pairs) : list bytes :=
  match kvs with
  | [] => []
  | (k, v) :: kvs => k :: v :: flat kvs
  end.

Lemma flat_app a b : flat (a ++ b) = flat a ++ flat b.
Proof. induction a as [|[k v] a IH]; cbn; [done |]. by rewrite IH. Qed.

Lemma length_flat kvs : length (flat kvs) = (2 * length kvs)%nat.
Proof. induction kvs as [|[k v] kvs IH]; cbn in *; lia. Qed.

Lemma vsum_flat_perm a b : a ≡ₚ b -> vsum (flat a) = vsum (flat b).
Proof. induction 1 as [|[k v] a b _ IH | [k v] [k' v'] a | a b c _ IH1 _ IH2]; cbn in *; lia. Qed.

(** The memory a hash takes as a ziplist, at most. *)
Definition weight (m : hmap) : Z := vsum (flat (map_to_list m)).

(** Hashes that fit a ziplist whatever their encoding. *)
Definition fits_zip (m : hmap) : Prop := 11 + weight m < 2 ^ 32.

Lemma weight_pairs kvs : NoDup kvs.*1 -> weight (list_to_map kvs) = vsum (flat kvs).
Proof. intros Hn. unfold weight. by apply vsum_flat_perm, map_to_list_to_map. Qed.

Lemma weight_size m : 28 * Z.of_nat (base.size m) <= weight m.
Proof.
  unfold weight. pose proof (vsum_length (flat (map_to_list m))) as Hv. rewrite length_flat in Hv. rewrite <- length_map_to_list. lia.
Qed.

Lemma weight_insert m k v : m !! k = None -> weight (<[k := v]> m) = 28 + zlen k + zlen v + weight m.
Proof. intros Hk. unfold weight. rewrite (vsum_flat_perm _ _ (map_to_list_insert m k v Hk)). cbn. lia. Qed.

Lemma weight_nonneg m : 0 <= weight m.
Proof. apply vsum_nonneg. Qed.

Lemma weight_delete m k : weight (delete k m) <= weight m.
Proof.
  destruct (m !! k) as [v|] eqn:Hk; [|by rewrite delete_id]. rewrite <- (insert_delete_id m k v Hk) at 2. rewrite weight_insert by apply lookup_delete_eq. lia.
Qed.

Lemma weight_insert_le m k v : weight (<[k := v]> m) <= 28 + zlen k + zlen v + weight m.
Proof. rewrite <- insert_delete_eq, weight_insert by apply lookup_delete_eq. pose proof (weight_delete m k). lia. Qed.

(** The pair of a field, and the map with its value replaced or removed. *)
Lemma pairs_split (a b : pairs) f v0 : NoDup (a ++ (f, v0) :: b).*1 -> let m : hmap := list_to_map (a ++ (f, v0) :: b) in
  m !! f = Some v0 /\ delete f m = list_to_map (a ++ b) /\ NoDup (a ++ b).*1 /\
  forall v, <[f := v]> m = list_to_map (a ++ (f, v) :: b) /\ NoDup (a ++ (f, v) :: b).*1.
Proof.
  intros Hn m. assert (Hp : forall v, a ++ (f, v) :: b ≡ₚ (f, v) :: a ++ b) by (intros; symmetry; apply Permutation_middle).
  assert (Hk : forall v, (a ++ (f, v) :: b).*1 = (a ++ (f, v0) :: b).*1) by (intros; by rewrite !fmap_app).
  assert (Hm : forall v, (list_to_map (a ++ (f, v) :: b) : hmap) = <[f := v]> (list_to_map (a ++ b))).
  { intros v. rewrite (list_to_map_proper _ ((f, v) :: a ++ b)); [done | by rewrite Hk | apply Hp]. }
  assert (Hn2 := Hn). rewrite (Hp v0) in Hn2. cbn in Hn2. apply NoDup_cons in Hn2 as [Hf Hn2].
  assert (Hnone : (list_to_map (a ++ b) : hmap) !! f = None) by by apply not_elem_of_list_to_map.
  subst m. rewrite Hm. split_and!; [apply lookup_insert_eq | by rewrite delete_insert_id | done |].
  intros v. rewrite Hm, insert_insert_eq. split; [done |]. by rewrite Hk.
Qed.

Lemma pairs_find (kvs : pairs) f : f ∉ kvs.*1 \/ exists a v b, kvs = a ++ (f, v) :: b /\ f ∉ a.*1.
Proof.
  induction kvs as [|[k v] kvs [IH | (a & w & b & -> & Ha)]]; [left; apply not_elem_of_nil | |].
  - destruct (decide (k = f)) as [-> | Hne]; [right; exists [], v, kvs; split; [done | apply not_elem_of_nil] | left; cbn; set_solver].
  - destruct (decide (k = f)) as [-> | Hne]; [right; exists [], v, (a ++ (f, w) :: b); split; [done | apply not_elem_of_nil] |].
    right. exists ((k, v) :: a), w, b. split; [done |]. cbn. set_solver.
Qed.

Lemma flat_field a (f v : bytes) b : flat (a ++ (f, v) :: b) !! (2 * length a)%nat = Some f.
Proof. by rewrite flat_app, lookup_app_r, length_flat, Nat.sub_diag by (rewrite length_flat; lia). Qed.

Lemma flat_value a (f v : bytes) b : flat (a ++ (f, v) :: b) !! (2 * length a + 1)%nat = Some v.
Proof.
  rewrite flat_app, lookup_app_r, length_flat by (rewrite length_flat; lia). by replace (2 * length a + 1 - 2 * length a)%nat with 1%nat by lia.
Qed.

(** The search for a field, skipping values. *)
Lemma zfind_absent kvs f : f ∉ kvs.*1 -> forall n, zfind (flat kvs) f 1 0 n = None.
Proof.
  induction kvs as [|[k v] kvs IH]; [done |]. cbn. intros Hf n. rewrite bool_decide_eq_false_2 by set_solver. cbn. apply IH. set_solver.
Qed.

Lemma zfind_here a f v b : f ∉ a.*1 -> forall n, zfind (flat (a ++ (f, v) :: b)) f 1 0 n = Some (n + 2 * length a)%nat.
Proof.
  induction a as [|[k w] a IH]; intros Hf n.
  - cbn. rewrite bool_decide_eq_true_2 by done. f_equal. lia.
  - cbn [app flat]. cbn [zfind]. cbn in Hf. rewrite bool_decide_eq_false_2 by set_solver. cbn. rewrite IH by set_solver. f_equal. lia.
Qed.

(** ** Fields and values in a ziplist *)

Lemma zget_object_ok g : zget_ok g -> robj_ok (zget_object g) /\ sval (zget_object g) = Some (value_of g).
Proof.
  destruct g as [s | v]; cbn; intros Hg.
  - split; [unfold createStringObject; by destruct (_ <=? _) | apply sval_createStringObject].
  - split; [unfold createStringObjectFromLongLong; by destruct (_ && _) | apply sval_fromLongLong].
Qed.

(** ** The maps hashes denote *)

Section Spec.
Context (junk : nat -> Z) (seed : Z) (can_resize : bool) (hash_max_ziplist_entries hash_max_ziplist_value : Z) (a0 a1 : Z).

#[local] Hint Extern 0 (DictType elem elem) => exact (hashDictType seed) : typeclass_instances.
#[local] Instance hash_laws : DictTypeLaws elem elem := objDictLaws seed elem.

Lemma field_compare (e1 e2 : elem) : @keyCompare elem elem _ e1 e2 = bool_decide (bytes_of e1 = bytes_of e2).
Proof using. apply (obj_compare seed elem). Qed.

Definition hentry (e : dictEntry elem elem) : bytes * bytes := (bytes_of (key e), default [] (bytes_of <$> val e)).

Definition has_val (e : dictEntry elem elem) : Prop := is_Some (val e).

(** The pairs, in the order an iterator delivers them. *)
Definition hholds (h : hashobj) (kvs : pairs) : Prop :=
  match h with
  | HashZip zl => denotes zl (flat kvs) /\ NoDup kvs.*1 /\ Forall bytes_ok (flat kvs)
  | HashHT d => dict_ok d /\ Forall has_val (entries d) /\ kvs = hentry <$> entries d
  end.

Definition hdenotes (h : hashobj) (m : hmap) : Prop := exists kvs, hholds h kvs /\ m = list_to_map kvs.

Lemma distinct_fields (l : list (dictEntry elem elem)) : distinct l -> NoDup (hentry <$> l).*1.
Proof using.
  induction l as [|e l IH]; cbn [distinct fmap list_fmap]; [constructor |]. intros [Hf Hd]. constructor; [|auto].
  rewrite <- list_fmap_compose, list_elem_of_fmap. intros (e' & Heq & Hin).
  rewrite Forall_forall in Hf. specialize (Hf e' Hin). rewrite field_compare in Hf. by apply bool_decide_eq_false in Hf.
Qed.

Lemma hholds_NoDup h kvs : hholds h kvs -> NoDup kvs.*1.
Proof using. destruct h as [zl | d]; [intros (_ & ? & _) | intros (Hok & _ & ->); apply distinct_fields, Hok]; done. Qed.

Lemma assoc_field d k : dict_ok d ->
  match assoc (entries d) k with
  | Some e => bytes_of (key e) = bytes_of k /\ exists rest, entries d ≡ₚ e :: rest
  | None => bytes_of k ∉ (hentry <$> entries d).*1
  end.
Proof using.
  intros Hok. destruct (assoc (entries d) k) as [e|] eqn:Ha.
  - apply assoc_elem in Ha as [Hin Hm]. unfold matches in Hm. rewrite field_compare, bool_decide_eq_true in Hm. split; [done |]. by apply elem_of_Permutation.
  - rewrite <- list_fmap_compose, list_elem_of_fmap. intros (e & Heq & Hin). pose proof (assoc_not_elem _ _ _ Ha Hin) as Hm. unfold matches in Hm.
    rewrite field_compare in Hm. by apply bool_decide_eq_false in Hm.
Qed.

Lemma map_perm (kvs kvs' : pairs) : NoDup kvs.*1 -> kvs' ≡ₚ kvs -> NoDup kvs'.*1 /\ (list_to_map kvs' : hmap) = list_to_map kvs.
Proof using.
  intros Hn Hp. assert (NoDup kvs'.*1) by by rewrite Hp. split; [done |]. by apply list_to_map_proper.
Qed.

Lemma decoded o b : robj_ok o -> sval o = Some b -> exists o', getDecodedObject o = Some o' /\ sds_ptr o' = Some b.
Proof using. intros Hok Hs. destruct (getDecoded_spec o b Hok Hs) as (d & e & c & -> & ->). eauto. Qed.

(** ** Lookup *)

Lemma zip_find_spec zl kvs f : hholds (HashZip zl) kvs -> 11 + vsum (flat kvs) < 2 ^ 32 ->
  ((f ∉ kvs.*1) /\ zip_find zl f = Some None) \/
  exists a v b p q, kvs = a ++ (f, v) :: b /\ zip_find zl f = Some (Some (p, q)) /\
    ziplistIndex zl (Z.of_nat (2 * length a)) = Some (Some p) /\ ziplistIndex zl (Z.of_nat (2 * length a + 1)) = Some (Some q).
Proof using.
  intros (Hd & Hn & Hb) Hsz. unfold zip_find. rewrite (zip_first zl (flat kvs) Hd Hsz). cbn [mbind option_bind].
  destruct (ZiplistProps.denotes_reads zl (flat kvs) Hd Hsz) as (_ & _ & Hfind). specialize (Hfind f 1 ltac:(lia)).
  destruct (pairs_find kvs f) as [Hf | (a & v & b & -> & Ha)].
  - left. split; [done |]. rewrite (zfind_absent _ _ Hf) in Hfind. destruct (flat kvs); [done |]. by rewrite Hfind.
  - right. rewrite (zfind_here a f v b Ha) in Hfind. cbn [Nat.add] in Hfind.
    pose proof (flat_field a f v b) as Hf0. pose proof (flat_value a f v b) as Hv0.
    assert (Hlen : (2 * length a + 1 < length (flat (a ++ (f, v) :: b)))%nat) by by apply lookup_lt_Some in Hv0.
    destruct (zip_entry _ _ Hd Hsz _ _ Hf0) as (p & g & Hp & _ & _ & _ & Hnext); [by eapply Forall_lookup_1 |].
    destruct (zip_entry _ _ Hd Hsz _ _ Hv0) as (q & g' & Hq & _); [by eapply Forall_lookup_1 |].
    exists a, v, b, p, q. split_and!; [done | | done | done]. rewrite Hp in Hfind.
    destruct (flat (a ++ (f, v) :: b)) as [|x l] eqn:Hfl; [done |]. rewrite Hfind. cbn [mbind option_bind]. rewrite Hnext.
    destruct (Nat.ltb_spec (S (2 * length a)) (length (x :: l))); [|lia]. replace (S (2 * length a)) with (2 * length a + 1)%nat by lia. by rewrite Hq.
Qed.

Lemma lookup_absent (kvs : pairs) f : f ∉ kvs.*1 -> (list_to_map kvs : hmap) !! f = None.
Proof using. apply not_elem_of_list_to_map_1. Qed.

Lemma get_zip_spec zl kvs o f : hholds (HashZip zl) kvs -> 11 + vsum (flat kvs) < 2 ^ 32 -> robj_ok o -> sval o = Some f ->
  exists g, hashTypeGetFromZiplist zl o = Some g /\ value_of <$> g = (list_to_map kvs : hmap) !! f /\ from_option zget_ok True g.
Proof using.
  intros Hh Hsz Hok Hs. unfold hashTypeGetFromZiplist. destruct (decoded o f Hok Hs) as (o' & -> & Ho'). cbn [mbind option_bind]. rewrite Ho'. cbn [mbind option_bind].
  destruct (zip_find_spec zl kvs f Hh Hsz) as [[Hf ->] | (a & v & b & p & q & -> & -> & _ & Hq)]; cbn [mbind option_bind].
  - exists None. by rewrite lookup_absent.
  - destruct Hh as (Hd & Hn & Hb). destruct (pairs_split a b f v Hn) as (Hl & _).
    pose proof (flat_value a f v b) as Hv0.
    destruct (zip_entry _ _ Hd Hsz _ _ Hv0) as (q' & g & Hq' & Hg & Hval & Hgok & _); [by eapply Forall_lookup_1 |].
    assert (q' = q) as -> by congruence. rewrite Hg. cbn [mbind option_bind]. exists (Some g). split_and!; [done | | done]. cbn. by rewrite Hval, Hl.
Qed.

Lemma get_ht_spec d kvs o f : hholds (HashHT d) kvs -> robj_ok o -> sval o = Some f ->
  exists v, hashTypeGetFromHashTable seed d o = Some v /\ v ≫= sval = (list_to_map kvs : hmap) !! f /\ from_option robj_ok True v /\
    from_option (fun v => is_Some (sval v)) True v.
Proof using.
  intros (Hok & Hv & ->) Ho Hs. unfold hashTypeGetFromHashTable. destruct (elem_of_arg o f Ho Hs) as (e & -> & Hb). cbn [mbind option_bind].
  pose proof (dictFind_spec d e Hok) as Hfind. pose proof (assoc_field d e Hok) as Ha. rewrite Hb in Ha. destruct (assoc (entries d) e) as [en|].
  - destruct Hfind as (r & -> & Hr), Ha as (Heq & rest & Hp). cbn [mbind option_bind]. rewrite Hr. cbn [mbind option_bind].
    assert (Hen : has_val en) by (rewrite Hp in Hv; by inversion Hv). destruct Hen as [x Hx]. rewrite Hx. cbn [mbind option_bind]. destruct (elem_ok x) as [Hx1 Hx2].
    eexists. split; [done |]. cbn [option_bind mbind from_option]. split_and!; [| done | by rewrite Hx2].
    rewrite Hx2. pose proof (distinct_fields _ (ok_distinct _ Hok)) as Hn.
    destruct (map_perm (hentry <$> entries d) (hentry <$> (en :: rest)) Hn) as [_ <-]; [by rewrite Hp |]. cbn. unfold hentry at 1. rewrite Heq, Hx. cbn. by rewrite lookup_insert_eq.
  - rewrite Hfind. cbn. exists None. by rewrite lookup_absent.
Qed.

(** ** Iteration *)

(** The field or value an iterator stands at. *)
Definition shows (h : hashobj) (hi : hashTypeIterator) (what : Z) (b : bytes) : Prop :=
  match h with
  | HashZip zl => exists g, hashTypeCurrentFromZiplist zl hi what = Some g /\ zget_ok g /\ value_of g = b
  | HashHT _ => exists o, hashTypeCurrentFromHashTable hi what = Some o /\ robj_ok o /\ sval o = Some b
  end.

Lemma shows_object h hi what b : shows h hi what b -> exists o, hashTypeCurrentObject h hi what = Some o /\ robj_ok o /\ sval o = Some b.
Proof using.
  destruct h as [zl | d]; cbn; [intros (g & -> & Hg & <-) | intros (o & Ho); eauto]. cbn. eexists. split; [done |]. by apply zget_object_ok.
Qed.

(** The pairs an iterator delivers, the hash staying as it is; the release at
    the end succeeds. *)
Inductive hyields (h : hashobj) : hashTypeIterator -> pairs -> Prop :=
  | hyields_nil hi hi' : hashTypeNext a0 a1 h hi = Some (h, hi', false) -> hashTypeReleaseIterator a0 a1 h hi' = Some h -> hyields h hi []
  | hyields_cons hi hi' k v kvs : hashTypeNext a0 a1 h hi = Some (h, hi', true) -> shows h hi' OBJ_HASH_KEY k -> shows h hi' OBJ_HASH_VALUE v ->
      hyields h hi' kvs -> hyields h hi ((k, v) :: kvs).

(** An iterator over a ziplist that has delivered [i] pairs. *)
Definition zip_at (zl : list Z) (i : nat) (hi : hashTypeIterator) : Prop :=
  match i with
  | O => hi = HiZip None None
  | S j => exists p q, hi = HiZip (Some p) (Some q) /\ ziplistIndex zl (Z.of_nat (2 * j + 1)) = Some (Some q)
  end.

Lemma next_zip zl kvs a b hi : hholds (HashZip zl) kvs -> 11 + vsum (flat kvs) < 2 ^ 32 -> kvs = a ++ b -> zip_at zl (length a) hi ->
  match b with
  | [] => hashTypeNext a0 a1 (HashZip zl) hi = Some (HashZip zl, hi, false)
  | (k, v) :: _ => exists hi', hashTypeNext a0 a1 (HashZip zl) hi = Some (HashZip zl, hi', true) /\ zip_at zl (S (length a)) hi' /\
      shows (HashZip zl) hi' OBJ_HASH_KEY k /\ shows (HashZip zl) hi' OBJ_HASH_VALUE v
  end.
Proof using.
  intros (Hd & _ & Hb) Hsz -> Hat.
  assert (Hstep : exists fp vp, hi = HiZip fp vp /\ (match fp, vp with None, None => ziplistIndex zl 0 | Some _, Some vptr => ziplistNext zl vptr | _, _ => None end) =
    if (2 * length a <? length (flat (a ++ b)))%nat then ziplistIndex zl (Z.of_nat (2 * length a)) else Some None).
  { destruct a as [|[k w] a' _] using rev_ind; cbn [zip_at length] in Hat.
    - exists None, None. split; [done |]. cbn [app length]. change (Z.of_nat (2 * 0)) with 0. rewrite (zip_first _ _ Hd Hsz). cbn [app]. by destruct (flat b).
    - rewrite length_app, Nat.add_1_r in Hat. destruct Hat as (p & q & -> & Hq). exists (Some p), (Some q). split; [done |]. rewrite <- app_assoc in *. cbn [app] in *.
      pose proof (flat_value a' k w b) as Hw. destruct (zip_entry _ _ Hd Hsz _ _ Hw) as (q' & g & Hq' & _ & _ & _ & Hn); [by eapply Forall_lookup_1 |].
      assert (q' = q) as -> by congruence. rewrite Hn, length_app. cbn [length]. by replace (S (2 * length a' + 1)) with (2 * (length a' + 1))%nat by lia. }
  destruct Hstep as (fp & vp & -> & Hs). cbn [hashTypeNext]. rewrite Hs. rewrite length_flat, length_app. destruct b as [|[k v] b]; cbn [length].
  - destruct (Nat.ltb_spec (2 * length a) (2 * (length a + 0))); [lia | done].
  - destruct (Nat.ltb_spec (2 * length a) (2 * (length a + S (length b)))); [|lia].
    destruct (zip_entry _ _ Hd Hsz _ _ (flat_field a k v b)) as (p & g & Hp & Hg & Hgv & Hgok & Hn); [eapply Forall_lookup_1; [done | apply flat_field] |].
    destruct (zip_entry _ _ Hd Hsz _ _ (flat_value a k v b)) as (q & g' & Hq & Hg' & Hgv' & Hgok' & _); [eapply Forall_lookup_1; [done | apply flat_value] |].
    rewrite Hp. cbn [mbind option_bind]. unfold zip_cursor. rewrite Hn, length_flat, length_app. cbn [length].
    destruct (Nat.ltb_spec (S (2 * length a)) (2 * (length a + S (length b)))); [|lia]. replace (S (2 * length a)) with (2 * length a + 1)%nat by lia. rewrite Hq. cbn [mbind option_bind].
    eexists. split_and!; [done | by exists p, q | exists g | exists g']; (split; [|done]); unfold hashTypeCurrentFromZiplist.
    + change (Z.land OBJ_HASH_KEY OBJ_HASH_KEY =? 0) with false. cbn [negb]. by rewrite Hg.
    + change (Z.land OBJ_HASH_VALUE OBJ_HASH_KEY =? 0) with true. cbn [negb]. by rewrite Hg'.
Qed.

Lemma hyields_zip zl kvs : hholds (HashZip zl) kvs -> 11 + vsum (flat kvs) < 2 ^ 32 ->
  forall b a hi, kvs = a ++ b -> zip_at zl (length a) hi -> hyields (HashZip zl) hi b.
Proof using.
  intros Hh Hsz. induction b as [|[k v] b IH]; intros a hi Hk Hat; pose proof (next_zip zl kvs a _ hi Hh Hsz Hk Hat) as Hn; cbn in Hn.
  - eapply hyields_nil; [exact Hn |]. destruct a; cbn in Hat; [by subst hi | by destruct Hat as (? & ? & -> & _)].
  - destruct Hn as (hi' & Hn & Hat' & Hk' & Hv'). eapply hyields_cons; [done.. |]. apply (IH (a ++ [(k, v)])); [by rewrite <- app_assoc | by rewrite length_app, Nat.add_1_r].
Qed.

Lemma hyields_ht d it l : Forall has_val l -> delivers a0 a1 d it l -> forall de, hyields (HashHT d) (HiHT it de) (hentry <$> l).
Proof using.
  intros Hv Hd. induction Hd as [it it' Hn Hr | it it' e es Hn _ IH]; intros de.
  - eapply (hyields_nil _ _ (HiHT it' None)); cbn; [by rewrite Hn | by rewrite Hr].
  - inversion_clear Hv as [|? ? [x Hx] Hv']. eapply (hyields_cons _ _ (HiHT it' (Some e))).
    + cbn [hashTypeNext]. by rewrite Hn.
    + cbn. eexists. split; [done |]. apply elem_ok.
    + cbn. rewrite Hx. cbn. eexists. split; [done |]. apply elem_ok.
    + by apply IH.
Qed.

(** An iterator delivers the pairs. *)
Lemma hyields_init h kvs : hholds h kvs -> 11 + vsum (flat kvs) < 2 ^ 32 -> hyields h (hashTypeInitIterator h) kvs.
Proof using.
  intros Hh Hsz. destruct h as [zl | d]; cbn [hashTypeInitIterator].
  - by apply (hyields_zip zl kvs Hh Hsz kvs []).
  - destruct Hh as (Hok & Hv & ->). by apply hyields_ht, delivers_all.
Qed.

(** ** Conversion *)

Lemma ht_add d kvs f v : hholds (HashHT d) kvs -> bytes_of f ∉ kvs.*1 -> zlen kvs < DICT_MAX ->
  exists d' kvs', dictAdd can_resize d f v = Some (d', DICT_OK) /\ hholds (HashHT d') kvs' /\ kvs' ≡ₚ (bytes_of f, bytes_of v) :: kvs.
Proof using.
  intros (Hok & Hv & ->) Hf Hsz. rewrite length_fmap in Hsz. destruct (dictAdd_spec can_resize d f v Hok Hsz) as (d' & Hok' & Hs). pose proof (assoc_field d f Hok) as Ha.
  destruct (assoc (entries d) f) as [e|].
  - destruct Ha as (Heq & rest & Hp). exfalso. apply Hf. rewrite Hp. cbn. rewrite Heq. by left.
  - destruct Hs as [-> Hp]. exists d', (hentry <$> entries d'). split_and!; [done | | by rewrite Hp]. split_and!; [done | | done]. rewrite Hp. constructor; [by eexists | done].
Qed.

Lemma hconvert_loop_spec h hi b : hyields h hi b -> forall fuel d kvs acc, (length b < fuel)%nat -> hholds (HashHT d) kvs -> kvs ≡ₚ acc ->
  NoDup (acc ++ b).*1 -> zlen (acc ++ b) < DICT_MAX ->
  exists d' hi' kvs', hconvert_loop seed can_resize a0 a1 fuel h hi d = Some (d', h, hi') /\ hashTypeReleaseIterator a0 a1 h hi' = Some h /\
    hholds (HashHT d') kvs' /\ kvs' ≡ₚ acc ++ b.
Proof using.
  induction 1 as [hi hi' Hn Hr | hi hi' k v b Hn Hk Hv _ IH]; intros fuel d kvs acc Hf Hh Hp Hnd Hsz; (destruct fuel as [|fuel]; [lia |]); cbn [hconvert_loop]; rewrite Hn; cbn [mbind option_bind].
  - exists d, hi', kvs. by rewrite app_nil_r.
  - destruct (shows_object _ _ _ _ Hk) as (ko & -> & Hk1 & Hk2). destruct (shows_object _ _ _ _ Hv) as (vo & Hvo & Hv1 & Hv2). cbn [mbind option_bind].
    destruct (tryEncoding_spec ko k Hk1 Hk2) as (ko' & -> & Hk3 & Hk4). destruct (tryEncoding_spec vo v Hv1 Hv2) as (vo' & Hvo' & Hv3 & Hv4). cbn [mbind option_bind]. rewrite Hvo. cbn [mbind option_bind].
    rewrite Hvo'. cbn [mbind option_bind]. destruct (elem_of_arg ko' k Hk4 Hk3) as (ke & -> & Hke). destruct (elem_of_arg vo' v Hv4 Hv3) as (ve & Hve & Hveb). cbn [mbind option_bind]. rewrite Hve. cbn [mbind option_bind].
    rewrite length_app in Hsz. cbn [length] in *. pose proof (Permutation_length Hp) as Hpl.
    destruct (ht_add d kvs ke ve Hh) as (d' & kvs' & -> & Hh' & Hp'); [| lia |].
    { rewrite Hp, Hke. rewrite fmap_app in Hnd. apply NoDup_app in Hnd as (_ & Hx & _). intros Hin. apply (Hx k Hin). by left. }
    cbn [mbind option_bind]. change (DICT_OK =? DICT_OK) with true. cbn iota. rewrite Hke, Hveb in Hp'.
    destruct (IH fuel d' kvs' (acc ++ [(k, v)])) as (d2 & hi2 & kvs2 & ? & ? & ? & Hp2); [lia | done | | by rewrite <- app_assoc | rewrite <- app_assoc, length_app; cbn [length app]; lia |].
    { rewrite Hp', Hp. apply Permutation_cons_append. }
    exists d2, hi2, kvs2. split_and!; try done. by rewrite <- app_assoc in Hp2.
Qed.

(** Hashes that fit a ziplist have few fields. *)
Lemma pairs_max kvs : 11 + vsum (flat kvs) < 2 ^ 32 -> zlen kvs < DICT_MAX.
Proof using. intros Hsz. pose proof (vsum_length (flat kvs)) as Hv. rewrite length_flat in Hv. unfold DICT_MAX. lia. Qed.

Lemma hconvert_spec zl kvs : hholds (HashZip zl) kvs -> 11 + vsum (flat kvs) < 2 ^ 32 ->
  exists d kvs', hashTypeConvert seed can_resize a0 a1 (HashZip zl) = Some (HashHT d) /\ hholds (HashHT d) kvs' /\ kvs' ≡ₚ kvs.
Proof using.
  intros Hh Hsz. cbn [hashTypeConvert]. unfold hashTypeConvertZiplist.
  destruct (hconvert_loop_spec _ _ _ (hyields_init _ _ Hh Hsz) (S (length zl)) dictCreate [] []) as (d & hi & kvs' & -> & Hr & Hh' & Hp).
  - destruct Hh as ((es & [(cnt & -> & _) Hf _] & Hvs) & _). pose proof (ZiplistProps.layout_fuel es cnt) as Hfu. rewrite <- (ZiplistProps.length_values es), Hvs, length_flat in Hfu. lia.
  - split_and!; [apply dict_ok_create | constructor | done].
  - done.
  - apply Hh.
  - by apply pairs_max.
  - cbn [mbind option_bind]. rewrite Hr. cbn. eauto.
Qed.

(** ** The operations on maps *)

Lemma hdenotes_pairs h kvs : hholds h kvs -> fits_zip (list_to_map kvs) -> 11 + vsum (flat kvs) < 2 ^ 32.
Proof using. intros Hh. unfold fits_zip. by rewrite (weight_pairs kvs (hholds_NoDup _ _ Hh)). Qed.

Lemma length_spec h m : hdenotes h m -> fits_zip m -> exists h', hashTypeLength h = Some (h', Z.of_nat (base.size m)) /\ hdenotes h' m.
Proof using.
  intros (kvs & Hh & ->) Hw. pose proof (hdenotes_pairs h kvs Hh Hw) as Hsz. pose proof (hholds_NoDup _ _ Hh) as Hn.
  assert (Hs : base.size (list_to_map kvs : hmap) = length kvs) by by apply map_size_list_to_map. rewrite Hs.
  destruct h as [zl | d]; cbn [hashTypeLength].
  - destruct Hh as (Hd & _ & Hb). destruct (zip_len _ _ Hd Hsz) as (zl' & -> & Hd'). cbn [mbind option_bind]. rewrite length_flat.
    replace (Z.of_nat (2 * length kvs) / 2) with (zlen kvs) by (rewrite Nat2Z.inj_mul, Z.mul_comm, Z.div_mul; lia). eexists. split; [done |]. by exists kvs.
  - destruct Hh as (Hok & Hv & ->). unfold dictSize. rewrite (count_zero d Hok), length_fmap. eexists. split; [done |]. by exists (hentry <$> entries d).
Qed.

Lemma convert_map zl m : hdenotes (HashZip zl) m -> fits_zip m -> exists d, hashTypeConvert seed can_resize a0 a1 (HashZip zl) = Some (HashHT d) /\ hdenotes (HashHT d) m.
Proof using.
  intros (kvs & Hh & ->) Hw. destruct (hconvert_spec zl kvs Hh (hdenotes_pairs _ _ Hh Hw)) as (d & kvs' & -> & Hh' & Hp). exists d. split; [done |].
  exists kvs'. split; [done |]. symmetry. apply (map_perm kvs kvs'); [apply Hh | done].
Qed.

Lemma try_conversion_spec h m argv : hdenotes h m -> fits_zip m ->
  exists h', hashTypeTryConversion seed can_resize hash_max_ziplist_value a0 a1 h argv = Some h' /\ hdenotes h' m.
Proof using.
  intros Hd Hw. destruct h as [zl | d]; cbn [hashTypeTryConversion]; [|by eauto]. destruct (existsb _ _); [|by eauto]. destruct (convert_map zl m Hd Hw) as (d & -> & ?). eauto.
Qed.

Lemma try_encoding_spec h o b : robj_ok o -> sval o = Some b -> exists o', hashTypeTryObjectEncoding h o = Some o' /\ robj_ok o' /\ sval o' = Some b.
Proof using. intros Hok Hs. destruct h; cbn; [by eauto |]. destruct (tryEncoding_spec o b Hok Hs) as (o' & -> & ? & ?). eauto. Qed.

Lemma push_pair zl kvs f v : denotes zl (flat kvs) -> bytes_ok f -> bytes_ok v -> 11 + vsum (flat (kvs ++ [(f, v)])) < 2 ^ 32 ->
  exists zl1 zl2, ziplistPush junk zl f false = Some zl1 /\ ziplistPush junk zl1 v false = Some zl2 /\ denotes zl2 (flat (kvs ++ [(f, v)])).
Proof using.
  intros Hd Hf Hv Hsz. rewrite flat_app in *. cbn [flat] in *. rewrite vsum_app in Hsz. cbn [vsum] in Hsz.
  destruct (ZiplistProps.zrun_spec junk (ZiplistProps.ZPush false f) zl (flat kvs) Hd Hf) as (zl1 & Hz1 & Hd1); [lia | cbn; rewrite vsum_app; cbn [vsum]; lia |].
  destruct (ZiplistProps.zrun_spec junk (ZiplistProps.ZPush false v) zl1 _ Hd1 Hv) as (zl2 & Hz2 & Hd2); [cbn; rewrite !vsum_app; cbn [vsum]; lia.. |].
  exists zl1, zl2. cbn in *. by rewrite <- app_assoc in Hd2.
Qed.

(** The update of the ziplist in [hashTypeSet]. *)
Lemma zip_set zl kvs f v : hholds (HashZip zl) kvs -> 11 + vsum (flat kvs) < 2 ^ 32 -> bytes_ok f -> bytes_ok v ->
  fits_zip (<[f := v]> (list_to_map kvs)) ->
  exists zl' kvs', (r ← zip_find zl f;
    match r with
    | Some (_, vptr) => '(zl, vptr) ← ziplistDelete junk zl vptr; zl ← ziplistInsert junk zl vptr v; Some (zl, true)
    | None => zl ← ziplistPush junk zl f false; zl ← ziplistPush junk zl v false; Some (zl, false)
    end) = Some (zl', bool_decide (is_Some ((list_to_map kvs : hmap) !! f))) /\ hholds (HashZip zl') kvs' /\ <[f := v]> (list_to_map kvs : hmap) = list_to_map kvs'.
Proof using.
  intros Hh Hsz Hf Hv Hw. pose proof Hh as (Hd & Hn & Hb).
  destruct (zip_find_spec zl kvs f Hh Hsz) as [[Hnin ->] | (a & v0 & b & p & q & -> & -> & _ & Hq)]; cbn [mbind option_bind].
  - rewrite lookup_absent by done. assert (Hp : kvs ++ [(f, v)] ≡ₚ (f, v) :: kvs) by (symmetry; apply Permutation_cons_append).
    assert (Hn' : NoDup (kvs ++ [(f, v)]).*1) by (rewrite Hp; cbn; by constructor).
    assert (Hm : <[f := v]> (list_to_map kvs : hmap) = list_to_map (kvs ++ [(f, v)])) by by rewrite (list_to_map_proper _ ((f, v) :: kvs) Hn' Hp).
    unfold fits_zip in Hw. rewrite Hm, weight_pairs in Hw by done.
    destruct (push_pair zl kvs f v Hd Hf Hv Hw) as (zl1 & zl2 & -> & Hz2 & Hd2). cbn [mbind option_bind]. rewrite Hz2. cbn.
    exists zl2, (kvs ++ [(f, v)]). split_and!; [done | done | done | | done]. rewrite flat_app. apply Forall_app. split; [done |]. by repeat constructor.
  - destruct (pairs_split a b f v0 Hn) as (Hl & _ & _ & Hins). destruct (Hins v) as [Hm Hn']. rewrite Hl.
    assert (Hfl : <[(2 * length a + 1)%nat := v]> (flat (a ++ (f, v0) :: b)) = flat (a ++ (f, v) :: b)).
    { rewrite !flat_app, insert_app_r_alt by (rewrite length_flat; lia). rewrite length_flat. replace (2 * length a + 1 - 2 * length a)%nat with 1%nat by lia. done. }
    unfold fits_zip in Hw. rewrite Hm, weight_pairs in Hw by done.
    destruct (ZiplistProps.replace_rep junk zl _ _ v0 v Hd (flat_value a f v0 b) Hv Hsz) as (p' & Hp' & zl1 & zl2 & Hz1 & Hz2 & Hd2); [by rewrite Hfl |].
    assert (p' = q) as -> by congruence. rewrite Hz1. cbn [mbind option_bind]. rewrite Hz2. cbn [mbind option_bind]. rewrite Hfl in Hd2.
    exists zl2, (a ++ (f, v) :: b). split_and!; [done | split_and!; [done | done |] | done].
    rewrite flat_app in *. cbn [flat] in *. rewrite !Forall_app, !Forall_cons in *. naive_solver.
Qed.

Lemma ht_set d kvs fe ve : hholds (HashHT d) kvs -> zlen kvs < DICT_MAX -> let m : hmap := list_to_map kvs in
  exists d', dictReplace can_resize d fe ve = Some (d', b2z (negb (bool_decide (is_Some (m !! bytes_of fe))))) /\ hdenotes (HashHT d') (<[bytes_of fe := bytes_of ve]> m).
Proof using.
  intros Hh Hmax m. pose proof (hholds_NoDup _ _ Hh) as Hn. destruct Hh as (Hok & Hvals & ->). rewrite length_fmap in Hmax.
  destruct (dictReplace_spec can_resize d fe ve Hok Hmax) as (d' & Hok' & Hs). pose proof (assoc_field d fe Hok) as Ha. exists d'. destruct (assoc (entries d) fe) as [e|].
  - destruct Hs as (-> & rest & Hp & Hp'), Ha as (Heq & _). assert (Hperm : [] ++ hentry e :: (hentry <$> rest) ≡ₚ hentry <$> entries d) by by rewrite Hp.
    destruct (map_perm _ _ Hn Hperm) as [Hn2 Hm2]. change (hentry e) with (bytes_of (key e), default [] (bytes_of <$> val e)) in Hn2, Hm2. rewrite Heq in Hn2, Hm2. destruct (pairs_split [] _ _ _ Hn2) as (Hl & _ & _ & Hins). destruct (Hins (bytes_of ve)) as [Hi1 Hi2].
    subst m. rewrite <- Hm2, Hl. split; [done |]. exists (hentry <$> entries d'). rewrite Hi1. split; [split_and!; [done | | done] |].
    + rewrite Hp'. rewrite Hp in Hvals. inversion_clear Hvals. constructor; [by eexists | done].
    + symmetry. apply map_perm; [done |]. rewrite Hp'. cbn. unfold hentry at 1. cbn. by rewrite Heq.
  - destruct Hs as (-> & Hp). subst m. rewrite lookup_absent by done. split; [done |]. exists (hentry <$> entries d'). split; [split_and!; [done | | done] |].
    + rewrite Hp. constructor; [by eexists | done].
    + symmetry. apply (map_perm ((bytes_of fe, bytes_of ve) :: (hentry <$> entries d))); [cbn; by constructor | by rewrite Hp].
Qed.

Lemma set_spec h m fo vo f v : hdenotes h m -> robj_ok fo -> sval fo = Some f -> robj_ok vo -> sval vo = Some v -> fits_zip m -> fits_zip (<[f := v]> m) ->
  exists h', hashTypeSet junk seed can_resize hash_max_ziplist_entries a0 a1 h fo vo = Some (h', bool_decide (is_Some (m !! f))) /\ hdenotes h' (<[f := v]> m).
Proof using.
  intros (kvs & Hh & ->) Hf1 Hf2 Hv1 Hv2 Hw Hw'. pose proof (hdenotes_pairs h kvs Hh Hw) as Hsz. destruct h as [zl | d]; cbn [hashTypeSet].
  - destruct (decoded fo f Hf1 Hf2) as (fo' & -> & Hfs). destruct (decoded vo v Hv1 Hv2) as (vo' & Hvd & Hvs). cbn [mbind option_bind]. rewrite Hvd. cbn [mbind option_bind]. rewrite Hfs. cbn [mbind option_bind].
    rewrite Hvs. cbn [mbind option_bind]. destruct (zip_set zl kvs f v Hh Hsz (sval_bytes _ _ Hf1 Hf2) (sval_bytes _ _ Hv1 Hv2) Hw') as (zl' & kvs' & Hz & Hh' & Hm).
    destruct (zip_find zl f) as [r|]; [|done]. cbn [mbind option_bind] in *. rewrite Hz. cbn [mbind option_bind]. rewrite Hm in *.
    destruct (length_spec (HashZip zl') (list_to_map kvs')) as (h2 & Hl & Hd2); [by exists kvs' | done |]. rewrite Hl. cbn [mbind option_bind].
    destruct (_ >? _); [|by eauto]. destruct h2 as [zl2 | d2].
    + destruct (convert_map zl2 _ Hd2 Hw') as (d & -> & Hd3). cbn. eauto.
    + cbn in Hl. destruct (ziplistLen zl') as [[? ?]|]; done.
  - destruct (dup_elem fo f Hf1 Hf2) as (fo' & fe & -> & Hfe & <-). destruct (dup_elem vo v Hv1 Hv2) as (vo' & ve & Hvd & Hve & <-). cbn [mbind option_bind]. rewrite Hvd. cbn [mbind option_bind].
    rewrite Hfe. cbn [mbind option_bind]. rewrite Hve. cbn [mbind option_bind]. destruct (ht_set d kvs fe ve Hh (pairs_max _ Hsz)) as (d' & -> & Hd'). cbn [mbind option_bind].
    eexists. split; [|exact Hd']. by destruct (bool_decide _).
Qed.

Lemma cut_middle {A} (l r : list A) x : take (length l) (l ++ x :: r) ++ drop (S (length l)) (l ++ x :: r) = l ++ r.
Proof using. rewrite take_app_length. f_equal. replace (S (length l)) with (length l + 1)%nat by lia. by rewrite drop_app_add. Qed.

(** The two deletions of [hashTypeDelete]. *)
Lemma zip_delete_pair zl a f v b : denotes zl (flat (a ++ (f, v) :: b)) -> 11 + vsum (flat (a ++ (f, v) :: b)) < 2 ^ 32 ->
  exists p zl1 zl2, ziplistIndex zl (Z.of_nat (2 * length a)) = Some (Some p) /\ ziplistDelete junk zl p = Some (zl1, p) /\ ziplistDelete junk zl1 p = Some (zl2, p) /\
    denotes zl2 (flat (a ++ b)).
Proof using.
  intros Hd Hsz. rewrite !flat_app, <- length_flat in *. cbn [flat] in *.
  destruct (zip_delete _ _ Hd Hsz junk (length (flat a)) f) as (p & zl1 & Hp & Hz1 & Hd1 & Hp1); [by rewrite lookup_app_r, Nat.sub_diag by lia |].
  rewrite cut_middle in Hd1. assert (Hsz1 : 11 + vsum (flat a ++ v :: flat b) < 2 ^ 32) by (rewrite !vsum_app in *; cbn [vsum] in *; lia).
  destruct (zip_delete _ _ Hd1 Hsz1 junk (length (flat a)) v) as (p2 & zl2 & Hp2 & Hz2 & Hd2 & _); [by rewrite lookup_app_r, Nat.sub_diag by lia |].
  rewrite cut_middle in Hd2. rewrite Hp1 in Hp2 by (rewrite length_app; cbn [length]; lia). injection Hp2 as <-. exists p, zl1, zl2. done.
Qed.

Lemma delete_spec h m fo f : hdenotes h m -> robj_ok fo -> sval fo = Some f -> fits_zip m ->
  exists h', hashTypeDelete junk seed can_resize h fo = Some (h', bool_decide (is_Some (m !! f))) /\ hdenotes h' (delete f m).
Proof using.
  intros (kvs & Hh & ->) Hf1 Hf2 Hw. pose proof (hdenotes_pairs h kvs Hh Hw) as Hsz. pose proof (hholds_NoDup _ _ Hh) as Hn. destruct h as [zl | d]; cbn [hashTypeDelete].
  - destruct (decoded fo f Hf1 Hf2) as (fo' & -> & Hfs). cbn [mbind option_bind]. rewrite Hfs. cbn [mbind option_bind].
    pose proof Hh as (Hd & _ & Hb). destruct (ZiplistProps.denotes_reads zl (flat kvs) Hd Hsz) as (_ & _ & Hfind). specialize (Hfind f 1 ltac:(lia)). rewrite (zip_first _ _ Hd Hsz). cbn [mbind option_bind].
    destruct (pairs_find kvs f) as [Hf | (a & v & b & -> & Ha)].
    + rewrite (zfind_absent _ _ Hf) in Hfind. rewrite delete_id, lookup_absent by (done || by apply lookup_absent).
      destruct (flat kvs) eqn:Hfl; [|rewrite Hfind]; (eexists; split; [done |]); by exists kvs.
    + rewrite (zfind_here a f v b Ha) in Hfind. cbn [Nat.add] in Hfind. destruct (pairs_split a b f v Hn) as (Hl & Hdel & Hn' & _). rewrite Hl, Hdel.
      destruct (zip_delete_pair zl a f v b Hd Hsz) as (p & zl1 & zl2 & Hp & Hz1 & Hz2 & Hd2). rewrite Hp in Hfind.
      destruct (flat (a ++ (f, v) :: b)) as [|x l] eqn:Hfl; [by destruct a as [|[]] |]. rewrite Hfind. cbn [mbind option_bind]. rewrite Hz1. cbn [mbind option_bind]. rewrite Hz2. cbn [mbind option_bind].
      eexists. split; [done |]. exists (a ++ b). split; [|done]. split_and!; [done | done |]. rewrite <- Hfl in Hb. rewrite flat_app in *. cbn [flat] in Hb. rewrite !Forall_app, !Forall_cons in *. naive_solver.
  - destruct Hh as (Hok & Hv & ->). destruct (elem_of_arg fo f Hf1 Hf2) as (e & -> & Hb). cbn [mbind option_bind]. unfold dictDelete.
    destruct (dictGenericDelete_spec d e Hok) as (d' & Hok' & Hd). pose proof (assoc_field d e Hok) as Ha. rewrite Hb in Ha. destruct (assoc (entries d) e) as [en|].
    + destruct Hd as [-> Hp], Ha as (Heq & _). cbn [mbind option_bind]. change (DICT_OK =? DICT_OK) with true. cbn iota. assert (Hperm : [] ++ hentry en :: (hentry <$> entries d') ≡ₚ hentry <$> entries d) by by rewrite Hp.
      destruct (map_perm _ _ Hn Hperm) as [Hn2 Hm2]. change (hentry en) with (bytes_of (key en), default [] (bytes_of <$> val en)) in Hn2, Hm2. rewrite Heq in Hn2, Hm2. destruct (pairs_split [] _ _ _ Hn2) as (Hl & Hdel & _). rewrite <- Hm2, Hl, Hdel. cbn [app].
      rewrite Hp in Hv. inversion_clear Hv.
      destruct (SetType.htNeedsResize d'); [destruct (dictResize_spec can_resize d' Hok') as (d2 & st & -> & Hok2 & He2) |]; cbn [mbind option_bind]; (eexists; split; [done |]); eexists; (split; [split_and!; [done | | done] |]); by rewrite ?He2.
    + destruct Hd as [-> Hp]. cbn. rewrite delete_id, lookup_absent by (done || by apply lookup_absent). eexists. split; [done |]. exists (hentry <$> entries d'). split; [split_and!; [done | by rewrite Hp | done] |].
      symmetry. apply map_perm; [done | by rewrite Hp].
Qed.

(** What a lookup finds. *)
Definition found (r : option robj) (x : option bytes) : Prop :=
  match r, x with
  | Some o, Some b => robj_ok o /\ sval o = Some b
  | None, None => True
  | _, _ => False
  end.

Lemma found_zip g x : value_of <$> g = x -> from_option zget_ok True g -> found (option_map zget_object g) x.
Proof using. intros <-. destruct g as [g|]; [|done]. apply zget_object_ok. Qed.

Lemma get_map_ht d m fo f : hdenotes (HashHT d) m -> robj_ok fo -> sval fo = Some f -> exists r, hashTypeGetFromHashTable seed d fo = Some r /\ found r (m !! f).
Proof using.
  intros (kvs & Hh & ->) Hf1 Hf2. destruct (get_ht_spec d kvs fo f Hh Hf1 Hf2) as (r & -> & Hr & Hok & Hs). exists r. split; [done |].
  rewrite <- Hr. destruct r as [o|]; [|done]. cbn in *. destruct Hs as [b Hb]. by rewrite Hb.
Qed.

Lemma get_map_zip zl m fo f : hdenotes (HashZip zl) m -> fits_zip m -> robj_ok fo -> sval fo = Some f ->
  exists g, hashTypeGetFromZiplist zl fo = Some g /\ value_of <$> g = m !! f /\ from_option zget_ok True g.
Proof using. intros (kvs & Hh & ->) Hw Hf1 Hf2. apply get_zip_spec; [done | by eapply hdenotes_pairs | done | done]. Qed.

Lemma get_spec h m fo f : hdenotes h m -> fits_zip m -> robj_ok fo -> sval fo = Some f -> exists r, hashTypeGetObject seed h fo = Some r /\ found r (m !! f).
Proof using.
  intros Hd Hw Hf1 Hf2. destruct h as [zl | d]; cbn [hashTypeGetObject]; [|by apply get_map_ht].
  destruct (get_map_zip zl m fo f Hd Hw Hf1 Hf2) as (g & -> & Hg & Hok). cbn. eexists. split; [done |]. by apply found_zip.
Qed.

Lemma exists_spec h m fo f : hdenotes h m -> fits_zip m -> robj_ok fo -> sval fo = Some f -> hashTypeExists seed h fo = Some (bool_decide (is_Some (m !! f))).
Proof using.
  intros Hd Hw Hf1 Hf2. destruct h as [zl | d]; cbn [hashTypeExists].
  - destruct (get_map_zip zl m fo f Hd Hw Hf1 Hf2) as (g & -> & <- & _). cbn. by destruct g.
  - destruct (get_map_ht d m fo f Hd Hf1 Hf2) as (r & -> & Hr). cbn. destruct r, (m !! f); done.
Qed.

Lemma value_length_spec h m fo f : hdenotes h m -> fits_zip m -> robj_ok fo -> sval fo = Some f ->
  hashTypeGetValueLength seed h fo = Some (from_option (fun v => zlen v) 0 (m !! f)).
Proof using.
  intros Hd Hw Hf1 Hf2. destruct h as [zl | d]; cbn [hashTypeGetValueLength].
  - destruct (get_map_zip zl m fo f Hd Hw Hf1 Hf2) as (g & -> & <- & Hok). cbn. destruct g as [[s | v]|]; [done | cbn in Hok; by apply sdigits10_spec | done].
  - destruct (get_map_ht d m fo f Hd Hf1 Hf2) as (r & -> & Hr). cbn. destruct r, (m !! f); try done. destruct Hr. by apply stringObjectLen_spec.
Qed.

Lemma create_hash_spec : exists h, createHashObject junk = Some h /\ hdenotes h ∅.
Proof using.
  unfold createHashObject. destruct (ZiplistProps.ziplistNew_spec junk) as (zl & -> & Hd). cbn. eexists. split; [done |]. exists []. split; [|done]. by repeat constructor.
Qed.

(** ** Sequences of operations *)

Inductive hop := HSet (f v : robj) | HDel (f : robj) | HGet (f : robj) | HExists (f : robj) | HStrlen (f : robj) | HLen.
Inductive hout := OFlag (b : bool) | ONum (z : Z) | OBytes (b : option bytes).

Definition hop_ok (o : hop) : Prop :=
  match o with
  | HSet f v => str_obj f = true /\ str_obj v = true
  | HDel f | HGet f | HExists f | HStrlen f => str_obj f = true
  | HLen => True
  end.

(** The C side: the hash and the value returned. *)
Definition hop_run (o : hop) (h : hashobj) : option (hashobj * hout) :=
  match o with
  | HSet f v => '(h, b) ← hashTypeSet junk seed can_resize hash_max_ziplist_entries a0 a1 h f v; Some (h, OFlag b)
  | HDel f => '(h, b) ← hashTypeDelete junk seed can_resize h f; Some (h, OFlag b)
  | HGet f => r ← hashTypeGetObject seed h f; Some (h, OBytes (r ≫= sval))
  | HExists f => b ← hashTypeExists seed h f; Some (h, OFlag b)
  | HStrlen f => n ← hashTypeGetValueLength seed h f; Some (h, ONum n)
  | HLen => '(h, n) ← hashTypeLength h; Some (h, ONum n)
  end.

Fixpoint hop_runs (os : list hop) (h : hashobj) : option (hashobj * list hout) :=
  match os with
  | [] => Some (h, [])
  | o :: os => '(h, r) ← hop_run o h; '(h, rs) ← hop_runs os h; Some (h, r :: rs)
  end.

(** The specification on finite maps of byte strings. *)
Definition obytes (o : robj) : bytes := default [] (sval o).

Definition hop_spec (o : hop) (m : hmap) : hmap * hout :=
  match o with
  | HSet f v => (<[obytes f := obytes v]> m, OFlag (bool_decide (is_Some (m !! obytes f))))
  | HDel f => (delete (obytes f) m, OFlag (bool_decide (is_Some (m !! obytes f))))
  | HGet f => (m, OBytes (m !! obytes f))
  | HExists f => (m, OFlag (bool_decide (is_Some (m !! obytes f))))
  | HStrlen f => (m, ONum (from_option (fun v => zlen v) 0 (m !! obytes f)))
  | HLen => (m, ONum (Z.of_nat (base.size m)))
  end.

Fixpoint hop_specs (os : list hop) (m : hmap) : hmap * list hout :=
  match os with
  | [] => (m, [])
  | o :: os => let '(m, r) := hop_spec o m in let '(m, rs) := hop_specs os m in (m, r :: rs)
  end.

(** The bytes an operation adds. *)
Definition hop_weight (o : hop) : Z := match o with HSet f v => 28 + zlen (obytes f) + zlen (obytes v) | _ => 0 end.
Fixpoint hops_weight (os : list hop) : Z := match os with [] => 0 | o :: os => hop_weight o + hops_weight os end.

Lemma hops_weight_nonneg os : 0 <= hops_weight os.
Proof using. induction os as [|[]]; cbn; lia. Qed.

Lemma hop_spec_weight o m : weight (hop_spec o m).1 <= weight m + hop_weight o.
Proof using. destruct o as [f v | f | f | f | f | ]; cbn; try lia; [pose proof (weight_insert_le m (obytes f) (obytes v)); lia | pose proof (weight_delete m (obytes f)); lia]. Qed.

Lemma hop_run_spec o h m : hdenotes h m -> hop_ok o -> fits_zip m -> fits_zip (hop_spec o m).1 ->
  exists h', hop_run o h = Some (h', (hop_spec o m).2) /\ hdenotes h' (hop_spec o m).1.
Proof using.
  intros Hd Ho Hw Hw'. assert (Harg : forall o, str_obj o = true -> robj_ok o /\ sval o = Some (obytes o)).
  { intros x Hx. apply str_obj_spec in Hx as (? & b & Hb). unfold obytes. by rewrite Hb. }
  destruct o as [f v | f | f | f | f | ]; cbn [hop_run hop_spec hop_ok fst snd] in *.
  - destruct Ho as [Hf Hv]. apply Harg in Hf as [], Hv as []. destruct (set_spec h m f v (obytes f) (obytes v)) as (h' & -> & Hd'); eauto.
  - apply Harg in Ho as []. destruct (delete_spec h m f (obytes f)) as (h' & -> & Hd'); eauto.
  - apply Harg in Ho as []. destruct (get_spec h m f (obytes f)) as (r & -> & Hr); try done. cbn. exists h. split; [|done]. do 2 f_equal. f_equal. unfold found in Hr. destruct r, (m !! obytes f); naive_solver.
  - apply Harg in Ho as []. rewrite (exists_spec h m f (obytes f)) by done. eauto.
  - apply Harg in Ho as []. rewrite (value_length_spec h m f (obytes f)) by done. eauto.
  - destruct (length_spec h m Hd Hw) as (h' & -> & Hd'). eauto.
Qed.

Lemma hop_runs_spec os : forall h m, hdenotes h m -> Forall hop_ok os -> 11 + weight m + hops_weight os < 2 ^ 32 ->
  exists h', hop_runs os h = Some (h', (hop_specs os m).2) /\ hdenotes h' (hop_specs os m).1 /\ fits_zip (hop_specs os m).1.
Proof using.
  induction os as [|o os IH]; intros h m Hd Hos Hsz; cbn [hop_runs hop_specs hops_weight] in *; [exists h; split_and!; [done | done | unfold fits_zip; cbn; lia] |].
  inversion_clear Hos. pose proof (hop_spec_weight o m). pose proof (hops_weight_nonneg os). assert (0 <= hop_weight o) by (destruct o; cbn; lia).
  destruct (hop_run_spec o h m) as (h1 & -> & Hd1); [done | done | unfold fits_zip; lia.. |]. destruct (hop_spec o m) as [m1 r]. cbn [fst snd] in *.
  destruct (IH h1 m1) as (h2 & Hh2 & Hd2 & Hw2); [done | done | lia |]. cbn [mbind option_bind]. rewrite Hh2. cbn. destruct (hop_specs os m1). eauto.
Qed.

(** C7. The two encodings of a hash are indistinguishable: for every value of
    [hash-max-ziplist-entries], every sequence of insertions, updates,
    deletions and queries on a new hash answers as the finite map of byte
    strings does, although the representation switches from a packed list of
    alternating fields and values to a hash table under incremental rehashing;
    an iterator then delivers each pair once and leaves the hash as it was.
    The hash takes less than 4 GB as a packed list, the largest block. *)
Theorem hash_value_refines os : Forall hop_ok os -> 11 + hops_weight os < 2 ^ 32 ->
  exists h0 h l, createHashObject junk = Some h0 /\ hop_runs os h0 = Some (h, (hop_specs os ∅).2) /\
    hyields h (hashTypeInitIterator h) l /\ NoDup l.*1 /\ list_to_map l = (hop_specs os ∅).1.
Proof using.
  intros Hos Hsz. destruct create_hash_spec as (h0 & Hc & Hd0). destruct (hop_runs_spec os h0 ∅ Hd0 Hos) as (h & Hr & (l & Hl & Hm) & Hw); [done |].
  exists h0, h, l. rewrite Hm in Hw. split_and!; [done | done | | by eapply hholds_NoDup | done]. apply hyields_init; [done | by eapply hdenotes_pairs].
Qed.

End Spec.

(** Two fields, an update by a longer value, a third field past the limit of
    two, then a deletion. *)
Lemma hash_value_refines_witness : let o s := SdsObj OBJ_ENCODING_RAW false s in exists h0 h l, createHashObject (fun _ => 170) = Some h0 /\
  hop_runs (fun _ => 170) 5381 true 2 0x1000 0x2000
    [HSet (o [97]) (o [49; 50]); HSet (o [98]) (IntObj false (-70000)); HSet (o [97]) (o (replicate 300 120)); HStrlen (o [97]); HGet (o [98]); HLen;
     HSet (IntObj true 7) (o []); HDel (o [98]); HExists (o [55]); HLen] h0 =
    Some (h, [OFlag false; OFlag false; OFlag true; ONum 300; OBytes (Some [45; 55; 48; 48; 48; 48]); ONum 2; OFlag false; OFlag true; OFlag true; ONum 2]) /\
  hyields 0x1000 0x2000 h (hashTypeInitIterator h) l /\ NoDup l.*1.
Proof.
  intros o. destruct (hash_value_refines (fun _ => 170) 5381 true 2 0x1000 0x2000
    [HSet (o [97]) (o [49; 50]); HSet (o [98]) (IntObj false (-70000)); HSet (o [97]) (o (replicate 300 120)); HStrlen (o [97]); HGet (o [98]); HLen;
     HSet (IntObj true 7) (o []); HDel (o [98]); HExists (o [55]); HLen]) as (h0 & h & l & H1 & H2 & H3 & H4 & _); [by repeat constructor | by vm_compute |].
  exists h0, h, l. split_and!; [exact H1 | | exact H3 | exact H4]. etransitivity; [exact H2 |]. by vm_compute.
Defined.

End HashProps.
