(* ===== verification/Quicklist.v ===== *)
(** * Quicklists (vr_quicklist.c): the code

    A doubly linked list of nodes, each of which holds a ziplist or, when the
    list compresses its inner nodes, a [quicklistLZF] block: a 32-bit length
    and the compressed bytes.  The nodes are a table from addresses to nodes
    with their [prev] and [next] pointers; a pointer that may be NULL is an
    [option], and following NULL or a freed address fails.  The field
    [container] has one value and [attempted_compress] belongs to the tests;
    both are left out. *)

From stdpp Require Import gmap.
From S2P Require Import Prelude Bytes NumConv Object Ziplist Lzf.
Import NumConv Ziplist Object(ll_buf).
Import Lzf(lzf_compress, lzf_decompress).

Module Quicklist.

(** ** Data *)

Record quicklistNode := mk_node {
  prev : option Z;
  next : option Z;
  zl : list Z;
  sz : Z;
  ncount : Z;
  encoding : Z;
  recompress : bool
}.

Record quicklist := mk_quicklist {
  nodes : gmap Z quicklistNode;
  head : option Z;
  tail : option Z;
  count : Z;
  len : Z;
  fill : Z;
  compress : Z
}.

Record quicklistEntry := mk_entry {
  enode : option Z;
  ezi : option Z;
  evalue : option zget;
  eoffset : Z
}.

(** [from_head]: the direction [AL_START_HEAD]. *)
Record quicklistIter := mk_iter {
  current : option Z;
  zi : option Z;
  ioffset : Z;
  from_head : bool
}.

Definition optimization_level : list Z := [4096; 8192; 16384; 32768; 65536].
Definition SIZE_SAFETY_LIMIT : Z := 8192.
Definition MIN_COMPRESS_BYTES : Z := 48.
Definition MIN_COMPRESS_IMPROVE : Z := 8.
Definition QUICKLIST_NODE_ENCODING_RAW : Z := 1.
Definition QUICKLIST_NODE_ENCODING_LZF : Z := 2.
Definition COMPRESS_MAX : Z := Z.shiftl 1 16.
Definition FILL_MAX : Z := Z.shiftl 1 15.

(** Assignments to fields. *)
Definition set_prev (x : option Z) (n : quicklistNode) := mk_node x (next n) (zl n) (sz n) (ncount n) (encoding n) (recompress n).
Definition set_next (x : option Z) (n : quicklistNode) := mk_node (prev n) x (zl n) (sz n) (ncount n) (encoding n) (recompress n).
Definition set_zl (x : list Z) (n : quicklistNode) := mk_node (prev n) (next n) x (sz n) (ncount n) (encoding n) (recompress n).
Definition set_sz (x : Z) (n : quicklistNode) := mk_node (prev n) (next n) (zl n) x (ncount n) (encoding n) (recompress n).
Definition set_ncount (x : Z) (n : quicklistNode) := mk_node (prev n) (next n) (zl n) (sz n) (u16 x) (encoding n) (recompress n).
Definition set_encoding (x : Z) (n : quicklistNode) := mk_node (prev n) (next n) (zl n) (sz n) (ncount n) x (recompress n).
Definition set_recompress (x : bool) (n : quicklistNode) := mk_node (prev n) (next n) (zl n) (sz n) (ncount n) (encoding n) x.

Definition set_nodes (x : gmap Z quicklistNode) (q : quicklist) := mk_quicklist x (head q) (tail q) (count q) (len q) (fill q) (compress q).
Definition set_head (x : option Z) (q : quicklist) := mk_quicklist (nodes q) x (tail q) (count q) (len q) (fill q) (compress q).
Definition set_tail (x : option Z) (q : quicklist) := mk_quicklist (nodes q) (head q) x (count q) (len q) (fill q) (compress q).
Definition set_count (x : Z) (q : quicklist) := mk_quicklist (nodes q) (head q) (tail q) (u64 x) (len q) (fill q) (compress q).
Definition set_len (x : Z) (q : quicklist) := mk_quicklist (nodes q) (head q) (tail q) (count q) (u32 x) (fill q) (compress q).

(** A node changed in place. *)
Definition upd (q : quicklist) (p : Z) (f : quicklistNode -> option quicklistNode) : option quicklist :=
  n ← nodes q !! p; n ← f n; Some (set_nodes (<[p := n]> (nodes q)) q).

(** The same through a pointer that may be NULL, when it is not. *)
Definition upd_opt (q : quicklist) (p : option Z) (f : quicklistNode -> quicklistNode) : option quicklist :=
  match p with Some p => upd q p (fun n => Some (f n)) | None => Some q end.

(** A new node in memory, in no list yet. *)
Definition new_node (q : quicklist) (n : quicklistNode) : quicklist * Z :=
  let p := fresh (dom (nodes q)) in (set_nodes (<[p := n]> (nodes q)) q, p).

Section Code.
(** The bytes of fresh memory and of the uninitialised table of the
    compressor. *)
Context (junk : nat -> Z) (hjunk : Z -> Z).

Definition fresh_bytes (n : Z) : list Z := map (fun i => u8 (junk i)) (seq 0 (Z.to_nat n)).

(** ** Creation *)

Definition quicklistCreate : quicklist := mk_quicklist ∅ None None 0 0 (-2) 0.

(** [compress] is a bit field of 16 bits, [fill] a signed one. *)
Definition quicklistSetCompressDepth (q : quicklist) (depth : Z) : quicklist :=
  let depth := if depth >? COMPRESS_MAX then COMPRESS_MAX else if depth <? 0 then 0 else depth in
  mk_quicklist (nodes q) (head q) (tail q) (count q) (len q) (fill q) (u16 depth).

Definition quicklistSetFill (q : quicklist) (f : Z) : quicklist :=
  let f := if f >? FILL_MAX then FILL_MAX else if f <? -5 then -5 else f in
  mk_quicklist (nodes q) (head q) (tail q) (count q) (len q) (s16 f) (compress q).

Definition quicklistSetOptions (q : quicklist) (f depth : Z) : quicklist := quicklistSetCompressDepth (quicklistSetFill q f) depth.

Definition quicklistNew (f depth : Z) : quicklist := quicklistSetOptions quicklistCreate f depth.

Definition quicklistCreateNode : quicklistNode := mk_node None None [] 0 0 QUICKLIST_NODE_ENCODING_RAW false.

Definition quicklistCount (q : quicklist) : Z := u32 (count q).

(** The nodes freed one after the other; what is left of the list. *)
Fixpoint release_loop (rounds : nat) (q : quicklist) (cur : option Z) : option quicklist :=
  match rounds with
  | O => Some q
  | S rounds =>
      p ← cur;
      n ← nodes q !! p;
      release_loop rounds (set_len (len q - 1) (set_nodes (delete p (nodes q)) (set_count (count q - ncount n) q))) (next n)
  end.

Definition quicklistRelease (q : quicklist) : option quicklist := release_loop (Z.to_nat (len q)) q (head q).

(** ** Compression *)

(** The length and the bytes of a compressed node. *)
Definition quicklistGetLzf (n : quicklistNode) : option (Z * list Z) :=
  lsz ← le_val <$> bread (zl n) 0 4;
  compressed ← bread (zl n) 4 lsz;
  Some (lsz, compressed).

Definition __quicklistCompressNode (n : quicklistNode) : option quicklistNode :=
  if sz n <? MIN_COMPRESS_BYTES then Some n
  else
    inp ← bread (zl n) 0 (sz n);
    '(lsz, out) ← lzf_compress hjunk inp (fresh_bytes (sz n));
    if (lsz =? 0) || (u32 (lsz + MIN_COMPRESS_IMPROVE) >=? sz n) then Some n
    else Some (set_recompress false (set_encoding QUICKLIST_NODE_ENCODING_LZF (set_zl (le_bytes 4 lsz ++ take (Z.to_nat lsz) out) n))).

Definition __quicklistDecompressNode (n : quicklistNode) : option quicklistNode :=
  '(_, compressed) ← quicklistGetLzf n;
  '(r, out) ← lzf_decompress compressed (fresh_bytes (sz n));
  if r =? 0 then Some n else Some (set_encoding QUICKLIST_NODE_ENCODING_RAW (set_zl out n)).

Definition compress_raw (n : quicklistNode) : option quicklistNode :=
  if encoding n =? QUICKLIST_NODE_ENCODING_RAW then __quicklistCompressNode n else Some n.

Definition decompress_lzf (n : quicklistNode) : option quicklistNode :=
  if encoding n =? QUICKLIST_NODE_ENCODING_LZF then __quicklistDecompressNode n else Some n.

Definition decompress_for_use (n : quicklistNode) : option quicklistNode :=
  if encoding n =? QUICKLIST_NODE_ENCODING_LZF then n ← __quicklistDecompressNode n; Some (set_recompress true n) else Some n.

(** The macros, on a pointer that may be NULL. *)
Definition quicklistCompressNode (q : quicklist) (p : option Z) : option quicklist :=
  match p with Some p => upd q p compress_raw | None => Some q end.
Definition quicklistDecompressNode (q : quicklist) (p : option Z) : option quicklist :=
  match p with Some p => upd q p decompress_lzf | None => Some q end.
Definition quicklistDecompressNodeForUse (q : quicklist) (p : Z) : option quicklist := upd q p decompress_for_use.

Definition quicklistAllowsCompression (q : quicklist) : bool := negb (compress q =? 0).

(** The rounds of the loop of [__quicklistCompress]; [None] inside when the
    function returned because the two sides met. *)
Fixpoint depth_loop (rounds : nat) (q : quicklist) (node forward reverse : option Z) (in_depth : bool)
  : option (quicklist * option (option Z * option Z * bool)) :=
  match rounds with
  | O => Some (q, Some (forward, reverse, in_depth))
  | S rounds =>
      q ← quicklistDecompressNode q forward;
      q ← quicklistDecompressNode q reverse;
      let in_depth := if bool_decide (forward = node) || bool_decide (reverse = node) then true else in_depth in
      if bool_decide (forward = reverse) then Some (q, None)
      else
        fp ← forward; f ← nodes q !! fp;
        rp ← reverse; r ← nodes q !! rp;
        depth_loop rounds q node (next f) (prev r) in_depth
  end.

Definition __quicklistCompress (q : quicklist) (node : option Z) : option quicklist :=
  if negb (quicklistAllowsCompression q) || (len q <? compress q * 2) then Some q
  else
    '(q, r) ← depth_loop (Z.to_nat (compress q)) q node (head q) (tail q) false;
    match r with
    | None => Some q
    | Some (forward, reverse, in_depth) =>
        q ← (if (in_depth : bool) then Some q else quicklistCompressNode q node);
        if compress q + 1 >? 2 then
          q ← quicklistCompressNode q forward;
          quicklistCompressNode q reverse
        else Some q
    end.

Definition quicklistCompress (q : quicklist) (p : Z) : option quicklist :=
  n ← nodes q !! p;
  if recompress n then quicklistCompressNode q (Some p) else __quicklistCompress q (Some p).

Definition quicklistRecompressOnly (q : quicklist) (p : Z) : option quicklist :=
  n ← nodes q !! p;
  if recompress n then quicklistCompressNode q (Some p) else Some q.

(** ** Links *)

(** The pointers of [__quicklistInsertNode]. *)
Definition link_node (q : quicklist) (old_node : option Z) (p : Z) (after : bool) : option quicklist :=
  q ←
    (if after then
       q ← upd_opt q (Some p) (set_prev old_node);
       q ← (match old_node with
            | Some o =>
                old ← nodes q !! o;
                q ← upd_opt q (Some p) (set_next (next old));
                q ← upd_opt q (next old) (set_prev (Some p));
                upd_opt q (Some o) (set_next (Some p))
            | None => Some q
            end);
       Some (if bool_decide (tail q = old_node) then set_tail (Some p) q else q)
     else
       q ← upd_opt q (Some p) (set_next old_node);
       q ← (match old_node with
            | Some o =>
                old ← nodes q !! o;
                q ← upd_opt q (Some p) (set_prev (prev old));
                q ← upd_opt q (prev old) (set_next (Some p));
                upd_opt q (Some o) (set_prev (Some p))
            | None => Some q
            end);
       Some (if bool_decide (head q = old_node) then set_head (Some p) q else q));
  Some (if len q =? 0 then set_tail (Some p) (set_head (Some p) q) else q).

Definition __quicklistInsertNode (q : quicklist) (old_node : option Z) (p : Z) (after : bool) : option quicklist :=
  q ← link_node q old_node p after;
  q ← (match old_node with Some o => quicklistCompress q o | None => Some q end);
  Some (set_len (len q + 1) q).

(** The pointers of [__quicklistDelNode]. *)
Definition unlink_node (q : quicklist) (p : Z) (n : quicklistNode) : option quicklist :=
  q ← upd_opt q (next n) (set_prev (prev n));
  q ← upd_opt q (prev n) (set_next (next n));
  let q := if bool_decide (tail q = Some p) then set_tail (prev n) q else q in
  Some (if bool_decide (head q = Some p) then set_head (next n) q else q).

Definition __quicklistDelNode (q : quicklist) (p : Z) : option quicklist :=
  n ← nodes q !! p;
  q ← unlink_node q p n;
  q ← __quicklistCompress q None;
  let q := set_count (count q - ncount n) q in
  Some (set_len (len q - 1) (set_nodes (delete p (nodes q)) q)).

(** ** Sizes *)

Definition _quicklistNodeSizeMeetsOptimizationRequirement (size f : Z) : bool :=
  if f >=? 0 then false
  else
    match optimization_level !! Z.to_nat (- f - 1) with
    | Some limit => size <=? limit
    | None => false
    end.

Definition sizeMeetsSafetyLimit (size : Z) : bool := size <=? SIZE_SAFETY_LIMIT.

Definition _quicklistNodeAllowInsert (node : option quicklistNode) (f size : Z) : bool :=
  match node with
  | None => false
  | Some n =>
      let overhead := (if size <? 254 then 1 else 5) + (if size <? 64 then 1 else if size <? 16384 then 2 else 5) in
      let new_sz := u32 (sz n + size + overhead) in
      if _quicklistNodeSizeMeetsOptimizationRequirement new_sz f then true
      else if negb (sizeMeetsSafetyLimit new_sz) then false
      else ncount n <? f
  end.

Definition _quicklistNodeAllowMerge (a b : option quicklistNode) (f : Z) : bool :=
  match a, b with
  | Some a, Some b =>
      let merge_sz := u32 (sz a + sz b - 11) in
      if _quicklistNodeSizeMeetsOptimizationRequirement merge_sz f then true
      else if negb (sizeMeetsSafetyLimit merge_sz) then false
      else ncount a + ncount b <=? f
  | _, _ => false
  end.

Definition update_sz (n : quicklistNode) : option quicklistNode := size ← ziplistBlobLen (zl n); Some (set_sz size n).

Definition quicklistNodeUpdateSz (q : quicklist) (p : Z) : option quicklist := upd q p update_sz.

(** The node behind a pointer that may be NULL. *)
Definition deref (q : quicklist) (p : option Z) : option (option quicklistNode) :=
  match p with Some p => Some <$> nodes q !! p | None => Some None end.

(** ** Pushing *)

(** [ziplistPush] on the node, and its new size. *)
Definition push_node (q : quicklist) (p : Z) (value : list Z) (at_head : bool) : option quicklist :=
  upd q p (fun n => z ← ziplistPush junk (zl n) value at_head; update_sz (set_zl z n)).

(** A node with one value. *)
Definition one_node (q : quicklist) (value : list Z) (at_head : bool) : option (quicklist * Z) :=
  z ← ziplistNew junk;
  z ← ziplistPush junk z value at_head;
  n ← update_sz (set_zl z quicklistCreateNode);
  Some (new_node q n).

(** The list, and whether a new head was created. *)
Definition quicklistPushHead (q : quicklist) (value : list Z) : option (quicklist * bool) :=
  let orig_head := head q in
  n ← deref q (head q);
  q ←
    (if _quicklistNodeAllowInsert n (fill q) (zlen value) then h ← head q; push_node q h value true
     else '(q, p) ← one_node q value true; __quicklistInsertNode q (head q) p false);
  let q := set_count (count q + 1) q in
  h ← head q;
  q ← upd q h (fun n => Some (set_ncount (ncount n + 1) n));
  Some (q, negb (bool_decide (orig_head = head q))).

Definition quicklistPushTail (q : quicklist) (value : list Z) : option (quicklist * bool) :=
  let orig_tail := tail q in
  n ← deref q (tail q);
  q ←
    (if _quicklistNodeAllowInsert n (fill q) (zlen value) then t ← tail q; push_node q t value false
     else '(q, p) ← one_node q value false; __quicklistInsertNode q (tail q) p true);
  let q := set_count (count q + 1) q in
  t ← tail q;
  q ← upd q t (fun n => Some (set_ncount (ncount n + 1) n));
  Some (q, negb (bool_decide (orig_tail = tail q))).

Definition quicklistPush (q : quicklist) (value : list Z) (at_head : bool) : option quicklist :=
  fst <$> (if at_head then quicklistPushHead q value else quicklistPushTail q value).
(** The nodes are appended as they are. *)
Definition quicklistAppendZiplist (q : quicklist) (z : list Z) : option quicklist :=
  '(n, z) ← ziplistLen z;
  size ← ziplistBlobLen z;
  let node := set_sz size (set_ncount n (set_zl z quicklistCreateNode)) in
  let '(q, p) := new_node q node in
  q ← __quicklistInsertNode q (tail q) p true;
  Some (set_count (count q + ncount node) q).

(** The text of an element. *)
Definition get_bytes (g : zget) : option (list Z) := match g with ZStr s => Some s | ZInt v => ll_buf 32 v end.

Fixpoint append_loop (fuel : nat) (q : quicklist) (z : list Z) (p : option Z) : option quicklist :=
  match fuel with
  | O => None
  | S fuel =>
      g ← ziplistGet z p;
      match g with
      | None => Some q
      | Some g =>
          value ← get_bytes g;
          '(q, _) ← quicklistPushTail q value;
          p ← p;
          p ← ziplistNext z p;
          append_loop fuel q z p
      end
  end.

Definition quicklistAppendValuesFromZiplist (q : quicklist) (z : list Z) : option quicklist :=
  p ← ziplistIndex z 0; append_loop (S (length z)) q z p.

Definition quicklistCreateFromZiplist (f depth : Z) (z : list Z) : option quicklist :=
  quicklistAppendValuesFromZiplist (quicklistNew f depth) z.

(** ** Deleting *)

(** The list, whether the node is gone, and the pointer left in [p]. *)
Definition quicklistDelIndex (q : quicklist) (node p : Z) : option (quicklist * bool * Z) :=
  n ← nodes q !! node;
  '(z, p) ← ziplistDelete junk (zl n) p;
  let n := set_ncount (ncount n - 1) (set_zl z n) in
  let q := set_nodes (<[node := n]> (nodes q)) q in
  let gone := ncount n =? 0 in
  q ← (if gone then __quicklistDelNode q node else quicklistNodeUpdateSz q node);
  Some (set_count (count q - 1) q, gone, p).

Definition quicklistDelEntry (q : quicklist) (iter : quicklistIter) (entry : quicklistEntry) : option (quicklist * quicklistIter) :=
  node ← enode entry;
  z ← ezi entry;
  n ← nodes q !! node;
  '(q, deleted_node, _) ← quicklistDelIndex q node z;
  Some (q,
    if (deleted_node : bool) then
      if from_head iter then mk_iter (next n) None 0 true else mk_iter (prev n) None (-1) false
    else mk_iter (current iter) None (ioffset iter) (from_head iter)).

(** ** Access by index *)

Fixpoint index_walk (fuel : nat) (q : quicklist) (n : option Z) (accum index : Z) (forward : bool) : option (option (Z * Z)) :=
  match fuel, n with
  | _, None => Some None
  | O, _ => None
  | S fuel, Some p =>
      node ← nodes q !! p;
      if u64 (accum + ncount node) >? index then Some (Some (p, accum))
      else index_walk fuel q (if forward then next node else prev node) (u64 (accum + ncount node)) index forward
  end.

(** [None] inside for the return value 0. *)
Definition quicklistIndex (q : quicklist) (idx : Z) : option (quicklist * option quicklistEntry) :=
  let forward := negb (idx <? 0) in
  let index := if forward then u64 idx else u64 (s64 (s64 (- idx) - 1)) in
  if index >=? count q then Some (q, None)
  else
    r ← index_walk (S (size (nodes q))) q (if forward then head q else tail q) 0 index forward;
    match r with
    | None => Some (q, None)
    | Some (p, accum) =>
        let offset := if forward then s32 (index - accum) else s32 (- index - 1 + accum) in
        q ← quicklistDecompressNodeForUse q p;
        n ← nodes q !! p;
        z ← ziplistIndex (zl n) offset;
        g ← ziplistGet (zl n) z;
        Some (q, Some (mk_entry (Some p) z g offset))
    end.

Definition quicklistReplaceAtIndex (q : quicklist) (index : Z) (data : list Z) : option (quicklist * bool) :=
  '(q, entry) ← quicklistIndex q index;
  match entry with
  | None => Some (q, false)
  | Some entry =>
      p ← enode entry;
      z ← ezi entry;
      q ← upd q p (fun n => '(zl1, z) ← ziplistDelete junk (zl n) z; zl2 ← ziplistInsert junk zl1 z data; Some (set_zl zl2 n));
      q ← quicklistCompress q p;
      Some (q, true)
  end.

(** The loop of [quicklistDelRange]. *)
Fixpoint delrange_loop (fuel : nat) (q : quicklist) (node : option Z) (offset extent : Z) : option quicklist :=
  match fuel with
  | O => None
  | S fuel =>
      if extent =? 0 then Some q
      else
        p ← node;
        n ← nodes q !! p;
        let delete_entire_node := (offset =? 0) && (extent >=? ncount n) in
        let del :=
          if delete_entire_node then ncount n
          else if (offset >=? 0) && (extent >=? ncount n) then u64 (ncount n - offset)
          else if offset <? 0 then let del := u64 (- offset) in if del >? extent then extent else del
          else extent in
        q ←
          (if delete_entire_node then __quicklistDelNode q p
           else
             q ← quicklistDecompressNodeForUse q p;
             q ← upd q p (fun n => z ← ziplistDeleteRange junk (zl n) offset (u32 del); n ← update_sz (set_zl z n); Some (set_ncount (ncount n - del) n));
             let q := set_count (count q - del) q in
             n ← nodes q !! p;
             if ncount n =? 0 then __quicklistDelNode q p else quicklistRecompressOnly q p);
        delrange_loop fuel q (next n) 0 (u64 (extent - del))
  end.

Definition quicklistDelRange (q : quicklist) (start cnt : Z) : option (quicklist * bool) :=
  if cnt <=? 0 then Some (q, false)
  else
    let extent :=
      if (start >=? 0) && (cnt >? u64 (count q - start)) then u64 (count q - start)
      else if (start <? 0) && (cnt >? u64 (- start)) then u64 (- start)
      else cnt in
    '(q, entry) ← quicklistIndex q start;
    match entry with
    | None => Some (q, false)
    | Some entry => q ← delrange_loop (S (size (nodes q))) q (enode entry) (eoffset entry) extent; Some (q, true)
    end.

Definition quicklistCompare (z : list Z) (p1 : Z) (p2 : list Z) : option bool := ziplistCompare z p1 p2.

(** ** Iteration *)

Definition quicklistGetIterator (q : quicklist) (dir_head : bool) : quicklistIter :=
  if dir_head then mk_iter (head q) None 0 true else mk_iter (tail q) None (-1) false.

Definition quicklistGetIteratorAtIdx (q : quicklist) (dir_head : bool) (idx : Z) : option (quicklist * option quicklistIter) :=
  '(q, entry) ← quicklistIndex q idx;
  match entry with
  | Some entry => Some (q, Some (mk_iter (enode entry) None (eoffset entry) dir_head))
  | None => Some (q, None)
  end.

Definition quicklistReleaseIterator (q : quicklist) (iter : quicklistIter) : option quicklist :=
  match current iter with Some p => quicklistCompress q p | None => Some q end.

(** [None] for the return value 0; the recursion moves to the next node. *)
Fixpoint quicklistNext (fuel : nat) (q : quicklist) (iter : option quicklistIter) : option (quicklist * option quicklistIter * option quicklistEntry) :=
  match fuel, iter with
  | O, _ => None
  | S fuel, None => Some (q, None, None)
  | S fuel, Some it =>
      match current it with
      | None => Some (q, Some it, None)
      | Some p =>
          '(q, z, offset) ←
            (match zi it with
             | None =>
                 q ← quicklistDecompressNodeForUse q p;
                 n ← nodes q !! p;
                 z ← ziplistIndex (zl n) (s32 (ioffset it));
                 Some (q, z, ioffset it)
             | Some z =>
                 n ← nodes q !! p;
                 z ← (if from_head it then ziplistNext (zl n) z else ziplistPrev (zl n) z);
                 Some (q, z, s64 (ioffset it + (if from_head it then 1 else -1)))
             end);
          match z with
          | Some _ =>
              n ← nodes q !! p;
              g ← ziplistGet (zl n) z;
              Some (q, Some (mk_iter (Some p) z offset (from_head it)), Some (mk_entry (Some p) z g (s32 offset)))
          | None =>
              q ← quicklistCompress q p;
              n ← nodes q !! p;
              let it := if from_head it then mk_iter (next n) None 0 true else mk_iter (prev n) None (-1) false in
              quicklistNext fuel q (Some it)
          end
      end
  end.

(** ** Popping *)

(** The element popped, [None] when there is none. *)
Definition quicklistPopCustom (q : quicklist) (at_head : bool) : option (quicklist * option zget) :=
  if count q =? 0 then Some (q, None)
  else
    match (if at_head then head q else tail q) with
    | None => Some (q, None)
    | Some node =>
        n ← nodes q !! node;
        p ← ziplistIndex (zl n) (if at_head then 0 else -1);
        g ← ziplistGet (zl n) p;
        match g with
        | Some g => p ← p; '(q, _, _) ← quicklistDelIndex q node p; Some (q, Some g)
        | None => Some (q, None)
        end
    end.

(** [quicklistPopCustom] with a copy of the bytes. *)
Definition quicklistPop (q : quicklist) (at_head : bool) : option (quicklist * option zget) :=
  if count q =? 0 then Some (q, None) else quicklistPopCustom q at_head.

Definition quicklistRotate (q : quicklist) : option quicklist :=
  if count q <=? 1 then Some q
  else
    t ← tail q;
    n ← nodes q !! t;
    p ← ziplistIndex (zl n) (-1);
    g ← ziplistGet (zl n) p;
    g ← g;
    value ← get_bytes g;
    '(q, _) ← quicklistPushHead q value;
    t ← tail q;
    n ← nodes q !! t;
    p ← (if len q =? 1 then ziplistIndex (zl n) (-1) else Some p);
    p ← p;
    '(q, _, _) ← quicklistDelIndex q t p;
    Some q.

(** ** Copying *)

(** [node->encoding] is the encoding of the new node, so every node is copied
    as [current->sz] bytes. *)
Fixpoint dup_loop (fuel : nat) (orig copy : quicklist) (cur : option Z) : option quicklist :=
  match fuel, cur with
  | _, None => Some copy
  | O, _ => None
  | S fuel, Some p =>
      c ← nodes orig !! p;
      let node := quicklistCreateNode in
      z ← (if encoding node =? QUICKLIST_NODE_ENCODING_LZF then None else bread (zl c) 0 (sz c));
      let node := set_encoding (encoding c) (set_sz (sz c) (set_ncount (ncount c) (set_zl z node))) in
      let copy := set_count (count copy + ncount node) copy in
      let '(copy, np) := new_node copy node in
      copy ← __quicklistInsertNode copy (tail copy) np true;
      dup_loop fuel orig copy (next c)
  end.

Definition quicklistDup (orig : quicklist) : option quicklist :=
  dup_loop (S (size (nodes orig))) orig (quicklistNew (fill orig) (compress orig)) (head orig).

(** ** Insertion in the middle *)

(** The node kept. *)
Definition _quicklistZiplistMerge (q : quicklist) (a b : Z) : option (quicklist * Z) :=
  q ← quicklistDecompressNode q (Some a);
  q ← quicklistDecompressNode q (Some b);
  na ← nodes q !! a;
  nb ← nodes q !! b;
  '(z, first_kept) ← ziplistMerge junk (zl na) (zl nb);
  let '(keep, nokeep) := if (first_kept : bool) then (a, b) else (b, a) in
  '(n, z) ← ziplistLen z;
  q ← upd q keep (fun k => update_sz (set_ncount n (set_zl z k)));
  q ← upd q nokeep (fun k => Some (set_ncount 0 k));
  q ← __quicklistDelNode q nokeep;
  q ← quicklistCompress q keep;
  Some (q, keep).

(** One of the four attempts of [_quicklistMergeNodes]: [a] left of [b]. *)
Definition try_merge (q : quicklist) (a b : option Z) : option (quicklist * option Z) :=
  na ← deref q a;
  nb ← deref q b;
  if _quicklistNodeAllowMerge na nb (fill q) then
    a ← a; b ← b; '(q, keep) ← _quicklistZiplistMerge q a b; Some (q, Some keep)
  else Some (q, None).

Definition _quicklistMergeNodes (q : quicklist) (center : Z) : option quicklist :=
  c ← nodes q !! center;
  pn ← deref q (prev c);
  nn ← deref q (next c);
  '(q, _) ← try_merge q (n ← pn; prev n) (prev c);
  '(q, _) ← try_merge q (next c) (n ← nn; next n);
  c ← nodes q !! center;
  '(q, r) ← try_merge q (prev c) (Some center);
  let target := default center r in
  t ← nodes q !! target;
  '(q, _) ← try_merge q (Some target) (next t);
  Some q.

(** The shortened node and the new one. *)
Definition _quicklistSplitNode (n : quicklistNode) (offset : Z) (after : bool) : option (quicklistNode * quicklistNode) :=
  copy ← bread (zl n) 0 (sz n);
  let orig_start := if after then s32 (offset + 1) else 0 in
  let orig_extent := if after then -1 else offset in
  let new_start := if after then 0 else offset in
  let new_extent := if after then s32 (offset + 1) else -1 in
  z ← ziplistDeleteRange junk (zl n) orig_start (u32 orig_extent);
  '(k, z) ← ziplistLen z;
  n ← update_sz (set_ncount k (set_zl z n));
  z ← ziplistDeleteRange junk copy new_start (u32 new_extent);
  '(k, z) ← ziplistLen z;
  m ← update_sz (set_ncount k (set_zl z quicklistCreateNode));
  Some (n, m).

(** [ziplistPush] on a node in use, its count and size. *)
Definition push_used (q : quicklist) (p : Z) (value : list Z) (at_head : bool) : option quicklist :=
  q ← quicklistDecompressNodeForUse q p;
  q ← upd q p (fun n => z ← ziplistPush junk (zl n) value at_head; update_sz (set_ncount (ncount n + 1) (set_zl z n)));
  quicklistRecompressOnly q p.

Definition _quicklistInsert (q : quicklist) (entry : quicklistEntry) (value : list Z) (after : bool) : option quicklist :=
  match enode entry with
  | None =>
      z ← ziplistNew junk;
      z ← ziplistPush junk z value true;
      let '(q, p) := new_node q (set_zl z quicklistCreateNode) in
      q ← __quicklistInsertNode q None p after;
      q ← upd q p (fun n => Some (set_ncount (ncount n + 1) n));
      Some (set_count (count q + 1) q)
  | Some p =>
      n ← nodes q !! p;
      nn ← deref q (next n);
      pn ← deref q (prev n);
      let size := zlen value in
      let full := negb (_quicklistNodeAllowInsert (Some n) (fill q) size) in
      let at_tail := after && (eoffset entry =? ncount n) in
      let full_next := at_tail && negb (_quicklistNodeAllowInsert nn (fill q) size) in
      let at_head := negb after && (eoffset entry =? 0) in
      let full_prev := at_head && negb (_quicklistNodeAllowInsert pn (fill q) size) in
      q ←
        (if negb full && after then
           q ← quicklistDecompressNodeForUse q p;
           q ← upd q p (fun n =>
                 z ← ezi entry;
                 nx ← ziplistNext (zl n) z;
                 z ← (match nx with
                      | None => ziplistPush junk (zl n) value false
                      | Some nx => ziplistInsert junk (zl n) nx value
                      end);
                 update_sz (set_ncount (ncount n + 1) (set_zl z n)));
           quicklistRecompressOnly q p
         else if negb full && negb after then
           q ← quicklistDecompressNodeForUse q p;
           q ← upd q p (fun n => z ← ezi entry; z ← ziplistInsert junk (zl n) z value; update_sz (set_ncount (ncount n + 1) (set_zl z n)));
           quicklistRecompressOnly q p
         else if full && at_tail && bool_decide (is_Some (next n)) && negb full_next && after then
           x ← next n; push_used q x value true
         else if full && at_head && bool_decide (is_Some (prev n)) && negb full_prev && negb after then
           x ← prev n; push_used q x value false
         else if full && ((at_tail && bool_decide (is_Some (next n)) && full_next && after) ||
                          (at_head && bool_decide (is_Some (prev n)) && full_prev && negb after)) then
           '(q, np) ← one_node q value true;
           q ← upd q np (fun n => Some (set_ncount (ncount n + 1) n));
           __quicklistInsertNode q (Some p) np after
         else if full then
           q ← quicklistDecompressNodeForUse q p;
           n ← nodes q !! p;
           '(n, m) ← _quicklistSplitNode n (eoffset entry) after;
           z ← ziplistPush junk (zl m) value after;
           m ← update_sz (set_ncount (ncount m + 1) (set_zl z m));
           let '(q, np) := new_node (set_nodes (<[p := n]> (nodes q)) q) m in
           q ← __quicklistInsertNode q (Some p) np after;
           _quicklistMergeNodes q p
         else Some q);
      Some (set_count (count q + 1) q)
  end.

Definition quicklistInsertBefore (q : quicklist) (entry : quicklistEntry) (value : list Z) : option quicklist := _quicklistInsert q entry value false.
Definition quicklistInsertAfter (q : quicklist) (entry : quicklistEntry) (value : list Z) : option quicklist := _quicklistInsert q entry value true.
End Code.

End Quicklist.
