(* ===== verification/QuicklistInv.v ===== *)
(** * Quicklists: the invariant

    The nodes in list order, their links, and the values each node holds,
    compressed or not. *)

From stdpp Require Import gmap.
From S2P Require Import Prelude Bytes NumConv Object Ziplist ZiplistInv ZiplistOps ZiplistProps Lzf LzfProps Quicklist.
Import NumConv Quicklist Lzf(lzf_compress, lzf_decompress).
Import ZiplistProps(denotes, vsum, vsum_app, vsum_nonneg, vsum_length).

Module QuicklistInv.

Abbreviation bytes := (list Z).

(** ** Ziplists as blocks *)

Lemma cbytes_ok c : ZiplistInv.content_ok c -> bytes_ok (ZiplistInv.cbytes c).
Proof.
  unfold ZiplistInv.cbytes. destruct c as [s | e v]; cbn [ZiplistInv.content_ok ZiplistInv.chead ZiplistInv.cbody]; intros Hc; apply Forall_app; split.
  - unfold Ziplist.encode_length_buf. change (Ziplist.ZIP_IS_STR 0) with true. cbn iota. assert (Hff : forall z, 0 <= Z.land z 255 < 256) by (intros z; rewrite ZiplistInv.land_ff; apply Z.mod_pos_bound; lia).
    assert (H8 : forall z, 0 <= u8 z < 256) by (intros z; apply (uwrap_range 8); lia).
    destruct (_ <=? _); [repeat constructor; apply H8 |]. destruct (_ <=? _); repeat constructor; try apply H8; try apply Hff; done.
  - done.
  - destruct (ZiplistInv.int_enc e v Hc). repeat constructor; lia.
  - unfold ZiplistInv.int_bytes. repeat (destruct (_ =? _); [apply le_bytes_ok || (repeat constructor; apply (uwrap_range 8); lia) |]). constructor.
Qed.

Lemma eall_ok es : forall q, 0 <= q -> ZiplistInv.fits q es -> bytes_ok (ZiplistInv.eall q es).
Proof.
  induction es as [|e es IH]; intros q Hq Hf; cbn in *; [constructor |]. destruct Hf as (Hb & Hc & Hf). pose proof (ZiplistInv.elen_lower e). apply Forall_app. split; [|apply IH; [lia | done]].
  apply Forall_app. split; [|by apply cbytes_ok]. unfold ZiplistInv.pfield. destruct e.1; constructor; [done | apply le_bytes_ok | | constructor].
  unfold Ziplist.ZIP_BIGLEN in Hb. destruct (Z.lt_ge_cases q 254) as [|Hge]; [lia |]. by specialize (Hb Hge).
Qed.

Lemma denotes_block z vs : denotes z vs -> 11 + vsum vs < 2 ^ 32 ->
  Ziplist.ziplistBlobLen z = Some (zlen z) /\ 11 + 2 * zlen vs <= zlen z <= 11 + vsum vs /\ bytes_ok z.
Proof.
  intros (es & [(cnt & -> & Hcnt) Hf _] & <-) Hsz. pose proof (ZiplistProps.cap_vsum _ _ Hf) as Hcap. pose proof (ZiplistInv.cap_bound es). pose proof (ZiplistInv.esum_length es).
  rewrite ZiplistProps.length_layout, ZiplistProps.length_values. unfold Ziplist.ziplistBlobLen. rewrite ZiplistOps.layout_bytes by lia. split_and!; [done | lia | lia |].
  apply Forall_app. split; [unfold ZiplistInv.header; apply Forall_app; split; [|apply Forall_app; split]; apply le_bytes_ok |].
  apply Forall_app. split; [by apply eall_ok | by repeat constructor].
Qed.

(** ** Nodes *)

(** The ziplist of a node. *)
Definition unpacked (n : quicklistNode) (z : bytes) : Prop :=
  (encoding n = QUICKLIST_NODE_ENCODING_RAW /\ zl n = z) \/
  (encoding n = QUICKLIST_NODE_ENCODING_LZF /\ exists c, zl n = le_bytes 4 (zlen c) ++ c /\ zlen c < 2 ^ 32 /\
     forall buf, zlen buf = zlen z -> lzf_decompress c buf = Some (zlen z, z)).

(** A node with the values [vs].  With compression the size is exact; without it
    is the size the node had when its number of values last changed. *)
Record node_ok (depth : Z) (n : quicklistNode) (vs : list bytes) : Prop := mk_node_ok {
  nd_zl : exists z, unpacked n z /\ denotes z vs /\ (depth = 0 \/ sz n = zlen z);
  nd_raw : depth = 0 -> encoding n = QUICKLIST_NODE_ENCODING_RAW;
  nd_some : vs <> [];
  nd_small : zlen vs < 2 ^ 16;
  nd_size : 11 + 2 * zlen vs <= sz n < 2 ^ 31;
  nd_bytes : Forall bytes_ok vs;
  nd_vsum : 11 + vsum vs < 2 ^ 31;
  nd_rec : recompress n = false
}.

(** The same node but for its links. *)
Definition same_body (n n' : quicklistNode) : Prop :=
  zl n' = zl n /\ sz n' = sz n /\ ncount n' = ncount n /\ encoding n' = encoding n /\ recompress n' = recompress n.

Lemma same_body_ok depth n n' vs : same_body n n' -> node_ok depth n vs -> node_ok depth n' vs.
Proof.
  destruct n, n'. intros (Hz & Hs & Hc & He & Hr) []. cbn in *. subst. by split.
Qed.

(** The same node but for its encoding. *)
Definition same_place (n n' : quicklistNode) : Prop := prev n' = prev n /\ next n' = next n /\ sz n' = sz n /\ ncount n' = ncount n /\ recompress n' = recompress n.

Section Code.
Context (junk : nat -> Z) (hjunk : Z -> Z).

Lemma length_fresh_bytes k : 0 <= k -> zlen (fresh_bytes junk k) = k.
Proof using. intros Hk. unfold fresh_bytes. rewrite length_map, length_seq. lia. Qed.

Lemma compress_raw_ok depth n vs : node_ok depth n vs -> depth <> 0 ->
  exists n', compress_raw junk hjunk n = Some n' /\ node_ok depth n' vs /\ same_place n n'.
Proof using.
  intros Hn Hd. unfold compress_raw. destruct (Z.eqb_spec (encoding n) QUICKLIST_NODE_ENCODING_RAW) as [He | _]; [|by exists n].
  pose proof Hn as [(z & Hu & Hden & [|Hsz]) H2 H4 H5 H6 H7 H8 H9]; [done |]. destruct Hu as [[_ <-] | [Hx _]]; [|by rewrite He in Hx].
  unfold __quicklistCompressNode. destruct (Z.ltb_spec (sz n) MIN_COMPRESS_BYTES) as [|Hmin]; [by exists n |]. unfold MIN_COMPRESS_BYTES in Hmin.
  destruct (denotes_block _ _ Hden ltac:(lia)) as (_ & Hlen & Hb). assert (Hrd : bread (zl n) 0 (sz n) = Some (zl n)) by (rewrite <- (app_nil_r (zl n)) at 1; by apply bread_start). rewrite Hrd. cbn [mbind option_bind].
  destruct (LzfProps.compress_inverse hjunk (zl n) (fresh_bytes junk (sz n)) Hb ltac:(lia)) as (k & out & -> & Hlo & Hk & Hinv & _). cbn [mbind option_bind].
  rewrite length_fresh_bytes in Hk by lia. destruct (Z.eqb_spec k 0) as [|Hk0]; cbn [orb]; [by exists n |]. destruct (_ >=? _); [by exists n |].
  eexists. split; [done |]. split; [|unfold same_place; cbn; by rewrite H9]. assert (Hlt : zlen (take (Z.to_nat k) out) = k).
  { rewrite length_take. pose proof (length_fresh_bytes (sz n) ltac:(lia)). lia. }
  split; cbn; try done. exists (zl n). split_and!; [|done | by right]. right. split; [done |]. exists (take (Z.to_nat k) out). rewrite Hlt. split_and!; [done | lia |].
  intros buf Hbuf. destruct (Hinv Hk0 buf ltac:(lia)) as (buf' & -> & Hl' & Ht). do 2 f_equal. rewrite <- Ht. symmetry. apply take_ge. lia.
Qed.

Lemma decompress_node_ok n z : encoding n = QUICKLIST_NODE_ENCODING_LZF -> unpacked n z -> sz n = zlen z -> zlen z <> 0 ->
  __quicklistDecompressNode junk n = Some (set_encoding QUICKLIST_NODE_ENCODING_RAW (set_zl z n)).
Proof using.
  intros He [[Hx _] | (_ & c & Hz & Hc & Hd)] Hsz Hz0; [by rewrite He in Hx |]. unfold __quicklistDecompressNode, quicklistGetLzf. rewrite Hz.
  rewrite bread_start by (by rewrite length_le_bytes). cbn [fmap option_fmap option_map mbind option_bind].
  rewrite le_val_bytes, uwrap_small by (simpl Z.of_nat; lia). rewrite bread_end by (rewrite ?length_le_bytes; lia). cbn [mbind option_bind].
  rewrite Hd by (rewrite length_fresh_bytes; lia). cbn [mbind option_bind]. by rewrite (proj2 (Z.eqb_neq _ _) Hz0).
Qed.

Definition is_raw (n : quicklistNode) : Prop := encoding n = QUICKLIST_NODE_ENCODING_RAW.

Lemma decompress_lzf_ok depth n vs : node_ok depth n vs ->
  exists n', decompress_lzf junk n = Some n' /\ node_ok depth n' vs /\ same_place n n' /\ is_raw n' /\ (is_raw n -> n' = n).
Proof using.
  intros Hn. unfold decompress_lzf, is_raw. pose proof Hn as [(z & Hu & Hden & Hsz) H2 H4 H5 H6 H7 H8 H9].
  destruct (Z.eqb_spec (encoding n) QUICKLIST_NODE_ENCODING_LZF) as [He | He].
  - destruct Hsz as [Hd | Hsz]; [apply H2 in Hd; by rewrite He in Hd |]. destruct (denotes_block _ _ Hden ltac:(lia)) as (_ & Hlen & _).
    rewrite (decompress_node_ok n z He Hu Hsz) by lia. eexists. split; [done |]. split_and!; [|done | done | by rewrite He].
    split; cbn; try done. exists z. split_and!; [by left | done | by right].
  - destruct Hu as [[Hr _] | [Hx _]]; [|done]. exists n. by split_and!.
Qed.

Lemma raw_ziplist depth n vs : node_ok depth n vs -> is_raw n -> denotes (zl n) vs.
Proof using. intros [(z & [[_ Hz] | [Hx _]] & Hden & _) _ _ _ _ _ _ _] Hr; [by rewrite Hz | by rewrite Hr in Hx]. Qed.
End Code.

(** ** Links *)

Definition before (ps : list Z) (i : nat) : option Z := match i with O => None | S j => ps !! j end.

Definition links (M : gmap Z quicklistNode) (ps : list Z) : Prop :=
  forall i p, ps !! i = Some p -> exists n, M !! p = Some n /\ prev n = before ps i /\ next n = ps !! S i.

Definition vals (depth : Z) (M : gmap Z quicklistNode) (ps : list Z) (vss : list (list bytes)) : Prop :=
  Forall2 (fun p vs => exists n, M !! p = Some n /\ node_ok depth n vs) ps vss.

Definition alter_opt (f : quicklistNode -> quicklistNode) (x : option Z) (M : gmap Z quicklistNode) : gmap Z quicklistNode :=
  match x with Some p => alter f p M | None => M end.

Lemma lookup_alter_opt f x M y : alter_opt f x M !! y = if decide (x = Some y) then f <$> M !! y else M !! y.
Proof.
  destruct x as [p|]; cbn; [|done]. destruct (decide (Some p = Some y)) as [[= ->] | Hne]; [apply lookup_alter_eq | apply lookup_alter_ne; congruence].
Qed.

Lemma upd_opt_alter q x f : (forall p, x = Some p -> is_Some (nodes q !! p)) -> upd_opt q x f = Some (set_nodes (alter_opt f x (nodes q)) q).
Proof.
  destruct x as [p|]; cbn; [|by destruct q]. intros Hx. destruct (Hx p eq_refl) as [n Hn]. unfold upd. rewrite Hn. cbn. do 2 f_equal. symmetry.
  apply map_eq. intros y. destruct (decide (y = p)) as [-> | Hy]; [by rewrite lookup_alter_eq, lookup_insert_eq, Hn | by rewrite lookup_alter_ne, lookup_insert_ne by congruence].
Qed.

Lemma before_lookup ps i p : before ps i = Some p -> exists j, i = S j /\ ps !! j = Some p.
Proof. destruct i; cbn; [done | eauto]. Qed.

Lemma links_in M ps p : links M ps -> p ∈ ps -> is_Some (M !! p).
Proof. intros HL [i Hi]%list_elem_of_lookup. destruct (HL i p Hi) as (n & -> & _). eauto. Qed.

(** A node put at position [i]. *)
Lemma links_insert M M' ps i p : links M ps -> NoDup ps -> p ∉ ps -> (i <= length ps)%nat ->
  (exists n, M' !! p = Some n /\ prev n = before ps i /\ next n = ps !! i) ->
  (forall j x n, ps !! j = Some x -> M !! x = Some n -> exists n', M' !! x = Some n' /\
     prev n' = (if decide (j = i) then Some p else prev n) /\ next n' = (if decide (S j = i) then Some p else next n)) ->
  links M' (take i ps ++ p :: drop i ps).
Proof.
  intros HL Hnd Hp Hi (n0 & Hn0 & Hpr & Hnx) Hold. assert (Hlen : length (take i ps) = i) by (rewrite length_take; lia).
  assert (Hget : forall j, (take i ps ++ p :: drop i ps) !! j = if decide (j < i)%nat then ps !! j else if decide (j = i) then Some p else ps !! (j - 1)%nat).
  { intros j. destruct (decide (j < i)%nat); [by rewrite lookup_app_l, lookup_take_lt by lia |]. rewrite lookup_app_r, Hlen by lia.
    destruct (decide (j = i)) as [-> |]; [by rewrite Nat.sub_diag |]. rewrite lookup_cons_ne_0 by lia. rewrite lookup_drop. f_equal. lia. }
  intros j x Hx. rewrite Hget in Hx. destruct (decide (j < i)%nat) as [Hj | Hj].
  - destruct (HL j x Hx) as (n & Hn & Hp1 & Hn1). destruct (Hold j x n Hx Hn) as (n' & Hn' & Hp' & Hx'). exists n'. split; [done |]. rewrite Hp', Hx', Hget. rewrite (decide_False (P := j = i)) by lia. split.
    + rewrite Hp1. destruct j; cbn; [done |]. rewrite Hget. by rewrite decide_True by lia.
    + destruct (decide (S j = i)) as [<- |]; [by rewrite decide_False by lia | by rewrite decide_True by lia].
  - destruct (decide (j = i)) as [-> | Hne].
    + injection Hx as <-. exists n0. split; [done |]. rewrite Hpr, Hnx. rewrite Hget, !decide_False by lia. split; [|f_equal; lia].
      destruct i; cbn; [done |]. rewrite Hget. by rewrite decide_True by lia.
    + destruct j as [|j]; [lia |]. replace (S j - 1)%nat with j in Hx by lia. destruct (HL j x Hx) as (n & Hn & Hp1 & Hn1). destruct (Hold j x n Hx Hn) as (n' & Hn' & Hp' & Hx'). exists n'. split; [done |].
      rewrite Hp', Hx'. cbn [before]. rewrite !Hget. rewrite (decide_False (P := S j = i)) by lia. rewrite Hn1. split.
      * destruct (decide (j = i)) as [-> |]; [by rewrite decide_False by lia |]. rewrite (decide_False (P := (j < i)%nat)) by lia. rewrite Hp1. destruct j; [lia |]. cbn. f_equal. lia.
      * rewrite !decide_False by lia. done.
Qed.

(** A node taken out. *)
Lemma links_remove M M' a p b : links M (a ++ p :: b) -> 
  (forall j x n, (a ++ p :: b) !! j = Some x -> j <> length a -> M !! x = Some n -> exists n', M' !! x = Some n' /\
     prev n' = (if decide (j = S (length a)) then last a else prev n) /\ next n' = (if decide (S j = length a) then List.head b else next n)) ->
  links M' (a ++ b).
Proof.
  intros HL Hold j x Hx. set (ps := a ++ p :: b) in *.
  assert (Hps : forall k, ps !! k = if decide (k < length a)%nat then a !! k else if decide (k = length a) then Some p else b !! (k - length a - 1)%nat).
  { intros k. unfold ps. destruct (decide (k < length a)%nat); [by rewrite lookup_app_l by lia |]. rewrite lookup_app_r by lia. destruct (decide (k = length a)) as [-> |]; [by rewrite Nat.sub_diag |].
    rewrite lookup_cons_ne_0 by lia. f_equal. lia. }
  assert (Hab : forall k, (a ++ b) !! k = if decide (k < length a)%nat then a !! k else b !! (k - length a)%nat).
  { intros k. destruct (decide (k < length a)%nat); [by rewrite lookup_app_l by lia | by rewrite lookup_app_r by lia]. }
  pose proof Hx as Hx0. rewrite Hab in Hx0. destruct (decide (j < length a)%nat) as [Hj | Hj].
  - assert (Hxj : ps !! j = Some x) by (by rewrite Hps, decide_True by lia). destruct (HL j x Hxj) as (n & Hn & Hp1 & Hn1). destruct (Hold j x n Hxj ltac:(lia) Hn) as (n' & Hn' & Hp' & Hx'). exists n'. split; [done |].
    rewrite Hp', Hx'. rewrite (decide_False (P := j = S _)) by lia. rewrite Hp1, Hn1, Hab, Hps. split.
    + destruct j; cbn; [done |]. rewrite Hab, Hps. by rewrite !decide_True by lia.
    + destruct (decide (S j = length a)) as [He |]; [rewrite (decide_False (P := (S j < _)%nat)) by lia; rewrite <- He, Nat.sub_diag; by destruct b |]. by rewrite !decide_True by lia.
  - assert (Hxj : ps !! S j = Some x) by (rewrite Hps, !decide_False by lia; rewrite <- Hx0; f_equal; lia). destruct (HL (S j) x Hxj) as (n & Hn & Hp1 & Hn1).
    destruct (Hold (S j) x n Hxj ltac:(lia) Hn) as (n' & Hn' & Hp' & Hx'). exists n'. split; [done |]. rewrite Hp', Hx'. rewrite (decide_False (P := S (S j) = _)) by lia. rewrite Hp1, Hn1, Hab, Hps. split.
    + destruct (decide (S j = S (length a))) as [[= ->] |].
      * destruct a as [|y a1]; [done |]. rewrite last_lookup. cbn [length before]. rewrite Hab. by rewrite decide_True by (cbn; lia).
      * cbn. rewrite Hps, !decide_False by lia. destruct j; [lia |]. cbn. rewrite Hab, decide_False by lia. f_equal. lia.
    + rewrite !decide_False by lia. f_equal. lia.
Qed.

(** The nodes [ps] of a list, in order. *)
Record chain (q : quicklist) (ps : list Z) : Prop := mk_chain {
  ch_nodup : NoDup ps;
  ch_head : head q = ps !! 0%nat;
  ch_tail : tail q = last ps;
  ch_links : links (nodes q) ps
}.

(** ** Changes of encoding *)

Definition sim (M M' : gmap Z quicklistNode) : Prop := forall p, option_Forall2 same_place (M !! p) (M' !! p).

#[export] Instance same_place_refl : Reflexive same_place.
Proof. by intros []. Qed.

#[export] Instance same_place_trans : Transitive same_place.
Proof. intros n1 n2 n3 (H1 & H2 & H3 & H4 & H5) (G1 & G2 & G3 & G4 & G5). split_and!; congruence. Qed.

#[export] Instance sim_refl : Reflexive sim.
Proof. intros M p. destruct (M !! p); by constructor. Qed.

#[export] Instance sim_trans : Transitive sim.
Proof. intros M1 M2 M3 H1 H2 p. specialize (H1 p). specialize (H2 p). destruct (M1 !! p), (M2 !! p), (M3 !! p); inversion H1; inversion H2; subst; constructor. by etransitivity. Qed.

Lemma sim_insert M p n n' : M !! p = Some n -> same_place n n' -> sim M (<[p := n']> M).
Proof. intros Hp Hs x. destruct (decide (x = p)) as [-> | Hx]; [rewrite lookup_insert_eq, Hp; by constructor |]. rewrite lookup_insert_ne by congruence. by destruct (M !! x); constructor. Qed.

Lemma sim_lookup M M' p n : sim M M' -> M !! p = Some n -> exists n', M' !! p = Some n' /\ same_place n n'.
Proof. intros Hs Hp. pose proof (Hs p) as Hx. rewrite Hp in Hx. inversion Hx; subst. eauto. Qed.

Lemma links_sim M M' ps : sim M M' -> links M ps -> links M' ps.
Proof. intros Hs HL i p Hp. destruct (HL i p Hp) as (n & Hn & H1 & H2). destruct (sim_lookup _ _ _ _ Hs Hn) as (n' & Hn' & G1 & G2 & _). exists n'. split_and!; [done | congruence..]. Qed.

Lemma chain_sim q q' ps : q' = set_nodes (nodes q') q -> sim (nodes q) (nodes q') -> chain q ps -> chain q' ps.
Proof. intros Hq Hs [H1 H2 H3 H4]. split; [done | by rewrite Hq | by rewrite Hq | by eapply links_sim]. Qed.

Definition raw_at (M : gmap Z quicklistNode) (p : Z) : Prop := exists n, M !! p = Some n /\ is_raw n.

(** The ends of the list, which are used without looking at their encoding, are
    ziplists; so are all nodes of a list too short to compress. *)
Definition settled (q : quicklist) (ps : list Z) : Prop :=
  (forall p, ps !! 0%nat = Some p \/ last ps = Some p -> raw_at (nodes q) p) /\
  (zlen ps < 2 * compress q -> forall p, p ∈ ps -> raw_at (nodes q) p).

Lemma vals_lookup depth M ps vss i p : vals depth M ps vss -> ps !! i = Some p -> exists n vs, M !! p = Some n /\ vss !! i = Some vs /\ node_ok depth n vs.
Proof. intros Hv Hi. destruct (Forall2_lookup_l _ _ _ _ _ Hv Hi) as (vs & Hvs & n & Hn & Hok). eauto. Qed.

(** One node replaced. *)
Lemma vals_insert depth M ps vss i p n' vs' : vals depth M ps vss -> NoDup ps -> ps !! i = Some p -> node_ok depth n' vs' -> vals depth (<[p := n']> M) ps (<[i := vs']> vss).
Proof.
  intros Hv Hnd Hi Hok. apply Forall2_same_length_lookup. split; [rewrite length_insert; by eapply Forall2_length |]. intros j x vs Hj Hvs.
  destruct (decide (j = i)) as [-> | Hne].
  - assert (x = p) as -> by congruence. rewrite list_lookup_insert_eq in Hvs by (rewrite <- (Forall2_length _ _ _ Hv); by eapply lookup_lt_Some). injection Hvs as <-. exists n'. by rewrite lookup_insert_eq.
  - rewrite list_lookup_insert_ne in Hvs by congruence. destruct (vals_lookup _ _ _ _ _ _ Hv Hj) as (n & vs2 & Hn & Hvs2 & Hok2). assert (vs2 = vs) as -> by congruence. exists n. rewrite lookup_insert_ne; [done |].
    intros <-. apply Hne. by eapply NoDup_lookup.
Qed.

Lemma vals_recode depth M ps vss i p n' vs : vals depth M ps vss -> NoDup ps -> ps !! i = Some p -> vss !! i = Some vs -> node_ok depth n' vs -> vals depth (<[p := n']> M) ps vss.
Proof. intros Hv Hnd Hi Hvs Hok. rewrite <- (list_insert_id vss i vs Hvs). by apply vals_insert. Qed.

End QuicklistInv.
