(* ===== verification/QuicklistOps.v ===== *)
(** * Quicklists: nodes linked, unlinked and compressed *)

From stdpp Require Import gmap.
From S2P Require Import Prelude Bytes NumConv Object Ziplist ZiplistProps Lzf LzfProps Quicklist QuicklistInv.
Import NumConv Quicklist QuicklistInv.
Import ZiplistProps(denotes, vsum, vsum_app, vsum_nonneg, vsum_length).

Module QuicklistOps.

Section Code.
Context (junk : nat -> Z) (hjunk : Z -> Z).
Implicit Types (q : quicklist) (ps : list Z) (vss : list (list bytes)).

(** ** Compression *)

(** What changes of encoding keep. *)
Definition recoded q q' ps vss : Prop := q' = set_nodes (nodes q') q /\ sim (nodes q) (nodes q') /\ vals (compress q) (nodes q') ps vss.

Lemma recoded_refl q ps vss : vals (compress q) (nodes q) ps vss -> recoded q q ps vss.
Proof using. intros Hv. split_and!; [by destruct q | done | done]. Qed.

Lemma recoded_trans q1 q2 q3 ps vss : recoded q1 q2 ps vss -> recoded q2 q3 ps vss -> recoded q1 q3 ps vss.
Proof using.
  intros (H1 & H2 & H3) (G1 & G2 & G3). assert (Hc : compress q2 = compress q1) by by rewrite H1. rewrite Hc in G3. split_and!; [|by etransitivity | done].
  rewrite G1, H1. done.
Qed.

Lemma recoded_chain q q' ps vss : recoded q q' ps vss -> chain q ps -> chain q' ps.
Proof using. intros (H1 & H2 & _). by apply chain_sim. Qed.

Lemma decompress_step q ps vss p : chain q ps -> vals (compress q) (nodes q) ps vss -> p ∈ ps ->
  exists q', quicklistDecompressNode junk q (Some p) = Some q' /\ recoded q q' ps vss /\ raw_at (nodes q') p /\ (forall x, raw_at (nodes q) x -> raw_at (nodes q') x).
Proof using.
  intros Hc Hv Hp. pose proof Hp as [i Hi]%list_elem_of_lookup. destruct (vals_lookup _ _ _ _ _ _ Hv Hi) as (n & vs & Hn & Hvs & Hok). cbn [quicklistDecompressNode]. unfold upd. rewrite Hn. cbn [mbind option_bind].
  destruct (decompress_lzf_ok junk _ n vs Hok) as (n' & -> & Hok' & Hs & Hr & Hsame). cbn [mbind option_bind]. eexists. split; [done |]. cbn [nodes set_nodes].
  split; [split_and!; [done | by eapply sim_insert | by eapply vals_recode; [| apply Hc | ..]] |]. split; [exists n'; by rewrite lookup_insert_eq |].
  intros x (m & Hm & Hmr). destruct (decide (x = p)) as [-> | Hx]; [exists n'; by rewrite lookup_insert_eq | exists m; by rewrite lookup_insert_ne by congruence].
Qed.

Lemma compress_step q ps vss p : chain q ps -> vals (compress q) (nodes q) ps vss -> compress q <> 0 -> p ∈ ps ->
  exists q', quicklistCompressNode junk hjunk q (Some p) = Some q' /\ recoded q q' ps vss /\ (forall x, x <> p -> raw_at (nodes q) x -> raw_at (nodes q') x).
Proof using.
  intros Hc Hv Hd Hp. pose proof Hp as [i Hi]%list_elem_of_lookup. destruct (vals_lookup _ _ _ _ _ _ Hv Hi) as (n & vs & Hn & Hvs & Hok). cbn [quicklistCompressNode]. unfold upd. rewrite Hn. cbn [mbind option_bind].
  destruct (compress_raw_ok junk hjunk _ n vs Hok Hd) as (n' & -> & Hok' & Hs). cbn [mbind option_bind]. eexists. split; [done |]. cbn [nodes set_nodes].
  split; [split_and!; [done | by eapply sim_insert | by eapply vals_recode; [| apply Hc | ..]] |].
  intros x Hx (m & Hm & Hmr). exists m. by rewrite lookup_insert_ne by congruence.
Qed.

(** The first and the last [c] nodes are decompressed. *)
Lemma depth_loop_ok ps vss node (c : nat) : (2 * c <= length ps + 1)%nat -> forall rounds i q ind, (i + rounds = c)%nat -> (2 * i <= length ps)%nat ->
  chain q ps -> vals (compress q) (nodes q) ps vss ->
  (forall j p, (j < i)%nat -> ps !! j = Some p \/ ps !! (length ps - 1 - j)%nat = Some p -> raw_at (nodes q) p) ->
  exists q' r, depth_loop junk rounds q node (ps !! i) (if decide (i < length ps)%nat then ps !! (length ps - 1 - i)%nat else None) ind = Some (q', r) /\ recoded q q' ps vss /\
    (forall p, raw_at (nodes q) p -> raw_at (nodes q') p) /\
    match r with
    | None => (length ps < 2 * c)%nat /\ forall p, p ∈ ps -> raw_at (nodes q') p
    | Some (f, r, ind') => f = ps !! c /\ r = (if decide (c < length ps)%nat then ps !! (length ps - 1 - c)%nat else None) /\ (2 * c <= length ps)%nat /\
        (forall j p, (j < c)%nat -> ps !! j = Some p \/ ps !! (length ps - 1 - j)%nat = Some p -> raw_at (nodes q') p) /\
        (ind = true \/ ((0 < rounds)%nat /\ (ps !! i = node \/ ps !! (length ps - 1 - i)%nat = node)) -> ind' = true)
    end.
Proof using.
  intros Hcl. induction rounds as [|rounds IH]; intros i q ind Hir Hi Hc Hv Hraw; cbn [depth_loop].
  - replace i with c in * by lia. eexists q, _. split; [done |]. split; [by apply recoded_refl |]. split; [done |]. split_and!; [done | done | done | done |]. intros [-> | [? _]]; [done | lia].
  - assert (Hlt : (i < length ps)%nat) by lia. rewrite (decide_True (P := (i < _)%nat)) by done. destruct (lookup_lt_is_Some_2 ps i Hlt) as [f Hf]. destruct (lookup_lt_is_Some_2 ps (length ps - 1 - i)%nat ltac:(lia)) as [r Hr].
    rewrite Hf, Hr. destruct (decompress_step q ps vss f Hc Hv) as (q1 & -> & R1 & W1 & K1); [by eapply list_elem_of_lookup_2 |]. cbn [mbind option_bind].
    pose proof (recoded_chain _ _ _ _ R1 Hc) as Hc1. assert (Hq1 : compress q1 = compress q) by (by destruct R1 as [-> _]).
    destruct (decompress_step q1 ps vss r Hc1) as (q2 & -> & R2 & W2 & K2); [rewrite Hq1; apply R1 | by eapply list_elem_of_lookup_2 |]. cbn [mbind option_bind].
    pose proof (recoded_trans _ _ _ _ _ R1 R2) as R12. pose proof (recoded_chain _ _ _ _ R12 Hc) as Hc2. assert (Hq2 : compress q2 = compress q) by (by destruct R12 as [-> _]).
    assert (Hraw2 : forall j p, (j < S i)%nat -> ps !! j = Some p \/ ps !! (length ps - 1 - j)%nat = Some p -> raw_at (nodes q2) p).
    { intros j p Hj Hjp. destruct (decide (j = i)) as [-> | Hne]; [|apply K2, K1, (Hraw j); [lia | done]]. destruct Hjp as [Hjp | Hjp]; [assert (p = f) as -> by congruence; by apply K2 | by assert (p = r) as -> by congruence]. }
    destruct (bool_decide_reflect (Some f = Some r)) as [[= <-] | Hfr].
    + assert (i = length ps - 1 - i)%nat as Heq by (eapply NoDup_lookup; [apply Hc | done | done]). eexists q2, None. split; [done |]. split; [done |]. split; [by intros p Hp; apply K2, K1 |]. split; [lia |].
      intros p [j Hj]%list_elem_of_lookup. pose proof (lookup_lt_Some _ _ _ Hj). destruct (decide (j < S i)%nat); [apply (Hraw2 j); [done | by left] |].
      apply (Hraw2 (length ps - 1 - j)%nat); [lia |]. right. by replace (length ps - 1 - (length ps - 1 - j))%nat with j by lia.
    + cbn [mbind option_bind]. assert (Hneq : i <> (length ps - 1 - i)%nat) by (intros He; rewrite <- He in Hr; congruence).
      destruct (ch_links _ _ Hc2 i f Hf) as (nf & Hnf & _ & Hnfn). destruct (ch_links _ _ Hc2 _ r Hr) as (nr & Hnr & Hnrp & _). rewrite Hnf. cbn [mbind option_bind]. rewrite Hnr. cbn [mbind option_bind]. rewrite Hnfn, Hnrp.
      assert (Hb : before ps (length ps - 1 - i) = (if decide (S i < length ps)%nat then ps !! (length ps - 1 - S i)%nat else None)).
      { rewrite decide_True by lia. destruct (length ps - 1 - i)%nat as [|k] eqn:Hk; [lia |]. cbn. f_equal. lia. }
      rewrite Hb. destruct (IH (S i) q2 (if bool_decide (Some f = node) || bool_decide (Some r = node) then true else ind)) as (q3 & x & -> & R3 & K3 & Hx); [lia | lia | done | rewrite Hq2; apply R12 | done |].
      exists q3, x. split; [done |]. split; [by eapply recoded_trans |]. split; [by intros p Hp; apply K3, K2, K1 |]. destruct x as [[[f' r'] ind'] |]; [|done]. destruct Hx as (H1 & H2 & H3 & H4 & H5). split_and!; try done.
      intros [-> | [_ Hn]]; apply H5; left; [by destruct (_ || _) |]. destruct Hn as [<- | <-]; [by rewrite bool_decide_eq_true_2 | by rewrite (bool_decide_eq_true_2 (Some r = Some r)), orb_true_r].
Qed.

Lemma compress_node_opt q ps vss x : chain q ps -> vals (compress q) (nodes q) ps vss -> compress q <> 0 -> (forall p, x = Some p -> p ∈ ps) ->
  exists q', quicklistCompressNode junk hjunk q x = Some q' /\ recoded q q' ps vss /\ (forall p, x <> Some p -> raw_at (nodes q) p -> raw_at (nodes q') p).
Proof using.
  intros Hc Hv Hd Hx. destruct x as [p|]; [|exists q; split; [done |]; split; [by apply recoded_refl | done]].
  destruct (compress_step q ps vss p Hc Hv Hd (Hx p eq_refl)) as (q' & -> & R & K). exists q'. split; [done |]. split; [done |]. intros y Hy. apply K. congruence.
Qed.

(** Without compression, or when the list is too short, nothing happens;
    otherwise the list is settled afterwards. *)
Lemma qcompress_ok q node ps vss : chain q ps -> vals (compress q) (nodes q) ps vss -> 0 <= compress q -> len q <= zlen ps + 1 -> (forall p, node = Some p -> p ∈ ps) ->
  exists q', __quicklistCompress junk hjunk q node = Some q' /\ recoded q q' ps vss /\
    (compress q = 0 \/ len q < 2 * compress q -> q' = q) /\ (compress q <> 0 -> 2 * compress q <= len q -> settled q' ps).
Proof using.
  intros Hc Hv Hd Hlen Hnode. unfold __quicklistCompress, quicklistAllowsCompression. rewrite negb_involutive.
  destruct (Z.eqb_spec (compress q) 0) as [H0 | H0]; cbn [orb]; [exists q; split; [done |]; split; [by apply recoded_refl | done] |].
  destruct (Z.ltb_spec (len q) (compress q * 2)) as [Hs | Hs]; [exists q; split; [done |]; split; [by apply recoded_refl |]; split; [done | lia] |].
  pose proof (ch_head _ _ Hc) as Hhead. pose proof (ch_tail _ _ Hc) as Htail. set (c := Z.to_nat (compress q)).
  assert (Htl : tail q = if decide (0 < length ps)%nat then ps !! (length ps - 1 - 0)%nat else None) by (rewrite Htail, last_lookup, decide_True by lia; f_equal; lia).
  rewrite Hhead, Htl. destruct (depth_loop_ok ps vss node c ltac:(lia) c 0%nat q false) as (q1 & r & -> & R1 & K1 & Hr); [lia | lia | done | done | lia |]. cbn [mbind option_bind].
  assert (Hq1 : compress q1 = compress q) by (by destruct R1 as [-> _]). pose proof (recoded_chain _ _ _ _ R1 Hc) as Hc1.
  destruct r as [[[f r] ind] |].
  2:{ destruct Hr as [Hshort Hall]. exists q1. split; [done |]. split; [done |]. split; [lia |]. intros _ _. split; [|intros _; exact Hall]. intros p [Hp | Hp]; apply Hall; [by eapply list_elem_of_lookup_2 |]. rewrite last_lookup in Hp. by eapply list_elem_of_lookup_2. }
  destruct Hr as (Hf & Hrv & Hlong & Hraw & Hind).
  assert (Hends : forall p, ps !! 0%nat = Some p \/ last ps = Some p -> raw_at (nodes q1) p).
  { intros p Hp. apply (Hraw 0%nat); [lia |]. rewrite last_lookup in Hp. by replace (length ps - 1 - 0)%nat with (pred (length ps)) by lia. }
  assert (Hinner : forall q' x, recoded q1 q' ps vss -> (forall p, ps !! 0%nat = Some p \/ last ps = Some p -> raw_at (nodes q') p) -> (forall p, x = Some p -> p ∈ ps) ->
    (forall p, x = Some p -> ps !! 0%nat <> Some p /\ last ps <> Some p) ->
    exists q'', quicklistCompressNode junk hjunk q' x = Some q'' /\ recoded q1 q'' ps vss /\ (forall p, ps !! 0%nat = Some p \/ last ps = Some p -> raw_at (nodes q'') p)).
  { intros q' x R' He Hin Hne. assert (Hq' : compress q' = compress q1) by (by destruct R' as [-> _]).
    destruct (compress_node_opt q' ps vss x) as (q'' & -> & R'' & K''); [by eapply recoded_chain | rewrite Hq'; apply R' | lia | done |]. exists q''. split; [done |]. split; [by eapply recoded_trans |].
    intros p Hp. apply K''; [|by apply He]. intros Hx. destruct (Hne p Hx). naive_solver. }
  assert (Hstep1 : exists q2, (if ind then Some q1 else quicklistCompressNode junk hjunk q1 node) = Some q2 /\ recoded q1 q2 ps vss /\ (forall p, ps !! 0%nat = Some p \/ last ps = Some p -> raw_at (nodes q2) p)).
  { destruct ind; [exists q1; split; [done |]; split; [apply recoded_refl; rewrite Hq1; apply R1 | done] |]. apply Hinner; [apply recoded_refl; rewrite Hq1; apply R1 | done | done |].
    intros p ->. split; intros Hp; (assert (false = true) as Hft; [apply Hind; right; split; [lia |] | done]); [by left | right]. rewrite last_lookup in Hp. rewrite <- Hp. f_equal. lia. }
  destruct Hstep1 as (q2 & -> & R2 & E2). cbn [mbind option_bind]. assert (Hq2 : compress q2 = compress q) by (destruct R2 as [-> _]; done). rewrite Hq2.
  assert (Hdone : forall q', recoded q1 q' ps vss -> (forall p, ps !! 0%nat = Some p \/ last ps = Some p -> raw_at (nodes q') p) ->
    recoded q q' ps vss /\ (compress q = 0 \/ len q < 2 * compress q -> q' = q) /\ (compress q <> 0 -> 2 * compress q <= len q -> settled q' ps)).
  { intros q' R' E'. split; [by eapply recoded_trans |]. split; [lia |]. intros _ _. split; [done |]. assert (Hq' : compress q' = compress q) by (destruct R' as [-> _]; done). rewrite Hq'. lia. }
  destruct (Z.gtb_spec (compress q + 1) 2) as [Hc2 | _]; [|exists q2; split; [done |]; by apply Hdone].
  rewrite decide_True in Hrv by lia. subst f r.
  assert (Hmid : forall j p, (0 < j < length ps - 1)%nat -> ps !! j = Some p -> ps !! 0%nat <> Some p /\ last ps <> Some p).
  { intros j p Hj Hp. rewrite last_lookup. split; intros Hp'; [assert (j = 0%nat) | assert (j = pred (length ps))]; try lia; (eapply NoDup_lookup; [apply Hc | done | done]). }
  destruct (Hinner q2 (ps !! c) R2 E2) as (q3 & -> & R3 & E3); [by intros p Hp; eapply list_elem_of_lookup_2 | by intros p Hp; apply (Hmid c); [lia |] |]. cbn [mbind option_bind].
  destruct (Hinner q3 (ps !! (length ps - 1 - c)%nat) R3 E3) as (q4 & -> & R4 & E4); [by intros p Hp; eapply list_elem_of_lookup_2 | by intros p Hp; apply (Hmid (length ps - 1 - c)%nat); [lia |] |].
  exists q4. split; [done |]. by apply Hdone.
Qed.
(** ** Linking *)

Lemma alter_opt_is_Some f x M y : is_Some (M !! y) -> is_Some (alter_opt f x M !! y).
Proof using. intros [n Hn]. rewrite lookup_alter_opt, Hn. destruct (decide _); eauto. Qed.

Definition body_sim (M M' : gmap Z quicklistNode) : Prop := forall x, option_Forall2 same_body (M !! x) (M' !! x).

(** The same list but for links and ends. *)
Definition relinked q q' : Prop :=
  count q' = count q /\ len q' = len q /\ fill q' = fill q /\ compress q' = compress q /\ body_sim (nodes q) (nodes q').

Lemma body_refl M : body_sim M M.
Proof using. intros x. destruct (M !! x); by constructor. Qed.

Lemma body_alter f x M M' : (forall n, same_body n (f n)) -> body_sim M M' -> body_sim M (alter_opt f x M').
Proof using.
  intros Hf HM y. specialize (HM y). rewrite lookup_alter_opt. destruct (decide _); [|done]. inversion HM as [a b Hab Ha Hb |]; cbn; constructor.
  specialize (Hf b). destruct Hab as (?&?&?&?&?), Hf as (?&?&?&?&?). split_and!; congruence.
Qed.

Lemma chain_insert q q' ps k p : chain q ps -> p ∉ ps -> (k <= length ps)%nat ->
  head q' = (if decide (k = 0%nat) then Some p else head q) -> tail q' = (if decide (k = length ps) then Some p else tail q) ->
  (exists n, nodes q' !! p = Some n /\ prev n = before ps k /\ next n = ps !! k) ->
  (forall j x n, ps !! j = Some x -> nodes q !! x = Some n -> exists n', nodes q' !! x = Some n' /\
     prev n' = (if decide (j = k) then Some p else prev n) /\ next n' = (if decide (S j = k) then Some p else next n)) ->
  chain q' (take k ps ++ p :: drop k ps).
Proof using.
  intros [Hnd Hh Ht HL] Hp Hk Hh' Ht' Hn Hold. split.
  - by rewrite <- Permutation_middle, take_drop, NoDup_cons.
  - rewrite Hh', Hh. destruct k as [|k]; [done |]. rewrite decide_False by lia. by destruct ps; [cbn in Hk; lia |].
  - rewrite Ht', Ht. rewrite last_app_cons. destruct (decide (k = length ps)) as [-> | Hne]; [by rewrite drop_all |].
    rewrite <- (take_drop k ps) at 1. destruct (drop k ps) as [|y l] eqn:Hd; [apply (f_equal length) in Hd; rewrite length_drop in Hd; cbn in Hd; lia |]. by rewrite last_app_cons.
  - eapply links_insert; try done.
Qed.

(** A node linked next to the node at position [i]. *)
Lemma link_ok q ps i o p n0 (after : bool) : let k := if after then S i else i in
  chain q ps -> p ∉ ps -> nodes q !! p = Some n0 -> ps !! i = Some o -> len q = zlen ps ->
  exists q', link_node q (Some o) p after = Some q' /\ chain q' (take k ps ++ p :: drop k ps) /\ relinked q q'.
Proof using.
  intros k [Hnd Hh Ht HL] Hp Hn0 Hi Hlen. pose proof (lookup_lt_Some _ _ _ Hi) as Hlt. assert (Hpo : p <> o) by (intros ->; by apply Hp, (list_elem_of_lookup_2 _ i)).
  destruct (HL i o Hi) as (no & Hno & Hpr & Hnx). unfold link_node.
  assert (Hinp : forall x y, ps !! x = Some y -> is_Some (nodes q !! y)) by (intros x y Hy; destruct (HL x y Hy) as (n & -> & _); eauto).
  assert (Hat : forall j x, ps !! j = Some x -> Some p <> Some x) by (intros j x Hx [= <-]; by apply Hp, (list_elem_of_lookup_2 _ j)).
  assert (Hsame : forall j x m, ps !! j = Some x -> (ps !! m = Some x <-> j = m)) by (intros j x m Hx; split; [intros Hm; by eapply NoDup_lookup | by intros <-]).
  assert (Hl0 : (len q =? 0) = false) by (apply Z.eqb_neq; lia). assert (Hpi : forall j, ps !! j <> Some p) by (intros j Hj; by eapply Hat).
  destruct after; subst k.
  - rewrite upd_opt_alter by (intros ? [= <-]; eauto). cbn [mbind option_bind nodes set_nodes].
    rewrite lookup_alter_opt, decide_False by congruence. rewrite Hno. cbn [mbind option_bind].
    rewrite upd_opt_alter by (cbn [nodes set_nodes]; intros ? [= <-]; apply alter_opt_is_Some; eauto). cbn [mbind option_bind nodes set_nodes]. rewrite Hnx.
    rewrite upd_opt_alter by (cbn [nodes set_nodes]; intros y Hy; do 2 apply alter_opt_is_Some; eauto). cbn [mbind option_bind nodes set_nodes].
    rewrite upd_opt_alter by (cbn [nodes set_nodes]; intros ? [= <-]; do 3 apply alter_opt_is_Some; eauto). cbn [mbind option_bind nodes set_nodes tail].
    eexists. split; [done |]. set (M := alter_opt _ _ _). assert (Hb : body_sim (nodes q) M) by (unfold M; repeat (apply body_alter; [done |]); apply body_refl).
    assert (Hmap : forall q', nodes q' = M -> head q' = head q -> tail q' = (if decide (S i = length ps) then Some p else tail q) -> chain q' (take (S i) ps ++ p :: drop (S i) ps)).
    { intros q' HM Hh' Ht'. eapply chain_insert; try done; rewrite ?HM; unfold M.
      - exists (set_next (ps !! S i) (set_prev (Some o) n0)). rewrite !lookup_alter_opt, Hn0, !(decide_False (P := _ = Some p)), !decide_True by congruence. done.
      - intros j x n Hx Hn. pose proof (Hat _ _ Hx). rewrite !lookup_alter_opt, Hn, !(decide_False (P := Some p = Some x)) by done. rewrite <- Hi.
        rewrite (decide_ext _ _ _ _ (Hsame j x i Hx)), (decide_ext _ _ _ _ (Hsame j x (S i) Hx)), (decide_ext (S j = S i) (j = i)) by lia.
        destruct (decide (j = i)), (decide (j = S i)); cbn; eauto. }
    rewrite Ht, last_lookup. rewrite (bool_decide_ext _ _ (Hsame _ _ _ Hi)). case_bool_decide; cbn [len set_tail set_nodes]; rewrite Hl0; (split; [|by split_and!]); apply Hmap; try done; cbn [tail set_tail set_nodes]; destruct (decide _); try done; lia.
  - rewrite upd_opt_alter by (intros ? [= <-]; eauto). cbn [mbind option_bind nodes set_nodes].
    rewrite lookup_alter_opt, decide_False by congruence. rewrite Hno. cbn [mbind option_bind].
    rewrite upd_opt_alter by (cbn [nodes set_nodes]; intros ? [= <-]; apply alter_opt_is_Some; eauto). cbn [mbind option_bind nodes set_nodes]. rewrite Hpr.
    rewrite upd_opt_alter by (cbn [nodes set_nodes]; intros y (m & _ & Hy)%before_lookup; do 2 apply alter_opt_is_Some; eauto). cbn [mbind option_bind nodes set_nodes].
    rewrite upd_opt_alter by (cbn [nodes set_nodes]; intros ? [= <-]; do 3 apply alter_opt_is_Some; eauto). cbn [mbind option_bind nodes set_nodes tail head].
    eexists. split; [done |]. set (M := alter_opt _ _ _). assert (Hb : body_sim (nodes q) M) by (unfold M; repeat (apply body_alter; [done |]); apply body_refl).
    assert (Hbi : forall j x, ps !! j = Some x -> (before ps i = Some x <-> S j = i)).
    { intros j x Hx. split; [intros (m & -> & Hm)%before_lookup; f_equal; by apply (Hsame j x) | by intros <-]. }
    assert (Hmap : forall q', nodes q' = M -> tail q' = tail q -> head q' = (if decide (i = 0%nat) then Some p else head q) -> chain q' (take i ps ++ p :: drop i ps)).
    { intros q' HM Ht' Hh'. eapply chain_insert; try done; rewrite ?HM; unfold M; [lia | by rewrite decide_False by lia | |].
      - exists (set_prev (before ps i) (set_next (Some o) n0)). rewrite !lookup_alter_opt, Hn0. rewrite (decide_False (P := before ps i = Some p)) by (intros (m & _ & Hm)%before_lookup; by eapply Hat). rewrite (decide_False (P := Some o = Some p)), !decide_True by congruence. done.
      - intros j x n Hx Hn. pose proof (Hat _ _ Hx). rewrite !lookup_alter_opt, Hn, !(decide_False (P := Some p = Some x)) by done. rewrite <- Hi.
        rewrite (decide_ext _ _ _ _ (Hsame j x i Hx)), (decide_ext _ _ _ _ (Hbi j x Hx)).
        destruct (decide (j = i)), (decide (S j = i)); cbn; eauto. }
    rewrite Hh. rewrite (bool_decide_ext _ _ (Hsame _ _ _ Hi)). case_bool_decide; cbn [len set_head set_nodes]; rewrite Hl0; (split; [|by split_and!]); apply Hmap; try done; cbn [head set_head set_nodes]; destruct (decide _); try done; lia.
Qed.

Lemma chain_len q ps n : chain q ps -> chain (set_len n q) ps.
Proof using. by intros []. Qed.

(** Into an empty list. *)
Lemma link_empty q p n0 (after : bool) : chain q [] -> nodes q !! p = Some n0 -> prev n0 = None -> next n0 = None -> len q = 0 ->
  exists q', link_node q None p after = Some q' /\ chain q' [p] /\ relinked q q'.
Proof using.
  intros [_ Hh Ht _] Hn Hp Hx Hl. unfold link_node. cbn in Hh, Ht.
  assert (Hdone : forall f q', (forall n, same_body n (f n)) -> prev (f n0) = None -> next (f n0) = None -> q' = set_tail (Some p) (set_head (Some p) (set_nodes (alter_opt f (Some p) (nodes q)) q)) -> chain q' [p] /\ relinked q q').
  { intros f q' Hf Hfp Hfx ->. split; [|split_and!; try done; apply body_alter; [done | apply body_refl]]. split; [apply NoDup_singleton | done | done |]. intros [|j] x Hj; [|done]. injection Hj as <-.
    exists (f n0). cbn [nodes set_tail set_head set_nodes]. rewrite lookup_alter_opt, decide_True, Hn by done. done. }
  destruct after; rewrite upd_opt_alter by (intros ? [= <-]; eauto); cbn [mbind option_bind tail head set_nodes len]; rewrite ?Ht, ?Hh, bool_decide_eq_true_2 by done; cbn [set_tail set_head set_nodes len]; rewrite Hl; cbn [Z.eqb]; eexists; (split; [done |]); eapply Hdone; [| | | done | | | | done]; try done.
Qed.

Lemma unlink_ok q a p b n : chain q (a ++ p :: b) -> nodes q !! p = Some n -> exists q', unlink_node q p n = Some q' /\ chain q' (a ++ b) /\ relinked q q'.
Proof using.
  intros [Hnd Hh Ht HL] Hn. set (ps := a ++ p :: b) in *. assert (Hpa : ps !! length a = Some p) by (unfold ps; by rewrite lookup_app_r, Nat.sub_diag).
  destruct (HL _ _ Hpa) as (n' & Hn' & Hpr & Hnx). assert (n' = n) as -> by congruence.
  assert (Hb : next n = List.head b) by (rewrite Hnx; unfold ps; rewrite lookup_app_r by lia; replace (S (length a) - length a)%nat with 1%nat by lia; by destruct b).
  assert (Ha : prev n = last a). { rewrite Hpr. unfold ps. destruct a as [|y a0]; [done |]. cbn [length before]. rewrite lookup_app_l, last_lookup by (cbn; lia). done. }
  assert (Hsame : forall j x m, ps !! j = Some x -> (ps !! m = Some x <-> j = m)) by (intros j x m Hx; split; [intros Hm; by eapply NoDup_lookup | by intros <-]).
  unfold unlink_node. rewrite upd_opt_alter by (rewrite Hnx; intros y Hy; destruct (HL _ y Hy) as (? & -> & _); eauto). cbn [mbind option_bind].
  rewrite upd_opt_alter by (rewrite Hpr; cbn [nodes set_nodes]; intros y (m & _ & Hy)%before_lookup; apply alter_opt_is_Some; destruct (HL _ y Hy) as (? & -> & _); eauto). cbn [mbind option_bind tail set_nodes nodes].
  eexists. split; [done |]. set (M := alter_opt _ _ _). assert (HM : body_sim (nodes q) M) by (unfold M; repeat (apply body_alter; [done |]); apply body_refl).
  set (q' := if bool_decide _ then _ else _). assert (Hq : nodes q' = M /\ head q' = (if decide (a = []) then next n else head q) /\ tail q' = (if decide (b = []) then prev n else tail q) /\ relinked q q').
  { subst q'. assert (Ht1 : bool_decide (tail q = Some p) = bool_decide (b = [])).
    { apply bool_decide_ext. rewrite Ht. unfold ps. rewrite last_app_cons. destruct b as [|y b']; [done |]. split; [|done]. intros Hl. exfalso. apply NoDup_app in Hnd as (_ & _ & [Hnd _]%NoDup_cons). apply Hnd. by apply last_Some_elem_of. }
    assert (Hh1 : bool_decide (head q = Some p) = bool_decide (a = [])).
    { apply bool_decide_ext. rewrite Hh. rewrite (Hsame _ _ 0%nat Hpa). split; [apply nil_length_inv | by intros ->]. }
    rewrite Ht1, !bool_decide_decide. destruct (decide (b = [])); cbn [head set_tail set_nodes]; rewrite <- bool_decide_decide, Hh1, bool_decide_decide; destruct (decide (a = [])); by split_and!. }
  clearbody q'. destruct Hq as (HqM & Hqh & Hqt & Hrel). split; [|done]. split.
  - unfold ps in Hnd. rewrite <- Permutation_middle in Hnd. by apply NoDup_cons in Hnd as [_ ?].
  - rewrite Hqh, Hb, Hh. unfold ps. destruct a; [by destruct b | by rewrite decide_False].
  - rewrite Hqt, Ha, Ht. unfold ps. rewrite last_app_cons. destruct b as [|y b']; [by rewrite app_nil_r | by rewrite decide_False, last_app_cons].
  - rewrite HqM. eapply links_remove; [exact HL |]. intros j x m Hx Hj Hm. unfold M. rewrite !lookup_alter_opt, Hm, Hnx, Hpr.
    rewrite (decide_ext _ _ _ _ (Hsame j x (S (length a)) Hx)). rewrite (decide_ext (before ps (length a) = Some x) (S j = length a)).
    + rewrite <- Hpr, <- Hnx, Ha, Hb. destruct (decide (j = S (length a))), (decide (S j = length a)); cbn; eauto.
    + split; [intros (k & -> & Hk)%before_lookup; f_equal; by apply (Hsame j x) | by intros <-].
Qed.

(** ** Nodes added and removed *)

(** A list of nodes [ps] with the values [vss]. *)
Record shape q ps vss : Prop := mk_shape {
  sh_chain : chain q ps;
  sh_vals : vals (compress q) (nodes q) ps vss;
  sh_settled : settled q ps;
  sh_len : len q = zlen ps;
  sh_depth : 0 <= compress q
}.

(** The counters kept. *)
Definition kept q q' : Prop :=
  count q' = count q /\ fill q' = fill q /\ compress q' = compress q /\ forall x, ncount <$> nodes q' !! x = ncount <$> nodes q !! x.

Lemma relinked_kept q q' : relinked q q' -> kept q q'.
Proof using. intros (H1 & _ & H2 & H3 & H4). split_and!; try done. intros x. specialize (H4 x). destruct (nodes q !! x), (nodes q' !! x); inversion H4 as [? ? (? & ? & ? & ? & ?) |]; subst; cbn; congruence. Qed.

Lemma recoded_kept q q' ps vss : recoded q q' ps vss -> kept q q'.
Proof using. intros (H1 & H2 & _). rewrite H1. split_and!; try done. intros x. cbn [nodes set_nodes]. specialize (H2 x). destruct (nodes q !! x), (nodes q' !! x); inversion H2 as [? ? (? & ? & ? & ? & ?) |]; subst; cbn; congruence. Qed.

Lemma kept_trans q1 q2 q3 : kept q1 q2 -> kept q2 q3 -> kept q1 q3.
Proof using. intros (H1 & H2 & H3 & H4) (G1 & G2 & G3 & G4). split_and!; congruence. Qed.

Lemma vals_body depth M M' ps vss : body_sim M M' -> vals depth M ps vss -> vals depth M' ps vss.
Proof using.
  intros HM Hv. eapply Forall2_impl; [exact Hv |]. intros p vs (n & Hn & Hok). specialize (HM p). rewrite Hn in HM. inversion HM as [? n' Hb |]; subst. exists n'. split; [done | by eapply same_body_ok].
Qed.

Lemma raw_body M M' p : body_sim M M' -> raw_at M p -> raw_at M' p.
Proof using. intros HM (n & Hn & Hr). specialize (HM p). rewrite Hn in HM. inversion HM as [? n' (? & ? & ? & He & ?) |]; subst. exists n'. split; [done |]. unfold is_raw in *. congruence. Qed.

Lemma vals_raw M ps vss p : vals 0 M ps vss -> p ∈ ps -> raw_at M p.
Proof using. intros Hv [i Hi]%list_elem_of_lookup. destruct (vals_lookup _ _ _ _ _ _ Hv Hi) as (n & vs & Hn & _ & Hok). exists n. split; [done | by apply Hok]. Qed.

Lemma last_elem {A} (l : list A) x : last l = Some x -> x ∈ l.
Proof using. intros Hl. rewrite last_lookup in Hl. by eapply list_elem_of_lookup_2. Qed.

Lemma all_raw_settled q ps : (forall p, p ∈ ps -> raw_at (nodes q) p) -> settled q ps.
Proof using. intros Hr. split; [|done]. intros p [Hp | Hp]; apply Hr; [by eapply list_elem_of_lookup_2 | by apply last_elem]. Qed.

(** [__quicklistCompress] after the nodes have changed: the list is settled. *)
Lemma resettle q node ps vss : chain q ps -> vals (compress q) (nodes q) ps vss -> 0 <= compress q -> len q <= zlen ps + 1 -> (forall p, node = Some p -> p ∈ ps) ->
  (len q < 2 * compress q -> forall p, p ∈ ps -> raw_at (nodes q) p) ->
  exists q', __quicklistCompress junk hjunk q node = Some q' /\ recoded q q' ps vss /\ settled q' ps.
Proof using.
  intros Hc Hv Hd Hl Hn Hr. destruct (qcompress_ok q node ps vss Hc Hv Hd Hl Hn) as (q' & -> & R & Hsame & Hset). exists q'. split; [done |]. split; [done |].
  destruct (decide (compress q = 0)) as [H0 | H0]; [rewrite Hsame by auto; apply all_raw_settled; intros p Hp; rewrite H0 in Hv; by eapply vals_raw |].
  destruct (Z.lt_ge_cases (len q) (2 * compress q)); [rewrite Hsame by auto; apply all_raw_settled; auto | apply Hset; lia].
Qed.

Lemma shape_short q ps vss : shape q ps vss -> len q < 2 * compress q -> forall p, p ∈ ps -> raw_at (nodes q) p.
Proof using. intros [_ _ [_ Hs] Hl _] H. apply Hs. lia. Qed.

Lemma shape_in q ps vss p : shape q ps vss -> p ∈ ps -> is_Some (nodes q !! p).
Proof using. intros Hs. apply links_in, Hs. Qed.

(** A raw node put next to the node [o]. *)
Lemma insert_node_ok q ps vss i o p n0 vs0 (after : bool) : let k := if after then S i else i in
  shape q ps vss -> zlen ps + 1 < 2 ^ 32 -> p ∉ ps -> nodes q !! p = Some n0 -> node_ok (compress q) n0 vs0 -> is_raw n0 -> ps !! i = Some o ->
  exists q', __quicklistInsertNode junk hjunk q (Some o) p after = Some q' /\ kept q q' /\ shape q' (take k ps ++ p :: drop k ps) (take k vss ++ vs0 :: drop k vss).
Proof using.
  intros k Hsh Hlt Hp Hn0 Hok Hraw Hi. pose proof Hsh as [Hc Hv Hset Hlen Hd]. unfold __quicklistInsertNode.
  destruct (link_ok q ps i o p n0 after Hc Hp Hn0 Hi Hlen) as (q1 & -> & Hc1 & Hrel). fold k in Hc1. cbn [mbind option_bind]. pose proof Hrel as (_ & Hl1 & _ & Hd1 & Hb). set (ps' := take k ps ++ p :: drop k ps) in *.
  assert (Hv1 : vals (compress q1) (nodes q1) ps' (take k vss ++ vs0 :: drop k vss)).
  { rewrite Hd1. eapply vals_body; [exact Hb |]. apply Forall2_app; [by apply Forall2_take |]. constructor; [eauto | by apply Forall2_drop]. }
  assert (Hin : forall x, x ∈ ps' <-> x = p \/ x ∈ ps) by (intros x; unfold ps'; rewrite elem_of_app, elem_of_cons; rewrite <- (take_drop k ps) at 3; rewrite elem_of_app; tauto).
  assert (Ho : o ∈ ps') by (apply Hin; right; by eapply list_elem_of_lookup_2).
  assert (Hlen' : zlen ps' = zlen ps + 1) by (unfold ps'; rewrite <- (take_drop k ps) at 3; rewrite !length_app; cbn [length]; lia).
  destruct (links_in _ _ _ (ch_links _ _ Hc1) Ho) as [no Hno]. unfold quicklistCompress. rewrite Hno. cbn [mbind option_bind].
  assert (Hnr : recompress no = false). { destruct (proj1 (list_elem_of_lookup _ _) Ho) as [j Hj]. destruct (vals_lookup _ _ _ _ _ _ Hv1 Hj) as (n & vs & Hn & _ & Hn2). assert (n = no) as -> by congruence. apply Hn2. }
  rewrite Hnr. destruct (resettle q1 (Some o) ps' _ Hc1 Hv1) as (q2 & -> & R & Hs2); [lia | lia | by intros ? [= <-] | |].
  { rewrite Hl1, Hd1. intros Hshort x [-> | Hx]%Hin; (eapply raw_body; [exact Hb |]); [by exists n0 | by eapply shape_short]. }
  cbn [mbind option_bind]. eexists. split; [done |]. split; [exact (kept_trans _ _ _ (relinked_kept _ _ Hrel) (recoded_kept _ _ _ _ R)) |]. pose proof (recoded_chain _ _ _ _ R Hc1) as Hc2. destruct R as (Hq2 & _ & Hv2).
  assert (Hd2 : compress q2 = compress q1) by (by rewrite Hq2). assert (Hl2 : len q2 = len q1) by (by rewrite Hq2). split; cbn [set_len len compress nodes]; [by apply chain_len | by rewrite Hd2 | done | | lia].
  rewrite uwrap_small; lia.
Qed.

(** The first node. *)
Lemma insert_first_ok q p n0 vs0 (after : bool) : shape q [] [] -> nodes q !! p = Some n0 -> prev n0 = None -> next n0 = None -> node_ok (compress q) n0 vs0 -> is_raw n0 ->
  exists q', __quicklistInsertNode junk hjunk q None p after = Some q' /\ kept q q' /\ shape q' [p] [vs0].
Proof using.
  intros [Hc Hv Hset Hlen Hd] Hn0 Hp Hx Hok Hraw. unfold __quicklistInsertNode. destruct (link_empty q p n0 after Hc Hn0 Hp Hx Hlen) as (q1 & -> & Hc1 & Hrel). cbn [mbind option_bind].
  eexists. split; [done |]. split; [apply relinked_kept in Hrel; exact Hrel |]. pose proof Hrel as (_ & Hl1 & _ & Hd1 & Hb). split; cbn [set_len len compress nodes].
  - by apply chain_len.
  - rewrite Hd1. eapply vals_body; [exact Hb |]. constructor; [eauto | constructor].
  - apply all_raw_settled. intros y ->%list_elem_of_singleton. eapply raw_body; [exact Hb |]. by exists n0.
  - rewrite Hl1, Hlen. done.
  - lia.
Qed.

(** A node removed, whatever it holds. *)
Lemma del_node_ok q a p b vsa vsb n : chain q (a ++ p :: b) -> vals (compress q) (nodes q) a vsa -> vals (compress q) (nodes q) b vsb -> nodes q !! p = Some n ->
  (len q < 2 * compress q -> forall x, x ∈ a ++ b -> raw_at (nodes q) x) -> len q = zlen (a ++ p :: b) -> zlen (a ++ p :: b) < 2 ^ 32 -> 0 <= compress q ->
  exists q', __quicklistDelNode junk hjunk q p = Some q' /\ shape q' (a ++ b) (vsa ++ vsb) /\ count q' = u64 (count q - ncount n) /\ fill q' = fill q /\ compress q' = compress q /\
    nodes q' !! p = None /\ forall x, x <> p -> ncount <$> nodes q' !! x = ncount <$> nodes q !! x.
Proof using.
  intros Hc Hva Hvb Hn Hraw Hlen Hlt Hd. unfold __quicklistDelNode. rewrite Hn. cbn [mbind option_bind].
  destruct (unlink_ok q a p b n Hc Hn) as (q1 & -> & Hc1 & Hrel). cbn [mbind option_bind]. pose proof Hrel as (Hct & Hl1 & Hf1 & Hd1 & Hb).
  assert (Hv1 : vals (compress q1) (nodes q1) (a ++ b) (vsa ++ vsb)) by (rewrite Hd1; eapply vals_body; [exact Hb |]; by apply Forall2_app).
  assert (Hzl : zlen (a ++ p :: b) = zlen (a ++ b) + 1) by (rewrite !length_app; cbn [length]; lia).
  destruct (resettle q1 None (a ++ b) _ Hc1 Hv1) as (q2 & -> & R & Hs2); [lia | lia | done | |].
  { rewrite Hl1, Hd1. intros Hs x Hx. eapply raw_body; [exact Hb | by apply Hraw]. }
  cbn [mbind option_bind]. eexists. split; [done |]. pose proof (recoded_chain _ _ _ _ R Hc1) as [Hnd Hh Ht HL]. pose proof (kept_trans _ _ _ (relinked_kept _ _ Hrel) (recoded_kept _ _ _ _ R)) as (K1 & K2 & K3 & K4). destruct R as (Hq2 & _ & Hv2).
  assert (Hnp : forall x, x ∈ a ++ b -> p <> x) by (intros x Hx <-; destruct Hc as [Hnd' _ _ _]; rewrite <- Permutation_middle in Hnd'; by apply NoDup_cons in Hnd' as [? _]).
  assert (Hdel : forall x, x ∈ a ++ b -> delete p (nodes q2) !! x = nodes q2 !! x) by (intros x Hx; apply lookup_delete_ne; auto).
  cbn [count fill compress nodes set_len set_nodes set_count]. split_and!; [| by rewrite K1 | done | done | apply lookup_delete_eq | intros x Hx; by rewrite lookup_delete_ne].
  split; cbn [set_len len compress nodes set_nodes set_count].
  - split; try done. intros j x Hx. destruct (HL j x Hx) as (m & Hm & H1 & H2). exists m. split; [|done]. cbn [nodes set_len set_nodes set_count]. rewrite Hdel; [done | by eapply list_elem_of_lookup_2].
  - rewrite K3, <- Hd1. apply Forall2_same_length_lookup. split; [by eapply Forall2_length |]. intros j x vs Hx Hvs. destruct (vals_lookup _ _ _ _ _ _ Hv2 Hx) as (m & vs' & Hm & Hvs' & Hok). assert (vs' = vs) as -> by congruence.
    exists m. split; [|done]. rewrite Hdel; [done | by eapply list_elem_of_lookup_2].
  - destruct Hs2 as [He Hs2]. split; cbn [set_len len compress nodes set_nodes set_count].
    + intros x Hx. destruct (He x Hx) as (m & Hm & Hr). exists m. split; [|done]. rewrite Hdel; [done |]. destruct Hx as [Hx | Hx]; [by eapply list_elem_of_lookup_2 | by apply last_elem].
    + intros Hsh x Hx. destruct (Hs2 Hsh x Hx) as (m & Hm & Hr). exists m. by rewrite Hdel.
  - assert (Hl2 : len q2 = len q1) by (by rewrite Hq2). rewrite uwrap_small; lia.
  - lia.
Qed.
End Code.
End QuicklistOps.
