(* ===== verification/QuicklistProps.v ===== *)
(** * Quicklists: double-ended queues

    Pushes and pops at both ends act on the list of values, for every limit on
    the size of nodes and every compression depth. *)

From stdpp Require Import gmap.
From S2P Require Import Prelude Bytes NumConv Object Ziplist ZiplistProps ZiplistKit Quicklist QuicklistInv QuicklistOps.
Import NumConv Ziplist Quicklist QuicklistInv QuicklistOps.
Import ZiplistProps(denotes, vsum, vsum_app, vsum_nonneg, vsum_length, value_of, zspec, zrun, zrun_spec, zindex).
Import ZiplistProps(zop, ZPush, ZInsert, ZDelete, ZDeleteRange).
Import ZiplistKit(zget_ok, zip_entry, zip_delete, zip_index, zip_len).

Module QuicklistProps.

Section Code.
Context (junk : nat -> Z) (hjunk : Z -> Z).
Implicit Types (q : quicklist) (ps : list Z) (vs : list bytes) (vss : list (list bytes)).

(** ** The invariant *)

Definition counts (M : gmap Z quicklistNode) ps vss : Prop := Forall2 (fun p vs => ncount <$> M !! p = Some (zlen vs)) ps vss.

(** A list of the values [concat vss], of less than 2 GB; no other node is in
    memory. *)
Record QL q ps vss : Prop := mk_QL {
  ql_shape : shape q ps vss;
  ql_counts : counts (nodes q) ps vss;
  ql_count : count q = zlen (concat vss);
  ql_size : 11 + vsum (concat vss) < 2 ^ 31;
  ql_dom : forall x, is_Some (nodes q !! x) -> x ∈ ps
}.

Definition holds q (l : list bytes) : Prop := exists ps vss, QL q ps vss /\ concat vss = l.

(** The node at an end, by position. *)
Definition endp (b : bool) q : option Z := if b then head q else tail q.
Definition end_index (b : bool) {A} (l : list A) : nat := if b then 0%nat else pred (length l).

Lemma endp_spec b q ps : chain q ps -> endp b q = ps !! end_index b ps.
Proof using. intros [_ Hh Ht _]. destruct b; cbn; [done | by rewrite Ht, last_lookup]. Qed.

Lemma end_index_lt b {A} (l : list A) : l <> [] -> (end_index b l < length l)%nat.
Proof using. destruct l, b; cbn; try done; lia. Qed.

(** ** Values at an end *)

Definition push_val (b : bool) {A} (x : A) (l : list A) : list A := if b then x :: l else l ++ [x].

Lemma concat_push b vs vss : concat (push_val b vs vss) = if b then vs ++ concat vss else concat vss ++ vs.
Proof using. destruct b; cbn; [done |]. rewrite concat_app. cbn. by rewrite app_nil_r. Qed.

Lemma concat_insert_end b vs vss v : vss !! end_index b vss = Some vs -> concat (<[end_index b vss := push_val b v vs]> vss) = push_val b v (concat vss).
Proof using.
  destruct b; cbn; intros Hv.
  - destruct vss as [|w vss]; [done |]. injection Hv as ->. done.
  - rewrite <- last_lookup in Hv. apply last_Some in Hv as [vss' ->]. rewrite length_app. cbn [length]. replace (pred (length vss' + 1)) with (length vss' + 0)%nat by lia. rewrite insert_app_r, !concat_app. cbn. by rewrite !app_nil_r, app_assoc.
Qed.

Lemma vsum_push b v vs : vsum (push_val b v vs) = 14 + zlen v + vsum vs.
Proof using. destruct b; cbn [push_val]; rewrite ?vsum_app; cbn [vsum]; lia. Qed.

Lemma length_push b {A} (x : A) l : length (push_val b x l) = S (length l).
Proof using. destruct b; cbn; [done |]. rewrite length_app. cbn. lia. Qed.

Lemma vsum_concat i vs vss : vss !! i = Some vs -> vsum vs <= vsum (concat vss).
Proof using.
  intros Hi. rewrite <- (take_drop_middle _ _ _ Hi), concat_app. cbn. rewrite !vsum_app. pose proof (vsum_nonneg (concat (take i vss))). pose proof (vsum_nonneg (concat (drop (S i) vss))). lia.
Qed.

Lemma vals_same_length depth M ps vss : vals depth M ps vss -> length ps = length vss.
Proof using. apply Forall2_length. Qed.

Lemma ql_length q ps vss : QL q ps vss -> zlen ps <= zlen (concat vss).
Proof using.
  intros [[_ Hv _ _ _] _ _ _ _]. induction Hv as [|p vs ps vss (n & _ & [_ _ Hne _ _ _ _ _]) _ IH]; [done |]. cbn [concat length]. rewrite length_app. destruct vs; [done |]. cbn [length]. lia.
Qed.

(** ** Nodes changed *)

Lemma replace_ok q ps vss i p n n' vs' : shape q ps vss -> ps !! i = Some p -> nodes q !! p = Some n -> node_ok (compress q) n' vs' -> is_raw n' -> prev n' = prev n -> next n' = next n ->
  shape (set_nodes (<[p := n']> (nodes q)) q) ps (<[i := vs']> vss).
Proof using.
  intros [[Hnd Hh Ht HL] Hv [Hs1 Hs2] Hlen Hd] Hi Hn Hok Hraw Hp Hx. assert (Hr : forall x, raw_at (nodes q) x -> raw_at (<[p := n']> (nodes q)) x).
  { intros x (m & Hm & Hr). destruct (decide (x = p)) as [-> | Hne]; [exists n'; by rewrite lookup_insert_eq | exists m; by rewrite lookup_insert_ne by congruence]. }
  split; cbn [set_nodes nodes compress len]; try done.
  - split; try done. intros j x Hj. destruct (HL j x Hj) as (m & Hm & H1 & H2). cbn [nodes set_nodes]. destruct (decide (x = p)) as [-> | Hne].
    + assert (m = n) as -> by congruence. exists n'. by rewrite lookup_insert_eq, Hp, Hx.
    + exists m. by rewrite lookup_insert_ne by congruence.
  - by apply vals_insert.
  - split; cbn [set_nodes nodes compress]; auto.
Qed.

Lemma extra_ok q ps vss p n : shape q ps vss -> nodes q !! p = None -> shape (set_nodes (<[p := n]> (nodes q)) q) ps vss.
Proof using.
  intros [[Hnd Hh Ht HL] Hv [Hs1 Hs2] Hlen Hd] Hp. assert (Hl : forall x m, nodes q !! x = Some m -> <[p := n]> (nodes q) !! x = Some m) by (intros x m Hm; rewrite lookup_insert_ne; [done | congruence]).
  assert (Hr : forall x, raw_at (nodes q) x -> raw_at (<[p := n]> (nodes q)) x) by (intros x (m & Hm & Hr); exists m; auto).
  split; cbn [set_nodes nodes compress len]; try done.
  - split; try done. intros j x Hj. destruct (HL j x Hj) as (m & Hm & H1 & H2). exists m. auto.
  - eapply Forall2_impl; [exact Hv |]. intros x vs (m & Hm & Hok). eauto.
  - split; cbn [set_nodes nodes compress]; auto.
Qed.

(** ** Ziplists pushed to *)

Lemma raw_node_ok depth n vs : denotes (zl n) vs -> is_raw n -> recompress n = false -> sz n = zlen (zl n) -> vs <> [] -> zlen vs < 2 ^ 16 -> Forall bytes_ok vs -> 11 + vsum vs < 2 ^ 31 -> node_ok depth n vs.
Proof using.
  intros Hd Hr Hrec Hsz Hne Hlen Hb Hv. destruct (denotes_block _ _ Hd ltac:(lia)) as (_ & Hl & _). split; try done; [|lia]. exists (zl n). split_and!; [by left | done | by right].
Qed.

Lemma Forall_push b (P : bytes -> Prop) x l : P x -> Forall P l -> Forall P (push_val b x l).
Proof using. destruct b; cbn; intros; [by constructor |]. apply Forall_app. split; [done | by repeat constructor]. Qed.

Lemma zspec_push b v vs : zspec (ZPush b v) vs = push_val b v vs.
Proof using. by destruct b. Qed.

Lemma push_raw b n vs v : denotes (zl n) vs -> is_raw n -> recompress n = false -> zlen vs + 1 < 2 ^ 16 -> Forall bytes_ok vs -> bytes_ok v -> 11 + (14 + zlen v + vsum vs) < 2 ^ 31 ->
  exists z, (z ← ziplistPush junk (zl n) v b; update_sz (set_zl z n)) = Some (set_sz (zlen z) (set_zl z n)) /\ forall depth, node_ok depth (set_sz (zlen z) (set_zl z n)) (push_val b v vs).
Proof using.
  intros Hd Hr Hrec Hlen Hb Hv Hsz. destruct (zrun_spec junk (ZPush b v) (zl n) vs Hd Hv) as (z & Hz & Hdz); [lia | rewrite zspec_push, vsum_push; lia |].
  cbn [zrun] in Hz. rewrite zspec_push in Hdz. rewrite Hz. cbn [mbind option_bind]. unfold update_sz. cbn [zl set_zl]. destruct (denotes_block _ _ Hdz) as (-> & _ & _); [rewrite vsum_push; lia |]. cbn [mbind option_bind].
  exists z. split; [done |]. intros depth. apply raw_node_ok; try done.
  - by destruct b, vs.
  - rewrite length_push. lia.
  - by apply Forall_push.
  - rewrite vsum_push. lia.
Qed.

(** ** Pushing *)

Definition push_step q (v : bytes) (b : bool) : option quicklist :=
  n ← deref q (endp b q);
  if _quicklistNodeAllowInsert n (fill q) (zlen v) then h ← endp b q; push_node junk q h v b
  else '(q, p) ← one_node junk q v b; __quicklistInsertNode junk hjunk q (endp b q) p (negb b).

Lemma quicklistPush_steps q v b : quicklistPush junk hjunk q v b =
  (q ← push_step q v b; let q := set_count (count q + 1) q in h ← endp b q; upd q h (fun n => Some (set_ncount (ncount n + 1) n))).
Proof using.
  unfold push_step. destruct b; cbn [endp negb]; [unfold quicklistPush, quicklistPushHead | unfold quicklistPush, quicklistPushTail]; (destruct (deref q _) as [n|]; [|done]); cbn [mbind option_bind];
    (match goal with |- context [if ?c then ?x else ?y] => destruct (if c then x else y) as [q1|]; [|done] end); cbn [mbind option_bind fmap option_fmap option_map].
  - destruct (head (set_count (count q1 + 1) q1)); [|done]. cbn [mbind option_bind]. by destruct (upd _ _ _).
  - destruct (tail (set_count (count q1 + 1) q1)); [|done]. cbn [mbind option_bind]. by destruct (upd _ _ _).
Qed.

(** A node that takes one more value has room in its counter. *)
Lemma allow_insert_small depth n vs f (v : bytes) : node_ok depth n vs -> 14 + zlen v < 2 ^ 31 -> _quicklistNodeAllowInsert (Some n) f (zlen v) = true -> zlen vs + 1 < 2 ^ 16.
Proof using.
  intros Hn Hv. pose proof (nd_size _ _ _ Hn) as Hs. unfold _quicklistNodeAllowInsert. set (ov := (if zlen v <? 254 then 1 else 5) + _). assert (0 < ov <= 10) by (unfold ov; repeat case_match; lia). clearbody ov.
  rewrite uwrap_small by lia. unfold _quicklistNodeSizeMeetsOptimizationRequirement, sizeMeetsSafetyLimit, SIZE_SAFETY_LIMIT.
  assert (Hopt : forall k lim, optimization_level !! k = Some lim -> lim <= 65536) by (intros k lim Hk; do 5 (destruct k as [|k]; [injection Hk as <-; lia |]); done).
  assert (Hsafe : (if negb (sz n + zlen v + ov <=? 8192) then false else ncount n <? f) = true -> zlen vs + 1 < 2 ^ 16) by (destruct (Z.leb_spec (sz n + zlen v + ov) 8192); cbn; [lia | done]).
  destruct (f >=? 0); [done |]. destruct (optimization_level !! _) as [lim|] eqn:Hl; [|done]. apply Hopt in Hl. destruct (Z.leb_spec (sz n + zlen v + ov) lim); [lia | done].
Qed.

Lemma end_raw b q ps vss p : shape q ps vss -> endp b q = Some p -> raw_at (nodes q) p.
Proof using. intros [Hc _ [Hs _] _ _] He. apply Hs. rewrite (endp_spec _ _ _ Hc) in He. destruct b; [by left | right]. by rewrite last_lookup. Qed.

(** All counters but that of the node at position [i], which is one behind. *)
Definition counts_but (i : nat) q ps vss : Prop :=
  forall j p vs, ps !! j = Some p -> vss !! j = Some vs -> ncount <$> nodes q !! p = Some (zlen vs - if decide (j = i) then 1 else 0).

Lemma push_finish b q ps vss i h : shape q ps vss -> endp b q = Some h -> ps !! i = Some h -> counts_but i q ps vss -> count q = zlen (concat vss) - 1 -> 11 + vsum (concat vss) < 2 ^ 31 -> (forall x, is_Some (nodes q !! x) -> x ∈ ps) ->
  exists q', upd (set_count (count q + 1) q) h (fun n => Some (set_ncount (ncount n + 1) n)) = Some q' /\ QL q' ps vss /\ fill q' = fill q /\ compress q' = compress q.
Proof using.
  intros Hsh He Hi Hcnt Hct Hsz Hdom. destruct (vals_lookup _ _ _ _ _ _ (sh_vals _ _ _ Hsh) Hi) as (n & vs & Hn & Hvs & Hok). unfold upd. cbn [nodes set_count]. rewrite Hn. cbn [mbind option_bind].
  eexists. split; [done |]. cbn [fill compress set_nodes set_count]. split; [|done].
  assert (Hraw : is_raw n) by (destruct (end_raw b q ps vss h Hsh He) as (m & Hm & Hr); congruence).
  assert (Hok' : node_ok (compress q) (set_ncount (ncount n + 1) n) vs) by (destruct Hok; by split). pose proof (Hcnt i h vs Hi Hvs) as Hni. rewrite decide_True, Hn in Hni by done. injection Hni as Hni.
  pose proof (replace_ok q ps vss i h n _ vs Hsh Hi Hn Hok' Hraw eq_refl eq_refl) as Hsh'. rewrite list_insert_id in Hsh' by done.
  assert (Hsm : zlen vs < 2 ^ 16) by apply Hok. assert (Hne : vs <> []) by apply Hok. pose proof (vsum_length (concat vss)). split; cbn [nodes set_nodes set_count count]; [by destruct Hsh' as [[] ? [] ? ?] | | rewrite uwrap_small; lia | done | intros x; rewrite lookup_insert_is_Some'; intros [<- | Hx]; [by eapply list_elem_of_lookup_2 | auto]].
  apply Forall2_same_length_lookup. split; [eapply vals_same_length, Hsh |]. intros j x ws Hj Hws. specialize (Hcnt j x ws Hj Hws). destruct (decide (j = i)) as [-> | Hji].
  - assert (x = h) as -> by congruence. assert (ws = vs) as -> by congruence. rewrite lookup_insert_eq. cbn. f_equal. destruct vs; [done |]. rewrite uwrap_small; lia.
  - rewrite lookup_insert_ne by (intros <-; apply Hji; eapply NoDup_lookup; [apply Hsh | done | done]). rewrite Hcnt. f_equal. lia.
Qed.

Lemma one_node_ok b q v : bytes_ok v -> 11 + (14 + zlen v) < 2 ^ 31 -> exists n p, one_node junk q v b = Some (set_nodes (<[p := n]> (nodes q)) q, p) /\ nodes q !! p = None /\
  prev n = None /\ next n = None /\ ncount n = 0 /\ is_raw n /\ forall depth, node_ok depth n [v].
Proof using.
  intros Hv Hsz. unfold one_node. destruct (ZiplistProps.ziplistNew_spec junk) as (z0 & -> & Hd0). cbn [mbind option_bind].
  destruct (push_raw b (set_zl z0 quicklistCreateNode) [] v Hd0) as (z & Hz & Hok); [done | done | done | done | done | cbn; lia |]. cbn [zl set_zl] in Hz.
  destruct (ziplistPush junk z0 v b) as [z1|]; [|done]. cbn [mbind option_bind] in *. change (set_zl z1 (set_zl z0 quicklistCreateNode)) with (set_zl z1 quicklistCreateNode) in Hz. rewrite Hz. cbn [mbind option_bind]. unfold new_node.
  eexists _, (fresh (dom (nodes q))). split; [done |]. split; [apply not_elem_of_dom, is_fresh |]. split_and!; try done. intros depth. specialize (Hok depth). by destruct b.
Qed.

Lemma push_step_ok b q ps vss v : QL q ps vss -> bytes_ok v -> 11 + (14 + zlen v + vsum (concat vss)) < 2 ^ 31 ->
  exists q1 ps1 vss1 i h, push_step q v b = Some q1 /\ shape q1 ps1 vss1 /\ endp b q1 = Some h /\ ps1 !! i = Some h /\ counts_but i q1 ps1 vss1 /\
    count q1 = count q /\ fill q1 = fill q /\ compress q1 = compress q /\ concat vss1 = push_val b v (concat vss) /\ forall x, is_Some (nodes q1 !! x) -> x ∈ ps1.
Proof using.
  intros [Hsh Hcnt Hct Hsz0 Hdom] Hv Hsz. pose proof (vals_same_length _ _ _ _ (sh_vals _ _ _ Hsh)) as Hll. pose proof (vsum_nonneg (concat vss)) as Hnn. unfold push_step.
  assert (Hdr : exists n, deref q (endp b q) = Some n /\ forall m, n = Some m -> exists h, endp b q = Some h /\ nodes q !! h = Some m).
  { destruct (endp b q) as [h|] eqn:He; cbn; [|by exists None]. destruct (end_raw b q ps vss h Hsh He) as (m & Hm & _). rewrite Hm. cbn. exists (Some m). split; [done |]. intros ? [= <-]. eauto. }
  destruct Hdr as (n & -> & Hnm). cbn [mbind option_bind]. destruct (_quicklistNodeAllowInsert n (fill q) (zlen v)) eqn:Hallow.
  - destruct n as [m|]; [|done]. destruct (Hnm m eq_refl) as (h & He & Hm). pose proof He as Hi. rewrite (endp_spec _ _ _ (sh_chain _ _ _ Hsh)) in Hi.
    assert (Hvi : exists vs, vss !! end_index b vss = Some vs /\ node_ok (compress q) m vs).
    { destruct (vals_lookup _ _ _ _ _ _ (sh_vals _ _ _ Hsh) Hi) as (m' & vs & Hm' & Hvs & Hok). assert (m' = m) as -> by congruence. exists vs. split; [|done]. unfold end_index in *. by rewrite <- Hll. }
    destruct Hvi as (vs & Hvs & Hok). assert (Heq : end_index b ps = end_index b vss) by (unfold end_index; by rewrite Hll). pose proof (allow_insert_small _ _ _ _ v Hok ltac:(lia) Hallow) as Hsm.
    assert (Hraw : is_raw m) by (destruct (end_raw b q ps vss h Hsh He) as (m' & Hm' & Hr); congruence). pose proof (vsum_concat _ _ _ Hvs).
    destruct (push_raw b m vs v) as (z & Hz & Hok'); [by eapply raw_ziplist | done | apply Hok | done | apply Hok | done | lia |].
    rewrite He. cbn [mbind option_bind]. unfold push_node, upd. rewrite Hm. cbn [mbind option_bind]. rewrite Hz. cbn [mbind option_bind].
    eexists _, ps, (<[end_index b vss := push_val b v vs]> vss), (end_index b ps), h. split; [done |]. rewrite Heq in *.
    split_and!; [by eapply replace_ok | by destruct b | done | | done | done | done | by apply concat_insert_end | cbn [nodes set_nodes]; intros x; rewrite lookup_insert_is_Some'; intros [<- | Hx]; [by eapply list_elem_of_lookup_2 | auto]].
    intros j x ws Hj Hws. cbn [nodes set_nodes]. destruct (decide (j = end_index b vss)) as [-> | Hne].
    + rewrite list_lookup_insert_eq in Hws by (by eapply lookup_lt_Some). injection Hws as <-. assert (x = h) as -> by congruence. rewrite lookup_insert_eq. cbn [fmap option_fmap option_map ncount set_sz set_zl].
      pose proof (Forall2_lookup_lr _ _ _ _ _ _ Hcnt Hj Hvs) as Hc. cbn beta in Hc. rewrite Hm in Hc. injection Hc as ->. rewrite length_push. f_equal. lia.
    + rewrite list_lookup_insert_ne in Hws by congruence. rewrite lookup_insert_ne by (intros <-; apply Hne; eapply NoDup_lookup; [apply Hsh | done | done]). rewrite (Forall2_lookup_lr _ _ _ _ _ _ Hcnt Hj Hws). f_equal. lia.
  - destruct (one_node_ok b q v Hv) as (n1 & p & -> & Hfresh & Hp1 & Hx1 & Hc1 & Hr1 & Hok1); [lia |]. cbn [mbind option_bind].
    assert (Hend : endp b (set_nodes (<[p := n1]> (nodes q)) q) = ps !! end_index b ps) by (rewrite <- (endp_spec _ _ _ (sh_chain _ _ _ Hsh)); by destruct b). rewrite Hend.
    set (q0 := set_nodes _ q) in *. assert (Hsh0 : shape q0 ps vss) by (by apply extra_ok). assert (Hn1 : nodes q0 !! p = Some n1) by (cbn; apply lookup_insert_eq).
    assert (Hp : p ∉ ps) by (intros Hin; destruct (shape_in _ _ _ _ Hsh Hin); congruence).
    assert (Hins : exists q1, __quicklistInsertNode junk hjunk q0 (ps !! end_index b ps) p (negb b) = Some q1 /\ kept q0 q1 /\ shape q1 (push_val b p ps) (push_val b [v] vss)).
    { destruct (decide (ps = [])) as [-> | Hne]; [destruct vss; [|done]; destruct (insert_first_ok junk hjunk q0 p n1 [v] (negb b)) as (q1 & Hq1 & Hk & Hs); [done.. |]; exists q1; by destruct b |].
      destruct (lookup_lt_is_Some_2 ps _ (end_index_lt b ps Hne)) as [o Ho]. pose proof (ql_length _ _ _ (mk_QL _ _ _ Hsh Hcnt Hct Hsz0 Hdom)). pose proof (vsum_length (concat vss)).
      destruct (insert_node_ok junk hjunk q0 ps vss (end_index b ps) o p n1 [v] (negb b) Hsh0) as (q1 & Hq1 & Hk & Hs); [lia | done | done | done | done | done |]. exists q1. rewrite Ho. split_and!; [done.. |].
      destruct b; cbn [negb end_index push_val] in *; [done |]. assert (Hpos : (0 < length ps)%nat) by (destruct ps; [done | cbn; lia]). replace (S (pred (length ps))) with (length ps) in Hs by lia.
      rewrite !take_ge, !drop_ge in Hs by lia. done. }
    destruct Hins as (q1 & -> & (K1 & K2 & K3 & K4) & Hs1). exists q1, (push_val b p ps), (push_val b [v] vss), (end_index b (push_val b p ps)), p. split; [done |].
    assert (Hpe : push_val b p ps !! end_index b (push_val b p ps) = Some p) by (destruct b; cbn; [done |]; by rewrite <- last_lookup, last_snoc).
    split_and!; [done | by rewrite (endp_spec _ _ _ (sh_chain _ _ _ Hs1)) | done | | done | done | done | rewrite concat_push; by destruct b |].
    2:{ intros x [m Hm]. pose proof (K4 x) as Kx. rewrite Hm in Kx. cbn [q0 nodes set_nodes] in Kx. assert (Hin : x = p \/ x ∈ ps) by (destruct (decide (x = p)) as [-> | Hne]; [by left | right]; rewrite lookup_insert_ne in Kx by congruence; apply Hdom; destruct (nodes q !! x); [eauto | done]).
      destruct b; cbn [push_val]; rewrite ?elem_of_app, elem_of_cons, ?elem_of_nil; naive_solver. }
    intros j x ws Hj Hws. rewrite K4. cbn [q0 nodes set_nodes]. destruct (decide (j = _)) as [-> | Hne].
    + assert (x = p) as -> by congruence. rewrite lookup_insert_eq. cbn. rewrite Hc1. f_equal. destruct b; cbn in Hws; [by injection Hws as <- |].
      rewrite length_app in Hws. cbn [length] in Hws. rewrite Hll, Nat.add_1_r in Hws. cbn [pred] in Hws. rewrite lookup_app_r, Nat.sub_diag in Hws by done. by injection Hws as <-.
    + assert (exists k, ps !! k = Some x /\ vss !! k = Some ws) as (k & Hk & Hkw).
      { destruct b; cbn in *; [destruct j; [done |]; eauto |]. rewrite length_app, Nat.add_1_r in Hne. cbn in Hne. pose proof (lookup_lt_Some _ _ _ Hj) as Hlt. rewrite length_app in Hlt. cbn in Hlt.
        rewrite lookup_app_l in Hj by lia. rewrite lookup_app_l in Hws by lia. eauto. }
      rewrite lookup_insert_ne by (intros ->; by apply Hp, (list_elem_of_lookup_2 _ k)). rewrite (Forall2_lookup_lr _ _ _ _ _ _ Hcnt Hk Hkw). f_equal. lia.
Qed.

(** A value pushed at either end. *)
Lemma push_ok b q l v : holds q l -> bytes_ok v -> 11 + (14 + zlen v + vsum l) < 2 ^ 31 ->
  exists q', quicklistPush junk hjunk q v b = Some q' /\ holds q' (push_val b v l) /\ fill q' = fill q /\ compress q' = compress q.
Proof using.
  intros (ps & vss & HQ & <-) Hv Hsz. destruct (push_step_ok b q ps vss v HQ Hv Hsz) as (q1 & ps1 & vss1 & i & h & Hq1 & Hs1 & He & Hi & Hc & Hct & Hf & Hd & Hcat & Hdom).
  rewrite quicklistPush_steps, Hq1. cbn [mbind option_bind]. replace (endp b (set_count (count q1 + 1) q1)) with (Some h) by (by destruct b). cbn [mbind option_bind].
  destruct (push_finish b q1 ps1 vss1 i h Hs1 He Hi Hc) as (q' & -> & HQ' & Hf' & Hd').
  - rewrite Hcat, length_push, Hct, (ql_count _ _ _ HQ). lia.
  - rewrite Hcat, vsum_push. lia.
  - exact Hdom.
  - exists q'. split; [done |]. split; [by exists ps1, vss1 |]. split; congruence.
Qed.

(** One node changed, with its counter and that of the list. *)
Lemma ql_replace q q' ps vss i p n n' vs' : QL q ps vss -> ps !! i = Some p -> nodes q !! p = Some n -> node_ok (compress q) n' vs' -> is_raw n' -> prev n' = prev n -> next n' = next n -> ncount n' = zlen vs' ->
  nodes q' = <[p := n']> (nodes q) -> head q' = head q -> tail q' = tail q -> len q' = len q -> compress q' = compress q ->
  count q' = zlen (concat (<[i := vs']> vss)) -> 11 + vsum (concat (<[i := vs']> vss)) < 2 ^ 31 -> QL q' ps (<[i := vs']> vss).
Proof using.
  intros [Hsh Hcnt _ _ Hdom] Hi Hn Hok Hr Hp Hx Hc HM Hh Ht Hl Hd Hct Hsz. pose proof (replace_ok q ps vss i p n n' vs' Hsh Hi Hn Hok Hr Hp Hx) as Hs1. pose proof (vals_same_length _ _ _ _ (sh_vals _ _ _ Hs1)) as Hll.
  split; [|rewrite HM | done | done | rewrite HM; intros x; rewrite lookup_insert_is_Some'; intros [<- | Hy]; [by eapply list_elem_of_lookup_2 | auto]].
  - destruct Hs1 as [[] ? [] ? ?]. cbn in *. split; [by split; congruence || by rewrite HM | by rewrite HM, Hd | split; by rewrite HM, ?Hd | congruence | congruence].
  - apply Forall2_same_length_lookup. split; [done |]. intros j x ws Hj Hws. destruct (decide (j = i)) as [-> | Hne].
    + rewrite list_lookup_insert_eq in Hws by (rewrite length_insert in Hll; rewrite <- Hll; by eapply lookup_lt_Some). injection Hws as <-. assert (x = p) as -> by congruence. rewrite lookup_insert_eq. cbn. by rewrite Hc.
    + rewrite list_lookup_insert_ne in Hws by congruence. rewrite lookup_insert_ne by (intros <-; apply Hne; eapply NoDup_lookup; [apply Hsh | done | done]). apply (Forall2_lookup_lr _ _ _ _ _ _ Hcnt Hj Hws).
Qed.

(** ** Deleting an element *)

Definition del_at (k : nat) {A} (l : list A) : list A := take k l ++ drop (S k) l.

Lemma del_at_snoc {A} (a : list A) x b : del_at (length a) (a ++ x :: b) = a ++ b.
Proof using. unfold del_at. rewrite take_app_length. f_equal. rewrite drop_app_ge by lia. by replace (S (length a) - length a)%nat with 1%nat by lia. Qed.

Lemma length_del_at {A} k (l : list A) : (k < length l)%nat -> length (del_at k l) = pred (length l).
Proof using. intros. unfold del_at. rewrite length_app, length_take, length_drop. lia. Qed.

Lemma vsum_del_at k vs : vsum (del_at k vs) <= vsum vs.
Proof using. apply ZiplistProps.vsum_cut. lia. Qed.

Lemma Forall_del_at (P : bytes -> Prop) k vs : Forall P vs -> Forall P (del_at k vs).
Proof using. intros. apply Forall_app. split; [by apply Forall_take | by apply Forall_drop]. Qed.

(** The lists of values after the element [k] of the node at [i] is gone. *)
Definition del_val i k vss : list (list bytes) :=
  match vss !! i with
  | Some vs => if decide (length vs = 1%nat) then del_at i vss else <[i := del_at k vs]> vss
  | None => vss
  end.

(** Its position in the whole list. *)
Definition flat_pos (i k : nat) vss : nat := (length (concat (take i vss)) + k)%nat.

Lemma concat_del_val i k vs vss : vss !! i = Some vs -> (k < length vs)%nat -> concat (del_val i k vss) = del_at (flat_pos i k vss) (concat vss).
Proof using.
  intros Hi Hk. unfold del_val. rewrite Hi. pose proof (take_drop_middle _ _ _ Hi) as Hm. unfold flat_pos. set (a := take i vss) in *. assert (Hla : length a = i) by (unfold a; rewrite length_take; apply lookup_lt_Some in Hi; lia).
  assert (Hcat : concat vss = concat a ++ vs ++ concat (drop (S i) vss)) by (rewrite <- Hm at 1; by rewrite concat_app).
  assert (Hgoal : del_at (length (concat a) + k) (concat vss) = concat a ++ del_at k vs ++ concat (drop (S i) vss)).
  { rewrite Hcat. unfold del_at. rewrite take_app_ge, drop_app_ge by lia. replace (length (concat a) + k - length (concat a))%nat with k by lia. replace (S (length (concat a) + k) - length (concat a))%nat with (S k) by lia.
    rewrite take_app_le, drop_app_le by lia. by rewrite <- !app_assoc. }
  rewrite Hgoal. destruct (decide (length vs = 1%nat)) as [H1 | H1].
  - destruct vs as [|x [|]]; [done | | done]. destruct k; [|cbn in Hk; lia]. unfold del_at. fold a. by rewrite concat_app.
  - rewrite <- Hm at 1. rewrite <- Hla. rewrite <- (Nat.add_0_r (length a)) at 1. rewrite insert_app_r, concat_app. cbn [list_insert insert concat]. by rewrite Hla.
Qed.

(** A node, its contents changed to [n1], is removed. *)
Lemma drop_node_ok q ps vss i p n n1 q0 : QL q ps vss -> ps !! i = Some p -> nodes q !! p = Some n -> prev n1 = prev n -> next n1 = next n ->
  nodes q0 = <[p := n1]> (nodes q) -> head q0 = head q -> tail q0 = tail q -> len q0 = len q -> compress q0 = compress q ->
  exists q', __quicklistDelNode junk hjunk q0 p = Some q' /\ shape q' (del_at i ps) (del_at i vss) /\ counts (nodes q') (del_at i ps) (del_at i vss) /\
    count q' = u64 (count q0 - ncount n1) /\ fill q' = fill q0 /\ compress q' = compress q /\ forall x, is_Some (nodes q' !! x) -> x ∈ del_at i ps.
Proof using.
  intros HQ Hi Hn Hpr Hnx HM Hh0 Ht0 Hl0 Hd0. pose proof HQ as [Hsh Hcnt Hct Hsz Hdom]. pose proof Hsh as [Hc Hv Hset Hlen Hd]. pose proof (ql_length _ _ _ HQ) as Hpl. pose proof (vsum_length (concat vss)) as Hvl.
  pose proof (take_drop_middle _ _ _ Hi) as Hps. unfold del_at. set (a := take i ps) in *. set (b := drop (S i) ps) in *.
  assert (Hab : forall x, x ∈ a ++ b -> p <> x) by (intros x Hx <-; pose proof (ch_nodup _ _ Hc) as Hnd; rewrite <- Hps, <- Permutation_middle in Hnd; by apply NoDup_cons in Hnd as [? _]).
  assert (Hin : forall x, x ∈ a ++ b -> x ∈ ps) by (intros x Hx; rewrite <- Hps, elem_of_app, elem_of_cons; rewrite elem_of_app in Hx; tauto).
  assert (Hl : forall x, x ∈ a ++ b -> nodes q0 !! x = nodes q !! x) by (intros x Hx; rewrite HM, lookup_insert_ne; [done | by apply Hab]).
  assert (Hvp : forall xs wss, (forall x, x ∈ xs -> x ∈ a ++ b) -> vals (compress q) (nodes q) xs wss -> vals (compress q0) (nodes q0) xs wss).
  { intros xs wss Hxs Hw. rewrite Hd0. apply Forall2_same_length_lookup. split; [by eapply Forall2_length |]. intros j x ws Hx Hws. destruct (Forall2_lookup_lr _ _ _ _ _ _ Hw Hx Hws) as (m & Hm & Hmok). exists m. split; [|done].
    rewrite Hl; [done |]. apply Hxs. by eapply list_elem_of_lookup_2. }
  destruct (del_node_ok junk hjunk q0 a p b (take i vss) (drop (S i) vss) n1) as (q1 & Hq1 & Hs1 & Hc1 & Hf1 & Hd1 & K0 & K1).
  - rewrite Hps. destruct Hc as [Hnd Hh Ht HL]. split; [done | congruence | congruence |]. intros j x Hj. destruct (HL j x Hj) as (m & Hm & G1 & G2). rewrite HM. destruct (decide (x = p)) as [-> | Hne]; [|exists m; by rewrite lookup_insert_ne by congruence].
    assert (m = n) as -> by congruence. exists n1. rewrite lookup_insert_eq. split_and!; congruence.
  - apply Hvp; [intros x Hx; apply elem_of_app; by left | by apply Forall2_take].
  - apply Hvp; [intros x Hx; apply elem_of_app; by right | by apply Forall2_drop].
  - rewrite HM. apply lookup_insert_eq.
  - rewrite Hl0, Hd0. intros Hs x Hx. destruct (shape_short _ _ _ Hsh Hs x (Hin x Hx)) as (m & Hm & Hr). exists m. split; [|done]. by rewrite Hl.
  - rewrite Hps. congruence.
  - rewrite Hps. lia.
  - lia.
  - exists q1. split_and!; [done | done | | done | done | congruence |].
    2:{ intros x Hx. destruct (decide (x = p)) as [-> | Hne]; [rewrite K0 in Hx; by destruct Hx |]. assert (Hq : is_Some (nodes q !! x)).
      { specialize (K1 x Hne). rewrite HM, lookup_insert_ne in K1 by congruence. destruct Hx as [m Hm]. rewrite Hm in K1. destruct (nodes q !! x); [eauto | done]. }
      apply Hdom in Hq. rewrite <- Hps, elem_of_app, elem_of_cons in Hq. rewrite elem_of_app. naive_solver. }
    apply Forall2_same_length_lookup. split; [eapply vals_same_length, Hs1 |]. intros j x ws Hx Hws. assert (Hxin : x ∈ a ++ b) by (by eapply list_elem_of_lookup_2). rewrite K1, Hl by (done || (intros ->; by apply (Hab p))).
    assert (Hcab : counts (nodes q) (a ++ b) (take i vss ++ drop (S i) vss)) by (apply Forall2_app; [by apply Forall2_take | by apply Forall2_drop]). by apply (Forall2_lookup_lr _ _ _ _ _ _ Hcab Hx Hws).
Qed.

Lemma delindex_ok q ps vss i node n vs k p : QL q ps vss -> ps !! i = Some node -> nodes q !! node = Some n -> vss !! i = Some vs -> is_raw n -> (k < length vs)%nat -> ziplistIndex (zl n) (Z.of_nat k) = Some (Some p) ->
  exists q', quicklistDelIndex junk hjunk q node p = Some (q', bool_decide (length vs = 1%nat), p) /\
    QL q' (if decide (length vs = 1%nat) then del_at i ps else ps) (del_val i k vss) /\ fill q' = fill q /\ compress q' = compress q.
Proof using.
  intros HQ Hi Hn Hvs Hraw Hk Hp. pose proof HQ as [Hsh Hcnt Hct Hsz Hdom]. pose proof Hsh as [Hc Hv Hset Hlen Hd]. destruct (vals_lookup _ _ _ _ _ _ Hv Hi) as (n' & vs' & Hn' & Hvs' & Hok). assert (n' = n) as -> by congruence. assert (vs' = vs) as -> by congruence.
  pose proof (vals_same_length _ _ _ _ Hv) as Hll. pose proof (nd_small _ _ _ Hok) as Hsm. pose proof (nd_vsum _ _ _ Hok) as Hvn. pose proof (vsum_length (concat vss)) as Hvl. pose proof (ql_length _ _ _ HQ) as Hpl.
  pose proof (Forall2_lookup_lr _ _ _ _ _ _ Hcnt Hi Hvs) as Hcn. cbn beta in Hcn. rewrite Hn in Hcn. injection Hcn as Hcn.
  destruct (lookup_lt_is_Some_2 vs k Hk) as [v Hkv]. destruct (zip_delete (zl n) vs (raw_ziplist _ _ _ Hok Hraw) ltac:(lia) junk k v Hkv) as (p' & z & Hp' & Hdel & Hdz & _). assert (p' = p) as -> by congruence.
  unfold quicklistDelIndex. rewrite Hn. cbn [mbind option_bind]. rewrite Hdel. cbn [mbind option_bind]. cbn [ncount set_ncount set_zl]. rewrite Hcn, (uwrap_small 16) by lia. fold (del_at k vs) in Hdz. pose proof (concat_del_val i k vs vss Hvs Hk) as Hcat.
  assert (Hnc : count q - 1 = zlen (concat (del_val i k vss))).
  { assert (Hfp : (flat_pos i k vss < length (concat vss))%nat) by (unfold flat_pos; rewrite <- (take_drop_middle _ _ _ Hvs) at 2; rewrite concat_app, length_app; cbn; rewrite length_app; lia). rewrite Hcat, length_del_at by done. lia. }
  assert (Hvc : vsum (concat (del_val i k vss)) <= vsum (concat vss)) by (rewrite Hcat; apply vsum_del_at). unfold del_val in *. rewrite Hvs in *.
  destruct (decide (length vs = 1%nat)) as [H1 | H1].
  - rewrite bool_decide_eq_true_2 by done. replace (zlen vs - 1 =? 0) with true by (symmetry; apply Z.eqb_eq; lia). set (n1 := set_ncount (zlen vs - 1) (set_zl z n)). set (q0 := set_nodes _ q).
    destruct (drop_node_ok q ps vss i node n n1 q0) as (q1 & -> & Hs1 & Hcs & Hc1 & Hf1 & Hd1 & Hdm); try done. cbn [mbind option_bind]. eexists. split; [done |]. split; [|done].
    assert (Hc1' : count q1 = count q) by (rewrite Hc1; cbn [count q0 set_nodes n1 ncount set_ncount]; rewrite (uwrap_small 16), uwrap_small; lia).
    split; cbn [nodes set_count count]; [by destruct Hs1 as [[] ? [] ? ?] | done | rewrite uwrap_small; lia | lia | exact Hdm].
  - rewrite bool_decide_eq_false_2 by done. replace (zlen vs - 1 =? 0) with false by (symmetry; apply Z.eqb_neq; lia). unfold quicklistNodeUpdateSz, upd. cbn [nodes set_nodes]. rewrite lookup_insert_eq. cbn [mbind option_bind]. unfold update_sz. cbn [zl set_ncount set_zl].
    pose proof (vsum_del_at k vs). destruct (denotes_block _ _ Hdz) as (-> & Hzl & _); [lia |]. cbn [mbind option_bind]. eexists. split; [done |]. split; [|done]. rewrite insert_insert_eq.
    set (n1 := set_sz _ _). assert (Hok1 : node_ok (compress q) n1 (del_at k vs)).
    { apply raw_node_ok; try done; [apply Hok | | | apply Forall_del_at, Hok | lia]; [intros H0; apply (f_equal length) in H0; rewrite length_del_at in H0 by done; cbn in H0; lia | rewrite length_del_at by done; lia]. }
    eapply (ql_replace q); try done; cbn [ncount set_sz set_ncount n1 count set_count set_nodes]; [rewrite uwrap_small, length_del_at by (done || lia); lia | rewrite uwrap_small; lia | lia].
Qed.

(** ** Popping *)

Lemma flat_pos_end b vs vss : vss !! end_index b vss = Some vs -> vs <> [] -> flat_pos (end_index b vss) (end_index b vs) vss = end_index b (concat vss).
Proof using.
  intros Hv Hne. unfold flat_pos. destruct b; cbn [end_index] in *; [done |]. rewrite <- last_lookup in Hv. apply last_Some in Hv as [vss' ->].
  rewrite length_app. cbn [length]. rewrite Nat.add_1_r. cbn [pred]. rewrite take_app_length, concat_app, length_app. cbn. rewrite app_nil_r. destruct vs; [done |]. cbn. lia.
Qed.

Lemma lookup_concat_at i k vs vss (v : bytes) : vss !! i = Some vs -> vs !! k = Some v -> concat vss !! flat_pos i k vss = Some v.
Proof using.
  intros Hi Hk. assert (Hc : concat vss = concat (take i vss) ++ vs ++ concat (drop (S i) vss)) by (rewrite <- (take_drop_middle _ _ _ Hi) at 1; by rewrite concat_app).
  unfold flat_pos. rewrite Hc, lookup_app_r by lia. rewrite Nat.add_comm, Nat.add_sub. by apply lookup_app_l_Some.
Qed.

Lemma zindex_end (b : bool) vs : vs <> [] -> zindex vs (if b then 0 else -1) = Some (end_index b vs).
Proof using.
  intros Hne. assert (0 < zlen vs) by (destruct vs; [done | cbn; lia]). unfold zindex, end_index. destruct b.
  - change (0 <? 0) with false. cbn iota. zguard. done.
  - change (-1 <? 0) with true. cbn iota. zguard. f_equal. lia.
Qed.

(** The element of a node at an index, its text and its position. *)
Lemma node_entry depth n vs k v : node_ok depth n vs -> is_raw n -> vs !! k = Some v -> exists p g, ziplistIndex (zl n) (Z.of_nat k) = Some (Some p) /\
  ziplistGet (zl n) (Some p) = Some (Some g) /\ value_of g = v /\ zget_ok g.
Proof using.
  intros Hok Hr Hk. pose proof (nd_vsum _ _ _ Hok). destruct (zip_entry (zl n) vs (raw_ziplist _ _ _ Hok Hr) ltac:(lia) k v Hk) as (p & g & Hp & Hg & Hv & Hgo & _); [|eauto 6].
  eapply Forall_lookup_1; [apply Hok | exact Hk].
Qed.

Lemma concat_nil q ps vss : shape q ps vss -> concat vss = [] -> ps = [].
Proof using. intros [_ Hv _ _ _]. destruct Hv as [|p vs ps vss (n & _ & Hok) _]; [done |]. pose proof (nd_some _ _ _ Hok). by destruct vs. Qed.

Lemma pop_ok b q l : holds q l ->
  exists q' r, quicklistPopCustom junk hjunk q b = Some (q', r) /\ value_of <$> r = l !! end_index b l /\ (forall g, r = Some g -> zget_ok g) /\
    holds q' (del_at (end_index b l) l) /\ fill q' = fill q /\ compress q' = compress q.
Proof using.
  intros (ps & vss & HQ & <-). pose proof HQ as [Hsh Hcnt Hct Hsz _]. pose proof (vals_same_length _ _ _ _ (sh_vals _ _ _ Hsh)) as Hll. unfold quicklistPopCustom. fold (endp b q).
  destruct (decide (concat vss = [])) as [H0 | H0].
  { rewrite Hct, H0. cbn. exists q, None. split_and!; [done | by destruct b | done | | done | done]. exists ps, vss. rewrite H0. split; [done |]. by destruct b. }
  replace (count q =? 0) with false by (symmetry; apply Z.eqb_neq; rewrite Hct; destruct (concat vss); [done | cbn; lia]).
  assert (Hpn : ps <> []) by (intros ->; by destruct vss). destruct (lookup_lt_is_Some_2 ps _ (end_index_lt b ps Hpn)) as [node Hi]. assert (He : endp b q = Some node) by (by rewrite (endp_spec _ _ _ (sh_chain _ _ _ Hsh))).
  destruct (vals_lookup _ _ _ _ _ _ (sh_vals _ _ _ Hsh) Hi) as (n & vs & Hn & Hvs & Hok). assert (Hraw : is_raw n) by (destruct (end_raw b q ps vss node Hsh He) as (m & Hm & Hr); congruence).
  pose proof (nd_some _ _ _ Hok) as Hne. pose proof (nd_vsum _ _ _ Hok). destruct (lookup_lt_is_Some_2 vs _ (end_index_lt b vs Hne)) as [v Hkv]. destruct (node_entry _ _ _ _ _ Hok Hraw Hkv) as (p & g & Hp & Hg & Hval & Hgo).
  rewrite He, Hn. cbn [mbind option_bind]. rewrite (zip_index (zl n) vs (raw_ziplist _ _ _ Hok Hraw)), zindex_end, Hp by (done || lia || by destruct b). cbn [mbind option_bind]. rewrite Hg. cbn [mbind option_bind].
  destruct (delindex_ok q ps vss _ node n vs _ p HQ Hi Hn Hvs Hraw (end_index_lt b vs Hne) Hp) as (q' & -> & HQ' & Hf & Hd). cbn [mbind option_bind].
  assert (Heq : end_index b ps = end_index b vss) by (unfold end_index; by rewrite Hll). rewrite Heq in *. exists q', (Some g). split_and!; try done.
  - cbn. rewrite <- (flat_pos_end b vs vss Hvs Hne). rewrite (lookup_concat_at _ _ _ _ _ Hvs Hkv). by rewrite Hval.
  - by intros ? [= <-].
  - eexists _, _. split; [exact HQ' |]. rewrite (concat_del_val _ _ vs vss Hvs) by (by apply end_index_lt). by rewrite (flat_pos_end b vs vss Hvs Hne).
Qed.

(** ** Sequences of operations *)

Inductive qop :=
  | QPush (at_head : bool) (v : bytes)
  | QPop (at_head : bool).

Definition qrun (o : qop) q : option (quicklist * option bytes) :=
  match o with
  | QPush b v => q ← quicklistPush junk hjunk q v b; Some (q, None)
  | QPop b => '(q, r) ← quicklistPopCustom junk hjunk q b; Some (q, fmap (M := option) value_of r)
  end.

Fixpoint qruns (os : list qop) q : option (quicklist * list (option bytes)) :=
  match os with
  | [] => Some (q, [])
  | o :: os => '(q, r) ← qrun o q; '(q, rs) ← qruns os q; Some (q, r :: rs)
  end.

(** What they do to a list of values. *)
Definition qspec (o : qop) (l : list bytes) : list bytes * option bytes :=
  match o with
  | QPush true v => (v :: l, None)
  | QPush false v => (l ++ [v], None)
  | QPop true => match l with [] => ([], None) | v :: l => (l, Some v) end
  | QPop false => (take (length l - 1) l, last l)
  end.

Fixpoint qspecs (os : list qop) (l : list bytes) : list bytes * list (option bytes) :=
  match os with
  | [] => (l, [])
  | o :: os => let (l, r) := qspec o l in let (l, rs) := qspecs os l in (l, r :: rs)
  end.

Definition qop_ok (o : qop) : Prop := match o with QPush _ v => bytes_ok v | QPop _ => True end.

(** The memory a sequence takes, at most. *)
Fixpoint qops_size (os : list qop) : Z :=
  match os with
  | [] => 0
  | QPush _ v :: os => 14 + zlen v + qops_size os
  | QPop _ :: os => qops_size os
  end.

Lemma qops_size_nonneg os : 0 <= qops_size os.
Proof using. induction os as [|[] os IH]; cbn [qops_size]; lia. Qed.

Lemma qspec_pop b (l : list bytes) : qspec (QPop b) l = (del_at (end_index b l) l, l !! end_index b l).
Proof using.
  destruct b; cbn [qspec end_index]; [by destruct l |]. rewrite last_lookup. f_equal. unfold del_at. rewrite (drop_ge l) by lia. rewrite app_nil_r. f_equal. lia.
Qed.

Lemma qspec_push b v (l : list bytes) : qspec (QPush b v) l = (push_val b v l, None).
Proof using. by destruct b. Qed.

Lemma qrun_ok o q l : holds q l -> qop_ok o -> 11 + vsum l + qops_size [o] < 2 ^ 31 ->
  exists q', qrun o q = Some (q', (qspec o l).2) /\ holds q' (qspec o l).1 /\ vsum (qspec o l).1 <= vsum l + qops_size [o].
Proof using.
  intros Hh Hok Hsz. destruct o as [b v | b]; cbn [qops_size qop_ok] in *.
  - rewrite qspec_push. destruct (push_ok b q l v Hh Hok ltac:(lia)) as (q' & Hq & Hh' & _). cbn [qrun fst snd]. rewrite Hq. exists q'. split_and!; [done | done |]. rewrite vsum_push. lia.
  - rewrite qspec_pop. destruct (pop_ok b q l Hh) as (q' & r & Hq & Hr & _ & Hh' & _). cbn [qrun fst snd]. rewrite Hq. cbn. rewrite Hr. exists q'. split_and!; [done | done |]. pose proof (vsum_del_at (end_index b l) l). lia.
Qed.

Lemma qruns_ok os : forall q l, holds q l -> Forall qop_ok os -> 11 + vsum l + qops_size os < 2 ^ 31 ->
  exists q', qruns os q = Some (q', (qspecs os l).2) /\ holds q' (qspecs os l).1.
Proof using.
  induction os as [|o os IH]; intros q l Hh Hok Hsz; cbn [qruns qspecs]; [by exists q |]. inversion Hok as [|? ? Ho Hos]; subst. pose proof (qops_size_nonneg os) as Hnn.
  assert (Hs1 : qops_size (o :: os) = qops_size [o] + qops_size os) by (destruct o; cbn [qops_size]; lia).
  destruct (qrun_ok o q l Hh Ho ltac:(lia)) as (q1 & -> & Hh1 & Hv1). cbn [mbind option_bind]. destruct (qspec o l) as [l1 r]. cbn [fst snd] in *.
  destruct (IH q1 l1 Hh1 Hos ltac:(lia)) as (q2 & -> & Hh2). cbn [mbind option_bind]. destruct (qspecs os l1) as [l2 rs]. by exists q2.
Qed.

Lemma new_holds f depth : holds (quicklistNew f depth) [].
Proof using.
  assert (Hc : 0 <= compress (quicklistNew f depth)) by (cbn; apply (uwrap_range 16); lia).
  exists [], []. split; [|done]. split; [|constructor | done | done | by intros x [n Hn]]. split; [|constructor | | done | done].
  - split; [constructor | done | done | by intros j x].
  - apply all_raw_settled. by intros p ?%not_elem_of_nil.
Qed.

(** ** Release *)

Lemma release_loop_ok q0 ps : chain q0 ps -> forall rounds k q, (rounds + k = length ps)%nat -> (forall x, x ∈ drop k ps -> nodes q !! x = nodes q0 !! x) -> (forall x, is_Some (nodes q !! x) -> x ∈ drop k ps) ->
  exists q', release_loop rounds q (ps !! k) = Some q' /\ nodes q' = ∅.
Proof using.
  intros Hc. induction rounds as [|rounds IH]; intros k q Hk Hsame Hdom; cbn [release_loop].
  - exists q. split; [done |]. apply map_eq. intros x. rewrite lookup_empty. destruct (nodes q !! x) as [n|] eqn:Hx; [|done]. exfalso. assert (Hin : x ∈ drop k ps) by (apply Hdom; eauto). rewrite drop_ge in Hin by lia. by apply not_elem_of_nil in Hin.
  - destruct (lookup_lt_is_Some_2 ps k ltac:(lia)) as [p Hp]. rewrite Hp. cbn [mbind option_bind]. rewrite (drop_S _ _ _ Hp) in Hsame, Hdom. destruct (ch_links _ _ Hc k p Hp) as (n & Hn & _ & Hnx).
    rewrite Hsame, Hn by (by left). cbn [mbind option_bind]. rewrite Hnx. assert (Hnp : p ∉ drop (S k) ps) by (intros [j Hj]%list_elem_of_lookup; rewrite lookup_drop in Hj; assert (S k + j = k)%nat by (eapply NoDup_lookup; [apply Hc | done | done]); lia).
    apply IH; [lia | |]; cbn [nodes set_len set_nodes set_count].
    + intros x Hx. rewrite lookup_delete_ne; [apply Hsame; by right | by intros ->].
    + intros x [m Hm]. apply lookup_delete_Some in Hm as [Hne Hm]. assert (Hin : x ∈ p :: drop (S k) ps) by (apply Hdom; eauto). apply elem_of_cons in Hin as [|]; congruence.
Qed.

(** Every node is freed, once. *)
Lemma release_ok q l : holds q l -> exists q', quicklistRelease q = Some q' /\ nodes q' = ∅.
Proof using.
  intros (ps & vss & [Hsh _ _ _ Hdom] & _). unfold quicklistRelease. rewrite (ch_head _ _ (sh_chain _ _ _ Hsh)), (sh_len _ _ _ Hsh), Nat2Z.id. apply (release_loop_ok q ps (sh_chain _ _ _ Hsh)); [lia | done | done].
Qed.

Lemma holds_count q l : holds q l -> quicklistCount q = zlen l.
Proof using. intros (ps & vss & [_ _ Hc Hs _] & <-). pose proof (vsum_length (concat vss)). unfold quicklistCount. rewrite Hc, uwrap_small; lia. Qed.
End Code.

(** C8. Whatever the limit on the size of the nodes ([list_max_ziplist_size])
    and the number of nodes left uncompressed at each end
    ([list_compress_depth]) - the nodes may be split anywhere, and be packed and
    unpacked by LZF after every change - every sequence of pushes and pops at
    both ends of a new quicklist terminates without an access outside a
    block, returns what a list of byte strings returns, integers stored as
    integers included, and leaves a quicklist whose [count] is the length of
    that list and whose release frees every node of it, each once and none
    leaked, as long as the values take less than 2 GB. *)
Theorem quicklist_deque junk hjunk f depth os : Forall qop_ok os -> 11 + qops_size os < 2 ^ 31 ->
  exists q, qruns junk hjunk os (quicklistNew f depth) = Some (q, (qspecs os []).2) /\ quicklistCount q = zlen (qspecs os []).1 /\
    exists q', quicklistRelease q = Some q' /\ nodes q' = ∅.
Proof.
  intros Hok Hsz. destruct (qruns_ok junk hjunk os _ [] (new_holds f depth) Hok) as (q & Hq & Hh); [cbn; lia |]. exists q. split; [done |]. split; [by apply holds_count | by eapply release_ok].
Qed.

(** Compressed nodes and integers, with two values per node. *)
Definition long (c : Z) : bytes := repeat c 60.
Definition deque_script : list qop := [QPush false (long 97); QPush false (long 98); QPush false (long 99); QPush false [49; 50]; QPush false (long 101); QPush true (long 102); QPop true; QPop true; QPop true; QPop true; QPop false; QPop true; QPop true].

Lemma quicklist_deque_witness : exists q, qruns (fun _ => 0) (fun _ => 0) deque_script (quicklistNew 2 1) = Some (q, (qspecs deque_script []).2) /\
  quicklistCount q = zlen (qspecs deque_script []).1 /\ exists q', quicklistRelease q = Some q' /\ nodes q' = ∅.
Proof.
  apply quicklist_deque; [|vm_compute; reflexivity]. unfold deque_script. repeat constructor; lia.
Defined.

End QuicklistProps.
