(* ===== verification/QuicklistIndex.v ===== *)
(** * Quicklists: access by index, iteration and ranges

    The operations the list commands need besides pushes and pops, on lists
    that are not compressed, as the server creates them. *)

From stdpp Require Import gmap.
From S2P Require Import Prelude Bytes NumConv Object Ziplist ZiplistProps ZiplistKit Quicklist QuicklistInv QuicklistOps QuicklistProps.
Import NumConv Ziplist Quicklist QuicklistInv QuicklistOps QuicklistProps.
Import ZiplistProps(denotes, vsum, vsum_app, vsum_nonneg, vsum_length, value_of, zspec, zrun, zrun_spec, zindex).
Import ZiplistProps(zop, ZPush, ZInsert, ZDelete, ZDeleteRange).
Import ZiplistKit(zget_ok, zip_entry, zip_delete, zip_index, zip_prev).

Module QuicklistIndex.

Section Code.
Context (junk : nat -> Z) (hjunk : Z -> Z).
Implicit Types (q : quicklist) (ps : list Z) (vs : list bytes) (vss : list (list bytes)).

(** ** Positions *)

Lemma concat_take_S i vs vss : vss !! i = Some vs -> concat (take (S i) vss) = concat (take i vss) ++ vs.
Proof using. intros Hi. rewrite (take_S_r _ _ _ Hi), concat_app. cbn. by rewrite app_nil_r. Qed.

Lemma flat_pos_next i vs vss : vss !! i = Some vs -> flat_pos i (length vs) vss = flat_pos (S i) 0 vss.
Proof using. intros Hi. unfold flat_pos. rewrite (concat_take_S _ _ _ Hi), length_app. lia. Qed.

Lemma flat_pos_lt i k vs vss : vss !! i = Some vs -> (k < length vs)%nat -> (flat_pos i k vss < length (concat vss))%nat.
Proof using.
  intros Hi Hk. unfold flat_pos. rewrite <- (take_drop_middle _ _ _ Hi) at 2. rewrite concat_app, length_app. cbn. rewrite length_app. lia.
Qed.

(** ** Nodes of a list *)

Lemma ql_node q ps vss i p : QL q ps vss -> ps !! i = Some p -> exists n vs, nodes q !! p = Some n /\ vss !! i = Some vs /\ node_ok (compress q) n vs /\
  prev n = before ps i /\ next n = ps !! S i /\ ncount n = zlen vs.
Proof using.
  intros [Hsh Hc _ _ _] Hi. destruct (vals_lookup _ _ _ _ _ _ (sh_vals _ _ _ Hsh) Hi) as (n & vs & Hn & Hvs & Hok). destruct (ch_links _ _ (sh_chain _ _ _ Hsh) i p Hi) as (n' & Hn' & Hp & Hx). assert (n' = n) as -> by congruence.
  pose proof (Forall2_lookup_lr _ _ _ _ _ _ Hc Hi Hvs) as Hcn. cbn beta in Hcn. rewrite Hn in Hcn. injection Hcn as Hcn. exists n, vs. by split_and!.
Qed.

Lemma ql_lookup q ps vss i vs : QL q ps vss -> vss !! i = Some vs -> exists p, ps !! i = Some p.
Proof using. intros HQ Hi. apply lookup_lt_is_Some_2. rewrite (vals_same_length _ _ _ _ (sh_vals _ _ _ (ql_shape _ _ _ HQ))). by eapply lookup_lt_Some. Qed.

Lemma size_nodes q ps vss : QL q ps vss -> (length ps <= size (nodes q))%nat.
Proof using.
  intros [Hsh _ _ _ _]. rewrite <- size_dom. rewrite <- (size_list_to_set (C := gset Z) ps) by apply Hsh. apply subseteq_size. intros x Hx%elem_of_list_to_set. apply elem_of_dom. by eapply shape_in.
Qed.

(** A node is decompressed for use: nothing happens. *)
Lemma use_raw q p n : nodes q !! p = Some n -> is_raw n -> quicklistDecompressNodeForUse junk q p = Some q.
Proof using.
  intros Hn Hr. unfold quicklistDecompressNodeForUse, upd, decompress_for_use. rewrite Hn. cbn [mbind option_bind]. unfold is_raw in Hr. rewrite Hr. cbn. rewrite insert_id by done. by destruct q.
Qed.

Lemma compress_noop q p n : nodes q !! p = Some n -> recompress n = false -> compress q = 0 -> quicklistCompress junk hjunk q p = Some q.
Proof using.
  intros Hn Hr Hc. unfold quicklistCompress. rewrite Hn. cbn [mbind option_bind]. rewrite Hr. unfold __quicklistCompress, quicklistAllowsCompression. by rewrite Hc.
Qed.

(** ** The walk to an index *)

Lemma walk_forward q ps vss m : QL q ps vss -> 0 <= m < 2 ^ 63 -> forall fuel i, (length ps - i < fuel)%nat -> (i <= length ps)%nat -> Z.of_nat (flat_pos i 0 vss) <= m ->
  (zlen (concat vss) <= m -> index_walk fuel q (ps !! i) (Z.of_nat (flat_pos i 0 vss)) m true = Some None) /\
  (m < zlen (concat vss) -> exists j p vs k, index_walk fuel q (ps !! i) (Z.of_nat (flat_pos i 0 vss)) m true = Some (Some (p, Z.of_nat (flat_pos j 0 vss))) /\
     ps !! j = Some p /\ vss !! j = Some vs /\ (k < length vs)%nat /\ m = Z.of_nat (flat_pos j k vss)).
Proof using.
  intros HQ Hm. pose proof (vals_same_length _ _ _ _ (sh_vals _ _ _ (ql_shape _ _ _ HQ))) as Hll. pose proof (ql_size _ _ _ HQ). pose proof (vsum_length (concat vss)).
  induction fuel as [|fuel IH]; intros i Hf Hi Hle; [lia |]. destruct (ps !! i) as [p|] eqn:Hp.
  - destruct (ql_node q ps vss i p HQ Hp) as (n & vs & Hn & Hvs & Hok & _ & Hnx & Hcn). cbn [index_walk]. rewrite Hn. cbn [mbind option_bind]. rewrite Hcn.
    pose proof (flat_pos_next i vs vss Hvs) as Hfn. pose proof (nd_some _ _ _ Hok) as Hne. assert (Hlv : (0 < length vs)%nat) by (destruct vs; [done | cbn; lia]). pose proof (flat_pos_lt i (length vs - 1) vs vss Hvs ltac:(lia)) as Hfl.
    unfold flat_pos in Hfn, Hfl, Hle. rewrite uwrap_small by (unfold flat_pos; lia). replace (Z.of_nat (flat_pos i 0 vss) + zlen vs) with (Z.of_nat (flat_pos (S i) 0 vss)) by (unfold flat_pos; lia).
    destruct (Z.gtb_spec (Z.of_nat (flat_pos (S i) 0 vss)) m) as [Hgt | Hgt].
    + split; [unfold flat_pos in *; lia |]. intros _. exists i, p, vs, (Z.to_nat m - flat_pos i 0 vss)%nat. unfold flat_pos in *. split_and!; [done | done | done | lia | lia].
    + rewrite Hnx. apply IH; [apply lookup_lt_Some in Hp; lia | apply lookup_lt_Some in Hp; lia | lia].
  - cbn [index_walk]. split; [done |]. intros Hlt. exfalso. apply lookup_ge_None in Hp. unfold flat_pos in Hle. rewrite take_ge in Hle by lia. lia.
Qed.

(** The elements from position [i] of the nodes on. *)
Definition after_node i vss : Z := zlen (concat vss) - Z.of_nat (flat_pos i 0 vss).

Lemma walk_backward q ps vss m : QL q ps vss -> 0 <= m < 2 ^ 63 -> forall fuel i, (i < fuel)%nat -> (i <= length ps)%nat -> after_node i vss <= m ->
  (zlen (concat vss) <= m -> index_walk fuel q (before ps i) (after_node i vss) m false = Some None) /\
  (m < zlen (concat vss) -> exists j p vs k, index_walk fuel q (before ps i) (after_node i vss) m false = Some (Some (p, after_node (S j) vss)) /\
     ps !! j = Some p /\ vss !! j = Some vs /\ (k < length vs)%nat /\ m = zlen (concat vss) - 1 - Z.of_nat (flat_pos j k vss)).
Proof using.
  intros HQ Hm. pose proof (vals_same_length _ _ _ _ (sh_vals _ _ _ (ql_shape _ _ _ HQ))) as Hll. pose proof (ql_size _ _ _ HQ). pose proof (vsum_length (concat vss)). unfold after_node.
  induction fuel as [|fuel IH]; intros i Hf Hi Hle; [lia |]. destruct i as [|i]; cbn [before].
  - cbn [index_walk]. split; [done |]. intros Hlt. exfalso. replace (flat_pos 0 0 vss) with 0%nat in Hle by done. lia.
  - destruct (lookup_lt_is_Some_2 ps i ltac:(lia)) as [p Hp]. rewrite Hp. destruct (ql_node q ps vss i p HQ Hp) as (n & vs & Hn & Hvs & Hok & Hpr & _ & Hcn). cbn [index_walk]. rewrite Hn. cbn [mbind option_bind]. rewrite Hcn.
    pose proof (flat_pos_next i vs vss Hvs) as Hfn. pose proof (nd_some _ _ _ Hok) as Hne. assert (Hlv : (0 < length vs)%nat) by (destruct vs; [done | cbn; lia]). pose proof (flat_pos_lt i (length vs - 1) vs vss Hvs ltac:(lia)) as Hfl.
    assert (Hsum : zlen (concat vss) - Z.of_nat (flat_pos (S i) 0 vss) + zlen vs = zlen (concat vss) - Z.of_nat (flat_pos i 0 vss)) by (unfold flat_pos in *; lia).
    rewrite uwrap_small, Hsum by (unfold flat_pos in *; lia). destruct (Z.gtb_spec (zlen (concat vss) - Z.of_nat (flat_pos i 0 vss)) m) as [Hgt | Hgt].
    + split; [unfold flat_pos in *; lia |]. intros _. exists i, p, vs, (length (concat vss) - 1 - Z.to_nat m - flat_pos i 0 vss)%nat. unfold flat_pos in *. split_and!; [done | done | done | lia | lia].
    + rewrite Hpr. apply IH; [lia | lia | lia].
Qed.

(** ** Entries *)

(** The element [k] of the node [p] at position [i]: its place in the ziplist
    and what [ziplistGet] returns for it. *)
Definition entry_at q ps vss (i k : nat) (p z : Z) (g : zget) : Prop := exists n vs, ps !! i = Some p /\ nodes q !! p = Some n /\ vss !! i = Some vs /\
  vs !! k = Some (value_of g) /\ zget_ok g /\ ziplistIndex (zl n) (Z.of_nat k) = Some (Some z) /\ ziplistGet (zl n) (Some z) = Some (Some g).

Lemma entry_exists q ps vss i p vs k : QL q ps vss -> compress q = 0 -> ps !! i = Some p -> vss !! i = Some vs -> (k < length vs)%nat -> exists z g, entry_at q ps vss i k p z g.
Proof using.
  intros HQ H0 Hp Hvs Hk. destruct (ql_node q ps vss i p HQ Hp) as (n & vs' & Hn & Hvs' & Hok & _). assert (vs' = vs) as -> by congruence. destruct (lookup_lt_is_Some_2 vs k Hk) as [v Hv].
  destruct (node_entry _ n vs k v Hok (nd_raw _ _ _ Hok H0) Hv) as (z & g & Hz & Hg & Hval & Hgo). exists z, g, n, vs. subst v. by split_and!.
Qed.

Lemma entry_flat q ps vss i k p z g : entry_at q ps vss i k p z g -> concat vss !! flat_pos i k vss = Some (value_of g).
Proof using. intros (n & vs & _ & _ & Hvs & Hk & _). by eapply lookup_concat_at. Qed.

(** The end of [quicklistIndex]: the element at an offset in a node. *)
Lemma use_entry q ps vss i p vs k off : QL q ps vss -> compress q = 0 -> ps !! i = Some p -> vss !! i = Some vs -> ZiplistProps.int32 off -> zindex vs off = Some k ->
  exists z g, entry_at q ps vss i k p z g /\
    (q ← quicklistDecompressNodeForUse junk q p; n ← nodes q !! p; z ← ziplistIndex (zl n) off; g ← ziplistGet (zl n) z; Some (q, Some (mk_entry (Some p) z g off))) =
    Some (q, Some (mk_entry (Some p) (Some z) (Some g) off)).
Proof using.
  intros HQ H0 Hp Hvs Hoff Hzi. destruct (entry_exists q ps vss i p vs k HQ H0 Hp Hvs) as (z & g & He); [by eapply ZiplistProps.zindex_lt |]. exists z, g. split; [done |].
  destruct He as (n & vs' & _ & Hn & Hvs' & Hkv & Hgo & Hz & Hg). assert (vs' = vs) as -> by congruence.
  destruct (ql_node q ps vss i p HQ Hp) as (n' & vs' & Hn' & Hvs2 & Hok & _). assert (n' = n) as -> by congruence. assert (vs' = vs) as -> by congruence. pose proof (nd_vsum _ _ _ Hok).
  rewrite (use_raw q p n Hn (nd_raw _ _ _ Hok H0)). cbn [mbind option_bind]. rewrite Hn. cbn [mbind option_bind]. rewrite (zip_index (zl n) vs (raw_ziplist _ _ _ Hok (nd_raw _ _ _ Hok H0))) by (done || lia). rewrite Hzi, Hz. cbn [mbind option_bind]. by rewrite Hg.
Qed.

(** The index from the end; [LLONG_MIN] wraps to an index no list reaches. *)
Lemma back_index idx : int64 idx -> idx < 0 -> u64 (s64 (s64 (- idx) - 1)) = - idx - 1.
Proof using.
  unfold int64, LLONG_MIN, LLONG_MAX. intros Hi Hneg. destruct (decide (idx = - 2 ^ 63)) as [-> | Hne]; [done |]. rewrite (swrap_small 64 ltac:(lia) (- idx)), swrap_small, uwrap_small; lia.
Qed.

Lemma index_ok q ps vss idx : QL q ps vss -> compress q = 0 -> int64 idx ->
  match zindex (concat vss) idx with
  | None => quicklistIndex junk q idx = Some (q, None)
  | Some m => exists i k p z g vs, quicklistIndex junk q idx = Some (q, Some (mk_entry (Some p) (Some z) (Some g) (if idx <? 0 then Z.of_nat k - zlen vs else Z.of_nat k))) /\
      entry_at q ps vss i k p z g /\ vss !! i = Some vs /\ m = flat_pos i k vss
  end.
Proof using.
  intros HQ H0 Hidx. pose proof (ql_size _ _ _ HQ). pose proof (vsum_length (concat vss)) as Hvl. pose proof (size_nodes q ps vss HQ) as Hsz. pose proof (vals_same_length _ _ _ _ (sh_vals _ _ _ (ql_shape _ _ _ HQ))) as Hll.
  pose proof (sh_chain _ _ _ (ql_shape _ _ _ HQ)) as Hch. unfold quicklistIndex, zindex. rewrite (ql_count _ _ _ HQ). destruct (Z.ltb_spec idx 0) as [Hneg | Hpos]; cbn [negb].
  - rewrite back_index by done. unfold int64, LLONG_MIN, LLONG_MAX in Hidx. destruct (Z.leb_spec (- idx) (zlen (concat vss))) as [Hle | Hgt]; [|by rewrite (proj2 (Z.geb_le _ _)) by lia].
    destruct (Z.geb_spec (- idx - 1) (zlen (concat vss))); [lia |].
    destruct (walk_backward q ps vss (- idx - 1) HQ ltac:(lia) (S (size (nodes q))) (length ps)) as [_ Hw]; [lia | lia | unfold after_node, flat_pos; rewrite take_ge by lia; lia |]. destruct (Hw ltac:(lia)) as (j & p & vs & k & Hwk & Hp & Hvs & Hk & Hm).
    assert (Hst : after_node (length ps) vss = 0) by (unfold after_node, flat_pos; rewrite take_ge by lia; lia). rewrite Hst in Hwk. assert (Htl : tail q = before ps (length ps)) by (rewrite (ch_tail _ _ Hch), last_lookup; by destruct ps). rewrite Htl, Hwk. cbn [mbind option_bind].
    pose proof (flat_pos_next j vs vss Hvs) as Hfn. pose proof (flat_pos_lt j (length vs - 1) vs vss Hvs ltac:(lia)) as Hfl. replace (s32 (- (- idx - 1) - 1 + after_node (S j) vss)) with (Z.of_nat k - zlen vs) by (unfold after_node, flat_pos in *; rewrite swrap_small; lia).
    destruct (use_entry q ps vss j p vs k (Z.of_nat k - zlen vs) HQ H0 Hp Hvs) as (z & g & He & Hrun).
    { unfold ZiplistProps.int32, flat_pos in *. lia. } { unfold zindex. zguard. zguard. f_equal. lia. }
    exists j, k, p, z, g, vs. split_and!; [exact Hrun | done | done | unfold flat_pos in *; lia].
  - unfold int64, LLONG_MIN, LLONG_MAX in Hidx. rewrite (uwrap_small 64) by lia. destruct (Z.ltb_spec idx (zlen (concat vss))) as [Hlt | Hge]; [|by rewrite (proj2 (Z.geb_le _ _)) by lia]. destruct (Z.geb_spec idx (zlen (concat vss))); [lia |].
    destruct (walk_forward q ps vss idx HQ ltac:(lia) (S (size (nodes q))) 0%nat) as [_ Hw]; [lia | lia | replace (flat_pos 0 0 vss) with 0%nat by done; lia |]. destruct (Hw ltac:(lia)) as (j & p & vs & k & Hwk & Hp & Hvs & Hk & Hm).
    rewrite (ch_head _ _ Hch). replace (Z.of_nat (flat_pos 0 0 vss)) with 0 in Hwk by done. rewrite Hwk. cbn [mbind option_bind]. pose proof (flat_pos_lt j k vs vss Hvs Hk) as Hfl.
    replace (s32 (idx - Z.of_nat (flat_pos j 0 vss))) with (Z.of_nat k) by (unfold flat_pos in *; rewrite swrap_small; lia).
    destruct (use_entry q ps vss j p vs k (Z.of_nat k) HQ H0 Hp Hvs) as (z & g & He & Hrun).
    { unfold ZiplistProps.int32, flat_pos in *. lia. } { unfold zindex. zguard. zguard. f_equal. lia. }
    exists j, k, p, z, g, vs. split_and!; [exact Hrun | done | done | lia].
Qed.

(** ** Replacing *)

Lemma concat_insert_at i k vs vss v : vss !! i = Some vs -> (k < length vs)%nat -> concat (<[i := <[k := v]> vs]> vss) = <[flat_pos i k vss := v]> (concat vss).
Proof using.
  intros Hi Hk. pose proof (lookup_lt_Some _ _ _ Hi) as Hlt. assert (Hc : concat vss = concat (take i vss) ++ vs ++ concat (drop (S i) vss)) by (rewrite <- (take_drop_middle _ _ _ Hi) at 1; by rewrite concat_app).
  unfold flat_pos. rewrite Hc, insert_app_r, insert_app_l by done. rewrite insert_take_drop by done. by rewrite concat_app.
Qed.

Lemma replace_at_ok q l idx data : holds q l -> compress q = 0 -> int64 idx -> bytes_ok data -> (forall m, zindex l idx = Some m -> 11 + vsum (<[m := data]> l) < 2 ^ 31) ->
  match zindex l idx with
  | None => quicklistReplaceAtIndex junk hjunk q idx data = Some (q, false)
  | Some m => exists q', quicklistReplaceAtIndex junk hjunk q idx data = Some (q', true) /\ holds q' (<[m := data]> l) /\ fill q' = fill q /\ compress q' = 0
  end.
Proof using.
  intros (ps & vss & HQ & <-) H0 Hidx Hdata Hsz. pose proof (index_ok q ps vss idx HQ H0 Hidx) as Hix. unfold quicklistReplaceAtIndex. destruct (zindex (concat vss) idx) as [m|] eqn:Hz; [|by rewrite Hix].
  destruct Hix as (i & k & p & z & g & vs & -> & He & Hvs & ->). cbn [mbind option_bind enode ezi]. specialize (Hsz _ eq_refl). destruct He as (n & vs' & Hp & Hn & Hvs' & Hk & _ & Hzi & _). assert (vs' = vs) as -> by congruence.
  destruct (ql_node q ps vss i p HQ Hp) as (n' & vs' & Hn' & Hvs2 & Hok & _ & _ & Hcn). assert (n' = n) as -> by congruence. assert (vs' = vs) as -> by congruence. pose proof (lookup_lt_Some _ _ _ Hk) as Hkl.
  pose proof (concat_insert_at i k vs vss data Hvs Hkl) as Hcat. pose proof (vsum_concat i _ _ (list_lookup_insert_eq vss i (<[k := data]> vs) (lookup_lt_Some _ _ _ Hvs))) as Hvn. rewrite Hcat in Hvn. pose proof (nd_vsum _ _ _ Hok).
  destruct (ZiplistProps.replace_rep junk (zl n) vs k _ data (raw_ziplist _ _ _ Hok (nd_raw _ _ _ Hok H0)) Hk Hdata ltac:(lia) ltac:(lia)) as (z' & Hz' & zl1 & zl2 & Hdel & Hins & Hden). assert (z' = z) as -> by congruence.
  unfold upd. rewrite Hn. cbn [mbind option_bind]. rewrite Hdel. cbn [mbind option_bind]. rewrite Hins. cbn [mbind option_bind]. set (q1 := set_nodes _ q).
  rewrite (compress_noop q1 p (set_zl zl2 n)); [|apply lookup_insert_eq | apply Hok | done]. cbn [mbind option_bind]. exists q1. split; [done |]. split; [|done]. exists ps, (<[i := <[k := data]> vs]> vss). split; [|done].
  assert (Hlen : length (<[k := data]> vs) = length vs) by apply length_insert. assert (Hok' : node_ok (compress q) (set_zl zl2 n) (<[k := data]> vs)).
  { destruct Hok as [_ H2 H3 H4 H5 H6 H7 H8]. split; cbn [sz set_zl encoding recompress]; rewrite ?Hlen; try done; [|intros Hnil; apply (f_equal length) in Hnil; rewrite Hlen in Hnil; cbn in Hnil; lia | by apply Forall_insert | lia].
    exists zl2. split_and!; [left; split; [by apply H2 | done] | done | by left]. }
  eapply (ql_replace q); try done; [by apply Hok' | cbn [ncount set_zl]; by rewrite Hlen | cbn [q1 count set_nodes] | by rewrite Hcat]. rewrite Hcat, length_insert. apply HQ.
Qed.

(** ** Iteration *)

(** The iterator stands in a node before its element [k]: forward, [k] comes
    next; backward, [k - 1]. *)
Definition stands (d : bool) (n : quicklistNode) vs (it : quicklistIter) (k : nat) : Prop :=
  (k <= length vs)%nat /\
  match zi it with
  | None => ioffset it = if d then Z.of_nat k else Z.of_nat k - 1 - zlen vs
  | Some z => exists j, (j < length vs)%nat /\ k = (if d then S j else j) /\ ioffset it = (if d then Z.of_nat j else Z.of_nat j - zlen vs) /\ ziplistIndex (zl n) (Z.of_nat j) = Some (Some z)
  end.

Definition upcoming (d : bool) vs (k : nat) : option nat := if d then if decide (k < length vs)%nat then Some k else None else match k with O => None | S j => Some j end.

Definition offset_of (d : bool) vs (j : nat) : Z := if d then Z.of_nat j else Z.of_nat j - zlen vs.

(** The first part of [quicklistNext]. *)
Definition seek q (it : quicklistIter) (p : Z) : option (quicklist * option Z * Z) :=
  match zi it with
  | None => q ← quicklistDecompressNodeForUse junk q p; n ← nodes q !! p; z ← ziplistIndex (zl n) (s32 (ioffset it)); Some (q, z, ioffset it)
  | Some z => n ← nodes q !! p; z ← (if from_head it then ziplistNext (zl n) z else ziplistPrev (zl n) z); Some (q, z, s64 (ioffset it + (if from_head it then 1 else -1)))
  end.

Lemma seek_ok q p n vs it k : nodes q !! p = Some n -> node_ok 0 n vs -> stands (from_head it) n vs it k ->
  exists z o, seek q it p = Some (q, z, o) /\
    match upcoming (from_head it) vs k with Some j => o = offset_of (from_head it) vs j /\ ziplistIndex (zl n) (Z.of_nat j) = Some z | None => z = None end.
Proof using.
  intros Hn Hok [Hk Hst]. pose proof (nd_vsum _ _ _ Hok). pose proof (nd_small _ _ _ Hok) as Hsm. pose proof (nd_raw _ _ _ Hok eq_refl) as Hraw. pose proof (raw_ziplist _ _ _ Hok Hraw) as Hden. unfold seek, offset_of, upcoming. destruct (zi it) as [z|].
  - destruct Hst as (j & Hj & -> & Ho & Hz). rewrite Hn, Ho. cbn [mbind option_bind]. destruct (from_head it).
    + destruct (lookup_lt_is_Some_2 vs j Hj) as [v Hv]. destruct (zip_entry (zl n) vs Hden ltac:(lia) j v Hv) as (z' & _ & Hz' & _ & _ & _ & Hnx); [eapply Forall_lookup_1; [apply Hok | done] |]. assert (z' = z) as -> by congruence.
      destruct (decide (S j < length vs)%nat) as [Hlt | Hge].
      * rewrite (proj2 (Nat.ltb_lt _ _) Hlt) in Hnx. destruct (lookup_lt_is_Some_2 vs (S j) Hlt) as [v' Hv']. destruct (zip_entry (zl n) vs Hden ltac:(lia) (S j) v' Hv') as (z' & _ & Hz2 & _); [eapply Forall_lookup_1; [apply Hok | done] |].
        rewrite Hnx, Hz2. cbn [mbind option_bind]. eexists _, _. split; [done |]. rewrite swrap_small by lia. split; [lia | done].
      * rewrite (proj2 (Nat.ltb_ge _ _)) in Hnx by lia. rewrite Hnx. cbn. eauto.
    + destruct (zip_prev (zl n) vs Hden ltac:(lia) j Hj) as (z' & Hz' & Hpv). assert (z' = z) as -> by congruence. destruct j as [|j].
      * rewrite Hpv. cbn. eauto.
      * rewrite decide_False in Hpv by lia. replace (S j - 1)%nat with j in Hpv by lia. destruct (zip_prev (zl n) vs Hden ltac:(lia) j ltac:(lia)) as (z2 & Hz2 & _). rewrite Hpv, Hz2. cbn [mbind option_bind]. eexists _, _. split; [done |]. rewrite swrap_small by lia. split; [lia | done].
  - rewrite (use_raw q p n Hn Hraw). cbn [mbind option_bind]. rewrite Hn. cbn [mbind option_bind]. rewrite Hst. rewrite (zip_index (zl n) vs Hden) by (rewrite ?swrap_small; unfold ZiplistProps.int32; destruct (from_head it); lia).
    rewrite swrap_small by (destruct (from_head it); lia). unfold zindex. destruct (from_head it).
    + rewrite (proj2 (Z.ltb_ge _ _)) by lia. destruct (decide (k < length vs)%nat) as [Hlt | Hge].
      * rewrite (proj2 (Z.ltb_lt _ _)) by lia. rewrite Nat2Z.id. destruct (zip_prev (zl n) vs Hden ltac:(lia) k Hlt) as (z2 & Hz2 & _). rewrite Hz2. cbn. eauto.
      * rewrite (proj2 (Z.ltb_ge _ _)) by lia. cbn. eauto.
    + rewrite (proj2 (Z.ltb_lt _ _)) by lia. destruct k as [|j].
      * rewrite (proj2 (Z.leb_gt _ _)) by lia. cbn. eauto.
      * rewrite (proj2 (Z.leb_le _ _)) by lia. replace (Z.to_nat (zlen vs + (Z.of_nat (S j) - 1 - zlen vs))) with j by lia. destruct (zip_prev (zl n) vs Hden ltac:(lia) j ltac:(lia)) as (z2 & Hz2 & _). rewrite Hz2. cbn [mbind option_bind]. eexists _, _. split; [done |]. split; [lia | done].
Qed.

(** The iterator stands at the position [m] of the list: forward, the element
    [m] comes next; backward, the element [m - 1]. *)
Definition iter_at q ps vss (it : quicklistIter) (m : nat) : Prop :=
  (current it = None /\ m = (if from_head it then length (concat vss) else 0%nat)) \/
  exists i k p n vs, current it = Some p /\ ps !! i = Some p /\ nodes q !! p = Some n /\ vss !! i = Some vs /\ stands (from_head it) n vs it k /\ m = flat_pos i k vss.

Definition pending (d : bool) (m : nat) (l : list bytes) : option nat := if d then if decide (m < length l)%nat then Some m else None else match m with O => None | S j => Some j end.

(** The iterator after it delivered an element. *)
Definition iter_on (d : bool) (p z : Z) vs (j : nat) : quicklistIter := mk_iter (Some p) (Some z) (offset_of d vs j) d.

Lemma iter_on_at q ps vss d i j p z g vs : entry_at q ps vss i j p z g -> vss !! i = Some vs -> iter_at q ps vss (iter_on d p z vs j) (if d then S (flat_pos i j vss) else flat_pos i j vss).
Proof using.
  intros (n & vs' & Hp & Hn & Hvs' & Hk & _ & Hz & _) Hvs. assert (vs' = vs) as -> by congruence. pose proof (lookup_lt_Some _ _ _ Hk). right. exists i, (if d then S j else j), p, n, vs. split_and!; try done.
  - split; [destruct d; lia |]. cbn. exists j. by destruct d.
  - unfold flat_pos. destruct d; lia.
Qed.

(** One step within a node. *)
Lemma next_here q ps vss it fuel i k p n vs : QL q ps vss -> compress q = 0 -> current it = Some p -> ps !! i = Some p -> nodes q !! p = Some n -> vss !! i = Some vs -> stands (from_head it) n vs it k ->
  match upcoming (from_head it) vs k with
  | Some j => exists z g, entry_at q ps vss i j p z g /\
      quicklistNext junk hjunk (S fuel) q (Some it) = Some (q, Some (iter_on (from_head it) p z vs j), Some (mk_entry (Some p) (Some z) (Some g) (offset_of (from_head it) vs j)))
  | None => quicklistNext junk hjunk (S fuel) q (Some it) =
      quicklistNext junk hjunk fuel q (Some (if from_head it then mk_iter (ps !! S i) None 0 true else mk_iter (before ps i) None (-1) false))
  end.
Proof using.
  intros HQ H0 Hcur Hp Hn Hvs Hst. destruct (ql_node q ps vss i p HQ Hp) as (n' & vs' & Hn' & Hvs' & Hok & Hpr & Hnx & _). assert (n' = n) as -> by congruence. assert (vs' = vs) as -> by congruence. rewrite H0 in Hok.
  destruct (seek_ok q p n vs it k Hn Hok Hst) as (z & o & Hseek & Hz). cbn [quicklistNext]. rewrite Hcur. fold (seek q it p). rewrite Hseek. cbn [mbind option_bind]. destruct (upcoming (from_head it) vs k) as [j|] eqn:Hu.
  - destruct Hz as [-> Hz]. assert (Hj : (j < length vs)%nat) by (destruct Hst as [Hk _]; unfold upcoming in Hu; destruct (from_head it); [destruct (decide _); congruence | destruct k; [done |]; injection Hu as <-; lia]).
    destruct (entry_exists q ps vss i p vs j HQ H0 Hp Hvs Hj) as (z' & g & He). pose proof He as (n' & vs' & _ & Hn2 & Hvs2 & Hkv & _ & Hz' & Hg). assert (n' = n) as -> by congruence. rewrite Hz in Hz'. injection Hz' as ->.
    exists z', g. split; [done |]. rewrite Hn. cbn [mbind option_bind]. rewrite Hg. cbn [mbind option_bind]. pose proof (nd_small _ _ _ Hok). rewrite swrap_small by (unfold offset_of; destruct (from_head it); lia). done.
  - subst z. rewrite (compress_noop q p n Hn (nd_rec _ _ _ Hok) H0). cbn [mbind option_bind]. rewrite Hn. cbn [mbind option_bind]. by rewrite Hpr, Hnx.
Qed.

Lemma next_ok q ps vss it m fuel : QL q ps vss -> compress q = 0 -> iter_at q ps vss it m ->
  match pending (from_head it) m (concat vss) with
  | None => exists it', quicklistNext junk hjunk (S (S fuel)) q (Some it) = Some (q, Some it', None)
  | Some m' => exists i j p z g vs, quicklistNext junk hjunk (S (S fuel)) q (Some it) = Some (q, Some (iter_on (from_head it) p z vs j), Some (mk_entry (Some p) (Some z) (Some g) (offset_of (from_head it) vs j))) /\
      entry_at q ps vss i j p z g /\ vss !! i = Some vs /\ m' = flat_pos i j vss
  end.
Proof using.
  intros HQ H0 Hit. pose proof (vals_same_length _ _ _ _ (sh_vals _ _ _ (ql_shape _ _ _ HQ))) as Hll. destruct Hit as [[Hcur ->] | (i & k & p & n & vs & Hcur & Hp & Hn & Hvs & Hst & ->)].
  - replace (pending _ _ _) with (@None nat) by (unfold pending; destruct (from_head it); [by rewrite decide_False by lia | done]). exists it. cbn [quicklistNext]. by rewrite Hcur.
  - pose proof (next_here q ps vss it (S fuel) i k p n vs HQ H0 Hcur Hp Hn Hvs Hst) as Hstep. destruct (upcoming (from_head it) vs k) as [j|] eqn:Hu.
    + destruct Hstep as (z & g & He & Hrun). replace (pending _ _ _) with (Some (flat_pos i j vss)); [by exists i, j, p, z, g, vs |].
      unfold upcoming, pending in *. destruct (from_head it).
      * destruct (decide (k < length vs)%nat) as [Hlt |]; [|done]. injection Hu as <-. by rewrite decide_True by (by eapply flat_pos_lt).
      * destruct k; [done |]. injection Hu as <-. unfold flat_pos. by rewrite Nat.add_succ_r.
    + rewrite Hstep. clear Hstep. destruct (from_head it) eqn:Hd; unfold upcoming in Hu; unfold pending.
      * destruct (decide (k < length vs)%nat) as [|Hge]; [done |]. assert (k = length vs) as -> by (destruct Hst; lia). rewrite (flat_pos_next i vs vss Hvs). destruct (ps !! S i) as [p2|] eqn:Hp2.
        -- destruct (ql_node q ps vss (S i) p2 HQ Hp2) as (n2 & vs2 & Hn2 & Hvs2 & Hok2 & _). pose proof (nd_some _ _ _ Hok2) as Hne. assert (Hl2 : (0 < length vs2)%nat) by (destruct vs2; [done | cbn; lia]).
           pose proof (next_here q ps vss (mk_iter (Some p2) None 0 true) fuel (S i) 0 p2 n2 vs2 HQ H0 eq_refl Hp2 Hn2 Hvs2) as Hstep. cbn [from_head upcoming] in Hstep. rewrite decide_True in Hstep by done. destruct Hstep as (z & g & He & Hrun); [split; [lia | done] |].
           rewrite decide_True by (by eapply flat_pos_lt). by exists (S i), 0%nat, p2, z, g, vs2.
        -- apply lookup_ge_None in Hp2. rewrite decide_False by (unfold flat_pos; rewrite take_ge by lia; lia). by eexists.
      * destruct k; [|done]. destruct i as [|i]; cbn [before]; [by eexists |]. destruct (lookup_lt_is_Some_2 ps i) as [p2 Hp2]; [apply lookup_lt_Some in Hp; lia |]. rewrite Hp2.
        destruct (ql_node q ps vss i p2 HQ Hp2) as (n2 & vs2 & Hn2 & Hvs2 & Hok2 & _). pose proof (nd_some _ _ _ Hok2) as Hne. rewrite <- (flat_pos_next i vs2 vss Hvs2). destruct (length vs2) as [|j] eqn:Hl2; [by destruct vs2 |].
        pose proof (next_here q ps vss (mk_iter (Some p2) None (-1) false) fuel i (S j) p2 n2 vs2 HQ H0 eq_refl Hp2 Hn2 Hvs2) as Hstep. cbn [from_head upcoming] in Hstep. destruct Hstep as (z & g & He & Hrun); [split; cbn [zi ioffset]; lia |].
        unfold flat_pos. rewrite Nat.add_succ_r. by exists i, j, p2, z, g, vs2.
Qed.

Lemma iterator_ok q ps vss idx : QL q ps vss -> compress q = 0 -> int64 idx -> let d := negb (idx <? 0) in
  match zindex (concat vss) idx with
  | None => quicklistGetIteratorAtIdx junk q d idx = Some (q, None)
  | Some m => exists it, quicklistGetIteratorAtIdx junk q d idx = Some (q, Some it) /\ from_head it = d /\ iter_at q ps vss it (if d then m else S m)
  end.
Proof using.
  intros HQ H0 Hidx d. pose proof (index_ok q ps vss idx HQ H0 Hidx) as Hix. unfold quicklistGetIteratorAtIdx. destruct (zindex (concat vss) idx) as [m|]; [|by rewrite Hix].
  destruct Hix as (i & k & p & z & g & vs & -> & (n & vs' & Hp & Hn & Hvs' & Hk & _ & Hz & _) & Hvs & ->). assert (vs' = vs) as -> by congruence. pose proof (lookup_lt_Some _ _ _ Hk). cbn [mbind option_bind enode eoffset]. eexists. split; [done |]. split; [done |].
  right. exists i, (if d then k else S k), p, n, vs. split_and!; try done; unfold d; destruct (idx <? 0); cbn [negb]; try done.
  - split; cbn [zi ioffset from_head]; lia.
  - split; cbn [zi ioffset from_head]; lia.
  - unfold flat_pos. lia.
Qed.

(** An element just delivered is deleted. *)
Lemma del_entry_ok q ps vss d i j p z g vs off : QL q ps vss -> compress q = 0 -> entry_at q ps vss i j p z g -> vss !! i = Some vs ->
  exists q' it' ps' vss', quicklistDelEntry junk hjunk q (iter_on d p z vs j) (mk_entry (Some p) (Some z) (Some g) off) = Some (q', it') /\ from_head it' = d /\
    QL q' ps' vss' /\ concat vss' = del_at (flat_pos i j vss) (concat vss) /\ iter_at q' ps' vss' it' (flat_pos i j vss) /\ fill q' = fill q /\ compress q' = 0.
Proof using.
  intros HQ H0 (n & vs' & Hp & Hn & Hvs' & Hk & _ & Hz & _) Hvs. assert (vs' = vs) as -> by congruence. pose proof (lookup_lt_Some _ _ _ Hk) as Hkl. destruct (ql_node q ps vss i p HQ Hp) as (n' & vs' & Hn' & Hvs2 & Hok & Hpr & Hnx & _). assert (n' = n) as -> by congruence.
  pose proof (vals_same_length _ _ _ _ (sh_vals _ _ _ (ql_shape _ _ _ HQ))) as Hll. pose proof (lookup_lt_Some _ _ _ Hp) as Hil.
  destruct (delindex_ok junk hjunk q ps vss i p n vs j z HQ Hp Hn Hvs (nd_raw _ _ _ Hok H0) Hkl Hz) as (q' & Hdel & HQ' & Hf & Hc). unfold quicklistDelEntry. cbn [enode ezi mbind option_bind]. rewrite Hn. cbn [mbind option_bind]. rewrite Hdel. cbn [mbind option_bind].
  eexists q', _, _, _. split; [done |]. split; [destruct (bool_decide (length vs = 1%nat)); destruct d; reflexivity |]. split; [exact HQ' |]. split; [by apply (concat_del_val i j vs) |]. split; [|by rewrite Hf, Hc, H0]. rewrite bool_decide_decide. unfold del_val in *. rewrite Hvs in *. destruct (decide (length vs = 1%nat)) as [H1 | H1].
  - assert (j = 0%nat) as -> by lia. cbn [from_head iter_on]. destruct d.
    + destruct (ps !! S i) as [p2|] eqn:Hp2; rewrite Hnx.
      * assert (Hp2' : del_at i ps !! i = Some p2) by (unfold del_at; rewrite lookup_app_r; rewrite length_take_le by lia; [rewrite Nat.sub_diag, lookup_drop, Nat.add_0_r; done | lia]).
        destruct (ql_node q' _ _ i p2 HQ' Hp2') as (n2 & vs2 & Hn2 & Hvs3 & _). right. exists i, 0%nat, p2, n2, vs2. split_and!; try done; [split; cbn; lia |]. unfold flat_pos, del_at. by rewrite take_app_le, take_take, Nat.min_id by (rewrite length_take; lia).
      * left. split; [done |]. apply lookup_ge_None in Hp2. cbn [from_head]. unfold flat_pos, del_at. rewrite (drop_ge vss) by lia. by rewrite app_nil_r, Nat.add_0_r.
    + rewrite Hpr. destruct i as [|i]; cbn [before]; [by left |]. destruct (lookup_lt_is_Some_2 ps i ltac:(lia)) as [p2 Hp2]. rewrite Hp2.
      assert (Hp2' : del_at (S i) ps !! i = Some p2) by (unfold del_at; rewrite lookup_app_l by (rewrite length_take; lia); by rewrite lookup_take_lt by lia).
      destruct (ql_node q' _ _ i p2 HQ' Hp2') as (n2 & vs2 & Hn2 & Hvs3 & _). right. exists i, (length vs2), p2, n2, vs2. split_and!; try done; [split; cbn; lia |].
      rewrite (flat_pos_next i vs2 _ Hvs3). unfold flat_pos, del_at. by rewrite take_app_le, take_take, Nat.min_id by (rewrite length_take; lia).
  - destruct (ql_node q' _ _ i p HQ' Hp) as (n2 & vs2 & Hn2 & Hvs3 & _). rewrite list_lookup_insert_eq in Hvs3 by (by eapply lookup_lt_Some). injection Hvs3 as <-. right. exists i, j, p, n2, (del_at j vs).
    split_and!; try done; [by rewrite list_lookup_insert_eq by (by eapply lookup_lt_Some) | |].
    + split; cbn [zi ioffset iter_on from_head]; rewrite length_del_at by done; [lia |]. unfold offset_of. destruct d; lia.
    + unfold flat_pos. by rewrite take_insert_ge by lia.
Qed.

(** ** Ranges *)

Definition cut (m e : nat) {A} (l : list A) : list A := take m l ++ drop (m + e) l.

Lemma cut_cut {A} (l : list A) m a b : (m <= length l)%nat -> cut m b (cut m a l) = cut m (a + b) l.
Proof using.
  intros Hm. unfold cut. rewrite take_app_le, drop_app_ge by (rewrite length_take; lia). rewrite take_take, Nat.min_id, length_take, drop_drop. do 2 f_equal. lia.
Qed.

Lemma cut_0 {A} (l : list A) m : cut m 0 l = l.
Proof using. unfold cut. by rewrite Nat.add_0_r, take_drop. Qed.

Lemma length_cut {A} (l : list A) m e : (m + e <= length l)%nat -> length (cut m e l) = (length l - e)%nat.
Proof using. intros. unfold cut. rewrite length_app, length_take, length_drop. lia. Qed.

Lemma vsum_range m e vs : vsum (cut m e vs) <= vsum vs.
Proof using. apply ZiplistProps.vsum_cut. lia. Qed.

(** Values [k] to [k + del] of the node at [i] gone. *)
Lemma concat_cut_at i k del vs vss : vss !! i = Some vs -> (k + del <= length vs)%nat -> concat (<[i := cut k del vs]> vss) = cut (flat_pos i k vss) del (concat vss).
Proof using.
  intros Hi Hk. pose proof (lookup_lt_Some _ _ _ Hi) as Hlt. assert (Hc : concat vss = concat (take i vss) ++ vs ++ concat (drop (S i) vss)) by (rewrite <- (take_drop_middle _ _ _ Hi) at 1; by rewrite concat_app).
  unfold flat_pos, cut. rewrite Hc. rewrite take_app_ge, (drop_app_ge (concat _)) by lia. replace (_ + k - _)%nat with k by lia. replace (_ + k + del - _)%nat with (k + del)%nat by lia. rewrite take_app_le, drop_app_le by lia.
  rewrite insert_take_drop by done. rewrite concat_app. cbn [concat]. by rewrite <- !app_assoc.
Qed.

Lemma concat_del_node i vs vss : vss !! i = Some vs -> concat (del_at i vss) = cut (flat_pos i 0 vss) (length vs) (concat vss).
Proof using.
  intros Hi. assert (Hc : concat vss = concat (take i vss) ++ vs ++ concat (drop (S i) vss)) by (rewrite <- (take_drop_middle _ _ _ Hi) at 1; by rewrite concat_app).
  unfold flat_pos, cut, del_at. rewrite Hc, Nat.add_0_r, take_app_length, drop_app_add, drop_app_length, concat_app. done.
Qed.

Lemma flat_pos_cut i k del vs vss : vss !! i = Some vs -> flat_pos (S i) 0 (<[i := cut k del vs]> vss) = (flat_pos i 0 vss + length (cut k del vs))%nat.
Proof using.
  intros Hi. pose proof (lookup_lt_Some _ _ _ Hi). rewrite <- (flat_pos_next i (cut k del vs)) by (by apply list_lookup_insert_eq). unfold flat_pos. rewrite take_insert_ge by lia. lia.
Qed.

Lemma flat_pos_del i vss : (i < length vss)%nat -> flat_pos i 0 (del_at i vss) = flat_pos i 0 vss.
Proof using. intros. unfold flat_pos, del_at. by rewrite take_app_le, take_take, Nat.min_id by (rewrite length_take; lia). Qed.

Lemma lookup_del_at {A} (l : list A) i : (i < length l)%nat -> del_at i l !! i = l !! S i.
Proof using. intros. unfold del_at. rewrite lookup_app_r; rewrite length_take_le by lia; [|lia]. by rewrite Nat.sub_diag, lookup_drop, Nat.add_0_r. Qed.

(** A part of a node deleted. *)
Lemma del_part q ps vss i p n vs k del off : QL q ps vss -> compress q = 0 -> ps !! i = Some p -> nodes q !! p = Some n -> vss !! i = Some vs -> ZiplistProps.int32 off -> zindex vs off = Some k -> (0 < del)%nat -> (k + del <= length vs)%nat ->
  exists q', (q ← quicklistDecompressNodeForUse junk q p;
     q ← upd q p (fun n => z ← ziplistDeleteRange junk (zl n) off (u32 (Z.of_nat del)); n ← update_sz (set_zl z n); Some (set_ncount (ncount n - Z.of_nat del) n));
     let q := set_count (count q - Z.of_nat del) q in
     n ← nodes q !! p;
     if ncount n =? 0 then __quicklistDelNode junk hjunk q p else quicklistRecompressOnly junk hjunk q p) = Some q' /\
    fill q' = fill q /\ compress q' = 0 /\
    if decide (del = length vs) then QL q' (del_at i ps) (del_at i vss) else QL q' ps (<[i := cut k del vs]> vss).
Proof using.
  intros HQ H0 Hp Hn Hvs Hoff Hzi Hdel Hle. destruct (ql_node q ps vss i p HQ Hp) as (n' & vs' & Hn' & Hvs2 & Hok & _ & _ & Hcn). assert (n' = n) as -> by congruence. assert (vs' = vs) as -> by congruence.
  pose proof (nd_raw _ _ _ Hok H0) as Hraw. pose proof (raw_ziplist _ _ _ Hok Hraw) as Hden. pose proof (nd_vsum _ _ _ Hok) as Hvn. pose proof (nd_small _ _ _ Hok) as Hsm. pose proof (vsum_range k del vs) as Hvr. pose proof (flat_pos_lt i (length vs - 1) vs vss Hvs ltac:(lia)) as Hfl.
  destruct (zrun_spec junk (ZDeleteRange off (Z.of_nat del)) (zl n) vs Hden) as (z & Hz & Hdz); [split; [done | lia] | lia | cbn [zspec]; rewrite Hzi, Nat2Z.id; fold (cut k del vs); lia |].
  cbn [zrun zspec] in Hz, Hdz. rewrite Hzi, Nat2Z.id in Hdz. fold (cut k del vs) in Hdz. rewrite (use_raw q p n Hn Hraw). cbn [mbind option_bind]. unfold upd. rewrite Hn. cbn [mbind option_bind]. rewrite uwrap_small by lia. rewrite Hz. cbn [mbind option_bind].
  unfold update_sz. cbn [zl set_zl]. destruct (denotes_block _ _ Hdz ltac:(lia)) as (-> & Hzl & _). cbn [mbind option_bind]. set (n1 := set_ncount _ _). cbn [nodes set_count set_nodes]. rewrite lookup_insert_eq. cbn [mbind option_bind].
  assert (Hn1 : ncount n1 = zlen vs - Z.of_nat del) by (cbn [n1 ncount set_ncount set_sz set_zl]; rewrite Hcn, uwrap_small; lia). pose proof (ql_count _ _ _ HQ) as Hct. pose proof (ql_size _ _ _ HQ) as Hsz. pose proof (vsum_length (concat vss)) as Hvl.
  pose proof (length_cut vs k del Hle) as Hlc. destruct (decide (del = length vs)) as [Hall | Hsome].
  - replace (ncount n1 =? 0) with true by (symmetry; apply Z.eqb_eq; lia). set (q0 := set_count _ _). destruct (drop_node_ok junk hjunk q ps vss i p n n1 q0) as (q1 & -> & Hs1 & Hcs & Hc1 & Hf1 & Hd1 & Hdm); try done.
    exists q1. split_and!; [done | done | congruence |]. assert (k = 0%nat) as -> by lia. pose proof (concat_del_node i vs vss Hvs) as Hcat. pose proof (vsum_range (flat_pos i 0 vss) (length vs) (concat vss)) as Hvr2. split; try done; [|rewrite Hcat; lia].
    rewrite Hc1, Hcat, length_cut by (unfold flat_pos in *; lia). cbn [q0 count set_count set_nodes]. unfold flat_pos in Hfl. rewrite Hn1. replace (u64 (count q - Z.of_nat del)) with (count q - Z.of_nat del) by (rewrite uwrap_small; lia). rewrite uwrap_small; lia.
  - replace (ncount n1 =? 0) with false by (symmetry; apply Z.eqb_neq; lia). unfold quicklistRecompressOnly. cbn [nodes set_count set_nodes]. rewrite lookup_insert_eq. cbn [mbind option_bind]. change (recompress n1) with (recompress n). rewrite (nd_rec _ _ _ Hok).
    eexists. split; [done |]. split; [done |]. split; [done |]. pose proof (concat_cut_at i k del vs vss Hvs Hle) as Hcat. pose proof (vsum_range (flat_pos i k vss) del (concat vss)) as Hvr2.
    assert (Hok1 : node_ok (compress q) n1 (cut k del vs)).
    { apply raw_node_ok; try done; [apply Hok | intros Hnil; apply (f_equal length) in Hnil; rewrite Hlc in Hnil; cbn in Hnil; lia | lia | | lia]. apply Forall_app. split; [apply Forall_take, Hok | apply Forall_drop, Hok]. }
    eapply (ql_replace q); try done; [lia | | rewrite Hcat; lia]. cbn [count set_count set_nodes]. unfold flat_pos in *. rewrite Hcat, length_cut by lia. rewrite uwrap_small; lia.
Qed.

(** A whole node deleted. *)
Lemma del_whole q ps vss i p vs : QL q ps vss -> ps !! i = Some p -> vss !! i = Some vs -> exists q', __quicklistDelNode junk hjunk q p = Some q' /\ fill q' = fill q /\ compress q' = compress q /\ QL q' (del_at i ps) (del_at i vss).
Proof using.
  intros HQ Hp Hvs. destruct (ql_node q ps vss i p HQ Hp) as (n & vs' & Hn & Hvs2 & Hok & _ & _ & Hcn). assert (vs' = vs) as -> by congruence. assert (Hq : q = set_nodes (<[p := n]> (nodes q)) q) by (rewrite insert_id by done; by destruct q).
  assert (HM : nodes q = <[p := n]> (nodes q)) by (by rewrite insert_id). destruct (drop_node_ok junk hjunk q ps vss i p n n q) as (q1 & -> & Hs1 & Hcs & Hc1 & Hf1 & Hd1 & Hdm); try done. exists q1. split_and!; try done.
  pose proof (concat_del_node i vs vss Hvs) as Hcat. pose proof (vsum_range (flat_pos i 0 vss) (length vs) (concat vss)). pose proof (ql_size _ _ _ HQ). pose proof (vsum_length (concat vss)). pose proof (nd_some _ _ _ Hok). assert (0 < length vs)%nat by (destruct vs; [done | cbn; lia]).
  pose proof (flat_pos_lt i (length vs - 1) vs vss Hvs ltac:(lia)) as Hfl. split; try done; [|rewrite Hcat; lia]. rewrite Hc1, Hcat, Hcn, (ql_count _ _ _ HQ). unfold flat_pos in *. rewrite length_cut, uwrap_small by lia. lia.
Qed.

(** Where a deletion starts in a node: at its first value, or counted from its end. *)
Definition starts vs (k : nat) (off : Z) : Prop := (k < length vs)%nat /\ ((k = 0%nat /\ off = 0) \/ off = Z.of_nat k - zlen vs).

Lemma starts_zindex vs k off : starts vs k off -> zindex vs off = Some k.
Proof using.
  intros [Hk [[-> ->] | ->]]; unfold zindex.
  - change (0 <? 0) with false. cbn iota. zguard. done.
  - zguard. zguard. f_equal. lia.
Qed.

Lemma starts_here q ps vss i e : QL q ps vss -> e <> 0%nat -> (flat_pos i 0 vss + e <= length (concat vss))%nat -> exists vs, vss !! i = Some vs /\ starts vs 0 0.
Proof using.
  intros HQ He Hle. destruct (vss !! i) as [vs|] eqn:Hvs; [|apply lookup_ge_None in Hvs; unfold flat_pos in Hle; rewrite take_ge in Hle by lia; lia].
  destruct (ql_lookup q ps vss i vs HQ Hvs) as [p Hp]. destruct (ql_node q ps vss i p HQ Hp) as (n & ws & _ & Hws & Hok & _). assert (ws = vs) as -> by congruence. pose proof (nd_some _ _ _ Hok). exists vs. split; [done |]. split; [destruct vs; [done | cbn; lia] | by left].
Qed.

(** The list after [del] values from [k] on of the node at [i] are deleted, and
    the position [i1] of the node after it. *)
Definition trimmed q ps vss i k vs del q1 : Prop := exists ps1 vss1 i1, QL q1 ps1 vss1 /\ compress q1 = 0 /\ fill q1 = fill q /\ ps1 !! i1 = ps !! S i /\ (length ps1 - i1 < length ps - i)%nat /\
  concat vss1 = cut (flat_pos i k vss) del (concat vss) /\ ((k + del = length vs)%nat -> flat_pos i1 0 vss1 = flat_pos i k vss).

Lemma trimmed_gone q ps vss i vs q1 : QL q ps vss -> vss !! i = Some vs -> QL q1 (del_at i ps) (del_at i vss) -> compress q1 = 0 -> fill q1 = fill q -> trimmed q ps vss i 0 vs (length vs) q1.
Proof using.
  intros HQ Hvs HQ1 Hc Hf. pose proof (vals_same_length _ _ _ _ (sh_vals _ _ _ (ql_shape _ _ _ HQ))) as Hll. pose proof (lookup_lt_Some _ _ _ Hvs). exists (del_at i ps), (del_at i vss), i. rewrite lookup_del_at, length_del_at, (concat_del_node i vs) by (done || lia). split_and!; try done; [lia |].
  intros _. apply flat_pos_del. lia.
Qed.

Lemma trimmed_part q ps vss i k vs del q1 : QL q ps vss -> vss !! i = Some vs -> (k + del <= length vs)%nat -> QL q1 ps (<[i := cut k del vs]> vss) -> compress q1 = 0 -> fill q1 = fill q -> trimmed q ps vss i k vs del q1.
Proof using.
  intros HQ Hvs Hle HQ1 Hc Hf. pose proof (vals_same_length _ _ _ _ (sh_vals _ _ _ (ql_shape _ _ _ HQ))) as Hll. pose proof (lookup_lt_Some _ _ _ Hvs). exists ps, (<[i := cut k del vs]> vss), (S i). rewrite (concat_cut_at i k del vs) by done. split_and!; try done; [lia |].
  intros Hend. rewrite (flat_pos_cut i k del vs vss Hvs), length_cut by done. unfold flat_pos. lia.
Qed.

Lemma delrange_loop_ok : forall fuel q ps vss i k off e, QL q ps vss -> compress q = 0 -> (length ps - i < fuel)%nat -> (e <> 0%nat -> (flat_pos i k vss + e <= length (concat vss))%nat /\ exists vs, vss !! i = Some vs /\ starts vs k off) ->
  exists q', delrange_loop junk hjunk fuel q (ps !! i) off (Z.of_nat e) = Some q' /\ holds q' (cut (flat_pos i k vss) e (concat vss)) /\ fill q' = fill q /\ compress q' = 0.
Proof using.
  induction fuel as [|fuel IH]; intros q ps vss i k off e HQ H0 Hfuel Hpos; [lia |]. cbn [delrange_loop]. destruct (decide (e = 0%nat)) as [-> | He].
  { rewrite (proj2 (Z.eqb_eq _ _)) by done. exists q. rewrite cut_0. split_and!; try done. by exists ps, vss. }
  rewrite (proj2 (Z.eqb_neq _ _)) by lia. destruct (Hpos He) as (Hle & vs & Hvs & Hst). destruct (ql_lookup q ps vss i vs HQ Hvs) as [p Hp]. rewrite Hp. cbn [mbind option_bind].
  destruct (ql_node q ps vss i p HQ Hp) as (n & vs' & Hn & Hvs2 & Hok & _ & Hnx & Hcn). assert (vs' = vs) as -> by congruence. rewrite Hn. cbn [mbind option_bind]. rewrite Hcn, Hnx. pose proof (lookup_lt_Some _ _ _ Hp) as Hil. pose proof (starts_zindex _ _ _ Hst) as Hzi. destruct Hst as [Hk Hoff].
  pose proof (nd_small _ _ _ Hok) as Hsm. pose proof (ql_size _ _ _ HQ). pose proof (vsum_length (concat vss)). pose proof (flat_pos_lt i (length vs - 1) vs vss Hvs ltac:(lia)) as Hfl. set (del := Nat.min e (length vs - k)).
  assert (Hnext : forall q1, trimmed q ps vss i k vs del q1 -> exists q', delrange_loop junk hjunk fuel q1 (ps !! S i) 0 (u64 (Z.of_nat e - Z.of_nat del)) = Some q' /\ holds q' (cut (flat_pos i k vss) e (concat vss)) /\ fill q' = fill q /\ compress q' = 0).
  { intros q1 (ps1 & vss1 & i1 & HQ1 & Hc1 & Hf1 & <- & Hl1 & Hcat & Hfp). replace (u64 (Z.of_nat e - Z.of_nat del)) with (Z.of_nat (e - del)) by (rewrite uwrap_small; lia). pose proof (length_cut (concat vss) (flat_pos i k vss) del ltac:(lia)) as Hlc. rewrite <- Hcat in Hlc.
    destruct (IH q1 ps1 vss1 i1 0%nat 0 (e - del)%nat HQ1 Hc1) as (q' & Hrun & Hh & Hf & Hd); [lia | |].
    - intros Hne. assert (Hfit : (flat_pos i1 0 vss1 + (e - del) <= length (concat vss1))%nat) by (rewrite Hfp by lia; lia). split; [done |]. by eapply starts_here.
    - exists q'. split_and!; [done | | congruence | done]. rewrite Hcat in Hh. destruct (decide (e - del = 0)%nat) as [Hz |].
      + rewrite Hz, cut_0 in Hh. by replace e with del by lia.
      + rewrite Hfp, cut_cut in Hh by lia. by replace e with (del + (e - del))%nat by lia. }
  destruct (decide (off = 0 /\ (length vs <= e)%nat)) as [[-> Hwhole] | Hpart].
  - assert (k = 0%nat) as -> by lia. rewrite (proj2 (Z.geb_le _ _)) by lia. cbn [Z.eqb andb]. destruct (del_whole q ps vss i p vs HQ Hp Hvs) as (q1 & -> & Hf1 & Hd1 & HQ1). cbn [mbind option_bind].
    replace (zlen vs) with (Z.of_nat del) by lia. apply Hnext. replace del with (length vs) by lia. apply trimmed_gone; try done. congruence.
  - assert (Hcase : (off =? 0) && (Z.of_nat e >=? zlen vs) = false /\ (if (off >=? 0) && (Z.of_nat e >=? zlen vs) then u64 (zlen vs - off) else if off <? 0 then if u64 (- off) >? Z.of_nat e then Z.of_nat e else u64 (- off) else Z.of_nat e) = Z.of_nat del).
    { destruct Hoff as [[-> ->] | Hoff].
      - destruct (Z.geb_spec (Z.of_nat e) (zlen vs)); [lia |]. rewrite !andb_false_r. split; [done |]. change (0 <? 0) with false. cbn iota. lia.
      - rewrite (proj2 (Z.eqb_neq _ _)) by lia. destruct (Z.geb_spec off 0); [lia |]. rewrite (proj2 (Z.ltb_lt off 0)) by lia. cbn [andb]. split; [done |]. rewrite uwrap_small by lia. destruct (Z.gtb_spec (- off) (Z.of_nat e)); lia. }
    destruct Hcase as [Hc1 Hc2]. rewrite Hc1. cbn zeta. rewrite Hc2. destruct (del_part q ps vss i p n vs k del off HQ H0 Hp Hn Hvs) as (q1 & Hrun & Hf1 & Hd1 & HQ1); [unfold ZiplistProps.int32; lia | done | lia | lia |].
    cbn zeta in Hrun. rewrite Hrun. cbn [mbind option_bind]. apply Hnext. destruct (decide (del = length vs)) as [Hdl |]; [|apply trimmed_part; (done || lia)]. assert (k = 0%nat) as -> by lia. rewrite Hdl. by apply trimmed_gone.
Qed.

(** A range from the first value on, or one that ends with the last value. *)
Lemma delrange_ok q l (m e : nat) start : holds q l -> compress q = 0 -> (m + e <= length l)%nat -> (m = 0%nat /\ start = 0) \/ ((m + e = length l)%nat /\ start = - Z.of_nat e) ->
  exists q' r, quicklistDelRange junk hjunk q start (Z.of_nat e) = Some (q', r) /\ holds q' (cut m e l) /\ fill q' = fill q /\ compress q' = 0.
Proof using.
  intros (ps & vss & HQ & <-) H0 Hle Hcase. unfold quicklistDelRange. destruct (decide (e = 0%nat)) as [-> | He]; [exists q, false; rewrite cut_0; split_and!; try done; by exists ps, vss |].
  rewrite (proj2 (Z.leb_gt _ _)) by lia. pose proof (ql_count _ _ _ HQ) as Hct. pose proof (ql_size _ _ _ HQ). pose proof (vsum_length (concat vss)). pose proof (size_nodes q ps vss HQ).
  assert (Hext : (if (start >=? 0) && (Z.of_nat e >? u64 (count q - start)) then u64 (count q - start) else if (start <? 0) && (Z.of_nat e >? u64 (- start)) then u64 (- start) else Z.of_nat e) = Z.of_nat e).
  { rewrite Hct. destruct Hcase as [[-> ->] | [_ ->]].
    - change (0 >=? 0) with true. change (0 <? 0) with false. cbn [andb]. rewrite uwrap_small by lia. destruct (Z.gtb_spec (Z.of_nat e) (zlen (concat vss) - 0)); [lia | done].
    - destruct (Z.geb_spec (- Z.of_nat e) 0); [lia |]. rewrite (proj2 (Z.ltb_lt _ _)) by lia. cbn [andb]. rewrite uwrap_small by lia. destruct (Z.gtb_spec (Z.of_nat e) (- - Z.of_nat e)); [lia | done]. }
  cbn zeta. rewrite Hext. pose proof (index_ok q ps vss start HQ H0) as Hix. assert (Hi64 : int64 start) by (unfold int64, LLONG_MIN, LLONG_MAX; lia). specialize (Hix Hi64).
  assert (Hzi : zindex (concat vss) start = Some m) by (unfold zindex; destruct Hcase as [[-> ->] | [? ->]]; [change (0 <? 0) with false; cbn iota; zguard; done | zguard; zguard; f_equal; lia]). rewrite Hzi in Hix.
  destruct Hix as (i & k & p & z & g & vs & -> & (n & vs' & Hp & Hn & Hvs' & Hkv & _) & Hvs & Hm). cbn [mbind option_bind enode eoffset]. rewrite <- Hp. pose proof (lookup_lt_Some _ _ _ Hkv) as Hk. assert (vs' = vs) as -> by congruence.
  destruct (delrange_loop_ok (S (size (nodes q))) q ps vss i k (if start <? 0 then Z.of_nat k - zlen vs else Z.of_nat k) e HQ H0) as (q' & -> & Hh & Hf & Hd); [lia | |].
  - intros _. split; [lia |]. exists vs. split; [done |]. split; [done |]. destruct Hcase as [[-> ->] | [? ->]]; [left; unfold flat_pos in Hm; cbn; lia | right; by rewrite (proj2 (Z.ltb_lt _ _)) by lia].
  - cbn [mbind option_bind]. exists q', true. rewrite <- Hm in Hh. by split_and!.
Qed.
End Code.
End QuicklistIndex.
