(* ===== verification/QuicklistLimits.v ===== *)
(** * Quicklists: where compression and ranges go wrong

    The operations no list command of the server uses - insertion in the middle,
    rotation, duplication, conversion of a ziplist - on concrete lists, and
    concrete lists on which operations of vr_quicklist.c that the server does
    not use in this way fail or lose count.  The list commands are safe from
    them: the server does not compress lists, and deletes only ranges at one
    end. *)

From stdpp Require Import gmap.
From S2P Require Import Prelude Bytes Ziplist ZiplistProps Quicklist.
Import Quicklist ZiplistProps(value_of).

Module QuicklistLimits.

Definition J : nat -> Z := fun _ => 170.
Definition H : Z -> Z := fun _ => 0.

Definition push_all (l : list (list Z)) (q : quicklist) : option quicklist := foldl (fun q v => q ← q; quicklistPush J H q v false) (Some q) l.
Definition letters : list (list Z) := (fun i => replicate 100 (97 + Z.of_nat i)) <$> seq 0 8.

(** Eight values of 100 bytes: two in a node and the inner nodes compressed, and
    four in a node without compression. *)
Definition packed : option quicklist := push_all letters (quicklistNew 2 1).
Definition plain : option quicklist := push_all letters (quicklistNew 4 0).

Definition at_index (i : Z) (q : quicklist) : option (quicklist * option (list Z)) :=
  '(q, e) ← quicklistIndex J q i; Some (q, value_of <$> (e ≫= evalue)).

Example packed_works : (q ← packed; snd <$> at_index 3 q) = Some (Some (replicate 100 100)).
Proof. by vm_compute. Qed.

(** The first bytes of all elements, read from the front. *)
Fixpoint firsts (n : nat) (q : quicklist) (it : option quicklistIter) : option (list (option Z)) :=
  match n with
  | O => Some []
  | S n => '(q, it, e) ← quicklistNext J H 20 q it; r ← firsts n q it; Some ((g ← (e : option quicklistEntry) ≫= evalue; hd_error (value_of g)) :: r)
  end.

Definition show (q : quicklist) : option (Z * list (option Z)) := l ← firsts (Z.to_nat (count q)) q (Some (quicklistGetIterator q true)); Some (count q, l).

(** Before and after the third element: the node with it is full and is split,
    the parts stay as they are or are merged with their neighbours. *)
Example insert_before_packed : (q ← packed; '(q, e) ← quicklistIndex J q 2; e ← e; q ← quicklistInsertBefore J H q e [65]; show q) =
  Some (9, Some <$> [97; 98; 65; 99; 100; 101; 102; 103; 104]).
Proof. by vm_compute. Qed.

Example insert_after_packed : (q ← packed; '(q, e) ← quicklistIndex J q 2; e ← e; q ← quicklistInsertAfter J H q e [65]; show q) =
  Some (9, Some <$> [97; 98; 99; 65; 100; 101; 102; 103; 104]).
Proof. by vm_compute. Qed.

Example rotate_packed : (q ← packed; q ← quicklistRotate J H q; show q) = Some (8, Some <$> [104; 97; 98; 99; 100; 101; 102; 103]).
Proof. by vm_compute. Qed.

Example dup_plain : (q ← plain; q ← quicklistDup J H q; show q) = Some (8, Some <$> [97; 98; 99; 100; 101; 102; 103; 104]).
Proof. by vm_compute. Qed.

Example from_ziplist : (q ← plain; h ← head q; n ← nodes q !! h; q ← quicklistCreateFromZiplist J H 2 1 (zl n); show q) = Some (4, Some <$> [97; 98; 99; 100]).
Proof. by vm_compute. Qed.

(** [quicklistReplaceAtIndex] leaves [node->sz] as it was and then compresses
    that many bytes: a longer value is cut off, and the next element cannot be
    read. *)
Example replace_keeps_size : (q ← packed; '(q, done) ← quicklistReplaceAtIndex J H q 2 (replicate 200 98); Some (done, bool_decide (at_index 3 q = None))) = Some (true, true).
Proof. by vm_compute. Qed.

(** [quicklistDup] looks at the encoding of the new node instead of that of the
    node it copies, and reads past a compressed block. *)
Example dup_compressed : (q ← packed; Some (bool_decide (quicklistDup J H q = None))) = Some true.
Proof. by vm_compute. Qed.

Fixpoint iterate (n : nat) (q : quicklist) (it : option quicklistIter) : option quicklist :=
  match n with
  | O => Some q
  | S n => '(q, it, _) ← quicklistNext J H 20 q it; iterate n q it
  end.

Definition pop (q : quicklist) : option (quicklist * option (list Z)) := '(q, g) ← quicklistPopCustom J H q true; Some (q, value_of <$> (g : option Ziplist.zget)).

(** [quicklistDecompressNode] does not clear the flag [recompress].  An element of
    the second node is read and the first node popped away; when an iteration
    leaves the node, which is the head by now, it is compressed, and the next
    pop takes its bytes for a ziplist. *)
Example flag_survives : (q ← packed; '(q, _) ← at_index 2 q; '(q, _) ← pop q; '(q, _) ← pop q; '(q, it) ← quicklistGetIteratorAtIdx J q true 0; q ← iterate 3 q it; Some (bool_decide (snd <$> pop q = Some (Some (replicate 100 99))))) = Some false.
Proof. by vm_compute. Qed.

(** [quicklistDelRange] of elements 2 to 4, in a list with nodes of four: the rest
    of the first node is counted as [extent] elements, not as the two it has,
    so one element too few is deleted and the counts of the node and the list
    are off. *)
Example range_inside : (q ← plain; '(q, _) ← quicklistDelRange J H q 2 3; h ← head q; n ← nodes q !! h; '(k, _) ← Ziplist.ziplistLen (zl n); '(_, x) ← at_index 1 q; Some (count q, ncount n, k)) = Some (5, 1, 2).
Proof. by vm_compute. Qed.

End QuicklistLimits.
