(* ===== verification/Keyspace.v ===== *)
(** * The key space (vr_db.c): databases, expiry, locks, replies

    A logical database is split into [dbinum] internal ones; CRC-16 of the key
    selects the internal database, and every access to it is made under its
    reader-writer lock.  A command is a computation in the monad [M] over the
    server state: [None] is an assertion failure, a panic, a lock taken twice or
    released when not held, or an access to a database without its lock.

    The hash tables are the finite maps they refine (see DictProps).  Key space
    notifications are off from initialisation on and no command watches keys, so
    [notifyKeyspaceEvent] and [signalModifiedKey] return at once and are left
    out.  The output is the stream of reply bytes; the clock does not move
    during a command. *)

From stdpp Require Import gmap strings.
From S2P Require Import Prelude Bytes Bits NumConv Object HashKit SetType HashType Quicklist.
Import NumConv Object HashKit.
Import SetType(setobj) HashType(hashobj) Quicklist(quicklist).

Module Keyspace.

(** ** State *)

Record redisDb := mk_db { dict : gmap (list Z) robj; expires : gmap (list Z) Z }.

Inductive lockmode := RDLOCK | WRLOCK.

(** What [ptr] of an object that is no string leads to. *)
Inductive value := VSet (v : setobj) | VHash (v : hashobj) | VList (v : quicklist).

(** The server and the client running the command: the databases, the selected
    database [dictid], [c->db] as an index, the lock held, the reply bytes, the
    counters, and the sets, hashes and lists by the address of their object. *)
Record state := mk_state {
  dbs : list redisDb;
  dictid : Z;
  cur : Z;
  held : option (Z * lockmode);
  out : list Z;
  dirty : Z;
  expiredkeys : Z;
  keyspace_hits : Z;
  keyspace_misses : Z;
  heap : gmap Z value
}.

(** What does not change during a command. *)
Record env := mk_env {
  dbinum : Z;        (* internal databases per logical one *)
  dblnum : Z;        (* logical databases *)
  loading : bool;
  is_slave : bool;   (* repl.masterhost != NULL *)
  msec_now : Z       (* vr_msec_now() *)
}.

(** ** The monad *)

Definition M (A : Type) : Type := state -> option (A * state).
Definition ret {A} (a : A) : M A := fun s => Some (a, s).
Definition bind {A B} (m : M A) (k : A -> M B) : M B := fun s => '(a, s) ← m s; k a s.
Definition panic {A} : M A := fun _ => None.
Definition lift {A} (o : option A) : M A := fun s => a ← o; Some (a, s).
Definition gets {A} (f : state -> A) : M A := fun s => Some (f s, s).
Definition modify (f : state -> state) : M unit := fun s => Some (tt, f s).

#[global] Notation "x <-- m ;; k" := (bind m (fun x => k)) (at level 100, m at next level, right associativity) : vire_scope.
#[global] Notation "m ;; k" := (bind m (fun _ => k)) (at level 100, right associativity) : vire_scope.
#[local] Open Scope vire_scope.

Definition set_dbs (d : list redisDb) (s : state) : state :=
  mk_state d (dictid s) (cur s) (held s) (out s) (dirty s) (expiredkeys s) (keyspace_hits s) (keyspace_misses s) (heap s).
Definition set_dictid (i : Z) (s : state) : state :=
  mk_state (dbs s) i (cur s) (held s) (out s) (dirty s) (expiredkeys s) (keyspace_hits s) (keyspace_misses s) (heap s).
Definition set_cur (i : Z) (s : state) : state :=
  mk_state (dbs s) (dictid s) i (held s) (out s) (dirty s) (expiredkeys s) (keyspace_hits s) (keyspace_misses s) (heap s).
Definition set_held (h : option (Z * lockmode)) (s : state) : state :=
  mk_state (dbs s) (dictid s) (cur s) h (out s) (dirty s) (expiredkeys s) (keyspace_hits s) (keyspace_misses s) (heap s).
Definition set_out (o : list Z) (s : state) : state :=
  mk_state (dbs s) (dictid s) (cur s) (held s) o (dirty s) (expiredkeys s) (keyspace_hits s) (keyspace_misses s) (heap s).
Definition set_stats (d e h m : Z) (s : state) : state :=
  mk_state (dbs s) (dictid s) (cur s) (held s) (out s) d e h m (heap s).

Definition set_heap (h : gmap Z value) (s : state) : state :=
  mk_state (dbs s) (dictid s) (cur s) (held s) (out s) (dirty s) (expiredkeys s) (keyspace_hits s) (keyspace_misses s) h.

(** ** Locks and database access *)

Definition take_lock (m : lockmode) : M unit := fun s =>
  match held s with None => Some (tt, set_held (Some (cur s, m)) s) | Some _ => None end.

Definition lockDbRead : M unit := take_lock RDLOCK.
Definition lockDbWrite : M unit := take_lock WRLOCK.

Definition unlockDb : M unit := fun s =>
  match held s with
  | Some (i, _) => if i =? cur s then Some (tt, set_held None s) else None
  | None => None
  end.

(** [c->db] for reading, under either lock, and for writing. *)
Definition the_db : M redisDb := fun s =>
  match held s with
  | Some (i, _) => if i =? cur s then d ← dbs s !! Z.to_nat i; Some (d, s) else None
  | None => None
  end.

Definition put_db (d : redisDb) : M unit := fun s =>
  match held s with
  | Some (i, WRLOCK) =>
      if i =? cur s then Some (tt, set_dbs (<[Z.to_nat i := d]> (dbs s)) s) else None
  | _ => None
  end.

(** ** Replies and counters *)

Definition bs (s : string) : list Z := (fun a => Z.of_N (Ascii.N_of_ascii a)) <$> String.list_ascii_of_string s.
Definition crlf : list Z := [13; 10].

Definition addReplyString (s : list Z) : M unit := modify (fun st => set_out (out st ++ s) st).

(** The shared replies. *)
Definition shared_ok : list Z := bs "+OK" ++ crlf.
Definition shared_czero : list Z := bs ":0" ++ crlf.
Definition shared_cone : list Z := bs ":1" ++ crlf.
Definition shared_nullbulk : list Z := bs "$-1" ++ crlf.
Definition shared_emptybulk : list Z := bs "$0" ++ crlf ++ crlf.
Definition shared_wrongtypeerr : list Z :=
  bs "-WRONGTYPE Operation against a key holding the wrong kind of value" ++ crlf.
Definition shared_syntaxerr : list Z := bs "-ERR syntax error" ++ crlf.
Definition shared_hdr (prefix len : Z) : list Z := prefix :: dec_string len ++ crlf.

(** [addReply]: the bytes of the object, integers printed. *)
Definition addReply (o : robj) : M unit :=
  match o with
  | SdsObj _ _ s => addReplyString s
  | IntObj _ z => s <-- lift (ll_buf 32 z) ;; addReplyString s
  | OtherObj _ _ => panic
  end.

Definition addReplyError (err : string) : M unit :=
  addReplyString (bs "-ERR ") ;; addReplyString (bs err) ;; addReplyString crlf.

Definition addReplyStatus (status : string) : M unit :=
  addReplyString (bs "+") ;; addReplyString (bs status) ;; addReplyString crlf.

(** Small headers come from the shared tables, the others are printed behind
    the prefix in a 128-byte buffer. *)
Definition addReplyLongLongWithPrefix (ll prefix : Z) : M unit :=
  if ((prefix =? 42) || (prefix =? 36)) && (ll <? 32) && (ll >=? 0) then addReplyString (shared_hdr prefix ll)
  else s <-- lift (ll_buf 127 ll) ;; addReplyString (prefix :: s ++ crlf).

Definition addReplyLongLong (ll : Z) : M unit :=
  if ll =? 0 then addReplyString shared_czero
  else if ll =? 1 then addReplyString shared_cone
  else addReplyLongLongWithPrefix ll 58.

Definition addReplyMultiBulkLen (len : Z) : M unit :=
  if len <? 32 then addReplyString (shared_hdr 42 len) else addReplyLongLongWithPrefix len 42.

(** The digit count of an integer object. *)
Fixpoint count_digits (fuel : nat) (n len : Z) : option Z :=
  match fuel with
  | O => None
  | S fuel => let n := Z.quot n 10 in if n =? 0 then Some len else count_digits fuel n (len + 1)
  end.

Definition addReplyBulkLen (o : robj) : M unit :=
  len <-- lift (match o with
    | SdsObj _ _ s => Some (zlen s)
    | IntObj _ n => if n <? 0 then count_digits 20 (s64 (- n)) 2 else count_digits 20 n 1
    | OtherObj _ _ => None
    end) ;;
  if len <? 32 then addReplyString (shared_hdr 36 len) else addReplyLongLongWithPrefix len 36.

Definition addReplyBulk (o : robj) : M unit :=
  addReplyBulkLen o ;; addReply o ;; addReplyString crlf.

Definition addReplyBulkCBuffer (p : list Z) : M unit :=
  addReplyLongLongWithPrefix (zlen p) 36 ;; addReplyString p ;; addReplyString crlf.

(** [c->vel->dirty += n] and [update_stats_add]. *)
Definition add_dirty (n : Z) : M unit :=
  modify (fun s => set_stats (dirty s + n) (expiredkeys s) (keyspace_hits s) (keyspace_misses s) s).
Definition stat_expired (n : Z) : M unit :=
  modify (fun s => set_stats (dirty s) (expiredkeys s + n) (keyspace_hits s) (keyspace_misses s) s).
Definition stat_hits (n : Z) : M unit :=
  modify (fun s => set_stats (dirty s) (expiredkeys s) (keyspace_hits s + n) (keyspace_misses s) s).
Definition stat_misses (n : Z) : M unit :=
  modify (fun s => set_stats (dirty s) (expiredkeys s) (keyspace_hits s) (keyspace_misses s + n) s).

(** [if (expired) update_stats_add(...)]. *)
Definition count_expired (expired : bool) : M unit := if expired then stat_expired 1 else ret tt.

Section Db.
Context (E : env).

(** ** Selecting a database *)

(** The internal database of a key, within a logical one. *)
Definition slot (key : list Z) : Z := Z.land (hash_crc16 key) 0x3FFF mod dbinum E.

Definition fetchInternalDbByKey (key : list Z) : M unit :=
  modify (fun s => set_cur (slot key + dictid s * dbinum E) s).

Definition fetchInternalDbById (idx : Z) : M unit :=
  modify (fun s => set_cur (idx + dictid s * dbinum E) s).

Definition selectDb (id : Z) : M bool :=
  if (id <? 0) || (id >=? dblnum E) then ret false else modify (set_dictid id) ;; ret true.

(** ** Expiry *)

Definition map_empty_b {A} (m : gmap (list Z) A) : bool := bool_decide (m = ∅).

Definition getExpire (key : list Z) : M Z :=
  d <-- the_db ;;
  if map_empty_b (expires d) then ret (-1)
  else match expires d !! key with
    | None => ret (-1)
    | Some when => match dict d !! key with Some _ => ret when | None => panic end
    end.

Definition checkIfExpired (key : list Z) : M bool :=
  when <-- getExpire key ;; ret ((when >? 0) && (msec_now E >? when)).

Definition dbDelete (key : list Z) : M bool :=
  d <-- the_db ;;
  let d := if map_empty_b (expires d) then d else mk_db (dict d) (delete key (expires d)) in
  match dict d !! key with
  | Some _ => put_db (mk_db (delete key (dict d)) (expires d)) ;; ret true
  | None => put_db d ;; ret false
  end.

Definition expireIfNeeded (key : list Z) : M bool :=
  when <-- getExpire key ;;
  if when <? 0 then ret false
  else if loading E then ret false
  else if is_slave E then ret (msec_now E >? when)
  else if msec_now E <=? when then ret false
  else dbDelete key.

Definition removeExpire (key : list Z) : M bool :=
  d <-- the_db ;;
  match dict d !! key with
  | None => panic
  | Some _ =>
      match expires d !! key with
      | None => ret false
      | Some _ => put_db (mk_db (dict d) (delete key (expires d))) ;; ret true
      end
  end.

Definition setExpire (key : list Z) (when : Z) : M unit :=
  d <-- the_db ;;
  match dict d !! key with
  | None => panic
  | Some _ => put_db (mk_db (dict d) (<[key := when]> (expires d)))
  end.

(** ** Lookup and update *)

Definition lookupKey (key : list Z) : M (option robj) := d <-- the_db ;; ret (dict d !! key).

Definition lookupKeyRead (key : list Z) : M (option robj) :=
  e <-- checkIfExpired key ;;
  if (e : bool) then ret None else lookupKey key.

(** [want] is whether the caller passed a pointer for [expired]; without one
    the key is not expired. *)
Definition lookupKeyWrite (key : list Z) (want : bool) : M (option robj * bool) :=
  e <-- (if want then expireIfNeeded key else ret false) ;;
  o <-- lookupKey key ;;
  ret (o, e).

Definition lookupKeyReadOrReply (key : list Z) (reply : list Z) : M (option robj) :=
  o <-- lookupKeyRead key ;;
  match o with None => addReplyString reply ;; ret None | Some _ => ret o end.

Definition lookupKeyWriteOrReply (key : list Z) (reply : list Z) (want : bool) : M (option robj * bool) :=
  r <-- lookupKeyWrite key want ;;
  match r.1 with None => addReplyString reply ;; ret r | Some _ => ret r end.

(** The clients blocked on lists are not part of the state. *)
Definition dbAdd (key : list Z) (val : robj) : M unit :=
  d <-- the_db ;;
  match dict d !! key with
  | Some _ => panic
  | None => put_db (mk_db (<[key := val]> (dict d)) (expires d))
  end.

Definition dbOverwrite (key : list Z) (val : robj) : M unit :=
  d <-- the_db ;;
  match dict d !! key with
  | None => panic
  | Some _ => put_db (mk_db (<[key := val]> (dict d)) (expires d))
  end.

Definition setKey (key : list Z) (val : robj) (want : bool) : M bool :=
  r <-- lookupKeyWrite key want ;;
  (match r.1 with None => dbAdd key val | Some _ => dbOverwrite key val end) ;;
  removeExpire key ;;
  ret r.2.

Definition dbExists (key : list Z) : M bool :=
  d <-- the_db ;; ret (match dict d !! key with Some _ => true | None => false end).

(** The raw, unshared string, stored back when it had to be made. *)
Definition dbUnshareStringValue (key : list Z) (o : robj) : M robj :=
  match o with
  | SdsObj OBJ_ENCODING_RAW false _ => ret o
  | OtherObj _ _ => panic
  | _ =>
      decoded <-- lift (getDecodedObject o) ;;
      match decoded with
      | SdsObj _ _ s => let new := createRawStringObject s in dbOverwrite key new ;; ret new
      | _ => panic
      end
  end.

(** Writing through [o->ptr]: the object stored under the key changes. *)
Definition store_ptr (key : list Z) (s : list Z) : M unit :=
  d <-- the_db ;;
  match dict d !! key with
  | Some (SdsObj enc c _) => put_db (mk_db (<[key := SdsObj enc c s]> (dict d)) (expires d))
  | _ => panic
  end.

Definition checkType_string (o : robj) : M bool :=
  match o with OtherObj _ _ => addReplyString shared_wrongtypeerr ;; ret true | _ => ret false end.

(** An argument as the parser made it. *)
Definition arg (s : list Z) : robj := createStringObject s.

Definition getLongLongFromObjectOrReply (o : option robj) (msg : option string) : M (option Z) :=
  r <-- lift (getLongLongFromObject o) ;;
  match r with
  | Some v => ret (Some v)
  | None =>
      addReplyError (match msg with Some m => m | None => "value is not an integer or out of range"%string end) ;;
      ret None
  end.

(** [long] is as wide as [long long]: the second range check never fires. *)
Definition getLongFromObjectOrReply (o : option robj) (msg : option string) : M (option Z) :=
  r <-- getLongLongFromObjectOrReply o msg ;;
  match r with
  | None => ret None
  | Some value =>
      if (value <? LLONG_MIN) || (value >? LLONG_MAX) then
        addReplyError (match msg with Some m => m | None => "value is out of range"%string end) ;; ret None
      else ret (Some value)
  end.

End Db.

End Keyspace.
