(* ===== verification/Values.v ===== *)
(** * Values behind an address (vr_object.c, vr_client.c)

    A set, hash or list object in a database is an address; its value is in the table
    [heap] of the state, is read under a lock and written under the write lock
    of its database.  The file holds this access, the type checks and the frame
    the reading commands share. *)

From stdpp Require Import gmap strings.
From S2P Require Import Prelude Bytes Bits NumConv Object HashKit SetType HashType Quicklist Keyspace.
Import NumConv Object HashKit Keyspace.
Import SetType(setobj) HashType(hashobj) Quicklist(quicklist).

Module Values.

#[local] Open Scope vire_scope.

(** What the operations on values depend on besides their arguments: fresh
    memory, the hash seed, [dict_can_resize], the limits of the packed
    encodings, the addresses of hash tables that iterators fingerprint, the
    uninitialised table of the compressor, the options of lists and the limit of
    sparse HyperLogLogs. *)
Record valenv := mk_valenv {
  junk : nat -> Z;
  hash_seed : Z;
  can_resize : bool;
  set_max_intset_entries : Z;
  hash_max_ziplist_entries : Z;
  hash_max_ziplist_value : Z;
  table0 : Z;
  table1 : Z;
  lzf_table : Z -> Z;
  list_max_ziplist_size : Z;
  list_compress_depth : Z;
  hll_sparse_max_bytes : Z
}.

Definition shared_emptymultibulk : list Z := bs "*0" ++ crlf.
Definition shared_outofrangeerr : list Z := bs "-ERR index out of range" ++ crlf.

Definition addReplyBulkLongLong (ll : Z) : M unit := s <-- lift (ll_buf 64 ll) ;; addReplyBulkCBuffer s.

(** ** Addresses *)

Definition alloc (v : value) : M Z := fun s =>
  let p := fresh (dom (heap s)) in Some (p, set_heap (<[p := v]> (heap s)) s).

Definition load (p : Z) : M value := fun s =>
  match held s with Some _ => v ← heap s !! p; Some (v, s) | None => None end.

Definition store (p : Z) (v : value) : M unit := fun s =>
  match held s, heap s !! p with
  | Some (_, WRLOCK), Some _ => Some (tt, set_heap (<[p := v]> (heap s)) s)
  | _, _ => None
  end.

(** A write under whatever lock is held: counting a packed hash of more than
    65534 entries stores its length field again and looking into a compressed
    list decompresses a node, also in the readers. *)
Definition poke (p : Z) (v : value) : M unit := fun s =>
  match held s, heap s !! p with
  | Some _, Some _ => Some (tt, set_heap (<[p := v]> (heap s)) s)
  | _, _ => None
  end.

Definition load_set (p : Z) : M setobj := v <-- load p ;; match v with VSet v => ret v | _ => panic end.
Definition load_hash (p : Z) : M hashobj := v <-- load p ;; match v with VHash v => ret v | _ => panic end.
Definition load_list (p : Z) : M quicklist := v <-- load p ;; match v with VList v => ret v | _ => panic end.

(** [o->type == OBJ_SET], [OBJ_HASH] or [OBJ_LIST], with the address. *)
Definition as_set (o : robj) : option Z := match o with OtherObj OBJ_SET p => Some p | _ => None end.
Definition as_hash (o : robj) : option Z := match o with OtherObj OBJ_HASH p => Some p | _ => None end.
Definition as_list (o : robj) : option Z := match o with OtherObj OBJ_LIST p => Some p | _ => None end.

(** [checkType(c,o,type)] and the address when it has the type. *)
Definition checkType_as (as_type : robj -> option Z) (o : robj) : M (option Z) :=
  match as_type o with
  | Some p => ret (Some p)
  | None => addReplyString shared_wrongtypeerr ;; ret None
  end.

Definition checkType_set : robj -> M (option Z) := checkType_as as_set.
Definition checkType_hash : robj -> M (option Z) := checkType_as as_hash.
Definition checkType_list : robj -> M (option Z) := checkType_as as_list.

(** The frame of the reading commands on one key. *)
Definition read_value (E : env) (as_type : robj -> option Z) (key : list Z) (miss : list Z) (body : Z -> M unit) : M unit :=
  fetchInternalDbByKey E key ;;
  lockDbRead ;;
  o <-- lookupKeyReadOrReply E key miss ;;
  match o with
  | None => unlockDb ;; stat_misses 1
  | Some o =>
      t <-- checkType_as as_type o ;;
      match t with
      | None => unlockDb ;; stat_hits 1
      | Some p =>
          body p ;;
          unlockDb ;;
          stat_hits 1
      end
  end.

End Values.
