(* ===== verification/HllCmds.v ===== *)
(** * PFADD (vr_hyperloglog.c): the code

    The handler whole, with its checks, its locking and its replies.  The value
    is a string object; [hllAdd] works on its bytes in place. *)

From stdpp Require Import gmap strings.
From S2P Require Import Prelude Bytes NumConv Object HashKit Keyspace Values Hll.
Import NumConv Object HashKit Keyspace Values.
Import Hll.

Module HllCmds.

#[local] Open Scope vire_scope.

Definition invalid_hll_err : list Z := bs "-INVALIDOBJ Corrupted HLL object detected" ++ crlf.
Definition not_hll_err : list Z := bs "-WRONGTYPE Key is not a valid HyperLogLog string value." ++ crlf.

(** The tests on the bytes of a string of at least 16. *)
Definition hdr_valid (s : list Z) : bool :=
  bool_decide (take 4 s = [72; 89; 76; 76]) &&
  (match s !! 4%nat with
   | Some encoding => negb (encoding >? HLL_MAX_ENCODING) && negb ((encoding =? HLL_DENSE) && negb (zlen s =? HLL_DENSE_SIZE))
   | None => false
   end).

Section Cmds.
Context (E : env) (C : valenv).

(** [o->ptr] is taken for the address of the header; of an integer it is the
    number itself. *)
Definition isHLLObjectOrReply (o : robj) : M bool :=
  bad <-- checkType_string o ;;
  if (bad : bool) then ret false
  else
    len <-- lift (stringObjectLen o) ;;
    if len <? HLL_HDR_SIZE then addReplyString not_hll_err ;; ret false
    else
      match o with
      | SdsObj _ _ s => if hdr_valid s then ret true else addReplyString not_hll_err ;; ret false
      | _ => panic
      end.

(** The elements, one by one; [None] when the object is found corrupted. *)
Fixpoint pfadd_loop (key s : list Z) (args : list (list Z)) (updated : Z) : M (option (list Z * Z)) :=
  match args with
  | [] => ret (Some (s, updated))
  | ele :: args =>
      r <-- lift (hllAdd (junk C) (hll_sparse_max_bytes C) s ele) ;;
      store_ptr key r.1 ;;
      if r.2 =? -1 then ret None
      else pfadd_loop key r.1 args (if r.2 =? 1 then updated + 1 else updated)
  end.

(** From the loop on; [s] is the string of the object. *)
Definition pfadd_elements (key s : list Z) (args : list (list Z)) (updated : Z) (expired : bool) : M unit :=
  r <-- pfadd_loop key s args updated ;;
  match r with
  | None =>
      unlockDb ;;
      count_expired expired ;;
      addReplyString invalid_hll_err
  | Some (s, updated) =>
      (if updated =? 0 then ret tt
       else
         add_dirty 1 ;;
         s <-- lift (HLL_INVALIDATE_CACHE s) ;;
         store_ptr key s) ;;
      addReplyString (if updated =? 0 then shared_czero else shared_cone) ;;
      unlockDb ;;
      count_expired expired
  end.

Definition pfaddCommand (key : list Z) (args : list (list Z)) : M unit :=
  fetchInternalDbByKey E key ;;
  lockDbWrite ;;
  r <-- lookupKeyWrite E key true ;;
  match r.1 with
  | None =>
      s <-- lift createHLLObject ;;
      dbAdd key (createRawStringObject s) ;;
      pfadd_elements key s args 1 r.2
  | Some o =>
      ok <-- isHLLObjectOrReply o ;;
      if negb ok then unlockDb ;; count_expired r.2
      else
        o <-- dbUnshareStringValue key o ;;
        match o with
        | SdsObj _ _ s => pfadd_elements key s args 0 r.2
        | _ => panic
        end
  end.

End Cmds.

End HllCmds.
