(* ===== verification/Protocol.v ===== *)
(** * The request parser (vr_client.c)

    Bytes arrive from the socket in pieces of any size; the parser keeps what
    it has not consumed in [querybuf] and hands each complete request, inline
    or multi bulk, to the command processor.  What the parser needs of the rest
    of the server is the interface [Processor]; the parser's theorems hold for
    every instance.  A failed assertion is [None].  Positions are not wrapped:
    they stay within the buffer, which the server limits to a gigabyte. *)

From stdpp Require Import strings.
From S2P Require Import Prelude Bytes NumConv Sds Keyspace.
Import NumConv Sds.

Module Protocol.

#[local] Abbreviation bs := Keyspace.bs.
#[local] Abbreviation crlf := Keyspace.crlf.

Definition PROTO_IOBUF_LEN : Z := 1024 * 16.
Definition PROTO_INLINE_MAX_SIZE : Z := 1024 * 64.
Definition PROTO_MBULK_BIG_ARG : Z := 1024 * 32.
Definition PROTO_REQ_INLINE : Z := 1.
Definition PROTO_REQ_MULTIBULK : Z := 2.

(** The fields of [struct client] the parser works with; [argc] is the length
    of [argv], the last three are flags. *)
Record client := mk_client {
  querybuf : list Z;
  reqtype : Z;
  multibulklen : Z;
  bulklen : Z;
  argv : list (list Z);
  close_after_reply : bool;
  jump : bool;
  blocked : bool
}.

Definition set_querybuf (q : list Z) (c : client) : client :=
  mk_client q (reqtype c) (multibulklen c) (bulklen c) (argv c) (close_after_reply c) (jump c) (blocked c).
Definition set_reqtype (t : Z) (c : client) : client :=
  mk_client (querybuf c) t (multibulklen c) (bulklen c) (argv c) (close_after_reply c) (jump c) (blocked c).
Definition set_bulk (m b : Z) (c : client) : client :=
  mk_client (querybuf c) (reqtype c) m b (argv c) (close_after_reply c) (jump c) (blocked c).
Definition set_argv (a : list (list Z)) (c : client) : client :=
  mk_client (querybuf c) (reqtype c) (multibulklen c) (bulklen c) a (close_after_reply c) (jump c) (blocked c).
Definition set_flags (cl j b : bool) (c : client) : client :=
  mk_client (querybuf c) (reqtype c) (multibulklen c) (bulklen c) (argv c) cl j b.

(** What a command does to the client besides its work: its return value, and
    the flags as it leaves them; [gone] when the client was freed. *)
Record effect := mk_effect { ok : bool; e_close : bool; e_jump : bool; e_blocked : bool; gone : bool }.

Definition executed : effect := mk_effect true false false false false.

(** What the parser needs of the server: whether the clients of this worker
    are paused, the reply stream, and the execution of a request. *)
Class Processor (W : Type) := {
  clientsArePaused : W -> bool;
  emit : list Z -> W -> W;
  process : list (list Z) -> W -> option (W * effect)
}.

(** What the event loop of a worker a client jumped to needs: the handler of the
    request, run once more. *)
Class Worker (W : Type) := {
  proc_again : list (list Z) -> W -> option (W * effect)
}.

(** [strchr]: the first [c] before the end of the C string. *)
Fixpoint strchr (s : list Z) (c : Z) : option Z :=
  match s with
  | [] => None
  | x :: s => if x =? c then Some 0 else if x =? 0 then None else Z.succ <$> strchr s c
  end.

Definition slice (s : list Z) (start n : Z) : list Z := take (Z.to_nat n) (drop (Z.to_nat start) s).

Section Parser.
Context {W : Type} {P : Processor W}.

Definition addReplyErrorLength (s : list Z) (w : W) : W := emit crlf (emit s (emit (bs "-ERR ") w)).
Definition addReplyError (err : string) (w : W) : W := addReplyErrorLength (bs err) w.
Definition addReplyErrorFormat (s : list Z) (w : W) : W :=
  addReplyErrorLength ((fun c => if (c =? 13) || (c =? 10) then 32 else c) <$> s) w.

Definition setProtocolError (c : client) (pos : Z) : client :=
  let c := set_flags true (jump c) (blocked c) c in
  set_querybuf (sdsrange (querybuf c) pos (-1)) c.

Definition resetClient (c : client) : client :=
  if jump c then c else set_argv [] (set_reqtype 0 (set_bulk 0 (-1) c)).

(** ** Inline requests *)

Definition processInlineBuffer (c : client) (w : W) : option (client * W * bool) :=
  match strchr (querybuf c) 10 with
  | None =>
      if zlen (querybuf c) >? PROTO_INLINE_MAX_SIZE then
        Some (setProtocolError c 0, addReplyError "Protocol error: too big inline request" w, false)
      else Some (c, w, false)
  | Some newline =>
      let newline := if negb (newline =? 0) && (at_ (querybuf c) (Z.to_nat (newline - 1)) =? 13) then newline - 1 else newline in
      let querylen := newline in
      let aux := slice (querybuf c) 0 querylen in
      r ← sdssplitargs aux;
      match r with
      | None => Some (setProtocolError c 0, addReplyError "Protocol error: unbalanced quotes in request" w, false)
      | Some args =>
          let c := set_querybuf (sdsrange (querybuf c) (querylen + 2) (-1)) c in
          Some (set_argv (List.filter (fun a => negb (zlen a =? 0)) args) c, w, true)
      end
  end.

(** ** Multi bulk requests *)

(** The line with the number of arguments: leave with a result, or go on at a
    position. *)
Inductive flow := Return (ok : bool) | Goto (pos : Z).

Definition multibulk_count (c : client) (w : W) : option (client * W * flow) :=
  if multibulklen c =? 0 then
    if negb (zlen (argv c) =? 0) then None
    else
      match strchr (querybuf c) 13 with
      | None =>
          if zlen (querybuf c) >? PROTO_INLINE_MAX_SIZE then
            Some (setProtocolError c 0, addReplyError "Protocol error: too big mbulk count string" w, Return false)
          else Some (c, w, Return false)
      | Some newline =>
          if newline >? zlen (querybuf c) - 2 then Some (c, w, Return false)
          else if negb (at_ (querybuf c) 0 =? 42) then None
          else
            let invalid := Some (setProtocolError c 0, addReplyError "Protocol error: invalid multibulk length" w, Return false) in
            match string2ll (slice (querybuf c) 1 (newline - 1)) with
            | None => invalid
            | Some ll =>
                if ll >? 1024 * 1024 then invalid
                else
                  let pos := newline + 2 in
                  if ll <=? 0 then Some (set_querybuf (sdsrange (querybuf c) pos (-1)) c, w, Return true)
                  else Some (set_bulk ll (bulklen c) c, w, Goto pos)
            end
      end
  else Some (c, w, Goto 0).

(** The line with the length of an argument. *)
Inductive lflow := LReturn | LBreak | LGoto (pos : Z).

Definition bulk_length (c : client) (w : W) (pos : Z) : client * W * lflow :=
  if bulklen c =? -1 then
    match strchr (drop (Z.to_nat pos) (querybuf c)) 13 with
    | None =>
        if zlen (querybuf c) >? PROTO_INLINE_MAX_SIZE then
          (setProtocolError c 0, addReplyError "Protocol error: too big bulk count string" w, LReturn)
        else (c, w, LBreak)
    | Some n =>
        let newline := pos + n in
        if newline >? zlen (querybuf c) - 2 then (c, w, LBreak)
        else if negb (at_ (querybuf c) (Z.to_nat pos) =? 36) then
          (setProtocolError c pos,
           addReplyErrorFormat (bs "Protocol error: expected '$', got '" ++ [at_ (querybuf c) (Z.to_nat pos)] ++ bs "'") w, LReturn)
        else
          let invalid := (setProtocolError c pos, addReplyError "Protocol error: invalid bulk length" w, LReturn) in
          match string2ll (slice (querybuf c) (pos + 1) (newline - (pos + 1))) with
          | None => invalid
          | Some ll =>
              if (ll <? 0) || (ll >? 512 * 1024 * 1024) then invalid
              else
                let pos := pos + (newline - pos) + 2 in
                if ll >=? PROTO_MBULK_BIG_ARG then
                  (set_bulk (multibulklen c) ll (set_querybuf (sdsrange (querybuf c) pos (-1)) c), w, LGoto 0)
                else (set_bulk (multibulklen c) ll c, w, LGoto pos)
          end
    end
  else (c, w, LGoto pos).

(** The argument itself, when all of it is there. *)
Definition bulk_argument (c : client) (pos : Z) : option (client * Z) :=
  if zlen (querybuf c) - pos <? bulklen c + 2 then None
  else
    let '(c, pos) :=
      if (pos =? 0) && (bulklen c >=? PROTO_MBULK_BIG_ARG) && (zlen (querybuf c) =? bulklen c + 2) then
        (set_querybuf [] (set_argv (argv c ++ [take (length (querybuf c) - 2) (querybuf c)]) c), 0)
      else (set_argv (argv c ++ [slice (querybuf c) pos (bulklen c)]) c, pos + (bulklen c + 2)) in
    Some (set_bulk (multibulklen c - 1) (-1) c, pos).

(** [while(c->multibulklen)]: the state, the position and whether the loop
    was left by an error. *)
Fixpoint bulk_loop (fuel : nat) (c : client) (w : W) (pos : Z) : option (client * W * Z * bool) :=
  match fuel with
  | O => None
  | S fuel =>
      if multibulklen c =? 0 then Some (c, w, pos, false)
      else
        let '(c, w, f) := bulk_length c w pos in
        match f with
        | LReturn => Some (c, w, pos, true)
        | LBreak => Some (c, w, pos, false)
        | LGoto pos =>
            match bulk_argument c pos with
            | None => Some (c, w, pos, false)
            | Some (c, pos) => bulk_loop fuel c w pos
            end
        end
  end.

Definition processMultibulkBuffer (c : client) (w : W) : option (client * W * bool) :=
  '(c, w, f) ← multibulk_count c w;
  match f with
  | Return ok => Some (c, w, ok)
  | Goto pos =>
      if negb (multibulklen c >? 0) then None
      else
        '(c, w, pos, err) ← bulk_loop (S (Z.to_nat (multibulklen c))) c w pos;
        if err : bool then Some (c, w, false)
        else
          let c := if pos =? 0 then c else set_querybuf (sdsrange (querybuf c) pos (-1)) c in
          Some (c, w, multibulklen c =? 0)
  end.

(** ** The input buffer *)

Definition parse_request (c : client) (w : W) : option (client * W * bool) :=
  let c := if reqtype c =? 0 then set_reqtype (if at_ (querybuf c) 0 =? 42 then PROTO_REQ_MULTIBULK else PROTO_REQ_INLINE) c else c in
  if reqtype c =? PROTO_REQ_INLINE then processInlineBuffer c w
  else if reqtype c =? PROTO_REQ_MULTIBULK then processMultibulkBuffer c w
  else None.

Fixpoint processInputBuffer (fuel : nat) (c : client) (w : W) : option (client * W) :=
  match fuel with
  | O => None
  | S fuel =>
      if zlen (querybuf c) =? 0 then Some (c, w)
      else if clientsArePaused w then Some (c, w)
      else if blocked c then Some (c, w)
      else if close_after_reply c then Some (c, w)
      else
        '(c, w, got) ← parse_request c w;
        if negb got then Some (c, w)
        else if zlen (argv c) =? 0 then processInputBuffer fuel (resetClient c) w
        else
          '(w, e) ← process (argv c) w;
          let c := set_flags (close_after_reply c || e_close e) (e_jump e) (e_blocked e) c in
          let c := if ok e then resetClient c else c in
          if gone e || jump c then Some (c, w)
          else processInputBuffer fuel c w
  end.

(** ** Reading from the socket *)

Definition readlen (c : client) : Z :=
  if (reqtype c =? PROTO_REQ_MULTIBULK) && negb (multibulklen c =? 0) && negb (bulklen c =? -1) && (bulklen c >=? PROTO_MBULK_BIG_ARG) then
    let remaining := s32 (u32 (bulklen c + 2) - zlen (querybuf c)) in
    if remaining <? PROTO_IOBUF_LEN then remaining else PROTO_IOBUF_LEN
  else PROTO_IOBUF_LEN.

(** One readable event with [pending] bytes in the socket, of which [read]
    delivers at most [n].  The result is the client, or [None] when it was
    freed, and the bytes left in the socket.  A read of 0 bytes is taken for
    the end of the connection. *)
Definition readQueryFromClient (max_querybuf : Z) (n : Z) (c : client) (w : W) (pending : list Z) : option (option client * W * list Z) :=
  let nread := Z.to_nat (n `min` (u64 (readlen c) `min` zlen pending)) in
  if (nread =? 0)%nat then Some (None, w, pending)
  else
    let c := set_querybuf (querybuf c ++ take nread pending) c in
    if zlen (querybuf c) >? max_querybuf then Some (None, w, drop nread pending)
    else
      '(c, w) ← processInputBuffer (S (length (querybuf c))) c w;
      Some (Some c, w, drop nread pending).

(** ** Jumps between workers *)

(** Some commands run on every worker in turn (CLIENT LIST, CLIENT KILL, COMMAND
    STATS): they set [CLIENT_JUMP], the client leaves its event loop through
    [dispatch_conn_exist] and the master queues it at the next worker, which runs
    the handler of the request again: [proc_again]. *)
Context {K : Worker W}.

(** The file event is registered again and what the buffer holds is handled. *)
Definition linkClientToEventloop (c : client) (w : W) : option (client * W) := processInputBuffer (S (length (querybuf c))) c w.

(** [thread_event_process], case 'j': the client arrives at a worker. *)
Definition worker_jump (c : client) (w : W) : option (client * W) :=
  '(w, e) ← proc_again (argv c) w;
  let c := set_flags (close_after_reply c || e_close e) (e_jump e) (e_blocked e) c in
  if jump c then Some (c, w) else linkClientToEventloop (resetClient c) w.

(** What can happen to a connection: the socket is readable and delivers at most
    [n] bytes, which only concerns a client in an event loop, or the client
    arrives at the worker it jumped to. *)
Inductive event := Readable (n : Z) | Arrive.

Fixpoint client_events (max_querybuf : Z) (evs : list event) (c : client) (w : W) (pending : list Z) : option (option client * W * list Z) :=
  match evs with
  | [] => Some (Some c, w, pending)
  | ev :: evs =>
      match ev, jump c with
      | Readable n, false =>
          '(oc, w, pending) ← readQueryFromClient max_querybuf n c w pending;
          match oc with None => Some (None, w, pending) | Some c => client_events max_querybuf evs c w pending end
      | Arrive, true =>
          '(c, w) ← worker_jump c w;
          client_events max_querybuf evs c w pending
      | _, _ => client_events max_querybuf evs c w pending
      end
  end.

End Parser.
End Protocol.
