(* ===== verification/ProtocolProps.v ===== *)
(** * Requests through the parser

    A request written in the multi bulk form reaches the command processor
    exactly as it was written, whatever the pieces the network delivers; the
    parser never fails an assertion on any input. *)

From stdpp Require Import strings.
From S2P Require Import Prelude Bytes NumConv Object Sds Keyspace Protocol.
Import NumConv Object Sds Protocol.

Module ProtocolProps.

#[local] Abbreviation crlf := Keyspace.crlf.

(** ** The wire format *)

Definition bulk (a : list Z) : list Z := (36 :: dec_string (zlen a)) ++ crlf ++ a ++ crlf.
Definition request (r : list (list Z)) : list Z := (42 :: dec_string (zlen r)) ++ crlf ++ concat (bulk <$> r).
Definition stream (rs : list (list (list Z))) : list Z := concat (request <$> rs).

(** The limits of the protocol. *)
Definition request_ok (r : list (list Z)) : Prop := 1 <= zlen r <= 1024 * 1024 /\ Forall (fun a => zlen a <= 512 * 1024 * 1024) r.

(** ** Lines *)

(** A line has no carriage return and no zero byte inside. *)
Definition line_ok (h : list Z) : Prop := Forall (fun c => c <> 13 /\ c <> 0) h.

Lemma strchr_line h t : line_ok h -> strchr (h ++ 13 :: t) 13 = Some (zlen h).
Proof.
  induction 1 as [|c h [H1 H2] Hh IH]; [done |]. cbn [app strchr]. rewrite (proj2 (Z.eqb_neq c 13)), (proj2 (Z.eqb_neq c 0)), IH by done. cbn. f_equal. lia.
Qed.

Lemma strchr_no_line h : line_ok h -> strchr h 13 = None.
Proof. induction 1 as [|c h [H1 H2] Hh IH]; [done |]. cbn [strchr]. by rewrite (proj2 (Z.eqb_neq c 13)), (proj2 (Z.eqb_neq c 0)), IH by done. Qed.

Lemma header_line c n : c <> 13 -> c <> 0 -> int64 n -> line_ok (c :: dec_string n).
Proof. intros H1 H2 Hn. constructor; [done |]. eapply Forall_impl; [by apply dec_string_chars |]. cbn. lia. Qed.

(** The part of the stream that has arrived ends inside the line, between the
    two bytes of its end, or after them. *)
Lemma split_line (B P h X : list Z) : B ++ P = h ++ crlf ++ X ->
  (exists k, h = B ++ k) \/ B = h ++ [13] \/ exists B2, B = h ++ crlf ++ B2 /\ B2 ++ P = X.
Proof.
  intros E. destruct (app_eq_inv _ _ _ _ E) as [(k & -> & H2) | (k & -> & H2)]; [|by left; exists k].
  destruct k as [|x k]; [left; exists []; by rewrite !app_nil_r |]. injection H2 as <- H2.
  destruct k as [|y k]; [right; by left |]. injection H2 as <- H2. right. right. by exists k.
Qed.

(** ** One argument *)

Lemma zlen_int64 {A} (l : list A) n : zlen l <= n -> n <= 512 * 1024 * 1024 -> int64 (zlen l).
Proof. unfold int64, LLONG_MIN, LLONG_MAX. lia. Qed.

Lemma header_length c n : int64 n -> zlen (c :: dec_string n) < 30.
Proof. intros Hn. pose proof (dec_string_length n Hn). cbn [length]. lia. Qed.

Lemma slice_drop q pos n : 0 <= pos -> slice q (pos + 1) n = take (Z.to_nat n) (drop 1 (drop (Z.to_nat pos) q)).
Proof. intros H. unfold slice. rewrite drop_drop. do 2 f_equal. lia. Qed.

(** The number in a header line. *)
Lemma header_number h n B2 : int64 n -> string2ll (take (Z.to_nat (zlen (h :: dec_string n) - 1)) (drop 1 ((h :: dec_string n) ++ crlf ++ B2))) = Some n.
Proof.
  intros Hn. cbn [app drop length]. rewrite drop_0. replace (Z.to_nat (Z.of_nat (S (length (dec_string n))) - 1)) with (length (dec_string n)) by lia.
  rewrite take_app_length. by apply string2ll_complete.
Qed.

Section Stream.
Context {W : Type} {P : Processor W}.

Lemma bulk_length_stream c (w : W) pos a Y rest : bulklen c = -1 -> 0 <= pos <= zlen (querybuf c) -> zlen a <= 512 * 1024 * 1024 ->
  drop (Z.to_nat pos) (querybuf c) ++ rest = bulk a ++ Y -> zlen (querybuf c) <= PROTO_INLINE_MAX_SIZE ->
  (bulk_length c w pos = (c, w, LBreak) /\ zlen (querybuf c) - pos < 32 /\ rest <> []) \/
  (exists q pos', bulk_length c w pos = (set_bulk (multibulklen c) (zlen a) (set_querybuf q c), w, LGoto pos') /\ 0 <= pos' <= zlen q /\
     drop (Z.to_nat pos') q ++ rest = a ++ crlf ++ Y /\ zlen q <= PROTO_INLINE_MAX_SIZE /\ (PROTO_MBULK_BIG_ARG <= zlen a -> pos' = 0)).
Proof.
  intros Hb Hpos Ha E Hsz. pose proof (zlen_int64 a _ Ha ltac:(lia)) as Hn. pose proof (header_length 36 _ Hn) as Hhl.
  pose proof (header_line 36 (zlen a) ltac:(lia) ltac:(lia) Hn) as Hh. unfold bulk in E. rewrite <- !app_assoc in E.
  set (h := 36 :: dec_string (zlen a)) in *. unfold bulk_length. rewrite Hb. cbn [Z.eqb Pos.eqb].
  pose proof (length_drop (querybuf c) (Z.to_nat pos)) as Hlen. destruct (split_line _ _ _ _ E) as [[k Hk] | [HB | (B2 & HB & HX)]].
  - left. rewrite strchr_no_line by (unfold line_ok in *; rewrite Hk in Hh; by apply Forall_app in Hh as [? _]). rewrite Z.gtb_ltb. zguard.
    split; [done |]. split; [apply (f_equal length) in Hk; rewrite length_app in Hk; lia |]. intros ->. rewrite Hk, app_nil_r in E.
    apply (f_equal length) in E. rewrite !length_app in E. unfold Keyspace.crlf in E. cbn [length] in E. lia.
  - left. rewrite HB, strchr_line by done. rewrite HB, length_app in Hlen. cbn [length] in Hlen. rewrite Z.gtb_ltb. zguard. split; [done |]. split; [lia |].
    intros ->. rewrite HB, app_nil_r in E. by apply app_inv_head in E.
  - right. rewrite HB. unfold Keyspace.crlf in *. cbn [app] in HB. cbn [app]. rewrite strchr_line by done. rewrite HB, length_app in Hlen. cbn [length] in Hlen.
    rewrite Z.gtb_ltb. zguard. assert (Hat : at_ (querybuf c) (Z.to_nat pos) = 36) by (rewrite <- (Nat.add_0_r (Z.to_nat pos)), <- at_drop; by rewrite HB).
    rewrite Hat. cbn [Z.eqb Pos.eqb negb]. rewrite slice_drop, HB by lia. replace (pos + zlen h - (pos + 1)) with (zlen h - 1) by lia.
    change (h ++ 13 :: 10 :: B2) with (h ++ Keyspace.crlf ++ B2). unfold h. rewrite header_number by done. fold h.
    rewrite (proj2 (Z.ltb_ge (zlen a) 0)) by lia. rewrite Z.gtb_ltb. rewrite (proj2 (Z.ltb_ge _ (zlen a))) by lia. cbn [orb].
    assert (Hd : drop (Z.to_nat (pos + (pos + zlen h - pos) + 2)) (querybuf c) = B2).
    { replace (Z.to_nat _) with (Z.to_nat pos + (length h + 2))%nat by lia. rewrite <- drop_drop, HB, <- drop_drop, drop_app_length. done. }
    rewrite Z.geb_leb. destruct (Z.leb_spec PROTO_MBULK_BIG_ARG (zlen a)).
    + rewrite sdsrange_drop, Hd by lia. exists B2, 0. cbn [Z.to_nat]. rewrite drop_0. split; [done |]. repeat split; [lia | lia | done | lia].
    + exists (querybuf c), (pos + (pos + zlen h - pos) + 2). split; [by destruct c |]. rewrite Hd. repeat split; [lia | lia | done | lia | lia].
Qed.

(** The argument: taken when complete, awaited otherwise. *)
Lemma bulk_argument_stream c pos a Y rest : bulklen c = zlen a -> 0 <= pos <= zlen (querybuf c) ->
  drop (Z.to_nat pos) (querybuf c) ++ rest = a ++ crlf ++ Y ->
  (bulk_argument c pos = None /\ zlen (querybuf c) - pos < bulklen c + 2 /\ rest <> []) \/
  (exists q pos', bulk_argument c pos = Some (set_bulk (multibulklen c - 1) (-1) (set_argv (argv c ++ [a]) (set_querybuf q c)), pos') /\
     0 <= pos' <= zlen q /\ drop (Z.to_nat pos') q ++ rest = Y /\
     (q = [] \/ q = querybuf c /\ ~ (pos = 0 /\ PROTO_MBULK_BIG_ARG <= bulklen c /\ zlen (querybuf c) = bulklen c + 2))).
Proof.
  intros Hb Hpos E. unfold bulk_argument. rewrite Hb. destruct (Z.ltb_spec (zlen (querybuf c) - pos) (zlen a + 2)) as [Hlt | Hge].
  { left. split; [done |]. split; [lia |]. intros ->. apply (f_equal length) in E. rewrite !length_app, length_drop in E. unfold Keyspace.crlf in E. cbn [length] in E. lia. }
  right. pose proof (length_drop (querybuf c) (Z.to_nat pos)) as Hlen.
  assert (HB : exists B2, drop (Z.to_nat pos) (querybuf c) = a ++ crlf ++ B2 /\ B2 ++ rest = Y).
  { destruct (split_line _ _ _ _ E) as [[k Hk] | [HB | H]]; [| | done]; exfalso.
    - apply (f_equal length) in Hk. rewrite length_app in Hk. lia.
    - apply (f_equal length) in HB. rewrite length_app in HB. cbn [length] in HB. lia. }
  destruct HB as (B2 & HB & HY). destruct (_ && _) eqn:Hopt.
  - zbool. assert (pos = 0) as -> by done. cbn [Z.to_nat] in *. rewrite drop_0 in *. exists [], 0. rewrite HB in *. rewrite length_app in *. unfold Keyspace.crlf in *. cbn [length app] in *.
    destruct B2; [|cbn [length] in *; lia]. cbn [length]. replace (length a + 2 - 2)%nat with (length a) by lia. rewrite take_app_length. split; [by destruct c |]. split; [lia |]. split; [done | by left].
  - exists (querybuf c), (pos + (zlen a + 2)). unfold slice. rewrite HB, Nat2Z.id, take_app_length. split; [by destruct c |].
    rewrite HB, length_app in Hlen. unfold Keyspace.crlf in *. cbn [app length] in *. split; [lia |]. split.
    2: { right. split; [done |]. intros (-> & H1 & H2). revert Hopt. rewrite Z.geb_leb. repeat zguard. done. }
    replace (Z.to_nat (pos + _)) with (Z.to_nat pos + (length a + 2))%nat by lia. by rewrite <- drop_drop, HB, <- drop_drop, drop_app_length.
Qed.

(** ** The arguments of a request *)

(** No flag is set. *)
Definition quiet (c : client) : Prop := close_after_reply c = false /\ jump c = false /\ blocked c = false.

(** Inside a request: [todo] is still to come. *)
Definition InRequest (r : list (list Z)) (c : client) (todo : list (list Z)) : Prop :=
  quiet c /\ reqtype c = PROTO_REQ_MULTIBULK /\ argv c ++ todo = r /\ multibulklen c = zlen todo /\
  (bulklen c = -1 \/ exists a t, todo = a :: t /\ bulklen c = zlen a).

(** What is left of the request on the wire. *)
Definition wire (c : client) (todo : list (list Z)) : list Z :=
  match todo with
  | [] => []
  | a :: t => if bulklen c =? -1 then concat (bulk <$> todo) else (a ++ crlf) ++ concat (bulk <$> t)
  end.

(** The buffer is small, or holds at most the big argument being read. *)
Definition Room (c : client) (pos : Z) : Prop :=
  zlen (querybuf c) <= PROTO_INLINE_MAX_SIZE \/ (pos = 0 /\ PROTO_MBULK_BIG_ARG <= bulklen c /\ zlen (querybuf c) <= bulklen c + 2).

(** The parser waits for more: [n] bytes are too few. *)
Definition Starved (c : client) (n : Z) : Prop := n < (if bulklen c =? -1 then 32 else bulklen c + 2).

Definition small_args (todo : list (list Z)) : Prop := Forall (fun a => zlen a <= 512 * 1024 * 1024) todo.

(** Where the loop over the arguments stops. *)
Definition Stopped (r : list (list Z)) (Y rest : list Z) (c : client) (pos : Z) : Prop :=
  exists todo, InRequest r c todo /\ small_args todo /\ 0 <= pos <= zlen (querybuf c) /\
    drop (Z.to_nat pos) (querybuf c) ++ rest = wire c todo ++ Y /\
    (if todo is [] then zlen (querybuf c) <= PROTO_INLINE_MAX_SIZE else Starved c (zlen (querybuf c) - pos) /\ rest <> []).

Lemma bulk_loop_stream fuel : forall todo c w pos r Y rest, (length todo < fuel)%nat -> InRequest r c todo -> small_args todo ->
  0 <= pos <= zlen (querybuf c) -> drop (Z.to_nat pos) (querybuf c) ++ rest = wire c todo ++ Y -> Room c pos ->
  exists c' pos', bulk_loop fuel c w pos = Some (c', w, pos', false) /\ Stopped r Y rest c' pos'.
Proof.
  induction fuel as [|fuel IH]; intros todo c w pos r Y rest Hf HI Hs Hpos E HR; [lia |]. cbn [bulk_loop].
  pose proof HI as (Hq & Ht & Hr & Hm & Hb). destruct todo as [|a t].
  { rewrite Hm. cbn [length Z.of_nat Z.eqb]. exists c, pos. split; [done |]. exists []. destruct Hb as [Hb | (? & ? & [=] & _)].
    repeat (split; [done || lia |]). destruct HR as [HR | (_ & HR & _)]; [done |]. rewrite Hb in HR. unfold PROTO_MBULK_BIG_ARG in HR. lia. }
  rewrite Hm, (proj2 (Z.eqb_neq _ 0)) by (cbn [length]; lia). apply Forall_cons in Hs as [Ha Hs].
  assert (Harg : forall c1 pos1, InRequest r c1 (a :: t) -> bulklen c1 = zlen a -> 0 <= pos1 <= zlen (querybuf c1) ->
    drop (Z.to_nat pos1) (querybuf c1) ++ rest = (a ++ crlf) ++ concat (bulk <$> t) ++ Y -> Room c1 pos1 ->
    exists c' pos', match bulk_argument c1 pos1 with None => Some (c1, w, pos1, false) | Some (c, pos) => bulk_loop fuel c w pos end = Some (c', w, pos', false) /\
      Stopped r Y rest c' pos').
  { clear E HR Hpos HI Hq Ht Hr Hm Hb c pos. intros c pos (Hq & Ht & Hr & Hm & _) Hb Hpos E HR. rewrite <- !app_assoc in E.
    destruct (bulk_argument_stream c pos a _ rest Hb Hpos E) as [(-> & Hst & Hrest) | (q & pos' & -> & Hpos' & E' & Hqq)].
    - exists c, pos. split; [done |]. exists (a :: t). unfold InRequest, Starved. cbn [wire]. rewrite (proj2 (Z.eqb_neq (bulklen c) (-1))) by lia.
      split; [repeat split; try done; [apply Hq | apply Hq | apply Hq | right; by exists a, t] |]. split; [by constructor |]. split; [done |]. split; [by rewrite <- !app_assoc | done].
    - apply (IH t); [cbn in Hf; lia | | done | done | |].
      + split; [done |]. split; [done |]. cbn. split; [by rewrite <- app_assoc |]. split; [rewrite Hm; cbn [length]; lia | by left].
      + change (querybuf _) with q. rewrite E'. f_equal. by destruct t.
      + left. cbn. destruct Hqq as [-> | [-> Hno]]; [unfold PROTO_INLINE_MAX_SIZE; cbn; lia |]. destruct HR as [HR | (H1 & H2 & H3)]; [done |]. exfalso. apply Hno. split; [done |]. split; [done |].
        set (Y1 := concat (bulk <$> t) ++ Y) in *. clearbody Y1. apply (f_equal length) in E. rewrite !length_app, length_drop in E. apply (f_equal length) in E'. rewrite length_app, length_drop in E'. unfold Keyspace.crlf in E. cbn [length] in E. lia. }
  destruct (Z.eq_dec (bulklen c) (-1)) as [Hbl | Hbl].
  - unfold wire in E. rewrite Hbl in E. cbn [Z.eqb Pos.eqb] in E. rewrite fmap_cons in E. cbn [concat] in E. rewrite <- app_assoc in E.
    assert (Hsz : zlen (querybuf c) <= PROTO_INLINE_MAX_SIZE) by (destruct HR as [HR | (_ & HR & _)]; [done | unfold PROTO_MBULK_BIG_ARG in HR; lia]).
    destruct (bulk_length_stream c w pos a _ rest Hbl Hpos Ha E Hsz) as [(-> & Hst & Hrest) | (q & pos' & -> & Hpos' & E' & Hsz' & _)].
    + exists c, pos. split; [done |]. exists (a :: t). split; [done |]. split; [by constructor |]. split; [done |]. unfold Starved. cbn [wire]. rewrite Hbl. cbn [Z.eqb Pos.eqb]. split; [|by split].
      rewrite fmap_cons. cbn [concat]. by rewrite <- app_assoc.
    + apply Harg; [|done | done | by rewrite <- app_assoc | by left]. split; [done |]. repeat split; try done. right. by exists a, t.
  - unfold bulk_length. rewrite (proj2 (Z.eqb_neq _ _) Hbl). destruct Hb as [Hb | (a' & t' & [= <- <-] & Hb)]; [done |].
    apply Harg; try done. rewrite E. unfold wire. rewrite (proj2 (Z.eqb_neq _ _) Hbl). by rewrite <- !app_assoc.
Qed.

(** ** Whole requests *)

Lemma multibulk_count_stream c (w : W) r Y rest : request_ok r -> multibulklen c = 0 -> argv c = [] ->
  querybuf c ++ rest = request r ++ Y -> zlen (querybuf c) <= PROTO_INLINE_MAX_SIZE ->
  (multibulk_count c w = Some (c, w, Return false) /\ zlen (querybuf c) < 32 /\ rest <> []) \/
  (exists pos, multibulk_count c w = Some (set_bulk (zlen r) (bulklen c) c, w, Goto pos) /\ 0 <= pos <= zlen (querybuf c) /\
     drop (Z.to_nat pos) (querybuf c) ++ rest = concat (bulk <$> r) ++ Y).
Proof.
  intros [Hr _] Hm Hav E Hsz. pose proof (zlen_int64 r _ (proj2 Hr) ltac:(lia)) as Hn. pose proof (header_length 42 _ Hn) as Hhl.
  pose proof (header_line 42 (zlen r) ltac:(lia) ltac:(lia) Hn) as Hh. unfold request in E. rewrite <- !app_assoc in E.
  set (h := 42 :: dec_string (zlen r)) in *. unfold multibulk_count. rewrite Hm, Hav. cbn [Z.eqb length Z.of_nat negb].
  destruct (split_line _ _ _ _ E) as [[k Hk] | [HB | (B2 & HB & HX)]].
  - left. rewrite strchr_no_line by (unfold line_ok in *; rewrite Hk in Hh; by apply Forall_app in Hh as [? _]). rewrite Z.gtb_ltb. zguard.
    split; [done |]. split; [apply (f_equal length) in Hk; rewrite length_app in Hk; lia |]. intros ->. rewrite Hk, app_nil_r in E.
    apply (f_equal length) in E. rewrite !length_app in E. unfold Keyspace.crlf in E. cbn [length] in E. lia.
  - left. rewrite HB, strchr_line by done. rewrite length_app. cbn [length]. rewrite Z.gtb_ltb. zguard. split; [done |]. split; [lia |].
    intros ->. rewrite HB, app_nil_r in E. by apply app_inv_head in E.
  - right. assert (Hlen : length (querybuf c) = (length h + 2 + length B2)%nat) by (rewrite HB, !length_app; unfold Keyspace.crlf; cbn [length]; lia).
    assert (Hat : at_ (querybuf c) 0 = 42) by (by rewrite HB). rewrite Hat.
    assert (Hll : string2ll (slice (querybuf c) 1 (zlen h - 1)) = Some (zlen r)) by (change 1 with (0 + 1) at 1; rewrite slice_drop, drop_0, HB by lia; by apply header_number).
    replace (strchr (querybuf c) 13) with (Some (zlen h)) by (rewrite HB; unfold Keyspace.crlf; cbn [app]; by rewrite strchr_line).
    rewrite !Z.gtb_ltb. rewrite (proj2 (Z.ltb_ge _ (zlen h))) by lia. cbn [Z.eqb Pos.eqb negb]. rewrite Hll. rewrite Z.gtb_ltb. rewrite (proj2 (Z.ltb_ge _ (zlen r))) by lia. zguard.
    exists (zlen h + 2). split; [done |]. split; [lia |]. replace (Z.to_nat (zlen h + 2)) with (length h + 2)%nat by lia. by rewrite HB, <- drop_drop, drop_app_length.
Qed.

(** The state of the parser relative to the requests to come: [rest] is what
    the socket has not delivered yet. *)
Inductive Sync (c : client) (rs : list (list (list Z))) (rest : list Z) : Prop :=
  | Between : quiet c -> argv c = [] -> multibulklen c = 0 -> bulklen c = -1 ->
      reqtype c = 0 \/ (reqtype c = PROTO_REQ_MULTIBULK /\ querybuf c <> []) -> querybuf c ++ rest = stream rs -> Sync c rs rest
  | Within r rs' todo : rs = r :: rs' -> InRequest r c todo -> todo <> [] -> small_args todo -> querybuf c ++ rest = wire c todo ++ stream rs' -> Sync c rs rest.

Definition Small (c : client) : Prop := Starved c (zlen (querybuf c)).

Lemma wire_nonempty c todo : todo <> [] -> (0 < length (wire c todo))%nat.
Proof. destruct todo as [|a t]; [done |]. intros _. cbn. destruct (_ =? -1); cbn; rewrite !length_app; unfold Keyspace.crlf; cbn; lia. Qed.

Lemma stopped_trim r Y rest c pos : Stopped r Y rest c pos ->
  exists todo, let c' := if pos =? 0 then c else set_querybuf (sdsrange (querybuf c) pos (-1)) c in
    InRequest r c' todo /\ small_args todo /\ querybuf c' ++ rest = wire c' todo ++ Y /\
    (if todo is [] then zlen (querybuf c') <= PROTO_INLINE_MAX_SIZE else Small c' /\ rest <> []).
Proof.
  intros (todo & HI & Hs & Hpos & E & Hend). exists todo. destruct (Z.eqb_spec pos 0) as [-> | Hp].
  - cbn [Z.to_nat] in E. rewrite drop_0 in E. split; [done |]. split; [done |]. split; [done |]. unfold Small. destruct todo; [done | by rewrite Z.sub_0_r in Hend].
  - rewrite sdsrange_drop by lia. cbn [querybuf set_querybuf]. split; [done |]. split; [done |]. split; [done |]. unfold Small, Starved in *. cbn. rewrite length_drop.
    destruct todo; [lia |]. replace (Z.of_nat (length (querybuf c) - Z.to_nat pos)) with (zlen (querybuf c) - pos) by lia. done.
Qed.

Lemma multibulk_stream c (w : W) r rs rest : request_ok r -> Sync c (r :: rs) rest -> reqtype c = PROTO_REQ_MULTIBULK -> querybuf c <> [] -> Room c 0 ->
  exists c' got, processMultibulkBuffer c w = Some (c', w, got) /\ quiet c' /\
    (if got : bool then argv c' = r /\ querybuf c' ++ rest = stream rs /\ zlen (querybuf c') < zlen (querybuf c) /\ zlen (querybuf c') <= PROTO_INLINE_MAX_SIZE
     else Sync c' (r :: rs) rest /\ Small c' /\ rest <> []).
Proof.
  intros Hr HS Ht Hne HR. unfold processMultibulkBuffer.
  assert (Hloop : forall c1 pos todo, InRequest r c1 todo -> todo <> [] -> small_args todo -> 0 <= pos <= zlen (querybuf c1) -> Room c1 pos ->
    drop (Z.to_nat pos) (querybuf c1) ++ rest = wire c1 todo ++ stream rs -> length (querybuf c1) = length (querybuf c) ->
    exists c' got, (if negb (multibulklen c1 >? 0) then None
        else '(c, w, pos, err) ← bulk_loop (S (Z.to_nat (multibulklen c1))) c1 w pos;
          if err : bool then Some (c, w, false)
          else let c := if pos =? 0 then c else set_querybuf (sdsrange (querybuf c) pos (-1)) c in Some (c, w, multibulklen c =? 0)) = Some (c', w, got) /\ quiet c' /\
      (if got : bool then argv c' = r /\ querybuf c' ++ rest = stream rs /\ zlen (querybuf c') < zlen (querybuf c) /\ zlen (querybuf c') <= PROTO_INLINE_MAX_SIZE
       else Sync c' (r :: rs) rest /\ Small c' /\ rest <> [])).
  { intros c1 pos todo HI Hn Hs Hpos HR1 E Hlen. pose proof HI as (_ & _ & _ & Hm & _). rewrite Hm. assert (0 < zlen todo) by (destruct todo; [done | cbn [length]; lia]).
    rewrite Z.gtb_ltb. zguard. cbn [negb]. destruct (bulk_loop_stream (S (Z.to_nat (zlen todo))) todo c1 w pos r (stream rs) rest) as (c2 & pos2 & -> & Hst); [lia | done.. |].
    cbn [mbind option_bind]. destruct (stopped_trim _ _ _ _ _ Hst) as (todo2 & HI2 & Hs2 & E2 & Hend). set (c3 := if pos2 =? 0 then c2 else _) in *. clearbody c3.
    eexists c3, _. split; [reflexivity |]. pose proof HI2 as (Hq & _ & Hav & Hm2 & _). split; [done |]. rewrite Hm2. destruct todo2 as [|a t].
    - cbn [length Z.of_nat Z.eqb]. rewrite app_nil_r in Hav. split; [done |]. split; [done |]. split; [|done].
      apply (f_equal length) in E, E2. rewrite !length_app, length_drop in E. rewrite !length_app in E2. cbn [wire length] in E2. pose proof (wire_nonempty c1 todo Hn). lia.
    - rewrite (proj2 (Z.eqb_neq _ 0)) by (cbn [length]; lia). split; [|done]. by eapply Within. }
  destruct HS as [Hq Hav Hm Hb Hrt E | r' rs' todo [= <- <-] HI Hn Hs E].
  - assert (Hsz : zlen (querybuf c) <= PROTO_INLINE_MAX_SIZE) by (destruct HR as [HR | (_ & HR & _)]; [done | unfold PROTO_MBULK_BIG_ARG in HR; lia]).
    destruct (multibulk_count_stream c w r (stream rs) rest Hr Hm Hav E Hsz) as [(-> & Hlt & Hrest) | (pos & -> & Hpos & E')]; cbn [mbind option_bind].
    + exists c, false. split; [done |]. split; [done |]. split; [by apply Between; try done; right |]. split; [|done]. unfold Small, Starved. by rewrite Hb.
    + destruct Hr as [Hr1 Hr2]. apply (Hloop _ _ r); [| intros ->; cbn in Hr1; lia | done | done | by left | | done].
      * split; [done |]. split; [done |]. cbn. rewrite Hav. split; [done |]. split; [done | by left].
      * cbn [querybuf set_bulk]. rewrite E'. f_equal. unfold wire. cbn. rewrite Hb. by destruct r.
  - pose proof HI as (_ & _ & _ & Hm & _). unfold multibulk_count. rewrite (proj2 (Z.eqb_neq (multibulklen c) 0)) by (rewrite Hm; destruct todo; [done | cbn [length]; lia]).
    cbn [mbind option_bind]. apply (Hloop c 0 todo); [done | done | done | lia | done | | done]. cbn [Z.to_nat]. by rewrite drop_0.
Qed.

(** ** Streams of requests *)

(** The requests executed one after the other, without pause, flag or failure. *)
Fixpoint serve (rs : list (list (list Z))) (w : W) : option W :=
  match rs with
  | [] => Some w
  | r :: rs =>
      if clientsArePaused w then None
      else
        '(w, e) ← process r w;
        match e with mk_effect true false false false false => serve rs w | _ => None end
  end.

Lemma serve_cons r rs w w' : serve (r :: rs) w = Some w' ->
  clientsArePaused w = false /\ exists w1, process r w = Some (w1, executed) /\ serve rs w1 = Some w'.
Proof.
  cbn. destruct (clientsArePaused w); [done |]. destruct (process r w) as [[w1 [[] [] [] [] []]] |]; try done. cbn. eauto.
Qed.

Lemma stream_head r rs rest q : q ++ rest = stream (r :: rs) -> q <> [] -> at_ q 0 = 42.
Proof. destruct q as [|c q]; [done |]. intros E _. by injection E as -> _. Qed.

Lemma set_reqtype_sync c rs rest : Sync c rs rest -> querybuf c <> [] -> reqtype c = 0 -> Sync (set_reqtype PROTO_REQ_MULTIBULK c) rs rest.
Proof.
  intros [Hq Hav Hm Hb Hrt E | r rs' todo -> (Hq & Ht & _) Hn Hs E] Hne H0; [|by rewrite H0 in Ht]. apply Between; try done. by right.
Qed.

Lemma process_stream fuel : forall rs c w rest w', Forall request_ok rs -> Sync c rs rest -> Room c 0 -> zlen (querybuf c) < Z.of_nat fuel -> serve rs w = Some w' ->
  exists rs1 rs2 c' w1, rs = rs1 ++ rs2 /\ serve rs2 w1 = Some w' /\ processInputBuffer fuel c w = Some (c', w1) /\ Sync c' rs2 rest /\ Small c' /\ (rs2 <> [] -> rest <> []).
Proof.
  induction fuel as [|fuel IH]; intros rs c w rest w' Hok HS HR Hf Hw; [lia |]. cbn [processInputBuffer].
  destruct (Z.eqb_spec (zlen (querybuf c)) 0) as [H0 | H0].
  { exists [], rs, c, w. repeat (split; [done |]). destruct (querybuf c) eqn:Hq; [|done]. split.
    - unfold Small, Starved. rewrite Hq. destruct HS as [_ _ _ -> _ _ | ? ? ? ? (_ & _ & _ & _ & [-> | (a & t & _ & ->)]) _ _ _]; [done | done |]. cbn. destruct (_ =? -1); lia.
    - intros Hne ->. destruct HS as [_ _ _ _ _ E | r rs' todo _ _ Hn _ E]; rewrite Hq in E; [by destruct rs |].
      apply (f_equal length) in E. rewrite !length_app in E. pose proof (wire_nonempty c todo Hn). cbn [app length] in E. lia. }
  assert (Hne : querybuf c <> []) by (by intros E; rewrite E in H0).
  destruct rs as [|r rs]. { exfalso. destruct HS as [_ _ _ _ _ E | ? ? ? [=] _ _ _ _]. destruct (querybuf c); done. }
  destruct (serve_cons _ _ _ _ Hw) as (Hp & w1 & Hcmd & Hw1). rewrite Hp. apply Forall_cons in Hok as [Hr Hok].
  assert (Hq : quiet c) by (destruct HS as [Hq _ _ _ _ _ | ? ? ? ? (Hq & _) _ _ _]; done). pose proof Hq as (Hq1 & Hq2 & Hq3). rewrite Hq1, Hq3.
  assert (Hparse : exists c0, Sync c0 (r :: rs) rest /\ reqtype c0 = PROTO_REQ_MULTIBULK /\ querybuf c0 = querybuf c /\ Room c0 0 /\ parse_request c w = processMultibulkBuffer c0 w).
  { unfold parse_request. destruct (Z.eqb_spec (reqtype c) 0) as [Ht | Ht].
    - assert (E : querybuf c ++ rest = stream (r :: rs)) by (destruct HS as [_ _ _ _ _ E | ? ? ? ? (_ & Ht' & _) _ _ _]; [done | by rewrite Ht in Ht']).
      rewrite (stream_head _ _ _ _ E Hne). cbn [Z.eqb Pos.eqb]. exists (set_reqtype PROTO_REQ_MULTIBULK c). split; [by apply set_reqtype_sync |]. done.
    - assert (Ht2 : reqtype c = PROTO_REQ_MULTIBULK) by (destruct HS as [_ _ _ _ [|[? _]] _ | ? ? ? ? (_ & ? & _) _ _ _]; done).
      exists c. rewrite Ht2. done. }
  destruct Hparse as (c0 & HS0 & Ht0 & Hq0 & HR0 & ->).
  destruct (multibulk_stream c0 w r rs rest Hr HS0 Ht0 ltac:(by rewrite Hq0) HR0) as (c1 & got & -> & Hqc & Hgot). cbn [mbind option_bind]. destruct got; cbn [negb].
  - destruct Hgot as (Hav & E & Hlt & Hsz). destruct Hr as [Hr _]. rewrite Hav, (proj2 (Z.eqb_neq _ 0)), Hcmd by lia. cbn [mbind option_bind executed ok e_close e_jump e_blocked gone].
    unfold resetClient. cbn [jump set_flags orb]. 
    set (c2 := set_argv [] _). destruct (IH rs c2 w1 rest w') as (rs1 & rs2 & c' & w2 & -> & H1 & H2 & H3 & H4 & H5).
    + done.
    + destruct Hqc as (Hc1 & Hc2 & Hc3). apply Between; try done; [|by left]. split; [|done]. cbn. by rewrite Hc1.
    + by left.
    + cbn. rewrite Hq0 in Hlt. lia.
    + done.
    + exists (r :: rs1), rs2, c', w2. split; [done |]. split; [done |]. by split.
  - destruct Hgot as (HS1 & Hsm & Hrest). exists [], (r :: rs), c1, w. by repeat (split; [done |]).
Qed.

(** ** Reads of any size *)

(** A schedule of reads: the sizes the socket delivers, as long as there is
    something to read. *)
Fixpoint reads (max_querybuf : Z) (ns : list Z) (c : client) (w : W) (pending : list Z) : option (option client * W * list Z) :=
  match ns, pending with
  | [], _ | _, [] => Some (Some c, w, pending)
  | n :: ns, _ =>
      '(oc, w, pending) ← readQueryFromClient max_querybuf n c w pending;
      match oc with None => Some (None, w, pending) | Some c => reads max_querybuf ns c w pending end
  end.

Definition fresh_client : client := mk_client [] 0 0 (-1) [] false false false.

Lemma sync_append c rs rest data : Sync c rs (data ++ rest) -> Sync (set_querybuf (querybuf c ++ data) c) rs rest.
Proof.
  intros [Hq Hav Hm Hb Hrt E | r rs' todo -> HI Hn Hs E]; rewrite app_assoc in E.
  - apply Between; try done. destruct Hrt as [? | [? Hne]]; [by left | right]. split; [done |]. cbn. by destruct (querybuf c).
  - by eapply (Within _ _ _ r rs' todo).
Qed.

Lemma sync_bulklen c rs rest : Sync c rs rest -> -1 <= bulklen c /\ (bulklen c <> -1 -> 0 <= bulklen c <= 512 * 1024 * 1024 /\ reqtype c = PROTO_REQ_MULTIBULK /\ multibulklen c <> 0).
Proof.
  intros [_ _ _ -> _ _ | r rs' todo _ (_ & Ht & _ & Hm & [-> | (a & t & -> & ->)]) _ Hs _]; [lia | lia |]. apply Forall_cons in Hs as [Ha _].
  split; [lia |]. intros _. split; [lia |]. split; [done |]. rewrite Hm. cbn [length]. lia.
Qed.

(** How much is read next leaves room in the buffer. *)
Lemma readlen_room c rs rest : Sync c rs rest -> Small c ->
  1 <= readlen c <= PROTO_IOBUF_LEN /\ forall n, 0 <= n <= readlen c ->
    zlen (querybuf c) + n <= PROTO_INLINE_MAX_SIZE \/ (PROTO_MBULK_BIG_ARG <= bulklen c /\ zlen (querybuf c) + n <= bulklen c + 2).
Proof.
  intros HS Hsm. destruct (sync_bulklen _ _ _ HS) as [Hb1 Hb2]. unfold Small, Starved in Hsm. unfold readlen, PROTO_IOBUF_LEN, PROTO_INLINE_MAX_SIZE, PROTO_MBULK_BIG_ARG in *.
  destruct (Z.eqb_spec (bulklen c) (-1)) as [E | E].
  - cbn [negb]. rewrite andb_false_r. cbn [andb]. split; [lia |]. intros n Hn. left. lia.
  - destruct (Hb2 E) as (Hb & -> & Hm). rewrite (proj2 (Z.eqb_neq _ _) Hm). cbn [Z.eqb Pos.eqb negb andb PROTO_REQ_MULTIBULK]. rewrite Z.geb_leb. destruct (Z.leb_spec (1024 * 32) (bulklen c)).
    + rewrite uwrap_small, swrap_small by lia. destruct (Z.ltb_spec (bulklen c + 2 - zlen (querybuf c)) (1024 * 16)); split; try lia; intros n Hn; right; lia.
    + split; [lia |]. intros n Hn. left. lia.
Qed.

Lemma sync_done c : Sync c [] [] -> c = fresh_client.
Proof.
  intros [(H1 & H2 & H3) Hav Hm Hb Hrt E | ? ? ? [=] _ _ _ _]. rewrite app_nil_r in E. destruct c; cbn in *. subst. by destruct Hrt as [-> | [_ ?]].
Qed.

Lemma reads_stream maxq ns : forall rs c w rest w', 512 * 1024 * 1024 + 65536 <= maxq -> Forall (fun n => 1 <= n) ns -> (length rest <= length ns)%nat ->
  Forall request_ok rs -> Sync c rs rest -> Small c -> (rs <> [] -> rest <> []) ->
  serve rs w = Some w' -> reads maxq ns c w rest = Some (Some fresh_client, w', []).
Proof.
  induction ns as [|n ns IH]; intros rs c w rest w' Hmax Hns Hlen Hok HS Hsm Hrest Hw.
  all: destruct rest as [|b rest]; [destruct rs; [|by destruct Hrest]; injection Hw as <-; by rewrite (sync_done c HS) |].
  { cbn in Hlen. lia. }
  clear Hrest. apply Forall_cons in Hns as [Hn Hns]. cbn [reads].
  destruct (readlen_room _ _ _ HS Hsm) as [Hrl Hroom]. unfold readQueryFromClient. rewrite (uwrap_small 64) by (unfold PROTO_IOBUF_LEN in *; lia).
  set (pending := b :: rest) in *. assert (Hpl : 0 < zlen pending) by (cbn; lia). set (k := Z.to_nat _).
  assert (Hk : (0 < k)%nat /\ Z.of_nat k <= readlen c /\ (k <= length pending)%nat) by lia. clearbody k. rewrite (proj2 (Nat.eqb_neq k 0)) by lia.
  assert (Hq : zlen (querybuf c ++ take k pending) = zlen (querybuf c) + Z.of_nat k) by (rewrite length_app, length_take; lia).
  destruct (sync_bulklen _ _ _ HS) as [Hb1 Hb2]. specialize (Hroom (Z.of_nat k) ltac:(lia)).
  cbn [querybuf set_querybuf]. rewrite Hq, Z.gtb_ltb, (proj2 (Z.ltb_ge maxq _)) by (destruct Hroom as [|[? ?]]; [unfold PROTO_INLINE_MAX_SIZE in *; lia | destruct (Z.eq_dec (bulklen c) (-1)); lia]).
  rewrite <- (take_drop k pending) in HS. apply sync_append in HS. set (c1 := set_querybuf _ c) in *.
  destruct (process_stream (S (length (querybuf c ++ take k pending))) rs c1 w (drop k pending) w') as (rs1 & rs2 & c' & w1 & -> & Hw1 & Hp & HS' & Hsm' & Hrest'); [done | done | | cbn; lia | done |].
  { unfold Room. cbn [querybuf bulklen c1 set_querybuf]. rewrite Hq. destruct Hroom as [|[? ?]]; [by left | by right]. }
  rewrite Hp. cbn [mbind option_bind]. apply Forall_app in Hok as [_ Hok]. apply (IH rs2); [done | done | rewrite length_drop; cbn [length] in *; lia | done | done | done | done | done].
Qed.

End Stream.

(** ** Arbitrary input *)

(** What the parser relies on: a request that is not acknowledged closes the
    connection, and no command frees the client it serves. *)
Class ProcessorLaws (W : Type) {P : Processor W} {K : Worker W} := {
  unacknowledged_closes : forall r w w' e, process r w = Some (w', e) -> (ok e = true \/ e_close e = true) /\ gone e = false;
  again_serves : forall r w w' e, proc_again r w = Some (w', e) -> gone e = false
}.

(** The parser's own invariant. *)
Record Wf (c : client) : Prop := {
  wf_jump : jump c = false;
  wf_type : reqtype c = 0 \/ reqtype c = PROTO_REQ_INLINE \/ reqtype c = PROTO_REQ_MULTIBULK;
  wf_bulk : -1 <= bulklen c <= 512 * 1024 * 1024;
  wf_count : 0 <= multibulklen c <= 1024 * 1024;
  wf_zero : multibulklen c = 0 -> argv c = [] /\ bulklen c = -1;
  wf_within : multibulklen c <> 0 -> reqtype c = PROTO_REQ_MULTIBULK;
  wf_star : reqtype c = PROTO_REQ_MULTIBULK -> multibulklen c = 0 -> at_ (querybuf c) 0 = 42
}.

Lemma strchr_bound s c n : strchr s c = Some n -> 0 <= n < zlen s.
Proof.
  revert n. induction s as [|x s IH]; intros n; cbn [strchr]; [done |]. destruct (x =? c); [intros [= <-]; cbn [length]; lia |]. destruct (x =? 0); [done |].
  destruct (strchr s c) as [m |]; [|done]. intros [= <-]. specialize (IH m eq_refl). cbn [length]. lia.
Qed.

Lemma reset_wf c : jump c = false -> Wf (resetClient c).
Proof. intros H. unfold resetClient. rewrite H. split; cbn; try done; try lia; auto. Qed.

Section Safety.
Context {W : Type} {P : Processor W}.

(** The loop over the arguments: in bounds, and consuming when it ends. *)
Record Loop (c : client) (pos : Z) : Prop := {
  lp_jump : jump c = false;
  lp_type : reqtype c = PROTO_REQ_MULTIBULK;
  lp_bulk : -1 <= bulklen c <= 512 * 1024 * 1024;
  lp_count : 0 <= multibulklen c <= 1024 * 1024;
  lp_zero : multibulklen c = 0 -> bulklen c = -1;
  lp_pos : 0 <= pos <= zlen (querybuf c)
}.

Lemma bulk_length_safe c (w : W) pos : Loop c pos -> multibulklen c <> 0 -> exists c' w' f, bulk_length c w pos = (c', w', f) /\ jump c' = false /\
  match f with
  | LReturn => close_after_reply c' = true
  | LBreak => c' = c
  | LGoto pos' => Loop c' pos' /\ multibulklen c' = multibulklen c /\ 0 <= bulklen c' /\ zlen (querybuf c') - pos' <= zlen (querybuf c) - pos
  end.
Proof.
  intros [Hj Ht Hb Hc Hz Hp] Hm. unfold bulk_length. destruct (Z.eqb_spec (bulklen c) (-1)) as [E | E].
  2: { eexists c, w, _. split; [reflexivity |]. repeat split; (done || lia). }
  destruct (strchr _ 13) as [n |] eqn:Hn.
  2: { destruct (_ >? _); eexists _, _, _; (split; [reflexivity |]); done. }
  apply strchr_bound in Hn. rewrite length_drop in Hn. rewrite Z.gtb_ltb. destruct (Z.ltb_spec (zlen (querybuf c) - 2) (pos + n)); [by eexists _, _, _ |].
  destruct (negb _); [by eexists _, _, _ |]. destruct (string2ll _) as [ll |]; [|by eexists _, _, _]. destruct ((ll <? 0) || (ll >? 512 * 1024 * 1024)) eqn:Hll; [by eexists _, _, _ |].
  zbool. destruct (ll >=? _); eexists _, _, _; (split; [reflexivity |]); (split; [done |]); cbn [multibulklen bulklen querybuf set_bulk set_querybuf].
  - rewrite sdsrange_drop, length_drop by lia. repeat split; cbn [jump reqtype multibulklen bulklen querybuf set_bulk set_querybuf]; try done; try lia.
  - repeat split; cbn [jump reqtype multibulklen bulklen querybuf set_bulk set_querybuf]; try done; try lia.
Qed.

Lemma bulk_argument_safe c pos : Loop c pos -> multibulklen c <> 0 -> 0 <= bulklen c ->
  bulk_argument c pos = None \/ exists c' pos', bulk_argument c pos = Some (c', pos') /\ Loop c' pos' /\ multibulklen c' = multibulklen c - 1 /\
    zlen (querybuf c') - pos' < zlen (querybuf c) - pos.
Proof.
  intros [Hj Ht Hb Hc Hz Hp] Hm H0. unfold bulk_argument. destruct (Z.ltb_spec (zlen (querybuf c) - pos) (bulklen c + 2)); [by left | right].
  destruct (_ && _) eqn:Hopt; eexists _, _; (split; [reflexivity |]); cbn [multibulklen querybuf set_bulk set_querybuf set_argv].
  - zbool. split; [split; cbn; try done; lia |]. split; [done |]. cbn [length]. lia.
  - split; [split; cbn [jump reqtype bulklen multibulklen querybuf set_bulk set_querybuf set_argv]; try done; lia |]. split; [done |]. lia.
Qed.

Lemma bulk_loop_safe fuel : forall c (w : W) pos, Loop c pos -> multibulklen c < Z.of_nat fuel ->
  exists c' w' pos' err, bulk_loop fuel c w pos = Some (c', w', pos', err) /\ jump c' = false /\
    (if err : bool then close_after_reply c' = true
     else Loop c' pos' /\ zlen (querybuf c') - pos' <= zlen (querybuf c) - pos /\
       (multibulklen c' = 0 -> multibulklen c <> 0 -> zlen (querybuf c') - pos' < zlen (querybuf c) - pos)).
Proof.
  induction fuel as [|fuel IH]; intros c w pos HL Hf. { pose proof (lp_count _ _ HL). lia. }
  cbn [bulk_loop]. destruct (Z.eqb_spec (multibulklen c) 0) as [H0 | H0].
  { eexists _, _, _, _. split; [reflexivity |]. split; [apply (lp_jump _ _ HL) |]. split; [done |]. split; [lia | done]. }
  destruct (bulk_length_safe c w pos HL H0) as (c1 & w1 & f & -> & Hj & Hf1). destruct f as [| | pos1].
  - by eexists _, _, _, _.
  - subst c1. eexists _, _, _, _. split; [reflexivity |]. split; [done |]. split; [done |]. split; [lia | done].
  - destruct Hf1 as (HL1 & Hm1 & Hb1 & Hlen1).
    assert (H1 : multibulklen c1 <> 0) by lia. destruct (bulk_argument_safe c1 pos1 HL1 H1 Hb1) as [-> | (c2 & pos2 & -> & HL2 & Hm2 & Hlen2)].
    + eexists _, _, _, _. split; [reflexivity |]. split; [done |]. split; [done |]. split; [lia |]. lia.
    + destruct (IH c2 w1 pos2 HL2 ltac:(lia)) as (c3 & w3 & pos3 & err & -> & Hj3 & H3). eexists _, _, _, _. split; [reflexivity |]. split; [done |].
      destruct err; [done |]. destruct H3 as (HL3 & Hlen3 & _). split; [done |]. lia.
Qed.

(** What a parsing routine leaves. *)
Definition Parsed (c : client) (r : option (client * W * bool)) : Prop :=
  exists c' w' got, r = Some (c', w', got) /\ jump c' = false /\ (close_after_reply c' = false -> close_after_reply c = false) /\
    (if got : bool then zlen (querybuf c') < zlen (querybuf c) else close_after_reply c' = true \/ Wf c').

Lemma multibulk_safe c (w : W) : Wf c -> reqtype c = PROTO_REQ_MULTIBULK -> close_after_reply c = false -> Parsed c (processMultibulkBuffer c w).
Proof.
  intros HW Ht Hcl. pose proof (wf_jump _ HW) as Hj. unfold processMultibulkBuffer.
  assert (Hloop : forall c1 w1 pos, Loop c1 pos -> multibulklen c1 <> 0 -> querybuf c1 = querybuf c ->
    Parsed c (if negb (multibulklen c1 >? 0) then None
        else '(c, w, pos, err) ← bulk_loop (S (Z.to_nat (multibulklen c1))) c1 w1 pos;
          if err : bool then Some (c, w, false)
          else let c := if pos =? 0 then c else set_querybuf (sdsrange (querybuf c) pos (-1)) c in Some (c, w, multibulklen c =? 0))).
  { intros c1 w1 pos HL Hm Hq. pose proof (lp_count _ _ HL). pose proof (lp_pos _ _ HL). rewrite Z.gtb_ltb. zguard. cbn [negb].
    destruct (bulk_loop_safe (S (Z.to_nat (multibulklen c1))) c1 w1 pos HL ltac:(lia)) as (c2 & w2 & pos2 & err & -> & Hj2 & H2). cbn [mbind option_bind].
    destruct err; [exists c2, w2, false; auto |]. destruct H2 as (HL2 & Hlen & Hlt). set (c3 := if pos2 =? 0 then c2 else _).
    assert (H3 : zlen (querybuf c3) = zlen (querybuf c2) - pos2 /\ multibulklen c3 = multibulklen c2 /\ bulklen c3 = bulklen c2 /\ reqtype c3 = reqtype c2 /\ jump c3 = jump c2).
    { pose proof (lp_pos _ _ HL2). unfold c3. destruct (Z.eqb_spec pos2 0); [repeat split; lia |]. cbn. rewrite sdsrange_drop, length_drop by lia. repeat split; lia. }
    destruct H3 as (Hq3 & Hm3 & Hb3 & Ht3 & Hj3). clearbody c3. exists c3, w2, (multibulklen c3 =? 0). split; [done |]. split; [by rewrite Hj3 |]. split; [done |].
    rewrite Hq in *. destruct (Z.eqb_spec (multibulklen c3) 0); [rewrite Hm3 in *; specialize (Hlt ltac:(done) Hm); lia |]. right.
    destruct HL2. split; rewrite ?Hm3, ?Hb3, ?Ht3, ?Hj3; try done; auto; intros; by rewrite Hm3 in *. }
  unfold multibulk_count. destruct (Z.eqb_spec (multibulklen c) 0) as [Hm | Hm].
  - destruct (wf_zero _ HW Hm) as [Hav Hb]. rewrite Hav. cbn [length Z.of_nat Z.eqb negb]. destruct (strchr _ 13) as [n |] eqn:Hn.
    2: { destruct (_ >? _); cbn [mbind option_bind]; eexists _, _, _; (split; [reflexivity |]); (split; [done |]); (split; [done |]); auto. }
    apply strchr_bound in Hn. rewrite Z.gtb_ltb. destruct (Z.ltb_spec (zlen (querybuf c) - 2) n); [cbn; exists c, w, false; auto |].
    rewrite (wf_star _ HW Ht Hm). cbn [Z.eqb Pos.eqb negb]. destruct (string2ll _) as [ll |]; [|cbn [mbind option_bind]; eexists _, _, _; (split; [reflexivity |]); auto].
    destruct (ll >? 1024 * 1024) eqn:Hll; cbn [mbind option_bind]; [eexists _, _, _; (split; [reflexivity |]); auto |].
    destruct (Z.leb_spec ll 0); cbn [mbind option_bind].
    + eexists _, _, true. split; [reflexivity |]. split; [done |]. split; [done |]. cbn [querybuf set_querybuf]. rewrite sdsrange_drop, length_drop by lia. lia.
    + zbool. apply Hloop; [split; cbn; try done; lia | cbn; lia | done].
  - cbn [mbind option_bind]. destruct HW. apply Hloop; [split; try done; lia | done | done].
Qed.

Lemma inline_safe c (w : W) : Wf c -> reqtype c = PROTO_REQ_INLINE -> close_after_reply c = false -> Parsed c (processInlineBuffer c w).
Proof.
  intros HW Ht Hcl. pose proof (wf_jump _ HW) as Hj. unfold processInlineBuffer. destruct (strchr _ 10) as [n |] eqn:Hn.
  2: { destruct (_ >? _); eexists _, _, _; (split; [reflexivity |]); auto. }
  apply strchr_bound in Hn. set (nl := if _ && _ then n - 1 else n). assert (Hnl : 0 <= nl) by (unfold nl; destruct (_ && _) eqn:?; zbool; lia). clearbody nl.
  destruct (sdssplitargs_total (slice (querybuf c) 0 nl)) as [r ->]. cbn [mbind option_bind]. destruct r; eexists _, _, _; (split; [reflexivity |]); [|auto].
  split; [done |]. split; [done |]. cbn [querybuf set_argv set_querybuf]. rewrite sdsrange_drop, length_drop by lia. lia.
Qed.

Lemma parse_safe c (w : W) : Wf c -> close_after_reply c = false -> querybuf c <> [] -> Parsed c (parse_request c w).
Proof.
  intros HW Hcl Hne. unfold parse_request. destruct (Z.eqb_spec (reqtype c) 0) as [H0 | H0].
  - assert (Hm : multibulklen c = 0) by (destruct (Z.eq_dec (multibulklen c) 0) as [|Hm]; [done |]; by rewrite (wf_within _ HW Hm) in H0).
    destruct (wf_zero _ HW Hm), HW. destruct (Z.eqb_spec (at_ (querybuf c) 0) 42); cbn [reqtype set_reqtype Z.eqb Pos.eqb PROTO_REQ_INLINE PROTO_REQ_MULTIBULK].
    + apply (multibulk_safe (set_reqtype 2 c)); [|done | done]. split; cbn; auto; tauto.
    + apply (inline_safe (set_reqtype 1 c)); [|done | done]. split; cbn; auto; tauto.
  - destruct (wf_type _ HW) as [? | [E | E]]; [done | |]; rewrite E; cbn [Z.eqb Pos.eqb PROTO_REQ_INLINE PROTO_REQ_MULTIBULK].
    + by apply inline_safe.
    + by apply multibulk_safe.
Qed.

Context {K : Worker W} {L : ProcessorLaws W}.

(** The command processor failed on a request it was handed. *)
Definition processor_failed : Prop := exists r (w : W), r <> [] /\ (process r w = None \/ proc_again r w = None).

(** The client is between workers with its request, or closing, or the parser can
    go on. *)
Definition Alive (c : client) : Prop := if jump c then argv c <> [] else close_after_reply c = true \/ Wf c.

Lemma alive_reset c : jump c = false -> Alive (resetClient c) /\ querybuf (resetClient c) = querybuf c.
Proof. intros Hj. pose proof (reset_wf c Hj) as HW. unfold resetClient, Alive in *. rewrite Hj in *. split; [|done]. cbn [jump set_argv set_reqtype set_bulk]. rewrite Hj. by right. Qed.

Lemma alive_executed c e : argv c <> [] -> ok e = true \/ e_close e = true ->
  let c' := set_flags (close_after_reply c || e_close e) (e_jump e) (e_blocked e) c in let c'' := if ok e then resetClient c' else c' in Alive c'' /\ querybuf c'' = querybuf c.
Proof.
  intros Hav Hok. cbv zeta. set (c' := set_flags _ _ _ c). assert (Hj : jump c' = e_jump e) by done. destruct (e_jump e) eqn:He.
  - unfold resetClient. rewrite Hj. destruct (ok e); (split; [|done]); unfold Alive; by rewrite Hj.
  - destruct (ok e); [by destruct (alive_reset c' Hj) |]. split; [|done]. unfold Alive. rewrite Hj. left. destruct Hok as [|Hok]; [done |]. cbn. by rewrite Hok, orb_true_r.
Qed.

Lemma process_safe fuel : forall c (w : W), jump c = false -> Alive c -> zlen (querybuf c) < Z.of_nat fuel ->
  (exists c' w', processInputBuffer fuel c w = Some (c', w') /\ Alive c') \/ processor_failed.
Proof.
  induction fuel as [|fuel IH]; intros c w Hj HA Hf; [lia |]. cbn [processInputBuffer]. destruct (Z.eqb_spec (zlen (querybuf c)) 0) as [|H0]; [left; by eexists _, _ |].
  destruct (clientsArePaused w); [left; by eexists _, _ |]. destruct (blocked c); [left; by eexists _, _ |]. destruct (close_after_reply c) eqn:Hcl; [left; by eexists _, _ |].
  unfold Alive in HA. rewrite Hj in HA. destruct HA as [? | HW]; [congruence |]. destruct (parse_safe c w HW Hcl) as (c1 & w1 & got & -> & Hj1 & Hcl1 & Hgot); [by intros E; rewrite E in H0 |].
  cbn [mbind option_bind]. destruct got; cbn [negb]; [|left; eexists _, _; split; [done |]; unfold Alive; by rewrite Hj1].
  destruct (Z.eqb_spec (zlen (argv c1)) 0) as [|Hav].
  - destruct (alive_reset c1 Hj1) as [HA1 Hq]. apply IH; [by unfold resetClient; rewrite Hj1 | done | rewrite Hq; lia].
  - assert (Hne : argv c1 <> []) by (by intros E; rewrite E in Hav). destruct (process (argv c1) w1) as [[w2 e] |] eqn:Hp; [|right; exists (argv c1), w1; auto].
    cbn [mbind option_bind]. destruct (unacknowledged_closes _ _ _ _ Hp) as [Hok Hg]. destruct (alive_executed c1 e Hne Hok) as [HA2 Hq]. rewrite Hg. cbn [orb].
    set (c3 := if ok e then _ else _) in *. clearbody c3. destruct (jump c3) eqn:Hj3; [left; by eexists _, _ |]. apply IH; [done | done | rewrite Hq; lia].
Qed.

Lemma alive_append c data : jump c = false -> Alive c -> Alive (set_querybuf (querybuf c ++ data) c).
Proof.
  unfold Alive. cbn [jump set_querybuf]. intros -> [Hc | HW]; [by left | right]. destruct HW. split; cbn; auto. intros H1 H2. specialize (wf_star0 H1 H2). by destruct (querybuf c).
Qed.

Lemma jump_safe c (w : W) : jump c = true -> Alive c -> (exists c' w', worker_jump c w = Some (c', w') /\ Alive c') \/ processor_failed.
Proof.
  intros Hj HA. unfold Alive in HA. rewrite Hj in HA. unfold worker_jump, linkClientToEventloop. destruct (proc_again (argv c) w) as [[w1 e] |] eqn:Hp; [|right; exists (argv c), w; auto].
  cbn [mbind option_bind]. set (c1 := set_flags _ _ _ c). assert (Hj1 : jump c1 = e_jump e) by done. destruct (e_jump e) eqn:He; rewrite Hj1.
  - left. eexists _, _. split; [done |]. unfold Alive. by rewrite Hj1.
  - destruct (alive_reset c1 Hj1) as [HA1 _]. apply process_safe; [by unfold resetClient; rewrite Hj1 | done | lia].
Qed.

Lemma events_safe maxq evs : forall c (w : W) input, Alive c -> is_Some (client_events maxq evs c w input) \/ processor_failed.
Proof.
  induction evs as [|ev evs IH]; intros c w input HA; [by left; eexists |]. cbn [client_events]. destruct (jump c) eqn:Hj; (destruct ev as [n |]; [|]); try (by apply IH).
  - destruct (jump_safe c w Hj HA) as [(c' & w' & -> & HA') | ?]; [|by right]. by apply IH.
  - unfold readQueryFromClient. set (k := Z.to_nat _). clearbody k. destruct (k =? 0)%nat; [left; by eexists |]. destruct (_ >? maxq); [left; by eexists |].
    set (c1 := set_querybuf _ c). destruct (process_safe (S (length (querybuf c1))) c1 w Hj (alive_append c (take k input) Hj HA)) as [(c' & w' & -> & HA') | ?]; [lia | |by right].
    cbn [mbind option_bind]. by apply IH.
Qed.

End Safety.
(** ** Inline requests *)

Lemma quote_chars a : bytes_ok a -> Forall (fun c => 32 <= c <= 126) (quote a).
Proof.
  intros Ha. unfold quote, sdscatrepr. cbn [app]. constructor; [lia |]. apply Forall_app. split; [|by constructor]. apply Forall_concat, Forall_fmap.
  eapply Forall_impl; [exact Ha |]. intros b Hb. cbv beta in Hb. cbn [compose]. unfold compose, repr_byte, isprint, hex_char.
  assert (0 <= b / 16 < 16) by (split; [apply Z.div_pos; lia | apply Z.div_lt_upper_bound; lia]). assert (0 <= b mod 16 < 16) by (apply Z.mod_pos_bound; lia).
  destruct (_ || _) eqn:E1; [repeat constructor; try lia; apply orb_true_iff in E1 as [|]; zbool; lia |].
  destruct (b =? 10); [repeat constructor; lia |]. destruct (b =? 13); [repeat constructor; lia |]. destruct (b =? 9); [repeat constructor; lia |].
  destruct (b =? 7); [repeat constructor; lia |]. destruct (b =? 8); [repeat constructor; lia |].
  destruct (_ && _) eqn:E2; [zbool; repeat constructor; lia |]. repeat constructor; try lia; zcase; lia.
Qed.

Lemma quoted_line_chars args : Forall bytes_ok args -> Forall (fun c => 32 <= c <= 126) (quoted_line args).
Proof.
  induction args as [|a args IH]; [constructor |]. intros Ha. apply Forall_cons in Ha as [Ha Has]. pose proof (quote_chars a Ha). specialize (IH Has).
  destruct args; [done |]. change (quoted_line _) with (quote a ++ 32 :: quoted_line (l :: args)). apply Forall_app. split; [done |]. constructor; [lia | done].
Qed.

Lemma strchr_newline l t : Forall (fun c => c <> 10 /\ c <> 0) l -> strchr (l ++ 10 :: t) 10 = Some (zlen l).
Proof.
  induction 1 as [|c h [H1 H2] Hh IH]; [done |]. cbn [app strchr]. rewrite (proj2 (Z.eqb_neq c 10)), (proj2 (Z.eqb_neq c 0)), IH by done. cbn. f_equal. lia.
Qed.

Lemma at_app_end l x t : at_ (l ++ x :: t) (length l) = x.
Proof. unfold at_. rewrite app_nth2 by lia. by rewrite Nat.sub_diag. Qed.

Lemma slice_prefix l t : slice (l ++ t) 0 (zlen l) = l.
Proof. unfold slice. cbn [Z.to_nat]. by rewrite drop_0, Nat2Z.id, take_app_length. Qed.

Lemma filter_nonempty (args : list (list Z)) : Forall (fun a => a <> []) args -> List.filter (fun a => negb (zlen a =? 0)) args = args.
Proof. induction 1 as [|a args Ha _ IH]; [done |]. cbn [List.filter]. destruct a; [done |]. cbn [length]. rewrite (proj2 (Z.eqb_neq _ 0)) by lia. cbn [negb]. by rewrite IH. Qed.

Section Claims.
Context {W : Type} {P : Processor W}.

(** A fresh connection awaits the whole stream. *)
Lemma fresh_sync rs : Sync fresh_client rs (stream rs) /\ Small fresh_client /\ (rs <> [] -> stream rs <> []).
Proof. split; [by apply Between; try done; left |]. split; [done |]. intros Hne. by destruct rs. Qed.

(** C12. However the network cuts the stream, the server sees the requests as
    they were sent.  Any sequence of multi bulk requests within the protocol's
    limits, delivered in reads of any positive sizes, is executed request by
    request with exactly its arguments, and nothing is left in the buffer; the
    size checks of the parser never reject such a stream, and big arguments are
    taken without loss. *)
Theorem stream_in_pieces maxq ns rs w w' : 512 * 1024 * 1024 + 65536 <= maxq -> Forall (fun n => 1 <= n) ns -> (length (stream rs) <= length ns)%nat ->
  Forall request_ok rs -> serve rs w = Some w' ->
  reads maxq ns fresh_client w (stream rs) = Some (Some fresh_client, w', []).
Proof. intros Hmax Hns Hlen Hok Hw. destruct (fresh_sync rs) as (H1 & H2 & H3). by apply (reads_stream maxq ns rs). Qed.


(** C15. A line of non-empty arguments quoted by [sdscatrepr] and ended by CR LF is parsed
    to exactly those arguments, and the bytes after the line stay in the
    buffer. *)
Theorem inline_roundtrip args rest c w : Forall bytes_ok args -> Forall (fun a => a <> []) args -> querybuf c = quoted_line args ++ [13; 10] ++ rest ->
  processInlineBuffer c w = Some (set_argv args (set_querybuf rest c), w, true).
Proof.
  intros Hb Hne Hq. unfold processInlineBuffer. set (l := quoted_line args) in *. pose proof (quoted_line_chars args Hb) as Hl. fold l in Hl.
  assert (Hs : strchr (querybuf c) 10 = Some (zlen l + 1)).
  { rewrite Hq. replace (l ++ [13; 10] ++ rest) with ((l ++ [13]) ++ 10 :: rest) by (by rewrite <- app_assoc). rewrite strchr_newline; [rewrite length_app; f_equal; cbn; lia |].
    apply Forall_app. split; [eapply Forall_impl; [exact Hl |]; cbn; lia | repeat constructor; lia]. }
  rewrite Hs, (proj2 (Z.eqb_neq _ 0)) by lia. cbn [negb andb]. replace (zlen l + 1 - 1) with (zlen l) by lia. rewrite Nat2Z.id, Hq. cbn [app]. rewrite at_app_end. cbn [Z.eqb Pos.eqb].
  rewrite slice_prefix. unfold l. rewrite split_quoted_line by done. cbn [mbind option_bind]. fold l. rewrite filter_nonempty by done. do 4 f_equal.
  rewrite sdsrange_drop by lia. replace (Z.to_nat (zlen l + 2)) with (length l + 2)%nat by lia. by rewrite <- drop_drop, drop_app_length.
Qed.

(** C37. After an inline request ended by a bare line feed the parser skips one
    byte too many: the first byte of the next request is lost. *)
Theorem inline_lf_loses_byte line args x rest c w : Forall (fun b => b <> 10 /\ b <> 0 /\ b <> 13) line -> sdssplitargs line = Some (Some args) ->
  querybuf c = line ++ 10 :: x :: rest ->
  processInlineBuffer c w = Some (set_argv (List.filter (fun a => negb (zlen a =? 0)) args) (set_querybuf rest c), w, true).
Proof.
  intros Hl Ha Hq. unfold processInlineBuffer. rewrite Hq, strchr_newline by (eapply Forall_impl; [exact Hl |]; cbn; tauto).
  assert (Hcr : negb (zlen line =? 0) && (at_ (line ++ 10 :: x :: rest) (Z.to_nat (zlen line - 1)) =? 13) = false).
  { destruct (Z.eqb_spec (zlen line) 0) as [|H0]; [done |]. cbn [negb andb]. apply Z.eqb_neq. unfold at_. rewrite app_nth1 by lia.
    destruct (lookup_lt_is_Some_2 line (Z.to_nat (zlen line - 1))) as [b Hb]; [lia |]. rewrite (nth_lookup_Some _ _ _ _ Hb). apply (Forall_lookup_1 _ _ _ _ Hl Hb). }
  rewrite Hcr, slice_prefix, Ha. cbn [mbind option_bind]. do 4 f_equal. rewrite sdsrange_drop by lia.
  replace (Z.to_nat (zlen line + 2)) with (length line + 2)%nat by lia. by rewrite <- drop_drop, drop_app_length.
Qed.

(** A client waiting for the rest of a big argument. *)
Record Waiting (c : client) : Prop := {
  wt_type : reqtype c = PROTO_REQ_MULTIBULK; wt_count : multibulklen c <> 0;
  wt_big : PROTO_MBULK_BIG_ARG <= bulklen c <= 512 * 1024 * 1024;
  wt_rest : zlen (querybuf c) <= bulklen c + 2
}.

Definition missing (c : client) : Z := bulklen c + 2 - zlen (querybuf c).

Lemma waiting_readlen c : Waiting c -> readlen c = missing c `min` PROTO_IOBUF_LEN.
Proof.
  intros [Ht Hm Hb Hr]. unfold readlen, missing. unfold PROTO_MBULK_BIG_ARG, PROTO_IOBUF_LEN in *. rewrite Ht, (proj2 (Z.eqb_neq _ _) Hm), (proj2 (Z.eqb_neq (bulklen c) (-1))) by lia.
  cbn [Z.eqb Pos.eqb PROTO_REQ_MULTIBULK negb andb]. rewrite Z.geb_leb. zguard. rewrite (uwrap_small 32) by lia. rewrite (swrap_small 32) by lia. destruct (Z.ltb_spec (bulklen c + 2 - zlen (querybuf c)) (1024 * 16)); lia.
Qed.

(** While the clients are paused a read only fills the buffer. *)
Lemma paused_process fuel c w : clientsArePaused w = true -> processInputBuffer (S fuel) c w = Some (c, w).
Proof. intros Hp. cbn [processInputBuffer]. rewrite Hp. by destruct (_ =? 0). Qed.

(** C38. A client that is paused while its big argument arrives is disconnected.
    From a client waiting for the rest of a big argument, on a worker whose
    clients are paused, reads of any positive sizes fill the buffer up to the end
    of the argument without processing it; the next read then asks for no bytes,
    and its result 0 is taken for the end of the connection, although the rest of
    the stream is still in the socket. *)
Theorem paused_big_argument_closes maxq ns : forall c w pending, clientsArePaused w = true -> Waiting c -> bulklen c + 2 <= maxq -> Forall (fun n => 1 <= n) ns ->
  missing c < zlen pending -> missing c < zlen ns -> reads maxq ns c w pending = Some (None, w, drop (Z.to_nat (missing c)) pending).
Proof.
  induction ns as [|n ns IH]; intros c w pending Hp HW Hmax Hns Hpend Hlen; [destruct HW; unfold missing in Hlen; cbn [length] in Hlen; lia |].
  apply Forall_cons in Hns as [Hn Hns]. assert (Hm0 : 0 <= missing c) by (destruct HW; unfold missing; lia). assert (Hm1 : missing c < 2 ^ 30) by (destruct HW; unfold missing; lia).
  destruct pending as [|b rest]; [cbn [length] in Hpend; lia |]. remember (b :: rest) as pending eqn:Hpe. rewrite Hpe at 1. cbn [reads]. rewrite <- Hpe. clear Hpe b rest. unfold readQueryFromClient. rewrite (waiting_readlen c HW). unfold PROTO_IOBUF_LEN.
  rewrite (uwrap_small 64) by lia. set (k := Z.to_nat _). assert (Hk : Z.of_nat k = n `min` ((missing c `min` (1024 * 16)) `min` zlen pending)) by (unfold k; lia). clearbody k.
  destruct (Nat.eqb_spec k 0) as [-> | H0]; [replace (missing c) with 0 by lia; done |].
  set (c' := set_querybuf (querybuf c ++ take k pending) c). assert (Hq : zlen (querybuf c') = zlen (querybuf c) + Z.of_nat k) by (unfold c'; cbn; rewrite length_app, length_take; lia).
  assert (Hb : bulklen c' = bulklen c) by done. rewrite Z.gtb_ltb, (proj2 (Z.ltb_ge _ _)) by (unfold missing in *; lia). rewrite paused_process by done. cbn [mbind option_bind].
  assert (Hmis : missing c' = missing c - Z.of_nat k) by (unfold missing; rewrite Hb; lia).
  rewrite IH; [rewrite drop_drop; by replace (k + Z.to_nat (missing c'))%nat with (Z.to_nat (missing c)) by lia | done | | by rewrite Hb | done | rewrite length_drop; lia | cbn [length] in Hlen; lia].
  destruct HW. split; [done | done | by rewrite Hb | rewrite Hb; unfold missing in *; lia].
Qed.

End Claims.

(** ** A server that records its requests *)

Module Example_protocol.

#[local] Instance recorder : Processor (bool * list (list (list Z))) := {
  clientsArePaused w := w.1;
  emit _ w := w;
  process r w := Some ((w.1, w.2 ++ [r]), executed)
}.

Definition ping : list Z := [80; 73; 78; 71].
Definition two : list (list (list Z)) := [[ping]; [[71; 69; 84]; [107]]].

Lemma stream_in_pieces_witness :
  reads 1073741824 (replicate 40 3) fresh_client (false, []) (stream two) = Some (Some fresh_client, (false, two), []).
Proof.
  apply (stream_in_pieces 1073741824 (replicate 40 3) two (false, []) (false, two)).
  - lia.
  - repeat constructor; lia.
  - vm_compute. lia.
  - repeat constructor; cbn; lia.
  - reflexivity.
Defined.

(** Three workers: a request jumps to the next one until it has been on all. *)
#[local] Instance hopper : Processor nat := { clientsArePaused _ := false; emit _ w := w; process _ _ := Some (2%nat, mk_effect true false true false false) }.
#[local] Instance hopper_worker : Worker nat := { proc_again _ w := match w with S (S w) => Some (S w, mk_effect true false true false false) | _ => Some (O, executed) end }.
#[local] Instance hopper_laws : ProcessorLaws nat.
Proof. split; [intros r w w' e [= <- <-]; by split; [left |] | intros r w w' e; cbn; destruct w as [|[|w]]; by intros [= <- <-]]. Qed.

Definition bad_bytes : list Z := request [ping] ++ request [ping] ++ [42; 49; 13; 10; 36; 120; 13; 10].


Example round_trip_of_workers : exists c, client_events 1073741824 [Readable 100; Arrive; Arrive; Readable 9; Arrive; Arrive] fresh_client O bad_bytes = Some (Some c, O, []) /\
  jump c = false /\ close_after_reply c = true.
Proof. eexists. split; [vm_compute; reflexivity | done]. Qed.

Lemma inline_roundtrip_witness :
  processInlineBuffer (set_querybuf (quoted_line [ping; [0; 34; 200]] ++ [13; 10] ++ [80]) fresh_client) (false, []) =
    Some (set_argv [ping; [0; 34; 200]] (set_querybuf [80] fresh_client), (false, []), true).
Proof. apply (inline_roundtrip [ping; [0; 34; 200]] [80] (set_querybuf (quoted_line [ping; [0; 34; 200]] ++ [13; 10] ++ [80]) fresh_client)); [repeat constructor; lia | by repeat constructor | reflexivity]. Defined.

Lemma inline_lf_loses_byte_witness :
  processInlineBuffer (set_querybuf (ping ++ 10 :: 71 :: [69; 84; 10]) fresh_client) (false, []) =
    Some (set_argv (List.filter (fun a => negb (zlen a =? 0)) [ping]) (set_querybuf [69; 84; 10] fresh_client), (false, []), true).
Proof.
  apply (inline_lf_loses_byte ping [ping] 71 [69; 84; 10] (set_querybuf (ping ++ 10 :: 71 :: [69; 84; 10]) fresh_client)); [repeat constructor; lia | reflexivity | reflexivity].
Defined.

(** The state after the header and the first bytes of a big argument. *)
Definition half_sent : client := mk_client (replicate 3 97) PROTO_REQ_MULTIBULK 1 32768 [] false false false.

(** The header arrives, the worker pauses its clients, the argument and another
    request arrive. *)
Lemma paused_big_argument_closes_witness :
  reads 1073741824 [100] fresh_client (false, []) ([42; 49; 13; 10; 36; 51; 50; 55; 54; 56; 13; 10] ++ replicate 3 97) = Some (Some half_sent, (false, []), []) /\
  reads 1073741824 (replicate (Z.to_nat 32770) 9000) half_sent (true, []) (replicate (Z.to_nat 32765) 97 ++ [13; 10] ++ request [ping]) =
    Some (None, (true, []), drop (Z.to_nat (missing half_sent)) (replicate (Z.to_nat 32765) 97 ++ [13; 10] ++ request [ping])).
Proof.
  split; [vm_compute; reflexivity |].
  apply (paused_big_argument_closes 1073741824 (replicate (Z.to_nat 32770) 9000) half_sent (true, []) (replicate (Z.to_nat 32765) 97 ++ [13; 10] ++ request [ping])).
  - reflexivity.
  - split; [reflexivity | discriminate | unfold PROTO_MBULK_BIG_ARG; cbn; lia | cbn; lia].
  - change (bulklen half_sent) with 32768. lia.
  - apply Forall_replicate. lia.
  - change (missing half_sent) with 32767. rewrite length_app, length_replicate, Nat2Z.inj_add, Z2Nat.id by lia. change (zlen ([13; 10] ++ request [ping])) with 16. lia.
  - change (missing half_sent) with 32767. rewrite length_replicate, Z2Nat.id by lia. lia.
Defined.

End Example_protocol.
End ProtocolProps.
