(* ===== verification/KeyCmds.v ===== *)
(** * Commands on keys (vr_db.c): the code

    DEL, EXISTS, the EXPIRE family, TTL, PERSIST, TYPE, SELECT, FLUSHDB and
    DBSIZE, each the whole handler with its locking and its replies.  [argv] is
    the arguments after the command name. *)

From stdpp Require Import gmap strings.
From S2P Require Import Prelude Bytes Bits NumConv Object HashKit Keyspace.
Import NumConv Object HashKit Keyspace.

Module KeyCmds.

#[local] Open Scope vire_scope.

Section Cmds.
Context (E : env).

Fixpoint del_loop (keys : list (list Z)) (deleted expired : Z) : M (Z * Z) :=
  match keys with
  | [] => ret (deleted, expired)
  | key :: keys =>
      fetchInternalDbByKey E key ;;
      lockDbWrite ;;
      e <-- expireIfNeeded E key ;;
      r <-- dbDelete key ;;
      (if (r : bool) then add_dirty 1 else ret tt) ;;
      unlockDb ;;
      del_loop keys (deleted + b2z r) (expired + b2z e)
  end.

Definition delCommand (keys : list (list Z)) : M unit :=
  r <-- del_loop keys 0 0 ;;
  addReplyLongLong r.1 ;;
  if r.2 >? 0 then stat_expired r.2 else ret tt.

Fixpoint exists_loop (keys : list (list Z)) (count : Z) : M Z :=
  match keys with
  | [] => ret count
  | key :: keys =>
      fetchInternalDbByKey E key ;;
      lockDbRead ;;
      e <-- checkIfExpired E key ;;
      if (e : bool) then unlockDb ;; exists_loop keys count
      else
        x <-- dbExists key ;;
        unlockDb ;;
        exists_loop keys (count + b2z x)
  end.

Definition existsCommand (keys : list (list Z)) : M unit :=
  count <-- exists_loop keys 0 ;;
  addReplyLongLong count ;;
  stat_hits count ;;
  stat_misses (zlen keys - count).

Inductive time_unit := UNIT_SECONDS | UNIT_MILLISECONDS.

Definition expireGenericCommand (basetime : Z) (unit : time_unit) (key param : list Z) : M Datatypes.unit :=
  r <-- getLongLongFromObjectOrReply (Some (arg param)) None ;;
  match r with
  | None => ret tt
  | Some when =>
      let when := match unit with UNIT_SECONDS => s64 (when * 1000) | UNIT_MILLISECONDS => when end in
      let when := s64 (when + basetime) in
      fetchInternalDbByKey E key ;;
      lockDbWrite ;;
      r <-- lookupKeyWrite E key true ;;
      match r.1 with
      | None =>
          unlockDb ;;
          count_expired r.2 ;;
          addReplyString shared_czero
      | Some _ =>
          if (when <=? msec_now E) && negb (loading E) && negb (is_slave E) then
            d <-- dbDelete key ;;
            (if (d : bool) then ret tt else panic) ;;
            add_dirty 1 ;;
            unlockDb ;;
            count_expired r.2 ;;
            addReplyString shared_cone
          else
            setExpire key when ;;
            addReplyString shared_cone ;;
            unlockDb ;;
            count_expired r.2 ;;
            add_dirty 1
      end
  end.

Definition expireCommand := expireGenericCommand (msec_now E) UNIT_SECONDS.
Definition expireatCommand := expireGenericCommand 0 UNIT_SECONDS.
Definition pexpireCommand := expireGenericCommand (msec_now E) UNIT_MILLISECONDS.
Definition pexpireatCommand := expireGenericCommand 0 UNIT_MILLISECONDS.

Definition ttlGenericCommand (key : list Z) (output_ms : bool) : M unit :=
  fetchInternalDbByKey E key ;;
  lockDbRead ;;
  o <-- lookupKeyRead E key ;;
  match o with
  | None =>
      unlockDb ;;
      stat_misses 1 ;;
      addReplyLongLong (-2)
  | Some _ =>
      expire <-- getExpire key ;;
      unlockDb ;;
      stat_hits 1 ;;
      let ttl :=
        if negb (expire =? -1) then
          let ttl := s64 (expire - msec_now E) in if ttl <? 0 then 0 else ttl
        else -1 in
      if ttl =? -1 then addReplyLongLong (-1)
      else addReplyLongLong (if output_ms then ttl else Z.quot (s64 (ttl + 500)) 1000)
  end.

Definition ttlCommand (key : list Z) : M unit := ttlGenericCommand key false.
Definition pttlCommand (key : list Z) : M unit := ttlGenericCommand key true.

Definition persistCommand (key : list Z) : M unit :=
  fetchInternalDbByKey E key ;;
  lockDbWrite ;;
  x <-- dbExists key ;;
  (if negb x then addReplyString shared_czero
   else
     r <-- removeExpire key ;;
     if (r : bool) then addReplyString shared_cone ;; add_dirty 1
     else addReplyString shared_czero) ;;
  unlockDb.

Definition typeCommand (key : list Z) : M unit :=
  fetchInternalDbByKey E key ;;
  lockDbRead ;;
  o <-- lookupKeyRead E key ;;
  match o with
  | None =>
      unlockDb ;;
      addReplyStatus "none" ;;
      stat_misses 1
  | Some o =>
      unlockDb ;;
      addReplyStatus (match o with
        | SdsObj _ _ _ | IntObj _ _ => "string"
        | OtherObj OBJ_LIST _ => "list"
        | OtherObj OBJ_SET _ => "set"
        | OtherObj OBJ_ZSET _ => "zset"
        | OtherObj OBJ_HASH _ => "hash"
        end)%string ;;
      stat_hits 1
  end.

Definition selectCommand (id : list Z) : M unit :=
  r <-- getLongFromObjectOrReply (Some (arg id)) (Some "invalid DB index"%string) ;;
  match r with
  | None => ret tt
  | Some id =>
      ok <-- selectDb E (s32 id) ;;
      if (ok : bool) then addReplyString shared_ok else addReplyError "invalid DB index"
  end.

(** Database [idx], and the ones after it, emptied under their locks. *)
Fixpoint flushdb_loop (n : nat) (idx : Z) : M unit :=
  match n with
  | O => ret tt
  | S n =>
      fetchInternalDbById E idx ;;
      lockDbWrite ;;
      d <-- the_db ;;
      add_dirty (Z.of_nat (size (dict d))) ;;
      put_db (mk_db ∅ ∅) ;;
      unlockDb ;;
      flushdb_loop n (idx + 1)
  end.

Definition flushdbCommand : M unit :=
  flushdb_loop (Z.to_nat (dbinum E)) 0 ;;
  addReplyString shared_ok.

Fixpoint dbsize_loop (n : nat) (idx count : Z) : M Z :=
  match n with
  | O => ret count
  | S n =>
      fetchInternalDbById E idx ;;
      lockDbRead ;;
      d <-- the_db ;;
      unlockDb ;;
      dbsize_loop n (idx + 1) (count + Z.of_nat (size (dict d)))
  end.

Definition dbsizeCommand : M unit :=
  count <-- dbsize_loop (Z.to_nat (dbinum E)) 0 0 ;;
  addReplyLongLong count.

End Cmds.

End KeyCmds.
