(* ===== verification/StringCmds.v ===== *)
(** * Commands on strings (vr_t_string.c, vr_bitops.c): the code

    SET and its variants, GET, GETSET, SETRANGE, GETRANGE, MGET, MSET, the
    INCR/DECR family, APPEND, STRLEN, and SETBIT, GETBIT, BITCOUNT, BITPOS; each
    handler whole, with its locking, its early returns and its replies.
    INCRBYFLOAT computes with long doubles and is left out. *)

From stdpp Require Import gmap strings.
From S2P Require Import Prelude Bytes Bits NumConv Object HashKit Bitops Keyspace KeyCmds.
Import NumConv Object HashKit Bitops Keyspace KeyCmds.

Module StringCmds.

#[local] Open Scope vire_scope.

Section Cmds.
Context (E : env).

(** [true] is [VR_OK]. *)
Definition checkStringLength (size : Z) : M bool :=
  if size >? 512 * 1024 * 1024 then
    addReplyError "string exceeds maximum allowed size (512MB)" ;; ret false
  else ret true.

(** The flags of SET; [EX] and [PX] only matter while parsing. *)
Record set_flags := mk_flags { NX : bool; XX : bool; EX : bool; PX : bool }.
Definition OBJ_SET_NO_FLAGS : set_flags := mk_flags false false false false.
Definition OBJ_SET_NX : set_flags := mk_flags true false false false.

(** The command after the expire time has been parsed. *)
Definition set_body (flags : set_flags) (key : list Z) (val : robj) (expire : option Z)
    (ok_reply abort_reply : list Z) : M unit :=
  fetchInternalDbByKey E key ;;
  lockDbWrite ;;
  r <-- lookupKeyWrite E key true ;;
  let exist := match r.1 with None => false | Some _ => true end in
  if (NX flags && exist) || (XX flags && negb exist) then
    unlockDb ;;
    count_expired r.2 ;;
    addReplyString abort_reply
  else
    v <-- lift (dupStringObjectUnconstant val) ;;
    setKey E key v false ;;
    add_dirty 1 ;;
    (match expire with
     | Some ms => setExpire key (s64 (msec_now E + ms))
     | None => ret tt
     end) ;;
    addReplyString ok_reply ;;
    unlockDb ;;
    count_expired r.2.

Definition setGenericCommand (name : string) (flags : set_flags) (key : list Z) (val : robj) (expire : option (list Z))
    (unit : time_unit) (ok_reply abort_reply : list Z) : M Datatypes.unit :=
  match expire with
  | None => set_body flags key val None ok_reply abort_reply
  | Some e =>
      r <-- getLongLongFromObjectOrReply (Some (arg e)) None ;;
      match r with
      | None => ret tt
      | Some ms =>
          if ms <=? 0 then addReplyError (String.append "invalid expire time in " name)
          else
            let ms := match unit with UNIT_SECONDS => s64 (ms * 1000) | UNIT_MILLISECONDS => ms end in
            set_body flags key val (Some ms) ok_reply abort_reply
      end
  end.

(** A two-letter option in either case. *)
Definition is_opt (a : list Z) (x y : Z) : bool :=
  match a with
  | [c0; c1] => ((c0 =? x) || (c0 =? x - 32)) && ((c1 =? y) || (c1 =? y - 32))
  | c0 :: c1 :: 0 :: _ => ((c0 =? x) || (c0 =? x - 32)) && ((c1 =? y) || (c1 =? y - 32))
  | _ => false
  end.

(** The option loop of SET; [None] inside is the syntax error. *)
Fixpoint set_options (fuel : nat) (args : list (list Z)) (flags : set_flags) (expire : option (list Z)) (unit : time_unit) :
    option (set_flags * option (list Z) * time_unit) :=
  match fuel, args with
  | _, [] => Some (flags, expire, unit)
  | O, _ => None
  | S fuel, a :: rest =>
      if is_opt a 110 120 && negb (XX flags) then
        set_options fuel rest (mk_flags true (XX flags) (EX flags) (PX flags)) expire unit
      else if is_opt a 120 120 && negb (NX flags) then
        set_options fuel rest (mk_flags (NX flags) true (EX flags) (PX flags)) expire unit
      else
        match rest with
        | next :: rest =>
            if is_opt a 101 120 && negb (PX flags) then
              set_options fuel rest (mk_flags (NX flags) (XX flags) true (PX flags)) (Some next) UNIT_SECONDS
            else if is_opt a 112 120 && negb (EX flags) then
              set_options fuel rest (mk_flags (NX flags) (XX flags) (EX flags) true) (Some next) UNIT_MILLISECONDS
            else None
        | [] => None
        end
  end.

Definition setCommand (key val : list Z) (opts : list (list Z)) : M unit :=
  match set_options (length opts) opts OBJ_SET_NO_FLAGS None UNIT_SECONDS with
  | None => addReplyString shared_syntaxerr
  | Some (flags, expire, u) =>
      v <-- lift (tryObjectEncoding (arg val)) ;;
      setGenericCommand "set" flags key v expire u shared_ok shared_nullbulk
  end.

Definition setnxCommand (key val : list Z) : M unit :=
  v <-- lift (tryObjectEncoding (arg val)) ;;
  setGenericCommand "setnx" OBJ_SET_NX key v None UNIT_SECONDS shared_cone shared_czero.

Definition setexCommand (key secs val : list Z) : M unit :=
  v <-- lift (tryObjectEncoding (arg val)) ;;
  setGenericCommand "setex" OBJ_SET_NO_FLAGS key v (Some secs) UNIT_SECONDS shared_ok shared_nullbulk.

Definition psetexCommand (key ms val : list Z) : M unit :=
  v <-- lift (tryObjectEncoding (arg val)) ;;
  setGenericCommand "psetex" OBJ_SET_NO_FLAGS key v (Some ms) UNIT_MILLISECONDS shared_ok shared_nullbulk.

Definition getCommand (key : list Z) : M unit :=
  fetchInternalDbByKey E key ;;
  lockDbRead ;;
  o <-- lookupKeyReadOrReply E key shared_nullbulk ;;
  match o with
  | None =>
      unlockDb ;;
      stat_misses 1
  | Some o =>
      (match o with OtherObj _ _ => addReplyString shared_wrongtypeerr | _ => addReplyBulk o end) ;;
      unlockDb ;;
      stat_hits 1
  end.

Definition getsetCommand (key val : list Z) : M unit :=
  v <-- lift (tryObjectEncoding (arg val)) ;;
  fetchInternalDbByKey E key ;;
  lockDbWrite ;;
  r <-- lookupKeyWriteOrReply E key shared_nullbulk true ;;
  let finish (exist : bool) : M unit :=
    unlockDb ;; count_expired r.2 ;; if exist then stat_hits 1 else stat_misses 1 in
  match r.1 with
  | None =>
      w <-- lift (dupStringObjectUnconstant v) ;;
      dbAdd key w ;;
      add_dirty 1 ;;
      finish false
  | Some (OtherObj _ _) =>
      addReplyString shared_wrongtypeerr ;;
      finish true
  | Some o =>
      addReplyBulk o ;;
      w <-- lift (dupStringObjectUnconstant v) ;;
      dbOverwrite key w ;;
      removeExpire key ;;
      add_dirty 1 ;;
      finish true
  end.

(** [sdsgrowzero], and [memcpy] at an offset inside the string. *)
Definition sdsgrowzero (s : list Z) (len : Z) : list Z := s ++ replicate (Z.to_nat len - length s) 0.
Definition memcpy_at (s : list Z) (offset : Z) (v : list Z) : option (list Z) := bwrite s offset v.

(** The write and the reply, [o] being the raw string stored under the key. *)
Definition setrange_write (key : list Z) (o : robj) (offset : Z) (value : list Z) (expired : bool) : M unit :=
  match o with
  | SdsObj _ _ s =>
      s <-- (if 0 <? zlen value then
               s <-- lift (memcpy_at (sdsgrowzero s (offset + zlen value)) offset value) ;;
               store_ptr key s ;;
               add_dirty 1 ;;
               ret s
             else ret s) ;;
      addReplyLongLong (zlen s) ;;
      unlockDb ;;
      count_expired expired
  | _ => panic
  end.

Definition setrangeCommand (key off value : list Z) : M unit :=
  r <-- getLongFromObjectOrReply (Some (arg off)) None ;;
  match r with
  | None => ret tt
  | Some offset =>
      if offset <? 0 then addReplyError "offset is out of range"
      else
        fetchInternalDbByKey E key ;;
        lockDbWrite ;;
        r <-- lookupKeyWrite E key true ;;
        match r.1 with
        | None =>
            if zlen value =? 0 then
              unlockDb ;;
              count_expired r.2 ;;
              addReplyString shared_czero
            else
              ok <-- checkStringLength (s64 (offset + zlen value)) ;;
              if negb ok then unlockDb ;; count_expired r.2
              else
                let o := createRawStringObject (replicate (Z.to_nat (offset + zlen value)) 0) in
                dbAdd key o ;;
                setrange_write key o offset value r.2
        | Some o =>
            bad <-- checkType_string o ;;
            if (bad : bool) then unlockDb ;; count_expired r.2
            else
              olen <-- lift (stringObjectLen o) ;;
              if zlen value =? 0 then
                unlockDb ;;
                count_expired r.2 ;;
                addReplyLongLong olen
              else
                ok <-- checkStringLength (s64 (offset + zlen value)) ;;
                if negb ok then unlockDb ;; count_expired r.2
                else
                  o <-- dbUnshareStringValue key o ;;
                  setrange_write key o offset value r.2
        end
  end.

(** The bytes of a string object, an integer printed in a 32-byte buffer. *)
Definition str_bytes (o : robj) : M (list Z) :=
  match o with
  | SdsObj _ _ s => ret s
  | IntObj _ z => lift (ll_buf 32 z)
  | OtherObj _ _ => panic
  end.

(** Negative indexes count from the end; both are clipped to the string. *)
Definition clip_start (start len : Z) : Z :=
  let start := if start <? 0 then len + start else start in if start <? 0 then 0 else start.
Definition clip_end (end_ len : Z) : Z :=
  let e := if end_ <? 0 then len + end_ else end_ in
  let e := if e <? 0 then 0 else e in if e >=? len then len - 1 else e.

Definition getrangeCommand (key st en : list Z) : M unit :=
  r <-- getLongLongFromObjectOrReply (Some (arg st)) None ;;
  match r with
  | None => ret tt
  | Some start =>
  r <-- getLongLongFromObjectOrReply (Some (arg en)) None ;;
  match r with
  | None => ret tt
  | Some end_ =>
      fetchInternalDbByKey E key ;;
      lockDbRead ;;
      o <-- lookupKeyReadOrReply E key shared_emptybulk ;;
      match o with
      | None => unlockDb ;; stat_misses 1
      | Some o =>
          bad <-- checkType_string o ;;
          if (bad : bool) then unlockDb ;; stat_hits 1
          else
            str <-- str_bytes o ;;
            let len := zlen str in
            let start := clip_start start len in
            let end_ := clip_end end_ len in
            (if (start >? end_) || (len =? 0) then addReplyString shared_emptybulk
             else p <-- lift (bread str start (end_ - start + 1)) ;; addReplyBulkCBuffer p) ;;
            unlockDb ;;
            stat_hits 1
      end
  end
  end.

Fixpoint mget_loop (keys : list (list Z)) : M unit :=
  match keys with
  | [] => ret tt
  | key :: keys =>
      fetchInternalDbByKey E key ;;
      lockDbRead ;;
      o <-- lookupKeyRead E key ;;
      (match o with
       | None => unlockDb ;; stat_misses 1 ;; addReplyString shared_nullbulk
       | Some o =>
           (match o with OtherObj _ _ => addReplyString shared_nullbulk | _ => addReplyBulk o end) ;;
           unlockDb ;;
           stat_hits 1
       end) ;;
      mget_loop keys
  end.

Definition mgetCommand (keys : list (list Z)) : M unit :=
  addReplyMultiBulkLen (zlen keys) ;;
  mget_loop keys.

(** The pairs of MSET; an odd argument is the arity error before the loop. *)
Fixpoint mset_loop (args : list (list Z)) (expired : Z) : M Z :=
  match args with
  | key :: val :: args =>
      v <-- lift (tryObjectEncoding (arg val)) ;;
      fetchInternalDbByKey E key ;;
      lockDbWrite ;;
      w <-- lift (dupStringObjectUnconstant v) ;;
      e <-- setKey E key w true ;;
      unlockDb ;;
      mset_loop args (expired + b2z e)
  | _ => ret expired
  end.

Definition msetCommand (args : list (list Z)) : M unit :=
  if zlen args mod 2 =? 1 then addReplyError "wrong number of arguments for MSET"
  else
    expired <-- mset_loop args 0 ;;
    (if negb (expired =? 0) then stat_expired expired else ret tt) ;;
    add_dirty (zlen args / 2) ;;
    addReplyString shared_ok.

(** The in-place update needs a reference count of 1, which objects never have. *)
Definition incrDecrCommand (key : list Z) (incr : Z) : M unit :=
  fetchInternalDbByKey E key ;;
  lockDbWrite ;;
  r <-- lookupKeyWrite E key true ;;
  (bad <-- (match r.1 with Some o => checkType_string o | None => ret false end) ;;
   if (bad : bool) then ret tt
   else
     v <-- getLongLongFromObjectOrReply r.1 None ;;
     match v with
     | None => ret tt
     | Some oldvalue =>
         if ((incr <? 0) && (oldvalue <? 0) && (incr <? LLONG_MIN - oldvalue)) ||
            ((incr >? 0) && (oldvalue >? 0) && (incr >? LLONG_MAX - oldvalue)) then
           addReplyError "increment or decrement would overflow"
         else
           let value := s64 (oldvalue + incr) in
           let new := createStringObjectFromLongLong value in
           (match r.1 with Some _ => dbOverwrite key new | None => dbAdd key new end) ;;
           add_dirty 1 ;;
           addReplyString (bs ":") ;;
           addReply new ;;
           addReplyString crlf
     end) ;;
  unlockDb ;;
  count_expired r.2.

Definition incrCommand (key : list Z) : M unit := incrDecrCommand key 1.
Definition decrCommand (key : list Z) : M unit := incrDecrCommand key (-1).

Definition incrbyCommand (key incr : list Z) : M unit :=
  r <-- getLongLongFromObjectOrReply (Some (arg incr)) None ;;
  match r with None => ret tt | Some incr => incrDecrCommand key incr end.

(** Negating the smallest number is undefined. *)
Definition decrbyCommand (key incr : list Z) : M unit :=
  r <-- getLongLongFromObjectOrReply (Some (arg incr)) None ;;
  match r with
  | None => ret tt
  | Some incr => if incr =? LLONG_MIN then panic else incrDecrCommand key (- incr)
  end.

Definition appendCommand (key append : list Z) : M unit :=
  fetchInternalDbByKey E key ;;
  lockDbWrite ;;
  r <-- lookupKeyWrite E key true ;;
  (match r.1 with
   | None =>
       v <-- lift (tryObjectEncoding (arg append)) ;;
       w <-- lift (dupStringObjectUnconstant v) ;;
       dbAdd key w ;;
       totlen <-- lift (stringObjectLen v) ;;
       add_dirty 1 ;;
       addReplyLongLong totlen
   | Some o =>
       bad <-- checkType_string o ;;
       if (bad : bool) then ret tt
       else
         olen <-- lift (stringObjectLen o) ;;
         ok <-- checkStringLength (s64 (olen + zlen append)) ;;
         if negb ok then ret tt
         else
           o <-- dbUnshareStringValue key o ;;
           match o with
           | SdsObj _ _ s =>
               store_ptr key (s ++ append) ;;
               add_dirty 1 ;;
               addReplyLongLong (zlen (s ++ append))
           | _ => panic
           end
   end) ;;
  unlockDb ;;
  count_expired r.2.

Definition strlenCommand (key : list Z) : M unit :=
  fetchInternalDbByKey E key ;;
  lockDbRead ;;
  o <-- lookupKeyReadOrReply E key shared_czero ;;
  match o with
  | None => unlockDb ;; stat_misses 1
  | Some o =>
      bad <-- checkType_string o ;;
      if (bad : bool) then unlockDb ;; stat_hits 1
      else
        len <-- lift (stringObjectLen o) ;;
        addReplyLongLong len ;;
        unlockDb ;;
        stat_hits 1
  end.

(** ** Bits *)

(** [hash] and [bits] serve the BITFIELD form ["#<offset>"]. *)
Definition getBitOffsetFromArgument (o : list Z) (hash : bool) (bits : Z) : M (option Z) :=
  let err := "bit offset is not an integer or out of range"%string in
  let usehash := match o with c :: _ => (c =? 35) && hash && (0 <? bits) | [] => false end in
  match string2ll (if usehash then drop 1 o else o) with
  | None => addReplyError err ;; ret None
  | Some loffset =>
      let loffset := if usehash then s64 (loffset * bits) else loffset in
      if (loffset <? 0) || (Z.shiftr (u64 loffset) 3 >=? 512 * 1024 * 1024) then
        addReplyError err ;; ret None
      else ret (Some loffset)
  end.

(** The raw string under the key, long enough for [maxbit]; [None] on a wrong type. *)
Definition lookupStringForBitCommand (key : list Z) (maxbit : Z) (want : bool) : M (option (list Z) * bool) :=
  let byte := Z.shiftr maxbit 3 in
  r <-- lookupKeyWrite E key want ;;
  match r.1 with
  | None =>
      let s := replicate (Z.to_nat (byte + 1)) 0 in
      dbAdd key (createRawStringObject s) ;;
      ret (Some s, r.2)
  | Some o =>
      bad <-- checkType_string o ;;
      if (bad : bool) then ret (None, r.2)
      else
        o <-- dbUnshareStringValue key o ;;
        match o with
        | SdsObj _ _ s =>
            let s := sdsgrowzero s (byte + 1) in
            store_ptr key s ;;
            ret (Some s, r.2)
        | _ => panic
        end
  end.

Definition setbitCommand (key off bitarg : list Z) : M unit :=
  r <-- getBitOffsetFromArgument off false 0 ;;
  match r with
  | None => ret tt
  | Some bitoffset =>
  let err := "bit is not an integer or out of range"%string in
  r <-- getLongFromObjectOrReply (Some (arg bitarg)) (Some err) ;;
  match r with
  | None => ret tt
  | Some on =>
      if negb (Z.land on (Z.lnot 1) =? 0) then addReplyError err
      else
        fetchInternalDbByKey E key ;;
        lockDbWrite ;;
        r <-- lookupStringForBitCommand key bitoffset true ;;
        match r.1 with
        | None => unlockDb ;; count_expired r.2
        | Some s =>
            let byte := Z.shiftr bitoffset 3 in
            byteval <-- lift (bget s byte) ;;
            let bit := 7 - Z.land bitoffset 7 in
            let bitval := Z.land byteval (Z.shiftl 1 bit) in
            let byteval := Z.land byteval (Z.lnot (Z.shiftl 1 bit)) in
            let byteval := Z.lor byteval (Z.shiftl (Z.land on 1) bit) in
            s <-- lift (bset s byte byteval) ;;
            store_ptr key s ;;
            add_dirty 1 ;;
            addReplyString (if negb (bitval =? 0) then shared_cone else shared_czero) ;;
            unlockDb ;;
            count_expired r.2
        end
  end
  end.

Definition getbitCommand (key off : list Z) : M unit :=
  r <-- getBitOffsetFromArgument off false 0 ;;
  match r with
  | None => ret tt
  | Some bitoffset =>
      fetchInternalDbByKey E key ;;
      lockDbRead ;;
      o <-- lookupKeyReadOrReply E key shared_czero ;;
      match o with
      | None => unlockDb ;; stat_misses 1
      | Some o =>
          bad <-- checkType_string o ;;
          if (bad : bool) then unlockDb ;; stat_hits 1
          else
            let byte := Z.shiftr bitoffset 3 in
            let bit := 7 - Z.land bitoffset 7 in
            str <-- str_bytes o ;;
            bitval <-- (if byte <? zlen str then b <-- lift (bget str byte) ;; ret (Z.land b (Z.shiftl 1 bit)) else ret 0) ;;
            addReplyString (if negb (bitval =? 0) then shared_cone else shared_czero) ;;
            unlockDb ;;
            stat_hits 1
      end
  end.

(** The address of the string's first byte only decides alignment. *)
Definition str_addr (start : Z) : Z := start.

(** The range arguments: none, or both. *)
Definition bitcountCommand (key : list Z) (range : list (list Z)) : M unit :=
  fetchInternalDbByKey E key ;;
  lockDbRead ;;
  o <-- lookupKeyReadOrReply E key shared_czero ;;
  match o with
  | None => unlockDb ;; stat_misses 1
  | Some o =>
      bad <-- checkType_string o ;;
      if (bad : bool) then unlockDb ;; stat_hits 1
      else
        p <-- str_bytes o ;;
        let strlen := zlen p in
        let count (start end_ : Z) : M unit :=
          (if start >? end_ then addReplyString shared_czero
           else
             n <-- lift (redisPopcount (str_addr start) (drop (Z.to_nat start) p) (end_ - start + 1)) ;;
             addReplyLongLong n) ;;
          unlockDb ;;
          stat_hits 1 in
        match range with
        | [st; en] =>
            r <-- getLongFromObjectOrReply (Some (arg st)) None ;;
            match r with
            | None => unlockDb ;; stat_hits 1
            | Some start =>
                r <-- getLongFromObjectOrReply (Some (arg en)) None ;;
                match r with
                | None => unlockDb ;; stat_hits 1
                | Some end_ => count (clip_start start strlen) (clip_end end_ strlen)
                end
            end
        | [] => count 0 (strlen - 1)
        | _ => unlockDb ;; stat_hits 1 ;; addReplyString shared_syntaxerr
        end
  end.

(** [end_given] is whether an explicit end was passed. *)
Definition bitpos_search (p : list Z) (bit : bool) (start end_ : Z) (end_given : bool) : M unit :=
  if start >? end_ then addReplyLongLong (-1) ;; unlockDb ;; stat_hits 1
  else
    let bytes := end_ - start + 1 in
    pos <-- lift (redisBitpos (str_addr start) (drop (Z.to_nat start) p) bytes bit) ;;
    if end_given && negb bit && (pos =? bytes * 8) then
      unlockDb ;;
      stat_hits 1 ;;
      addReplyLongLong (-1)
    else
      addReplyLongLong (if negb (pos =? -1) then pos + start * 8 else pos) ;;
      unlockDb ;;
      stat_hits 1.

Definition bitposCommand (key bitarg : list Z) (range : list (list Z)) : M unit :=
  r <-- getLongFromObjectOrReply (Some (arg bitarg)) None ;;
  match r with
  | None => ret tt
  | Some bit =>
      if negb (bit =? 0) && negb (bit =? 1) then addReplyError "The bit argument must be 1 or 0."
      else
        fetchInternalDbByKey E key ;;
        lockDbRead ;;
        o <-- lookupKeyRead E key ;;
        match o with
        | None =>
            unlockDb ;;
            stat_misses 1 ;;
            addReplyLongLong (if negb (bit =? 0) then -1 else 0)
        | Some o =>
            bad <-- checkType_string o ;;
            if (bad : bool) then unlockDb ;; stat_hits 1
            else
              p <-- str_bytes o ;;
              let strlen := zlen p in
              let b := negb (bit =? 0) in
              match range with
              | [] => bitpos_search p b 0 (strlen - 1) false
              | st :: more =>
                  if 2 <=? zlen more then
                    unlockDb ;;
                    stat_hits 1 ;;
                    addReplyString shared_syntaxerr
                  else
                  r <-- getLongFromObjectOrReply (Some (arg st)) None ;;
                  match r with
                  | None => unlockDb ;; stat_hits 1
                  | Some start =>
                      match more with
                      | [] => bitpos_search p b (clip_start start strlen) (clip_end (strlen - 1) strlen) false
                      | en :: _ =>
                          r <-- getLongFromObjectOrReply (Some (arg en)) None ;;
                          match r with
                          | None => unlockDb ;; stat_hits 1
                          | Some end_ => bitpos_search p b (clip_start start strlen) (clip_end end_ strlen) true
                          end
                      end
                  end
              end
        end
  end.

End Cmds.

End StringCmds.
