(* ===== verification/KeyspaceRules.v ===== *)
(** * Reasoning about commands

    Weakest preconditions for the monad of Keyspace and one rule per primitive.
    Two predicates follow a command from the state [s0] it started in: [Out]
    between critical sections (no lock held, the databases [D], the reply [o] so
    far) and [In] inside one (database [i] locked in mode [m], its contents now
    [d]). *)

From stdpp Require Import gmap strings.
From S2P Require Import Prelude Bytes Bits NumConv Object HashKit Keyspace.
Import NumConv Object HashKit Keyspace.

Module KeyspaceRules.

#[local] Open Scope vire_scope.

Definition wp {A} (m : M A) (Q : A -> state -> Prop) (s : state) : Prop :=
  match m s with Some (a, s') => Q a s' | None => False end.

Lemma wp_ret {A} (a : A) Q s : Q a s -> wp (ret a) Q s.
Proof. done. Qed.

Lemma wp_bind {A B} (m : M A) (k : A -> M B) Q s : wp m (fun a => wp (k a) Q) s -> wp (bind m k) Q s.
Proof. unfold wp, bind. destruct (m s) as [[a s']|]; done. Qed.

Lemma wp_mono {A} (m : M A) (P Q : A -> state -> Prop) s : wp m P s -> (forall a s', P a s' -> Q a s') -> wp m Q s.
Proof. unfold wp. destruct (m s) as [[a s']|]; auto. Qed.

Lemma wp_lift {A} (x : option A) a Q s : x = Some a -> Q a s -> wp (lift x) Q s.
Proof. intros ->. done. Qed.

(** The run a weakest precondition speaks of. *)
Lemma wp_run {A} (m : M A) Q s : wp m Q s -> exists a s', m s = Some (a, s') /\ Q a s'.
Proof. unfold wp. destruct (m s) as [[a s']|]; [eauto | done]. Qed.

Record Out (s0 : state) (D : list redisDb) (o : list Z) (s : state) : Prop := mk_Out {
  out_dbs : dbs s = D;
  out_held : held s = None;
  out_dictid : dictid s = dictid s0;
  out_out : out s = out s0 ++ o;
  out_heap : heap s = heap s0
}.

Record In (s0 : state) (D : list redisDb) (i : Z) (m : lockmode) (d : redisDb) (o : list Z) (s : state) : Prop := mk_In {
  in_dbs : dbs s = <[Z.to_nat i := d]> D;
  in_bound : (Z.to_nat i < length D)%nat;
  in_cur : cur s = i;
  in_held : held s = Some (i, m);
  in_dictid : dictid s = dictid s0;
  in_out : out s = out s0 ++ o;
  in_heap : heap s = heap s0
}.

Lemma Out_refl s : held s = None -> Out s (dbs s) [] s.
Proof. intros H. split; auto. by rewrite app_nil_r. Qed.

Section Rules.
Context (s0 : state) (D : list redisDb).
Implicit Types (i : Z) (m : lockmode) (d : redisDb) (o : list Z) (s : state).

(** Selecting a database, then locking it. *)
Lemma wp_lock_at m (f : state -> Z) d o s Q : Out s0 D o s -> D !! Z.to_nat (f s) = Some d ->
  (forall s', In s0 D (f s) m d o s' -> Q tt s') ->
  wp (modify (fun s => set_cur (f s) s) ;; take_lock m) Q s.
Proof.
  intros [Hd Hh Hi Ho Hs] Hl HQ. unfold wp, bind, modify, take_lock. cbn. rewrite Hh. cbn. apply HQ.
  split; cbn; auto; [|by eapply lookup_lt_Some]. rewrite Hd, list_insert_id; done.
Qed.

Lemma wp_unlock i m d o s Q : In s0 D i m d o s ->
  (forall s', Out s0 (<[Z.to_nat i := d]> D) o s' -> Q tt s') -> wp unlockDb Q s.
Proof.
  intros [Hd Hb Hc Hh Hi Ho Hs] HQ. unfold wp, unlockDb. rewrite Hh, Hc, Z.eqb_refl. apply HQ. by split.
Qed.

Lemma wp_the_db i m d o s Q : In s0 D i m d o s -> Q d s -> wp the_db Q s.
Proof.
  intros [Hd Hb Hc Hh Hi Ho Hs] HQ. unfold wp, the_db. rewrite Hh, Hc, Z.eqb_refl, Hd, list_lookup_insert_eq by done. done.
Qed.

Lemma wp_put_db i d d' o s Q : In s0 D i WRLOCK d o s -> (forall s', In s0 D i WRLOCK d' o s' -> Q tt s') -> wp (put_db d') Q s.
Proof.
  intros [Hd Hb Hc Hh Hi Ho Hs] HQ. unfold wp, put_db. rewrite Hh, Hc, Z.eqb_refl. apply HQ. split; cbn; auto.
  by rewrite Hd, list_insert_insert_eq.
Qed.

Lemma wp_reply_in i m d o r s Q : In s0 D i m d o s -> (forall s', In s0 D i m d (o ++ r) s' -> Q tt s') -> wp (addReplyString r) Q s.
Proof. intros [] HQ. apply HQ. split; cbn; auto. rewrite in_out0. by rewrite app_assoc. Qed.

Lemma wp_reply_out o r s Q : Out s0 D o s -> (forall s', Out s0 D (o ++ r) s' -> Q tt s') -> wp (addReplyString r) Q s.
Proof. intros [] HQ. apply HQ. split; cbn; auto. rewrite out_out0. by rewrite app_assoc. Qed.

(** The counters do not show in the predicates. *)
Definition counter (c : M unit) : Prop := exists f, c = modify f /\ forall s,
  dbs (f s) = dbs s /\ dictid (f s) = dictid s /\ cur (f s) = cur s /\ held (f s) = held s /\ out (f s) = out s /\ heap (f s) = heap s.

Lemma wp_counter_in c i m d o s Q : counter c -> In s0 D i m d o s -> (forall s', In s0 D i m d o s' -> Q tt s') -> wp c Q s.
Proof. intros (f & -> & Hf) [] HQ. destruct (Hf s) as (? & ? & ? & ? & ? & ?). apply HQ. split; cbn; congruence. Qed.

Lemma wp_counter_out c o s Q : counter c -> Out s0 D o s -> (forall s', Out s0 D o s' -> Q tt s') -> wp c Q s.
Proof. intros (f & -> & Hf) [] HQ. destruct (Hf s) as (? & ? & ? & ? & ? & ?). apply HQ. split; cbn; congruence. Qed.

End Rules.

Lemma counter_dirty n : counter (add_dirty n).
Proof. eexists. split; [reflexivity |]. done. Qed.
Lemma counter_expired n : counter (stat_expired n).
Proof. eexists. split; [reflexivity |]. done. Qed.
Lemma counter_hits n : counter (stat_hits n).
Proof. eexists. split; [reflexivity |]. done. Qed.
Lemma counter_misses n : counter (stat_misses n).
Proof. eexists. split; [reflexivity |]. done. Qed.
Lemma counter_count b : counter (count_expired b).
Proof. destruct b; [apply counter_expired |]. exists (fun s => s). done. Qed.
Lemma counter_tt : counter (ret tt).
Proof. exists (fun s => s). done. Qed.
#[export] Hint Resolve counter_dirty counter_expired counter_hits counter_misses counter_count counter_tt : vire.

(** ** Reply bytes *)

Definition r_int (z : Z) : list Z := 58 :: dec_string z ++ crlf.
Definition r_bulk (s : list Z) : list Z := 36 :: dec_string (zlen s) ++ crlf ++ s ++ crlf.
Definition r_error (m : string) : list Z := bs "-ERR " ++ bs m ++ crlf.
Definition r_status (m : string) : list Z := bs "+" ++ bs m ++ crlf.

(** A computation that only replies. *)
Definition replies (c : M unit) (r : list Z) : Prop := forall s, c s = Some (tt, set_out (out s ++ r) s).

Lemma wp_replies_in s0 D i m d o c r s Q : replies c r -> In s0 D i m d o s ->
  (forall s', In s0 D i m d (o ++ r) s' -> Q tt s') -> wp c Q s.
Proof. intros Hc Hin HQ. unfold wp. rewrite Hc. exact (wp_reply_in s0 D i m d o r s Q Hin HQ). Qed.

Lemma wp_replies_out s0 D o c r s Q : replies c r -> Out s0 D o s ->
  (forall s', Out s0 D (o ++ r) s' -> Q tt s') -> wp c Q s.
Proof. intros Hc Hin HQ. unfold wp. rewrite Hc. exact (wp_reply_out s0 D o r s Q Hin HQ). Qed.

Lemma replies_string r : replies (addReplyString r) r.
Proof. done. Qed.

Lemma replies_bind c1 c2 r1 r2 : replies c1 r1 -> replies c2 r2 -> replies (c1 ;; c2) (r1 ++ r2).
Proof. intros H1 H2 s. unfold bind. rewrite H1. cbn. rewrite H2. cbn. by rewrite app_assoc. Qed.

Lemma replies_error m : replies (addReplyError m) (r_error m).
Proof. do 2 (apply replies_bind; [apply replies_string |]). apply replies_string. Qed.

Lemma replies_status m : replies (addReplyStatus m) (r_status m).
Proof. do 2 (apply replies_bind; [apply replies_string |]). apply replies_string. Qed.

Lemma replies_prefix ll p : int64 ll -> replies (addReplyLongLongWithPrefix ll p) (p :: dec_string ll ++ crlf).
Proof.
  intros Hl s. unfold addReplyLongLongWithPrefix. destruct (_ && _ && _); [done |].
  unfold bind, lift. rewrite ll_buf_spec by (done || lia). done.
Qed.

Lemma replies_int z : int64 z -> replies (addReplyLongLong z) (r_int z).
Proof.
  intros Hz. unfold addReplyLongLong. destruct (Z.eqb_spec z 0) as [-> |]; [done |].
  destruct (Z.eqb_spec z 1) as [-> |]; [done |]. by apply replies_prefix.
Qed.

Lemma count_digits_spec fuel : forall n len, 0 <= n < 10 ^ Z.of_nat (S fuel) -> count_digits (S fuel) n len = Some (len + Z.of_nat (ndigits_rec (S fuel) n) - 1).
Proof.
  induction fuel as [|fuel IH]; intros n len Hn.
  - cbn [count_digits ndigits_rec]. change (10 ^ Z.of_nat 1) with 10 in Hn. rewrite Z.quot_div_nonneg, Z.div_small by lia. repeat zguard. cbn. f_equal. lia.
  - rewrite pow10_S in Hn. remember (S fuel) as fuel'. cbn [count_digits ndigits_rec]. rewrite Z.quot_div_nonneg by lia. destruct (Z.ltb_spec n 10).
    + rewrite Z.div_small by lia. f_equal. lia.
    + assert (1 <= n / 10) by (apply Z.div_le_lower_bound; lia). zguard. subst. rewrite IH by (split; [lia | apply Z.div_lt_upper_bound; lia]).
      f_equal. lia.
Qed.

Lemma dec_length_count n : int64 n ->
  (if n <? 0 then count_digits 20 (s64 (- n)) 2 else count_digits 20 n 1) = Some (zlen (dec_string n)) \/ n = LLONG_MIN.
Proof.
  intros Hn. destruct (decide (n = LLONG_MIN)); [by right |]. left. rewrite length_dec_string. unfold int64, LLONG_MIN, LLONG_MAX in *. unfold ndigits.
  destruct (Z.ltb_spec n 0).
  - rewrite swrap_small by lia. rewrite (count_digits_spec 19), Z.abs_neq by (cbn; lia). f_equal. lia.
  - rewrite (count_digits_spec 19), Z.abs_eq by (cbn; lia). f_equal. lia.
Qed.

Lemma replies_bulk ob t : robj_ok ob -> sval ob = Some t -> zlen t < 2 ^ 62 -> replies (addReplyBulk ob) (r_bulk t).
Proof.
  intros Hok Hs Hlen. unfold addReplyBulk, r_bulk. change (36 :: ?x) with ([36] ++ x).
  assert (H1 : replies (addReplyBulkLen ob) (36 :: dec_string (zlen t) ++ crlf)).
  { assert (Hp : replies (if zlen t <? 32 then addReplyString (shared_hdr 36 (zlen t)) else addReplyLongLongWithPrefix (zlen t) 36)
      (36 :: dec_string (zlen t) ++ crlf)).
    { destruct (_ <? 32); [done |]. apply replies_prefix. unfold int64, LLONG_MIN, LLONG_MAX. lia. }
    intros s. unfold addReplyBulkLen, bind, lift. destruct ob as [e c p | c z | ]; [injection Hs as -> | injection Hs as <- | done].
    - cbn [mbind option_bind]. apply Hp.
    - destruct (dec_length_count z Hok) as [Heq | ->].
      + rewrite Heq. cbn [mbind option_bind]. apply Hp.
      + vm_compute in Hp |- *. apply Hp. }
  assert (H2 : replies (addReply ob) t).
  { intros s. destruct ob as [e c p | c z | ]; [by injection Hs as -> | injection Hs as <- | done].
    unfold addReply, bind, lift. rewrite ll_buf_spec by (done || lia). done. }
  replace ([36] ++ dec_string (zlen t) ++ crlf ++ t ++ crlf) with ((36 :: dec_string (zlen t) ++ crlf) ++ t ++ crlf)
    by (cbn; by rewrite <- !app_assoc).
  apply replies_bind; [done |]. apply replies_bind; [done |]. apply replies_string.
Qed.

End KeyspaceRules.
