(* ===== verification/Cells.v ===== *)
(** * Commands on one key

    Inside a critical section a command only touches the entry of one key: the
    cell holding the object and the expire time.  The rules here follow that
    cell through the operations of vr_db.c, and [Refines] is the judgement that
    a handler computes a function of the cell. *)

From stdpp Require Import gmap strings.
From S2P Require Import Prelude Bytes Bits NumConv Object HashKit Keyspace KeyspaceRules.
Import NumConv Object HashKit Keyspace KeyspaceRules.

Module Cells.

#[local] Open Scope vire_scope.

Abbreviation key := (list Z).

(** ** Cells *)

Abbreviation cell := (option (robj * option Z)).

Definition cell_of (d : redisDb) (k : key) : cell := o ← dict d !! k; Some (o, expires d !! k).

Definition upd (d : redisDb) (k : key) (c : cell) : redisDb :=
  mk_db (partial_alter (fun _ => fst <$> c) k (dict d)) (partial_alter (fun _ => c ≫= snd) k (expires d)).

(** Expire times only for keys that exist. *)
Definition db_ok (d : redisDb) : Prop := forall k, is_Some (expires d !! k) -> is_Some (dict d !! k).

Lemma expires_cell d k : db_ok d -> expires d !! k = cell_of d k ≫= snd.
Proof.
  intros Hd. unfold cell_of. destruct (dict d !! k) as [o|] eqn:E; [done |]. cbn.
  apply eq_None_not_Some. intros H. apply Hd in H. rewrite E in H. by destruct H.
Qed.

Lemma dict_cell d k : dict d !! k = fst <$> cell_of d k.
Proof. unfold cell_of. by destruct (dict d !! k). Qed.

Lemma dict_upd d k c : dict (upd d k c) !! k = fst <$> c.
Proof. apply lookup_partial_alter_eq. Qed.

Lemma expires_upd d k c : expires (upd d k c) !! k = c ≫= snd.
Proof. apply lookup_partial_alter_eq. Qed.

Lemma cell_upd d k c : cell_of (upd d k c) k = c.
Proof. unfold cell_of. rewrite dict_upd, expires_upd. by destruct c as [[? []]|]. Qed.

Lemma cell_upd_ne d k j c : j <> k -> cell_of (upd d k c) j = cell_of d j.
Proof. intros. unfold cell_of, upd. cbn. by rewrite !lookup_partial_alter_ne. Qed.

Lemma upd_ok d k c : db_ok d -> db_ok (upd d k c).
Proof.
  intros Hd j. destruct (decide (j = k)) as [-> | Hj].
  - rewrite dict_upd, expires_upd. destruct c as [[? ?]|]; [by eexists |]. cbn. by intros [].
  - unfold upd. cbn. rewrite !lookup_partial_alter_ne by done. apply Hd.
Qed.

Lemma upd_id d k : db_ok d -> upd d k (cell_of d k) = d.
Proof.
  intros Hd. unfold upd. rewrite <- dict_cell, <- expires_cell by done. destruct d. cbn. f_equal.
  all: apply map_eq; intros j; destruct (decide (j = k)) as [-> | ?];
    by rewrite ?lookup_partial_alter_eq, ?lookup_partial_alter_ne.
Qed.

Lemma partial_alter_twice {A} (m : gmap key A) k x y :
  partial_alter (fun _ => y) k (partial_alter (fun _ => x) k m) = partial_alter (fun _ => y) k m.
Proof.
  apply map_eq. intros j. destruct (decide (j = k)) as [-> | ?];
    by rewrite ?lookup_partial_alter_eq, ?lookup_partial_alter_ne.
Qed.

Lemma upd_upd d k c c' : upd (upd d k c) k c' = upd d k c'.
Proof. unfold upd. cbn. by rewrite !partial_alter_twice. Qed.

(** ** Expiry of a cell *)

Section Expiry.
Context (E : env) {A : Type}.
Implicit Types c : option (A * option Z).

(** The expire time, -1 without one. *)
Definition ttl_of c : Z := default (-1) (c ≫= snd).

(** What a reader takes for expired, and what a reader sees. *)
Definition dead c : bool := (ttl_of c >? 0) && (msec_now E >? ttl_of c).
Definition seen c : option (A * option Z) := if dead c then None else c.

(** What a writer takes for expired, and what it finds after the check. *)
Definition overdue c : bool := negb (ttl_of c <? 0) && negb (loading E) && (msec_now E >? ttl_of c).
Definition purge c : option (A * option Z) := if overdue c && negb (is_slave E) then None else c.

End Expiry.

(** ** The cell in a critical section *)

Section Rules.
Context (E : env).
Implicit Types (k : key) (c : cell) (m : lockmode) (o : list Z) (s : state).

(** The position of a key's database, and its cell. *)
Definition pos (id : Z) (k : key) : nat := Z.to_nat (slot E k + id * dbinum E).

Definition getcell (id : Z) (k : key) (D : list redisDb) : cell := d ← D !! pos id k; cell_of d k.
Definition setcell (id : Z) (k : key) (c : cell) (D : list redisDb) : list redisDb :=
  alter (fun d => upd d k c) (pos id k) D.

(** The databases a command may rely on. *)
Record dbs_ok (id : Z) (D : list redisDb) : Prop := mk_dbs_ok {
  dok_inum : 1 <= dbinum E;
  dok_id : 0 <= id < dblnum E;
  dok_len : zlen D = dblnum E * dbinum E;
  dok_each : Forall db_ok D
}.

Lemma slot_range k : 1 <= dbinum E -> 0 <= slot E k < dbinum E.
Proof. intros. apply Z.mod_pos_bound. lia. Qed.

Lemma pos_bound id k D : dbs_ok id D -> (pos id k < length D)%nat.
Proof. intros [Hi Hd Hl _]. pose proof (slot_range k Hi). unfold pos. nia. Qed.

Lemma pos_lookup id k D : dbs_ok id D -> exists d, D !! pos id k = Some d /\ db_ok d.
Proof.
  intros H. destruct (lookup_lt_is_Some_2 D (pos id k) (pos_bound id k D H)) as [d Hd].
  exists d. split; [done |]. apply (Forall_lookup_1 _ _ _ _ (dok_each _ _ H) Hd).
Qed.

Lemma getcell_at id k D d : D !! pos id k = Some d -> getcell id k D = cell_of d k.
Proof. unfold getcell. by intros ->. Qed.

Lemma setcell_at id k c D d : D !! pos id k = Some d -> setcell id k c D = <[pos id k := upd d k c]> D.
Proof.
  intros H. apply list_eq. intros i. unfold setcell. destruct (decide (i = pos id k)) as [-> | Hi].
  - rewrite list_lookup_alter_eq, H, list_lookup_insert_eq by (by eapply lookup_lt_Some). done.
  - by rewrite list_lookup_alter_ne, list_lookup_insert_ne.
Qed.

Lemma setcell_dbs_ok id k c D : dbs_ok id D -> dbs_ok id (setcell id k c D).
Proof.
  intros H. destruct (pos_lookup id k D H) as (d & Hd & Hok). destruct H as [Hi Hid Hl He].
  rewrite (setcell_at _ _ _ _ _ Hd). split; [done.. | by rewrite length_insert |]. apply Forall_insert; [done | by apply upd_ok].
Qed.

Lemma setcell_id id k D : dbs_ok id D -> setcell id k (getcell id k D) D = D.
Proof.
  intros H. destruct (pos_lookup id k D H) as (d & Hd & Hok).
  rewrite (getcell_at _ _ _ _ Hd), (setcell_at _ _ _ _ _ Hd), upd_id by done. by apply list_insert_id.
Qed.

(** The lock of [k]'s database is held in mode [m] and the cell is [c]. *)
Definition At (s0 : state) (D : list redisDb) (k : key) (m : lockmode) (c : cell) (o : list Z) (s : state) : Prop :=
  exists d, D !! pos (dictid s0) k = Some d /\ db_ok d /\
    In s0 D (slot E k + dictid s0 * dbinum E) m (upd d k c) o s.

Context (s0 : state) (D : list redisDb).

Lemma wp_enter k m o s Q : Out s0 D o s -> dbs_ok (dictid s0) D ->
  (forall s', At s0 D k m (getcell (dictid s0) k D) o s' -> Q tt s') ->
  wp (fetchInternalDbByKey E k ;; take_lock m) Q s.
Proof.
  intros HO H HQ. destruct (pos_lookup _ k D H) as (d & Hd & Hok).
  rewrite (getcell_at _ _ _ _ Hd) in HQ. pose proof (out_dictid _ _ _ _ HO) as Hid.
  apply (wp_lock_at s0 D m (fun s => slot E k + dictid s * dbinum E) d o); [done | by rewrite Hid |].
  rewrite Hid. intros s' Hs. apply HQ. exists d. by rewrite upd_id.
Qed.

Lemma wp_enter_bind {B} k m (K : unit -> M B) o s Q : Out s0 D o s -> dbs_ok (dictid s0) D ->
  (forall s', At s0 D k m (getcell (dictid s0) k D) o s' -> wp (K tt) Q s') ->
  wp (fetchInternalDbByKey E k ;; (x <-- take_lock m ;; K x)) Q s.
Proof. intros HO H HQ. exact (wp_bind _ K Q s (wp_enter k m o s _ HO H HQ)). Qed.

Lemma wp_leave k m c o s Q : At s0 D k m c o s ->
  (forall s', Out s0 (setcell (dictid s0) k c D) o s' -> Q tt s') -> wp unlockDb Q s.
Proof.
  intros (d & Hd & Hok & Hin) HQ. eapply wp_unlock; [exact Hin |]. intros s' Hs. apply HQ. by rewrite (setcell_at _ _ _ _ _ Hd).
Qed.

(** Writing the database back with another cell. *)
Lemma wp_put_cell k c c' d d' o s Q : D !! pos (dictid s0) k = Some d -> db_ok d ->
  In s0 D (slot E k + dictid s0 * dbinum E) WRLOCK (upd d k c) o s -> d' = upd d k c' ->
  (forall s', At s0 D k WRLOCK c' o s' -> Q tt s') -> wp (put_db d') Q s.
Proof. intros Hd Hok Hin -> HQ. eapply wp_put_db; [exact Hin |]. intros s' Hs. apply HQ. by exists d. Qed.

Lemma wp_at_reply k m c o r f s Q : replies f r -> At s0 D k m c o s ->
  (forall s', At s0 D k m c (o ++ r) s' -> Q tt s') -> wp f Q s.
Proof. intros Hf (d & Hd & Hok & Hin) HQ. eapply wp_replies_in; [done.. |]. intros s' Hs. apply HQ. by exists d. Qed.

Lemma wp_at_counter k m c o f s Q : counter f -> At s0 D k m c o s ->
  (forall s', At s0 D k m c o s' -> Q tt s') -> wp f Q s.
Proof. intros Hf (d & Hd & Hok & Hin) HQ. eapply wp_counter_in; [done.. |]. intros s' Hs. apply HQ. by exists d. Qed.

End Rules.

(** Opens the critical section and reads the database. *)
Ltac db_open := let d := fresh "d" in let Hd := fresh "Hd" in let Hok := fresh "Hok" in let Hin := fresh "Hin" in let HQ := fresh "HQ" in
  intros (d & Hd & Hok & Hin) HQ; apply wp_bind; eapply wp_the_db; [exact Hin |].

(** Two databases that differ in one cell only. *)
Ltac db_eq := unfold upd; cbn [dict expires]; f_equal; apply map_eq; intros ?j;
  match goal with |- context [partial_alter _ ?k _ !! ?j] => destruct (decide (j = k)) as [-> | ?] end;
  rewrite ?lookup_partial_alter_eq, ?lookup_delete_eq, ?lookup_insert_eq,
    ?lookup_partial_alter_ne, ?lookup_delete_ne, ?lookup_insert_ne, ?lookup_partial_alter_eq, ?lookup_partial_alter_ne by done.

Section Prims.
Context (E : env) (s0 : state) (D : list redisDb).
Implicit Types (k : key) (c : cell) (m : lockmode) (o : list Z) (s : state).

Abbreviation AT := (At E s0 D).

Lemma wp_getExpire k m c o s Q : AT k m c o s -> Q (ttl_of c) s -> wp (getExpire k) Q s.
Proof.
  db_open. unfold ttl_of in HQ. case_match eqn:Hm.
  - unfold map_empty_b in Hm. apply bool_decide_eq_true in Hm.
    assert (He : c ≫= snd = None) by (rewrite <- (expires_upd d k c), Hm; apply lookup_empty). rewrite He in HQ. exact HQ.
  - rewrite expires_upd, dict_upd. destruct c as [[? []]|]; exact HQ.
Qed.

Lemma wp_checkIfExpired k m c o s Q : AT k m c o s -> Q (dead E c) s -> wp (checkIfExpired E k) Q s.
Proof. intros HA HQ. apply wp_bind. eapply wp_getExpire; [done |]. exact HQ. Qed.

Lemma wp_lookupKey k m c o s Q : AT k m c o s -> Q (fst <$> c) s -> wp (lookupKey k) Q s.
Proof. db_open. by rewrite dict_upd. Qed.

Lemma wp_lookupKeyRead k m c o s Q : AT k m c o s -> Q (fst <$> seen E c) s -> wp (lookupKeyRead E k) Q s.
Proof.
  intros HA HQ. apply wp_bind. eapply wp_checkIfExpired; [done |]. unfold seen in HQ.
  destruct (dead E c); [done |]. by eapply wp_lookupKey.
Qed.

Lemma wp_dbDelete k c o s Q : AT k WRLOCK c o s ->
  (forall s', AT k WRLOCK None o s' -> Q (isSome c) s') -> wp (dbDelete k) Q s.
Proof.
  db_open. cbv zeta.
  set (d' := if _ : bool then _ else _). assert (Hd' : dict d' = dict (upd d k c) /\ delete k (expires d') = delete k (expires (upd d k c))).
  { unfold d'. destruct (map_empty_b _); cbn; [done |]. by rewrite delete_delete_eq. }
  assert (He : expires d' !! k = None).
  { unfold d'. destruct (map_empty_b _) eqn:Hm; cbn; [|by rewrite lookup_delete_eq].
    unfold map_empty_b in Hm. apply bool_decide_eq_true in Hm. change (expires (upd d k c) !! k = None). by rewrite Hm. }
  destruct Hd' as [Hdd Hde]. rewrite Hdd, dict_upd.
  assert (Heq : expires d' = expires (upd d k None)).
  { rewrite <- (delete_id (expires d') k He), Hde. unfold upd. cbn. apply partial_alter_twice. }
  destruct c as [[ob e]|]; cbn [fmap option_fmap option_map]; apply wp_bind;
    (eapply (wp_put_cell E s0 D k _ None); [done.. | | by intros s' HA; apply wp_ret, HQ]).
  - rewrite Heq. unfold upd. cbn. f_equal. apply partial_alter_twice.
  - destruct d' as [dd de]. cbn in *. by rewrite Hdd, Heq.
Qed.

Lemma wp_expireIfNeeded k c o s Q : AT k WRLOCK c o s ->
  (forall s', AT k WRLOCK (purge E c) o s' -> Q (overdue E c) s') -> wp (expireIfNeeded E k) Q s.
Proof.
  intros HA HQ. apply wp_bind. eapply wp_getExpire; [done |]. unfold purge, overdue in HQ.
  destruct (ttl_of c <? 0) eqn:Hneg; cbn [negb andb] in HQ; [by apply HQ |].
  destruct (loading E); cbn [negb andb] in HQ; [by apply HQ |].
  destruct (is_slave E); cbn [negb andb] in HQ; [rewrite andb_false_r in HQ; by apply HQ |]. rewrite andb_true_r in HQ.
  rewrite Z.gtb_ltb in HQ. destruct (Z.leb_spec (msec_now E) (ttl_of c)).
  - rewrite (proj2 (Z.ltb_ge _ _)) in HQ by lia. by apply HQ.
  - rewrite (proj2 (Z.ltb_lt _ _)) in HQ by lia. eapply wp_dbDelete; [done |]. intros s' Hs.
    destruct c as [[]|]; [by apply HQ | done].
Qed.

(** The cell a write lookup leaves. *)
Definition purge_if (want : bool) (c : cell) : cell := if want then purge E c else c.

Lemma wp_lookupKeyWrite k (want : bool) c o s Q : AT k WRLOCK c o s ->
  (forall s', AT k WRLOCK (purge_if want c) o s' -> Q (fst <$> purge_if want c, want && overdue E c) s') -> wp (lookupKeyWrite E k want) Q s.
Proof.
  intros HA HQ. apply wp_bind. destruct want; cbn [purge_if andb] in HQ.
  - eapply wp_expireIfNeeded; [done |]. intros s' Hs. apply wp_bind. eapply wp_lookupKey; [done |]. by apply HQ.
  - apply wp_bind. eapply wp_lookupKey; [done |]. by apply HQ.
Qed.

Lemma wp_dbAdd k v o s Q : AT k WRLOCK None o s -> (forall s', AT k WRLOCK (Some (v, None)) o s' -> Q tt s') -> wp (dbAdd k v) Q s.
Proof. db_open. rewrite dict_upd. eapply wp_put_cell; [done.. | | done]. by db_eq. Qed.

Lemma wp_dbOverwrite k v ob e o s Q : AT k WRLOCK (Some (ob, e)) o s ->
  (forall s', AT k WRLOCK (Some (v, e)) o s' -> Q tt s') -> wp (dbOverwrite k v) Q s.
Proof. db_open. rewrite dict_upd. eapply wp_put_cell; [done.. | | done]. by db_eq. Qed.

Lemma wp_setExpire k w ob e o s Q : AT k WRLOCK (Some (ob, e)) o s ->
  (forall s', AT k WRLOCK (Some (ob, Some w)) o s' -> Q tt s') -> wp (setExpire k w) Q s.
Proof. db_open. rewrite dict_upd. eapply wp_put_cell; [done.. | | done]. by db_eq. Qed.

Lemma wp_removeExpire k ob e o s Q : AT k WRLOCK (Some (ob, e)) o s ->
  (forall s', AT k WRLOCK (Some (ob, None)) o s' -> Q (isSome e) s') -> wp (removeExpire k) Q s.
Proof.
  db_open. rewrite dict_upd, expires_upd. cbn [fmap option_fmap option_map mbind option_bind snd].
  destruct e as [w|]; [|apply HQ; by exists d]. apply wp_bind.
  eapply (wp_put_cell _ _ _ _ _ (Some (ob, None))); [done.. | by db_eq |]. intros s' Hs. by apply HQ.
Qed.

Lemma wp_setKey k (want : bool) v c o s Q : AT k WRLOCK c o s ->
  (forall s', AT k WRLOCK (Some (v, None)) o s' -> Q (want && overdue E c) s') -> wp (setKey E k v want) Q s.
Proof.
  intros HA HQ. apply wp_bind. eapply wp_lookupKeyWrite; [done |]. intros s1 H1. apply wp_bind.
  destruct (purge_if want c) as [[ob e]|]; cbn [fst fmap option_fmap option_map].
  - eapply wp_dbOverwrite; [done |]. intros s2 H2. apply wp_bind. eapply wp_removeExpire; [done |]. intros s3 H3. by apply HQ.
  - eapply wp_dbAdd; [done |]. intros s2 H2. apply wp_bind. eapply wp_removeExpire; [done |]. intros s3 H3. by apply HQ.
Qed.

Lemma wp_dbExists k m c o s Q : AT k m c o s -> Q (isSome c) s -> wp (dbExists k) Q s.
Proof. db_open. rewrite dict_upd. by destruct c. Qed.

Lemma wp_store_ptr k enc b t t' e o s Q : AT k WRLOCK (Some (SdsObj enc b t, e)) o s ->
  (forall s', AT k WRLOCK (Some (SdsObj enc b t', e)) o s' -> Q tt s') -> wp (store_ptr k t') Q s.
Proof. db_open. rewrite dict_upd. eapply wp_put_cell; [done.. | | done]. by db_eq. Qed.

Lemma wp_unshare k ob t e o s Q : robj_ok ob -> sval ob = Some t -> AT k WRLOCK (Some (ob, e)) o s ->
  (forall s', AT k WRLOCK (Some (createRawStringObject t, e)) o s' -> Q (createRawStringObject t) s') ->
  wp (dbUnshareStringValue k ob) Q s.
Proof.
  intros Hok Hs HA HQ. destruct (getDecoded_spec ob t Hok Hs) as (o' & e' & c' & Hdec & ->).
  assert (Hgen : wp (decoded <-- lift (getDecodedObject ob) ;; match decoded with
      | SdsObj _ _ s => let new := createRawStringObject s in dbOverwrite k new ;; ret new
      | _ => panic end) Q s).
  { apply wp_bind. eapply wp_lift; [done |]. apply wp_bind. eapply wp_dbOverwrite; [done |]. exact HQ. }
  destruct ob as [[] [] p | b z | ]; try exact Hgen. injection Hs as ->. by apply HQ.
Qed.

End Prims.

End Cells.
