(* ===== verification/ValueRules.v ===== *)
(** * Reasoning about values behind an address *)

From stdpp Require Import gmap strings.
From S2P Require Import Prelude Bytes NumConv Object HashKit Keyspace Values KeyspaceRules Cells.
Import NumConv Object HashKit Keyspace Values KeyspaceRules Cells.

Module ValueRules.

#[local] Open Scope vire_scope.

Section Heap.
Context (E : env).
Implicit Types (k : list Z) (c : cell) (m : lockmode) (o : list Z) (s : state) (p : Z) (v : value).

Lemma At_heap s0 D k m c o s h : At E s0 D k m c o s -> At E (set_heap h s0) D k m c o (set_heap h s).
Proof. intros (d & Hd & Hok & []). exists d. split; [done |]. split; [done |]. by split. Qed.

Lemma At_heap_eq s0 D k m c o s : At E s0 D k m c o s -> heap s = heap s0 /\ exists i, held s = Some (i, m).
Proof. intros (d & _ & _ & []). eauto. Qed.

Lemma wp_load s0 D k m c o s p v Q : At E s0 D k m c o s -> heap s0 !! p = Some v -> Q v s -> wp (load p) Q s.
Proof. intros HA Hp HQ. destruct (At_heap_eq _ _ _ _ _ _ _ HA) as [Hs [i Hh]]. unfold wp, load. by rewrite Hh, Hs, Hp. Qed.

Lemma wp_store s0 D k c o s p v v' Q : At E s0 D k WRLOCK c o s -> heap s0 !! p = Some v ->
  (forall s', At E (set_heap (<[p := v']> (heap s0)) s0) D k WRLOCK c o s' -> Q tt s') -> wp (store p v') Q s.
Proof.
  intros HA Hp HQ. destruct (At_heap_eq _ _ _ _ _ _ _ HA) as [Hs [i Hh]]. unfold wp, store. rewrite Hh, Hs, Hp. apply HQ. by apply At_heap.
Qed.

Lemma wp_alloc s0 D k m c o s v Q : At E s0 D k m c o s ->
  (forall s', At E (set_heap (<[fresh (dom (heap s0)) := v]> (heap s0)) s0) D k m c o s' -> Q (fresh (dom (heap s0))) s') -> wp (alloc v) Q s.
Proof.
  intros HA HQ. destruct (At_heap_eq _ _ _ _ _ _ _ HA) as [Hs _]. unfold wp, alloc. rewrite Hs. apply HQ. by apply At_heap.
Qed.

Lemma fresh_not (h : gmap Z value) : h !! fresh (dom h) = None.
Proof. apply not_elem_of_dom, is_fresh. Qed.

Lemma set_heap_heap h h' s : set_heap h (set_heap h' s) = set_heap h s.
Proof. done. Qed.

Lemma set_heap_id s : set_heap (heap s) s = s.
Proof. by destruct s. Qed.

(** *** One value under a lock *)

(** The value at [p] is [v], the other values are those of [s0]. *)
Definition VAt s0 D k m p v c o s : Prop := At E (set_heap (<[p := v]> (heap s0)) s0) D k m c o s.

Lemma VAt_intro s0 D k m p v c o s : heap s0 !! p = Some v -> At E s0 D k m c o s -> VAt s0 D k m p v c o s.
Proof. intros Hp HA. unfold VAt. by rewrite insert_id, set_heap_id. Qed.

Lemma wp_load_at s0 D k m p v c o s Q : VAt s0 D k m p v c o s -> Q v s -> wp (load p) Q s.
Proof. intros HA. eapply wp_load; [exact HA | apply lookup_insert_eq]. Qed.

Lemma wp_store_at s0 D k p v v' c o s Q : VAt s0 D k WRLOCK p v c o s -> (forall s', VAt s0 D k WRLOCK p v' c o s' -> Q tt s') -> wp (store p v') Q s.
Proof. intros HA HQ. eapply wp_store; [exact HA | apply lookup_insert_eq |]. cbn [heap set_heap]. rewrite insert_insert_eq, set_heap_heap. exact HQ. Qed.

Lemma wp_poke_at s0 D k m p v v' c o s Q : VAt s0 D k m p v c o s -> (forall s', VAt s0 D k m p v' c o s' -> Q tt s') -> wp (poke p v') Q s.
Proof.
  intros HA HQ. destruct (At_heap_eq _ _ _ _ _ _ _ HA) as [Hs [i Hh]]. unfold wp, poke. rewrite Hh, Hs. cbn [heap set_heap]. rewrite lookup_insert_eq, insert_insert_eq.
  apply HQ. apply (At_heap _ D k m c o s (<[p := v']> (heap s0)) HA).
Qed.
End Heap.

(** ** Replies *)

Lemma arg_spec b : bytes_ok b -> robj_ok (arg b) /\ sval (arg b) = Some b.
Proof. intros Hb. split; [unfold arg, createStringObject; by destruct (_ <=? _) | apply sval_createStringObject]. Qed.

Lemma replies_multilen n : 0 <= n < 2 ^ 62 -> replies (addReplyMultiBulkLen n) (42 :: dec_string n ++ crlf).
Proof.
  intros Hn. unfold addReplyMultiBulkLen. destruct (n <? 32); [apply replies_string |]. apply replies_prefix. unfold int64, LLONG_MIN, LLONG_MAX. lia.
Qed.

Lemma replies_buffer b : zlen b < 2 ^ 62 -> replies (addReplyBulkCBuffer b) (r_bulk b).
Proof.
  intros Hb s. unfold addReplyBulkCBuffer, r_bulk.
  assert (Hr : replies (addReplyLongLongWithPrefix (zlen b) 36 ;; addReplyString b ;; addReplyString crlf) ((36 :: dec_string (zlen b) ++ crlf) ++ b ++ crlf)).
  { apply replies_bind; [apply replies_prefix; unfold int64, LLONG_MIN, LLONG_MAX; lia |]. apply replies_bind; apply replies_string. }
  rewrite Hr, <- app_comm_cons, <- !app_assoc. done.
Qed.

Lemma bulk_longlong z : int64 z -> replies (addReplyBulkLongLong z) (r_bulk (dec_string z)).
Proof.
  intros Hz s. unfold addReplyBulkLongLong, bind, lift. rewrite ll_buf_spec by (done || lia). cbn [mbind option_bind].
  pose proof (dec_string_length z Hz) as Hlen. by rewrite replies_buffer by lia.
Qed.

End ValueRules.
