(* ===== verification/SetCmds.v ===== *)
(** * Commands on sets (vr_t_set.c): the code

    SADD, SREM, SISMEMBER, SCARD, SMEMBERS, SPOP and the set algebra SINTER,
    SUNION and SDIFF with their storing forms; each handler whole, with its
    locking, its early returns and its replies.  A set object in a database is
    an address; the value is in the table [heap] of the state and is read under
    a lock and written under a write lock of its database.  Temporary sets are
    values.  A freed object that is used again is a failure.

    The propagation to the append-only file and to replicas is not part of the
    state: [rewriteClientCommandVector], [alsoPropagate] and
    [preventCommandPropagation] are left out.  The results of [random()] and
    [rand()] a command draws are a list. *)

From stdpp Require Import gmap strings.
From S2P Require Import Prelude Bytes Bits NumConv Object HashKit Intset Dict DictIter DictRandom ObjDict SetType Keyspace Values.
Import NumConv Object HashKit Keyspace Values.
Import Intset(intsetNew, intsetGet, intsetLen, intsetRandom, intsetRemove, intsetFind).
Import DictRandom(dictGetRandomKey).
Import ObjDict(elem).
Import SetType.

Module SetCmds.

#[local] Open Scope vire_scope.

Definition store_set (p : Z) (v : setobj) : M unit := store p (VSet v).
Definition alloc_set (v : setobj) : M Z := alloc (VSet v).

Section Cmds.
Context (E : env) (C : valenv).

Definition t_add := setTypeAdd (junk C) (hash_seed C) (can_resize C) (set_max_intset_entries C) (table0 C) (table1 C).
Definition t_remove := setTypeRemove (junk C) (hash_seed C) (can_resize C).
Definition t_member := setTypeIsMember (hash_seed C).
Definition t_next := setTypeNext (table0 C) (table1 C).
Definition t_release := setTypeReleaseIterator (table0 C) (table1 C).

Definition set_add (p : Z) (value : robj) : M Z :=
  v <-- load_set p ;; r <-- lift (t_add v value) ;; store_set p r.1 ;; ret r.2.

Definition set_remove (p : Z) (value : robj) : M Z :=
  v <-- load_set p ;; r <-- lift (t_remove v value) ;; store_set p r.1 ;; ret r.2.

(** The object of an element, [createStringObjectFromLongLong] for integers. *)
Definition eobj (e : element) : robj := match e with EObj o => o | EInt z => createStringObjectFromLongLong z end.

(** [while ((encoding = setTypeNext(si,...)) != -1) body]: [inr] leaves the
    loop at once.  The set and the iterator are handed on to the release. *)
Fixpoint for_each {A B} (fuel : nat) (body : element -> A -> M (A + B)) (v : setobj) (si : setTypeIterator) (acc : A) : M (setobj * setTypeIterator * (A + B)) :=
  match fuel with
  | O => panic
  | S fuel =>
      r <-- lift (t_next v si) ;;
      let '(v, si, e) := r in
      match e with
      | None => ret (v, si, inl acc)
      | Some e =>
          x <-- body e acc ;;
          match x with
          | inl acc => for_each fuel body v si acc
          | inr b => ret (v, si, inr b)
          end
      end
  end.

Definition each {A B} (body : element -> A -> M (A + B)) (v : setobj) (acc : A) : M (setobj * setTypeIterator * (A + B)) :=
  for_each (S (S (Z.to_nat (setTypeSize v)))) body v (setTypeInitIterator v) acc.

(** The loop with no way out but its end, and the release. *)
Definition each_all {A} (body : element -> A -> M A) (v : setobj) (acc : A) : M A :=
  r <-- each (B := Empty_set) (fun e acc => acc <-- body e acc ;; ret (inl acc)) v acc ;;
  let '(v, si, x) := r in
  lift (t_release v si) ;;
  match x with inl acc => ret acc | inr b => match b with end end.

(** ** SADD, SREM *)

Fixpoint sadd_loop (p : Z) (args : list (list Z)) (added : Z) : M Z :=
  match args with
  | [] => ret added
  | a :: args =>
      o <-- lift (tryObjectEncoding (arg a)) ;;
      r <-- set_add p o ;;
      sadd_loop p args (if negb (r =? 0) then added + 1 else added)
  end.

Definition saddCommand (key : list Z) (args : list (list Z)) : M unit :=
  fetchInternalDbByKey E key ;;
  lockDbWrite ;;
  r <-- lookupKeyWrite E key true ;;
  let finish p :=
    added <-- sadd_loop p args 0 ;;
    add_dirty added ;;
    addReplyLongLong added ;;
    unlockDb ;;
    count_expired r.2 in
  match r.1 with
  | None =>
      first <-- lift (head args) ;;
      v <-- lift (setTypeCreate (arg first)) ;;
      p <-- alloc_set v ;;
      dbAdd key (OtherObj OBJ_SET p) ;;
      finish p
  | Some set =>
      match as_set set with
      | None => unlockDb ;; count_expired r.2 ;; addReplyString shared_wrongtypeerr
      | Some p => finish p
      end
  end.

(** The members removed and whether the key was. *)
Fixpoint srem_loop (key : list Z) (p : Z) (args : list (list Z)) (deleted : Z) : M Z :=
  match args with
  | [] => ret deleted
  | a :: args =>
      r <-- set_remove p (arg a) ;;
      if negb (r =? 0) then
        v <-- load_set p ;;
        if setTypeSize v =? 0 then dbDelete key ;; ret (deleted + 1)
        else srem_loop key p args (deleted + 1)
      else srem_loop key p args deleted
  end.

Definition sremCommand (key : list Z) (args : list (list Z)) : M unit :=
  fetchInternalDbByKey E key ;;
  lockDbWrite ;;
  r <-- lookupKeyWriteOrReply E key shared_czero true ;;
  match r.1 with
  | None => unlockDb ;; count_expired r.2
  | Some set =>
      t <-- checkType_set set ;;
      match t with
      | None => unlockDb ;; count_expired r.2
      | Some p =>
          deleted <-- srem_loop key p args 0 ;;
          (if negb (deleted =? 0) then add_dirty deleted else ret tt) ;;
          addReplyLongLong deleted ;;
          unlockDb ;;
          count_expired r.2
      end
  end.

(** ** SISMEMBER, SCARD, SMEMBERS *)

Definition read_set (key : list Z) (miss : list Z) (body : setobj -> M unit) : M unit :=
  read_value E as_set key miss (fun p => v <-- load_set p ;; body v).

Definition sismemberCommand (key a : list Z) : M unit :=
  read_set key shared_czero (fun v =>
    o <-- lift (tryObjectEncoding (arg a)) ;;
    b <-- lift (t_member v o) ;;
    addReplyString (if (b : bool) then shared_cone else shared_czero)).

Definition scardCommand (key : list Z) : M unit := read_set key shared_czero (fun v => addReplyLongLong (setTypeSize v)).

Definition smembersGenericCommand (v : setobj) : M unit :=
  addReplyMultiBulkLen (setTypeSize v) ;;
  each_all (fun e _ => match e with EObj o => addReplyBulk o | EInt z => addReplyBulkLongLong z end) v tt.

Definition smembersCommand (key : list Z) : M unit := read_set key shared_emptymultibulk smembersGenericCommand.

(** ** SPOP *)

(** [setTypeRandomElement]: the set, the element and the random numbers left. *)
Definition setTypeRandomElement (v : setobj) (rnd : list Z) : option (setobj * element * list Z) :=
  match v with
  | SetHT d =>
      '(d, de, rnd) ← dictGetRandomKey (DT := setDictType (hash_seed C)) d rnd;
      de ← de;
      Some (SetHT d, EObj (proj1_sig (Dict.key de)), rnd)
  | SetInt st =>
      match rnd with
      | [] => None
      | r :: rnd => llele ← intsetRandom st r; Some (v, EInt llele, rnd)
      end
  end.

Definition set_random (p : Z) (rnd : list Z) : M (element * list Z) :=
  v <-- load_set p ;; r <-- lift (setTypeRandomElement v rnd) ;; store_set p r.1.1 ;; ret (r.1.2, r.2).

(** CASE 2 of the count variant: [count] random members, removed one by one. *)
Fixpoint spop_few (count : nat) (p : Z) (rnd : list Z) : M (list Z) :=
  match count with
  | O => ret rnd
  | S count =>
      r <-- set_random p rnd ;;
      objele <-- (match r.1 with
                  | EInt llele => ret (createStringObjectFromLongLong llele)
                  | EObj objele => lift (dupStringObjectUnconstant objele)
                  end) ;;
      addReplyBulk objele ;;
      set_remove p objele ;;
      spop_few count p r.2
  end.

(** CASE 3: the members to keep are moved to a new set. *)
Fixpoint spop_keep (remaining : nat) (p : Z) (newset : option setobj) (rnd : list Z) : M (option setobj) :=
  match remaining with
  | O => ret newset
  | S remaining =>
      r <-- set_random p rnd ;;
      let objele := eobj r.1 in
      v <-- (match newset with Some v => ret v | None => lift (setTypeCreate objele) end) ;;
      v <-- lift (t_add v objele) ;;
      set_remove p objele ;;
      spop_keep remaining p (Some v.1) r.2
  end.

Definition spopWithCountCommand (key n : list Z) (rnd : list Z) : M unit :=
  l <-- getLongFromObjectOrReply (Some (arg n)) None ;;
  match l with
  | None => ret tt
  | Some l =>
      if l >=? 0 then
        let count := u32 l in
        fetchInternalDbByKey E key ;;
        lockDbWrite ;;
        r <-- lookupKeyWriteOrReply E key shared_emptymultibulk true ;;
        match r.1 with
        | None => unlockDb ;; count_expired r.2
        | Some set =>
            t <-- checkType_set set ;;
            match t with
            | None => unlockDb ;; count_expired r.2
            | Some p =>
                if count =? 0 then
                  unlockDb ;; count_expired r.2 ;; addReplyString shared_emptymultibulk
                else
                  v <-- load_set p ;;
                  let size := setTypeSize v in
                  add_dirty count ;;
                  if count >=? size then
                    smembersGenericCommand v ;;
                    dbDelete key ;;
                    add_dirty 1 ;;
                    unlockDb ;;
                    count_expired r.2
                  else
                    addReplyMultiBulkLen count ;;
                    let remaining := u64 (size - count) in
                    (if u64 (remaining * 5) >? count then
                       spop_few (Z.to_nat count) p rnd ;; ret tt
                     else
                       newset <-- spop_keep (Z.to_nat remaining) p None rnd ;;
                       v <-- load_set p ;;
                       each_all (fun e _ => addReplyBulk (eobj e)) v tt ;;
                       newset <-- lift newset ;;
                       q <-- alloc_set newset ;;
                       dbOverwrite key (OtherObj OBJ_SET q)) ;;
                    unlockDb ;;
                    count_expired r.2
            end
        end
      else addReplyString shared_outofrangeerr
  end.

Definition spopOneCommand (key : list Z) (rnd : list Z) : M unit :=
  fetchInternalDbByKey E key ;;
  lockDbWrite ;;
  r <-- lookupKeyWriteOrReply E key shared_nullbulk true ;;
  match r.1 with
  | None => unlockDb ;; count_expired r.2
  | Some set =>
      t <-- checkType_set set ;;
      match t with
      | None => unlockDb ;; count_expired r.2
      | Some p =>
          x <-- set_random p rnd ;;
          ele <-- (match x.1 with
                   | EInt llele =>
                       v <-- load_set p ;;
                       match v with
                       | SetInt st =>
                           y <-- lift (intsetRemove (junk C) st llele) ;;
                           store_set p (SetInt y.1) ;;
                           ret (createStringObjectFromLongLong llele)
                       | SetHT _ => panic
                       end
                   | EObj ele =>
                       ele <-- lift (dupStringObjectUnconstant ele) ;;
                       set_remove p ele ;;
                       ret ele
                   end) ;;
          addReplyBulk ele ;;
          v <-- load_set p ;;
          (if setTypeSize v =? 0 then dbDelete key ;; ret tt else ret tt) ;;
          add_dirty 1 ;;
          unlockDb ;;
          count_expired r.2
      end
  end.

(** [argv] after the name: the key and possibly a count. *)
Definition spopCommand (argv : list (list Z)) (rnd : list Z) : M unit :=
  match argv with
  | [key] => spopOneCommand key rnd
  | [key; n] => spopWithCountCommand key n rnd
  | _ => addReplyString shared_syntaxerr
  end.

(** ** Set algebra *)

(** Looking up a set under the read lock; [body] runs with the lock held. *)
Definition with_set {A} (key : list Z) (absent : M A) (wrong : M A) (body : setobj -> M A) : M A :=
  fetchInternalDbByKey E key ;;
  lockDbRead ;;
  o <-- lookupKeyRead E key ;;
  match o with
  | None => unlockDb ;; absent
  | Some set =>
      t <-- checkType_set set ;;
      match t with
      | None => unlockDb ;; wrong
      | Some p =>
          v <-- load_set p ;;
          a <-- body v ;;
          unlockDb ;;
          ret a
      end
  end.

(** Every member of a set added to another: [setTypeNextObject] loops. *)
Definition copy_into (v dst : setobj) : M setobj :=
  each_all (fun e dst => r <-- lift (t_add dst (eobj e)) ;; ret r.1) v dst.

(** The release of an iterator whose set was freed before. *)
Definition release_freed (v : setobj) : M unit := match v with SetInt _ => ret tt | SetHT _ => panic end.

(** The result in STORE mode. *)
Definition store_result (dstkey : list Z) (dstset : option setobj) : M unit :=
  fetchInternalDbByKey E dstkey ;;
  lockDbWrite ;;
  dbDelete dstkey ;;
  (match dstset with
   | Some v =>
       if setTypeSize v >? 0 then
         p <-- alloc_set v ;;
         dbAdd dstkey (OtherObj OBJ_SET p) ;;
         addReplyLongLong (setTypeSize v)
       else addReplyString shared_czero
   | None => addReplyString shared_czero
   end) ;;
  unlockDb ;;
  add_dirty 1.

(** *** SINTER *)

(** A missing operand: nothing to intersect. *)
Definition sinter_missing (dstkey : option (list Z)) : M unit :=
  stat_misses 1 ;;
  match dstkey with
  | Some dst =>
      fetchInternalDbByKey E dst ;;
      lockDbWrite ;;
      d <-- dbDelete dst ;;
      (if (d : bool) then add_dirty 1 else ret tt) ;;
      unlockDb ;;
      addReplyString shared_czero
  | None => addReplyString shared_emptymultibulk
  end.

(** The first pass: the index of the smallest set, [None] when the command has
    replied. *)
Fixpoint sinter_smallest (setkeys : list (list Z)) (dstkey : option (list Z)) (j min_len min_len_idx : Z) : M (option Z) :=
  match setkeys with
  | [] => ret (Some min_len_idx)
  | k :: setkeys =>
      r <-- with_set k (sinter_missing dstkey ;; ret None) (stat_hits 1 ;; ret None) (fun v => ret (Some (setTypeSize v))) ;;
      match r with
      | None => ret None
      | Some size =>
          stat_hits 1 ;;
          if (min_len =? u64 (-1)) || (size <? min_len) then sinter_smallest setkeys dstkey (j + 1) size j
          else sinter_smallest setkeys dstkey (j + 1) min_len min_len_idx
      end
  end.

(** The tests of one member against the other sets. *)
Inductive verdict := Keep | Break | Gone | Wrong.

Definition sinter_test (e : element) (v : setobj) : option bool :=
  match e with
  | EInt intobj =>
      match v with
      | SetInt st => intsetFind st intobj
      | SetHT _ => t_member v (createStringObjectFromLongLong intobj)
      end
  | EObj eleobj =>
      match eleobj, v with
      | IntObj _ z, SetInt st => found ← intsetFind st z; if (found : bool) then t_member v eleobj else Some false
      | _, _ => t_member v eleobj
      end
  end.

Fixpoint sinter_check (setkeys : list (list Z)) (j min_len_idx : Z) (e : element) : M verdict :=
  match setkeys with
  | [] => ret Keep
  | k :: setkeys =>
      if j =? min_len_idx then sinter_check setkeys (j + 1) min_len_idx e
      else
        r <-- with_set k (ret Gone) (ret Wrong) (fun v => b <-- lift (sinter_test e v) ;; ret (if (b : bool) then Keep else Break)) ;;
        match r with
        | Keep => sinter_check setkeys (j + 1) min_len_idx e
        | r => ret r
        end
  end.

(** The reply or the store; [cardinality] counts the members found. *)
Definition sinter_done (dstkey : option (list Z)) (dstset : option setobj) (cardinality : Z) : M unit :=
  match dstkey with
  | Some dst => store_result dst dstset
  | None =>
      addReplyMultiBulkLen cardinality ;;
      match dstset with
      | Some v => if setTypeSize v >? 0 then each_all (fun e _ => addReplyBulk (eobj e)) v tt else ret tt
      | None => ret tt
      end
  end.

Definition sinterGenericCommand (setkeys : list (list Z)) (dstkey : option (list Z)) : M unit :=
  r <-- sinter_smallest setkeys dstkey 0 (u64 (-1)) 0 ;;
  match r with
  | None => ret tt
  | Some min_len_idx =>
      k <-- lift (setkeys !! Z.to_nat min_len_idx) ;;
      m <-- with_set k (ret (inl true)) (ret (inl false)) (fun v => c <-- copy_into v (SetInt intsetNew) ;; ret (inr c)) ;;
      match m with
      | inl true => sinter_done dstkey None 0
      | inl false => ret tt
      | inr min_len_set =>
          r <-- each (fun e (acc : setobj * Z) =>
                  x <-- sinter_check setkeys 0 min_len_idx e ;;
                  match x with
                  | Keep => d <-- lift (t_add acc.1 (eobj e)) ;; ret (inl (d.1, u64 (acc.2 + 1)))
                  | Break => ret (inl acc)
                  | Gone => ret (inr (true, acc.2))
                  | Wrong => ret (inr (false, acc.2))
                  end) min_len_set (SetInt intsetNew, 0) ;;
          let '(v, si, x) := r in
          match x with
          | inl (dstset, cardinality) => lift (t_release v si) ;; sinter_done dstkey (Some dstset) cardinality
          | inr (true, cardinality) => release_freed v ;; sinter_done dstkey None cardinality
          | inr (false, _) => release_freed v
          end
      end
  end.

Definition sinterCommand (setkeys : list (list Z)) : M unit := sinterGenericCommand setkeys None.
Definition sinterstoreCommand (dstkey : list Z) (setkeys : list (list Z)) : M unit := sinterGenericCommand setkeys (Some dstkey).

(** *** SUNION and SDIFF *)

Inductive set_op := SET_OP_UNION | SET_OP_DIFF.

(** The first pass: the work of the two algorithms, [None] after an error. *)
Fixpoint ud_sizes (op : set_op) (setkeys : list (list Z)) (j first_length one two : Z) : M (option (Z * Z)) :=
  match setkeys with
  | [] => ret (Some (one, two))
  | k :: setkeys =>
      r <-- with_set k (stat_misses 1 ;; ret (Some None)) (stat_hits 1 ;; ret None) (fun v => ret (Some (Some (setTypeSize v)))) ;;
      match r with
      | None => ret None
      | Some None => ud_sizes op setkeys (j + 1) first_length one two
      | Some (Some size) =>
          stat_hits 1 ;;
          match op with
          | SET_OP_DIFF =>
              let first_length := if j =? 0 then s64 size else first_length in
              ud_sizes op setkeys (j + 1) first_length (s64 (one + first_length)) (s64 (two + size))
          | SET_OP_UNION => ud_sizes op setkeys (j + 1) first_length one two
          end
      end
  end.

(** The members of [v] added to [dst], counting the new ones. *)
Definition add_counting (v dst : setobj) (cardinality : Z) : M (setobj * Z) :=
  each_all (fun e (acc : setobj * Z) =>
    r <-- lift (t_add acc.1 (eobj e)) ;;
    ret (r.1, if negb (r.2 =? 0) then s32 (acc.2 + 1) else acc.2)) v (dst, cardinality).

Definition remove_counting (v dst : setobj) (cardinality : Z) : M (setobj * Z) :=
  each_all (fun e (acc : setobj * Z) =>
    r <-- lift (t_remove acc.1 (eobj e)) ;;
    ret (r.1, if negb (r.2 =? 0) then s32 (acc.2 - 1) else acc.2)) v (dst, cardinality).

(** [None] is the return after an error reply. *)
Fixpoint sunion_loop (setkeys : list (list Z)) (dstset : setobj) (cardinality : Z) : M (option (setobj * Z)) :=
  match setkeys with
  | [] => ret (Some (dstset, cardinality))
  | k :: setkeys =>
      r <-- with_set k (ret (Some (dstset, cardinality))) (ret None) (fun v => x <-- add_counting v dstset cardinality ;; ret (Some x)) ;;
      match r with
      | Some (dstset, cardinality) => sunion_loop setkeys dstset cardinality
      | None => ret None
      end
  end.

(** Algorithm 1: the member against the sets from the second on; [None] is the
    wrong type. *)
Fixpoint sdiff_check (setkeys : list (list Z)) (ele : robj) : M (option bool) :=
  match setkeys with
  | [] => ret (Some true)
  | k :: setkeys =>
      r <-- with_set k (ret (Some false)) (ret None) (fun v => b <-- lift (t_member v ele) ;; ret (Some b)) ;;
      match r with
      | None => ret None
      | Some true => ret (Some false)
      | Some false => sdiff_check setkeys ele
      end
  end.

Definition sdiff_algo1 (setkeys : list (list Z)) (dstset : setobj) : M (option (setobj * Z)) :=
  k <-- lift (head setkeys) ;;
  m <-- with_set k (ret (inl true)) (ret (inl false)) (fun v => c <-- copy_into v (SetInt intsetNew) ;; ret (inr c)) ;;
  match m with
  | inl true => ret (Some (dstset, 0))
  | inl false => ret None
  | inr first_set =>
      r <-- each (fun e (acc : setobj * Z) =>
              x <-- sdiff_check (tail setkeys) (eobj e) ;;
              match x with
              | None => ret (inr tt)
              | Some true => d <-- lift (t_add acc.1 (eobj e)) ;; ret (inl (d.1, s32 (acc.2 + 1)))
              | Some false => ret (inl acc)
              end) first_set (dstset, 0) ;;
      let '(v, si, x) := r in
      match x with
      | inl acc => lift (t_release v si) ;; ret (Some acc)
      | inr tt => release_freed v ;; ret None
      end
  end.

(** Algorithm 2, as written: every round looks up [setkeys[0]]. *)
Fixpoint sdiff_algo2_loop (key0 : list Z) (setkeys : list (list Z)) (j : Z) (dstset : setobj) (cardinality : Z) : M (option (setobj * Z)) :=
  match setkeys with
  | [] => ret (Some (dstset, cardinality))
  | _ :: setkeys =>
      r <-- with_set key0 (ret (inl (j =? 0))) (ret (inr None))
              (fun v => x <-- (if j =? 0 then add_counting v dstset cardinality else remove_counting v dstset cardinality) ;; ret (inr (Some x))) ;;
      match r with
      | inl true => ret (Some (dstset, cardinality))
      | inl false => sdiff_algo2_loop key0 setkeys (j + 1) dstset cardinality
      | inr None => ret None
      | inr (Some (dstset, cardinality)) =>
          if cardinality =? 0 then ret (Some (dstset, cardinality))
          else sdiff_algo2_loop key0 setkeys (j + 1) dstset cardinality
      end
  end.

(** The reply or the store of the result. *)
Definition ud_done (dstkey : option (list Z)) (dstset : setobj) (cardinality : Z) : M unit :=
  match dstkey with
  | None =>
      addReplyMultiBulkLen cardinality ;;
      each_all (fun e _ => addReplyBulk (eobj e)) dstset tt
  | Some dst => store_result dst (Some dstset)
  end.

Definition sunionDiffGenericCommand (setkeys : list (list Z)) (dstkey : option (list Z)) (op : set_op) : M unit :=
  w <-- ud_sizes op setkeys 0 0 0 0 ;;
  match w with
  | None => ret tt
  | Some (algo_one_work, algo_two_work) =>
      let dstset := SetInt intsetNew in
      r <-- (match op with
             | SET_OP_UNION => sunion_loop setkeys dstset 0
             | SET_OP_DIFF =>
                 if Z.quot algo_one_work 2 <=? algo_two_work then sdiff_algo1 setkeys dstset
                 else
                   k <-- lift (head setkeys) ;;
                   sdiff_algo2_loop k setkeys 0 dstset 0
             end) ;;
      match r with
      | None => ret tt
      | Some (dstset, cardinality) => ud_done dstkey dstset cardinality
      end
  end.

Definition sunionCommand (setkeys : list (list Z)) : M unit := sunionDiffGenericCommand setkeys None SET_OP_UNION.
Definition sunionstoreCommand (dstkey : list Z) (setkeys : list (list Z)) : M unit := sunionDiffGenericCommand setkeys (Some dstkey) SET_OP_UNION.
Definition sdiffCommand (setkeys : list (list Z)) : M unit := sunionDiffGenericCommand setkeys None SET_OP_DIFF.
Definition sdiffstoreCommand (dstkey : list Z) (setkeys : list (list Z)) : M unit := sunionDiffGenericCommand setkeys (Some dstkey) SET_OP_DIFF.

End Cmds.

End SetCmds.
