(* ===== verification/SetRules.v ===== *)
(** * Reasoning about the set commands

    What an iterator over a set delivers, loops over it inside the monad of the
    commands, and the rules for the set objects of the databases. *)

From stdpp Require Import gmap strings.
From S2P Require Import Prelude Bytes Bits NumConv Object HashKit Intset Dict DictInv DictOps DictProps DictIter ObjDict SetType SetProps Keyspace Values KeyspaceRules Cells ValueRules SetCmds.
Import NumConv Object HashKit Keyspace Values KeyspaceRules Cells ValueRules.
Import Intset(intsetNew, rep, rep_max, INTSET_MAX).
Import Dict(dictEntry, ht0, ht1, get_ht) DictInv(dict_ok, entries).
Import ObjDict SetType SetProps SetCmds.

Module SetRules.

#[local] Open Scope vire_scope.

(** ** Iteration *)

Section Yields.
Context (C : valenv).
Implicit Types (v : setobj) (si : setTypeIterator) (e : element) (es : list element).

(** The elements an iterator delivers, the set staying as it is; the release at
    the end succeeds. *)
Inductive yields v : setTypeIterator -> list element -> Prop :=
  | yields_nil si si' : t_next C v si = Some (v, si', None) -> t_release C v si' = Some v -> yields v si []
  | yields_cons si si' e es : t_next C v si = Some (v, si', Some e) -> yields v si' es -> yields v si (e :: es).

(** The elements are well-formed objects denoting the strings of [l]. *)
Definition denote es (l : list (list Z)) : Prop := Forall2 (fun e b => robj_ok (eobj e) /\ sval (eobj e) = Some b /\
  match e with EInt z => int64 z | EObj _ => True end) es l.

Lemma yields_int st vs (i : nat) : rep st vs -> (i <= length vs)%nat -> yields (SetInt st) (SiInt (Z.of_nat i)) (EInt <$> drop i vs).
Proof.
  intros Hr Hi. pose proof (rep_max _ _ Hr) as Hm. unfold INTSET_MAX in Hm. remember (length vs - i)%nat as n eqn:Hn. revert i Hi Hn.
  induction n as [|n IH]; intros i Hi Hn.
  - rewrite drop_ge by lia. eapply (yields_nil _ _ (SiInt (s32 (Z.of_nat i + 1)))); [|done]. unfold t_next. cbn [setTypeNext]. rewrite (intsetGet_spec _ _ _ Hr Hi). by rewrite lookup_ge_None_2 by lia.
  - destruct (lookup_lt_is_Some_2 vs i) as [v Hv]; [lia |]. rewrite (drop_S _ _ _ Hv). cbn [fmap list_fmap]. eapply yields_cons; [| apply (IH (S i)); lia].
    unfold t_next. cbn [setTypeNext]. rewrite (intsetGet_spec _ _ _ Hr Hi), Hv. cbn. rewrite swrap_small by (simpl; lia). do 4 f_equal. lia.
Qed.

#[local] Hint Extern 0 (DictType elem unit) => exact (setDictType (hash_seed C)) : typeclass_instances.
#[local] Instance rules_laws : DictTypeLaws elem unit := set_laws (hash_seed C).

Definition ht_elements (l : list (dictEntry elem unit)) : list element := (fun x => EObj (proj1_sig (Dict.key x))) <$> l.

Lemma yields_ht (d : Dict.dict elem unit) it l : DictIter.delivers (table0 C) (table1 C) d it l -> yields (SetHT d) (SiHT it) (ht_elements l).
Proof.
  induction 1 as [it it' Hn Hr | it it' e es Hn _ IH].
  - eapply (yields_nil _ _ (SiHT it')); [unfold t_next; cbn [setTypeNext]; by rewrite Hn | unfold t_release; cbn [setTypeReleaseIterator]; by rewrite Hr].
  - eapply yields_cons; [unfold t_next; cbn [setTypeNext]; by rewrite Hn | exact IH].
Qed.

Lemma denote_ht (l : list (dictEntry elem unit)) : denote (ht_elements l) (ekey <$> l).
Proof. induction l as [|x l IH]; cbn; constructor; [|done]. cbn. destruct (elem_ok (Dict.key x)). done. Qed.

Lemma denote_int vs : Forall int64 vs -> denote (EInt <$> vs) (dec_string <$> vs).
Proof.
  induction 1 as [|v vs Hv _ IH]; cbn; constructor; [|done]. split_and!; [| apply sval_fromLongLong | done].
  cbn. unfold createStringObjectFromLongLong. by destruct (_ && _).
Qed.

Lemma yields_init v l : holds (hash_seed C) v l -> exists es, yields v (setTypeInitIterator v) es /\ denote es l /\ length es = Z.to_nat (setTypeSize v).
Proof.
  intros Hl. pose proof (size_spec _ v l Hl) as Hsz. destruct v as [st | d]; cbn [holds setTypeInitIterator] in *.
  - destruct Hl as (vs & Hr & ->). exists (EInt <$> vs). rewrite Hsz, !length_fmap, Nat2Z.id.
    split_and!; [apply (yields_int st vs 0 Hr); lia | apply denote_int; by eapply rep_int64 | done].
  - destruct Hl as [Hok ->]. exists (ht_elements (entries d)). rewrite Hsz, length_fmap. split_and!; [| apply denote_ht | unfold ht_elements; by rewrite length_fmap, Nat2Z.id].
    by apply yields_ht, DictIter.delivers_all.
Qed.

(** ** Loops over a set *)

Lemma wp_for_each {A B} (body : element -> A -> M (A + B)) v total (I : list element -> A -> state -> Prop) :
  (forall pre e post acc s, total = pre ++ e :: post -> I pre acc s -> wp (body e acc) (fun x s' => exists acc', x = inl acc' /\ I (pre ++ [e]) acc' s') s) ->
  forall si es, yields v si es -> forall fuel pre acc s, (length es < fuel)%nat -> total = pre ++ es -> I pre acc s ->
  wp (for_each C fuel body v si acc) (fun r s' => exists si' acc', r = (v, si', inl acc') /\ t_release C v si' = Some v /\ I total acc' s') s.
Proof.
  intros Hbody. induction 1 as [si si' Hn Hr | si si' e es Hn Hy IH]; intros fuel pre acc s Hf Ht HI; (destruct fuel as [|fuel]; [lia |]); cbn [for_each].
  - apply wp_bind. eapply wp_lift; [exact Hn |]. apply wp_ret. exists si', acc. rewrite app_nil_r in Ht. by subst.
  - apply wp_bind. eapply wp_lift; [exact Hn |]. apply wp_bind. eapply wp_mono; [eapply Hbody; [exact Ht | exact HI] |].
    intros x s' (acc' & -> & HI'). apply (IH fuel (pre ++ [e])); [cbn in Hf; lia | by rewrite <- app_assoc | done].
Qed.

Lemma wp_each v l : holds (hash_seed C) v l -> exists es, denote es l /\
  forall A B (body : element -> A -> M (A + B)) (I : list element -> A -> state -> Prop) acc s, I [] acc s ->
    (forall pre e post acc s, es = pre ++ e :: post -> I pre acc s -> wp (body e acc) (fun x s' => exists acc', x = inl acc' /\ I (pre ++ [e]) acc' s') s) ->
    wp (each C body v acc) (fun r s' => exists si' acc', r = (v, si', inl acc') /\ t_release C v si' = Some v /\ I es acc' s') s.
Proof.
  intros Hl. destruct (yields_init v l Hl) as (es & Hy & Hd & Hlen). exists es. split; [done |]. intros A B body I acc s HI Hbody.
  unfold each. eapply wp_for_each; [exact Hbody | exact Hy | lia | by instantiate (1 := []) | exact HI].
Qed.

Lemma wp_each_all v l : holds (hash_seed C) v l -> exists es, denote es l /\
  forall A (body : element -> A -> M A) (I : list element -> A -> state -> Prop) acc s (Q : A -> state -> Prop), I [] acc s ->
    (forall pre e post acc s, es = pre ++ e :: post -> I pre acc s -> wp (body e acc) (fun acc' s' => I (pre ++ [e]) acc' s') s) ->
    (forall acc s, I es acc s -> Q acc s) -> wp (each_all C body v acc) Q s.
Proof.
  intros Hl. destruct (wp_each v l Hl) as (es & Hd & Heach). exists es. split; [done |]. intros A body I acc s Q HI Hbody HQ.
  unfold each_all. apply wp_bind. eapply wp_mono; [eapply (Heach A Empty_set _ I acc s HI) |].
  - intros pre e post acc1 s1 He HI1. apply wp_bind. eapply wp_mono; [by eapply Hbody |]. intros acc2 s2 HI2. apply wp_ret. eauto.
  - intros r s' (si' & acc' & -> & Hrel & HI'). apply wp_bind. eapply wp_lift; [exact Hrel |]. apply wp_ret. by apply HQ.
Qed.
End Yields.

(** ** Set objects of the databases *)

Section Heap.
Context (E : env).
Implicit Types (k : list Z) (c : cell) (m : lockmode) (o : list Z) (s : state) (p : Z) (v : setobj).

Lemma wp_load_set s0 D k m c o s p v Q : At E s0 D k m c o s -> heap s0 !! p = Some (VSet v) -> Q v s -> wp (load_set p) Q s.
Proof. intros HA Hp HQ. unfold load_set. apply wp_bind. by eapply wp_load. Qed.

(** A look at one set under the read lock. *)
Lemma wp_with_set {A} s0 D o s k (absent wrong : M A) (body : setobj -> M A) Q : Out s0 D o s -> dbs_ok E (dictid s0) D ->
  match seen E (getcell E (dictid s0) k D) with
  | None => forall s', Out s0 D o s' -> wp absent Q s'
  | Some (ob, _) =>
      match as_set ob with
      | None => forall s', Out s0 D (o ++ shared_wrongtypeerr) s' -> wp wrong Q s'
      | Some p => exists v, heap s0 !! p = Some (VSet v) /\ forall s', wp (body v) (fun a s1 => s1 = s' /\ forall s2, Out s0 D o s2 -> Q a s2) s'
      end
  end -> wp (with_set E k absent wrong body) Q s.
Proof.
  intros HO Hok H. unfold with_set. eapply wp_enter_bind; [done.. |]. intros s1 H1.
  assert (Hout : forall s' o', At E s0 D k RDLOCK (getcell E (dictid s0) k D) o' s' -> wp unlockDb (fun _ => Out s0 D o') s').
  { intros s' o' HA. eapply wp_leave; [exact HA |]. intros s2 H2. by rewrite setcell_id in H2. }
  apply wp_bind. eapply wp_lookupKeyRead; [exact H1 |]. destruct (seen E _) as [[ob e]|]; cbn [fst fmap option_fmap option_map].
  - unfold checkType_set, checkType_as. destruct (as_set ob) as [p|]; apply wp_bind.
    + destruct H as (v & Hv & H). apply wp_ret. apply wp_bind. eapply wp_load_set; [exact H1 | exact Hv |]. apply wp_bind. eapply wp_mono; [apply H |].
      intros a s2 [-> Hq]. apply wp_bind. eapply wp_mono; [by apply Hout |]. intros ? s3 H3. by apply Hq.
    + apply wp_bind. eapply wp_at_reply; [apply replies_string | exact H1 |]. intros s2 H2. apply wp_ret. apply wp_bind. eapply wp_mono; [by apply Hout |].
      intros ? s3 H3. by apply H.
  - apply wp_bind. eapply wp_mono; [by apply Hout |]. intros ? s3 H3. by apply H.
Qed.
End Heap.

End SetRules.
