(* ===== verification/CmdSpec.v ===== *)
(** * What the commands promise

    An abstract key space: a key maps to a string or an opaque value and an
    optional expire time; no encodings, no locks, no internal databases.  Every
    one-key command is a function from the key's entry to the new entry and the
    reply. *)

From stdpp Require Import gmap strings.
From S2P Require Import Prelude Bytes Bits NumConv Object HashKit Bitops Keyspace KeyCmds StringCmds KeyspaceRules Cells.
Import NumConv Object HashKit Bitops Keyspace KeyCmds StringCmds KeyspaceRules Cells.

Module CmdSpec.

(** ** Values *)

Inductive val := Str (s : list Z) | Oth (t : other_type) (p : Z).

#[export] Instance val_eq_dec : EqDecision val.
Proof. solve_decision. Defined.

Abbreviation entry := (val * option Z)%type.

(** The value an object denotes, whatever its encoding. *)
Definition vof (o : robj) : val :=
  match o with SdsObj _ _ s => Str s | IntObj _ z => Str (dec_string z) | OtherObj t p => Oth t p end.

Definition absc (c : cell) : option entry := prod_map vof id <$> c.

(** Objects in range, strings within the limit of 512 MB. *)
Definition MAXLEN : Z := 512 * 1024 * 1024.
Definition obj_ok (o : robj) : Prop := robj_ok o /\ forall t, vof o = Str t -> bytes_ok t /\ zlen t <= MAXLEN.
Definition cok (c : cell) : Prop := forall o e, c = Some (o, e) -> obj_ok o.

(** A string argument read as an integer. *)
Definition parse_ll (s : list Z) : option Z :=
  match getLongLongFromObject (Some (createRawStringObject s)) with Some r => r | None => None end.

Definition r_wrongtype : list Z := shared_wrongtypeerr.
Definition r_notint : list Z := r_error "value is not an integer or out of range".
Definition r_toolong : list Z := r_error "string exceeds maximum allowed size (512MB)".
Definition r_null : list Z := shared_nullbulk.

(** ** One-key commands *)

Section Spec.
Context (E : env).
Implicit Types (c : option entry) (v : list Z).

(** A reader's reply: [miss] without a live entry. *)
Definition on_read (miss : list Z) (f : val -> list Z) c : option entry * list Z :=
  (c, match seen E c with None => miss | Some e => f e.1 end).

Definition on_string (f : list Z -> list Z) (x : val) : list Z :=
  match x with Str t => f t | Oth _ _ => r_wrongtype end.

(** An integer argument, or the error. *)
Definition with_int (a : list Z) (err : list Z) (f : Z -> option entry -> option entry * list Z) c : option entry * list Z :=
  match parse_ll a with None => (c, err) | Some z => f z c end.

Definition get_spec := on_read r_null (on_string r_bulk).
Definition strlen_spec := on_read (r_int 0) (on_string (fun t => r_int (zlen t))).

Definition type_spec := on_read (r_status "none") (fun x => r_status match x with
  | Str _ => "string" | Oth OBJ_LIST _ => "list" | Oth OBJ_SET _ => "set" | Oth OBJ_ZSET _ => "zset" | Oth OBJ_HASH _ => "hash" end).

(** The bytes from [a] to [b], both included. *)
Definition sub (t : list Z) (a b : Z) : list Z := take (Z.to_nat (b - a + 1)) (drop (Z.to_nat a) t).
Definition range (t : list Z) (st en : Z) : list Z := sub t (clip_start st (zlen t)) (clip_end en (zlen t)).

Definition getrange_spec (st en : list Z) :=
  with_int st r_notint (fun a => with_int en r_notint (fun b =>
    on_read (r_bulk []) (on_string (fun t => r_bulk (range t a b))))).

(** SET: the key must be absent ([NX]) or present ([XX]). *)
Definition set_spec (flags : set_flags) v (expire : option Z) (ok abort : list Z) c : option entry * list Z :=
  let c := purge E c in
  if (NX flags && isSome c) || (XX flags && negb (isSome c)) then (c, abort)
  else (Some (Str v, (fun ms => s64 (msec_now E + ms)) <$> expire), ok).

Definition to_ms (unit : time_unit) (n : Z) : Z :=
  match unit with UNIT_SECONDS => s64 (n * 1000) | UNIT_MILLISECONDS => n end.

Definition setg_spec (name : string) (flags : set_flags) v (expire : option (list Z)) (unit : time_unit) (ok abort : list Z) c :=
  match expire with
  | None => set_spec flags v None ok abort c
  | Some e => with_int e r_notint (fun n c =>
      if n <=? 0 then (c, r_error (String.append "invalid expire time in " name))
      else set_spec flags v (Some (to_ms unit n)) ok abort c) c
  end.

Definition set_cmd_spec v (opts : list (list Z)) c :=
  match set_options (length opts) opts OBJ_SET_NO_FLAGS None UNIT_SECONDS with
  | None => (c, shared_syntaxerr)
  | Some (flags, expire, u) => setg_spec "set" flags v expire u shared_ok r_null c
  end.

Definition getset_spec v c : option entry * list Z :=
  match purge E c with
  | None => (Some (Str v, None), r_null)
  | Some (Str t, _) => (Some (Str v, None), r_bulk t)
  | Some (Oth t p, e) => (Some (Oth t p, e), r_wrongtype)
  end.

(** [v] written over [t] at position [n], with zeros in a gap. *)
Definition overlay (t : list Z) (n : nat) v : list Z :=
  take n (t ++ replicate (n - length t) 0) ++ v ++ drop (n + length v) t.

Definition setrange_spec (off : list Z) v :=
  with_int off r_notint (fun n c =>
    if n <? 0 then (c, r_error "offset is out of range")
    else
      let write t e := if n + zlen v >? MAXLEN then (purge E c, r_toolong)
        else (Some (Str (overlay t (Z.to_nat n) v), e), r_int (zlen (overlay t (Z.to_nat n) v))) in
      match purge E c with
      | None => if bool_decide (v = []) then (None, r_int 0) else write [] None
      | Some (Str t, e) => if bool_decide (v = []) then (Some (Str t, e), r_int (zlen t)) else write t e
      | Some (Oth t p, e) => (Some (Oth t p, e), r_wrongtype)
      end).

Definition append_spec v c : option entry * list Z :=
  match purge E c with
  | None => (Some (Str v, None), r_int (zlen v))
  | Some (Str t, e) => if zlen (t ++ v) >? MAXLEN then (Some (Str t, e), r_toolong) else (Some (Str (t ++ v), e), r_int (zlen (t ++ v)))
  | Some (Oth t p, e) => (Some (Oth t p, e), r_wrongtype)
  end.

(** Exact addition, or an error when the sum does not fit 64 bits. *)
Definition incr_spec (delta : Z) c : option entry * list Z :=
  let c := purge E c in
  match (match c with None => Some (Some 0) | Some (Str t, _) => Some (parse_ll t) | Some (Oth _ _, _) => None end) with
  | None => (c, r_wrongtype)
  | Some None => (c, r_notint)
  | Some (Some old) =>
      if (LLONG_MIN <=? old + delta) && (old + delta <=? LLONG_MAX) then (Some (Str (dec_string (old + delta)), c ≫= snd), r_int (old + delta))
      else (c, r_error "increment or decrement would overflow")
  end.

Definition incrby_spec (a : list Z) := with_int a r_notint incr_spec.
Definition decrby_spec (a : list Z) := with_int a r_notint (fun d => incr_spec (- d)).

(** *** Expiry *)

Definition expire_spec (basetime : Z) (unit : time_unit) (param : list Z) :=
  with_int param r_notint (fun n c =>
    let when := s64 (to_ms unit n + basetime) in
    match purge E c with
    | None => (None, r_int 0)
    | Some (x, _) =>
        if (when <=? msec_now E) && negb (loading E) && negb (is_slave E) then (None, r_int 1) else (Some (x, Some when), r_int 1)
    end).

Definition ttl_spec (ms : bool) c : option entry * list Z :=
  (c, match seen E c with
      | None => r_int (-2)
      | Some x =>
          if ttl_of (Some x) =? -1 then r_int (-1)
          else let left := Z.max 0 (s64 (ttl_of (Some x) - msec_now E)) in
               r_int (if ms then left else Z.quot (s64 (left + 500)) 1000)
      end).

Definition persist_spec c : option entry * list Z :=
  match c with
  | Some (x, Some _) => (Some (x, None), r_int 1)
  | _ => (c, r_int 0)
  end.

(** *** Bits *)

Definition get_bit (t : list Z) (n : Z) : bool := Z.testbit (nth (Z.to_nat (n / 8)) t 0) (7 - n mod 8).

Definition put_byte_bit (i : Z) (b : bool) (byte : Z) : Z := if b then Z.setbit byte i else Z.clearbit byte i.

(** The string grown to hold bit [n], then changed in that bit. *)
Definition set_bit (t : list Z) (n : Z) (b : bool) : list Z :=
  alter (put_byte_bit (7 - n mod 8) b) (Z.to_nat (n / 8)) (t ++ replicate (Z.to_nat (n / 8) + 1 - length t) 0).

Definition r_bitoffset : list Z := r_error "bit offset is not an integer or out of range".

Definition with_offset (a : list Z) (f : Z -> option entry -> option entry * list Z) c : option entry * list Z :=
  match string2ll a with
  | Some n => if (0 <=? n) && (n <? 8 * MAXLEN) then f n c else (c, r_bitoffset)
  | None => (c, r_bitoffset)
  end.

Definition getbit_spec (off : list Z) :=
  with_offset off (fun n => on_read (r_int 0) (on_string (fun t => r_int (b2z (get_bit t n))))).

Definition setbit_spec (off bit : list Z) :=
  let err := r_error "bit is not an integer or out of range" in
  with_offset off (fun n => with_int bit err (fun b c =>
    if negb ((b =? 0) || (b =? 1)) then (c, err)
    else
      match purge E c with
      | None => (Some (Str (set_bit [] n (b =? 1)), None), r_int 0)
      | Some (Str t, e) => (Some (Str (set_bit t n (b =? 1)), e), r_int (b2z (get_bit t n)))
      | Some (Oth t p, e) => (Some (Oth t p, e), r_wrongtype)
      end)).

Definition bitcount_spec (args : list (list Z)) :=
  on_read (r_int 0) (on_string (fun t =>
    match args with
    | [] => r_int (ones (bits_of t))
    | [st; en] => match parse_ll st, parse_ll en with
        | Some a, Some b => r_int (ones (bits_of (range t a b)))
        | _, _ => r_notint
        end
    | _ => shared_syntaxerr
    end)).

(** The first bit [b] of the bytes from [a] to [z]; a clear bit is also found
    just past the end when no end was given. *)
Definition bitpos_in (t : list Z) (b : bool) (a z : Z) (end_given : bool) : Z :=
  match first_bit b (bits_of (sub t a z)) with
  | Some i => i + a * 8
  | None => if (a >? z) || b || end_given then -1 else (z + 1) * 8
  end.

Definition bitpos_spec (bit : list Z) (args : list (list Z)) :=
  with_int bit r_notint (fun b c =>
    if negb ((b =? 0) || (b =? 1)) then (c, r_error "The bit argument must be 1 or 0.")
    else on_read (r_int (- b)) (on_string (fun t =>
      match args with
      | [] => r_int (bitpos_in t (b =? 1) 0 (zlen t - 1) false)
      | [st] => match parse_ll st with
          | Some a => r_int (bitpos_in t (b =? 1) (clip_start a (zlen t)) (clip_end (zlen t - 1) (zlen t)) false)
          | None => r_notint
          end
      | [st; en] => match parse_ll st, parse_ll en with
          | Some a, Some z => r_int (bitpos_in t (b =? 1) (clip_start a (zlen t)) (clip_end z (zlen t)) true)
          | _, _ => r_notint
          end
      | _ => shared_syntaxerr
      end)) c).

End Spec.

End CmdSpec.
