(* ===== verification/CmdRefine.v ===== *)
(** * The handlers implement their specifications

    One lemma per one-key command: the handler, run between critical sections,
    takes and releases the lock of its key's database, replies what the
    specification says and leaves an object that denotes the specified value. *)

From stdpp Require Import gmap strings.
From S2P Require Import Prelude Bytes Bits NumConv Object HashKit Bitops Keyspace KeyCmds StringCmds KeyspaceRules Cells CmdSpec.
Import NumConv Object HashKit Bitops Keyspace KeyCmds StringCmds KeyspaceRules Cells CmdSpec.

Module CmdRefine.

#[local] Open Scope vire_scope.

(** ** Objects and values *)

Lemma vof_str o t : vof o = Str t <-> sval o = Some t.
Proof. destruct o; cbn; split; congruence. Qed.

Lemma str_ok o t : obj_ok o -> vof o = Str t -> robj_ok o /\ sval o = Some t /\ bytes_ok t /\ zlen t <= MAXLEN.
Proof. intros [Ho Hl] Ht. destruct (Hl t Ht). by apply vof_str in Ht. Qed.

Lemma obj_ok_str o t : robj_ok o -> vof o = Str t -> bytes_ok t -> zlen t <= MAXLEN -> obj_ok o.
Proof. intros Ho Ht Hb Hl. split; [done |]. rewrite Ht. by intros ? [= <-]. Qed.

Lemma cok_none : cok None.
Proof. done. Qed.

Lemma cok_some o e : obj_ok o -> cok (Some (o, e)).
Proof. by intros ? ? ? [= -> ->]. Qed.

Lemma cok_get o e : cok (Some (o, e)) -> obj_ok o.
Proof. intros H. by eapply H. Qed.

Lemma sds_ok enc b t : bytes_ok t -> zlen t <= MAXLEN -> obj_ok (SdsObj enc b t).
Proof. intros. by eapply obj_ok_str. Qed.

#[export] Hint Resolve cok_none cok_some sds_ok : vire.

Lemma ttl_absc c : ttl_of (absc c) = ttl_of c.
Proof. by destruct c as [[? []]|]. Qed.

Lemma seen_absc E c : seen E (absc c) = absc (seen E c).
Proof. unfold seen, dead. rewrite ttl_absc. by case_match. Qed.

Lemma purge_absc E c : purge E (absc c) = absc (purge E c).
Proof. unfold purge, overdue. rewrite ttl_absc. by case_match. Qed.

Lemma cok_purge E c : cok c -> cok (purge E c).
Proof. unfold purge. by case_match. Qed.

Lemma cok_seen E c : cok c -> cok (seen E c).
Proof. unfold seen. by case_match. Qed.

#[export] Hint Resolve cok_purge cok_seen : vire.

(** A value stored by SET and the like. *)
Lemma encode_arg v : bytes_ok v -> zlen v <= MAXLEN ->
  exists o o', tryObjectEncoding (arg v) = Some o /\ dupStringObjectUnconstant o = Some o' /\
    obj_ok o' /\ vof o' = Str v /\ stringObjectLen o = Some (zlen v).
Proof.
  intros Hv Hl. assert (Ha : robj_ok (arg v)) by (unfold arg, createStringObject; by case_match).
  destruct (tryEncoding_spec (arg v) v Ha (sval_createStringObject v)) as (o & Ho & Hs & Hok).
  destruct (dupString_spec o v Hs) as (o' & Ho' & Hs' & Hok'). exists o, o'.
  assert (vof o' = Str v) by by apply vof_str. split_and!; auto using stringObjectLen_spec. eauto using obj_ok_str.
Qed.

(** ** Integer arguments *)


Lemma parse_ll_obj o t : robj_ok o -> sval o = Some t -> getLongLongFromObject (Some o) = Some (parse_ll t).
Proof.
  intros Hok Hs. destruct o as [e b p | b z | ]; [injection Hs as -> | injection Hs as <- | done].
  { unfold parse_ll. cbn. by destruct (strtoll _) as [[? ?] ?]. }
  unfold parse_ll. rewrite (getLongLong_spec (createRawStringObject (dec_string z)) z); [done | by apply dec_string_bytes | done..].
Qed.

Lemma parse_ll_arg v : getLongLongFromObject (Some (arg v)) = Some (parse_ll v).
Proof. unfold parse_ll, arg, createStringObject. case_match; cbn; by destruct (strtoll _) as [[? ?] ?]. Qed.

(** [strtoll] returns a [long long]. *)
Lemma strtoll_int64 p : int64 (strtoll p).1.1.
Proof.
  unfold strtoll, int64, LLONG_MIN, LLONG_MAX. repeat (case_match; cbn); zbool; try lia.
  all: try (subst; lia).
Qed.

Lemma parse_ll_int64 v z : parse_ll v = Some z -> int64 z.
Proof.
  unfold parse_ll. cbn. pose proof (strtoll_int64 (c_string v)) as H. destruct (strtoll _) as [[z' ep] er]. cbn in H.
  case_match; [done |]. by intros [= <-].
Qed.

Lemma getLong_run a msg s : getLongLongFromObjectOrReply (Some (arg a)) msg s =
  match parse_ll a with
  | Some z => Some (Some z, s)
  | None => Some (None, set_out (out s ++ r_error (default "value is not an integer or out of range"%string msg)) s)
  end.
Proof.
  unfold getLongLongFromObjectOrReply, bind, lift. rewrite parse_ll_arg. cbn [mbind option_bind].
  destruct (parse_ll a); [done |].
  destruct msg as [m|]; [pose proof (replies_error m s) as Hr | pose proof (replies_error "value is not an integer or out of range" s) as Hr];
    rewrite Hr; done.
Qed.

Lemma getLongFrom_run a msg s : getLongFromObjectOrReply (Some (arg a)) msg s =
  match parse_ll a with
  | Some z => Some (Some z, s)
  | None => Some (None, set_out (out s ++ r_error (default "value is not an integer or out of range"%string msg)) s)
  end.
Proof.
  unfold getLongFromObjectOrReply, bind. rewrite getLong_run. destruct (parse_ll a) as [z|] eqn:Hz; cbn [mbind option_bind]; [|done].
  apply parse_ll_int64 in Hz. unfold int64 in Hz. rewrite Z.gtb_ltb. repeat zguard. done.
Qed.

(** ** The judgement *)

Definition Refines (E : env) (m : M unit) (k : key) (f : option entry -> option entry * list Z) : Prop :=
  forall s0 D o s, Out s0 D o s -> dbs_ok E (dictid s0) D -> cok (getcell E (dictid s0) k D) ->
  let r := f (absc (getcell E (dictid s0) k D)) in
  wp m (fun _ s' => exists c, cok c /\ absc c = r.1 /\ Out s0 (setcell E (dictid s0) k c D) (o ++ r.2) s') s.

Lemma Refines_intro E m k f : (forall s0 D o s c0, Out s0 D o s -> dbs_ok E (dictid s0) D -> getcell E (dictid s0) k D = c0 -> cok c0 ->
  wp m (fun _ s' => exists c, cok c /\ absc c = (f (absc c0)).1 /\ Out s0 (setcell E (dictid s0) k c D) (o ++ (f (absc c0)).2) s') s) ->
  Refines E m k f.
Proof. intros Hm s0 D o s HO H Hc. by eapply Hm. Qed.

Section Args.
Context (E : env) (s0 : state) (D : list redisDb).

Definition msg_of (msg : option string) : string := default "value is not an integer or out of range"%string msg.

Lemma Out_error o m s : Out s0 D o s -> Out s0 D (o ++ r_error m) (set_out (out s ++ r_error m) s).
Proof. intros [? ? ? Ho]. split; cbn; try done. by rewrite Ho, app_assoc. Qed.

Lemma At_error k lm c o m s : At E s0 D k lm c o s -> At E s0 D k lm c (o ++ r_error m) (set_out (out s ++ r_error m) s).
Proof. intros (d & Hd & Hok & [? ? ? ? ? Ho]). exists d. split_and!; try done. split; cbn; try done. by rewrite Ho, app_assoc. Qed.

Lemma wp_getLongLong a msg o s Q : Out s0 D o s ->
  (forall z, parse_ll a = Some z -> Q (Some z) s) ->
  (forall s', parse_ll a = None -> Out s0 D (o ++ r_error (msg_of msg)) s' -> Q None s') ->
  wp (getLongLongFromObjectOrReply (Some (arg a)) msg) Q s.
Proof.
  intros HO H1 H2. unfold wp. rewrite getLong_run. destruct (parse_ll a); [by apply H1 |]. apply H2; [done |]. by apply Out_error.
Qed.

Lemma wp_getLong a msg o s Q : Out s0 D o s ->
  (forall z, parse_ll a = Some z -> Q (Some z) s) ->
  (forall s', parse_ll a = None -> Out s0 D (o ++ r_error (msg_of msg)) s' -> Q None s') ->
  wp (getLongFromObjectOrReply (Some (arg a)) msg) Q s.
Proof.
  intros HO H1 H2. unfold wp. rewrite getLongFrom_run. destruct (parse_ll a); [by apply H1 |]. apply H2; [done |]. by apply Out_error.
Qed.

Lemma wp_at_getLong k lm c a msg o s Q : At E s0 D k lm c o s ->
  (forall z, parse_ll a = Some z -> Q (Some z) s) ->
  (forall s', parse_ll a = None -> At E s0 D k lm c (o ++ r_error (msg_of msg)) s' -> Q None s') ->
  wp (getLongFromObjectOrReply (Some (arg a)) msg) Q s.
Proof.
  intros HO H1 H2. unfold wp. rewrite getLongFrom_run. destruct (parse_ll a); [by apply H1 |]. apply H2; [done |]. by apply At_error.
Qed.

(** The same on the object stored, or on its absence, which counts as 0. *)
Lemma wp_at_getLongLong k lm c x r o s Q : At E s0 D k lm c o s -> getLongLongFromObject x = Some r ->
  (forall z, r = Some z -> Q (Some z) s) -> (forall s', r = None -> At E s0 D k lm c (o ++ r_notint) s' -> Q None s') ->
  wp (getLongLongFromObjectOrReply x None) Q s.
Proof.
  intros HA Hx H1 H2. apply wp_bind. eapply wp_lift; [done |]. destruct r as [z|]; [by apply H1 |].
  apply wp_bind. eapply wp_at_reply; [apply replies_error | done |]. intros s' HA'. by apply H2.
Qed.

Lemma wp_enter_cell {B} k m c (K : unit -> M B) o s Q : Out s0 D o s -> dbs_ok E (dictid s0) D -> getcell E (dictid s0) k D = c ->
  (forall s', At E s0 D k m c o s' -> wp (K tt) Q s') ->
  wp (fetchInternalDbByKey E k ;; (x <-- take_lock m ;; K x)) Q s.
Proof. intros HO H <- HQ. by eapply wp_enter_bind. Qed.

Lemma wp_readOrReply k lm c r o s Q : At E s0 D k lm c o s ->
  (forall s', seen E c = None -> At E s0 D k lm c (o ++ r) s' -> Q None s') ->
  (forall ob e, seen E c = Some (ob, e) -> Q (Some ob) s) -> wp (lookupKeyReadOrReply E k r) Q s.
Proof.
  intros HA H1 H2. apply wp_bind. eapply wp_lookupKeyRead; [done |]. destruct (seen E c) as [[ob e]|]; cbn [fmap option_fmap option_map fst].
  - by eapply H2.
  - apply wp_bind. eapply wp_at_reply; [apply replies_string | done |]. intros s' HA'. by apply H1.
Qed.

Lemma wp_writeOrReply k c r o s Q : At E s0 D k WRLOCK c o s ->
  (forall s', purge E c = None -> At E s0 D k WRLOCK None (o ++ r) s' -> Q (None, overdue E c) s') ->
  (forall s' ob e, purge E c = Some (ob, e) -> At E s0 D k WRLOCK (Some (ob, e)) o s' -> Q (Some ob, overdue E c) s') ->
  wp (lookupKeyWriteOrReply E k r true) Q s.
Proof.
  intros HA H1 H2. apply wp_bind. eapply wp_lookupKeyWrite; [done |]. cbn [purge_if andb]. intros s1 HA1.
  destruct (purge E c) as [[ob e]|]; cbn [fmap option_fmap option_map fst].
  - by eapply H2.
  - apply wp_bind. eapply wp_at_reply; [apply replies_string | done |]. intros s' HA'. by apply H1.
Qed.

Lemma wp_checkType k lm c ob o s Q : At E s0 D k lm c o s ->
  (forall s' t p, vof ob = Oth t p -> At E s0 D k lm c (o ++ r_wrongtype) s' -> Q true s') ->
  (forall t, vof ob = Str t -> Q false s) -> wp (checkType_string ob) Q s.
Proof.
  intros HA H1 H2. destruct ob as [? ? t | ? z | t p]; [by eapply H2.. |].
  apply wp_bind. eapply wp_at_reply; [apply replies_string | done |]. intros s' HA'. by eapply H1.
Qed.

Lemma wp_str_bytes ob t s (Q : list Z -> state -> Prop) : obj_ok ob -> vof ob = Str t -> Q t s -> wp (str_bytes ob) Q s.
Proof.
  intros Ho Ht HQ. destruct (str_ok ob t Ho Ht) as (Hr & Hs & _). destruct ob; [by injection Hs as -> | | done].
  injection Hs as <-. eapply wp_lift; [|exact HQ]. by apply ll_buf_spec; [|lia].
Qed.

Lemma wp_unshare_str k ob t e o s Q : obj_ok ob -> vof ob = Str t -> At E s0 D k WRLOCK (Some (ob, e)) o s ->
  (forall s', At E s0 D k WRLOCK (Some (createRawStringObject t, e)) o s' -> Q (createRawStringObject t) s') ->
  wp (dbUnshareStringValue k ob) Q s.
Proof. intros Ho Ht. destruct (str_ok ob t Ho Ht) as (Hr & Hs & _). by apply wp_unshare. Qed.

Lemma wp_checkStringLength k lm c n o s Q : At E s0 D k lm c o s ->
  (n <= MAXLEN -> Q true s) -> (forall s', MAXLEN < n -> At E s0 D k lm c (o ++ r_toolong) s' -> Q false s') ->
  wp (checkStringLength n) Q s.
Proof.
  intros HA H1 H2. unfold checkStringLength. change (512 * 1024 * 1024) with MAXLEN. rewrite Z.gtb_ltb.
  destruct (Z.ltb_spec MAXLEN n); [|by apply H1]. apply wp_bind.
  eapply wp_at_reply; [apply replies_error | done |]. intros s' HA'. by apply H2.
Qed.

End Args.

Lemma replies_bulk_ok ob t : obj_ok ob -> vof ob = Str t -> replies (addReplyBulk ob) (r_bulk t).
Proof. intros Ho Ht. destruct (str_ok ob t Ho Ht) as (? & ? & ? & ?). apply replies_bulk; [done.. | unfold MAXLEN in *; lia]. Qed.

Lemma replies_bulk_or_wrong ob : obj_ok ob ->
  replies (match ob with OtherObj _ _ => addReplyString shared_wrongtypeerr | _ => addReplyBulk ob end) (on_string r_bulk (vof ob)).
Proof. intros Ho. destruct ob; [by apply replies_bulk_ok.. | apply replies_string]. Qed.

Lemma replies_len (t : list Z) : zlen t <= MAXLEN -> replies (addReplyLongLong (zlen t)) (r_int (zlen t)).
Proof. intros. apply replies_int. unfold int64, LLONG_MIN, LLONG_MAX, MAXLEN in *. lia. Qed.

Lemma replies_cbuf (t : list Z) : zlen t <= MAXLEN -> replies (addReplyBulkCBuffer t) (r_bulk t).
Proof.
  intros Hl. unfold r_bulk, addReplyBulkCBuffer. change (36 :: ?x) with ([36] ++ x).
  replace ([36] ++ dec_string (zlen t) ++ crlf ++ t ++ crlf) with ((36 :: dec_string (zlen t) ++ crlf) ++ t ++ crlf)
    by (cbn; by rewrite <- !app_assoc).
  apply replies_bind; [|by apply (replies_bind (addReplyString t)); apply replies_string].
  apply replies_prefix. unfold int64, LLONG_MIN, LLONG_MAX, MAXLEN in *. lia.
Qed.

Lemma seen_ok E c ob e : cok c -> seen E c = Some (ob, e) -> obj_ok ob.
Proof. intros Hc Hs. apply (cok_seen E) in Hc. rewrite Hs in Hc. by eapply cok_get. Qed.

Lemma purge_ok E c ob e : cok c -> purge E c = Some (ob, e) -> obj_ok ob.
Proof. intros Hc Hs. apply (cok_purge E) in Hc. rewrite Hs in Hc. by eapply cok_get. Qed.

Create HintDb cmd discriminated.
#[export] Hint Resolve replies_string replies_error replies_status replies_bulk_ok replies_bulk_or_wrong replies_len replies_cbuf : cmd.

(** Reduces the cell and the booleans a step has decided. *)
Ltac csimp := cbn [createRawStringObject absc fmap option_fmap option_map prod_map fst snd isSome negb andb orb id mbind option_bind purge_if].

(** One step of a handler. *)
Ltac cstep :=
  lazymatch goal with
  | |- wp (bind (fetchInternalDbByKey _ _) _) _ _ =>
      eapply wp_enter_cell; [eassumption | eassumption | eassumption |]; let s := fresh "s" in let H := fresh "HA" in intros s H
  | |- wp (bind _ _) _ _ => apply wp_bind; cbv beta
  | |- wp (ret _) _ _ => apply wp_ret
  | |- wp unlockDb _ _ => eapply wp_leave; [eassumption |]; let s := fresh "s" in let H := fresh "HO" in intros s H
  | |- wp (lookupKeyWrite _ _ _) _ _ => eapply wp_lookupKeyWrite; [eassumption |]; cbn [purge_if andb]; let s := fresh "s" in let H := fresh "HA" in intros s H
  | |- wp (lookupKeyRead _ _) _ _ => eapply wp_lookupKeyRead; [eassumption |]
  | |- wp (getExpire _) _ _ => eapply wp_getExpire; [eassumption |]
  | |- wp (setKey _ _ _ _) _ _ => eapply wp_setKey; [eassumption |]; let s := fresh "s" in let H := fresh "HA" in intros s H
  | |- wp (dbDelete _) _ _ => eapply wp_dbDelete; [eassumption |]; let s := fresh "s" in let H := fresh "HA" in intros s H
  | |- wp (dbAdd _ _) _ _ => eapply wp_dbAdd; [eassumption |]; let s := fresh "s" in let H := fresh "HA" in intros s H
  | |- wp (dbOverwrite _ _) _ _ => eapply wp_dbOverwrite; [eassumption |]; let s := fresh "s" in let H := fresh "HA" in intros s H
  | |- wp (setExpire _ _) _ _ => eapply wp_setExpire; [eassumption |]; let s := fresh "s" in let H := fresh "HA" in intros s H
  | |- wp (removeExpire _) _ _ => eapply wp_removeExpire; [eassumption |]; let s := fresh "s" in let H := fresh "HA" in intros s H
  | |- wp (dbExists _) _ _ => eapply wp_dbExists; [eassumption |]
  | |- wp (store_ptr _ _) _ _ => eapply wp_store_ptr; [eassumption |]; let s := fresh "s" in let H := fresh "HA" in intros s H
  | |- wp (str_bytes _) _ _ => eapply wp_str_bytes; [eassumption | eassumption |]
  | |- wp (dbUnshareStringValue _ _) _ _ => eapply wp_unshare_str; [eassumption | eassumption | eassumption |]; let s := fresh "s" in let H := fresh "HA" in intros s H
  | |- wp (lift _) _ _ => eapply wp_lift; [first [eassumption | lazymatch goal with |- Some _ = _ => reflexivity end] |]
  | |- wp (getLongLongFromObjectOrReply (Some (arg _)) _) _ _ => eapply wp_getLongLong; [eassumption | |]
  | |- wp (getLongFromObjectOrReply (Some (arg _)) _) _ _ =>
      first [eapply wp_getLong; [eassumption | |] | eapply wp_at_getLong; [eassumption | |]]
  | |- wp ?c _ _ =>
      first [ eapply wp_at_counter; [solve [eauto with vire] | eassumption |]; let s := fresh "s" in let H := fresh "HA" in intros s H
            | eapply wp_counter_out; [solve [eauto with vire] | eassumption |]; let s := fresh "s" in let H := fresh "HO" in intros s H
            | eapply wp_at_reply; [solve [eauto with cmd] | eassumption |]; let s := fresh "s" in let H := fresh "HA" in intros s H
            | eapply wp_replies_out; [solve [eauto with cmd] | eassumption |]; let s := fresh "s" in let H := fresh "HO" in intros s H ]
  end; cbv beta; csimp.
Ltac csteps := repeat cstep.

(** Ends a handler: the cell left and the reply given. *)
Ltac cdone := eexists; split_and!; [ | | eassumption]; [solve [eauto with vire] | csimp; first [reflexivity | congruence]].

Section Commands.
Context (E : env).
Implicit Types (k : key).

(** Only the reply: the cell is as it was. *)
Lemma Refines_reply k m r f : replies m r -> (forall c, f c = (c, r)) -> Refines E m k f.
Proof.
  intros Hm Hf s0 D o s HO H Hc. rewrite Hf. cbn [fst snd]. eapply wp_replies_out; [done.. |]. intros s' HO'.
  exists (getcell E (dictid s0) k D). by rewrite setcell_id.
Qed.

(** A reading lookup, with a reply when it misses. *)
Ltac read_or_reply := eapply wp_readOrReply; [eassumption | |];
  [let s := fresh "s" in let Hs := fresh "Hs" in let HA := fresh "HA" in intros s Hs HA; rewrite ?Hs; csteps
  |let ob := fresh "ob" in let e := fresh "e" in let Hs := fresh "Hs" in intros ob e Hs; rewrite ?Hs;
   match goal with H : cok _ |- _ => pose proof (seen_ok _ _ _ _ H Hs) end].

Ltac start0 := apply Refines_intro; intros s0 D o s c0 HO H Hget Hc; cbv beta zeta; unfold on_read; cbn [fst snd]; rewrite ?seen_absc, ?purge_absc.
Ltac start f := unfold f; start0.

Lemma get_refines k : Refines E (getCommand E k) k (get_spec E).
Proof.
  start get_spec. unfold getCommand. csteps. read_or_reply; [cdone |]. csteps. cdone.
Qed.
(** The type check after a lookup: [t] is the string. *)
Ltac check_type := eapply wp_checkType; [eassumption | |];
  [let Hv := fresh "Hv" in let HA := fresh "HA" in intros ?s ?t ?p Hv HA; rewrite ?Hv; csteps
  |let Hv := fresh "Hv" in let t := fresh "t" in intros t Hv; rewrite ?Hv].

(** The length of a string object, as an equation for [lift]. *)
Lemma len_run ob t : obj_ok ob -> vof ob = Str t -> stringObjectLen ob = Some (zlen t) /\ zlen t <= MAXLEN /\ bytes_ok t.
Proof. intros Ho Ht. destruct (str_ok ob t Ho Ht) as (? & ? & ? & ?). auto using stringObjectLen_spec. Qed.

Lemma strlen_refines k : Refines E (strlenCommand E k) k (strlen_spec E).
Proof.
  start strlen_spec. unfold strlenCommand. csteps. read_or_reply; [cdone |]. csimp.
  cstep. check_type; [cdone |]. destruct (len_run ob t) as (Hlen & ? & ?); [done.. |]. csteps. cdone.
Qed.

Lemma type_refines k : Refines E (typeCommand E k) k (type_spec E).
Proof.
  start type_spec. unfold typeCommand. csteps. destruct (seen E c0) as [[ob e]|]; cbn [fmap option_fmap option_map fst]; csteps.
  - exists c0. split_and!; [done | done |]. destruct ob as [? ? ? | ? ? | [] ?]; exact HO2.
  - cdone.
Qed.

Lemma with_int_refines k a msg (m : Z -> M unit) f : (forall z, parse_ll a = Some z -> int64 z -> Refines E (m z) k (f z)) ->
  Refines E (r <-- getLongLongFromObjectOrReply (Some (arg a)) msg ;; match r with None => ret tt | Some z => m z end) k
    (with_int a (r_error (msg_of msg)) f).
Proof.
  intros Hm. apply Refines_intro. intros s0 D o s c0 HO H Hget Hc. unfold with_int. cstep. cstep.
  - intros z Hz. rewrite Hz. subst c0. apply (Hm z); [done | by eapply parse_ll_int64 | done..].
  - intros s' Hn HO'. rewrite Hn. cstep. exists c0. cbn [fst snd]. subst c0. by rewrite setcell_id.
Qed.

Lemma with_long_refines k a msg (m : Z -> M unit) f : (forall z, parse_ll a = Some z -> int64 z -> Refines E (m z) k (f z)) ->
  Refines E (r <-- getLongFromObjectOrReply (Some (arg a)) msg ;; match r with None => ret tt | Some z => m z end) k
    (with_int a (r_error (msg_of msg)) f).
Proof.
  intros Hm. apply Refines_intro. intros s0 D o s c0 HO H Hget Hc. unfold with_int. cstep. cstep.
  - intros z Hz. rewrite Hz. subst c0. apply (Hm z); [done | by eapply parse_ll_int64 | done..].
  - intros s' Hn HO'. rewrite Hn. cstep. exists c0. cbn [fst snd]. subst c0. by rewrite setcell_id.
Qed.

Lemma ttl_replies t (ms : bool) : replies
  (let ttl := if negb (t =? -1) then (let ttl := s64 (t - msec_now E) in if ttl <? 0 then 0 else ttl) else -1 in
   if ttl =? -1 then addReplyLongLong (-1) else addReplyLongLong (if ms then ttl else Z.quot (s64 (ttl + 500)) 1000))
  (if t =? -1 then r_int (-1)
   else let left := Z.max 0 (s64 (t - msec_now E)) in r_int (if ms then left else Z.quot (s64 (left + 500)) 1000)).
Proof.
  cbv zeta. destruct (t =? -1); [by apply replies_int |]. cbn [negb].
  replace (if s64 (t - msec_now E) <? 0 then 0 else s64 (t - msec_now E)) with (Z.max 0 (s64 (t - msec_now E)))
    by (destruct (Z.ltb_spec (s64 (t - msec_now E)) 0); lia).
  pose proof (swrap_range 64 ltac:(lia) (t - msec_now E)). zguard. apply replies_int. unfold int64, LLONG_MIN, LLONG_MAX.
  destruct ms; [lia |]. pose proof (swrap_range 64 ltac:(lia) (Z.max 0 (s64 (t - msec_now E)) + 500)).
  change (2 ^ (64 - 1)) with 9223372036854775808 in *.
  split; [apply Z.quot_le_lower_bound | apply Z.quot_le_upper_bound]; lia.
Qed.

Lemma seen_some (c : cell) ob e : seen E c = Some (ob, e) -> c = Some (ob, e).
Proof. unfold seen. by case_match. Qed.

Lemma ttl_refines k ms : Refines E (ttlGenericCommand E k ms) k (ttl_spec E ms).
Proof.
  start ttl_spec. unfold ttlGenericCommand. csteps. destruct (seen E c0) as [[ob e]|] eqn:Hs; cbn [fmap option_fmap option_map fst].
  - csteps. eapply wp_replies_out; [apply ttl_replies | eassumption |]. intros s4 HO4. apply seen_some in Hs as ->. cdone.
  - csteps. eapply wp_replies_out; [by apply replies_int | eassumption |]. intros s4 HO4. cdone.
Qed.

Lemma persist_refines k : Refines E (persistCommand E k) k persist_spec.
Proof.
  start persist_spec. unfold persistCommand. csteps. destruct c0 as [[ob e]|]; csimp.
  - destruct e as [w|]; csimp; csteps; cdone.
  - csteps. cdone.
Qed.

(** The cell after the expiry check of a writer, with its object well-formed. *)
Ltac purged := match goal with Hc : cok ?c |- context [purge ?E ?c] =>
    let Hp := fresh "Hp" in let ob := fresh "ob" in let e := fresh "e" in
    destruct (purge E c) as [[ob e]|] eqn:Hp; csimp; [pose proof (purge_ok E c ob e Hc Hp) |] end.

Lemma expire_refines k base unit param : Refines E (expireGenericCommand E base unit k param) k (expire_spec E base unit param).
Proof.
  apply with_int_refines. intros z _ Hz. apply Refines_intro. intros s0 D o s c0 HO H Hget Hc. rewrite purge_absc. csteps. purged.
  - unfold to_ms. destruct (_ && _ && _); csteps; cdone.
  - csteps. cdone.
Qed.

(** *** SET *)

Lemma set_body_refines k v val ok abort flags expire : vof val = Str v -> (exists w, dupStringObjectUnconstant val = Some w /\ obj_ok w /\ vof w = Str v) ->
  Refines E (set_body E flags k val expire ok abort) k (set_spec E flags v expire ok abort).
Proof.
  intros Hv (w & Hw & Hwok & Hwv). start set_spec. unfold set_body. csteps.
  purged; destruct (NX flags), (XX flags), expire as [ms|]; csimp; csteps; cdone.
Qed.

Lemma setg_refines k v val name flags expire unit ok abort : vof val = Str v ->
  (exists w, dupStringObjectUnconstant val = Some w /\ obj_ok w /\ vof w = Str v) ->
  Refines E (setGenericCommand E name flags k val expire unit ok abort) k (setg_spec E name flags v expire unit ok abort).
Proof.
  intros Hv Hw. destruct expire as [e|]; [|by apply set_body_refines]. unfold setGenericCommand, setg_spec.
  apply with_int_refines. intros z _ Hz. destruct (z <=? 0); [|by apply set_body_refines].
  eapply Refines_reply; [apply replies_error | done].
Qed.

(** A value argument, encoded before the handler goes on. *)
Lemma encoded_refines k v (m : robj -> M unit) f : bytes_ok v -> zlen v <= MAXLEN ->
  (forall val, vof val = Str v -> (exists w, dupStringObjectUnconstant val = Some w /\ obj_ok w /\ vof w = Str v) -> Refines E (m val) k f) ->
  Refines E (x <-- lift (tryObjectEncoding (arg v)) ;; m x) k f.
Proof.
  intros Hv Hl Hm. destruct (encode_arg v Hv Hl) as (ob & w & He & Hd & Hw & Hwv & _).
  intros s0 D o s HO H Hc. cbv zeta. cstep. eapply wp_lift; [done |]. apply Hm; try done; [|by exists w].
  revert Hd Hwv. unfold dupStringObjectUnconstant. destruct (is_constant ob); [by intros [= ->] |].
  destruct ob as [[] | | ]; cbn; try discriminate; by intros [= <-].
Qed.

Lemma set_refines k v opts : bytes_ok v -> zlen v <= MAXLEN -> Refines E (setCommand E k v opts) k (set_cmd_spec E v opts).
Proof.
  intros Hv Hl. unfold setCommand, set_cmd_spec. destruct (set_options _ _ _ _ _) as [[[flags expire] u]|].
  - apply encoded_refines; [done.. |]. intros val H1 H2. by apply setg_refines.
  - eapply Refines_reply; [apply replies_string | done].
Qed.

Lemma setnx_refines k v : bytes_ok v -> zlen v <= MAXLEN ->
  Refines E (setnxCommand E k v) k (set_spec E OBJ_SET_NX v None (r_int 1) (r_int 0)).
Proof. intros Hv Hl. apply encoded_refines; [done.. |]. intros val H1 H2. by apply (set_body_refines k v val shared_cone shared_czero OBJ_SET_NX None). Qed.

Lemma setex_refines k secs v : bytes_ok v -> zlen v <= MAXLEN ->
  Refines E (setexCommand E k secs v) k (setg_spec E "setex" OBJ_SET_NO_FLAGS v (Some secs) UNIT_SECONDS shared_ok r_null).
Proof. intros Hv Hl. apply encoded_refines; [done.. |]. intros val H1 H2. by apply setg_refines. Qed.

Lemma psetex_refines k ms v : bytes_ok v -> zlen v <= MAXLEN ->
  Refines E (psetexCommand E k ms v) k (setg_spec E "psetex" OBJ_SET_NO_FLAGS v (Some ms) UNIT_MILLISECONDS shared_ok r_null).
Proof. intros Hv Hl. apply encoded_refines; [done.. |]. intros val H1 H2. by apply setg_refines. Qed.

Lemma getset_refines k v : bytes_ok v -> zlen v <= MAXLEN -> Refines E (getsetCommand E k v) k (getset_spec E v).
Proof.
  intros Hv Hl. apply encoded_refines; [done.. |]. intros val H1 (w & Hw & Hwok & Hwv). start getset_spec. csteps.
  eapply wp_writeOrReply; [eassumption | |].
  - intros s2 Hp HA2. rewrite Hp. csimp. csteps. cdone.
  - intros s2 ob e Hp HA2. pose proof (purge_ok E c0 ob e Hc Hp). rewrite Hp. csimp. destruct (vof ob) as [t | t p] eqn:Hvo; csimp.
    + destruct ob; try discriminate; csteps; cdone.
    + destruct ob; try discriminate. csteps. cdone.
Qed.

(** *** APPEND *)

Lemma append_refines k v : bytes_ok v -> zlen v <= MAXLEN -> Refines E (appendCommand E k v) k (append_spec E v).
Proof.
  intros Hv Hl. start append_spec. unfold appendCommand. csteps. purged.
  - cstep. check_type; [cdone |]. destruct (len_run ob t) as (Hlen & ? & ?); [done.. |]. cstep. cstep. cstep.
    assert (Hz : zlen (t ++ v) = zlen t + zlen v) by len. rewrite swrap_small by (unfold MAXLEN in *; lia). rewrite <- Hz, Z.gtb_ltb.
    eapply wp_checkStringLength; [eassumption | |].
    + intros Hle. assert (bytes_ok (t ++ v)) by (by apply Forall_app). zguard. csimp. csteps. cdone.
    + intros s3 Hgt HA3. zguard. csimp. csteps. cdone.
  - destruct (encode_arg v Hv Hl) as (o1 & w & He & Hd & Hw & Hwv & Hlen). csteps. cdone.
Qed.

(** *** SETRANGE *)

Lemma overlay_write t n v : 0 <= n -> memcpy_at (sdsgrowzero t (n + zlen v)) n v = Some (overlay t (Z.to_nat n) v).
Proof.
  intros Hn. unfold memcpy_at, sdsgrowzero, overlay. set (m := Z.to_nat n). replace (Z.to_nat (n + zlen v)) with (m + length v)%nat by lia.
  set (g := t ++ replicate (m + length v - length t) 0).
  assert (Hg : g = take m g ++ take (length v) (drop m g) ++ drop (m + length v) g).
  { rewrite <- drop_drop, take_drop, take_drop. done. }
  assert (Hlen : (m + length v <= length g)%nat) by (unfold g; len).
  rewrite Hg, bwrite_mid by (rewrite ?length_take, ?length_drop; lia). f_equal. f_equal; [|f_equal].
  - unfold g. rewrite !take_app. f_equal. rewrite !take_replicate. f_equal. lia.
  - unfold g. rewrite drop_app, drop_replicate. replace (m + length v - length t - (m + length v - length t))%nat with 0%nat by lia.
    apply app_nil_r.
Qed.

Lemma overlay_ok t n v : bytes_ok t -> bytes_ok v -> zlen t <= MAXLEN -> Z.of_nat n + zlen v <= MAXLEN ->
  bytes_ok (overlay t n v) /\ zlen (overlay t n v) <= MAXLEN.
Proof.
  intros Ht Hv Hl Hn. unfold overlay, bytes_ok in *. split; [|len]. rewrite !Forall_app. split_and!; [|done | by apply Forall_drop].
  apply Forall_take, Forall_app. split; [done |]. apply Forall_replicate. lia.
Qed.

Lemma setrange_write_ok s0 D k o s e t n v b t' : At E s0 D k WRLOCK (Some (createRawStringObject t, e)) o s ->
  0 <= n -> v <> [] -> bytes_ok t -> bytes_ok v -> zlen t <= MAXLEN -> n + zlen v <= MAXLEN ->
  overlay t (Z.to_nat n) v = t' ->
  wp (setrange_write k (createRawStringObject t) n v b)
    (fun _ s' => exists c, cok c /\ absc c = Some (Str t', e) /\ Out s0 (setcell E (dictid s0) k c D) (o ++ r_int (zlen t')) s') s.
Proof.
  intros HA Hn Hne Ht Hv Hl Hm <-. destruct (overlay_ok t (Z.to_nat n) v) as [Hb Hlen]; [done.. | lia |].
  unfold setrange_write, createRawStringObject. assert (0 < zlen v) by (destruct v; [done | cbn; lia]). zguard.
  cstep. cstep. eapply wp_lift; [by apply overlay_write |]. csteps. cdone.
Qed.

Lemma overlay_zeros n v : overlay (replicate (n + length v) 0) n v = overlay [] n v.
Proof.
  unfold overlay. rewrite !length_replicate. cbn [app length]. rewrite drop_nil, drop_replicate.
  replace (n - (n + length v))%nat with 0%nat by lia. replace (n + length v - (n + length v))%nat with 0%nat by lia.
  cbn [replicate]. rewrite app_nil_r, Nat.sub_0_r, !take_replicate. do 2 f_equal. lia.
Qed.

Lemma setrange_refines k off v : bytes_ok v -> zlen v <= MAXLEN ->
  (forall z, parse_ll off = Some z -> z + zlen v <= LLONG_MAX) ->
  Refines E (setrangeCommand E k off v) k (setrange_spec E off v).
Proof.
  intros Hv Hl Hoff. apply with_long_refines. intros n Hn Hi. specialize (Hoff n Hn).
  destruct (Z.ltb_spec n 0). { eapply Refines_reply; [apply replies_error | done]. }
  assert (Hz : (zlen v =? 0) = bool_decide (v = [])) by by destruct v. rewrite Hz.
  apply Refines_intro. intros s0 D o s c0 HO HD Hget Hc. rewrite purge_absc. unfold LLONG_MAX in *.
  rewrite swrap_small, Z.gtb_ltb by lia. csteps. purged.
  - cstep. check_type; [cdone |]. destruct (len_run ob t) as (Hlen & ? & ?); [done.. |]. cstep. cstep.
    case_bool_decide; [csteps; cdone |]. cstep. eapply wp_checkStringLength; [eassumption | |].
    + intros Hle. zguard. csimp. cstep. cstep. by eapply setrange_write_ok.
    + intros s3 Hgt HA3. zguard. csimp. csteps. cdone.
  - case_bool_decide; [csteps; cdone |]. cstep. eapply wp_checkStringLength; [eassumption | |].
    + intros Hle. zguard. cbv zeta. csimp. cstep. cstep. eapply setrange_write_ok; [eassumption | try done.. |].
      * apply Forall_replicate. lia.
      * rewrite length_replicate. lia.
      * replace (Z.to_nat (n + zlen v)) with (Z.to_nat n + length v)%nat by lia. by rewrite overlay_zeros.
    + intros s3 Hgt HA3. zguard. csimp. csteps. cdone.
Qed.

(** *** INCR *)

Lemma incr_replies v : int64 v ->
  replies (addReplyString (bs ":") ;; addReply (createStringObjectFromLongLong v) ;; addReplyString crlf) (r_int v).
Proof.
  intros Hv. apply (replies_bind _ _ (bs ":") (dec_string v ++ crlf)); [apply replies_string |]. apply replies_bind; [|apply replies_string].
  intros s. unfold createStringObjectFromLongLong, shared_integers, addReply, bind, lift.
  destruct (_ && _); rewrite (ll_buf_spec 32 v) by (done || lia); done.
Qed.

(** The two guards of the code are exactly the overflow of the sum. *)
Lemma incr_guard old delta : int64 old -> int64 delta ->
  ((delta <? 0) && (old <? 0) && (delta <? LLONG_MIN - old)) || ((delta >? 0) && (old >? 0) && (delta >? LLONG_MAX - old)) =
  negb ((LLONG_MIN <=? old + delta) && (old + delta <=? LLONG_MAX)).
Proof.
  unfold int64, LLONG_MIN, LLONG_MAX. intros. rewrite !Z.gtb_ltb. apply eq_bool_prop_intro.
  destruct (Z.ltb_spec delta 0), (Z.ltb_spec old 0), (Z.ltb_spec 0 delta), (Z.ltb_spec 0 old); cbn [andb orb]; try lia;
  repeat match goal with |- context [?x <? ?y] => destruct (Z.ltb_spec x y) | |- context [?x <=? ?y] => destruct (Z.leb_spec x y) end; cbn; lia.
Qed.

Lemma from_ll_ok v : int64 v -> obj_ok (createStringObjectFromLongLong v) /\ vof (createStringObjectFromLongLong v) = Str (dec_string v).
Proof.
  intros Hv. pose proof (dec_string_length v Hv). assert (Hd : vof (createStringObjectFromLongLong v) = Str (dec_string v))
    by (unfold createStringObjectFromLongLong; by case_match).
  split; [|done]. eapply obj_ok_str; [unfold createStringObjectFromLongLong; by case_match | done | by apply dec_string_bytes | unfold MAXLEN; lia].
Qed.

(** Reply and object of a sum that fits. *)
Ltac incr_store Hs :=
  rewrite swrap_small by (unfold int64, LLONG_MIN, LLONG_MAX in *; lia); destruct (from_ll_ok _ Hs) as [? ?];
  do 4 cstep; eapply wp_at_reply; [by apply incr_replies | eassumption |]; intros ? ?; csteps; cdone.

Lemma in_ll z : (LLONG_MIN <=? z) && (z <=? LLONG_MAX) = true -> int64 z.
Proof. intros H. zbool. done. Qed.

Lemma incr_refines k delta : int64 delta -> Refines E (incrDecrCommand E k delta) k (incr_spec E delta).
Proof.
  intros Hd. start incr_spec. unfold incrDecrCommand. csteps. purged.
  - check_type; [cdone |]. destruct (str_ok ob t) as (Hr & Hs & _); [done.. |]. cstep.
    eapply wp_at_getLongLong; [eassumption | by apply parse_ll_obj | |].
    + intros old Hold. pose proof (parse_ll_int64 _ _ Hold). rewrite Hold, incr_guard by done.
      destruct (_ && _) eqn:Hg; csimp; [apply in_ll in Hg; incr_store Hg | csteps; cdone].
    + intros s3 Hn HA3. rewrite Hn. csteps. cdone.
  - cstep. cstep. eapply wp_at_getLongLong; [eassumption | done | |done].
    intros old [= <-]. rewrite incr_guard by done. destruct (_ && _) eqn:Hg; csimp; [apply in_ll in Hg; incr_store Hg | csteps; cdone].
Qed.

Lemma incrby_refines k a : Refines E (incrbyCommand E k a) k (incrby_spec E a).
Proof. apply with_int_refines. intros z _ Hz. by apply incr_refines. Qed.

Lemma decrby_refines k a : parse_ll a <> Some LLONG_MIN -> Refines E (decrbyCommand E k a) k (decrby_spec E a).
Proof.
  intros Hmin. apply with_int_refines. intros z Hp Hz. assert (z <> LLONG_MIN) by congruence. rewrite (proj2 (Z.eqb_neq _ _)) by done. unfold int64, LLONG_MIN, LLONG_MAX in *.
  apply incr_refines. unfold int64, LLONG_MIN, LLONG_MAX. lia.
Qed.

(** *** GETRANGE *)

Lemma clip_ok st en (t : list Z) : let a := clip_start st (zlen t) in let b := clip_end en (zlen t) in 0 <= a /\ b < zlen t /\ -1 <= b.
Proof.
  unfold clip_start, clip_end. cbv zeta. repeat match goal with |- context [if ?x <? ?y then _ else _] => destruct (Z.ltb_spec x y) end;
  rewrite ?Z.geb_leb; repeat match goal with |- context [?x <=? ?y] => destruct (Z.leb_spec x y) end; try lia.
Qed.

Lemma sub_read t a b : 0 <= a <= b -> b < zlen t -> bread t a (b - a + 1) = Some (sub t a b).
Proof. intros. unfold bread, sub. repeat zguard. done. Qed.

Lemma sub_empty t a b : b < a -> sub t a b = [].
Proof. intros. unfold sub. by replace (Z.to_nat (b - a + 1)) with 0%nat by lia. Qed.

Lemma sub_length t a b : zlen (sub t a b) <= zlen t.
Proof. unfold sub. len. Qed.

Lemma getrange_refines k st en : Refines E (getrangeCommand E k st en) k (getrange_spec E st en).
Proof.
  apply with_int_refines. intros a _ Ha. apply with_int_refines. intros b _ Hb. start0. csteps. read_or_reply; [cdone |].
  csimp. cstep. check_type; [cdone |]. csimp. cstep. cstep. cstep. destruct (len_run ob t) as (_ & Hl & _); [done.. |].
  destruct (clip_ok a b t) as (H1 & H2 & H3). cbv zeta in H1, H2, H3. unfold on_string, range. rewrite Z.gtb_ltb.
  destruct (Z.ltb_spec (clip_end b (zlen t)) (clip_start a (zlen t))); cbn [orb].
  - rewrite sub_empty by done. csteps. cdone.
  - zguard. pose proof (sub_length t (clip_start a (zlen t)) (clip_end b (zlen t))).
    assert (zlen (sub t (clip_start a (zlen t)) (clip_end b (zlen t))) <= MAXLEN) by lia.
    cstep. eapply wp_lift; [by apply sub_read |]. csteps. cdone.
Qed.

(** *** Bits *)

Lemma byte_bit_code b i on : 0 <= b < 256 -> 0 <= i < 8 -> on = 0 \/ on = 1 ->
  negb (Z.land b (Z.shiftl 1 i) =? 0) = Z.testbit b i /\
  u8 (Z.lor (Z.land b (Z.lnot (Z.shiftl 1 i))) (Z.shiftl (Z.land on 1) i)) = put_byte_bit i (on =? 1) b /\
  0 <= put_byte_bit i (on =? 1) b < 256.
Proof.
  intros Hb Hi Hon. revert b Hb.
  assert (H : Forall (fun b => Forall (fun i => Forall (fun on => negb (Z.land b (Z.shiftl 1 i) =? 0) = Z.testbit b i /\
    u8 (Z.lor (Z.land b (Z.lnot (Z.shiftl 1 i))) (Z.shiftl (Z.land on 1) i)) = put_byte_bit i (on =? 1) b /\
    0 <= put_byte_bit i (on =? 1) b < 256) [0; 1]) (seqZ 0 8)) (seqZ 0 256)).
  { apply (bool_decide_unpack _). vm_compute. exact I. }
  intros b Hb. apply (byte_cases _ b H) in Hb. rewrite Forall_forall in Hb. specialize (Hb i ltac:(apply elem_of_seqZ; lia)).
  rewrite !Forall_cons in Hb. destruct Hon as [-> | ->]; tauto.
Qed.

Lemma land_not1 z : (Z.land z (Z.lnot 1) =? 0) = (z =? 0) || (z =? 1).
Proof.
  rewrite <- Z.ldiff_land. change 1 with (Z.ones 1) at 1. rewrite Z.ldiff_ones_r, Z.shiftl_mul_pow2, Z.shiftr_div_pow2 by lia.
  change (2 ^ 1) with 2. apply eq_bool_prop_intro. pose proof (Z.div_mod z 2). pose proof (Z.mod_pos_bound z 2).
  destruct (Z.eqb_spec (z / 2 * 2) 0), (Z.eqb_spec z 0), (Z.eqb_spec z 1); cbn; try done; lia.
Qed.

Lemma bit_index n : 0 <= n -> Z.shiftr n 3 = n / 8 /\ 7 - Z.land n 7 = 7 - n mod 8 /\ 0 <= 7 - n mod 8 < 8.
Proof.
  intros Hn. pose proof (Z.mod_pos_bound n 8 ltac:(lia)). split_and!; try lia; [by apply Z.shiftr_div_pow2 |].
  change 7 with (Z.ones 3) at 2. by rewrite Z.land_ones.
Qed.

Lemma with_offset_refines k a (m : Z -> M unit) f : (forall n, 0 <= n < 8 * MAXLEN -> Refines E (m n) k (f n)) ->
  Refines E (r <-- getBitOffsetFromArgument a false 0 ;; match r with None => ret tt | Some n => m n end) k (with_offset a f).
Proof.
  intros Hm. apply Refines_intro. intros s0 D o s c0 HO H Hget Hc. unfold with_offset, getBitOffsetFromArgument.
  replace (match a with [] => false | c :: _ => (c =? 35) && false && (0 <? 0) end) with false by (destruct a; [done | by rewrite !andb_false_r]).
  assert (Herr : wp (addReplyError "bit offset is not an integer or out of range" ;; ret None)
    (fun r => wp (match r with None => ret tt | Some n => m n end) (fun _ s' => exists c, cok c /\ absc c = absc c0 /\
      Out s0 (setcell E (dictid s0) k c D) (o ++ r_bitoffset) s')) s).
  { csteps. exists c0. subst c0. by rewrite setcell_id. }
  cstep. destruct (string2ll a) as [n|] eqn:Ha; [|exact Herr]. cbv zeta. apply string2ll_sound in Ha as [Hn _].
  replace ((n <? 0) || (Z.shiftr (u64 n) 3 >=? 512 * 1024 * 1024)) with (negb ((0 <=? n) && (n <? 8 * MAXLEN))).
  - destruct (_ && _) eqn:Hg; csimp; [|exact Herr]. zbool. cstep. subst c0. by apply (Hm n).
  - rewrite Z.geb_leb. destruct (Z.leb_spec 0 n); [|by rewrite (proj2 (Z.ltb_lt n 0)) by lia]. unfold int64, LLONG_MIN, LLONG_MAX, MAXLEN in *.
    rewrite uwrap_small, Z.shiftr_div_pow2 by lia. change (2 ^ 3) with 8. rewrite (proj2 (Z.ltb_ge n 0)) by lia. cbn [andb orb].
    apply eq_bool_prop_intro. pose proof (Z.div_mod n 8). pose proof (Z.mod_pos_bound n 8).
    destruct (Z.ltb_spec n (8 * (512 * 1024 * 1024))), (Z.leb_spec (512 * 1024 * 1024) (n / 8)); cbn; try done; lia.
Qed.

Lemma get_bit_read t n : bytes_ok t -> 0 <= n ->
  (if n / 8 <? zlen t then b ← bget t (n / 8); Some (negb (Z.land b (Z.shiftl 1 (7 - n mod 8)) =? 0)) else Some false) = Some (get_bit t n).
Proof.
  intros Ht Hn. unfold get_bit, bget. pose proof (Z.div_pos n 8 Hn ltac:(lia)). pose proof (Z.mod_pos_bound n 8). destruct (Z.ltb_spec (n / 8) (zlen t)).
  - zguard. destruct (lookup_lt_is_Some_2 t (Z.to_nat (n / 8))) as [b Hb]; [lia |]. rewrite Hb. cbn [mbind option_bind].
    assert (0 <= b < 256) by (by apply (Forall_lookup_1 _ _ _ _ Ht Hb)).
    rewrite (proj1 (byte_bit_code b (7 - n mod 8) 0 ltac:(done) ltac:(lia) ltac:(auto))). by rewrite (nth_lookup_Some _ _ _ _ Hb).
  - rewrite nth_overflow by lia. by rewrite Z.bits_0.
Qed.

Lemma bit_reply (b : bool) : (if b then shared_cone else shared_czero) = r_int (b2z b).
Proof. by destruct b. Qed.

Lemma getbit_refines k off : Refines E (getbitCommand E k off) k (getbit_spec E off).
Proof.
  apply with_offset_refines. intros n Hn. start0. csteps. read_or_reply; [cdone |].
  csimp. cstep. check_type; [cdone |]. csimp. destruct (len_run ob t) as (_ & Hl & Hb); [done.. |]. cstep. cstep. cstep.
  destruct (bit_index n ltac:(lia)) as (-> & -> & Hi). pose proof (get_bit_read t n Hb ltac:(lia)) as Hg. unfold on_string.
  rewrite <- bit_reply. destruct (n / 8 <? zlen t).
  - destruct (bget t (n / 8)) as [b|] eqn:Hbg; [|done]. injection Hg as <-. csteps. cdone.
  - injection Hg as <-. csteps. cdone.
Qed.

(** The string SETBIT works on, and what it writes there. *)
Lemma set_bit_code t n on : bytes_ok t -> zlen t <= MAXLEN -> 0 <= n < 8 * MAXLEN -> on = 0 \/ on = 1 ->
  exists b, bget (sdsgrowzero t (n / 8 + 1)) (n / 8) = Some b /\
    negb (Z.land b (Z.shiftl 1 (7 - n mod 8)) =? 0) = get_bit t n /\
    bset (sdsgrowzero t (n / 8 + 1)) (n / 8)
      (Z.lor (Z.land b (Z.lnot (Z.shiftl 1 (7 - n mod 8)))) (Z.shiftl (Z.land on 1) (7 - n mod 8))) = Some (set_bit t n (on =? 1)) /\
    bytes_ok (set_bit t n (on =? 1)) /\ zlen (set_bit t n (on =? 1)) <= MAXLEN.
Proof.
  intros Ht Hl Hn Hon. pose proof (Z.div_pos n 8 ltac:(lia) ltac:(lia)). pose proof (Z.mod_pos_bound n 8 ltac:(lia)).
  assert (n / 8 < MAXLEN) by (apply Z.div_lt_upper_bound; lia).
  set (g := sdsgrowzero t (n / 8 + 1)). assert (Hg : g = t ++ replicate (Z.to_nat (n / 8) + 1 - length t) 0)
    by (unfold g, sdsgrowzero; do 2 f_equal; lia).
  assert (Hgl : (Z.to_nat (n / 8) < length g)%nat) by (rewrite Hg; len).
  assert (Hgok : bytes_ok g) by (rewrite Hg; apply Forall_app; split; [done | apply Forall_replicate; lia]).
  destruct (lookup_lt_is_Some_2 g (Z.to_nat (n / 8)) Hgl) as [b Hb]. exists b.
  assert (Hb8 : 0 <= b < 256) by (by apply (Forall_lookup_1 _ _ _ _ Hgok Hb)).
  destruct (byte_bit_code b (7 - n mod 8) on) as (Hb1 & Hb2 & Hb3); [done | lia | done |].
  assert (Hset : set_bit t n (on =? 1) = <[Z.to_nat (n / 8) := put_byte_bit (7 - n mod 8) (on =? 1) b]> g).
  { unfold set_bit. rewrite <- Hg. apply list_eq. intros i. destruct (decide (i = Z.to_nat (n / 8))) as [-> | Hne].
    - by rewrite list_lookup_alter_eq, Hb, list_lookup_insert_eq.
    - by rewrite list_lookup_alter_ne, list_lookup_insert_ne. }
  rewrite Hset. split_and!.
  - unfold bget. by zguard.
  - rewrite Hb1. unfold get_bit. f_equal. rewrite Hg in Hb. destruct (decide (Z.to_nat (n / 8) < length t)%nat).
    + rewrite lookup_app_l in Hb by done. by rewrite (nth_lookup_Some _ _ _ _ Hb).
    + rewrite lookup_app_r in Hb by lia. apply lookup_replicate in Hb as [-> _]. by rewrite nth_overflow by lia.
  - unfold bset. repeat zguard. cbn [andb]. by rewrite Hb2.
  - by apply Forall_insert.
  - rewrite length_insert, Hg. len.
Qed.

Lemma setbit_refines k off bit : Refines E (setbitCommand E k off bit) k (setbit_spec E off bit).
Proof.
  apply with_offset_refines. intros n Hn. apply with_long_refines. intros on _ Hon. rewrite land_not1.
  destruct ((on =? 0) || (on =? 1)) eqn:Hbit; cbn [negb]; [|eapply Refines_reply; [apply replies_error | done]].
  assert (Hon01 : on = 0 \/ on = 1) by (apply orb_true_iff in Hbit; zbool; lia). clear Hbit.
  start0. csteps. unfold lookupStringForBitCommand. destruct (bit_index n ltac:(lia)) as (-> & -> & Hi). csteps. purged.
  - cstep. check_type; [cdone |]. destruct (len_run ob t) as (_ & Hl & Hb); [done.. |].
    destruct (set_bit_code t n on) as (b & Hbg & Hold & Hbs & Hok & Hlen); [done.. |].
    rewrite <- bit_reply, <- Hold. csteps. cdone.
  - destruct (set_bit_code [] n on) as (b & Hbg & Hold & Hbs & Hok & Hlen); [by constructor | cbn; unfold MAXLEN; lia | done.. |].
    assert (Hz : replicate (Z.to_nat (n / 8 + 1)) 0 = sdsgrowzero [] (n / 8 + 1)) by (unfold sdsgrowzero; cbn; f_equal; lia).
    assert (Hg0 : get_bit [] n = false) by (unfold get_bit; rewrite nth_overflow by (cbn; lia); apply Z.bits_0).
    assert (Hr : r_int 0 = if negb (Z.land b (Z.shiftl 1 (7 - n mod 8)) =? 0) then shared_cone else shared_czero) by by rewrite Hold, Hg0.
    rewrite Hr, Hz. csteps. cdone.
Qed.

(** *** BITCOUNT and BITPOS *)

Lemma drop_ok (t : list Z) n : bytes_ok t -> bytes_ok (drop n t).
Proof. intros. by apply Forall_drop. Qed.

Lemma count_replies t a b : bytes_ok t -> zlen t <= MAXLEN -> 0 <= a -> b < zlen t ->
  replies (if a >? b then addReplyString shared_czero
    else n <-- lift (redisPopcount (str_addr a) (drop (Z.to_nat a) t) (b - a + 1)) ;; addReplyLongLong n)
    (r_int (ones (bits_of (sub t a b)))).
Proof.
  intros Ht Hl Ha Hb. rewrite Z.gtb_ltb. destruct (Z.ltb_spec b a); [by rewrite sub_empty |].
  intros s. unfold bind, lift. rewrite redisPopcount_spec; [|by apply drop_ok | len | unfold MAXLEN in *; lia].
  apply replies_int. pose proof (ones_bound (bits_of (sub t a b))). pose proof (sub_length t a b).
  rewrite length_bits_of in *. unfold int64, LLONG_MIN, LLONG_MAX, MAXLEN in *. fold (sub t a b). lia.
Qed.

Lemma bitcount_refines k args : Refines E (bitcountCommand E k args) k (bitcount_spec E args).
Proof.
  unfold bitcount_spec. start0. unfold bitcountCommand. csteps. read_or_reply; [cdone |].
  csimp. cstep. check_type; [cdone |]. csimp. destruct (len_run ob t) as (_ & Hl & Hb); [done.. |]. cstep. cstep. unfold on_string.
  assert (Hcount : forall a b s', At E s0 D k RDLOCK c0 o s' -> 0 <= a -> b < zlen t ->
    wp ((if a >? b then addReplyString shared_czero
      else n <-- lift (redisPopcount (str_addr a) (drop (Z.to_nat a) t) (b - a + 1)) ;; addReplyLongLong n) ;; unlockDb ;; stat_hits 1)
      (fun _ s' => exists c, cok c /\ absc c = absc c0 /\ Out s0 (setcell E (dictid s0) k c D) (o ++ r_int (ones (bits_of (sub t a b)))) s') s').
  { intros a b s' HA' Ha Hbt. cstep. eapply wp_at_reply; [by apply count_replies | eassumption |]. intros. csteps. cdone. }
  destruct args as [|st [|en [|? ?]]]; [ | csteps; cdone | | csteps; cdone].
  - replace (bits_of t) with (bits_of (sub t 0 (zlen t - 1))); [apply Hcount; [done | lia | lia] |].
    unfold sub. rewrite firstn_all2; [done | rewrite length_drop; lia].
  - cstep. cstep; [intros a Ha | intros s2 Ha HA2]; rewrite Ha; [|csteps; cdone].
    cstep. cstep; [intros b Hbp | intros s2 Hbp HA2]; rewrite Hbp; [|csteps; cdone].
    destruct (clip_ok a b t) as (H1 & H2 & H3). by apply Hcount.
Qed.

Lemma first_bit_range b l i : first_bit b l = Some i -> 0 <= i < zlen l.
Proof.
  revert i. induction l as [|x l IH]; intros i; cbn; [done |]. case_match; [intros [= <-]; lia |].
  destruct (first_bit b l) as [j|]; [|done]. cbn. intros [= <-]. specialize (IH j eq_refl). lia.
Qed.

Lemma bitpos_search_ok s0 D k lm c o s t b a z g : At E s0 D k lm c o s -> cok c -> bytes_ok t -> zlen t <= MAXLEN -> 0 <= a -> z < zlen t ->
  wp (bitpos_search t b a z g) (fun _ s' => exists c', cok c' /\ absc c' = absc c /\
    Out s0 (setcell E (dictid s0) k c' D) (o ++ r_int (bitpos_in t b a z g)) s') s.
Proof.
  intros HA Hc Ht Hl Ha Hz. unfold bitpos_search, bitpos_in. rewrite Z.gtb_ltb. destruct (Z.ltb_spec z a); cbn [orb].
  { rewrite sub_empty by done. cstep. eapply wp_at_reply; [by apply replies_int | eassumption |]. intros. csteps. cdone. }
  pose proof (redisBitpos_spec (str_addr a) (drop (Z.to_nat a) t) (z - a + 1) b ltac:(by apply drop_ok) ltac:(len)) as Hp.
  unfold search in Hp. fold (sub t a z) in Hp.
  assert (Hlen : zlen (sub t a z) = z - a + 1) by (unfold sub; len).
  cstep. eapply wp_lift; [exact Hp |]. unfold MAXLEN in *. destruct (first_bit b (bits_of (sub t a z))) as [i|] eqn:Hf.
  - apply first_bit_range in Hf. rewrite length_bits_of in Hf. rewrite (proj2 (Z.eqb_neq (0 + i) ((z - a + 1) * 8))), andb_false_r by lia.
    zguard. csimp. cstep. eapply wp_at_reply; [apply (replies_int (0 + i + a * 8)); unfold int64, LLONG_MIN, LLONG_MAX; lia | eassumption |].
    intros. csteps. cdone.
  - destruct b; csimp.
    + rewrite andb_false_r. csimp. cstep. eapply wp_at_reply; [by apply replies_int | eassumption |]. intros. csteps. cdone.
    + rewrite andb_true_r, (proj2 (Z.eqb_eq (0 + 8 * (z - a + 1)) ((z - a + 1) * 8))), andb_true_r by lia. destruct g; csimp.
      * csteps. eapply wp_replies_out; [by apply replies_int | eassumption |]. intros. cdone.
      * zguard. csimp. cstep. eapply wp_at_reply; [apply (replies_int (0 + 8 * (z - a + 1) + a * 8)); unfold int64, LLONG_MIN, LLONG_MAX; lia | eassumption |].
        intros. csteps. replace ((z + 1) * 8) with (0 + 8 * (z - a + 1) + a * 8) by lia. cdone.
Qed.

Lemma bitpos_refines k bit args : Refines E (bitposCommand E k bit args) k (bitpos_spec E bit args).
Proof.
  apply with_long_refines. intros b _ Hb.
  replace (negb (b =? 0) && negb (b =? 1)) with (negb ((b =? 0) || (b =? 1))) by by destruct (b =? 0), (b =? 1).
  destruct ((b =? 0) || (b =? 1)) eqn:Hbit; cbn [negb]; [|eapply Refines_reply; [apply replies_error | done]].
  assert (Hb01 : b = 0 \/ b = 1) by (apply orb_true_iff in Hbit; zbool; lia). clear Hbit.
  start0. csteps. destruct (seen E c0) as [[ob e]|] eqn:Hs; csimp.
  - pose proof (seen_ok _ _ _ _ Hc Hs). cstep. check_type; [cdone |]. destruct (len_run ob t) as (_ & Hl & Hbt); [done.. |]. cstep. cstep.
    replace (negb (b =? 0)) with (b =? 1) by by destruct Hb01 as [-> | ->]. unfold on_string.
    destruct args as [|st [|en [|? ?]]].
    + apply (bitpos_search_ok _ _ _ RDLOCK); try done; lia.
    + cbn [length]. zguard. cstep. cstep; [intros a Ha | intros s2 Ha HA2]; rewrite Ha; [|csteps; cdone].
      destruct (clip_ok a (zlen t - 1) t) as (H1 & H2 & H3). by apply (bitpos_search_ok _ _ _ RDLOCK).
    + cbn [length]. zguard. cstep. cstep; [intros a Ha | intros s2 Ha HA2]; rewrite Ha; [|csteps; cdone].
      cstep. cstep; [intros z Hz | intros s2 Hz HA2]; rewrite Hz; [|csteps; cdone].
      destruct (clip_ok a z t) as (H1 & H2 & H3). by apply (bitpos_search_ok _ _ _ RDLOCK).
    + rewrite (proj2 (Z.leb_le 2 _)) by (cbn; lia). csteps. cdone.
  - csteps. replace (if negb (b =? 0) then -1 else 0) with (- b) by by destruct Hb01 as [-> | ->].
    eapply wp_replies_out; [apply replies_int; unfold int64, LLONG_MIN, LLONG_MAX; lia | eassumption |]. intros. cdone.
Qed.

End Commands.

End CmdRefine.
