(* ===== verification/Commands.v ===== *)
(** * The command table

    The modelled commands as one type, their execution by the handlers and
    their specification on the abstract key space, which is one finite map per
    logical database.  The invariant of the server state ties the two: every key
    lives in the internal database its hash selects. *)

From stdpp Require Import gmap strings.
From S2P Require Import Prelude Bytes Bits NumConv Object HashKit Bitops Keyspace KeyCmds StringCmds KeyspaceRules Cells CmdSpec CmdRefine.
Import NumConv Object HashKit Bitops Keyspace KeyCmds StringCmds KeyspaceRules Cells CmdSpec CmdRefine.

Module Commands.

#[local] Open Scope vire_scope.

(** ** Commands *)

Inductive command :=
  | GET (k : key) | STRLEN (k : key) | TYPE (k : key) | TTL (k : key) | PTTL (k : key) | PERSIST (k : key)
  | SET (k v : key) (opts : list key) | SETNX (k v : key) | SETEX (k secs v : key) | PSETEX (k ms v : key)
  | GETSET (k v : key) | APPEND (k v : key) | SETRANGE (k off v : key) | GETRANGE (k st en : key)
  | INCR (k : key) | DECR (k : key) | INCRBY (k d : key) | DECRBY (k d : key)
  | EXPIRE (k p : key) | EXPIREAT (k p : key) | PEXPIRE (k p : key) | PEXPIREAT (k p : key)
  | SETBIT (k off bit : key) | GETBIT (k off : key) | BITCOUNT (k : key) (args : list key) | BITPOS (k bit : key) (args : list key)
  | DEL (ks : list key) | EXISTS (ks : list key) | MGET (ks : list key) | MSET (args : list key)
  | SELECT (id : key) | FLUSHDB | DBSIZE.

Definition exec (E : env) (c : command) : M unit :=
  match c with
  | GET k => getCommand E k | STRLEN k => strlenCommand E k | TYPE k => typeCommand E k
  | TTL k => ttlCommand E k | PTTL k => pttlCommand E k | PERSIST k => persistCommand E k
  | SET k v opts => setCommand E k v opts | SETNX k v => setnxCommand E k v
  | SETEX k secs v => setexCommand E k secs v | PSETEX k ms v => psetexCommand E k ms v
  | GETSET k v => getsetCommand E k v | APPEND k v => appendCommand E k v
  | SETRANGE k off v => setrangeCommand E k off v | GETRANGE k st en => getrangeCommand E k st en
  | INCR k => incrCommand E k | DECR k => decrCommand E k
  | INCRBY k d => incrbyCommand E k d | DECRBY k d => decrbyCommand E k d
  | EXPIRE k p => expireCommand E k p | EXPIREAT k p => expireatCommand E k p
  | PEXPIRE k p => pexpireCommand E k p | PEXPIREAT k p => pexpireatCommand E k p
  | SETBIT k off bit => setbitCommand E k off bit | GETBIT k off => getbitCommand E k off
  | BITCOUNT k args => bitcountCommand E k args | BITPOS k bit args => bitposCommand E k bit args
  | DEL ks => delCommand E ks | EXISTS ks => existsCommand E ks
  | MGET ks => mgetCommand E ks | MSET args => msetCommand E args
  | SELECT id => selectCommand E id | FLUSHDB => flushdbCommand E | DBSIZE => dbsizeCommand E
  end.

(** ** Specification *)

Abbreviation kmap := (gmap (list Z) entry).

Section Spec.
Context (E : env).

(** The commands on one key. *)
Definition one_spec (c : command) : option (key * (option entry -> option entry * list Z)) :=
  match c with
  | GET k => Some (k, get_spec E) | STRLEN k => Some (k, strlen_spec E) | TYPE k => Some (k, type_spec E)
  | TTL k => Some (k, ttl_spec E false) | PTTL k => Some (k, ttl_spec E true) | PERSIST k => Some (k, persist_spec)
  | SET k v opts => Some (k, set_cmd_spec E v opts)
  | SETNX k v => Some (k, set_spec E OBJ_SET_NX v None (r_int 1) (r_int 0))
  | SETEX k secs v => Some (k, setg_spec E "setex" OBJ_SET_NO_FLAGS v (Some secs) UNIT_SECONDS shared_ok r_null)
  | PSETEX k ms v => Some (k, setg_spec E "psetex" OBJ_SET_NO_FLAGS v (Some ms) UNIT_MILLISECONDS shared_ok r_null)
  | GETSET k v => Some (k, getset_spec E v) | APPEND k v => Some (k, append_spec E v)
  | SETRANGE k off v => Some (k, setrange_spec E off v) | GETRANGE k st en => Some (k, getrange_spec E st en)
  | INCR k => Some (k, incr_spec E 1) | DECR k => Some (k, incr_spec E (-1))
  | INCRBY k d => Some (k, incrby_spec E d) | DECRBY k d => Some (k, decrby_spec E d)
  | EXPIRE k p => Some (k, expire_spec E (msec_now E) UNIT_SECONDS p) | EXPIREAT k p => Some (k, expire_spec E 0 UNIT_SECONDS p)
  | PEXPIRE k p => Some (k, expire_spec E (msec_now E) UNIT_MILLISECONDS p)
  | PEXPIREAT k p => Some (k, expire_spec E 0 UNIT_MILLISECONDS p)
  | SETBIT k off bit => Some (k, setbit_spec E off bit) | GETBIT k off => Some (k, getbit_spec E off)
  | BITCOUNT k args => Some (k, bitcount_spec E args) | BITPOS k bit args => Some (k, bitpos_spec E bit args)
  | _ => None
  end.

Definition one (k : key) (f : option entry -> option entry * list Z) (m : kmap) : kmap * list Z :=
  (partial_alter (fun _ => (f (m !! k)).1) k m, (f (m !! k)).2).

Fixpoint del_spec (ks : list key) (m : kmap) (n : Z) : kmap * Z :=
  match ks with
  | [] => (m, n)
  | k :: ks => del_spec ks (delete k m) (n + b2z (isSome (purge E (m !! k))))
  end.

Definition exists_spec (ks : list key) (m : kmap) : Z := zlen (List.filter (fun k => isSome (seen E (m !! k))) ks).

Definition mget_one (m : kmap) (k : key) : list Z :=
  match seen E (m !! k) with Some (Str t, _) => r_bulk t | _ => r_null end.

Fixpoint mset_spec (args : list key) (m : kmap) : kmap :=
  match args with
  | k :: v :: args => mset_spec args (<[k := (Str v, None)]> m)
  | _ => m
  end.

(** The selected database, its new contents and the reply. *)
Definition spec (c : command) (id : Z) (m : kmap) : Z * kmap * list Z :=
  match c with
  | DEL ks => let r := del_spec ks m 0 in (id, r.1, r_int r.2)
  | EXISTS ks => (id, m, r_int (exists_spec ks m))
  | MGET ks => (id, m, (42 :: dec_string (zlen ks) ++ crlf) ++ concat (mget_one m <$> ks))
  | MSET args =>
      if zlen args mod 2 =? 1 then (id, m, r_error "wrong number of arguments for MSET")
      else (id, mset_spec args m, shared_ok)
  | SELECT a =>
      match parse_ll a with
      | Some z => if (0 <=? s32 z) && (s32 z <? dblnum E) then (s32 z, m, shared_ok) else (id, m, r_error "invalid DB index")
      | None => (id, m, r_error "invalid DB index")
      end
  | FLUSHDB => (id, ∅, shared_ok)
  | DBSIZE => (id, m, r_int (Z.of_nat (size m)))
  | c => match one_spec c with Some (k, f) => let r := one k f m in (id, r.1, r.2) | None => (id, m, []) end
  end.

End Spec.

(** Arguments within the limits of the protocol, and the two places where the
    handlers overflow excluded. *)
Definition str_arg (v : list Z) : Prop := bytes_ok v /\ zlen v <= MAXLEN.

Fixpoint values_ok (args : list key) : Prop :=
  match args with _ :: v :: args => str_arg v /\ values_ok args | _ => True end.

Definition args_ok (c : command) (m : kmap) : Prop :=
  match c with
  | SET _ v _ | SETNX _ v | SETEX _ _ v | PSETEX _ _ v | GETSET _ v | APPEND _ v => str_arg v
  | SETRANGE _ off v => str_arg v /\ forall z, parse_ll off = Some z -> z + zlen v <= LLONG_MAX
  | DECRBY _ d => parse_ll d <> Some LLONG_MIN
  | DEL ks | EXISTS ks | MGET ks => zlen ks <= INT32_MAX
  | MSET args => values_ok args
  | DBSIZE => Z.of_nat (size m) <= LLONG_MAX
  | _ => True
  end.

(** Every one-key handler refines its specification. *)
Lemma one_refines E c k f m : one_spec E c = Some (k, f) -> args_ok c m -> Refines E (exec E c) k f.
Proof.
  intros Hs Ha. destruct c; try discriminate; injection Hs as <- <-; cbn [exec args_ok] in *; unfold str_arg in *.
  all: try (destruct Ha as [Ha1 Ha2]).
  all: eauto using get_refines, strlen_refines, type_refines, persist_refines, getset_refines, append_refines, getrange_refines,
    incrby_refines, decrby_refines, setbit_refines, getbit_refines, bitcount_refines, bitpos_refines, set_refines, setnx_refines,
    setex_refines, psetex_refines.
  all: try apply ttl_refines; try apply expire_refines; try (by apply incr_refines).
  by apply setrange_refines; destruct Ha1.
Qed.

End Commands.
