(* ===== verification/Sharding.v ===== *)
(** * The logical databases behind the internal ones

    [abs] is the key space of a logical database: the union of its internal
    databases.  Under the invariant a key is only in the internal database its
    hash selects, so changing the key's cell changes exactly that key. *)

From stdpp Require Import gmap strings.
From S2P Require Import Prelude Bytes Bits NumConv Object HashKit Keyspace KeyspaceRules Cells CmdSpec CmdRefine Commands.
Import NumConv Object HashKit Keyspace KeyspaceRules Cells CmdSpec CmdRefine Commands.

Module Sharding.

(** ** Unions of a list of maps *)

Lemma union_at (L : list kmap) j m k : L !! j = Some m -> (forall i m', L !! i = Some m' -> i <> j -> m' !! k = None) ->
  (⋃ L) !! k = m !! k.
Proof.
  revert j. induction L as [|m0 L IH]; intros j Hj Hother; [done |]. cbn [union_list foldr]. change (foldr union ∅ L) with (⋃ L).
  destruct j as [|j]; cbn in Hj.
  - injection Hj as ->. rewrite lookup_union. destruct (m !! k) eqn:E.
    + by rewrite union_Some_l.
    + rewrite (left_id_L None _). clear IH. assert (H : forall i m', L !! i = Some m' -> m' !! k = None) by (intros i m' Hi; by apply (Hother (S i))).
      clear Hother. induction L as [|m1 L IH]; [done |]. cbn. change (foldr union ∅ L) with (⋃ L). rewrite lookup_union, (H 0%nat m1 eq_refl).
      rewrite IH; [done |]. intros i m' Hi. by apply (H (S i)).
  - rewrite lookup_union, (Hother 0%nat m0) by done. rewrite (left_id_L None _). apply (IH j Hj). intros i m' Hi Hne. apply (Hother (S i) m' Hi). lia.
Qed.

Lemma union_none (L : list kmap) k : (forall m, m ∈ L -> m !! k = None) -> (⋃ L) !! k = None.
Proof.
  induction L as [|m L IH]; intros H; [done |]. cbn. change (foldr union ∅ L) with (⋃ L). rewrite lookup_union, H by (by left).
  rewrite IH; [done |]. intros m' Hm. apply H. by right.
Qed.

(** The size of a disjoint union. *)
Lemma size_union (L : list kmap) : (forall i j m m' k, L !! i = Some m -> L !! j = Some m' -> i <> j -> is_Some (m !! k) -> m' !! k = None) ->
  size (⋃ L) = sum_list (size <$> L).
Proof.
  induction L as [|m L IH]; intros H; [done |]. cbn. change (foldr union ∅ L) with (⋃ L). rewrite map_size_disj_union.
  - rewrite IH; [done |]. intros i j m1 m2 k H1 H2 Hne. apply (H (S i) (S j) m1 m2 k H1 H2). lia.
  - apply map_disjoint_spec. intros k x y Hx Hy. assert (Hn : (⋃ L) !! k = None); [|congruence].
    apply union_none. intros m' [j Hj]%list_elem_of_lookup. by apply (H 0%nat (S j) m m' k).
Qed.

(** ** The key space *)

Definition entries (d : redisDb) : kmap := map_imap (fun k o => Some (vof o, expires d !! k)) (dict d).

Lemma lookup_entries d k : entries d !! k = absc (cell_of d k).
Proof. unfold entries, cell_of. rewrite map_lookup_imap. by destruct (dict d !! k). Qed.

Lemma size_entries d : size (entries d) = size (dict d).
Proof.
  rewrite <- !size_dom. f_equal. apply set_eq. intros k. rewrite !elem_of_dom, lookup_entries. unfold cell_of. destruct (dict d !! k); cbn; split; by intros [].
Qed.

Section Abs.
Context (E : env).
Implicit Types (D : list redisDb) (k : key) (id : Z).

(** The internal databases of logical database [id]. *)
Definition shards D id : list redisDb := take (Z.to_nat (dbinum E)) (drop (Z.to_nat (id * dbinum E)) D).

Definition abs D id : kmap := ⋃ (entries <$> shards D id).

Record Inv (id : Z) (D : list redisDb) : Prop := mk_Inv {
  inv_dbs : dbs_ok E id D;
  inv_objs : forall i d k o, D !! i = Some d -> dict d !! k = Some o -> obj_ok o;
  inv_slot : forall j i d k, 0 <= j < dblnum E -> 0 <= i < dbinum E -> D !! Z.to_nat (i + j * dbinum E) = Some d ->
    is_Some (dict d !! k) -> i = slot E k
}.

Lemma shards_lookup D id (i : nat) : dbs_ok E id D -> 0 <= id ->
  shards D id !! i = if decide (Z.of_nat i < dbinum E) then D !! Z.to_nat (Z.of_nat i + id * dbinum E) else None.
Proof.
  intros H Hid. pose proof (dok_inum _ _ _ H). unfold shards. case_decide.
  - rewrite lookup_take_lt, lookup_drop by lia. f_equal. nia.
  - by rewrite lookup_take_ge by lia.
Qed.

Lemma cell_none d k : dict d !! k = None -> absc (cell_of d k) = None.
Proof. unfold cell_of. by intros ->. Qed.

Lemma Inv_select id j D : Inv id D -> 0 <= j < dblnum E -> Inv j D.
Proof. intros [[? ? ? ?] Ho Hs] Hj. split; [by split | exact Ho | exact Hs]. Qed.

(** Reading the key space is reading the key's own internal database. *)
Lemma abs_lookup id D k : Inv id D -> abs D id !! k = absc (getcell E id k D).
Proof.
  intros [H Ho Hs]. pose proof (dok_inum _ _ _ H) as Hn. pose proof (dok_id _ _ _ H) as Hid. pose proof (slot_range E k Hn) as Hsl.
  destruct (pos_lookup E id k D H) as (d & Hd & _). rewrite (getcell_at E id k D d Hd), <- lookup_entries.
  apply (union_at _ (Z.to_nat (slot E k))).
  - rewrite list_lookup_fmap, shards_lookup by (done || lia). rewrite decide_True by lia. unfold pos in Hd. by rewrite Z2Nat.id, Hd by lia.
  - intros i m'. rewrite list_lookup_fmap, shards_lookup by (done || lia). case_decide; [|done].
    destruct (D !! Z.to_nat (Z.of_nat i + id * dbinum E)) as [d'|] eqn:Hd'; [|done]. cbn. intros [= <-] Hne. rewrite lookup_entries. apply cell_none, eq_None_not_Some. intros Hk.
    apply (Hs id (Z.of_nat i) d' k) in Hk; [|lia | lia | done]. lia.
Qed.

Lemma Inv_cok id D k : Inv id D -> cok (getcell E id k D).
Proof.
  intros [H Ho _]. destruct (pos_lookup E id k D H) as (d & Hd & _). rewrite (getcell_at E id k D d Hd). unfold cell_of.
  destruct (dict d !! k) as [ob|] eqn:Hk; cbn; [|done]. intros o e [= <- <-]. by eapply Ho.
Qed.

(** Positions determine the logical database and the slot. *)
Lemma pos_split i j i' j' : 0 <= i < dbinum E -> 0 <= i' < dbinum E -> 0 <= j -> 0 <= j' ->
  Z.to_nat (i + j * dbinum E) = Z.to_nat (i' + j' * dbinum E) -> i = i' /\ j = j'.
Proof. intros Hi Hi' Hj Hj' Heq. assert (i + j * dbinum E = i' + j' * dbinum E) by nia. assert (j = j') by nia. nia. Qed.

Lemma setcell_lookup id k c D i : setcell E id k c D !! i = (if decide (i = pos E id k) then fun d => upd d k c else fun d => d) <$> D !! i.
Proof.
  unfold setcell. case_decide as Hi; [subst; apply list_lookup_alter_eq |]. rewrite list_lookup_alter_ne by done. by destruct (D !! i).
Qed.

Lemma setcell_Inv id k c D : Inv id D -> cok c -> Inv id (setcell E id k c D).
Proof.
  intros [H Ho Hs] Hc. pose proof (dok_inum _ _ _ H) as Hn. pose proof (dok_id _ _ _ H) as Hid. pose proof (slot_range E k Hn) as Hsl.
  split; [by apply setcell_dbs_ok | |].
  - intros i d k' o. rewrite setcell_lookup. destruct (D !! i) as [d0|] eqn:Hd; [|done]. cbn. intros [= <-]. case_decide; [|by eapply Ho].
    destruct (decide (k' = k)) as [-> | Hne].
    + rewrite dict_upd. destruct c as [[ob e]|]; [|done]. cbn. intros [= ->]. by eapply Hc.
    + rewrite dict_cell, cell_upd_ne, <- dict_cell by done. by eapply Ho.
  - intros j i d k' Hj Hi. rewrite setcell_lookup. destruct (D !! _) as [d0|] eqn:Hd; [|done]. cbn. intros [= <-]. case_decide as Hp; [|by apply (Hs j i d0 k')].
    destruct (decide (k' = k)) as [-> | Hne]; [|rewrite dict_cell, cell_upd_ne, <- dict_cell by done; by apply (Hs j i d0 k')].
    intros _. unfold pos in Hp. apply pos_split in Hp; lia.
Qed.

Lemma getcell_setcell id k c D : dbs_ok E id D -> getcell E id k (setcell E id k c D) = c.
Proof.
  intros H. destruct (pos_lookup E id k D H) as (d & Hd & _). unfold getcell. rewrite setcell_lookup, Hd, decide_True by done. cbn. apply cell_upd.
Qed.

Lemma getcell_setcell_ne id k j k' c D : (j, k') <> (id, k) -> dbs_ok E id D -> 0 <= j ->
  getcell E j k' (setcell E id k c D) = getcell E j k' D.
Proof.
  intros Hne H Hj. pose proof (dok_inum _ _ _ H) as Hn. pose proof (dok_id _ _ _ H) as Hid. unfold getcell. rewrite setcell_lookup.
  destruct (D !! pos E j k') as [d|]; [|done]. cbn. case_decide as Hp; [|done]. apply cell_upd_ne. intros ->. apply Hne.
  unfold pos in Hp. pose proof (slot_range E k Hn). apply pos_split in Hp; [|lia..]. f_equal. lia.
Qed.

(** Changing one cell changes one key of one key space. *)
Lemma abs_setcell id k c D : Inv id D -> cok c -> abs (setcell E id k c D) id = partial_alter (fun _ => absc c) k (abs D id).
Proof.
  intros H Hc. apply map_eq. intros k'. pose proof (inv_dbs _ _ H). rewrite abs_lookup by by apply setcell_Inv.
  destruct (decide (k' = k)) as [-> | Hne].
  - by rewrite getcell_setcell, lookup_partial_alter_eq.
  - rewrite getcell_setcell_ne, lookup_partial_alter_ne, abs_lookup by (congruence || done || apply (dok_id _ _ _ (inv_dbs _ _ H))). done.
Qed.

Lemma abs_setcell_ne id k c D j : Inv id D -> cok c -> 0 <= j < dblnum E -> j <> id -> abs (setcell E id k c D) j = abs D j.
Proof.
  intros H Hc Hj Hne. apply map_eq. intros k'. pose proof (inv_dbs _ _ H).
  rewrite !abs_lookup by (apply (Inv_select id); [|done]; try done; by apply setcell_Inv).
  rewrite getcell_setcell_ne; [done | congruence | done | lia].
Qed.

(** How a command leaves the databases. *)
Record Evolves (id : Z) (D D' : list redisDb) (m : kmap) : Prop := mk_Evolves {
  ev_inv : Inv id D';
  ev_abs : abs D' id = m;
  ev_other : forall j, 0 <= j < dblnum E -> j <> id -> abs D' j = abs D j
}.

Lemma Evolves_refl id D : Inv id D -> Evolves id D D (abs D id).
Proof. by split. Qed.

Lemma Evolves_setcell id k c D : Inv id D -> cok c -> Evolves id D (setcell E id k c D) (partial_alter (fun _ => absc c) k (abs D id)).
Proof. intros. split; auto using setcell_Inv, abs_setcell, abs_setcell_ne. Qed.

Lemma Evolves_trans id D D' D'' m m' : Evolves id D D' m -> Evolves id D' D'' m' -> Evolves id D D'' m'.
Proof. intros [] []. split; try done. intros j Hj Hne. by rewrite ev_other1, ev_other0. Qed.

End Abs.

End Sharding.
