(* ===== verification/World.v ===== *)
(** * The abstract key space with sets, hashes and lists

    A key of a database maps to a set of byte strings, a finite map or a list of
    byte strings, or an object of another type, and an optional expire time.
    [ValInv] relates a state to such a world: every set, hash or list object has
    a well-formed value, which is not empty, and no two keys share one. *)

From stdpp Require Import gmap strings.
From S2P Require Import Prelude Bytes Bits NumConv Object HashKit Intset ObjDict SetType SetProps HashType HashProps Quicklist QuicklistProps Keyspace Values KeyspaceRules Cells ValueRules CmdSpec Sharding.
Import NumConv Object HashKit Keyspace Values KeyspaceRules Cells ValueRules.
Import Intset(INTSET_MAX) Sharding(getcell_setcell, getcell_setcell_ne) CmdSpec(MAXLEN).
Import SetType(setobj) SetProps(sdenotes) HashType(hashobj) HashProps(hmap, hdenotes, fits_zip).
Import Quicklist(quicklist, compress) QuicklistProps(holds).

Module World.

#[local] Open Scope vire_scope.

(** ** Worlds *)

Inductive aval := ASet (X : gset (list Z)) | AHash (m : hmap) | AList (l : list (list Z)) | AObj (o : robj).
Abbreviation acell := (option (aval * option Z)).
Definition world : Type := Z -> list Z -> acell.

Definition wupd (W : world) (id : Z) (k : list Z) (a : acell) : world :=
  fun id' k' => if decide ((id', k') = (id, k)) then a else W id' k'.

(** Members of any length a request can carry. *)
Definition small (X : gset (list Z)) : Prop := forall b, b ∈ X -> zlen b <= MAXLEN.

(** Hashes with such fields and values, of less than 4 GB. *)
Definition hash_ok (m : hmap) : Prop := map_Forall (fun k v => zlen k <= MAXLEN /\ zlen v <= MAXLEN) m /\ fits_zip m.

Section Rel.
Context (E : env) (C : valenv).
Implicit Types (H : gmap Z value) (c : cell) (a : acell) (D : list redisDb) (W : world) (k : list Z).

Definition sees H c a : Prop :=
  match c with
  | None => a = None
  | Some (ob, e) =>
      match as_set ob, as_hash ob, as_list ob with
      | Some p, _, _ => exists v X, H !! p = Some (VSet v) /\ sdenotes (hash_seed C) v X /\ X <> ∅ /\ small X /\ a = Some (ASet X, e)
      | None, Some p, _ => exists h m, H !! p = Some (VHash h) /\ hdenotes (hash_seed C) h m /\ m <> ∅ /\ hash_ok m /\ a = Some (AHash m, e)
      | None, None, Some p => exists q l, H !! p = Some (VList q) /\ holds q l /\ l <> [] /\ compress q = 0 /\ a = Some (AList l, e)
      | None, None, None => a = Some (AObj ob, e)
      end
  end.

Definition address (o : robj) : option Z := match as_set o, as_hash o with Some p, _ | None, Some p => Some p | None, None => as_list o end.

(** The address in a cell. *)
Definition ptr c : option Z := c ≫= fun x => address x.1.

Record Vals (id : Z) D H W : Prop := mk_Vals {
  vl_dbs : dbs_ok E id D;
  vl_sees : forall id' k, 0 <= id' < dblnum E -> sees H (getcell E id' k D) (W id' k);
  vl_inj : forall i1 k1 i2 k2 p, 0 <= i1 < dblnum E -> 0 <= i2 < dblnum E ->
    ptr (getcell E i1 k1 D) = Some p -> ptr (getcell E i2 k2 D) = Some p -> (i1, k1) = (i2, k2)
}.

(** Between commands. *)
Definition ValInv (s : state) W : Prop := held s = None /\ Vals (dictid s) (dbs s) (heap s) W.

Lemma sees_ttl H c a : sees H c a -> ttl_of c = ttl_of a.
Proof. destruct c as [[ob e]|]; cbn; [|by intros ->]. destruct (as_set ob), (as_hash ob), (as_list ob); naive_solver. Qed.

Lemma sees_seen H c a : sees H c a -> sees H (seen E c) (seen E a).
Proof. intros Hs. unfold seen, dead. rewrite (sees_ttl _ _ _ Hs). by destruct (_ && _). Qed.

Lemma sees_purge H c a : sees H c a -> sees H (purge E c) (purge E a).
Proof. intros Hs. unfold purge, overdue. rewrite (sees_ttl _ _ _ Hs). by destruct (_ && _). Qed.

Lemma ptr_purge c p : ptr (purge E c) = Some p -> ptr c = Some p.
Proof. unfold purge. by destruct (_ && _). Qed.

Lemma sees_frame H H' c a : sees H c a -> (forall p, ptr c = Some p -> H' !! p = H !! p) -> sees H' c a.
Proof.
  destruct c as [[ob e]|]; cbn; [|done]. unfold address. destruct (as_set ob) as [p|], (as_hash ob) as [p'|], (as_list ob) as [p2|]; try done; intros (v & X & Hv & Hr) Hf; exists v, X; by rewrite Hf.
Qed.

Lemma sees_ptr H c a p : sees H c a -> ptr c = Some p -> is_Some (H !! p).
Proof.
  destruct c as [[ob e]|]; cbn; [|done]. unfold address. intros Hs Hp. destruct (as_set ob) as [q|], (as_hash ob) as [q'|], (as_list ob) as [q2|]; try done; injection Hp as <-; destruct Hs as (v & X & -> & _); eauto.
Qed.

(** What a cell that holds no set, no hash or no list looks like. *)
Ltac sees_other := cbn; intros Hn; rewrite ?Hn; repeat case_match; try done; intros Hs; destruct_and?; naive_solver.

Lemma sees_no_set H ob e a : as_set ob = None -> sees H (Some (ob, e)) a -> exists v, a = Some (v, e) /\ forall X, v <> ASet X.
Proof. sees_other. Qed.

Lemma sees_no_hash H ob e a : as_hash ob = None -> sees H (Some (ob, e)) a -> exists v, a = Some (v, e) /\ forall m, v <> AHash m.
Proof. sees_other. Qed.

Lemma sees_no_list H ob e a : as_list ob = None -> sees H (Some (ob, e)) a -> exists v, a = Some (v, e) /\ forall l, v <> AList l.
Proof. sees_other. Qed.

(** What the concrete cell of a set, a hash or a list is. *)
Lemma sees_ASet H c X e : sees H c (Some (ASet X, e)) -> exists p v, c = Some (OtherObj OBJ_SET p, e) /\ H !! p = Some (VSet v) /\ sdenotes (hash_seed C) v X /\ X <> ∅ /\ small X.
Proof. destruct c as [[[| | [] p] e']|]; cbn; intros Hs; destruct_and?; naive_solver. Qed.

Lemma sees_AHash H c m e : sees H c (Some (AHash m, e)) -> exists p h, c = Some (OtherObj OBJ_HASH p, e) /\ H !! p = Some (VHash h) /\ hdenotes (hash_seed C) h m /\ m <> ∅ /\ hash_ok m.
Proof. destruct c as [[[| | [] p] e']|]; cbn; intros Hs; destruct_and?; naive_solver. Qed.

Lemma sees_AList H c l e : sees H c (Some (AList l, e)) -> exists p q, c = Some (OtherObj OBJ_LIST p, e) /\ H !! p = Some (VList q) /\ holds q l /\ l <> [] /\ compress q = 0.
Proof. destruct c as [[[| | [] p] e']|]; cbn; intros Hs; destruct_and?; naive_solver. Qed.

(** Replacing one cell: only its old value may change, and its new value is the
    old one or a new one. *)
Lemma Vals_update id D H W k c H' a : Vals id D H W ->
  (forall p v, H !! p = Some v -> ptr (getcell E id k D) <> Some p -> H' !! p = Some v) ->
  (forall p, ptr c = Some p -> ptr (getcell E id k D) = Some p \/ H !! p = None) ->
  sees H' c a -> Vals id (setcell E id k c D) H' (wupd W id k a).
Proof.
  intros [Hd Hs Hi] Hf Hp Ha. pose proof (dok_id _ _ _ Hd) as Hid.
  assert (Hget : forall i k', 0 <= i < dblnum E -> getcell E i k' (setcell E id k c D) = if decide ((i, k') = (id, k)) then c else getcell E i k' D).
  { intros i k' Hr. case_decide as Heq; [injection Heq as -> ->; by apply getcell_setcell | apply getcell_setcell_ne; [done | done | lia]]. }
  assert (Hother : forall i k' p, 0 <= i < dblnum E -> (i, k') <> (id, k) -> ptr (getcell E i k' D) = Some p -> ptr c <> Some p).
  { intros i k' p Hr Hne H1 H2. destruct (Hp p H2) as [H3 | H3]; [by apply Hne, (Hi i k' id k p) |].
    destruct (sees_ptr _ _ _ _ (Hs i k' Hr) H1) as [v Hv]. congruence. }
  split; [by apply setcell_dbs_ok | |].
  - intros i k' Hr. rewrite Hget by done. unfold wupd. case_decide as Heq; [done |]. eapply sees_frame; [by apply Hs |]. intros p Hpp.
    destruct (sees_ptr _ _ _ _ (Hs i k' Hr) Hpp) as [v Hv]. rewrite Hv. apply Hf; [done |]. intros Hq. by apply Heq, (Hi i k' id k p).
  - intros i1 k1 i2 k2 p Hr1 Hr2. rewrite !Hget by done. case_decide as Q1; case_decide as Q2; intros P1 P2; [congruence | | | by eapply Hi].
    + exfalso. by eapply (Hother i2 k2).
    + exfalso. by eapply (Hother i1 k1).
Qed.

Lemma Vals_ext id D H W W' : (forall i k, 0 <= i < dblnum E -> W i k = W' i k) -> Vals id D H W -> Vals id D H W'.
Proof. intros He [Hd Hs Hi]. split; [done | | done]. intros i k Hr. rewrite <- He by done. by apply Hs. Qed.

(** ** How commands end *)

(** The command ended in the world [W'] with the reply [r]. *)
Definition Ends s W (r : list Z) s' : Prop := ValInv s' W /\ out s' = out s ++ r /\ dictid s' = dictid s.

Lemma Out_Ends s H' D' r s' W' : Out (set_heap H' s) D' r s' -> Vals (dictid s) D' H' W' -> Ends s W' r s'.
Proof. intros [Hd Hh Hi Ho Hs] HS. cbn in *. split_and!; [|done|done]. split; [done |]. by rewrite Hd, Hs, Hi. Qed.

(** The end of a writing command: [c] is written back with the values [H']. *)
Lemma wp_finish s0 H' D k c r (e : bool) s W' : At E (set_heap H' s0) D k WRLOCK c r s -> Vals (dictid s0) (setcell E (dictid s0) k c D) H' W' ->
  wp (unlockDb ;; count_expired e) (fun _ s' => Ends s0 W' r s') s.
Proof.
  intros HA HS. apply wp_bind. eapply wp_leave; [exact HA |]. intros s1 H1. eapply wp_counter_out; [auto with vire | exact H1 |]. intros s2 H2. by eapply Out_Ends.
Qed.

(** Commands that only reply. *)
Lemma wp_just_reply s W (r : list Z) (m : M unit) : ValInv s W -> replies m r -> wp m (fun _ s' => Ends s W r s') s.
Proof. intros [Hh HS] Hr. unfold wp. rewrite Hr. split_and!; [|done|done]. by split. Qed.

Lemma Ends_same s W r s' k : Ends s W r s' -> Ends s (wupd W (dictid s) k (W (dictid s) k)) r s'.
Proof.
  intros ([Hh HV] & Ho & Hi). split_and!; [split; [done |] | done | done]. eapply Vals_ext; [|exact HV]. intros i k' _. unfold wupd. by case_decide as Hc; [injection Hc as -> -> |].
Qed.

Lemma wp_error s W (r : list Z) (m : M unit) k : ValInv s W -> replies m r -> wp m (fun _ s' => Ends s (wupd W (dictid s) k (W (dictid s) k)) r s') s.
Proof. intros HI Hr. eapply wp_mono; [by apply (wp_just_reply s W r) |]. intros ? s'. apply Ends_same. Qed.

Definition r_multi (l : list (list Z)) : list Z := 42 :: dec_string (zlen l) ++ crlf ++ concat (r_bulk <$> l).

Definition r_wrong : list Z := shared_wrongtypeerr.

(** The frame of the readers. *)
Lemma wp_read_value s W k as_type miss body (P : list Z -> Prop) : ValInv s W ->
  let c := getcell E (dictid s) k (dbs s) in
  match seen E c with
  | None => P miss
  | Some (ob, _) =>
      match as_type ob with
      | None => P r_wrong
      | Some p => forall s1, At E s (dbs s) k RDLOCK c [] s1 ->
          wp (body p) (fun _ s2 => exists H' r, At E (set_heap H' s) (dbs s) k RDLOCK c r s2 /\ Vals (dictid s) (dbs s) H' W /\ P r) s1
      end
  end ->
  wp (read_value E as_type k miss body) (fun _ s' => exists r, Ends s W r s' /\ P r) s.
Proof.
  intros [Hh HS] c HP. unfold read_value. pose proof (vl_dbs _ _ _ _ HS) as Hdb. pose proof (dok_id _ _ _ Hdb) as Hid.
  assert (Hend : forall m H' r s', counter m -> At E (set_heap H' s) (dbs s) k RDLOCK c r s' -> Vals (dictid s) (dbs s) H' W -> P r ->
    wp (unlockDb ;; m) (fun _ s2 => exists r, Ends s W r s2 /\ P r) s').
  { intros m H' r s' Hm HA HV HPr. apply wp_bind. eapply wp_leave; [exact HA |]. intros s3 H3. unfold c in H3. rewrite setcell_id in H3 by done. eapply wp_counter_out; [done | exact H3 |].
    intros s4 H4. exists r. split; [by eapply Out_Ends | done]. }
  eapply wp_enter_bind; [by apply Out_refl | done |]. intros s1 H1. unfold lookupKeyReadOrReply. apply wp_bind, wp_bind. eapply wp_lookupKeyRead; [exact H1 |]. fold c.
  destruct (seen E c) as [[ob e]|]; cbn [fst fmap option_fmap option_map].
  - apply wp_ret. unfold checkType_as. destruct (as_type ob) as [p|].
    + apply wp_bind, wp_ret. apply wp_bind. eapply wp_mono; [by apply HP |]. intros _ s2 (H' & r & H2 & HV & HPr). eapply Hend; [auto with vire | done..].
    + apply wp_bind, wp_bind. eapply wp_at_reply; [apply replies_string | exact H1 |]. intros s2 H2. apply wp_ret. rewrite <- (set_heap_id s) in H2 at 1. eapply Hend; [auto with vire | done..].
  - apply wp_bind. eapply wp_at_reply; [apply replies_string | exact H1 |]. intros s2 H2. apply wp_ret. rewrite <- (set_heap_id s) in H2 at 1. eapply Hend; [auto with vire | done..].
Qed.
End Rel.

End World.
