(* ===== verification/SetWorld.v ===== *)
(** * Set commands: what the commands on one key promise *)

From stdpp Require Import gmap strings.
From S2P Require Import Prelude Bytes Bits NumConv Object HashKit Intset SetProps Keyspace Values KeyspaceRules Cells World.
Import NumConv Object HashKit Keyspace Values KeyspaceRules Cells.
Import SetProps(card) World.

Module SetWorld.

#[local] Open Scope vire_scope.

Section Rel.
Context (E : env).
Implicit Types (a : acell).

Definition enum (l : list (list Z)) (X : gset (list Z)) : Prop := NoDup l /\ list_to_set l = X.

Definition sadd_spec (args : list (list Z)) a : acell * list Z :=
  match purge E a with
  | None => (Some (ASet (list_to_set args), None), r_int (Z.of_nat (card (list_to_set args))))
  | Some (ASet X, e) => (Some (ASet (X ∪ list_to_set args), e), r_int (Z.of_nat (card (X ∪ list_to_set args)) - Z.of_nat (card X)))
  | Some (v, e) => (Some (v, e), r_wrong)
  end.

Definition srem_spec (args : list (list Z)) a : acell * list Z :=
  match purge E a with
  | None => (None, r_int 0)
  | Some (ASet X, e) =>
      let Y := X ∖ list_to_set args in
      (if decide (Y = ∅) then None else Some (ASet Y, e), r_int (Z.of_nat (card X) - Z.of_nat (card Y)))
  | Some (v, e) => (Some (v, e), r_wrong)
  end.

(** The readers leave the entry. *)
Definition on_set (miss : list Z) (f : gset (list Z) -> list Z) a : list Z :=
  match seen E a with
  | None => miss
  | Some (ASet X, _) => f X
  | Some (_, _) => r_wrong
  end.

Definition sismember_spec (b : list Z) := on_set (r_int 0) (fun X => r_int (b2z (bool_decide (b ∈ X)))).
Definition scard_spec := on_set (r_int 0) (fun X => r_int (Z.of_nat (card X))).

(** The members in some order, each once. *)
Definition smembers_spec a (r : list Z) : Prop :=
  match seen E a with
  | Some (ASet X, _) => exists l, enum l X /\ r = r_multi l
  | _ => r = on_set (r_multi []) (fun _ => []) a
  end.

End Rel.

End SetWorld.
