(* ===== verification/SetRefine.v ===== *)
(** * The set commands on one key refine the abstract key space *)

From stdpp Require Import gmap strings.
From S2P Require Import Prelude Bytes Bits NumConv Object HashKit Intset ObjDict SetType SetProps Keyspace Values KeyspaceRules Cells ValueRules CmdSpec Commands Sharding SetCmds SetRules World SetWorld.
Import NumConv Object HashKit Keyspace Values KeyspaceRules Cells ValueRules.
Import Intset(INTSET_MAX, intsetNew) CmdSpec(MAXLEN) Commands(str_arg).
Import SetType SetProps SetCmds SetRules World SetWorld.

Module SetRefine.

#[local] Open Scope vire_scope.

Section Refine.
Context (E : env) (C : valenv).
Implicit Types (W : world) (k : list Z) (s : state) (H : gmap Z value) (D : list redisDb).

Abbreviation seed := (hash_seed C).
Abbreviation INV := (ValInv E C).
Abbreviation Ends := (Ends E C).

(** ** One member *)

Lemma wp_set_add s0 D k c o s p v X b ob Q : At E s0 D k WRLOCK c o s -> heap s0 !! p = Some (VSet v) -> sdenotes seed v X ->
  robj_ok ob -> sval ob = Some b -> Z.of_nat (card X) + 1 < INTSET_MAX ->
  (forall v' s', At E (set_heap (<[p := VSet v']> (heap s0)) s0) D k WRLOCK c o s' -> sdenotes seed v' ({[b]} ∪ X) -> Q (b2z (bool_decide (b ∉ X))) s') ->
  wp (set_add C p ob) Q s.
Proof.
  intros HA Hp Hd Hok Hs Hsz HQ. unfold set_add. apply wp_bind. eapply wp_load_set; [exact HA | exact Hp |].
  destruct (add_spec (junk C) seed (can_resize C) (set_max_intset_entries C) (table0 C) (table1 C) v X ob b Hd Hok Hs Hsz) as (v' & Hv' & Hd').
  apply wp_bind. eapply wp_lift; [exact Hv' |]. cbn [fst snd]. apply wp_bind. eapply wp_store; [exact HA | exact Hp |]. intros s' HA'. apply wp_ret. by apply (HQ v').
Qed.

Lemma wp_set_remove s0 D k c o s p v X b ob Q : At E s0 D k WRLOCK c o s -> heap s0 !! p = Some (VSet v) -> sdenotes seed v X ->
  robj_ok ob -> sval ob = Some b ->
  (forall v' s', At E (set_heap (<[p := VSet v']> (heap s0)) s0) D k WRLOCK c o s' -> sdenotes seed v' (X ∖ {[b]}) -> Q (b2z (bool_decide (b ∈ X))) s') ->
  wp (set_remove C p ob) Q s.
Proof.
  intros HA Hp Hd Hok Hs HQ. unfold set_remove. apply wp_bind. eapply wp_load_set; [exact HA | exact Hp |].
  destruct (remove_spec (junk C) seed (can_resize C) v X ob b Hd Hok Hs) as (v' & Hv' & Hd').
  apply wp_bind. eapply wp_lift; [exact Hv' |]. cbn [fst snd]. apply wp_bind. eapply wp_store; [exact HA | exact Hp |]. intros s' HA'. apply wp_ret. by apply (HQ v').
Qed.

Lemma card_add b X : Z.of_nat (card ({[b]} ∪ X)) = Z.of_nat (card X) + b2z (bool_decide (b ∉ X)).
Proof.
  unfold card. case_bool_decide as Hb.
  - rewrite size_union by set_solver. rewrite size_singleton. cbn [b2z]. lia.
  - replace ({[b]} ∪ X) with X by set_solver. cbn [b2z]. lia.
Qed.

Lemma card_remove b X : Z.of_nat (card (X ∖ {[b]})) = Z.of_nat (card X) - b2z (bool_decide (b ∈ X)).
Proof.
  unfold card. case_bool_decide as Hb.
  - rewrite size_difference by set_solver. rewrite size_singleton. assert (size X ≠ 0)%nat by (rewrite size_non_empty_iff; set_solver). cbn [b2z]. lia.
  - replace (X ∖ {[b]}) with X by set_solver. cbn [b2z]. lia.
Qed.

(** ** SADD *)

Lemma wp_sadd_loop D k c o p args : Forall bytes_ok args -> forall s0 s v X added Q,
  At E s0 D k WRLOCK c o s -> heap s0 !! p = Some (VSet v) -> sdenotes seed v X -> Z.of_nat (card X) + zlen args < INTSET_MAX ->
  (forall v' s', At E (set_heap (<[p := VSet v']> (heap s0)) s0) D k WRLOCK c o s' -> sdenotes seed v' (X ∪ list_to_set args) ->
     Q (added + (Z.of_nat (card (X ∪ list_to_set args)) - Z.of_nat (card X))) s') ->
  wp (sadd_loop C p args added) Q s.
Proof.
  induction 1 as [|b args Hb Hargs IH]; intros s0 s v X added Q HA Hp Hd Hsz HQ; cbn [sadd_loop].
  - apply wp_ret. specialize (HQ v s). cbn [list_to_set] in HQ. rewrite union_empty_r_L, insert_id, set_heap_id in HQ by done.
    replace (added + _) with added in HQ by lia. by apply HQ.
  - destruct (arg_spec b Hb) as [Ha1 Ha2]. destruct (tryEncoding_spec _ _ Ha1 Ha2) as (ob & Hob & Hs & Hok). simpl length in Hsz.
    apply wp_bind. eapply wp_lift; [exact Hob |]. apply wp_bind. eapply wp_set_add; [done.. | lia |]. intros v' s1 HA1 Hd1.
    pose proof (card_add b X) as Hc. eapply IH; [exact HA1 | apply lookup_insert_eq | exact Hd1 | destruct (bool_decide (b ∉ X)); cbn [b2z] in *; lia |].
    intros v2 s2 HA2 Hd2. cbn [heap set_heap] in HA2. rewrite insert_insert_eq, set_heap_heap in HA2. replace ({[b]} ∪ X ∪ list_to_set args) with (X ∪ list_to_set (b :: args)) in * by set_solver.
    specialize (HQ v2 s2 HA2 Hd2). replace (_ + _) with (added + (Z.of_nat (card (X ∪ list_to_set (b :: args))) - Z.of_nat (card X))); [done |].
    rewrite Hc. destruct (bool_decide (b ∉ X)); cbn [b2z negb Z.eqb]; lia.
Qed.

(** Space for [n] more members. *)
Definition room (a : acell) (n : Z) : Prop :=
  match purge E a with Some (ASet X, _) => Z.of_nat (card X) + n < INTSET_MAX | _ => n < INTSET_MAX end.

Lemma small_args args X : Forall str_arg args -> small X -> small (X ∪ list_to_set args).
Proof.
  intros Ha HX b. rewrite elem_of_union, elem_of_list_to_set. intros [Hb | Hb]; [by apply HX |]. rewrite Forall_forall in Ha. by destruct (Ha b Hb).
Qed.

Lemma r_int_64 z : 0 <= z < INTSET_MAX -> int64 z.
Proof. unfold INTSET_MAX, int64, LLONG_MIN, LLONG_MAX. lia. Qed.

Lemma card_union_bound X args : Z.of_nat (card X) <= Z.of_nat (card (X ∪ list_to_set args)) <= Z.of_nat (card X) + zlen args.
Proof.
  unfold card. split; [apply inj_le, subseteq_size; set_solver |]. induction args as [|b args IH]; cbn [list_to_set length]; [rewrite union_empty_r_L; lia |].
  replace (X ∪ ({[b]} ∪ list_to_set args)) with ({[b]} ∪ (X ∪ list_to_set args)) by set_solver. pose proof (card_add b (X ∪ list_to_set args)) as Hc. unfold card in Hc.
  destruct (bool_decide _); cbn [b2z] in Hc; lia.
Qed.

(** The common tail of SADD: the members go into the set at [p]. *)
Lemma sadd_finish s0 D k p e args v X (ex : bool) s W : At E s0 D k WRLOCK (Some (OtherObj OBJ_SET p, e)) [] s -> heap s0 !! p = Some (VSet v) -> sdenotes seed v X ->
  Forall str_arg args -> small X -> X ∪ list_to_set args <> ∅ -> Z.of_nat (card X) + zlen args < INTSET_MAX ->
  (forall v', sees C (<[p := VSet v']> (heap s0)) (Some (OtherObj OBJ_SET p, e)) (Some (ASet (X ∪ list_to_set args), e)) ->
     Vals E C (dictid s0) (setcell E (dictid s0) k (Some (OtherObj OBJ_SET p, e)) D) (<[p := VSet v']> (heap s0)) W) ->
  wp (added <-- sadd_loop C p args 0 ;; add_dirty added ;; addReplyLongLong added ;; unlockDb ;; count_expired ex)
    (fun _ s' => Ends s0 W (r_int (Z.of_nat (card (X ∪ list_to_set args)) - Z.of_nat (card X))) s') s.
Proof.
  intros HA Hp Hd Hargs HX Hne Hsz HW. apply wp_bind. eapply wp_sadd_loop; [|done..|]. { eapply Forall_impl; [exact Hargs |]. by intros b []. }
  intros v' s1 HA1 Hd1. apply wp_bind. eapply wp_at_counter; [auto with vire | exact HA1 |]. intros s2 HA2. apply wp_bind.
  rewrite Z.add_0_l. pose proof (card_union_bound X args) as Hb.
  eapply wp_at_reply; [apply replies_int, r_int_64; lia | exact HA2 |]. intros s3 HA3. eapply wp_finish; [exact HA3 |]. apply HW.
  exists v', (X ∪ list_to_set args). rewrite lookup_insert_eq. split_and!; try done. by apply small_args.
Qed.

Lemma sadd_ok s W k args : INV s W -> args <> [] -> Forall str_arg args -> room (W (dictid s) k) (zlen args) ->
  wp (saddCommand E C k args) (fun _ s' => let r := sadd_spec E args (W (dictid s) k) in Ends s (wupd W (dictid s) k r.1) r.2 s') s.
Proof.
  intros [Hh HS] Hne Hargs Hroom. unfold saddCommand. pose proof (vl_dbs _ _ _ _ _ _ HS) as Hdb. pose proof (dok_id _ _ _ Hdb) as Hid.
  pose proof (vl_sees _ _ _ _ _ _ HS (dictid s) k Hid) as Hsee. apply (sees_purge E) in Hsee. unfold sadd_spec, room in *.
  eapply wp_enter_bind; [by apply Out_refl | done |]. intros s1 H1. apply wp_bind. eapply wp_lookupKeyWrite; [exact H1 |]. cbn [purge_if]. intros s2 H2.
  cbn [fst snd]. pose proof (ptr_purge E (getcell E (dictid s) k (dbs s))) as Hptr.
  set (c0 := getcell E (dictid s) k (dbs s)) in *. destruct (purge E c0) as [[ob e]|] eqn:Hc; cbn [fst fmap option_fmap option_map].
  - destruct (as_set ob) as [p|] eqn:Has.
    + cbn [sees] in Hsee. rewrite Has in Hsee. destruct ob as [| | [] p']; try done. injection Has as ->. destruct Hsee as (v & X & Hv & Hd & HX & Hsm & Ha). rewrite Ha in *. cbn [fst snd].
      eapply sadd_finish; [exact H2 | exact Hv | exact Hd | done | done | set_solver | done |].
      intros v' Hs'. apply (Vals_update E C _ _ (heap s)); [done | | | done].
      * intros q w Hq Hnq. rewrite lookup_insert_ne; [done |]. intros <-. by apply Hnq, Hptr.
      * intros q [= <-]. left. by apply Hptr.
    + destruct (sees_no_set _ _ _ _ _ Has Hsee) as (w & Hw & Hnw). rewrite Hw in *. apply wp_bind. eapply wp_leave; [exact H2 |]. intros s3 H3. apply wp_bind. eapply wp_counter_out; [auto with vire | exact H3 |].
      intros s4 H4. eapply wp_replies_out; [apply replies_string | exact H4 |]. intros s5 H5. rewrite <- (set_heap_id s) in H5 at 1.
      destruct w; [by destruct (Hnw X) | | |]; (eapply Out_Ends; [exact H5 |]; apply (Vals_update E C _ _ (heap s)); [done | done | intros q Hq; left; by apply Hptr | done]).
  - cbn [sees] in Hsee. rewrite Hsee in *. cbn [fst snd]. destruct args as [|b args']; [done |]. pose proof (Forall_inv Hargs) as [Hb _]. destruct (arg_spec b Hb) as [Ha1 Ha2].
    apply wp_bind. eapply wp_lift; [done |]. destruct (create_spec seed (arg b) b Ha1 Ha2) as (v & Hv & Hd). apply wp_bind. eapply wp_lift; [exact Hv |].
    apply wp_bind. eapply wp_alloc; [exact H2 |]. intros s3 H3. apply wp_bind. eapply wp_dbAdd; [exact H3 |]. intros s4 H4. set (p := fresh _) in *.
    eapply wp_mono; [eapply (sadd_finish _ _ _ _ _ (b :: args') v ∅ _ _ (wupd W (dictid s) k (Some (ASet (list_to_set (b :: args')), None)))); [exact H4 | apply lookup_insert_eq | exact Hd | done | done | set_solver | done |] |].
    + cbn [heap set_heap dictid]. rewrite union_empty_l_L. intros v' Hs'. rewrite insert_insert_eq in *. apply (Vals_update E C _ _ (heap s)); [done | | | done].
      * intros q w Hq _. rewrite lookup_insert_ne; [done |]. intros <-. subst p. by rewrite fresh_not in Hq.
      * intros q [= <-]. right. apply fresh_not.
    + intros _ s' [HI HO]. rewrite union_empty_l_L in HO. split; [exact HI |]. unfold card in HO at 2. rewrite size_empty, Z.sub_0_r in HO. exact HO.
Qed.

(** ** SREM *)

Lemma size_card v X : sdenotes seed v X -> setTypeSize v = Z.of_nat (card X).
Proof. intros (l & Hl & ->). by rewrite (size_spec seed v l Hl), (holds_size seed v l Hl). Qed.

Lemma card_zero X : (Z.of_nat (card X) =? 0) = bool_decide (X = ∅).
Proof.
  unfold card. apply eq_true_iff_eq. rewrite Z.eqb_eq, bool_decide_eq_true. rewrite <- (leibniz_equiv_iff X ∅), <- size_empty_iff. split; [lia | intros ->; done].
Qed.

Lemma wp_srem_loop D k o p e args : Forall bytes_ok args -> forall s0 s v X deleted Q,
  At E s0 D k WRLOCK (Some (OtherObj OBJ_SET p, e)) o s -> heap s0 !! p = Some (VSet v) -> sdenotes seed v X -> X <> ∅ ->
  (forall v' s', At E (set_heap (<[p := VSet v']> (heap s0)) s0) D k WRLOCK (if decide (X ∖ list_to_set args = ∅) then None else Some (OtherObj OBJ_SET p, e)) o s' ->
     sdenotes seed v' (X ∖ list_to_set args) -> Q (deleted + (Z.of_nat (card X) - Z.of_nat (card (X ∖ list_to_set args)))) s') ->
  wp (srem_loop C k p args deleted) Q s.
Proof.
  induction 1 as [|b args Hb Hargs IH]; intros s0 s v X deleted Q HA Hp Hd HX HQ; cbn [srem_loop].
  - apply wp_ret. specialize (HQ v s). cbn [list_to_set] in HQ. rewrite difference_empty_L, decide_False, insert_id, set_heap_id in HQ by done.
    replace (deleted + _) with deleted in HQ by lia. by apply HQ.
  - destruct (arg_spec b Hb) as [Ha1 Ha2]. apply wp_bind. eapply wp_set_remove; [done.. |]. intros v' s1 HA1 Hd1. pose proof (card_remove b X) as Hc.
    assert (Hset : X ∖ list_to_set (b :: args) = X ∖ {[b]} ∖ list_to_set args) by set_solver. rewrite Hset in HQ.
    assert (Hstep : forall v2 s2, At E (set_heap (<[p := VSet v2]> (heap (set_heap (<[p := VSet v']> (heap s0)) s0))) (set_heap (<[p := VSet v']> (heap s0)) s0)) D k WRLOCK
      (if decide (X ∖ {[b]} ∖ list_to_set args = ∅) then None else Some (OtherObj OBJ_SET p, e)) o s2 -> sdenotes seed v2 (X ∖ {[b]} ∖ list_to_set args) ->
      Q (deleted + b2z (bool_decide (b ∈ X)) + (Z.of_nat (card (X ∖ {[b]})) - Z.of_nat (card (X ∖ {[b]} ∖ list_to_set args)))) s2).
    { intros v2 s2 HA2 Hd2. cbn [heap set_heap] in HA2. rewrite insert_insert_eq, set_heap_heap in HA2. specialize (HQ v2 s2 HA2 Hd2).
      replace (deleted + b2z (bool_decide (b ∈ X)) + _) with (deleted + (Z.of_nat (card X) - Z.of_nat (card (X ∖ {[b]} ∖ list_to_set args)))) by lia. done. }
    destruct (bool_decide_reflect (b ∈ X)) as [Hin | Hnin]; cbn [b2z Z.eqb negb] in *.
    + apply wp_bind. eapply wp_load_set; [exact HA1 | apply lookup_insert_eq |]. rewrite (size_card _ _ Hd1), card_zero. case_bool_decide as Hemp.
      * apply wp_bind. eapply wp_dbDelete; [exact HA1 |]. intros s2 HA2. apply wp_ret.
        assert (He : X ∖ {[b]} ∖ list_to_set args = ∅) by set_solver. rewrite He in *. rewrite Hemp in *. rewrite decide_True in HQ by done. specialize (HQ v' s2 HA2 Hd1).
        replace (deleted + 1) with (deleted + (Z.of_nat (card X) - Z.of_nat (card ∅))) by lia. done.
      * eapply IH; [exact HA1 | apply lookup_insert_eq | exact Hd1 | done |]. exact Hstep.
    + eapply IH; [exact HA1 | apply lookup_insert_eq | exact Hd1 | set_solver |]. intros v2 s2 HA2 Hd2. specialize (Hstep v2 s2 HA2 Hd2). by rewrite Z.add_0_r in Hstep.
Qed.

Lemma small_minus X Y : small X -> small (X ∖ Y).
Proof. intros HX b Hb. apply HX. set_solver. Qed.

Lemma srem_ok s W k args : INV s W -> Forall str_arg args -> room (W (dictid s) k) 0 ->
  wp (sremCommand E C k args) (fun _ s' => let r := srem_spec E args (W (dictid s) k) in Ends s (wupd W (dictid s) k r.1) r.2 s') s.
Proof.
  intros [Hh HS] Hargs Hroom. unfold sremCommand. pose proof (vl_dbs _ _ _ _ _ _ HS) as Hdb. pose proof (dok_id _ _ _ Hdb) as Hid.
  pose proof (vl_sees _ _ _ _ _ _ HS (dictid s) k Hid) as Hsee. apply (sees_purge E) in Hsee. unfold srem_spec, room in *.
  eapply wp_enter_bind; [by apply Out_refl | done |]. intros s1 H1. unfold lookupKeyWriteOrReply. apply wp_bind, wp_bind. eapply wp_lookupKeyWrite; [exact H1 |]. cbn [purge_if]. intros s2 H2.
  cbn [fst snd]. pose proof (ptr_purge E (getcell E (dictid s) k (dbs s))) as Hptr.
  set (c0 := getcell E (dictid s) k (dbs s)) in *. destruct (purge E c0) as [[ob e]|] eqn:Hc; cbn [fst fmap option_fmap option_map].
  - apply wp_ret. cbn [fst snd]. unfold checkType_set, checkType_as. destruct (as_set ob) as [p|] eqn:Has.
    + cbn [sees] in Hsee. rewrite Has in Hsee. destruct ob as [| | [] p']; try done. injection Has as ->. destruct Hsee as (v & X & Hv & Hd & HX & Hsm & Ha). rewrite Ha in *. cbn [fst snd].
      apply wp_bind, wp_ret. apply wp_bind. eapply wp_srem_loop; [|exact H2 | exact Hv | exact Hd | done |]. { eapply Forall_impl; [exact Hargs |]. by intros b []. }
      intros v' s3 H3 Hd3. rewrite Z.add_0_l. apply wp_bind. set (n := Z.of_nat (card X) - _).
      eapply wp_at_counter; [destruct (negb _); auto with vire | exact H3 |]. intros s4 H4. apply wp_bind.
      eapply wp_at_reply; [apply replies_int, r_int_64 | exact H4 |].
      { subst n. assert (Hle : (card (X ∖ list_to_set args) <= card X)%nat) by (apply subseteq_size; set_solver). lia. }
      intros s5 H5. eapply wp_finish; [exact H5 |]. apply (Vals_update E C _ _ (heap s)); [done | | |].
      * intros q w Hq Hnq. rewrite lookup_insert_ne; [done |]. intros <-. by apply Hnq, Hptr.
      * intros q. case_decide; [done |]. intros [= <-]. left. by apply Hptr.
      * case_decide; [done |]. exists v', (X ∖ list_to_set args). rewrite lookup_insert_eq. split_and!; try done. by apply small_minus.
    + destruct (sees_no_set _ _ _ _ _ Has Hsee) as (w & Hw & Hnw). rewrite Hw in *. apply wp_bind, wp_bind. eapply wp_at_reply; [apply replies_string | exact H2 |]. intros s3 H3. apply wp_ret.
      destruct w; [by destruct (Hnw X) | | |]; (eapply wp_finish; [rewrite set_heap_id; exact H3 |]; apply (Vals_update E C _ _ (heap s)); [done | done | intros q Hq; left; by apply Hptr | done]).
  - cbn [sees] in Hsee. rewrite Hsee in *. cbn [fst snd]. apply wp_bind. eapply wp_at_reply; [apply replies_string | exact H2 |]. intros s3 H3. apply wp_ret. cbn [fst snd].
    eapply wp_finish; [rewrite set_heap_id; exact H3 |]. by apply (Vals_update E C _ _ (heap s)).
Qed.

(** ** The readers *)

(** A reader that replies [f X] on a set [X]. *)
Lemma read_ok s W k (miss : list Z) (body : setobj -> M unit) (P : gset (list Z) -> list Z -> Prop) : INV s W ->
  (forall v X, sdenotes seed v X -> small X -> exists r, replies (body v) r /\ P X r) ->
  wp (read_set E k miss body) (fun _ s' => exists r, Ends s W r s' /\
    match seen E (W (dictid s) k) with Some (ASet X, _) => P X r | _ => r = on_set E miss (fun _ => []) (W (dictid s) k) end) s.
Proof.
  intros HI Hbody. pose proof HI as [Hh HS]. pose proof (dok_id _ _ _ (vl_dbs _ _ _ _ _ _ HS)) as Hid.
  pose proof (vl_sees _ _ _ _ _ _ HS (dictid s) k Hid) as Hsee. apply (sees_seen E) in Hsee.
  apply (wp_read_value E C s W k as_set miss _ (fun r => match seen E (W (dictid s) k) with Some (ASet X, _) => P X r | _ => r = on_set E miss (fun _ => []) (W (dictid s) k) end)); [done |].
  unfold on_set. destruct (seen E (getcell E (dictid s) k (dbs s))) as [[ob e]|] eqn:Hc; [|cbn [sees] in Hsee; by rewrite Hsee].
  destruct (as_set ob) as [p|] eqn:Has.
  - cbn [sees] in Hsee. rewrite Has in Hsee. destruct Hsee as (v & X & Hv & Hd & HX & Hsm & Ha). rewrite Ha. destruct (Hbody v X Hd Hsm) as (r & Hr & HP). intros s1 H1. apply wp_bind.
    eapply wp_load_set; [exact H1 | exact Hv |]. eapply wp_at_reply; [exact Hr | exact H1 |]. intros s2 H2. exists (heap s), r. by rewrite set_heap_id.
  - destruct (sees_no_set _ _ _ _ _ Has Hsee) as (w & -> & Hw). destruct w; [by destruct (Hw X) | done | done | done].
Qed.

Lemma holds_len v l : holds seed v l -> zlen l <= 2 ^ 30.
Proof.
  destruct v as [st | d]; cbn [holds]; [intros (vs & Hr & ->) | intros [Hok ->]]; rewrite length_fmap.
  - pose proof (Intset.rep_max _ _ Hr) as Hm. unfold INTSET_MAX in Hm. lia.
  - apply Hok.
Qed.

(** A loop that replies to every member. *)
Lemma replies_each v l (f : element -> M unit) (g : list Z -> list Z) : holds seed v l ->
  (forall e b, b ∈ l -> robj_ok (eobj e) -> sval (eobj e) = Some b -> match e with EInt z => int64 z | EObj _ => True end -> replies (f e) (g b)) ->
  replies (each_all C (fun e _ => f e) v tt) (concat (g <$> l)).
Proof.
  intros Hl Hf s. destruct (wp_each_all C v l Hl) as (es & Hden & Heach).
  enough (Hw : wp (each_all C (fun e _ => f e) v tt) (fun _ s' => s' = set_out (out s ++ concat (g <$> l)) s) s).
  { apply wp_run in Hw as ([] & s' & -> & ->). done. }
  apply (Heach unit _ (fun pre _ s' => s' = set_out (out s ++ concat (g <$> take (length pre) l)) s)).
  - cbn. rewrite app_nil_r. by destruct s.
  - intros pre e post [] s1 Hes ->. destruct (Forall2_lookup_l _ _ _ (length pre) e Hden) as (b & Hb & Hok & Hs & Hz); [by rewrite Hes, list_lookup_middle |].
    unfold wp. rewrite (Hf e b (list_elem_of_lookup_2 _ _ _ Hb) Hok Hs Hz). cbn [out set_out]. rewrite length_app. cbn [length]. rewrite Nat.add_1_r, (take_S_r _ _ _ Hb), fmap_app, concat_app. cbn. by rewrite app_nil_r, <- app_assoc.
  - intros [] s1 ->. rewrite (Forall2_length _ _ _ Hden), firstn_all. done.
Qed.

Lemma replies_member v l e b : holds seed v l -> small (list_to_set l) -> b ∈ l -> robj_ok (eobj e) -> sval (eobj e) = Some b -> replies (addReplyBulk (eobj e)) (r_bulk b).
Proof.
  intros Hl Hsm Hb Hok Hs. apply replies_bulk; [done.. |]. assert (Hlen : zlen b <= MAXLEN) by (apply Hsm; set_solver). unfold MAXLEN in Hlen. lia.
Qed.

Lemma replies_members v l : holds seed v l -> small (list_to_set l) -> replies (smembersGenericCommand C v) (r_multi l).
Proof.
  intros Hl Hsm. pose proof (holds_len v l Hl) as Hlen. unfold smembersGenericCommand. rewrite (size_spec seed v l Hl).
  replace (r_multi l) with ((42 :: dec_string (zlen l) ++ crlf) ++ concat (r_bulk <$> l)) by (unfold r_multi; cbn; by rewrite <- !app_assoc).
  apply replies_bind; [apply replies_multilen; lia |].
  apply (replies_each v l (fun e => match e with EObj o => addReplyBulk o | EInt z => addReplyBulkLongLong z end)); [done |].
  intros [o | z] b Hb Hok Hs Hz; [by apply (replies_member v l (EObj o)) |]. cbn in Hs. rewrite sval_fromLongLong in Hs. injection Hs as <-. by apply bulk_longlong.
Qed.

Lemma sismember_ok s W k b : INV s W -> str_arg b ->
  wp (sismemberCommand E C k b) (fun _ s' => Ends s W (sismember_spec E b (W (dictid s) k)) s') s.
Proof.
  intros HI [Hb _]. eapply wp_mono; [apply (read_ok s W k shared_czero _ (fun X r => r = r_int (b2z (bool_decide (b ∈ X)))) HI) |].
  - intros v X Hd Hsm. eexists. split; [|done]. destruct (arg_spec b Hb) as [Ha1 Ha2]. destruct (tryEncoding_spec _ _ Ha1 Ha2) as (ob & Hob & Hs & Hok). intros s1. unfold bind, lift.
    rewrite Hob. cbn [mbind option_bind]. pose proof (member_spec seed v X ob b Hd Hok Hs) as Hm. unfold t_member. rewrite Hm. cbn [mbind option_bind]. by case_bool_decide.
  - intros _ s' (r & HE & Hr). unfold sismember_spec, on_set in *. destruct (seen E _) as [[[X | m | l | o] e]|]; by subst.
Qed.

Lemma scard_ok s W k : INV s W -> wp (scardCommand E k) (fun _ s' => Ends s W (scard_spec E (W (dictid s) k)) s') s.
Proof.
  intros HI. eapply wp_mono; [apply (read_ok s W k shared_czero _ (fun X r => r = r_int (Z.of_nat (card X))) HI) |].
  - intros v X Hd Hsm. eexists. split; [|done]. rewrite (size_card v X Hd). apply replies_int. destruct Hd as (l & Hl & ->). rewrite (holds_size seed v l Hl).
    pose proof (holds_len v l Hl). unfold int64, LLONG_MIN, LLONG_MAX. lia.
  - intros _ s' (r & HE & Hr). unfold scard_spec, on_set in *. destruct (seen E _) as [[[X | m | l | o] e]|]; by subst.
Qed.

Lemma smembers_ok s W k : INV s W -> wp (smembersCommand E C k) (fun _ s' => exists r, Ends s W r s' /\ smembers_spec E (W (dictid s) k) r) s.
Proof.
  intros HI. eapply wp_mono; [apply (read_ok s W k shared_emptymultibulk _ (fun X r => exists l, enum l X /\ r = r_multi l) HI) |].
  - intros v X (l & Hl & ->) Hsm. exists (r_multi l). split; [by apply replies_members |]. exists l. split; [|done]. split; [by eapply holds_NoDup | done].
  - intros _ s' (r & HE & Hr). exists r. split; [done |]. unfold smembers_spec, on_set in *. by destruct (seen E _) as [[[X | m | l | o] e]|].
Qed.

End Refine.
End SetRefine.
