(* ===== verification/SetAlgebra.v ===== *)
(** * SUNION, SINTER and SDIFF

    What the set algebra computes on the abstract key space, and the flaw of the
    second algorithm of SDIFF. *)

From stdpp Require Import gmap strings.
From S2P Require Import Prelude Bytes Bits NumConv Object HashKit Intset ObjDict SetType SetProps Keyspace Values KeyspaceRules Cells ValueRules CmdSpec Commands Sharding SetCmds SetRules World SetWorld SetRefine.
Import NumConv Object HashKit Keyspace Values KeyspaceRules Cells ValueRules.
Import Intset(INTSET_MAX, intsetNew, rep_new) CmdSpec(MAXLEN) Commands(str_arg).
Import SetType SetProps SetCmds SetRules World SetWorld SetRefine.

Module SetAlgebra.

#[local] Open Scope vire_scope.

Section Algebra.
Context (E : env) (C : valenv).
Implicit Types (W : world) (k : list Z) (ks : list (list Z)) (s : state) (D : list redisDb) (X Y : gset (list Z)).

Abbreviation seed := (hash_seed C).
Abbreviation INV := (ValInv E C).

(** ** Loops that compute *)

Lemma empty_set : sdenotes seed (SetInt intsetNew) ∅.
Proof. exists []. split; [|done]. exists []. split; [apply rep_new | done]. Qed.

(** The set the first [n] elements denote. *)
Lemma denote_split (es : list element) l pre e post : denote es l -> es = pre ++ e :: post -> exists b, l !! length pre = Some b /\
  robj_ok (eobj e) /\ sval (eobj e) = Some b /\ take (S (length pre)) l = take (length pre) l ++ [b].
Proof.
  intros Hd ->. destruct (Forall2_lookup_l _ _ _ (length pre) e Hd) as (b & Hb & Hok & Hs & _); [by rewrite list_lookup_middle |].
  exists b. split_and!; [done.. |]. by apply take_S_r.
Qed.

Lemma denote_all (es : list element) l : denote es l -> take (length es) l = l.
Proof. intros Hd. rewrite (Forall2_length _ _ _ Hd). apply firstn_all. Qed.

Lemma length_snoc {A} (pre : list A) e : length (pre ++ [e]) = S (length pre).
Proof. rewrite length_app. cbn. lia. Qed.

Lemma wp_copy_into v X dst Y s : sdenotes seed v X -> sdenotes seed dst Y -> Z.of_nat (card X) + Z.of_nat (card Y) < INTSET_MAX ->
  wp (copy_into C v dst) (fun d s' => s' = s /\ sdenotes seed d (Y ∪ X)) s.
Proof.
  intros (l & Hl & ->) Hd Hsz. rewrite (holds_size seed v l Hl) in Hsz. destruct (wp_each_all C v l Hl) as (es & Hden & Heach). unfold copy_into.
  apply (Heach setobj _ (fun pre d s' => s' = s /\ sdenotes seed d (Y ∪ list_to_set (take (length pre) l)))).
  - cbn [length fst snd]. by rewrite take_0, list_to_set_nil, union_empty_r_L.
  - intros pre e post d s1 Hes [-> Hd1]. destruct (denote_split es l pre e post Hden Hes) as (b & Hb & Hok & Hs & Ht). pose proof (lookup_lt_Some _ _ _ Hb) as Hlt.
    pose proof (card_union_bound Y (take (length pre) l)) as Hc. rewrite length_take in Hc.
    destruct (add_spec (junk C) seed (can_resize C) (set_max_intset_entries C) (table0 C) (table1 C) d _ (eobj e) b Hd1 Hok Hs ltac:(lia)) as (d' & Hd' & Hd2).
    apply wp_bind. eapply wp_lift; [exact Hd' |]. apply wp_ret. split; [done |]. cbn [fst]. rewrite length_snoc, Ht, list_to_set_app_L. cbn.
    replace (Y ∪ _) with ({[b]} ∪ (Y ∪ list_to_set (take (length pre) l))) by set_solver. done.
  - intros d s1 [-> Hd1]. rewrite (denote_all es l Hden) in Hd1. done.
Qed.

Lemma wp_add_counting v X dst Y n s : sdenotes seed v X -> sdenotes seed dst Y -> Z.of_nat (card X) + Z.of_nat (card Y) < INTSET_MAX -> n = Z.of_nat (card Y) ->
  wp (add_counting C v dst n) (fun r s' => s' = s /\ sdenotes seed r.1 (Y ∪ X) /\ r.2 = Z.of_nat (card (Y ∪ X))) s.
Proof.
  intros (l & Hl & ->) Hd Hsz ->. rewrite (holds_size seed v l Hl) in Hsz. destruct (wp_each_all C v l Hl) as (es & Hden & Heach). unfold add_counting.
  apply (Heach (setobj * Z)%type _ (fun pre r s' => s' = s /\ sdenotes seed r.1 (Y ∪ list_to_set (take (length pre) l)) /\ r.2 = Z.of_nat (card (Y ∪ list_to_set (take (length pre) l))))).
  - cbn [length fst snd]. by rewrite take_0, list_to_set_nil, union_empty_r_L.
  - intros pre e post [d n] s1 Hes (-> & Hd1 & Hn). cbn [fst snd] in *. destruct (denote_split es l pre e post Hden Hes) as (b & Hb & Hok & Hs & Ht). pose proof (lookup_lt_Some _ _ _ Hb) as Hlt.
    pose proof (card_union_bound Y (take (length pre) l)) as Hc. rewrite length_take in Hc. set (Z0 := Y ∪ list_to_set (take (length pre) l)) in *.
    destruct (add_spec (junk C) seed (can_resize C) (set_max_intset_entries C) (table0 C) (table1 C) d Z0 (eobj e) b Hd1 Hok Hs ltac:(lia)) as (d' & Hd' & Hd2).
    apply wp_bind. eapply wp_lift; [exact Hd' |]. apply wp_ret. cbn [fst snd]. rewrite length_snoc, Ht, list_to_set_app_L. cbn [list_to_set].
    replace (Y ∪ (list_to_set (take (length pre) l) ∪ ({[b]} ∪ ∅))) with ({[b]} ∪ Z0) by set_solver. split_and!; [done | done |]. rewrite card_add, Hn.
    unfold INTSET_MAX in Hsz. destruct (bool_decide (b ∉ Z0)); cbn [b2z negb Z.eqb]; [rewrite swrap_small by (simpl; lia); lia | lia].
  - intros r s1 (-> & Hd1 & Hn). rewrite (denote_all es l Hden) in *. done.
Qed.

Lemma wp_remove_counting v X dst Y n s : sdenotes seed v X -> sdenotes seed dst Y -> Z.of_nat (card Y) < INTSET_MAX -> n = Z.of_nat (card Y) ->
  wp (remove_counting C v dst n) (fun r s' => s' = s /\ sdenotes seed r.1 (Y ∖ X) /\ r.2 = Z.of_nat (card (Y ∖ X))) s.
Proof.
  intros (l & Hl & ->) Hd Hsz ->. destruct (wp_each_all C v l Hl) as (es & Hden & Heach). unfold remove_counting.
  apply (Heach (setobj * Z)%type _ (fun pre r s' => s' = s /\ sdenotes seed r.1 (Y ∖ list_to_set (take (length pre) l)) /\ r.2 = Z.of_nat (card (Y ∖ list_to_set (take (length pre) l))))).
  - cbn [length fst snd]. by rewrite take_0, list_to_set_nil, difference_empty_L.
  - intros pre e post [d n] s1 Hes (-> & Hd1 & Hn). cbn [fst snd] in *. destruct (denote_split es l pre e post Hden Hes) as (b & Hb & Hok & Hs & Ht).
    set (Z0 := Y ∖ list_to_set (take (length pre) l)) in *. assert (Hle : (card Z0 <= card Y)%nat) by (apply subseteq_size; set_solver).
    destruct (remove_spec (junk C) seed (can_resize C) d Z0 (eobj e) b Hd1 Hok Hs) as (d' & Hd' & Hd2).
    apply wp_bind. eapply wp_lift; [exact Hd' |]. apply wp_ret. cbn [fst snd]. rewrite length_snoc, Ht, list_to_set_app_L. cbn [list_to_set].
    replace (Y ∖ (list_to_set (take (length pre) l) ∪ ({[b]} ∪ ∅))) with (Z0 ∖ {[b]}) by set_solver. split_and!; [done | done |]. rewrite card_remove, Hn.
    unfold INTSET_MAX in Hsz. destruct (bool_decide (b ∈ Z0)); cbn [b2z negb Z.eqb]; [rewrite swrap_small by (simpl; lia); lia | lia].
  - intros r s1 (-> & Hd1 & Hn). rewrite (denote_all es l Hden) in *. done.
Qed.

(** ** Operands *)

(** What a key contributes: nothing, a set, or an error. *)
Definition opd W (id : Z) k : option (option (gset (list Z))) :=
  match seen E (W id k) with
  | None => Some None
  | Some (ASet X, _) => Some (Some X)
  | Some (_, _) => None
  end.

Lemma wp_operand {A} s W o s1 k (absent wrong : M A) (body : setobj -> M A) Q : Out s (dbs s) o s1 -> INV s W ->
  match opd W (dictid s) k with
  | None => forall s', Out s (dbs s) (o ++ r_wrong) s' -> wp wrong Q s'
  | Some None => forall s', Out s (dbs s) o s' -> wp absent Q s'
  | Some (Some X) => forall v s', sdenotes seed v X -> X <> ∅ -> small X -> wp (body v) (fun a s2 => s2 = s' /\ forall s3, Out s (dbs s) o s3 -> Q a s3) s'
  end -> wp (with_set E k absent wrong body) Q s1.
Proof.
  intros HO [Hh HS] HQ. pose proof (vl_dbs _ _ _ _ _ _ HS) as Hdb. pose proof (dok_id _ _ _ Hdb) as Hid.
  pose proof (vl_sees _ _ _ _ _ _ HS (dictid s) k Hid) as Hsee. apply (sees_seen E) in Hsee. unfold opd in HQ.
  eapply wp_with_set; [exact HO | done |]. destruct (seen E (getcell E (dictid s) k (dbs s))) as [[ob e]|]; cbn [sees] in Hsee.
  - destruct (as_set ob) as [p|] eqn:Has; [|destruct (sees_no_set C (heap s) ob e (seen E (W (dictid s) k)) Has) as (w & Hw & Hnw); [cbn [sees]; rewrite Has; exact Hsee |]; rewrite Hw in HQ; destruct w as [X | | |]; [by destruct (Hnw X) | done..]]. destruct Hsee as (v & X & Hv & Hd & HX & Hsm & Ha). rewrite Ha in HQ. exists v. split; [done |].
    intros s'. by apply HQ.
  - by rewrite Hsee in HQ.
Qed.

Lemma opd_card s W k X : INV s W -> opd W (dictid s) k = Some (Some X) -> Z.of_nat (card X) <= 2 ^ 30.
Proof.
  intros [Hh HS] Ho. pose proof (vl_dbs _ _ _ _ _ _ HS) as Hdb. pose proof (dok_id _ _ _ Hdb) as Hid.
  pose proof (vl_sees _ _ _ _ _ _ HS (dictid s) k Hid) as Hsee. apply (sees_seen E) in Hsee. unfold opd in Ho.
  destruct (seen E (W (dictid s) k)) as [[[Y | m | l | ob] e]|]; try done. injection Ho as ->. destruct (sees_ASet _ _ _ _ _ Hsee) as (p & v & _ & _ & (l & Hl & ->) & _).
  rewrite (holds_size seed v l Hl). by eapply holds_len.
Qed.

(** ** The choice of the algorithm of SDIFF *)

(** The work of the two algorithms on the operands. *)
Fixpoint work (Xs : list (option (gset (list Z)))) (j first_length one two : Z) : Z * Z :=
  match Xs with
  | [] => (one, two)
  | None :: Xs => work Xs (j + 1) first_length one two
  | Some X :: Xs =>
      let first_length := if j =? 0 then Z.of_nat (card X) else first_length in
      work Xs (j + 1) first_length (one + first_length) (two + Z.of_nat (card X))
  end.

Lemma wp_ud_sizes s W op ks : INV s W -> forall j fl one two o s1, Out s (dbs s) o s1 -> 0 <= fl <= 2 ^ 30 ->
  0 <= one -> 0 <= two -> one + zlen ks * 2 ^ 30 < 2 ^ 62 -> two + zlen ks * 2 ^ 30 < 2 ^ 62 ->
  wp (ud_sizes E op ks j fl one two) (fun r s2 =>
    match mapM (opd W (dictid s)) ks with
    | None => r = None /\ Out s (dbs s) (o ++ r_wrong) s2
    | Some Xs => Out s (dbs s) o s2 /\ exists w, r = Some w /\ (op = SET_OP_DIFF -> w = work Xs j fl one two)
    end) s1.
Proof.
  intros HI. induction ks as [|k ks IH]; intros j fl one two o s1 HO Hfl H1 H2 Hb1 Hb2; cbn [ud_sizes mapM].
  { apply wp_ret. split; [done |]. by eexists. }
  simpl length in Hb1, Hb2. apply wp_bind. eapply wp_operand; [exact HO | done |]. pose proof (opd_card s W k) as Hcard. destruct (opd W (dictid s) k) as [[X|]|]; cbn [mbind option_bind].
  - intros v s' Hd HX Hsm. specialize (Hcard X HI eq_refl). apply wp_ret. split; [done |]. intros s3 H3. apply wp_bind. eapply wp_counter_out; [auto with vire | exact H3 |]. intros s4 H4.
    rewrite (size_card C v X Hd). destruct op.
    + eapply wp_mono; [apply (IH (j + 1) fl one two); [done.. | lia | lia] |]. intros r s5. destruct (mapM _ ks); cbn; [|done]. intros (HO5 & w & -> & _). split; [done |]. by eexists.
    + set (fl' := if j =? 0 then s64 (Z.of_nat (card X)) else fl). assert (Hfl' : fl' = if j =? 0 then Z.of_nat (card X) else fl).
      { subst fl'. destruct (j =? 0); [|done]. apply swrap_small; simpl; lia. }
      assert (Hr : 0 <= fl' <= 2 ^ 30) by (rewrite Hfl'; destruct (j =? 0); lia). rewrite !swrap_small by (simpl; lia).
      eapply wp_mono; [apply (IH (j + 1) fl'); [done.. | lia | lia | lia | lia] |]. intros r s5. destruct (mapM _ ks) as [Xs|]; cbn; [|done].
      intros (HO5 & w & -> & Hw). split; [done |]. eexists. split; [done |]. intros Hop. rewrite Hw by done. by rewrite Hfl'.
  - intros s2 HO2. apply wp_bind. eapply wp_counter_out; [auto with vire | exact HO2 |]. intros s3 H3. apply wp_ret.
    eapply wp_mono; [apply (IH (j + 1) fl one two); [done.. | lia | lia] |]. intros r s5. by destruct (mapM _ ks).
  - intros s2 HO2. apply wp_bind. eapply wp_counter_out; [auto with vire | exact HO2 |]. intros s3 H3. apply wp_ret. by apply wp_ret.
Qed.

(** ** The result *)

Definition store_cell X : acell := if decide (X = ∅) then None else Some (ASet X, None).

(** The members replied in some order, or stored and counted. *)
Definition result (dst : option (list Z)) X W (id : Z) (W' : world) (r : list Z) : Prop :=
  match dst with
  | None => W' = W /\ exists l, enum l X /\ r = r_multi l
  | Some d => W' = wupd W id d (store_cell X) /\ r = r_int (Z.of_nat (card X))
  end.

Lemma wp_store_result s W d v X s1 : INV s W -> Out s (dbs s) [] s1 -> sdenotes seed v X -> small X ->
  wp (store_result E d (Some v)) (fun _ s' => Ends E C s (wupd W (dictid s) d (store_cell X)) (r_int (Z.of_nat (card X))) s') s1.
Proof.
  intros [Hh HS] HO Hd Hsm. pose proof (vl_dbs _ _ _ _ _ _ HS) as Hdb. unfold store_result, store_cell.
  eapply wp_enter_bind; [exact HO | done |]. intros s2 H2. apply wp_bind. eapply wp_dbDelete; [exact H2 |]. intros s3 H3. rewrite (size_card C v X Hd).
  assert (Hend : forall H' c r s4 W', At E (set_heap H' s) (dbs s) d WRLOCK c r s4 -> Vals E C (dictid s) (setcell E (dictid s) d c (dbs s)) H' W' ->
    wp (unlockDb ;; add_dirty 1) (fun _ s' => Ends E C s W' r s') s4).
  { intros H' c r s4 W' HA HS'. apply wp_bind. eapply wp_leave; [exact HA |]. intros s5 H5. eapply wp_counter_out; [auto with vire | exact H5 |]. intros s6 H6. by eapply Out_Ends. }
  pose proof (card_zero X) as Hz. apply wp_bind. case_decide as Hemp.
  - rewrite bool_decide_eq_true_2 in Hz by done. apply Z.eqb_eq in Hz. rewrite Hz. cbn [Z.gtb Z.compare]. eapply wp_at_reply; [apply replies_string | exact H3 |]. intros s4 H4.
    eapply Hend; [rewrite set_heap_id; exact H4 |]. by apply (Vals_update E C _ _ (heap s)).
  - rewrite bool_decide_eq_false_2 in Hz by done. apply Z.eqb_neq in Hz. rewrite (proj2 (Z.gtb_lt _ _)) by lia. apply wp_bind. eapply wp_alloc; [exact H3 |]. intros s4 H4.
    apply wp_bind. eapply wp_dbAdd; [exact H4 |]. intros s5 H5. pose proof Hd as (l & Hl & HX). assert (Hcard : Z.of_nat (card X) <= 2 ^ 30) by (rewrite HX, (holds_size seed v l Hl); by eapply holds_len).
    eapply wp_at_reply; [apply replies_int; unfold int64, LLONG_MIN, LLONG_MAX; lia | exact H5 |]. intros s6 H6. eapply Hend; [exact H6 |].
    apply (Vals_update E C _ _ (heap s)); [done | | |].
    + intros q w Hq _. rewrite lookup_insert_ne; [done |]. intros <-. by rewrite fresh_not in Hq.
    + intros q [= <-]. right. apply fresh_not.
    + exists v, X. rewrite lookup_insert_eq. by split_and!.
Qed.

Lemma wp_ud_done s W dst v X n s1 : INV s W -> Out s (dbs s) [] s1 -> sdenotes seed v X -> small X -> n = Z.of_nat (card X) ->
  wp (ud_done E C dst v n) (fun _ s' => exists W' r, Ends E C s W' r s' /\ result dst X W (dictid s) W' r) s1.
Proof.
  intros HI HO Hd Hsm ->. unfold ud_done. destruct dst as [d|].
  - eapply wp_mono; [by apply wp_store_result |]. intros ? s' HE. eexists _, _. split; [exact HE |]. by split.
  - destruct Hd as (l & Hl & ->). rewrite (holds_size seed v l Hl). pose proof (holds_len C v l Hl) as Hlen.
    assert (Hrep : replies (addReplyMultiBulkLen (zlen l) ;; each_all C (fun e _ => addReplyBulk (eobj e)) v tt) (r_multi l)).
    { replace (r_multi l) with ((42 :: dec_string (zlen l) ++ crlf) ++ concat (r_bulk <$> l)) by (unfold r_multi; cbn; by rewrite <- !app_assoc).
      apply replies_bind; [apply replies_multilen; lia |]. apply (replies_each C v l (fun e => addReplyBulk (eobj e))); [done |]. intros e b Hb Hok Hs _. by apply (replies_member C v l). }
    eapply wp_replies_out; [exact Hrep | exact HO |]. intros s2 H2. eexists W, _. split; [|split; [done |]; exists l; split; [|reflexivity]; split; [by eapply holds_NoDup | done]].
    rewrite <- (set_heap_id s) in H2 at 1. eapply Out_Ends; [exact H2 | apply HI].
Qed.

(** ** SUNION *)

Definition unions (Xs : list (option (gset (list Z)))) : gset (list Z) := ⋃ (default ∅ <$> Xs).

Definition total (Xs : list (option (gset (list Z)))) : Z := foldr (fun x n => Z.of_nat (card (default ∅ x)) + n) 0 Xs.

Lemma total_nonneg Xs : 0 <= total Xs.
Proof. induction Xs as [|X Xs IH]; [done |]. unfold total in *. cbn [foldr]. lia. Qed.

Lemma wp_sunion_loop s W ks : INV s W -> forall Xs v Y n s1, mapM (opd W (dictid s)) ks = Some Xs -> Out s (dbs s) [] s1 -> sdenotes seed v Y -> small Y ->
  Z.of_nat (card Y) + total Xs < INTSET_MAX -> n = Z.of_nat (card Y) ->
  wp (sunion_loop E C ks v n) (fun r s2 => Out s (dbs s) [] s2 /\ exists v', r = Some (v', Z.of_nat (card (Y ∪ unions Xs))) /\ sdenotes seed v' (Y ∪ unions Xs) /\ small (Y ∪ unions Xs)) s1.
Proof.
  intros HI. induction ks as [|k ks IH]; intros Xs v Y n s1 HXs HO Hd Hsm Hsz ->; cbn [sunion_loop mapM] in *.
  { injection HXs as <-. apply wp_ret. unfold unions. cbn. rewrite union_empty_r_L. split; [done |]. by exists v. }
  apply wp_bind. eapply wp_operand; [exact HO | done |]. destruct (opd W (dictid s) k) as [o|]; [|done]. cbn [mbind option_bind] in HXs. destruct (mapM _ ks) as [Xs'|]; [|done].
  cbn [mbind option_bind] in HXs. injection HXs as <-. cbn [total foldr] in Hsz. pose proof (total_nonneg Xs') as Htn. fold (total Xs') in Hsz.
  assert (Heq : Y ∪ unions (o :: Xs') = (Y ∪ default ∅ o) ∪ unions Xs') by (unfold unions; cbn; by rewrite assoc_L by apply _). rewrite Heq. destruct o as [X|]; [change (default ∅ (Some X)) with X in * | change (default ∅ None) with (∅ : gset (list Z)) in *].
  - intros v' s' Hd' HX HsmX. apply wp_bind. eapply wp_mono; [apply (wp_add_counting v' X v Y); [done | done | lia | done] |]. intros [v2 n2] s2 (-> & Hd2 & Hn2). cbn [fst snd] in *.
    apply wp_ret. split; [done |]. intros s3 H3. subst n2. apply IH; auto.
    + intros b. rewrite elem_of_union. intros []; auto.
    + assert (Hu : (card (Y ∪ X) <= card Y + card X)%nat) by (unfold card; rewrite size_union_alt; pose proof (subseteq_size (X ∖ Y) X ltac:(set_solver)); lia). lia.
  - rewrite union_empty_r_L. intros s2 H2. apply wp_ret. apply IH; auto; lia.
Qed.

Lemma sunion_ok s W ks dst : INV s W -> zlen ks < 2 ^ 31 -> (forall Xs, mapM (opd W (dictid s)) ks = Some Xs -> total Xs < INTSET_MAX) ->
  wp (sunionDiffGenericCommand E C ks dst SET_OP_UNION) (fun _ s' => exists W' r, Ends E C s W' r s' /\
    match mapM (opd W (dictid s)) ks with
    | None => W' = W /\ r = r_wrong
    | Some Xs => result dst (unions Xs) W (dictid s) W' r
    end) s.
Proof.
  intros HI Hks Htot. unfold sunionDiffGenericCommand. apply wp_bind. pose proof HI as [Hh HS].
  eapply wp_mono; [apply (wp_ud_sizes s W SET_OP_UNION ks HI 0 0 0 0 [] s); [by apply Out_refl | lia..] |]. intros r s1.
  destruct (mapM (opd W (dictid s)) ks) as [Xs|] eqn:HXs.
  - intros (HO & [one two] & -> & _). specialize (Htot Xs eq_refl). apply wp_bind.
    eapply wp_mono; [apply (wp_sunion_loop s W ks HI Xs _ ∅); [exact HXs | done | apply empty_set | done | unfold card; rewrite size_empty; lia | done] |].
    intros r s2 (HO2 & v & -> & Hd & Hsm). rewrite union_empty_l_L in *. by apply wp_ud_done.
  - intros [-> HO]. apply wp_ret. exists W, r_wrong. split; [|done]. rewrite <- (set_heap_id s) in HO at 1. eapply Out_Ends; [exact HO | done].
Qed.

(** ** SDIFF *)

Lemma elem_unions b o Xs : b ∈ unions (o :: Xs) <-> b ∈ (default ∅ o : gset (list Z)) \/ b ∈ unions Xs.
Proof. unfold unions. cbn [fmap list_fmap union_list]. apply elem_of_union. Qed.

Lemma wp_sdiff_check s W ks ob b : INV s W -> robj_ok ob -> sval ob = Some b -> forall Xs s1, mapM (opd W (dictid s)) ks = Some Xs -> Out s (dbs s) [] s1 ->
  wp (sdiff_check E C ks ob) (fun r s2 => Out s (dbs s) [] s2 /\ r = Some (bool_decide (b ∉ unions Xs))) s1.
Proof.
  intros HI Hok Hs. induction ks as [|k ks IH]; intros Xs s1 HXs HO; cbn [sdiff_check mapM] in *.
  { injection HXs as <-. apply wp_ret. split; [done |]. rewrite bool_decide_eq_true_2; [done |]. unfold unions. set_solver. }
  apply wp_bind. eapply wp_operand; [exact HO | done |]. destruct (opd W (dictid s) k) as [o|]; [|done]. cbn [mbind option_bind] in HXs. destruct (mapM _ ks) as [Xs'|]; [|done].
  cbn [mbind option_bind] in HXs. injection HXs as <-.
  assert (Hskip : b ∉ (default ∅ o : gset (list Z)) -> bool_decide (b ∉ unions (o :: Xs')) = bool_decide (b ∉ unions Xs')) by (intros Hn; apply bool_decide_ext; rewrite elem_unions; tauto).
  destruct o as [X|]; [change (default ∅ (Some X)) with X in * | change (default ∅ None) with (∅ : gset (list Z)) in *].
  - intros v s' Hd HX Hsm. pose proof (member_spec seed v X ob b Hd Hok Hs) as Hm. apply wp_bind. eapply wp_lift; [exact Hm |]. apply wp_ret. split; [done |]. intros s3 H3.
    case_bool_decide as Hin; [|rewrite Hskip by done; by apply IH]. apply wp_ret. split; [done |]. rewrite bool_decide_eq_false_2; [done |]. rewrite elem_unions. tauto.
  - intros s2 H2. apply wp_ret. rewrite Hskip by set_solver. by apply IH.
Qed.

(** The difference of the operands. *)
Definition difference_of (Xs : list (option (gset (list Z)))) : gset (list Z) :=
  match Xs with [] => ∅ | o :: Xs => default ∅ o ∖ unions Xs end.

Lemma wp_sdiff_algo1 s W k ks o Xs s1 : INV s W -> opd W (dictid s) k = Some o -> mapM (opd W (dictid s)) ks = Some Xs -> Out s (dbs s) [] s1 ->
  Z.of_nat (card (default ∅ o)) + 1 < INTSET_MAX ->
  wp (sdiff_algo1 E C (k :: ks) (SetInt intsetNew)) (fun r s2 => Out s (dbs s) [] s2 /\
    exists v, r = Some (v, Z.of_nat (card (difference_of (o :: Xs)))) /\ sdenotes seed v (difference_of (o :: Xs)) /\ small (difference_of (o :: Xs))) s1.
Proof.
  intros HI Hk HXs HO Hsz. unfold sdiff_algo1. apply wp_bind. eapply wp_lift; [done |]. apply wp_bind. eapply wp_operand; [exact HO | done |]. rewrite Hk. unfold difference_of.
  destruct o as [X|]; [change (default ∅ (Some X)) with X in * | change (default ∅ None) with (∅ : gset (list Z)) in *].
  2: { intros s2 H2. apply wp_ret. apply wp_ret. split; [done |]. exists (SetInt intsetNew). replace (∅ ∖ unions Xs) with (∅ : gset (list Z)) by set_solver. split_and!; [done | apply empty_set | done]. }
  intros v s' Hd HX Hsm. apply wp_bind. eapply wp_mono; [apply (wp_copy_into v X (SetInt intsetNew) ∅ s' Hd empty_set); unfold card in *; rewrite size_empty; lia |].
  rewrite union_empty_l_L. intros c s2 [-> (l & Hl & HXl)]. apply wp_ret. split; [done |]. intros s3 H3. pose proof (holds_NoDup seed c l Hl) as Hnd.
  destruct (wp_each C c l Hl) as (es & Hden & Heach). apply wp_bind. cbn [tail]. set (U := unions Xs) in *.
  eapply wp_mono; [apply (Heach (setobj * Z)%type unit _ (fun pre acc s' => Out s (dbs s) [] s' /\ sdenotes seed acc.1 (list_to_set (take (length pre) l) ∖ U) /\
    acc.2 = Z.of_nat (card (list_to_set (take (length pre) l) ∖ U))) (SetInt intsetNew, 0) s3) |].
  - cbn [length fst snd]. rewrite take_0, list_to_set_nil. replace (∅ ∖ U) with (∅ : gset (list Z)) by set_solver. split_and!; [done | apply empty_set | done].
  - intros pre e post [d n] s4 Hes (HO4 & Hd4 & Hn4). cbn [fst snd] in *. destruct (denote_split es l pre e post Hden Hes) as (b & Hb & Hok & Hs & Ht).
    apply wp_bind. eapply wp_mono; [apply (wp_sdiff_check s W ks (eobj e) b HI Hok Hs Xs s4 HXs HO4) |]. intros r s5 [HO5 ->]. rewrite length_snoc, Ht, list_to_set_app_L. cbn [list_to_set].
    set (P := list_to_set (take (length pre) l)) in *. fold U. case_bool_decide as Hnin.
    + assert (HnP : b ∉ P).
      { unfold P. rewrite elem_of_list_to_set. intros (j & Hj & Hlt)%elem_of_take. assert (j = length pre) by (by eapply NoDup_lookup). lia. }
      assert (Hle : (card (P ∖ U) <= card X)%nat) by (rewrite HXl; apply subseteq_size; intros x Hx; apply elem_of_difference in Hx as [Hx _]; unfold P in Hx; rewrite elem_of_list_to_set in *;
        apply elem_of_take in Hx as (j & Hj & _); by eapply list_elem_of_lookup_2). unfold INTSET_MAX in Hsz.
      destruct (add_spec (junk C) seed (can_resize C) (set_max_intset_entries C) (table0 C) (table1 C) d _ (eobj e) b Hd4 Hok Hs ltac:(unfold INTSET_MAX; lia)) as (d' & Hd' & Hd2).
      apply wp_bind. eapply wp_lift; [exact Hd' |]. apply wp_ret. eexists. split; [done |]. cbn [fst snd]. replace ((P ∪ ({[b]} ∪ ∅)) ∖ U) with ({[b]} ∪ P ∖ U) by set_solver.
      split_and!; [done | done |]. rewrite card_add, bool_decide_eq_true_2 by set_solver. subst n. cbn [b2z]. rewrite swrap_small by (simpl; lia). done.
    + apply wp_ret. eexists. split; [done |]. cbn [fst snd]. replace ((P ∪ ({[b]} ∪ ∅)) ∖ U) with (P ∖ U) by set_solver. done.
  - intros r s4 (si & [d n] & -> & Hrel & HO4 & Hd4 & Hn4). rewrite (denote_all es l Hden) in *. rewrite <- HXl in *. cbn [fst snd] in *. apply wp_bind. eapply wp_lift; [exact Hrel |]. apply wp_ret.
    split; [done |]. exists d. subst n. split_and!; [done | done | by apply small_minus].
Qed.

(** Algorithm 2 removes from the copy of the first set the first set itself. *)
Lemma wp_sdiff_algo2 s W k ks o Xs s1 : INV s W -> opd W (dictid s) k = Some o -> mapM (opd W (dictid s)) ks = Some Xs -> ks <> [] -> Out s (dbs s) [] s1 ->
  Z.of_nat (card (default ∅ o)) + 1 < INTSET_MAX ->
  wp (sdiff_algo2_loop E C k (k :: ks) 0 (SetInt intsetNew) 0) (fun r s2 => Out s (dbs s) [] s2 /\ exists v, r = Some (v, 0) /\ sdenotes seed v ∅) s1.
Proof.
  intros HI Hk HXs Hks HO Hsz. destruct ks as [|k2 ks]; [done |]. cbn [sdiff_algo2_loop]. apply wp_bind. eapply wp_operand; [exact HO | done |]. rewrite Hk.
  destruct o as [X|]; [change (default ∅ (Some X)) with X in * | change (default ∅ None) with (∅ : gset (list Z)) in *].
  2: { intros s2 H2. apply wp_ret. change (0 =? 0) with true. cbn iota. apply wp_ret. split; [done |]. exists (SetInt intsetNew). split; [done | apply empty_set]. }
  intros v s' Hd HX Hsm. change (0 =? 0) with true. cbn iota. apply wp_bind.
  eapply wp_mono; [apply (wp_add_counting v X (SetInt intsetNew) ∅ 0 s' Hd empty_set); unfold card in *; rewrite size_empty; lia |]. rewrite union_empty_l_L.
  intros [d n] s2 (-> & Hd2 & Hn). cbn [fst snd] in *. apply wp_ret. split; [done |]. intros s3 H3. subst n. rewrite card_zero, bool_decide_eq_false_2 by done.
  apply wp_bind. eapply wp_operand; [exact H3 | done |]. rewrite Hk. intros v2 s4 Hd4 _ _. change (0 + 1 =? 0) with false. cbn iota. apply wp_bind.
  eapply wp_mono; [apply (wp_remove_counting v2 X d X _ s4 Hd4 Hd2); [lia | done] |]. intros [d5 n5] s5 (-> & Hd5 & Hn5). cbn [fst snd] in *. apply wp_ret. split; [done |]. intros s6 H6.
  replace (X ∖ X) with (∅ : gset (list Z)) in * by set_solver. subst n5. rewrite card_zero, bool_decide_eq_true_2 by done. apply wp_ret. split; [done |]. by exists d5.
Qed.

(** Which of the two algorithms runs. *)
Definition algo1 (Xs : list (option (gset (list Z)))) : bool := let w := work Xs 0 0 0 0 in Z.quot w.1 2 <=? w.2.

Lemma algo1_single o : algo1 [o] = true.
Proof. unfold algo1. destruct o as [X|]; cbn [work Z.eqb Z.add fst snd]; [|done]. apply Z.leb_le. rewrite Z.quot_div_nonneg by lia. apply Z.div_le_upper_bound; lia. Qed.

Lemma sdiff_ok s W k ks dst : INV s W -> zlen ks < 2 ^ 31 -> (forall Xs, mapM (opd W (dictid s)) (k :: ks) = Some Xs -> total Xs + 1 < INTSET_MAX) ->
  wp (sunionDiffGenericCommand E C (k :: ks) dst SET_OP_DIFF) (fun _ s' => exists W' r, Ends E C s W' r s' /\
    match mapM (opd W (dictid s)) (k :: ks) with
    | None => W' = W /\ r = r_wrong
    | Some Xs => result dst (if algo1 Xs then difference_of Xs else ∅) W (dictid s) W' r
    end) s.
Proof.
  intros HI Hks Htot. unfold sunionDiffGenericCommand. apply wp_bind. pose proof HI as [Hh HS].
  eapply wp_mono; [apply (wp_ud_sizes s W SET_OP_DIFF (k :: ks) HI 0 0 0 0 [] s); [by apply Out_refl | simpl length; lia..] |]. intros r s1. cbn [mapM] in *.
  destruct (opd W (dictid s) k) as [o|] eqn:Hk; cbn [mbind option_bind mret option_ret] in *.
  2: { intros [-> HO]. apply wp_ret. exists W, r_wrong. split; [|done]. rewrite <- (set_heap_id s) in HO at 1. eapply Out_Ends; [exact HO | done]. }
  destruct (mapM (opd W (dictid s)) ks) as [Xs|] eqn:HXs; cbn [mbind option_bind mret option_ret] in *.
  2: { intros [-> HO]. apply wp_ret. exists W, r_wrong. split; [|done]. rewrite <- (set_heap_id s) in HO at 1. eapply Out_Ends; [exact HO | done]. }
  intros (HO & w & -> & Hw). rewrite Hw by done. specialize (Htot _ eq_refl). cbn [total foldr] in Htot. fold (total Xs) in Htot. pose proof (total_nonneg Xs) as Htn.
  destruct (work (o :: Xs) 0 0 0 0) as [one two] eqn:Hwork. assert (Halgo : algo1 (o :: Xs) = (Z.quot one 2 <=? two)) by (unfold algo1; by rewrite Hwork). rewrite Halgo.
  apply wp_bind. destruct (Z.quot one 2 <=? two).
  - eapply wp_mono; [apply (wp_sdiff_algo1 s W k ks o Xs s1 HI Hk HXs HO); lia |]. intros r s2 (HO2 & v & -> & Hd & Hsm). by apply wp_ud_done.
  - assert (Hne : ks <> []). { intros ->. injection HXs as <-. by rewrite algo1_single in Halgo. }
    apply wp_bind. eapply wp_lift; [done |]. eapply wp_mono; [apply (wp_sdiff_algo2 s W k ks o Xs s1 HI Hk HXs Hne HO); lia |]. intros r s2 (HO2 & v & -> & Hd). by apply wp_ud_done.
Qed.

(** ** SINTER *)

(** The first operand that is no set decides. *)
Inductive operands := AllSets (Xs : list (gset (list Z))) | Missing | WrongType.

Fixpoint scan W (id : Z) ks : operands :=
  match ks with
  | [] => AllSets []
  | k :: ks =>
      match opd W id k with
      | None => WrongType
      | Some None => Missing
      | Some (Some X) => match scan W id ks with AllSets Xs => AllSets (X :: Xs) | r => r end
      end
  end.

Lemma scan_all W id ks Xs : scan W id ks = AllSets Xs -> Forall2 (fun k X => opd W id k = Some (Some X)) ks Xs.
Proof.
  revert Xs. induction ks as [|k ks IH]; intros Xs; cbn [scan]; [intros [= <-]; constructor |].
  destruct (opd W id k) as [[X|]|] eqn:Hk; [|done..]. destruct (scan W id ks) as [Xs'| |]; [|done..]. intros [= <-]. constructor; auto.
Qed.

Lemma wp_sinter_missing s W dst s1 : INV s W -> Out s (dbs s) [] s1 ->
  wp (sinter_missing E dst) (fun _ s' => exists W' r, Ends E C s W' r s' /\ result dst ∅ W (dictid s) W' r) s1.
Proof.
  intros HI HO. pose proof HI as [Hh HS]. pose proof (vl_dbs _ _ _ _ _ _ HS) as Hdb. unfold sinter_missing. apply wp_bind. eapply wp_counter_out; [auto with vire | exact HO |]. intros s2 H2. destruct dst as [d|].
  - eapply wp_enter_bind; [exact H2 | done |]. intros s3 H3. apply wp_bind. eapply wp_dbDelete; [exact H3 |]. intros s4 H4. apply wp_bind.
    eapply wp_at_counter; [destruct (Prelude.isSome _); auto with vire | exact H4 |]. intros s5 H5. apply wp_bind. eapply wp_leave; [exact H5 |]. intros s6 H6.
    eapply wp_replies_out; [apply replies_string | exact H6 |]. intros s7 H7. eexists _, _. split; [|by split]. rewrite <- (set_heap_id s) in H7 at 1. eapply Out_Ends; [exact H7 |].
    by apply (Vals_update E C _ _ (heap s)).
  - eapply wp_replies_out; [apply replies_string | exact H2 |]. intros s3 H3. exists W, (r_multi []). split; [|split; [done |]; exists []; split; [split; [constructor | done] | done]].
    rewrite <- (set_heap_id s) in H3 at 1. eapply Out_Ends; [exact H3 | done].
Qed.

Lemma wp_sinter_smallest s W ks dst : INV s W -> forall j min_len idx s1, Out s (dbs s) [] s1 ->
  wp (sinter_smallest E ks dst j min_len idx) (fun r s2 =>
    match scan W (dictid s) ks with
    | AllSets _ => Out s (dbs s) [] s2 /\ exists i, r = Some i /\ (i = idx \/ j <= i < j + zlen ks) /\ (min_len = u64 (-1) -> ks <> [] -> j <= i)
    | Missing => r = None /\ exists W' r, Ends E C s W' r s2 /\ result dst ∅ W (dictid s) W' r
    | WrongType => r = None /\ Ends E C s W r_wrong s2
    end) s1.
Proof.
  intros HI. induction ks as [|k ks IH]; intros j min_len idx s1 HO; cbn [sinter_smallest scan].
  { apply wp_ret. split; [done |]. exists idx. by split_and!; [| left |]. }
  apply wp_bind. eapply wp_operand; [exact HO | done |]. pose proof (opd_card s W k) as Hcard. destruct (opd W (dictid s) k) as [[X|]|].
  - intros v s' Hd HX Hsm. specialize (Hcard X HI eq_refl). apply wp_ret. split; [done |]. intros s3 H3. apply wp_bind. eapply wp_counter_out; [auto with vire | exact H3 |]. intros s4 H4.
    rewrite (size_card C v X Hd). assert (Hne : Z.of_nat (card X) <> u64 (-1)) by (change (u64 (-1)) with (2 ^ 64 - 1); lia). simpl length.
    destruct ((min_len =? u64 (-1)) || (Z.of_nat (card X) <? min_len)) eqn:Hm; (eapply wp_mono; [by apply IH |]); intros r s5; (destruct (scan W (dictid s) ks); [|done..]);
      intros (HO5 & i & -> & Hi & _); (split; [done |]); exists i; (split; [done |]).
    + split; [right | intros _ _]; destruct Hi as [-> | Hi]; lia.
    + split; [destruct Hi as [-> | Hi]; [by left | right; lia] |]. intros ->. by rewrite Z.eqb_refl in Hm.
  - intros s2 HO2. apply wp_bind. eapply wp_mono; [by apply wp_sinter_missing |]. intros ? s3 HE. by apply wp_ret, wp_ret.
  - intros s2 HO2. apply wp_bind. eapply wp_counter_out; [auto with vire | exact HO2 |]. intros s3 H3. apply wp_ret, wp_ret. split; [done |].
    rewrite <- (set_heap_id s) in H3 at 1. eapply Out_Ends; [exact H3 | apply HI].
Qed.

Lemma sinter_test_spec v X e b : sdenotes seed v X -> robj_ok (eobj e) -> sval (eobj e) = Some b -> sinter_test C e v = Some (bool_decide (b ∈ X)).
Proof.
  intros Hd Hok Hs. pose proof (member_spec seed v X (eobj e) b Hd Hok Hs) as Hm. destruct e as [o | z]; cbn [sinter_test eobj] in *.
  - destruct o as [en c p | c z |]; [exact Hm | | done]. destruct v as [st | d]; [|exact Hm]. unfold t_member. rewrite Hm. cbn in Hm. rewrite Hm. cbn. by destruct (bool_decide (b ∈ X)).
  - destruct v as [st | d]; [|exact Hm]. rewrite <- Hm. unfold createStringObjectFromLongLong. by destruct (_ && _).
Qed.

(** Membership in all sets but the one at [idx]. *)
Fixpoint in_others (Xs : list (gset (list Z))) (j idx : Z) (b : list Z) : bool :=
  match Xs with
  | [] => true
  | X :: Xs => ((j =? idx) || bool_decide (b ∈ X)) && in_others Xs (j + 1) idx b
  end.

Lemma wp_sinter_check s W ks Xs e b idx : INV s W -> robj_ok (eobj e) -> sval (eobj e) = Some b -> Forall2 (fun k X => opd W (dictid s) k = Some (Some X)) ks Xs ->
  forall j s1, Out s (dbs s) [] s1 ->
  wp (sinter_check E C ks j idx e) (fun r s2 => Out s (dbs s) [] s2 /\ r = if in_others Xs j idx b then Keep else Break) s1.
Proof.
  intros HI Hok Hs. induction 1 as [|k X ks Xs Hk HXs IH]; intros j s1 HO; cbn [sinter_check in_others]; [by apply wp_ret |].
  destruct (j =? idx); cbn [orb andb]; [by apply IH |]. apply wp_bind. eapply wp_operand; [exact HO | done |]. rewrite Hk. intros v s' Hd HX Hsm.
  apply wp_bind. eapply wp_lift; [by apply sinter_test_spec |]. apply wp_ret. split; [done |]. intros s3 H3. case_bool_decide; cbn [andb]; [by apply IH | by apply wp_ret].
Qed.

(** The intersection of at least one set. *)
Definition inters (Xs : list (gset (list Z))) : gset (list Z) :=
  match Xs with [] => ∅ | X :: Xs => filter (fun b => Forall (fun Y => b ∈ Y) Xs) X end.

Lemma elem_inters b Xs : Xs <> [] -> b ∈ inters Xs <-> forall X, X ∈ Xs -> b ∈ X.
Proof.
  destruct Xs as [|X Xs]; [done |]. intros _. cbn [inters]. rewrite elem_of_filter, Forall_forall. setoid_rewrite elem_of_cons. naive_solver.
Qed.

Lemma in_others_spec Xs b idx : forall j, in_others Xs j idx b = true <-> forall (i : nat) X, Xs !! i = Some X -> j + Z.of_nat i <> idx -> b ∈ X.
Proof.
  induction Xs as [|X Xs IH]; intros j; cbn [in_others]; [done |]. rewrite andb_true_iff, orb_true_iff, Z.eqb_eq, bool_decide_eq_true, IH. split.
  - intros [H0 H1] [|i] Y HY Hne; cbn in HY; [injection HY as <-; destruct H0; [lia | done] |]. apply (H1 i Y HY). lia.
  - intros H. split; [destruct (decide (j = idx)); [by left | right; apply (H 0%nat X eq_refl); lia] |]. intros i Y HY Hne. apply (H (S i) Y HY). lia.
Qed.

Lemma inters_from Xs X idx : 0 <= idx -> Xs !! Z.to_nat idx = Some X -> forall b, b ∈ inters Xs <-> b ∈ X /\ in_others Xs 0 idx b = true.
Proof.
  intros Hi HX b. assert (Hne : Xs <> []) by (by intros ->). rewrite (elem_inters b Xs Hne), in_others_spec. split.
  - intros H. split; [by eapply H, list_elem_of_lookup_2 |]. intros i Y HY _. by eapply H, list_elem_of_lookup_2.
  - intros [H0 H1] Y (i & HY)%list_elem_of_lookup. destruct (decide (i = Z.to_nat idx)) as [-> | Hd]; [congruence |]. apply (H1 i Y HY). lia.
Qed.

Lemma wp_sinter_done s W dst v X n s1 : INV s W -> Out s (dbs s) [] s1 -> sdenotes seed v X -> small X -> n = Z.of_nat (card X) ->
  wp (sinter_done E C dst (Some v) n) (fun _ s' => exists W' r, Ends E C s W' r s' /\ result dst X W (dictid s) W' r) s1.
Proof.
  intros HI HO Hd Hsm Hn. pose proof (wp_ud_done s W dst v X n s1 HI HO Hd Hsm Hn) as Hdone. unfold sinter_done. destruct dst as [d|]; [exact Hdone |]. cbn [ud_done] in Hdone.
  rewrite (size_card C v X Hd). destruct (Z.of_nat (card X) >? 0) eqn:Hz; [exact Hdone |]. pose proof (card_zero X) as Hc. rewrite Z.gtb_ltb in Hz. apply Z.ltb_ge in Hz.
  rewrite (proj2 (Z.eqb_eq _ _)) in Hc by lia. symmetry in Hc. apply bool_decide_eq_true in Hc. subst X n. apply wp_bind.
  eapply wp_replies_out; [apply (replies_multilen 0); lia | exact HO |]. intros s2 H2. apply wp_ret. exists W, (r_multi []).
  split; [|split; [done |]; exists []; split; [split; [constructor | done] | done]]. rewrite <- (set_heap_id s) in H2 at 1. eapply Out_Ends; [exact H2 | apply HI].
Qed.

Lemma filter_add (P : list Z -> Prop) `{!forall x, Decision (P x)} b Y : filter P (Y ∪ ({[b]} ∪ ∅)) = if decide (P b) then {[b]} ∪ filter P Y else filter P Y.
Proof. apply set_eq. intros x. case_decide; rewrite ?elem_of_union, !elem_of_filter, !elem_of_union, ?elem_of_singleton; set_solver. Qed.

(** The main loop over a copy of the smallest set. *)
Lemma wp_sinter_loop s W dst ks Xs idx X c s1 : INV s W -> Forall2 (fun k X => opd W (dictid s) k = Some (Some X)) ks Xs -> Out s (dbs s) [] s1 ->
  0 <= idx -> Xs !! Z.to_nat idx = Some X -> sdenotes seed c X -> small X -> Z.of_nat (card X) + 1 < INTSET_MAX ->
  wp (r <-- each C (fun e (acc : setobj * Z) =>
        x <-- sinter_check E C ks 0 idx e ;;
        match x with
        | Keep => d <-- lift (t_add C acc.1 (eobj e)) ;; ret (inl (d.1, u64 (acc.2 + 1)))
        | Break => ret (inl acc)
        | Gone => ret (inr (true, acc.2))
        | Wrong => ret (inr (false, acc.2))
        end) c (SetInt intsetNew, 0) ;;
      let '(v, si, x) := r in
      match x with
      | inl (dstset, cardinality) => lift (t_release C v si) ;; sinter_done E C dst (Some dstset) cardinality
      | inr (true, cardinality) => release_freed v ;; sinter_done E C dst None cardinality
      | inr (false, _) => release_freed v
      end) (fun _ s' => exists W' r, Ends E C s W' r s' /\ result dst (inters Xs) W (dictid s) W' r) s1.
Proof.
  intros HI Hks HO Hi HXi (l & Hl & HXl) Hsm Hsz. pose proof (holds_NoDup seed c l Hl) as Hnd. destruct (wp_each C c l Hl) as (es & Hden & Heach). apply wp_bind.
  set (P := fun b => in_others Xs 0 idx b = true). set (F := fun n : nat => filter P (list_to_set (take n l) : gset (list Z))).
  assert (HFX : forall n, F n ⊆ X).
  { intros n x Hx. unfold F in Hx. apply elem_of_filter in Hx as [_ Hx]. rewrite elem_of_list_to_set in Hx. rewrite HXl, elem_of_list_to_set. apply elem_of_take in Hx as (j & Hj & _). by eapply list_elem_of_lookup_2. }
  eapply wp_mono; [apply (Heach (setobj * Z)%type (bool * Z)%type _ (fun pre acc s' => Out s (dbs s) [] s' /\ sdenotes seed acc.1 (F (length pre)) /\ acc.2 = Z.of_nat (card (F (length pre)))) (SetInt intsetNew, 0) s1) |].
  - cbn [length fst snd]. unfold F. rewrite take_0, list_to_set_nil. replace (filter P ∅) with (∅ : gset (list Z)) by set_solver. split_and!; [done | apply empty_set | done].
  - intros pre e post [d n] s4 Hes (HO4 & Hd4 & Hn4). cbn [fst snd] in *. destruct (denote_split es l pre e post Hden Hes) as (b & Hb & Hok & Hs & Ht).
    apply wp_bind. eapply wp_mono; [apply (wp_sinter_check s W ks Xs e b idx HI Hok Hs Hks 0 s4 HO4) |]. intros r s5 [HO5 ->]. rewrite length_snoc.
    assert (HF : F (S (length pre)) = if decide (P b) then {[b]} ∪ F (length pre) else F (length pre)) by (unfold F; rewrite Ht, list_to_set_app_L; apply filter_add).
    rewrite HF. unfold P in HF |- *. destruct (in_others Xs 0 idx b) eqn:Hin.
    + rewrite decide_True by done. assert (HnP : b ∉ F (length pre)).
      { unfold F. rewrite elem_of_filter, elem_of_list_to_set. intros [_ (j & Hj & Hlt)%elem_of_take]. assert (j = length pre) by (by eapply NoDup_lookup). lia. }
      assert (Hle : (card (F (length pre)) <= card X)%nat) by (apply subseteq_size, HFX). unfold INTSET_MAX in Hsz.
      destruct (add_spec (junk C) seed (can_resize C) (set_max_intset_entries C) (table0 C) (table1 C) d _ (eobj e) b Hd4 Hok Hs ltac:(unfold INTSET_MAX; lia)) as (d' & Hd' & Hd2).
      apply wp_bind. eapply wp_lift; [exact Hd' |]. apply wp_ret. eexists. split; [done |]. cbn [fst snd]. split_and!; [done | done |].
      rewrite card_add, bool_decide_eq_true_2 by done. subst n. cbn [b2z]. by rewrite uwrap_small by lia.
    + rewrite decide_False by done. apply wp_ret. eexists. split; [done |]. done.
  - intros r s4 (si & [d n] & -> & Hrel & HO4 & Hd4 & Hn4). cbn [fst snd] in *. apply wp_bind. eapply wp_lift; [exact Hrel |].
    assert (HF : F (length es) = inters Xs).
    { apply set_eq. intros x. rewrite (inters_from Xs X idx Hi HXi). unfold F, P. rewrite (denote_all es l Hden), <- HXl, elem_of_filter. tauto. }
    rewrite HF in *. apply wp_sinter_done; auto. intros x Hx. apply Hsm. rewrite (inters_from Xs X idx Hi HXi) in Hx. tauto.
Qed.

Lemma sinter_ok s W ks dst : INV s W -> ks <> [] -> (forall k, k ∈ ks -> forall X, opd W (dictid s) k = Some (Some X) -> Z.of_nat (card X) + 1 < INTSET_MAX) ->
  wp (sinterGenericCommand E C ks dst) (fun _ s' => exists W' r, Ends E C s W' r s' /\
    match scan W (dictid s) ks with
    | WrongType => W' = W /\ r = r_wrong
    | Missing => result dst ∅ W (dictid s) W' r
    | AllSets Xs => result dst (inters Xs) W (dictid s) W' r
    end) s.
Proof.
  intros HI Hne Hcard. unfold sinterGenericCommand. apply wp_bind. pose proof HI as [Hh HS].
  eapply wp_mono; [apply (wp_sinter_smallest s W ks dst HI 0 (u64 (-1)) 0 s); by apply Out_refl |]. intros r s1. destruct (scan W (dictid s) ks) as [Xs| |] eqn:Hscan.
  - intros (HO & i & -> & Hi & Hp). specialize (Hp eq_refl Hne). assert (Hir : 0 <= i < zlen ks) by (destruct Hi as [-> |]; destruct ks; simpl length in *; done || lia).
    pose proof (scan_all _ _ _ _ Hscan) as Hall. destruct (lookup_lt_is_Some_2 ks (Z.to_nat i)) as [k Hk]; [lia |].
    destruct (Forall2_lookup_l _ _ _ _ _ Hall Hk) as (X & HXi & HX). specialize (Hcard k (list_elem_of_lookup_2 _ _ _ Hk) X HX).
    apply wp_bind. eapply wp_lift; [exact Hk |]. apply wp_bind. eapply wp_operand; [exact HO | done |]. rewrite HX. intros v s' Hd HXne Hsm. apply wp_bind.
    eapply wp_mono; [apply (wp_copy_into v X (SetInt intsetNew) ∅ s' Hd empty_set); unfold card in *; rewrite size_empty; lia |]. rewrite union_empty_l_L. intros c s2 [-> Hc].
    apply wp_ret. split; [done |]. intros s3 H3. by eapply wp_sinter_loop.
  - intros (-> & W' & r' & HE & Hr). apply wp_ret. eauto.
  - intros [-> HE]. apply wp_ret. eauto.
Qed.

End Algebra.
End SetAlgebra.
