(* ===== verification/HashCmds.v ===== *)
(** * Commands on hashes (vr_t_hash.c): the code

    HSET, HSETNX, HMSET, HINCRBY, HDEL and the readers HGET, HMGET, HLEN,
    HSTRLEN, HEXISTS, HKEYS, HVALS and HGETALL; each handler whole, with its
    locking, its early returns and its replies.  The writes of HSETNX and HDEL
    to [server.dirty], which no other modelled code reads, and the keyspace
    notifications are left out. *)

From stdpp Require Import gmap strings.
From S2P Require Import Prelude Bytes Bits NumConv Object HashKit Ziplist HashType Keyspace Values.
Import NumConv Object HashKit Keyspace Values.
Import Ziplist(zget, ZStr, ZInt).
Import HashType.

Module HashCmds.

#[local] Open Scope vire_scope.

Section Cmds.
Context (E : env) (C : valenv).

Definition h_convert := hashTypeTryConversion (hash_seed C) (can_resize C) (hash_max_ziplist_value C) (table0 C) (table1 C).
Definition h_set := hashTypeSet (junk C) (hash_seed C) (can_resize C) (hash_max_ziplist_entries C) (table0 C) (table1 C).
Definition h_delete := hashTypeDelete (junk C) (hash_seed C) (can_resize C).
Definition h_exists := hashTypeExists (hash_seed C).
Definition h_object := hashTypeGetObject (hash_seed C).
Definition h_strlen := hashTypeGetValueLength (hash_seed C).
Definition h_next := hashTypeNext (table0 C) (table1 C).
Definition h_release := hashTypeReleaseIterator (table0 C) (table1 C).

(** ** The operations on a hash in a database *)

Definition try_conversion (p : Z) (argv : list (list Z)) : M unit :=
  h <-- load_hash p ;; h <-- lift (h_convert h (arg <$> argv)) ;; store p (VHash h).

Definition try_encoding (p : Z) (o : robj) : M robj := h <-- load_hash p ;; lift (hashTypeTryObjectEncoding h o).

Definition set_field (p : Z) (field value : robj) : M bool :=
  h <-- load_hash p ;; r <-- lift (h_set h field value) ;; store p (VHash r.1) ;; ret r.2.

Definition delete_field (p : Z) (field : robj) : M bool :=
  h <-- load_hash p ;; r <-- lift (h_delete h field) ;; store p (VHash r.1) ;; ret r.2.

Definition hash_length (p : Z) : M Z :=
  h <-- load_hash p ;; r <-- lift (hashTypeLength h) ;; poke p (VHash r.1) ;; ret r.2.

(** [hashTypeTryObjectEncoding] on both arguments, then [hashTypeSet]. *)
Definition encode_and_set (p : Z) (f v : list Z) : M bool :=
  fo <-- try_encoding p (arg f) ;;
  vo <-- try_encoding p (arg v) ;;
  set_field p fo vo.

(** The address, [None] after the error reply, and whether a key expired. *)
Definition hashTypeLookupWriteOrCreate (key : list Z) : M (option Z * bool) :=
  r <-- lookupKeyWrite E key true ;;
  match r.1 with
  | None =>
      h <-- lift (createHashObject (junk C)) ;;
      p <-- alloc (VHash h) ;;
      dbAdd key (OtherObj OBJ_HASH p) ;;
      ret (Some p, r.2)
  | Some o =>
      match as_hash o with
      | Some p => ret (Some p, r.2)
      | None => addReplyString shared_wrongtypeerr ;; ret (None, r.2)
      end
  end.

(** The frame of the writing commands; their early exits go to its end. *)
Definition write_hash (key : list Z) (body : Z -> M unit) : M unit :=
  fetchInternalDbByKey E key ;;
  lockDbWrite ;;
  r <-- hashTypeLookupWriteOrCreate key ;;
  (match r.1 with None => ret tt | Some p => body p end) ;;
  unlockDb ;;
  count_expired r.2.

(** ** HSET, HSETNX, HMSET, HINCRBY *)

Definition hsetCommand (key f v : list Z) : M unit :=
  write_hash key (fun p =>
    try_conversion p [f; v] ;;
    update <-- encode_and_set p f v ;;
    addReplyString (if (update : bool) then shared_czero else shared_cone) ;;
    add_dirty 1).

Definition hsetnxCommand (key f v : list Z) : M unit :=
  write_hash key (fun p =>
    try_conversion p [f; v] ;;
    h <-- load_hash p ;;
    found <-- lift (h_exists h (arg f)) ;;
    if (found : bool) then addReplyString shared_czero
    else
      encode_and_set p f v ;;
      addReplyString shared_cone).

Fixpoint hmset_loop (p : Z) (args : list (list Z)) : M unit :=
  match args with
  | f :: v :: args => encode_and_set p f v ;; hmset_loop p args
  | _ => ret tt
  end.

(** [args]: [argv[2]] to [argv[argc-1]]. *)
Definition hmsetCommand (key : list Z) (args : list (list Z)) : M unit :=
  if (2 + zlen args) mod 2 =? 1 then addReplyError "wrong number of arguments for HMSET"
  else
    write_hash key (fun p =>
      try_conversion p args ;;
      hmset_loop p args ;;
      addReplyString shared_ok ;;
      add_dirty 1).

Definition hincrbyCommand (key f incr : list Z) : M unit :=
  r <-- getLongLongFromObjectOrReply (Some (arg incr)) None ;;
  match r with
  | None => ret tt
  | Some incr =>
      write_hash key (fun p =>
        h <-- load_hash p ;;
        current <-- lift (h_object h (arg f)) ;;
        value <-- (match current with
                   | Some current => getLongLongFromObjectOrReply (Some current) (Some "hash value is not an integer"%string)
                   | None => ret (Some 0)
                   end) ;;
        match value with
        | None => ret tt
        | Some oldvalue =>
            if ((incr <? 0) && (oldvalue <? 0) && (incr <? LLONG_MIN - oldvalue)) ||
               ((incr >? 0) && (oldvalue >? 0) && (incr >? LLONG_MAX - oldvalue)) then
              addReplyError "increment or decrement would overflow"
            else
              let value := s64 (oldvalue + incr) in
              let new := createStringObjectFromLongLong value in
              fo <-- try_encoding p (arg f) ;;
              set_field p fo new ;;
              addReplyLongLong value ;;
              add_dirty 1
        end)
  end.

(** ** HGET, HMGET *)

Definition reply_zget (g : zget) : M unit :=
  match g with ZStr s => addReplyBulkCBuffer s | ZInt v => addReplyBulkLongLong v end.

Definition addHashFieldToReply (o : option hashobj) (field : robj) : M unit :=
  match o with
  | None => addReplyString shared_nullbulk
  | Some (HashZip zl) =>
      g <-- lift (hashTypeGetFromZiplist zl field) ;;
      match g with
      | None => addReplyString shared_nullbulk
      | Some g => reply_zget g
      end
  | Some (HashHT d) =>
      r <-- lift (hashTypeGetFromHashTable (hash_seed C) d field) ;;
      match r with
      | None => addReplyString shared_nullbulk
      | Some value => addReplyBulk value
      end
  end.

Definition read_hash (key : list Z) (miss : list Z) (body : hashobj -> M unit) : M unit :=
  read_value E as_hash key miss (fun p => h <-- load_hash p ;; body h).

Definition hgetCommand (key f : list Z) : M unit := read_hash key shared_nullbulk (fun h => addHashFieldToReply (Some h) (arg f)).

Fixpoint hmget_loop (o : option hashobj) (fields : list (list Z)) : M unit :=
  match fields with
  | [] => ret tt
  | f :: fields => addHashFieldToReply o (arg f) ;; hmget_loop o fields
  end.

Definition hmgetCommand (key : list Z) (fields : list (list Z)) : M unit :=
  fetchInternalDbByKey E key ;;
  lockDbRead ;;
  o <-- lookupKeyRead E key ;;
  match o with
  | None =>
      addReplyMultiBulkLen (zlen fields) ;;
      hmget_loop None fields ;;
      unlockDb ;;
      stat_misses 1
  | Some o =>
      match as_hash o with
      | None =>
          unlockDb ;;
          stat_hits 1 ;;
          addReplyString shared_wrongtypeerr
      | Some p =>
          h <-- load_hash p ;;
          addReplyMultiBulkLen (zlen fields) ;;
          hmget_loop (Some h) fields ;;
          unlockDb ;;
          stat_hits 1
      end
  end.

(** ** HDEL *)

Fixpoint hdel_loop (key : list Z) (p : Z) (fields : list (list Z)) (deleted : Z) : M Z :=
  match fields with
  | [] => ret deleted
  | f :: fields =>
      r <-- delete_field p (arg f) ;;
      if (r : bool) then
        n <-- hash_length p ;;
        if n =? 0 then dbDelete key ;; ret (deleted + 1)
        else hdel_loop key p fields (deleted + 1)
      else hdel_loop key p fields deleted
  end.

Definition hdelCommand (key : list Z) (fields : list (list Z)) : M unit :=
  fetchInternalDbByKey E key ;;
  lockDbWrite ;;
  r <-- lookupKeyWriteOrReply E key shared_czero true ;;
  match r.1 with
  | None => unlockDb ;; count_expired r.2
  | Some o =>
      t <-- checkType_hash o ;;
      match t with
      | None => unlockDb ;; count_expired r.2
      | Some p =>
          deleted <-- hdel_loop key p fields 0 ;;
          unlockDb ;;
          count_expired r.2 ;;
          addReplyLongLong deleted
      end
  end.

(** ** HLEN, HSTRLEN, HEXISTS *)

Definition hlenCommand (key : list Z) : M unit :=
  read_value E as_hash key shared_czero (fun p => n <-- hash_length p ;; addReplyLongLong n).

Definition hstrlenCommand (key f : list Z) : M unit :=
  read_hash key shared_czero (fun h => n <-- lift (h_strlen h (arg f)) ;; addReplyLongLong n).

Definition hexistsCommand (key f : list Z) : M unit :=
  read_hash key shared_czero (fun h =>
    b <-- lift (h_exists h (arg f)) ;; addReplyString (if (b : bool) then shared_cone else shared_czero)).

(** ** HKEYS, HVALS, HGETALL *)

Definition addHashIteratorCursorToReply (h : hashobj) (hi : hashTypeIterator) (what : Z) : M unit :=
  match h with
  | HashZip zl => g <-- lift (hashTypeCurrentFromZiplist zl hi what) ;; reply_zget g
  | HashHT _ => value <-- lift (hashTypeCurrentFromHashTable hi what) ;; addReplyBulk value
  end.

Definition has_flag (flags what : Z) : bool := negb (Z.land flags what =? 0).

(** The cursor's field or value when [flags] asks for it, counted. *)
Definition reply_cursor (h : hashobj) (hi : hashTypeIterator) (flags what count : Z) : M Z :=
  if has_flag flags what then addHashIteratorCursorToReply h hi what ;; ret (count + 1) else ret count.

Fixpoint hgetall_loop (fuel : nat) (h : hashobj) (hi : hashTypeIterator) (flags count : Z) : M (hashobj * hashTypeIterator * Z) :=
  match fuel with
  | O => panic
  | S fuel =>
      r <-- lift (h_next h hi) ;;
      let '(h, hi, more) := r in
      if (more : bool) then
        count <-- reply_cursor h hi flags OBJ_HASH_KEY count ;;
        count <-- reply_cursor h hi flags OBJ_HASH_VALUE count ;;
        hgetall_loop fuel h hi flags count
      else ret (h, hi, count)
  end.

Definition genericHgetallCommand (key : list Z) (flags : Z) : M unit :=
  read_value E as_hash key shared_emptymultibulk (fun p =>
    let multiplier := b2z (has_flag flags OBJ_HASH_KEY) + b2z (has_flag flags OBJ_HASH_VALUE) in
    n <-- hash_length p ;;
    let length := s32 (n * multiplier) in
    addReplyMultiBulkLen length ;;
    h <-- load_hash p ;;
    r <-- hgetall_loop (S (Z.to_nat n)) h (hashTypeInitIterator h) flags 0 ;;
    let '(h, hi, count) := r in
    lift (h_release h hi) ;;
    if count =? length then ret tt else panic).

Definition hkeysCommand (key : list Z) : M unit := genericHgetallCommand key OBJ_HASH_KEY.
Definition hvalsCommand (key : list Z) : M unit := genericHgetallCommand key OBJ_HASH_VALUE.
Definition hgetallCommand (key : list Z) : M unit := genericHgetallCommand key (Z.lor OBJ_HASH_KEY OBJ_HASH_VALUE).

End Cmds.

End HashCmds.
