(* ===== verification/HashWorld.v ===== *)
(** * Hash commands: what they promise *)

From stdpp Require Import gmap strings.
From S2P Require Import Prelude Bytes Bits NumConv Object HashKit HashProps Keyspace Values KeyspaceRules Cells CmdSpec World.
Import NumConv Object HashKit Keyspace Values KeyspaceRules Cells.
Import CmdSpec(parse_ll, r_notint, r_null) HashProps(hmap, weight, pairs) World.

Module HashWorld.

#[local] Open Scope vire_scope.

(** ** Updates of the finite map, with their replies *)

Definition hset_map (f v : list Z) (m : hmap) : hmap * list Z :=
  (<[f := v]> m, r_int (if bool_decide (is_Some (m !! f)) then 0 else 1)).

Definition hsetnx_map (f v : list Z) (m : hmap) : hmap * list Z :=
  if bool_decide (is_Some (m !! f)) then (m, r_int 0) else (<[f := v]> m, r_int 1).

Fixpoint hmset_pairs (args : list (list Z)) (m : hmap) : hmap :=
  match args with
  | f :: v :: args => hmset_pairs args (<[f := v]> m)
  | _ => m
  end.

(** Exact addition to the value, 0 when there is none. *)
Definition hincrby_map (f : list Z) (d : Z) (m : hmap) : hmap * list Z :=
  match (match m !! f with Some t => parse_ll t | None => Some 0 end) with
  | None => (m, r_error "hash value is not an integer")
  | Some old =>
      if (LLONG_MIN <=? old + d) && (old + d <=? LLONG_MAX) then (<[f := dec_string (old + d)]> m, r_int (old + d))
      else (m, r_error "increment or decrement would overflow")
  end.

Definition hdel_map (fields : list (list Z)) (m : hmap) : hmap := foldl (fun m f => delete f m) m fields.

(** The fields, the values or both. *)
Definition select (keys vals : bool) (kvs : pairs) : list (list Z) :=
  kvs ≫= fun kv => (if keys then [kv.1] else []) ++ (if vals then [kv.2] else []).

Section Rel.
Context (E : env).
Implicit Types (a : acell).

(** The hash a writing command works on, unless the key has another type. *)
Definition hash_at a : option hmap :=
  match purge E a with
  | None => Some ∅
  | Some (AHash m, _) => Some m
  | Some (_, _) => None
  end.

Definition hwrite_spec (f : hmap -> hmap * list Z) a : acell * list Z :=
  match hash_at a with
  | None => (purge E a, r_wrong)
  | Some m => let r := f m in (Some (AHash r.1, purge E a ≫= snd), r.2)
  end.

Definition hset_spec (f v : list Z) := hwrite_spec (hset_map f v).
Definition hsetnx_spec (f v : list Z) := hwrite_spec (hsetnx_map f v).

Definition hmset_spec (args : list (list Z)) a : acell * list Z :=
  if Nat.even (length args) then hwrite_spec (fun m => (hmset_pairs args m, shared_ok)) a
  else (a, r_error "wrong number of arguments for HMSET").

Definition hincrby_spec (f incr : list Z) a : acell * list Z :=
  match parse_ll incr with
  | None => (a, r_notint)
  | Some d => hwrite_spec (hincrby_map f d) a
  end.

Definition hdel_spec (fields : list (list Z)) a : acell * list Z :=
  match purge E a with
  | None => (None, r_int 0)
  | Some (AHash m, e) =>
      let m' := hdel_map fields m in
      (if decide (m' = ∅) then None else Some (AHash m', e), r_int (Z.of_nat (base.size m) - Z.of_nat (base.size m')))
  | Some (v, e) => (Some (v, e), r_wrong)
  end.

(** The readers leave the entry. *)
Definition on_hash (miss : list Z) (f : hmap -> list Z) a : list Z :=
  match seen E a with
  | None => miss
  | Some (AHash m, _) => f m
  | Some (_, _) => r_wrong
  end.

Definition r_opt (x : option (list Z)) : list Z := match x with Some v => r_bulk v | None => r_null end.

Definition hget_spec (f : list Z) := on_hash r_null (fun m => r_opt (m !! f)).
Definition hlen_spec := on_hash (r_int 0) (fun m => r_int (Z.of_nat (base.size m))).
Definition hstrlen_spec (f : list Z) := on_hash (r_int 0) (fun m => r_int (from_option (fun v => zlen v) 0 (m !! f))).
Definition hexists_spec (f : list Z) := on_hash (r_int 0) (fun m => r_int (b2z (bool_decide (is_Some (m !! f))))).

(** Missing keys are empty hashes. *)
Definition hmget_spec (fields : list (list Z)) a : list Z :=
  let all m := 42 :: dec_string (zlen fields) ++ crlf ++ concat ((fun f => r_opt ((m : hmap) !! f)) <$> fields) in
  on_hash (all ∅) all a.

(** The pairs in some order, each once. *)
Definition hgetall_spec (keys vals : bool) a (r : list Z) : Prop :=
  match seen E a with
  | Some (AHash m, _) => exists l, NoDup l.*1 /\ list_to_map l = m /\ r = r_multi (select keys vals l)
  | _ => r = on_hash (r_multi []) (fun _ => []) a
  end.

(** Room for [n] more bytes: fields and values with 28 bytes for each pair. *)
Definition hroom a (n : Z) : Prop := forall m, hash_at a = Some m -> 11 + weight m + n < 2 ^ 32.

End Rel.

End HashWorld.
