(* ===== verification/HashRefine.v ===== *)
(** * The hash commands refine the abstract key space *)

From stdpp Require Import gmap strings.
From S2P Require Import Prelude Bytes Bits NumConv Object HashKit Ziplist ZiplistProps ZiplistKit HashType HashProps Keyspace Values KeyspaceRules Cells ValueRules CmdSpec CmdRefine Commands Sharding World HashCmds HashWorld.
Import NumConv Object HashKit Keyspace Values KeyspaceRules Cells ValueRules.
Import CmdSpec(MAXLEN, parse_ll, r_notint, r_null) CmdRefine(parse_ll_obj, parse_ll_int64, incr_guard, in_ll, getLong_run) Commands(str_arg).
Import ZiplistKit(zget_ok) HashType HashProps World HashCmds HashWorld.

Module HashRefine.

#[local] Open Scope vire_scope.

Section Refine.
Context (E : env) (C : valenv).
Implicit Types (W : world) (k : list Z) (s : state) (H : gmap Z value) (D : list redisDb) (h : hashobj) (m : hmap).

Abbreviation seed := (hash_seed C).
Abbreviation INV := (ValInv E C).
Abbreviation Ends := (Ends E C).

(** ** One hash under a lock *)

Abbreviation HAt s0 D k lm p h := (VAt E s0 D k lm p (VHash h)).

Lemma wp_load_hash s0 D k lm p h c o s Q : HAt s0 D k lm p h c o s -> Q h s -> wp (load_hash p) Q s.
Proof. intros HA HQ. unfold load_hash. apply wp_bind. by eapply wp_load_at. Qed.

Lemma wp_try_conversion s0 D k p h m c o s argv Q : HAt s0 D k WRLOCK p h c o s -> hdenotes seed h m -> fits_zip m ->
  (forall h' s', HAt s0 D k WRLOCK p h' c o s' -> hdenotes seed h' m -> Q tt s') -> wp (try_conversion C p argv) Q s.
Proof.
  intros HA Hd Hw HQ. unfold try_conversion. apply wp_bind. eapply wp_load_hash; [exact HA |].
  destruct (try_conversion_spec seed (can_resize C) (hash_max_ziplist_value C) (table0 C) (table1 C) h m (arg <$> argv) Hd Hw) as (h' & Hh' & Hd').
  apply wp_bind. eapply wp_lift; [exact Hh' |]. eapply wp_store_at; [exact HA |]. intros s' HA'. by eapply HQ.
Qed.

Lemma wp_try_encoding s0 D k lm p h c o s ob b Q : HAt s0 D k lm p h c o s -> robj_ok ob -> sval ob = Some b ->
  (forall ob', robj_ok ob' -> sval ob' = Some b -> Q ob' s) -> wp (try_encoding p ob) Q s.
Proof.
  intros HA Hok Hs HQ. unfold try_encoding. apply wp_bind. eapply wp_load_hash; [exact HA |]. destruct (try_encoding_spec h ob b Hok Hs) as (ob' & Hob & Hok' & Hs').
  eapply wp_lift; [exact Hob |]. by apply HQ.
Qed.

Lemma wp_set_field s0 D k p h m c o s fo vo f v Q : HAt s0 D k WRLOCK p h c o s -> hdenotes seed h m -> fits_zip m -> fits_zip (<[f := v]> m) ->
  robj_ok fo -> sval fo = Some f -> robj_ok vo -> sval vo = Some v ->
  (forall h' s', HAt s0 D k WRLOCK p h' c o s' -> hdenotes seed h' (<[f := v]> m) -> Q (bool_decide (is_Some (m !! f))) s') ->
  wp (set_field C p fo vo) Q s.
Proof.
  intros HA Hd Hw Hw' Hf1 Hf2 Hv1 Hv2 HQ. unfold set_field. apply wp_bind. eapply wp_load_hash; [exact HA |].
  destruct (set_spec (junk C) seed (can_resize C) (hash_max_ziplist_entries C) (table0 C) (table1 C) h m fo vo f v) as (h' & Hh' & Hd'); [done.. |].
  apply wp_bind. eapply wp_lift; [exact Hh' |]. cbn [fst snd]. apply wp_bind. eapply wp_store_at; [exact HA |]. intros s' HA'. apply wp_ret. by eapply HQ.
Qed.

Lemma wp_encode_and_set s0 D k p h m c o s f v Q : HAt s0 D k WRLOCK p h c o s -> hdenotes seed h m -> fits_zip m -> fits_zip (<[f := v]> m) -> bytes_ok f -> bytes_ok v ->
  (forall h' s', HAt s0 D k WRLOCK p h' c o s' -> hdenotes seed h' (<[f := v]> m) -> Q (bool_decide (is_Some (m !! f))) s') ->
  wp (encode_and_set C p f v) Q s.
Proof.
  intros HA Hd Hw Hw' Hf Hv HQ. destruct (arg_spec f Hf) as [Hf1 Hf2]. destruct (arg_spec v Hv) as [Hv1 Hv2]. unfold encode_and_set.
  apply wp_bind. eapply wp_try_encoding; [exact HA | done.. |]. intros fo ? ?. apply wp_bind. eapply wp_try_encoding; [exact HA | done.. |]. intros vo ? ?. by eapply wp_set_field.
Qed.

Lemma wp_delete_field s0 D k p h m c o s f Q : HAt s0 D k WRLOCK p h c o s -> hdenotes seed h m -> fits_zip m -> bytes_ok f ->
  (forall h' s', HAt s0 D k WRLOCK p h' c o s' -> hdenotes seed h' (delete f m) -> Q (bool_decide (is_Some (m !! f))) s') ->
  wp (delete_field C p (arg f)) Q s.
Proof.
  intros HA Hd Hw Hf HQ. destruct (arg_spec f Hf) as [Hf1 Hf2]. unfold delete_field. apply wp_bind. eapply wp_load_hash; [exact HA |].
  destruct (delete_spec (junk C) seed (can_resize C) h m (arg f) f) as (h' & Hh' & Hd'); [done.. |].
  apply wp_bind. eapply wp_lift; [exact Hh' |]. cbn [fst snd]. apply wp_bind. eapply wp_store_at; [exact HA |]. intros s' HA'. apply wp_ret. by eapply HQ.
Qed.

Lemma wp_hash_length s0 D k lm p h m c o s Q : HAt s0 D k lm p h c o s -> hdenotes seed h m -> fits_zip m ->
  (forall h' s', HAt s0 D k lm p h' c o s' -> hdenotes seed h' m -> Q (Z.of_nat (base.size m)) s') -> wp (hash_length p) Q s.
Proof.
  intros HA Hd Hw HQ. unfold hash_length. apply wp_bind. eapply wp_load_hash; [exact HA |]. destruct (length_spec seed h m Hd Hw) as (h' & Hh' & Hd').
  apply wp_bind. eapply wp_lift; [exact Hh' |]. cbn [fst snd]. apply wp_bind. eapply wp_poke_at; [exact HA |]. intros s' HA'. apply wp_ret. by eapply HQ.
Qed.

(** ** The writing frame *)

(** What a body does to the hash at [p], whatever it is. *)
Definition updates k (body : Z -> M unit) m (f : hmap -> hmap * list Z) : Prop := forall s0 D p h e s,
  let c := Some (OtherObj OBJ_HASH p, e) in HAt s0 D k WRLOCK p h c [] s -> hdenotes seed h m ->
  wp (body p) (fun _ s' => exists h', HAt s0 D k WRLOCK p h' c (f m).2 s' /\ hdenotes seed h' (f m).1) s.

Lemma write_ok s W k body f : INV s W ->
  (forall m, hash_at E (W (dictid s) k) = Some m -> updates k body m f /\ (f m).1 <> ∅ /\ hash_ok (f m).1) ->
  wp (write_hash E C k body) (fun _ s' => let r := hwrite_spec E f (W (dictid s) k) in Ends s (wupd W (dictid s) k r.1) r.2 s') s.
Proof.
  intros [Hh HS] Hbody. unfold write_hash, hashTypeLookupWriteOrCreate. pose proof (vl_dbs _ _ _ _ _ _ HS) as Hdb. pose proof (dok_id _ _ _ Hdb) as Hid.
  pose proof (vl_sees _ _ _ _ _ _ HS (dictid s) k Hid) as Hsee. apply (sees_purge E) in Hsee. unfold hwrite_spec, hash_at in *.
  eapply wp_enter_bind; [by apply Out_refl | done |]. intros s1 H1. apply wp_bind, wp_bind. eapply wp_lookupKeyWrite; [exact H1 |]. cbn [purge_if]. intros s2 H2.
  cbn [fst snd]. pose proof (ptr_purge E (getcell E (dictid s) k (dbs s))) as Hptr.
  set (c0 := getcell E (dictid s) k (dbs s)) in *. destruct (purge E c0) as [[ob e]|] eqn:Hc; cbn [fst fmap option_fmap option_map].
  - destruct (as_hash ob) as [p|] eqn:Has.
    + cbn [sees] in Hsee. destruct ob as [| | [] p']; try done. injection Has as ->. cbn [as_set as_hash] in Hsee. destruct Hsee as (h & m & Hv & Hd & Hm & Hok & Ha). rewrite Ha in *.
      apply wp_ret. cbn [fst snd]. destruct (Hbody m eq_refl) as (Hup & Hne & Hok'). apply wp_bind. eapply wp_mono; [apply (Hup s (dbs s) p h e s2); [by apply VAt_intro | done] |].
      intros _ s3 (h' & H3 & Hd'). eapply wp_finish; [exact H3 |]. apply (Vals_update E C _ _ (heap s)); [done | | |].
      * intros q w Hq Hnq. rewrite lookup_insert_ne; [done |]. intros <-. by apply Hnq, Hptr.
      * intros q [= <-]. left. by apply Hptr.
      * cbn. exists h', (f m).1. by rewrite lookup_insert_eq.
    + destruct (sees_no_hash _ _ _ _ _ Has Hsee) as (w & Hw & Hnw). rewrite Hw in *. apply wp_bind. eapply wp_at_reply; [apply replies_string | exact H2 |]. intros s3 H3. apply wp_ret. cbn [fst snd].
      apply wp_bind, wp_ret. destruct w as [X | m | l | o]; [| by destruct (Hnw m) | |]; (eapply wp_finish; [rewrite set_heap_id; exact H3 |]; apply (Vals_update E C _ _ (heap s)); [done | done | intros q Hq; left; by apply Hptr | done]).
  - cbn [sees] in Hsee. rewrite Hsee in *. destruct (Hbody ∅ eq_refl) as (Hup & Hne & Hok'). destruct (create_hash_spec (junk C) seed) as (h & Hh0 & Hd0).
    apply wp_bind. eapply wp_lift; [exact Hh0 |]. apply wp_bind. eapply wp_alloc; [exact H2 |]. intros s3 H3. apply wp_bind. eapply wp_dbAdd; [exact H3 |]. intros s4 H4. set (p := fresh _) in *.
    apply wp_ret. cbn [fst snd]. apply wp_bind. eapply wp_mono; [apply (Hup s (dbs s) p h None s4); [exact H4 | done] |].
    intros _ s5 (h' & H5 & Hd'). eapply wp_finish; [exact H5 |]. apply (Vals_update E C _ _ (heap s)); [done | | |].
    * intros q w Hq _. rewrite lookup_insert_ne; [done |]. intros <-. subst p. by rewrite fresh_not in Hq.
    * intros q [= <-]. right. apply fresh_not.
    * cbn. exists h', (f ∅).1. by rewrite lookup_insert_eq.
Qed.

(** The hash a command starts from. *)
Lemma hash_at_ok s W k m : INV s W -> hash_at E (W (dictid s) k) = Some m -> hash_ok m.
Proof.
  intros [_ HS]. pose proof (dok_id _ _ _ (vl_dbs _ _ _ _ _ _ HS)) as Hid. pose proof (vl_sees _ _ _ _ _ _ HS (dictid s) k Hid) as Hsee. apply (sees_purge E) in Hsee.
  unfold hash_at. destruct (purge E (W (dictid s) k)) as [[[Y | m' | l | ob] e]|]; try done; intros [= <-]; [|split; [apply map_Forall_empty | done]].
  by destruct (sees_AHash _ _ _ _ _ Hsee) as (p & h & _ & _ & _ & _ & Hok).
Qed.

(** Room for one more pair. *)
Lemma hash_ok_insert m f v n : hash_ok m -> str_arg f -> zlen v <= MAXLEN -> 11 + weight m + n < 2 ^ 32 -> 28 + zlen f + zlen v <= n -> hash_ok (<[f := v]> m).
Proof.
  intros [Hm Hw] [_ Hf] Hv Hr Hn. split; [by apply map_Forall_insert_2 |]. pose proof (weight_insert_le m f v). unfold fits_zip in *. lia.
Qed.

Definition pair_room (f v : list Z) : Z := 28 + zlen f + zlen v.

(** ** HSET, HSETNX *)

Lemma hset_cmd_ok s W k f v : INV s W -> str_arg f -> str_arg v -> hroom E (W (dictid s) k) (pair_room f v) ->
  wp (hsetCommand E C k f v) (fun _ s' => let r := hset_spec E f v (W (dictid s) k) in Ends s (wupd W (dictid s) k r.1) r.2 s') s.
Proof.
  intros HI Hf Hv Hroom. apply write_ok; [done |]. intros m Hm. pose proof (hash_at_ok s W k m HI Hm) as Hok. specialize (Hroom m Hm).
  assert (Hok' : hash_ok (<[f := v]> m)) by (eapply hash_ok_insert; [done | done | apply Hv | exact Hroom | done]).
  split_and!; [|apply insert_non_empty | exact Hok']. intros s0 D p h e st c HA Hd.
  apply wp_bind. eapply wp_try_conversion; [exact HA | exact Hd | apply Hok |]. intros h1 s1 H1 Hd1.
  apply wp_bind. eapply wp_encode_and_set; [exact H1 | exact Hd1 | apply Hok | apply Hok' | apply Hf | apply Hv |]. intros h2 s2 H2 Hd2.
  apply wp_bind. eapply wp_at_reply; [apply replies_string | exact H2 |]. intros s3 H3. eapply wp_at_counter; [auto with vire | exact H3 |]. intros s4 H4.
  exists h2. split; [|exact Hd2]. unfold hset_map. by destruct (bool_decide _).
Qed.

Lemma hsetnx_ok s W k f v : INV s W -> str_arg f -> str_arg v -> hroom E (W (dictid s) k) (pair_room f v) ->
  wp (hsetnxCommand E C k f v) (fun _ s' => let r := hsetnx_spec E f v (W (dictid s) k) in Ends s (wupd W (dictid s) k r.1) r.2 s') s.
Proof.
  intros HI Hf Hv Hroom. apply write_ok; [done |]. intros m Hm. pose proof (hash_at_ok s W k m HI Hm) as Hok. specialize (Hroom m Hm).
  assert (Hok' : hash_ok (<[f := v]> m)) by (eapply hash_ok_insert; [done | done | apply Hv | exact Hroom | done]). destruct (arg_spec f (proj1 Hf)) as [Hf1 Hf2]. unfold hsetnx_map.
  split_and!; [|case_bool_decide as Hfd; [cbn [fst]; intros ->; by destruct Hfd | apply insert_non_empty] | by case_bool_decide]. intros s0 D p h e st c HA Hd.
  apply wp_bind. eapply wp_try_conversion; [exact HA | exact Hd | apply Hok |]. intros h1 s1 H1 Hd1. apply wp_bind. eapply wp_load_hash; [exact H1 |].
  apply wp_bind. eapply wp_lift; [apply (exists_spec seed h1 m (arg f) f); [done | apply Hok | done | done] |]. case_bool_decide as Hfd.
  - eapply wp_at_reply; [apply replies_string | exact H1 |]. intros s2 H2. by exists h1.
  - apply wp_bind. eapply wp_encode_and_set; [exact H1 | exact Hd1 | apply Hok | apply Hok' | apply Hf | apply Hv |]. intros h2 s2 H2 Hd2.
    eapply wp_at_reply; [apply replies_string | exact H2 |]. intros s3 H3. by exists h2.
Qed.

(** ** HMSET *)

Fixpoint args_room (args : list (list Z)) : Z := match args with f :: v :: args => pair_room f v + args_room args | _ => 0 end.

Lemma args_room_nonneg args : 0 <= args_room args.
Proof. revert args. fix IH 1. intros [|f [|v args]]; cbn; [lia | lia |]. specialize (IH args). unfold pair_room. lia. Qed.

Lemma hmset_pairs_ok : forall args m, Forall str_arg args -> hash_ok m -> 11 + weight m + args_room args < 2 ^ 32 -> hash_ok (hmset_pairs args m).
Proof.
  fix IH 1. intros [|f [|v args]] m Ha Hok Hr; [done | done |]. cbn [hmset_pairs args_room] in *. inversion_clear Ha as [|? ? Hf Ha']. inversion_clear Ha' as [|? ? Hv Ha]. pose proof (args_room_nonneg args).
  pose proof (weight_insert_le m f v). apply IH; [done | | unfold pair_room in *; lia]. eapply hash_ok_insert; [done | done | apply Hv | exact Hr | unfold pair_room; lia].
Qed.

Lemma hmset_pairs_ne : forall args m, m <> ∅ \/ (2 <= length args)%nat -> hmset_pairs args m <> ∅.
Proof.
  fix IH 1. intros [|f [|v args]] m Hm; cbn [hmset_pairs length] in *; [destruct Hm; [done | lia]..|]. apply IH. left. apply insert_non_empty.
Qed.

Lemma wp_hmset_loop s0 D k p c o : forall args m h s Q, Forall str_arg args -> HAt s0 D k WRLOCK p h c o s -> hdenotes seed h m -> hash_ok m -> 11 + weight m + args_room args < 2 ^ 32 ->
  (forall h' s', HAt s0 D k WRLOCK p h' c o s' -> hdenotes seed h' (hmset_pairs args m) -> Q tt s') -> wp (hmset_loop C p args) Q s.
Proof.
  fix IH 1. intros [|f [|v args]] m h s Q Ha HA Hd Hok Hr HQ; cbn [hmset_loop hmset_pairs args_room] in *; [apply wp_ret; by eapply HQ.. |].
  inversion_clear Ha as [|? ? Hf Ha']. inversion_clear Ha' as [|? ? Hv Ha]. pose proof (args_room_nonneg args). pose proof (weight_insert_le m f v).
  assert (Hok' : hash_ok (<[f := v]> m)) by (eapply hash_ok_insert; [done | done | apply Hv | exact Hr | unfold pair_room; lia]).
  apply wp_bind. eapply wp_encode_and_set; [exact HA | exact Hd | apply Hok | apply Hok' | apply Hf | apply Hv |]. intros h1 s1 H1 Hd1.
  eapply IH; [done | exact H1 | exact Hd1 | done | unfold pair_room in *; lia | exact HQ].
Qed.

Lemma hmset_parity (args : list (list Z)) : ((2 + zlen args) mod 2 =? 1) = negb (Nat.even (length args)).
Proof.
  rewrite Nat.negb_even. destruct (Nat.odd (length args)) eqn:Ho.
  - apply Nat.odd_spec in Ho as [n ->]. apply Z.eqb_eq. symmetry. apply (Z.mod_unique _ _ (Z.of_nat n + 1)); lia.
  - assert (Nat.even (length args) = true) as He by (rewrite <- Nat.negb_odd, Ho; done). apply Nat.even_spec in He as [n ->]. apply Z.eqb_neq.
    rewrite <- (Z.mod_unique (2 + Z.of_nat (2 * n)) 2 (Z.of_nat n + 1) 0); lia.
Qed.

Lemma hmset_ok s W k args : INV s W -> Forall str_arg args -> (2 <= length args)%nat -> hroom E (W (dictid s) k) (args_room args) ->
  wp (hmsetCommand E C k args) (fun _ s' => let r := hmset_spec E args (W (dictid s) k) in Ends s (wupd W (dictid s) k r.1) r.2 s') s.
Proof.
  intros HI Ha Hlen Hroom. unfold hmsetCommand, hmset_spec. rewrite hmset_parity. destruct (Nat.even (length args)); cbn [negb]; [|apply wp_error; [done | apply replies_error]].
  apply (write_ok s W k _ (fun m => (hmset_pairs args m, shared_ok))); [done |]. intros m Hm. pose proof (hash_at_ok s W k m HI Hm) as Hok. specialize (Hroom m Hm).
  split_and!; [|apply hmset_pairs_ne; lia | by apply hmset_pairs_ok]. intros s0 D p h e st c HA Hd.
  apply wp_bind. eapply wp_try_conversion; [exact HA | exact Hd | apply Hok |]. intros h1 s1 H1 Hd1.
  apply wp_bind. eapply wp_hmset_loop; [done | exact H1 | exact Hd1 | done | done |]. intros h2 s2 H2 Hd2.
  apply wp_bind. eapply wp_at_reply; [apply replies_string | exact H2 |]. intros s3 H3. eapply wp_at_counter; [auto with vire | exact H3 |]. intros s4 H4. by exists h2.
Qed.

(** ** HINCRBY *)

Lemma wp_hash_value s0 D k lm c o s x t msg Q : At E s0 D k lm c o s -> found x t ->
  match (match t with Some t => parse_ll t | None => Some 0 end) with
  | Some z => Q (Some z) s
  | None => forall s', At E s0 D k lm c (o ++ r_error msg) s' -> Q None s'
  end ->
  wp (match x with Some ob => getLongLongFromObjectOrReply (Some ob) (Some msg) | None => ret (Some 0) end) Q s.
Proof.
  intros HA Hf HQ. destruct x as [ob|], t as [t|]; cbn in Hf; try done. destruct Hf as [Hok Hs].
  unfold getLongLongFromObjectOrReply. apply wp_bind. eapply wp_lift; [by apply parse_ll_obj |]. destruct (parse_ll t) as [z|]; [by apply wp_ret |].
  apply wp_bind. eapply wp_at_reply; [apply replies_error | exact HA |]. intros s' H'. apply wp_ret. by apply HQ.
Qed.

(** A sum takes 20 characters at most. *)
Lemma hincrby_map_ok f d m : hash_ok m -> str_arg f -> int64 d -> 11 + weight m + (48 + zlen f) < 2 ^ 32 ->
  (hincrby_map f d m).1 <> ∅ /\ hash_ok (hincrby_map f d m).1.
Proof.
  intros Hok Hf Hd Hr. unfold hincrby_map. destruct (m !! f) as [t|] eqn:Hl.
  - assert (Hne : m <> ∅) by by intros ->. destruct (parse_ll t) as [old|]; [|done]. destruct (_ && _) eqn:Hg; [|done]. apply in_ll in Hg. pose proof (dec_string_length _ Hg).
    split; [apply insert_non_empty |]. eapply hash_ok_insert; [done | done | unfold MAXLEN; lia | exact Hr | lia].
  - rewrite Z.add_0_l. unfold int64 in Hd. replace (_ && _) with true by (symmetry; apply andb_true_iff; split; lia). pose proof (dec_string_length d Hd).
    split; [apply insert_non_empty |]. eapply hash_ok_insert; [done | done | unfold MAXLEN; lia | exact Hr | lia].
Qed.

Lemma hincrby_ok s W k f incr : INV s W -> str_arg f -> hroom E (W (dictid s) k) (48 + zlen f) ->
  wp (hincrbyCommand E C k f incr) (fun _ s' => let r := hincrby_spec E f incr (W (dictid s) k) in Ends s (wupd W (dictid s) k r.1) r.2 s') s.
Proof.
  intros HI Hf Hroom. unfold hincrbyCommand, hincrby_spec. destruct (parse_ll incr) as [d|] eqn:Hd.
  2:{ apply wp_error; [done |]. intros s1. unfold bind. rewrite getLong_run, Hd. done. }
  apply wp_bind. unfold wp at 1. rewrite getLong_run, Hd. apply parse_ll_int64 in Hd.
  apply write_ok; [done |]. intros m Hm. pose proof (hash_at_ok s W k m HI Hm) as Hok. specialize (Hroom m Hm). pose proof (hincrby_map_ok f d m Hok Hf Hd Hroom) as [Hne Hok']. split_and!; [|done..].
  intros s0 D p h e st c HA Hdn. destruct (arg_spec f (proj1 Hf)) as [Hf1 Hf2]. apply wp_bind. eapply wp_load_hash; [exact HA |].
  destruct (get_spec seed h m (arg f) f) as (x & Hx & Hfound); [done | apply Hok | done | done |]. apply wp_bind. eapply wp_lift; [exact Hx |].
  apply wp_bind. eapply wp_hash_value; [exact HA | exact Hfound |]. unfold hincrby_map in *.
  assert (Hold : forall z, (match m !! f with Some t => parse_ll t | None => Some 0 end) = Some z -> int64 z).
  { intros z. destruct (m !! f); [apply parse_ll_int64 | intros [= <-]; done]. }
  destruct (match m !! f with Some t => parse_ll t | None => Some 0 end) as [old|]; [specialize (Hold old eq_refl) | intros s1 H1; apply wp_ret; by exists h].
  rewrite incr_guard by done. destruct (_ && _) eqn:Hg; cbn [negb fst snd] in *.
  - apply in_ll in Hg. rewrite swrap_small by (unfold int64, LLONG_MIN, LLONG_MAX in Hg; simpl; lia).
    apply wp_bind. eapply wp_try_encoding; [exact HA | done.. |]. intros fo Hfo1 Hfo2. apply wp_bind.
    eapply wp_set_field; [exact HA | exact Hdn | apply Hok | apply Hok' | done | done | | apply sval_fromLongLong |].
    { unfold createStringObjectFromLongLong. by destruct (_ && _). }
    intros h1 s1 H1 Hd1. apply wp_bind. eapply wp_at_reply; [by apply replies_int | exact H1 |]. intros s2 H2. eapply wp_at_counter; [auto with vire | exact H2 |]. intros s3 H3. by exists h1.
  - eapply wp_at_reply; [apply replies_error | exact HA |]. intros s1 H1. by exists h.
Qed.

(** ** HDEL *)

Lemma hash_ok_delete m f : hash_ok m -> hash_ok (delete f m).
Proof. intros [Hm Hw]. split; [by apply map_Forall_delete |]. pose proof (weight_delete m f). unfold fits_zip in *. lia. Qed.

Lemma hdel_map_ok fields : forall m, hash_ok m -> hash_ok (hdel_map fields m).
Proof. induction fields as [|f fields IH]; intros m Hm; cbn; [done |]. by apply IH, hash_ok_delete. Qed.

Lemma hdel_map_empty fields : hdel_map fields ∅ = ∅.
Proof. induction fields as [|f fields IH]; cbn; [done |]. by rewrite delete_empty. Qed.

Lemma hsize_delete m f : Z.of_nat (base.size (delete f m)) = Z.of_nat (base.size m) - b2z (bool_decide (is_Some (m !! f))).
Proof.
  case_bool_decide as Hf; cbn [b2z].
  - destruct Hf as [v Hv]. rewrite map_size_delete_Some by eauto. assert (base.size m <> 0%nat) by (rewrite map_size_ne_0_lookup; by eexists _, _). lia.
  - rewrite delete_id; [lia |]. by destruct (m !! f); [destruct Hf; eauto |].
Qed.

Lemma size_zero m : (Z.of_nat (base.size m) =? 0) = bool_decide (m = ∅).
Proof. apply eq_true_iff_eq. rewrite Z.eqb_eq, bool_decide_eq_true, <- map_size_empty_iff. lia. Qed.

Lemma hdel_map_size fields : forall m, (base.size (hdel_map fields m) <= base.size m)%nat.
Proof. induction fields as [|f fields IH]; intros m; cbn; [done |]. specialize (IH (delete f m)). pose proof (hsize_delete m f). destruct (bool_decide _); cbn [b2z] in *; unfold hdel_map in *; lia. Qed.

Lemma wp_hdel_loop s0 D k o p e fields : Forall str_arg fields -> let c := Some (OtherObj OBJ_HASH p, e) in forall s h m deleted Q,
  HAt s0 D k WRLOCK p h c o s -> hdenotes seed h m -> m <> ∅ -> hash_ok m ->
  (forall h' s', HAt s0 D k WRLOCK p h' (if decide (hdel_map fields m = ∅) then None else c) o s' -> hdenotes seed h' (hdel_map fields m) ->
     Q (deleted + (Z.of_nat (base.size m) - Z.of_nat (base.size (hdel_map fields m)))) s') ->
  wp (hdel_loop C k p fields deleted) Q s.
Proof.
  intros Hf c. induction Hf as [|f fields Hf _ IH]; intros s h m deleted Q HA Hd Hne Hok HQ; cbn [hdel_loop].
  - apply wp_ret. specialize (HQ h s). cbn [hdel_map foldl] in HQ. rewrite decide_False in HQ by done. replace (deleted + _) with deleted in HQ by lia. by apply HQ.
  - apply wp_bind. eapply wp_delete_field; [exact HA | exact Hd | apply Hok | apply Hf |]. intros h1 s1 H1 Hd1. pose proof (hsize_delete m f) as Hsz. pose proof (hash_ok_delete m f Hok) as Hok1.
    change (hdel_map (f :: fields) m) with (hdel_map fields (delete f m)) in HQ.
    case_bool_decide as Hin; cbn [b2z] in Hsz.
    + apply wp_bind. eapply wp_hash_length; [exact H1 | exact Hd1 | apply Hok1 |]. intros h2 s2 H2 Hd2. rewrite size_zero. case_bool_decide as Hemp.
      * apply wp_bind. eapply wp_dbDelete; [exact H2 |]. intros s3 H3. apply wp_ret. specialize (HQ h2 s3). rewrite Hemp, hdel_map_empty, decide_True in HQ by done. rewrite Hemp in *.
        replace (deleted + 1) with (deleted + (Z.of_nat (base.size m) - Z.of_nat (base.size (∅ : hmap)))) by lia. by apply HQ.
      * eapply IH; [exact H2 | exact Hd2 | done | done |]. intros h3 s3 H3 Hd3. specialize (HQ h3 s3 H3 Hd3). rewrite Hsz. by replace (deleted + 1 + _) with (deleted + (Z.of_nat (base.size m) - Z.of_nat (base.size (hdel_map fields (delete f m))))) by lia.
    + assert (Hm : m !! f = None) by (destruct (m !! f); [by destruct Hin; eauto | done]). rewrite (delete_id m f) in * by done. eapply IH; [exact H1 | exact Hd1 | done | done | exact HQ].
Qed.

Lemma hash_ok_size m : hash_ok m -> Z.of_nat (base.size m) < 2 ^ 28.
Proof. intros [_ Hw]. pose proof (weight_size m). unfold fits_zip in Hw. lia. Qed.

Lemma hdel_ok s W k fields : INV s W -> Forall str_arg fields ->
  wp (hdelCommand E C k fields) (fun _ s' => let r := hdel_spec E fields (W (dictid s) k) in Ends s (wupd W (dictid s) k r.1) r.2 s') s.
Proof.
  intros [Hh HS] Hargs. unfold hdelCommand. pose proof (vl_dbs _ _ _ _ _ _ HS) as Hdb. pose proof (dok_id _ _ _ Hdb) as Hid.
  pose proof (vl_sees _ _ _ _ _ _ HS (dictid s) k Hid) as Hsee. apply (sees_purge E) in Hsee. unfold hdel_spec.
  eapply wp_enter_bind; [by apply Out_refl | done |]. intros s1 H1. unfold lookupKeyWriteOrReply. apply wp_bind, wp_bind. eapply wp_lookupKeyWrite; [exact H1 |]. cbn [purge_if]. intros s2 H2.
  cbn [fst snd]. pose proof (ptr_purge E (getcell E (dictid s) k (dbs s))) as Hptr.
  set (c0 := getcell E (dictid s) k (dbs s)) in *. destruct (purge E c0) as [[ob e]|] eqn:Hc; cbn [fst fmap option_fmap option_map].
  - apply wp_ret. cbn [fst snd]. unfold checkType_hash, checkType_as. destruct (as_hash ob) as [p|] eqn:Has.
    + cbn [sees] in Hsee. destruct ob as [| | [] p']; try done. injection Has as ->. cbn [as_set as_hash] in Hsee. destruct Hsee as (h & m & Hv & Hd & Hm & Hok & Ha). rewrite Ha in *. cbn [fst snd].
      apply wp_bind, wp_ret. apply wp_bind. eapply wp_hdel_loop; [done | by eapply VAt_intro | exact Hd | done | done |].
      intros h' s3 H3 Hd3. rewrite Z.add_0_l. apply wp_bind. eapply wp_leave; [exact H3 |]. intros s4 H4. apply wp_bind. eapply wp_counter_out; [auto with vire | exact H4 |]. intros s5 H5.
      pose proof (hash_ok_size m Hok). pose proof (hdel_map_size fields m).
      eapply wp_replies_out; [apply replies_int; unfold int64, LLONG_MIN, LLONG_MAX; lia | exact H5 |]. intros s6 H6. eapply Out_Ends; [exact H6 |]. apply (Vals_update E C _ _ (heap s)); [done | | |].
      * intros q w Hq Hnq. rewrite lookup_insert_ne; [done |]. intros <-. by apply Hnq, Hptr.
      * intros q. case_decide; [done |]. intros [= <-]. left. by apply Hptr.
      * case_decide; [done |]. exists h', (hdel_map fields m). rewrite lookup_insert_eq. split_and!; try done. by apply hdel_map_ok.
    + destruct (sees_no_hash _ _ _ _ _ Has Hsee) as (w & Hw & Hnw). rewrite Hw in *. apply wp_bind, wp_bind. eapply wp_at_reply; [apply replies_string | exact H2 |]. intros s3 H3. apply wp_ret.
      destruct w as [X | m | l | o]; [| by destruct (Hnw m) | |]; (eapply wp_finish; [rewrite set_heap_id; exact H3 |]; apply (Vals_update E C _ _ (heap s)); [done | done | intros q Hq; left; by apply Hptr | done]).
  - cbn [sees] in Hsee. rewrite Hsee in *. cbn [fst snd]. apply wp_bind. eapply wp_at_reply; [apply replies_string | exact H2 |]. intros s3 H3. apply wp_ret. cbn [fst snd].
    eapply wp_finish; [rewrite set_heap_id; exact H3 |]. by apply (Vals_update E C _ _ (heap s)).
Qed.

(** ** The readers *)

(** A hash written again with the same pairs. *)
Lemma Vals_same id D H W k p e h h' m : Vals E C id D H W -> getcell E id k D = Some (OtherObj OBJ_HASH p, e) -> H !! p = Some (VHash h) ->
  hdenotes seed h m -> hdenotes seed h' m -> m <> ∅ -> hash_ok m -> W id k = Some (AHash m, e) -> Vals E C id D (<[p := VHash h']> H) W.
Proof.
  intros HS Hc Hp Hd Hd' Hne Hok HW. pose proof (vl_dbs _ _ _ _ _ _ HS) as Hdb.
  assert (HV : Vals E C id (setcell E id k (getcell E id k D) D) (<[p := VHash h']> H) (wupd W id k (W id k))).
  { apply (Vals_update E C _ _ H); [done | | by left |].
    - intros q v Hq Hnq. rewrite lookup_insert_ne; [done |]. intros <-. apply Hnq. by rewrite Hc.
    - rewrite Hc, HW. exists h', m. by rewrite lookup_insert_eq. }
  rewrite setcell_id in HV by done. eapply Vals_ext; [|exact HV]. intros i k' _. unfold wupd. by case_decide as Heq; [injection Heq as -> -> |].
Qed.

Lemma hread_ok s W k (miss : list Z) (body : Z -> M unit) (P : hmap -> list Z -> Prop) : INV s W ->
  (forall p h m c s1, HAt s (dbs s) k RDLOCK p h c [] s1 -> hdenotes seed h m -> hash_ok m ->
     wp (body p) (fun _ s2 => exists h' r, HAt s (dbs s) k RDLOCK p h' c r s2 /\ hdenotes seed h' m /\ P m r) s1) ->
  wp (read_value E as_hash k miss body) (fun _ s' => exists r, Ends s W r s' /\
    match seen E (W (dictid s) k) with Some (AHash m, _) => P m r | _ => r = on_hash E miss (fun _ => []) (W (dictid s) k) end) s.
Proof.
  intros HI Hbody. pose proof HI as [Hh HS]. pose proof (dok_id _ _ _ (vl_dbs _ _ _ _ _ _ HS)) as Hid.
  pose proof (vl_sees _ _ _ _ _ _ HS (dictid s) k Hid) as Hsee0. pose proof (sees_seen E _ _ _ _ Hsee0) as Hsee.
  apply (wp_read_value E C s W k as_hash miss _ (fun r => match seen E (W (dictid s) k) with Some (AHash m, _) => P m r | _ => r = on_hash E miss (fun _ => []) (W (dictid s) k) end)); [done |].
  unfold on_hash. destruct (seen E (getcell E (dictid s) k (dbs s))) as [[ob e]|] eqn:Hc; [|cbn [sees] in Hsee; by rewrite Hsee].
  destruct (as_hash ob) as [p|] eqn:Has.
  - assert (Hc0 : getcell E (dictid s) k (dbs s) = Some (ob, e)) by (unfold seen in Hc; by destruct (dead E _)). destruct ob as [| | [] p']; try done. injection Has as ->.
    rewrite Hc0 in *. cbn [sees as_set as_hash] in Hsee0, Hsee. destruct Hsee0 as (h & m & Hv & Hd & Hne & Hok & Ha). destruct Hsee as (h2 & m2 & Hv2 & Hd2 & _ & _ & Hb).
    assert (Hm : seen E (W (dictid s) k) = Some (AHash m, e)) by (rewrite Hb; unfold seen in Hb; destruct (dead E _); congruence). rewrite Hm. intros s1 H1.
    eapply wp_mono; [eapply (Hbody p h m); [by apply VAt_intro | done | done] |]. intros _ s2 (h' & r & H2 & Hd' & HP). exists (<[p := VHash h']> (heap s)), r. split_and!; [exact H2 | | done]. by apply (Vals_same _ _ _ _ k p e h h' m).
  - destruct (sees_no_hash _ _ _ _ _ Has Hsee) as (w & -> & Hw). destruct w as [X | m | l | o]; [done | by destruct (Hw m) | done | done].
Qed.

(** A reader whose body only replies. *)
Lemma hread_replies s W k (miss : list Z) (body : hashobj -> M unit) (f : hmap -> list Z) : INV s W ->
  (forall h m, hdenotes seed h m -> hash_ok m -> replies (body h) (f m)) ->
  wp (read_hash E k miss body) (fun _ s' => Ends s W (on_hash E miss f (W (dictid s) k)) s') s.
Proof.
  intros HI Hbody. eapply wp_mono; [apply (hread_ok s W k miss _ (fun m r => r = f m) HI) |].
  - intros p h m c s1 H1 Hd Hok. apply wp_bind. eapply wp_load_hash; [exact H1 |]. eapply wp_at_reply; [by apply Hbody | exact H1 |]. intros s2 H2. by exists h, (f m).
  - intros _ s' (r & HE & Hr). unfold on_hash in *. destruct (seen E _) as [[[X | m | l | o] e]|]; by subst.
Qed.

Lemma hash_value_len m f v : hash_ok m -> m !! f = Some v -> zlen v < 2 ^ 62.
Proof. intros [Hm _] Hv. destruct (Hm f v Hv) as [_ Hl]. unfold MAXLEN in Hl. lia. Qed.

Lemma replies_zget g b : zget_ok g -> ZiplistProps.value_of g = b -> zlen b < 2 ^ 62 -> replies (reply_zget g) (r_bulk b).
Proof. intros Hg <- Hl. destruct g as [t | z]; cbn in *; [by apply replies_buffer | by apply bulk_longlong]. Qed.

Lemma replies_lift {A} (x : option A) a (g : A -> M unit) r : x = Some a -> replies (g a) r -> replies (y <-- lift x ;; g y) r.
Proof. intros -> Hr s. unfold bind, lift. cbn [mbind option_bind]. apply Hr. Qed.

Lemma replies_field h m f : hdenotes seed h m -> hash_ok m -> str_arg f -> replies (addHashFieldToReply C (Some h) (arg f)) (r_opt (m !! f)).
Proof.
  intros Hd Hok [Hf _]. destruct (arg_spec f Hf) as [Hf1 Hf2]. destruct h as [zl | d]; cbn [addHashFieldToReply].
  - destruct (get_map_zip seed zl m (arg f) f Hd (proj2 Hok) Hf1 Hf2) as (g & Hg & Hv & Hgok). eapply replies_lift; [exact Hg |].
    destruct g as [g|]; cbn in Hv; rewrite <- Hv; [|apply replies_string]. apply replies_zget; [done | done |]. by eapply (hash_value_len m f).
  - destruct (get_map_ht seed d m (arg f) f Hd Hf1 Hf2) as (r & Hr & Hfd). eapply replies_lift; [exact Hr |]. unfold found in Hfd. destruct r as [ob|], (m !! f) as [v|] eqn:Hv; try done.
    destruct Hfd. apply replies_bulk; [done | done | by eapply hash_value_len].
Qed.

Lemma hget_ok s W k f : INV s W -> str_arg f -> wp (hgetCommand E C k f) (fun _ s' => Ends s W (hget_spec E f (W (dictid s) k)) s') s.
Proof. intros HI Hf. apply hread_replies; [done |]. intros h m Hd Hok. by apply replies_field. Qed.

Lemma hlen_ok s W k : INV s W -> wp (hlenCommand E k) (fun _ s' => Ends s W (hlen_spec E (W (dictid s) k)) s') s.
Proof.
  intros HI. eapply wp_mono; [apply (hread_ok s W k shared_czero _ (fun m r => r = r_int (Z.of_nat (base.size m))) HI) |].
  - intros p h m c s1 H1 Hd Hok. apply wp_bind. eapply wp_hash_length; [exact H1 | exact Hd | apply Hok |]. intros h' s2 H2 Hd2. pose proof (hash_ok_size m Hok).
    eapply wp_at_reply; [apply replies_int; unfold int64, LLONG_MIN, LLONG_MAX; lia | exact H2 |]. intros s3 H3. by exists h', (r_int (Z.of_nat (base.size m))).
  - intros _ s' (r & HE & Hr). unfold hlen_spec, on_hash in *. destruct (seen E _) as [[[X | m | l | o] e]|]; by subst.
Qed.

Lemma hstrlen_ok s W k f : INV s W -> str_arg f -> wp (hstrlenCommand E C k f) (fun _ s' => Ends s W (hstrlen_spec E f (W (dictid s) k)) s') s.
Proof.
  intros HI [Hf _]. destruct (arg_spec f Hf) as [Hf1 Hf2]. apply hread_replies; [done |]. intros h m Hd Hok.
  eapply replies_lift; [apply (value_length_spec seed h m (arg f) f Hd (proj2 Hok) Hf1 Hf2) |]. apply replies_int. destruct (m !! f) as [v|] eqn:Hv; cbn; [|done].
  pose proof (hash_value_len m f v Hok Hv). unfold int64, LLONG_MIN, LLONG_MAX. lia.
Qed.

Lemma hexists_ok s W k f : INV s W -> str_arg f -> wp (hexistsCommand E C k f) (fun _ s' => Ends s W (hexists_spec E f (W (dictid s) k)) s') s.
Proof.
  intros HI [Hf _]. destruct (arg_spec f Hf) as [Hf1 Hf2]. apply hread_replies; [done |]. intros h m Hd Hok.
  eapply replies_lift; [apply (exists_spec seed h m (arg f) f Hd (proj2 Hok) Hf1 Hf2) |]. case_bool_decide; apply replies_string.
Qed.

(** ** HMGET *)

Lemma replies_fields h m fields : hdenotes seed h m -> hash_ok m -> Forall str_arg fields ->
  replies (hmget_loop C (Some h) fields) (concat ((fun f => r_opt (m !! f)) <$> fields)).
Proof.
  intros Hd Hok Hf. induction Hf as [|f fields Hf _ IH]; cbn [hmget_loop fmap list_fmap concat]; [intros s; cbn; by rewrite app_nil_r; destruct s |].
  apply replies_bind; [by apply replies_field | exact IH].
Qed.

Lemma replies_no_fields fields : replies (hmget_loop C None fields) (concat ((fun f => r_opt ((∅ : hmap) !! f)) <$> fields)).
Proof.
  induction fields as [|f fields IH]; cbn [hmget_loop fmap list_fmap concat]; [intros s; cbn; by rewrite app_nil_r; destruct s |].
  rewrite lookup_empty. apply replies_bind; [apply replies_string | exact IH].
Qed.

Lemma hmget_ok s W k fields : INV s W -> Forall str_arg fields -> zlen fields < 2 ^ 31 ->
  wp (hmgetCommand E C k fields) (fun _ s' => Ends s W (hmget_spec E fields (W (dictid s) k)) s') s.
Proof.
  intros [Hh HS] Hf Hlen. unfold hmgetCommand, hmget_spec, on_hash. pose proof (vl_dbs _ _ _ _ _ _ HS) as Hdb. pose proof (dok_id _ _ _ Hdb) as Hid.
  pose proof (vl_sees _ _ _ _ _ _ HS (dictid s) k Hid) as Hsee. apply (sees_seen E) in Hsee.
  assert (Hend : forall (x y : M unit) r1 r2 ct s1, counter ct -> At E s (dbs s) k RDLOCK (getcell E (dictid s) k (dbs s)) [] s1 -> replies x r1 -> replies y r2 ->
    wp (x ;; y ;; unlockDb ;; ct) (fun _ s' => Ends s W (r1 ++ r2) s') s1).
  { intros x y r1 r2 ct s1 Hct H1 Hx Hy. apply wp_bind. eapply wp_at_reply; [exact Hx | exact H1 |]. intros s2 H2. apply wp_bind. eapply wp_at_reply; [exact Hy | exact H2 |]. intros s3 H3.
    apply wp_bind. eapply wp_leave; [exact H3 |]. intros s4 H4. rewrite setcell_id in H4 by done. eapply wp_counter_out; [done | exact H4 |]. intros s5 H5. rewrite <- (set_heap_id s) in H5 at 1. by eapply Out_Ends. }
  assert (Hmb : replies (addReplyMultiBulkLen (zlen fields)) (42 :: dec_string (zlen fields) ++ crlf)) by (apply replies_multilen; lia).
  assert (Happ : forall l, 42 :: dec_string (zlen fields) ++ crlf ++ l = (42 :: dec_string (zlen fields) ++ crlf) ++ l) by (intros l; cbn; by rewrite <- app_assoc).
  eapply wp_enter_bind; [by apply Out_refl | done |]. intros s1 H1. apply wp_bind. eapply wp_lookupKeyRead; [exact H1 |].
  destruct (seen E (getcell E (dictid s) k (dbs s))) as [[ob e]|] eqn:Hc; cbn [fst fmap option_fmap option_map].
  - destruct (as_hash ob) as [p|] eqn:Has.
    + destruct ob as [| | [] p']; try done. injection Has as ->. cbn [sees as_set as_hash] in Hsee. destruct Hsee as (h & m & Hv & Hd & Hne & Hok & ->).
      apply wp_bind. eapply wp_load_hash; [by apply VAt_intro |]. rewrite Happ. apply Hend; [auto with vire | exact H1 | exact Hmb | by apply replies_fields].
    + destruct (sees_no_hash _ _ _ _ _ Has Hsee) as (w & -> & Hw). apply wp_bind. eapply wp_leave; [exact H1 |]. intros s2 H2. rewrite setcell_id in H2 by done.
      apply wp_bind. eapply wp_counter_out; [auto with vire | exact H2 |]. intros s3 H3. eapply wp_replies_out; [apply replies_string | exact H3 |]. intros s4 H4. rewrite <- (set_heap_id s) in H4 at 1.
      destruct w as [X | m | l | o]; [| by destruct (Hw m) | |]; by eapply Out_Ends.
  - cbn [sees] in Hsee. rewrite Hsee, Happ. apply Hend; [auto with vire | exact H1 | exact Hmb | apply replies_no_fields].
Qed.

(** ** HKEYS, HVALS, HGETALL *)

Abbreviation yields := (hyields (table0 C) (table1 C)).
Definition shown (keys vals : bool) : Z := b2z keys + b2z vals.

Lemma length_select keys vals (l : pairs) : zlen (select keys vals l) = zlen l * shown keys vals.
Proof.
  unfold select, shown. induction l as [|kv l IH]; [done |]. cbn [length]. change (kv :: l) with ([kv] ++ l). rewrite bind_app, length_app. cbn. rewrite app_nil_r, length_app.
  destruct keys, vals; cbn [length b2z] in *; lia.
Qed.

Lemma replies_cursor h hi what b : shows h hi what b -> zlen b < 2 ^ 62 -> replies (addHashIteratorCursorToReply h hi what) (r_bulk b).
Proof.
  destruct h as [zl | d]; cbn [shows addHashIteratorCursorToReply]; intros (x & Hx & Hok & Hv) Hl; (eapply replies_lift; [exact Hx |]); [by apply replies_zget | by apply replies_bulk].
Qed.

Lemma reply_cursor_run h hi flags what count b s : shows h hi what b -> zlen b < 2 ^ 62 ->
  reply_cursor h hi flags what count s = Some (count + b2z (has_flag flags what), set_out (out s ++ concat (r_bulk <$> (if has_flag flags what then [b] else []))) s).
Proof.
  intros Hs Hl. unfold reply_cursor. destruct (has_flag flags what); cbn [fmap list_fmap concat b2z].
  - unfold bind. rewrite (replies_cursor h hi what b Hs Hl). cbn. by rewrite app_nil_r.
  - cbn. by rewrite app_nil_r, Z.add_0_r; destruct s.
Qed.

Definition short (l : pairs) : Prop := Forall (fun kv => zlen kv.1 < 2 ^ 62 /\ zlen kv.2 < 2 ^ 62) l.

Lemma hgetall_loop_run h hi l flags : yields h hi l -> short l -> forall fuel count s, (length l < fuel)%nat ->
  let keys := has_flag flags OBJ_HASH_KEY in let vals := has_flag flags OBJ_HASH_VALUE in
  exists hi', h_release C h hi' = Some h /\
    hgetall_loop C fuel h hi flags count s = Some ((h, hi', count + zlen (select keys vals l)), set_out (out s ++ concat (r_bulk <$> select keys vals l)) s).
Proof.
  intros Hy. induction Hy as [hi hi' Hn Hr | hi hi' k v l Hn Hk Hv _ IH]; intros Hsh fuel count s Hf keys vals; (destruct fuel as [|fuel]; [lia |]); cbn [hgetall_loop].
  - exists hi'. split; [exact Hr |]. unfold bind, lift, h_next. rewrite Hn. cbn. by rewrite app_nil_r, Z.add_0_r; destruct s.
  - inversion_clear Hsh as [|? ? [Hlk Hlv] Hsh']. cbn [length] in Hf.
    destruct (IH Hsh' fuel (count + b2z keys + b2z vals) (set_out ((out s ++ concat (r_bulk <$> (if keys then [k] else []))) ++ concat (r_bulk <$> (if vals then [v] else []))) s)) as (hi2 & Hr2 & Hrun); [lia |].
    exists hi2. split; [exact Hr2 |]. unfold bind at 1, lift, h_next. rewrite Hn. cbn [mbind option_bind]. unfold bind at 1. rewrite (reply_cursor_run h hi' flags OBJ_HASH_KEY count k s Hk Hlk). cbn [mbind option_bind].
    unfold bind at 1. rewrite (reply_cursor_run h hi' flags OBJ_HASH_VALUE _ v _ Hv Hlv). cbn [mbind option_bind out set_out]. fold keys vals. fold keys vals in Hrun. cbn [out set_out] in Hrun. etransitivity; [exact Hrun |].
    unfold select. change ((k, v) :: l) with ([(k, v)] ++ l). rewrite bind_app, length_app, !fmap_app, concat_app. cbn [mbind list_bind fst snd]. rewrite app_nil_r, length_app, fmap_app, concat_app, <- !app_assoc.
    assert (Hcnt : forall z, count + b2z keys + b2z vals + z = count + (zlen (if keys then [k] else []) + zlen (if vals then [v] else []) + z)) by (intros z; destruct keys, vals; cbn [b2z length]; lia).
    rewrite Hcnt, !Nat2Z.inj_add. by destruct s.
Qed.

Lemma pairs_short l : NoDup l.*1 -> hash_ok (list_to_map l) -> short l.
Proof.
  intros Hn [Hm _]. apply Forall_forall. intros [k v] Hin. destruct (Hm k v) as [H1 H2]; [by apply elem_of_list_to_map |]. unfold MAXLEN in *. cbn in *. lia.
Qed.

Lemma hgetall_ok s W k flags : INV s W ->
  wp (genericHgetallCommand E C k flags) (fun _ s' => exists r, Ends s W r s' /\ hgetall_spec E (has_flag flags OBJ_HASH_KEY) (has_flag flags OBJ_HASH_VALUE) (W (dictid s) k) r) s.
Proof.
  intros HI. set (keys := has_flag flags OBJ_HASH_KEY). set (vals := has_flag flags OBJ_HASH_VALUE).
  eapply wp_mono; [apply (hread_ok s W k shared_emptymultibulk _ (fun m r => exists l, NoDup l.*1 /\ list_to_map l = m /\ r = r_multi (select keys vals l)) HI) |].
  - intros p h m c s1 H1 Hd Hok. apply wp_bind. eapply wp_hash_length; [exact H1 | exact Hd | apply Hok |]. intros h' s2 H2 Hd2. pose proof (hash_ok_size m Hok) as Hsz.
    destruct Hd2 as (l & Hl & ->). pose proof (hholds_NoDup seed h' l Hl) as Hnd. pose proof (pairs_short l Hnd Hok) as Hsh. pose proof (length_select keys vals l) as Hlen.
    assert (Hs : base.size (list_to_map l : hmap) = length l) by by apply map_size_list_to_map. rewrite Hs in *. unfold shown in Hlen.
    fold keys vals. rewrite <- Hlen. assert (Hb : zlen (select keys vals l) < 2 ^ 30) by (rewrite Hlen; destruct keys, vals; cbn [b2z]; lia).
    rewrite swrap_small by (simpl; lia). apply wp_bind. eapply wp_at_reply; [apply replies_multilen; lia | exact H2 |]. intros s3 H3. apply wp_bind. eapply wp_load_hash; [exact H3 |].
    destruct (hgetall_loop_run h' _ l flags (hyields_init seed (table0 C) (table1 C) h' l Hl (hdenotes_pairs seed h' l Hl (proj2 Hok))) Hsh (S (Z.to_nat (zlen l))) 0 s3) as (hi & Hr & Hrun); [lia |].
    apply wp_bind. unfold wp at 1. rewrite Hrun. apply wp_bind. eapply wp_lift; [exact Hr |]. fold keys vals. rewrite Z.add_0_l, Z.eqb_refl. apply wp_ret.
    exists h', (r_multi (select keys vals l)). split_and!; [| by exists l | by exists l].
    assert (Hrep : replies (modify (fun s => set_out (out s ++ concat (r_bulk <$> select keys vals l)) s)) (concat (r_bulk <$> select keys vals l))) by (intros st; done).
    pose proof (wp_at_reply E _ _ _ _ _ _ _ _ s3 (fun _ st => HAt s (dbs s) k RDLOCK p h' c (r_multi (select keys vals l)) st) Hrep H3) as Hat.
    apply Hat. intros s4 H4. unfold r_multi, HAt. rewrite (app_nil_l (42 :: _)) in H4. rewrite <- app_comm_cons, <- app_assoc in H4. exact H4.
  - intros _ s' (r & HE & Hr). exists r. split; [done |]. unfold hgetall_spec, on_hash in *. by destruct (seen E _) as [[[X | m | l | o] e]|].
Qed.

End Refine.
End HashRefine.
