(* ===== verification/ListCmds.v ===== *)
(** * Commands on lists (vr_t_list.c): the code

    LPUSH, RPUSH, LPOP, RPOP, LLEN, LINDEX, LSET, LRANGE, LTRIM and LREM, the
    list commands of the command table; each handler whole, with its locking,
    its early returns and its replies.  Every list has the encoding
    [OBJ_ENCODING_QUICKLIST], the only one the server creates. *)

From stdpp Require Import gmap strings.
From S2P Require Import Prelude Bytes Bits NumConv Object HashKit Ziplist HashType Quicklist Keyspace Values.
Import NumConv Object HashKit Keyspace Values.
Import Ziplist(zget, ZStr, ZInt) HashType(zget_object).
Import Quicklist.

Module ListCmds.

#[local] Open Scope vire_scope.

Definition shared_nokeyerr : list Z := bs "-ERR no such key" ++ crlf.

(** The number in an entry that was not filled in. *)
Definition unset_longval : Z := -123456789.

Section Cmds.
Context (E : env) (C : valenv).

(** ** Lists in a database *)

(** The bytes of an encoded object, decoded. *)
Definition decoded_bytes (value : robj) : option (list Z) :=
  o ← getDecodedObject value; match o with SdsObj _ _ s => Some s | _ => None end.

Definition listTypePush (p : Z) (value : robj) (at_head : bool) : M unit :=
  q <-- load_list p ;;
  v <-- lift (decoded_bytes value) ;;
  q <-- lift (quicklistPush (junk C) (lzf_table C) q v at_head) ;;
  store p (VList q).

Definition listTypePop (p : Z) (at_head : bool) : M (option robj) :=
  q <-- load_list p ;;
  r <-- lift (quicklistPopCustom (junk C) (lzf_table C) q at_head) ;;
  store p (VList r.1) ;;
  ret (option_map zget_object r.2).

Definition listTypeLength (p : Z) : M Z := q <-- load_list p ;; ret (quicklistCount q).

(** The direction [LIST_TAIL] moves towards the tail. *)
Definition listTypeInitIterator (q : quicklist) (index : Z) (towards_tail : bool) : option (quicklist * option quicklistIter) :=
  quicklistGetIteratorAtIdx (junk C) q towards_tail index.

Definition listTypeNext (q : quicklist) (it : option quicklistIter) : option (quicklist * option quicklistIter * option quicklistEntry) :=
  quicklistNext (junk C) (lzf_table C) (S (S (size (nodes q)))) q it.

(** [listTypeEqual] with a string object, which is all it accepts. *)
Definition listTypeEqual (q : quicklist) (entry : quicklistEntry) (o : robj) : option bool :=
  s ← (match o with SdsObj _ _ s => Some s | _ => None end);
  p ← enode entry;
  z ← ezi entry;
  n ← nodes q !! p;
  quicklistCompare (zl n) z s.

(** [createQuicklistObject] with the options of the server. *)
Definition new_list : quicklist := quicklistSetOptions quicklistCreate (list_max_ziplist_size C) (list_compress_depth C).

(** ** LPUSH and RPUSH *)

Fixpoint push_loop (key : list Z) (lobj : option Z) (args : list (list Z)) (at_head : bool) (pushed : Z) : M (option Z * Z) :=
  match args with
  | [] => ret (lobj, pushed)
  | a :: args =>
      value <-- lift (tryObjectEncoding (arg a)) ;;
      p <-- (match lobj with
             | Some p => ret p
             | None => p <-- alloc (VList new_list) ;; dbAdd key (OtherObj OBJ_LIST p) ;; ret p
             end) ;;
      listTypePush p value at_head ;;
      push_loop key (Some p) args at_head (pushed + 1)
  end.

(** [args]: [argv[2]] to [argv[argc-1]]. *)
Definition pushGenericCommand (key : list Z) (args : list (list Z)) (at_head : bool) : M unit :=
  fetchInternalDbByKey E key ;;
  lockDbWrite ;;
  r <-- lookupKeyWrite E key true ;;
  match option_map as_list r.1 with
  | Some None =>
      unlockDb ;;
      count_expired r.2 ;;
      addReplyString shared_wrongtypeerr
  | lobj =>
      l <-- push_loop key (match lobj with Some p => p | None => None end) args at_head 0 ;;
      n <-- (match l.1 with Some p => listTypeLength p | None => ret 0 end) ;;
      addReplyLongLong n ;;
      add_dirty l.2 ;;
      unlockDb ;;
      count_expired r.2
  end.

Definition lpushCommand (key : list Z) (args : list (list Z)) : M unit := pushGenericCommand key args true.
Definition rpushCommand (key : list Z) (args : list (list Z)) : M unit := pushGenericCommand key args false.

(** ** The readers *)

Definition read_list (key : list Z) (miss : list Z) (body : Z -> M unit) : M unit := read_value E as_list key miss body.

Definition llenCommand (key : list Z) : M unit := read_list key shared_czero (fun p => n <-- listTypeLength p ;; addReplyLongLong n).

(** The object of an entry. *)
Definition entry_object (entry : quicklistEntry) : robj :=
  match evalue entry with Some g => zget_object g | None => createStringObjectFromLongLong unset_longval end.

(** The list is written back: looking at an element may decompress its node. *)
Definition lindexCommand (key idx : list Z) : M unit :=
  index <-- getLongFromObjectOrReply (Some (arg idx)) None ;;
  match index with
  | None => ret tt
  | Some index =>
      read_list key shared_nullbulk (fun p =>
        q <-- load_list p ;;
        r <-- lift (quicklistIndex (junk C) q index) ;;
        poke p (VList r.1) ;;
        match r.2 with
        | Some entry => addReplyBulk (entry_object entry)
        | None => addReplyString shared_nullbulk
        end)
  end.

(** What the loop of LRANGE replies; the result of [listTypeNext] is not looked
    at. *)
Definition reply_entry (entry : option quicklistEntry) : M unit :=
  match entry ≫= evalue with
  | Some (ZStr s) => addReplyBulkCBuffer s
  | Some (ZInt v) => addReplyBulkLongLong v
  | None => addReplyBulkLongLong unset_longval
  end.

Fixpoint range_loop (rangelen : nat) (q : quicklist) (it : option quicklistIter) : M quicklist :=
  match rangelen with
  | O => ret q
  | S rangelen =>
      r <-- lift (listTypeNext q it) ;;
      let '(q, it, entry) := r in
      reply_entry entry ;;
      range_loop rangelen q it
  end.

(** The bounds of a range: from and to, when it is not empty. *)
Definition range_bounds (start stop llen : Z) : option (Z * Z) :=
  let start := if start <? 0 then s64 (llen + start) else start in
  let stop := if stop <? 0 then s64 (llen + stop) else stop in
  let start := if start <? 0 then 0 else start in
  if (start >? stop) || (start >=? llen) then None
  else Some (start, if stop >=? llen then llen - 1 else stop).

(** [start] and [stop] from the arguments, with the replies to what is no
    integer. *)
Definition with_range (start stop : list Z) (body : Z -> Z -> M unit) : M unit :=
  start <-- getLongFromObjectOrReply (Some (arg start)) None ;;
  match start with
  | None => ret tt
  | Some start =>
      stop <-- getLongFromObjectOrReply (Some (arg stop)) None ;;
      match stop with
      | None => ret tt
      | Some stop => body start stop
      end
  end.

(** The reply to an empty range is added after the lock is released. *)
Definition lrangeCommand (key start stop : list Z) : M unit :=
  with_range start stop (fun start stop =>
    fetchInternalDbByKey E key ;;
    lockDbRead ;;
    o <-- lookupKeyReadOrReply E key shared_emptymultibulk ;;
    match o with
    | None => unlockDb ;; stat_misses 1
    | Some o =>
        t <-- checkType_list o ;;
        match t with
        | None => unlockDb ;; stat_hits 1
        | Some p =>
            llen <-- listTypeLength p ;;
            match range_bounds start stop llen with
            | None => unlockDb ;; stat_hits 1 ;; addReplyString shared_emptymultibulk
            | Some (start, stop) =>
                let rangelen := stop - start + 1 in
                addReplyMultiBulkLen rangelen ;;
                q <-- load_list p ;;
                it <-- lift (listTypeInitIterator q start true) ;;
                q <-- range_loop (Z.to_nat rangelen) it.1 it.2 ;;
                poke p (VList q) ;;
                unlockDb ;;
                stat_hits 1
            end
        end
    end).

(** ** The writers of existing lists *)

(** Their common frame, and the deletion of the key of an empty list. *)
Definition edit_list (key : list Z) (miss : list Z) (body : Z -> M unit) : M unit :=
  fetchInternalDbByKey E key ;;
  lockDbWrite ;;
  r <-- lookupKeyWriteOrReply E key miss true ;;
  match r.1 with
  | None => unlockDb ;; count_expired r.2
  | Some o =>
      t <-- checkType_list o ;;
      match t with
      | None => unlockDb ;; count_expired r.2
      | Some p =>
          body p ;;
          unlockDb ;;
          count_expired r.2
      end
  end.

Definition drop_empty (key : list Z) (p : Z) : M unit :=
  n <-- listTypeLength p ;;
  if n =? 0 then b <-- dbDelete key ;; ret tt else ret tt.

Definition lsetCommand (key idx value : list Z) : M unit :=
  index <-- getLongFromObjectOrReply (Some (arg idx)) None ;;
  match index with
  | None => ret tt
  | Some index =>
      edit_list key shared_nokeyerr (fun p =>
        q <-- load_list p ;;
        r <-- lift (quicklistReplaceAtIndex (junk C) (lzf_table C) q index value) ;;
        store p (VList r.1) ;;
        if (r.2 : bool) then addReplyString shared_ok ;; add_dirty 1
        else addReplyString shared_outofrangeerr)
  end.

Definition popGenericCommand (key : list Z) (at_head : bool) : M unit :=
  edit_list key shared_nullbulk (fun p =>
    value <-- listTypePop p at_head ;;
    match value with
    | None => addReplyString shared_nullbulk
    | Some value =>
        addReplyBulk value ;;
        drop_empty key p ;;
        add_dirty 1
    end).

Definition lpopCommand (key : list Z) : M unit := popGenericCommand key true.
Definition rpopCommand (key : list Z) : M unit := popGenericCommand key false.

Definition ltrimCommand (key start stop : list Z) : M unit :=
  with_range start stop (fun start stop =>
    edit_list key shared_ok (fun p =>
      llen <-- listTypeLength p ;;
      let '(ltrim, rtrim) :=
        match range_bounds start stop llen with
        | None => (llen, 0)
        | Some (start, stop) => (start, llen - stop - 1)
        end in
      q <-- load_list p ;;
      r <-- lift (quicklistDelRange (junk C) (lzf_table C) q 0 ltrim) ;;
      r <-- lift (quicklistDelRange (junk C) (lzf_table C) r.1 (- rtrim) rtrim) ;;
      store p (VList r.1) ;;
      drop_empty key p ;;
      add_dirty 1 ;;
      addReplyString shared_ok)).

(** The loop of LREM: the list and the number of elements removed. *)
Fixpoint lrem_loop (fuel : nat) (q : quicklist) (it : option quicklistIter) (obj : robj) (toremove removed : Z) : option (quicklist * Z) :=
  match fuel with
  | O => None
  | S fuel =>
      '(q, it, entry) ← listTypeNext q it;
      match entry with
      | None => Some (q, removed)
      | Some entry =>
          eq ← listTypeEqual q entry obj;
          if (eq : bool) then
            it ← it;
            '(q, it) ← quicklistDelEntry (junk C) (lzf_table C) q it entry;
            if negb (toremove =? 0) && (removed + 1 =? toremove) then Some (q, removed + 1)
            else lrem_loop fuel q (Some it) obj toremove (removed + 1)
          else lrem_loop fuel q it obj toremove removed
      end
  end.

Definition lremCommand (key cnt obj : list Z) : M unit :=
  toremove <-- getLongFromObjectOrReply (Some (arg cnt)) None ;;
  match toremove with
  | None => ret tt
  | Some toremove =>
      edit_list key shared_czero (fun p =>
        q <-- load_list p ;;
        it <-- lift (if toremove <? 0 then listTypeInitIterator q (-1) false else listTypeInitIterator q 0 true) ;;
        let toremove := if toremove <? 0 then s64 (- toremove) else toremove in
        r <-- lift (lrem_loop (S (Z.to_nat (count q))) it.1 it.2 (arg obj) toremove 0) ;;
        store p (VList r.1) ;;
        add_dirty r.2 ;;
        drop_empty key p ;;
        addReplyLongLong r.2)
  end.

End Cmds.

End ListCmds.
