(* ===== verification/ListWorld.v ===== *)
(** * List commands: what they promise *)

From stdpp Require Import gmap strings.
From S2P Require Import Prelude Bytes Bits NumConv Object HashKit ZiplistProps Keyspace Values KeyspaceRules Cells CmdSpec World ListCmds.
Import NumConv Object HashKit Keyspace Values KeyspaceRules Cells.
Import CmdSpec(parse_ll, r_notint, r_null) ZiplistProps(zindex, vsum) World.
Import ListCmds(shared_nokeyerr).

Module ListWorld.

#[local] Open Scope vire_scope.

Abbreviation bytes := (list Z).

(** ** Lists of byte strings *)

(** The arguments are pushed one after the other. *)
Definition push_all (at_head : bool) (args l : list bytes) : list bytes := if at_head then rev args ++ l else l ++ args.

Definition pop_end (at_head : bool) (l : list bytes) : list bytes := if at_head then tail l else take (length l - 1) l.
Definition end_of (at_head : bool) (l : list bytes) : option bytes := if at_head then hd_error l else last l.

(** The elements from [start] to [stop], both counted from the end when they
    are negative. *)
Definition slice (start stop : Z) (l : list bytes) : list bytes :=
  let n := zlen l in
  let a := Z.max 0 (if start <? 0 then n + start else start) in
  let b := Z.min (n - 1) (if stop <? 0 then n + stop else stop) in
  take (Z.to_nat (b - a + 1)) (drop (Z.to_nat a) l).

(** At most [n] elements equal to [v] removed, from the front. *)
Fixpoint remove_n (n : nat) (v : bytes) (l : list bytes) : list bytes :=
  match l with
  | [] => []
  | x :: l =>
      match n with
      | O => x :: l
      | S n' => if decide (x = v) then remove_n n' v l else x :: remove_n n v l
      end
  end.

(** [cnt] elements from the front, from the back when it is negative, and all of
    them when it is 0. *)
Definition lrem_list (cnt : Z) (v : bytes) (l : list bytes) : list bytes :=
  let n := if cnt =? 0 then length l else Z.to_nat (Z.min (Z.abs cnt) (zlen l)) in
  if cnt <? 0 then rev (remove_n n v (rev l)) else remove_n n v l.

Section Rel.
Context (E : env).
Implicit Types (a : acell).

Definition list_at a : option (list bytes) :=
  match purge E a with
  | None => Some []
  | Some (AList l, _) => Some l
  | Some (_, _) => None
  end.

Definition push_spec (at_head : bool) (args : list bytes) a : acell * list Z :=
  match list_at a with
  | None => (purge E a, r_wrong)
  | Some l => let l := push_all at_head args l in (Some (AList l, purge E a ≫= snd), r_int (zlen l))
  end.

(** The commands on an existing list; an empty one is deleted. *)
Definition ledit_spec (miss : list Z) (f : list bytes -> list bytes * list Z) a : acell * list Z :=
  match purge E a with
  | None => (None, miss)
  | Some (AList l, e) => let r := f l in (if decide (r.1 = []) then None else Some (AList r.1, e), r.2)
  | Some (v, e) => (Some (v, e), r_wrong)
  end.

Definition pop_spec (at_head : bool) := ledit_spec r_null (fun l => (pop_end at_head l, from_option r_bulk r_null (end_of at_head l))).

Definition lset_spec (idx v : bytes) a : acell * list Z :=
  match parse_ll idx with
  | None => (a, r_notint)
  | Some i => ledit_spec shared_nokeyerr (fun l => match zindex l i with Some m => (<[m := v]> l, shared_ok) | None => (l, shared_outofrangeerr) end) a
  end.

Definition ltrim_spec (start stop : bytes) a : acell * list Z :=
  match parse_ll start, parse_ll stop with
  | Some start, Some stop => ledit_spec shared_ok (fun l => (slice start stop l, shared_ok)) a
  | _, _ => (a, r_notint)
  end.

Definition lrem_spec (cnt v : bytes) a : acell * list Z :=
  match parse_ll cnt with
  | None => (a, r_notint)
  | Some cnt => ledit_spec (r_int 0) (fun l => let l' := lrem_list cnt v l in (l', r_int (zlen l - zlen l'))) a
  end.

(** The readers leave the entry. *)
Definition on_list (miss : list Z) (f : list bytes -> list Z) a : list Z :=
  match seen E a with
  | None => miss
  | Some (AList l, _) => f l
  | Some (_, _) => r_wrong
  end.

Definition llen_spec := on_list (r_int 0) (fun l => r_int (zlen l)).

Definition lindex_spec (idx : bytes) a : list Z :=
  match parse_ll idx with
  | None => r_notint
  | Some i => on_list r_null (fun l => from_option r_bulk r_null (zindex l i ≫= fun m => l !! m)) a
  end.

Definition lrange_spec (start stop : bytes) a : list Z :=
  match parse_ll start, parse_ll stop with
  | Some start, Some stop => on_list (r_multi []) (fun l => r_multi (slice start stop l)) a
  | _, _ => r_notint
  end.

(** Room for [n] more bytes in the list: the values, and 14 bytes for each. *)
Definition lroom a (n : Z) : Prop := forall l, list_at a = Some l -> 11 + vsum l + n < 2 ^ 31.

End Rel.

End ListWorld.
