(* ===== verification/ListRefine.v ===== *)
(** * The list commands refine the abstract key space *)

From stdpp Require Import gmap strings.
From S2P Require Import Prelude Bytes Bits NumConv Object HashKit Ziplist ZiplistProps ZiplistKit HashType HashProps Quicklist QuicklistInv QuicklistProps QuicklistIndex Keyspace Values KeyspaceRules Cells ValueRules CmdSpec CmdRefine Commands Sharding World ListCmds ListWorld.
Import NumConv Object HashKit Keyspace Values KeyspaceRules Cells ValueRules.
Import CmdSpec(MAXLEN, parse_ll, r_notint, r_null) CmdRefine(parse_ll_int64, getLongFrom_run, wp_getLong) Commands(str_arg).
Import ZiplistProps(zindex, vsum, vsum_app, vsum_nonneg, vsum_length, value_of) ZiplistKit(zget_ok, zip_compare).
Import HashProps(zget_object_ok) HashType(zget_object).
Import Quicklist(quicklist, quicklistIter, quicklistEntry, mk_entry, nodes, compress, enode, ezi, evalue, zl, from_head, quicklistCount, quicklistDelEntry).
Import QuicklistInv(node_ok, nd_vsum, nd_raw, raw_ziplist).
Import QuicklistProps QuicklistIndex World ListCmds ListWorld.

Module ListRefine.

#[local] Open Scope vire_scope.

(** ** Ranges of lists *)

Lemma range_bounds_spec start stop (l : list bytes) : int64 start -> int64 stop -> zlen l < 2 ^ 31 ->
  match range_bounds start stop (zlen l) with
  | None => slice start stop l = []
  | Some (a, b) => 0 <= a <= b /\ b < zlen l /\ slice start stop l = take (Z.to_nat (b - a + 1)) (drop (Z.to_nat a) l)
  end.
Proof.
  unfold int64, LLONG_MIN, LLONG_MAX, range_bounds, slice. intros Hs He Hl.
  replace (if start <? 0 then s64 (zlen l + start) else start) with (if start <? 0 then zlen l + start else start) by (destruct (Z.ltb_spec start 0); [rewrite swrap_small; lia | done]).
  replace (if stop <? 0 then s64 (zlen l + stop) else stop) with (if stop <? 0 then zlen l + stop else stop) by (destruct (Z.ltb_spec stop 0); [rewrite swrap_small; lia | done]).
  set (a0 := if start <? 0 then _ else _). set (b0 := if stop <? 0 then _ else _). replace (if a0 <? 0 then 0 else a0) with (Z.max 0 a0) by (destruct (Z.ltb_spec a0 0); lia). set (a := Z.max 0 a0).
  destruct (Z.gtb_spec a b0); cbn [orb]; [by replace (Z.to_nat (Z.min (zlen l - 1) b0 - a + 1)) with 0%nat by lia |].
  destruct (Z.geb_spec a (zlen l)); [rewrite drop_ge by lia; by rewrite take_nil |]. replace (if b0 >=? zlen l then zlen l - 1 else b0) with (Z.min (zlen l - 1) b0) by (destruct (Z.geb_spec b0 (zlen l)); lia).
  split_and!; [lia | lia | lia | done].
Qed.

(** ** Removing *)

Lemma remove_n_0 v l : remove_n 0 v l = l.
Proof. by destruct l. Qed.

Lemma remove_n_all n m v l : (length l <= n)%nat -> (length l <= m)%nat -> remove_n n v l = remove_n m v l.
Proof.
  revert n m. induction l as [|x l IH]; intros n m Hn Hm; cbn [remove_n length] in *; [done |]. destruct n as [|n], m as [|m]; try lia. destruct (decide (x = v)); [apply IH; lia | f_equal; apply IH; lia].
Qed.

Lemma remove_n_length n v l : (length (remove_n n v l) <= length l)%nat.
Proof. revert n. induction l as [|x l IH]; intros [|n]; cbn; [done | done | done |]. destruct (decide _); cbn; [specialize (IH n) | specialize (IH (S n))]; lia. Qed.

(** What a removal that stands at position [m] leaves. *)
Definition rem_at (d : bool) (n m : nat) (v : bytes) (l : list bytes) : list bytes :=
  if d then take m l ++ remove_n n v (drop m l) else rev (remove_n n v (rev (take m l))) ++ drop m l.

Definition rest_at (d : bool) (m : nat) (l : list bytes) : nat := if d then (length l - m)%nat else m.

Lemma rem_at_0 d m v l : rem_at d 0 m v l = l.
Proof. destruct d; unfold rem_at; rewrite remove_n_0, ?rev_involutive; apply take_drop. Qed.

Lemma rem_at_done d n m v l : (m <= length l)%nat -> pending d m l = None -> rem_at d n m v l = l.
Proof.
  unfold pending, rem_at. destruct d; intros Hm.
  - destruct (decide _); [done |]. intros _. rewrite drop_ge by lia. cbn [remove_n]. by rewrite take_ge, app_nil_r by lia.
  - by destruct m.
Qed.

Lemma rem_at_keep d n m m' x v l : pending d m l = Some m' -> l !! m' = Some x -> x <> v -> rem_at d n m v l = rem_at d n (if d then S m' else m') v l.
Proof.
  unfold pending, rem_at. destruct d; intros Hp Hx Hne.
  - destruct (decide _) as [Hlt|]; [|done]. injection Hp as <-. rewrite (drop_S _ _ _ Hx), (take_S_r _ _ _ Hx). destruct n; cbn [remove_n]; rewrite ?decide_False by done; rewrite <- app_assoc; cbn; by rewrite ?remove_n_0.
  - destruct m; [done |]. injection Hp as <-. rewrite (take_S_r _ _ _ Hx), rev_app_distr, (drop_S _ _ _ Hx). cbn [rev app]. destruct n; cbn [remove_n]; rewrite ?decide_False by done; cbn [rev]; rewrite <- app_assoc; cbn; by rewrite ?remove_n_0, ?rev_involutive.
Qed.

Lemma rem_at_hit d n m m' v l : pending d m l = Some m' -> l !! m' = Some v -> rem_at d (S n) m v l = rem_at d n m' v (del_at m' l).
Proof.
  unfold pending, rem_at, del_at. destruct d; intros Hp Hx; pose proof (lookup_lt_Some _ _ _ Hx).
  - destruct (decide _) as [Hlt|]; [|done]. injection Hp as <-. rewrite (drop_S _ _ _ Hx). cbn [remove_n]. rewrite decide_True by done. rewrite take_app_le, take_take, Nat.min_id, drop_app_ge, length_take_le, Nat.sub_diag by (rewrite ?length_take; lia). done.
  - destruct m; [done |]. injection Hp as <-. rewrite (take_S_r _ _ _ Hx), rev_app_distr. cbn [rev app remove_n]. rewrite decide_True by done. rewrite take_app_le, take_take, Nat.min_id, drop_app_ge, length_take_le, Nat.sub_diag by (rewrite ?length_take; lia). done.
Qed.

Lemma rem_at_length d n m v l : (length (rem_at d n m v l) <= length l)%nat.
Proof.
  unfold rem_at. destruct d; rewrite length_app, ?length_rev; [pose proof (remove_n_length n v (drop m l)) as Hr; rewrite length_drop in Hr | pose proof (remove_n_length n v (rev (take m l))) as Hr; rewrite length_rev in Hr]; rewrite ?length_take, ?length_drop in *; lia.
Qed.

(** ** Loops over a list *)

Section Loops.
Context (C : valenv).
Implicit Types (q : quicklist) (it : quicklistIter) (l : list bytes).

Lemma equal_ok q ps vss i j p z g off v : QL q ps vss -> compress q = 0 -> entry_at q ps vss i j p z g -> listTypeEqual q (mk_entry (Some p) (Some z) (Some g) off) (arg v) = Some (bool_decide (value_of g = v)).
Proof using.
  intros HQ H0 (n & vs & Hp & Hn & Hvs & Hk & _ & Hz & _). destruct (ql_node q ps vss i p HQ Hp) as (n' & vs' & Hn' & Hvs' & Hok & _). assert (n' = n) as -> by congruence. assert (vs' = vs) as -> by congruence. pose proof (nd_vsum _ _ _ Hok).
  destruct (zip_compare (zl n) vs (raw_ziplist _ _ _ Hok (nd_raw _ _ _ Hok H0)) ltac:(lia) j (value_of g) v Hk) as (z' & Hz' & Hc). assert (z' = z) as -> by congruence.
  unfold listTypeEqual, arg, createStringObject, createEmbeddedStringObject, createRawStringObject. destruct (_ <=? _); cbn [mbind option_bind enode ezi]; rewrite Hn; exact Hc.
Qed.

Lemma lrem_loop_ok v : forall fuel q ps vss it m toremove removed lim, QL q ps vss -> compress q = 0 -> iter_at q ps vss it m -> (m <= length (concat vss))%nat -> (rest_at (from_head it) m (concat vss) < fuel)%nat ->
  0 <= removed -> (0 < toremove -> removed < toremove /\ lim = Z.to_nat (toremove - removed)) -> (toremove <= 0 -> (rest_at (from_head it) m (concat vss) <= lim)%nat) ->
  let res := rem_at (from_head it) lim m v (concat vss) in
  exists q', lrem_loop C fuel q (Some it) (arg v) toremove removed = Some (q', removed + (zlen (concat vss) - zlen res)) /\ holds q' res /\ compress q' = 0.
Proof using.
  induction fuel as [|fuel IH]; intros q ps vss it m toremove removed lim HQ H0 Hit Hm Hf Hr Hpos Hneg; [lia |]. cbn zeta. cbn [lrem_loop]. unfold listTypeNext.
  pose proof (next_ok (junk C) (lzf_table C) q ps vss it m (size (nodes q)) HQ H0 Hit) as Hnext. destruct (pending (from_head it) m (concat vss)) as [m'|] eqn:Hp.
  2:{ destruct Hnext as (it' & ->). cbn [mbind option_bind]. rewrite rem_at_done by done. exists q. split_and!; [do 2 f_equal; lia | by exists ps, vss | done]. }
  destruct Hnext as (i & j & p & z & g & vs & -> & He & Hvs & ->). cbn [mbind option_bind]. rewrite (equal_ok q ps vss i j p z g _ v HQ H0 He). cbn [mbind option_bind]. pose proof (entry_flat _ _ _ _ _ _ _ _ He) as Hx. pose proof (lookup_lt_Some _ _ _ Hx) as Hxl.
  set (m' := flat_pos i j vss) in *. set (d := from_head it) in *. assert (Hm' : rest_at d m (concat vss) = S (if d then length (concat vss) - S m' else m')).
  { unfold pending in Hp. unfold rest_at. destruct d; [destruct (decide _); [injection Hp as ->; lia | done] | destruct m; [done |]; by injection Hp as ->]. }
  case_bool_decide as Hv.
  - destruct (del_entry_ok (junk C) (lzf_table C) q ps vss d i j p z g vs (offset_of d vs j) HQ H0 He Hvs) as (q' & it' & ps' & vss' & Hdel & Hd' & HQ' & Hcat & Hit' & _ & Hc'). fold m' in Hcat, Hit'. rewrite Hdel. cbn [mbind option_bind].
    assert (Hlim : exists n, lim = S n) by (destruct lim as [|n]; [destruct (Z.lt_ge_cases 0 toremove) as [Ht | Ht]; [destruct (Hpos Ht); lia | specialize (Hneg Ht); lia] | eauto]). destruct Hlim as [n ->]. rewrite (rem_at_hit d n m m' v _ Hp) by (by rewrite Hx, Hv). rewrite <- Hcat.
    assert (Hl' : length (concat vss) = S (length (concat vss'))) by (rewrite Hcat, length_del_at by done; lia). pose proof (rem_at_length d n m' v (concat vss')) as Hrl.
    destruct (negb (toremove =? 0) && (removed + 1 =? toremove)) eqn:Hstop.
    + apply andb_true_iff in Hstop as [_ Heq%Z.eqb_eq]. destruct (Hpos ltac:(lia)) as [_ Hn]. assert (n = 0%nat) as -> by lia. rewrite rem_at_0 in *. exists q'. split_and!; [do 2 f_equal; lia | by exists ps', vss' | done].
    + apply andb_false_iff in Hstop. destruct (IH q' ps' vss' it' m' toremove (removed + 1) n HQ' Hc' Hit') as (q2 & Hrun & Hh & Hc2).
      * lia.
      * rewrite Hd'. unfold rest_at in *. destruct d; lia.
      * lia.
      * intros Ht. destruct (Hpos Ht). destruct Hstop as [Hs | Hs]; [apply negb_false_iff in Hs; lia |]. apply Z.eqb_neq in Hs. lia.
      * intros Ht. specialize (Hneg Ht). rewrite Hd'. unfold rest_at in *. destruct d; lia.
      * rewrite Hd' in *. exists q2. rewrite Hrun. split_and!; [|done | done]. do 2 f_equal. lia.
  - rewrite (rem_at_keep d lim m m' _ v _ Hp Hx Hv). destruct (IH q ps vss (iter_on d p z vs j) (if d then S m' else m') toremove removed lim HQ H0) as (q2 & Hrun & Hh & Hc2).
    + exact (iter_on_at q ps vss d i j p z g vs He Hvs).
    + destruct d; lia.
    + cbn [from_head iter_on]. unfold rest_at in *. destruct d; lia.
    + done.
    + done.
    + intros Ht. specialize (Hneg Ht). cbn [from_head iter_on]. unfold rest_at in *. destruct d; lia.
    + cbn [from_head iter_on] in *. exists q2. by rewrite Hrun.
Qed.
End Loops.

Section Refine.
Context (E : env) (C : valenv).
Implicit Types (W : world) (k : list Z) (s : state) (H : gmap Z value) (D : list redisDb) (q : quicklist) (l : list bytes).

Abbreviation INV := (ValInv E C).
Abbreviation Ends := (Ends E C).

(** ** One list under a lock *)

Abbreviation LAt s0 D k lm p q := (VAt E s0 D k lm p (VList q)).

(** The list is [l] and not compressed. *)
Definition plain q l : Prop := holds q l /\ compress q = 0.

Lemma wp_load_list s0 D k lm p q c o s Q : LAt s0 D k lm p q c o s -> Q q s -> wp (load_list p) Q s.
Proof. intros HA HQ. unfold load_list. apply wp_bind. by eapply wp_load_at. Qed.

Lemma wp_list_length s0 D k lm p q l c o s Q : LAt s0 D k lm p q c o s -> holds q l -> Q (zlen l) s -> wp (listTypeLength p) Q s.
Proof. intros HA Hh HQ. unfold listTypeLength. apply wp_bind. eapply wp_load_list; [exact HA |]. apply wp_ret. by rewrite (holds_count _ _ Hh). Qed.

Lemma list_room q l : holds q l -> 11 + vsum l < 2 ^ 31.
Proof. intros (ps & vss & HQ & <-). apply HQ. Qed.

Lemma holds_length q l : holds q l -> zlen l < 2 ^ 28.
Proof. intros Hh. pose proof (list_room q l Hh). pose proof (vsum_length l). lia. Qed.

Lemma vsum_elem l m (v : bytes) : l !! m = Some v -> 14 + zlen v <= vsum l.
Proof. intros Hm. rewrite <- (take_drop_middle _ _ _ Hm), vsum_app. cbn [vsum]. pose proof (vsum_nonneg (take m l)). pose proof (vsum_nonneg (drop (S m) l)). lia. Qed.

Lemma wp_list_push s0 D k p q l c o s ob v (b : bool) Q : LAt s0 D k WRLOCK p q c o s -> plain q l -> robj_ok ob -> sval ob = Some v -> bytes_ok v -> 11 + (14 + zlen v + vsum l) < 2 ^ 31 ->
  (forall q' s', LAt s0 D k WRLOCK p q' c o s' -> plain q' (push_val b v l) -> Q tt s') -> wp (listTypePush C p ob b) Q s.
Proof.
  intros HA [Hh H0] Hok Hs Hv Hsz HQ. unfold listTypePush. apply wp_bind. eapply wp_load_list; [exact HA |]. destruct (getDecoded_spec ob v Hok Hs) as (o' & e & cst & Hd & ->).
  apply wp_bind. eapply (wp_lift _ v); [unfold decoded_bytes; by rewrite Hd |]. destruct (push_ok (junk C) (lzf_table C) b q l v Hh Hv Hsz) as (q' & Hq' & Hh' & _ & Hc').
  apply wp_bind. eapply wp_lift; [exact Hq' |]. eapply wp_store_at; [exact HA |]. intros s' HA'. eapply HQ; [exact HA' |]. split; [done | congruence].
Qed.

(** ** The writing frame of existing lists *)

(** What a body does to the list at [p]; an empty list is deleted. *)
Definition edits k (body : Z -> M unit) l (f : list bytes -> list bytes * list Z) : Prop := forall s0 D p q e s,
  let c := Some (OtherObj OBJ_LIST p, e) in LAt s0 D k WRLOCK p q c [] s -> plain q l ->
  wp (body p) (fun _ s' => exists q', LAt s0 D k WRLOCK p q' (if decide ((f l).1 = []) then None else c) (f l).2 s' /\ plain q' (f l).1) s.

Lemma edit_ok s W k miss body f : INV s W -> (forall l, list_at E (W (dictid s) k) = Some l -> l <> [] -> edits k body l f) ->
  wp (edit_list E k miss body) (fun _ s' => let r := ledit_spec E miss f (W (dictid s) k) in Ends s (wupd W (dictid s) k r.1) r.2 s') s.
Proof.
  intros [Hh HS] Hbody. unfold edit_list. pose proof (vl_dbs _ _ _ _ _ _ HS) as Hdb. pose proof (dok_id _ _ _ Hdb) as Hid.
  pose proof (vl_sees _ _ _ _ _ _ HS (dictid s) k Hid) as Hsee. apply (sees_purge E) in Hsee. unfold ledit_spec, list_at in *.
  eapply wp_enter_bind; [by apply Out_refl | done |]. intros s1 H1. unfold lookupKeyWriteOrReply. apply wp_bind, wp_bind. eapply wp_lookupKeyWrite; [exact H1 |]. cbn [purge_if]. intros s2 H2.
  cbn [fst snd]. pose proof (ptr_purge E (getcell E (dictid s) k (dbs s))) as Hptr.
  set (c0 := getcell E (dictid s) k (dbs s)) in *. destruct (purge E c0) as [[ob e]|] eqn:Hc; cbn [fst fmap option_fmap option_map].
  - apply wp_ret. cbn [fst snd]. unfold checkType_list, checkType_as. destruct (as_list ob) as [p|] eqn:Has.
    + cbn [sees] in Hsee. destruct ob as [| | [] p']; try done. injection Has as ->. cbn [as_set as_hash as_list] in Hsee. destruct Hsee as (q & l & Hv & Hd & Hl & H0 & Ha). rewrite Ha in *. cbn [fst snd].
      apply wp_bind, wp_ret. apply wp_bind. eapply wp_mono; [apply (Hbody l eq_refl Hl s (dbs s) p q e s2); [by apply VAt_intro | done] |]. intros _ s3 (q' & H3 & Hd' & H0').
      eapply wp_finish; [exact H3 |]. apply (Vals_update E C _ _ (heap s)); [done | | |].
      * intros x w Hx Hnx. rewrite lookup_insert_ne; [done |]. intros <-. by apply Hnx, Hptr.
      * intros x. case_decide; [done |]. intros [= <-]. left. by apply Hptr.
      * case_decide; [done |]. exists q', (f l).1. by rewrite lookup_insert_eq.
    + destruct (sees_no_list _ _ _ _ _ Has Hsee) as (w & Hw & Hnw). rewrite Hw in *. apply wp_bind, wp_bind. eapply wp_at_reply; [apply replies_string | exact H2 |]. intros s3 H3. apply wp_ret.
      destruct w as [X | m | l | o]; [| | by destruct (Hnw l) |]; (eapply wp_finish; [rewrite set_heap_id; exact H3 |]; apply (Vals_update E C _ _ (heap s)); [done | done | intros q Hq; left; by apply Hptr | done]).
  - cbn [sees] in Hsee. rewrite Hsee in *. cbn [fst snd]. apply wp_bind. eapply wp_at_reply; [apply replies_string | exact H2 |]. intros s3 H3. apply wp_ret. cbn [fst snd].
    eapply wp_finish; [rewrite set_heap_id; exact H3 |]. by apply (Vals_update E C _ _ (heap s)).
Qed.

Lemma wp_drop_empty s0 D k p q l c o s Q : LAt s0 D k WRLOCK p q c o s -> plain q l -> (forall s', LAt s0 D k WRLOCK p q (if decide (l = []) then None else c) o s' -> Q tt s') -> wp (drop_empty k p) Q s.
Proof.
  intros HA [Hh _] HQ. unfold drop_empty. apply wp_bind. eapply wp_list_length; [exact HA | exact Hh |]. destruct l as [|x l].
  - rewrite decide_True in HQ by done. cbn [length Z.of_nat Z.eqb]. apply wp_bind. eapply wp_dbDelete; [exact HA |]. intros s' HA'. apply wp_ret. by apply HQ.
  - rewrite decide_False in HQ by done. cbn [length]. rewrite (proj2 (Z.eqb_neq _ _)) by lia. apply wp_ret. by apply HQ.
Qed.

(** An integer argument, or the error reply. *)
Lemma wp_int_arg s W k idx (F : Z -> M unit) (spec : Z -> acell * list Z) : INV s W ->
  (forall z, parse_ll idx = Some z -> int64 z -> wp (F z) (fun _ s' => Ends s (wupd W (dictid s) k (spec z).1) (spec z).2 s') s) ->
  wp (x <-- getLongFromObjectOrReply (Some (arg idx)) None ;; match x with None => ret tt | Some z => F z end)
    (fun _ s' => let r := match parse_ll idx with None => (W (dictid s) k, r_notint) | Some z => spec z end in Ends s (wupd W (dictid s) k r.1) r.2 s') s.
Proof.
  intros HI HF. destruct (parse_ll idx) as [z|] eqn:Hz.
  - apply wp_bind. unfold wp at 1. rewrite getLongFrom_run, Hz. apply HF; [done |]. by eapply parse_ll_int64.
  - apply wp_error; [done |]. intros s1. unfold bind. rewrite getLongFrom_run, Hz. done.
Qed.

Lemma wp_int_read s W idx (F : Z -> M unit) (spec : Z -> list Z) : INV s W ->
  (forall z, parse_ll idx = Some z -> int64 z -> wp (F z) (fun _ s' => Ends s W (spec z) s') s) ->
  wp (x <-- getLongFromObjectOrReply (Some (arg idx)) None ;; match x with None => ret tt | Some z => F z end)
    (fun _ s' => Ends s W (match parse_ll idx with None => r_notint | Some z => spec z end) s') s.
Proof.
  intros HI HF. destruct (parse_ll idx) as [z|] eqn:Hz.
  - apply wp_bind. unfold wp at 1. rewrite getLongFrom_run, Hz. apply HF; [done |]. by eapply parse_ll_int64.
  - apply wp_just_reply; [done |]. intros s1. unfold bind. rewrite getLongFrom_run, Hz. done.
Qed.

(** ** LPOP and RPOP *)

Lemma pop_end_spec (b : bool) l : pop_end b l = del_at (end_index b l) l /\ end_of b l = l !! end_index b l.
Proof.
  unfold pop_end, end_of, del_at. destruct b; cbn [end_index].
  - by destruct l.
  - rewrite last_lookup. split; [|done]. rewrite (drop_ge l) by lia. rewrite app_nil_r. f_equal. lia.
Qed.

Lemma pop_cmd_ok s W k (b : bool) : INV s W -> wp (popGenericCommand E C k b) (fun _ s' => let r := pop_spec E b (W (dictid s) k) in Ends s (wupd W (dictid s) k r.1) r.2 s') s.
Proof.
  intros HI. apply edit_ok; [done |]. intros l _ Hne s0 D p q e st c HA [Hh H0]. destruct (pop_end_spec b l) as [He1 He2]. cbn [fst snd]. rewrite He1, He2.
  destruct (pop_ok (junk C) (lzf_table C) b q l Hh) as (q' & r & Hq' & Hr & Hg & Hh' & _ & Hc'). destruct (lookup_lt_is_Some_2 l _ (end_index_lt b l Hne)) as [v Hv]. rewrite Hv in *.
  destruct r as [g|]; [|done]. injection Hr as Hr. specialize (Hg g eq_refl). destruct (zget_object_ok g Hg) as [Hz1 Hz2]. rewrite Hr in Hz2. pose proof (vsum_elem l _ v Hv) as Hve. pose proof (list_room q l Hh) as Hvs.
  apply wp_bind. unfold listTypePop. apply wp_bind. eapply wp_load_list; [exact HA |]. apply wp_bind. eapply wp_lift; [exact Hq' |]. cbn [fst snd]. apply wp_bind. eapply wp_store_at; [exact HA |]. intros s1 H1. apply wp_ret. cbn [option_map].
  apply wp_bind. eapply wp_at_reply; [apply (replies_bulk _ v); [done | done | lia] | exact H1 |]. intros s2 H2. apply wp_bind. eapply wp_drop_empty; [exact H2 | by split; [| congruence] |]. intros s3 H3.
  eapply wp_at_counter; [auto with vire | exact H3 |]. intros s4 H4. exists q'. split; [exact H4 | by split; [| congruence]].
Qed.

(** ** LSET *)

Lemma vsum_insert m (v : bytes) l : vsum (<[m := v]> l) <= vsum l + (14 + zlen v).
Proof.
  destruct (decide (m < length l)%nat) as [Hm | Hm]; [|rewrite list_insert_ge by lia; lia]. rewrite insert_take_drop, vsum_app by done. cbn [vsum]. rewrite <- (take_drop m l) at 3. rewrite vsum_app.
  destruct (lookup_lt_is_Some_2 l m Hm) as [x Hx]. rewrite (drop_S _ _ _ Hx). cbn [vsum]. lia.
Qed.

Lemma lset_ok s W k idx v : INV s W -> str_arg v -> lroom E (W (dictid s) k) (14 + zlen v) ->
  wp (lsetCommand E C k idx v) (fun _ s' => let r := lset_spec E idx v (W (dictid s) k) in Ends s (wupd W (dictid s) k r.1) r.2 s') s.
Proof.
  intros HI [Hv _] Hroom. apply (wp_int_arg s W k idx _ (fun i => ledit_spec E shared_nokeyerr (fun l => match zindex l i with Some m => (<[m := v]> l, shared_ok) | None => (l, shared_outofrangeerr) end) (W (dictid s) k)) HI).
  intros i _ Hi. apply edit_ok; [done |]. intros l Hl Hne s0 D p q e st c HA [Hh H0]. specialize (Hroom l Hl). apply wp_bind. eapply wp_load_list; [exact HA |].
  pose proof (replace_at_ok (junk C) (lzf_table C) q l i v Hh H0 Hi Hv) as Hrep. destruct (zindex l i) as [m|] eqn:Hz; cbn [fst snd].
  - destruct Hrep as (q' & Hq' & Hh' & _ & Hc'); [intros m' [= <-]; pose proof (vsum_insert m v l); lia |]. apply wp_bind. eapply wp_lift; [exact Hq' |]. cbn [fst snd]. apply wp_bind. eapply wp_store_at; [exact HA |]. intros s1 H1.
    apply wp_bind. eapply wp_at_reply; [apply replies_string | exact H1 |]. intros s2 H2. eapply wp_at_counter; [auto with vire | exact H2 |]. intros s3 H3. exists q'. split; [|done].
    rewrite decide_False; [exact H3 |]. intros Hnil. apply (f_equal length) in Hnil. rewrite length_insert in Hnil. by destruct l.
  - apply wp_bind. eapply wp_lift; [by apply Hrep |]. cbn [fst snd]. apply wp_bind. eapply wp_store_at; [exact HA |]. intros s1 H1. eapply wp_at_reply; [apply replies_string | exact H1 |]. intros s2 H2. exists q. by rewrite decide_False.
Qed.

(** ** LTRIM *)

Lemma wp_range_arg s W k start stop (F : Z -> Z -> M unit) (spec : Z -> Z -> acell * list Z) : INV s W ->
  (forall a b, int64 a -> int64 b -> wp (F a b) (fun _ s' => Ends s (wupd W (dictid s) k (spec a b).1) (spec a b).2 s') s) ->
  wp (with_range start stop F)
    (fun _ s' => let r := match parse_ll start, parse_ll stop with Some a, Some b => spec a b | _, _ => (W (dictid s) k, r_notint) end in Ends s (wupd W (dictid s) k r.1) r.2 s') s.
Proof.
  intros HI HF. unfold with_range. eapply wp_mono; [apply (wp_int_arg s W k start _ (fun a => match parse_ll stop with Some b => spec a b | None => (W (dictid s) k, r_notint) end) HI) |].
  - intros a _ Ha. apply (wp_int_arg s W k stop _ (spec a) HI). intros b _ Hb. by apply HF.
  - intros ? s'. cbn beta zeta. by destruct (parse_ll start), (parse_ll stop).
Qed.

Lemma range_cut (a b n : nat) l : length l = n -> (a <= b < n)%nat -> cut (S b - a) (n - b - 1) (cut 0 a l) = take (b - a + 1) (drop a l).
Proof. intros Hn Hab. unfold cut. cbn [take app Nat.add]. rewrite (drop_ge (drop a l)) by (rewrite length_drop; lia). rewrite app_nil_r. f_equal. lia. Qed.

Lemma trim_ok q l start stop : plain q l -> int64 start -> int64 stop ->
  let tr := match range_bounds start stop (zlen l) with None => (zlen l, 0) | Some (a, b) => (a, zlen l - b - 1) end in
  exists q1 r1 q2 r2, Quicklist.quicklistDelRange (junk C) (lzf_table C) q 0 tr.1 = Some (q1, r1) /\ Quicklist.quicklistDelRange (junk C) (lzf_table C) q1 (- tr.2) tr.2 = Some (q2, r2) /\ plain q2 (slice start stop l).
Proof.
  intros [Hh H0] Ha Hb tr. pose proof (holds_length q l Hh) as Hlen. pose proof (range_bounds_spec start stop l Ha Hb ltac:(lia)) as Hrb. unfold tr. clear tr. destruct (range_bounds start stop (zlen l)) as [[a b]|]; cbn [fst snd].
  - destruct Hrb as (Hab & Hbl & Hsl). destruct (delrange_ok (junk C) (lzf_table C) q l 0 (Z.to_nat a) 0 Hh H0 ltac:(lia) ltac:(by left)) as (q1 & r1 & Hq1 & Hh1 & _ & Hc1). rewrite Z2Nat.id in Hq1 by lia. exists q1, r1. rewrite Hq1.
    pose proof (length_cut l 0 (Z.to_nat a) ltac:(lia)) as Hlc. destruct (delrange_ok (junk C) (lzf_table C) q1 _ (S (Z.to_nat b) - Z.to_nat a) (Z.to_nat (zlen l - b - 1)) (- (zlen l - b - 1)) Hh1 Hc1 ltac:(lia) ltac:(right; lia)) as (q2 & r2 & Hq2 & Hh2 & _ & Hc2).
    rewrite Z2Nat.id in Hq2 by lia. exists q2, r2. split_and!; [done | done |]. split; [|done]. rewrite Hsl. replace (Z.to_nat (zlen l - b - 1)) with (length l - Z.to_nat b - 1)%nat in Hh2 by lia. rewrite (range_cut _ _ (length l)) in Hh2 by lia. by replace (Z.to_nat (b - a + 1)) with (Z.to_nat b - Z.to_nat a + 1)%nat by lia.
  - destruct (delrange_ok (junk C) (lzf_table C) q l 0 (length l) 0 Hh H0 ltac:(lia) ltac:(by left)) as (q1 & r1 & Hq1 & Hh1 & _ & Hc1). exists q1, r1, q1, false. split_and!; [done | done |]. split; [|done]. rewrite Hrb. unfold cut in Hh1. cbn [take app Nat.add] in Hh1. by rewrite drop_ge in Hh1 by lia.
Qed.

Lemma ltrim_ok s W k start stop : INV s W -> wp (ltrimCommand E C k start stop) (fun _ s' => let r := ltrim_spec E start stop (W (dictid s) k) in Ends s (wupd W (dictid s) k r.1) r.2 s') s.
Proof.
  intros HI. apply (wp_range_arg s W k start stop _ (fun a b => ledit_spec E shared_ok (fun l => (slice a b l, shared_ok)) (W (dictid s) k)) HI). intros a b Ha Hb.
  apply edit_ok; [done |]. intros l _ Hne s0 D p q e st c HA Hp. apply wp_bind. eapply wp_list_length; [exact HA | apply Hp |]. destruct (trim_ok q l a b Hp Ha Hb) as (q1 & r1 & q2 & r2 & Hq1 & Hq2 & Hp2).
  destruct (match range_bounds a b (zlen l) with None => (zlen l, 0) | Some (a, b) => (a, zlen l - b - 1) end) as [lt rt]. cbn [fst snd] in *.
  apply wp_bind. eapply wp_load_list; [exact HA |]. apply wp_bind. eapply wp_lift; [exact Hq1 |]. cbn [fst snd]. apply wp_bind. eapply wp_lift; [exact Hq2 |]. cbn [fst snd]. apply wp_bind. eapply wp_store_at; [exact HA |]. intros s1 H1.
  apply wp_bind. eapply wp_drop_empty; [exact H1 | exact Hp2 |]. intros s2 H2. apply wp_bind. eapply wp_at_counter; [auto with vire | exact H2 |]. intros s3 H3. eapply wp_at_reply; [apply replies_string | exact H3 |]. intros s4 H4. by exists q2.
Qed.

(** ** LREM *)

Lemma remove_n_min n v l : remove_n (Nat.min n (length l)) v l = remove_n n v l.
Proof. destruct (decide (n <= length l)%nat); [by rewrite Nat.min_l by lia | apply remove_n_all; lia]. Qed.

Lemma lrem_list_spec cnt v l (lim : nat) : int64 cnt -> zlen l < 2 ^ 31 -> (cnt = 0 \/ cnt = LLONG_MIN -> lim = length l) -> (cnt <> 0 -> cnt <> LLONG_MIN -> lim = Z.to_nat (Z.abs cnt)) ->
  rem_at (negb (cnt <? 0)) lim (if cnt <? 0 then length l else 0) v l = lrem_list cnt v l.
Proof.
  unfold int64, LLONG_MIN, LLONG_MAX. intros Hc Hl H0 H1. unfold lrem_list. set (n := if cnt =? 0 then _ else _).
  assert (Hn : n = Nat.min lim (length l)). { unfold n. destruct (Z.eqb_spec cnt 0); [rewrite H0 by auto; lia |]. destruct (decide (cnt = - 2 ^ 63)); [rewrite H0 by auto; lia | rewrite H1 by done; lia]. }
  rewrite Hn. clearbody n. unfold rem_at. destruct (cnt <? 0); cbn [negb].
  - rewrite take_ge, drop_ge, app_nil_r by lia. by rewrite <- (length_rev l), remove_n_min.
  - cbn [take drop app]. by rewrite remove_n_min.
Qed.

Lemma lrem_run q l cnt v : plain q l -> l <> [] -> int64 cnt ->
  exists it q', (if cnt <? 0 then listTypeInitIterator C q (-1) false else listTypeInitIterator C q 0 true) = Some (q, it) /\
    lrem_loop C (S (Z.to_nat (Quicklist.count q))) q it (arg v) (if cnt <? 0 then s64 (- cnt) else cnt) 0 = Some (q', zlen l - zlen (lrem_list cnt v l)) /\ plain q' (lrem_list cnt v l).
Proof.
  intros [Hh H0] Hne Hc. pose proof (holds_length q l Hh) as Hlen. destruct Hh as (ps & vss & HQ & <-). pose proof (ql_count _ _ _ HQ) as Hct. set (l := concat vss) in *. assert (Hpos : (0 < length l)%nat) by (destruct l; [done | cbn; lia]).
  assert (Hit : exists it, (if cnt <? 0 then listTypeInitIterator C q (-1) false else listTypeInitIterator C q 0 true) = Some (q, Some it) /\ from_head it = negb (cnt <? 0) /\ iter_at q ps vss it (if cnt <? 0 then length l else 0%nat)).
  { unfold listTypeInitIterator. destruct (cnt <? 0).
    - pose proof (iterator_ok (junk C) q ps vss (-1) HQ H0 ltac:(done)) as Hi. cbn [Z.ltb Z.compare negb] in Hi. fold l in Hi. assert (Hz : zindex l (-1) = Some (length l - 1)%nat) by (unfold zindex; zguard; zguard; f_equal; lia). rewrite Hz in Hi. destruct Hi as (it & Hi1 & Hi2 & Hi3). exists it. split_and!; [done | done |]. by replace (length l) with (S (length l - 1)) by lia.
    - pose proof (iterator_ok (junk C) q ps vss 0 HQ H0 ltac:(done)) as Hi. cbn [Z.ltb Z.compare negb] in Hi. fold l in Hi. assert (Hz : zindex l 0 = Some 0%nat) by (unfold zindex; change (0 <? 0) with false; cbn iota; zguard; done). rewrite Hz in Hi. exact Hi. }
  destruct Hit as (it & -> & Hd & Hat). unfold int64, LLONG_MIN, LLONG_MAX in Hc.
  set (lim := if decide (cnt = 0 \/ cnt = - 2 ^ 63) then length l else Z.to_nat (Z.abs cnt)). pose proof (lrem_list_spec cnt v l lim ltac:(done) ltac:(lia)) as Hls. rewrite <- Hls; [|intros Hx; unfold lim; by rewrite decide_True | intros Hx1 Hx2; unfold lim; rewrite decide_False; [done | intros [|]; done]].
  destruct (lrem_loop_ok C v (S (Z.to_nat (Quicklist.count q))) q ps vss it _ (if cnt <? 0 then s64 (- cnt) else cnt) 0 lim HQ H0 Hat) as (q' & Hrun & Hh' & Hc').
  - fold l. destruct (cnt <? 0); lia.
  - fold l. rewrite Hd, Hct. unfold rest_at. destruct (cnt <? 0); cbn [negb]; lia.
  - done.
  - unfold lim. destruct (Z.ltb_spec cnt 0) as [Hneg | Hpn].
    + destruct (decide (cnt = - 2 ^ 63)) as [-> | Hm]; [done |]. rewrite swrap_small by lia. rewrite decide_False by lia. lia.
    + intros Ht. rewrite decide_False by lia. lia.
  - unfold lim, rest_at. rewrite Hd. fold l. destruct (Z.ltb_spec cnt 0) as [Hneg | Hpn]; cbn [negb].
    + destruct (decide (cnt = - 2 ^ 63)) as [-> | Hm]; [rewrite decide_True by auto; lia |]. rewrite swrap_small by lia. lia.
    + intros Ht. rewrite decide_True by lia. lia.
  - rewrite Hd in Hrun, Hh'. exists (Some it), q'. split_and!; [done | | by split]. rewrite Hrun. do 2 f_equal.
Qed.

Lemma lrem_ok s W k cnt v : INV s W -> wp (lremCommand E C k cnt v) (fun _ s' => let r := lrem_spec E cnt v (W (dictid s) k) in Ends s (wupd W (dictid s) k r.1) r.2 s') s.
Proof.
  intros HI. apply (wp_int_arg s W k cnt _ (fun n => ledit_spec E (r_int 0) (fun l => let l' := lrem_list n v l in (l', r_int (zlen l - zlen l'))) (W (dictid s) k)) HI). intros n _ Hn.
  apply edit_ok; [done |]. intros l _ Hne s0 D p q e st c HA Hp. pose proof (holds_length q l (proj1 Hp)) as Hlen. destruct (lrem_run q l n v Hp Hne Hn) as (it & q' & Hi & Hrun & Hp'). cbn [fst snd].
  apply wp_bind. eapply wp_load_list; [exact HA |]. apply wp_bind. eapply wp_lift; [exact Hi |]. cbn [fst snd]. apply wp_bind. eapply wp_lift; [exact Hrun |]. cbn [fst snd]. apply wp_bind. eapply wp_store_at; [exact HA |]. intros s1 H1.
  apply wp_bind. eapply wp_at_counter; [auto with vire | exact H1 |]. intros s2 H2. apply wp_bind. eapply wp_drop_empty; [exact H2 | exact Hp' |]. intros s3 H3. pose proof (holds_length q' _ (proj1 Hp')).
  eapply wp_at_reply; [apply replies_int; unfold int64, LLONG_MIN, LLONG_MAX; lia | exact H3 |]. intros s4 H4. by exists q'.
Qed.

(** ** LPUSH and RPUSH *)

Fixpoint push_room (args : list bytes) : Z := match args with [] => 0 | v :: args => 14 + zlen v + push_room args end.

Lemma push_room_nonneg args : 0 <= push_room args.
Proof. induction args; cbn [push_room]; lia. Qed.

Lemma push_all_cons (b : bool) v args l : push_all b (v :: args) l = push_all b args (push_val b v l).
Proof. destruct b; cbn; by rewrite <- app_assoc. Qed.

Lemma wp_push_loop s0 D k p c o (b : bool) args : Forall str_arg args -> forall s q l pushed Q, LAt s0 D k WRLOCK p q c o s -> plain q l -> 11 + vsum l + push_room args < 2 ^ 31 ->
  (forall q' s', LAt s0 D k WRLOCK p q' c o s' -> plain q' (push_all b args l) -> Q (Some p, pushed + zlen args) s') -> wp (push_loop C k (Some p) args b pushed) Q s.
Proof.
  induction 1 as [|v args [Hv _] _ IH]; intros s q l pushed Q HA Hp Hr HQ; cbn [push_loop push_room length] in *.
  - apply wp_ret. rewrite Z.add_0_r in HQ. eapply HQ; [exact HA |]. unfold push_all. destruct b; cbn; [done | by rewrite app_nil_r].
  - destruct (arg_spec v Hv) as [Ha1 Ha2]. destruct (tryEncoding_spec (arg v) v Ha1 Ha2) as (ob & Hob & Hs & Hok). pose proof (push_room_nonneg args) as Hnn. apply wp_bind. eapply wp_lift; [exact Hob |]. apply wp_bind, wp_ret.
    apply wp_bind. eapply wp_list_push; [exact HA | exact Hp | done | done | done | lia |]. intros q1 s1 H1 Hp1. eapply IH; [exact H1 | exact Hp1 | rewrite vsum_push; lia |].
    intros q2 s2 H2 Hp2. rewrite <- push_all_cons in Hp2. replace (pushed + 1 + zlen args) with (pushed + Z.of_nat (S (length args))) by lia. by eapply HQ.
Qed.

Lemma new_list_plain : list_compress_depth C = 0 -> plain (new_list C) [].
Proof. intros Hd. split; [apply new_holds |]. unfold new_list, Quicklist.quicklistSetOptions, Quicklist.quicklistSetCompressDepth. cbn [compress]. by rewrite Hd. Qed.

Lemma push_all_ne (b : bool) args l : args <> [] -> push_all b args l <> [].
Proof. intros Ha Hn. apply (f_equal length) in Hn. destruct args; [done |]. unfold push_all in Hn. destruct b; rewrite length_app, ?length_rev in Hn; cbn in Hn; lia. Qed.

(** The end of a push: the reply, the counters and the new entry. *)
Lemma push_end s W s0 D k p e args (b ex : bool) l q st : s0 = s -> D = dbs s -> let c := Some (OtherObj OBJ_LIST p, e) in let l' := push_all b args l in
  LAt s0 D k WRLOCK p q c [] st -> plain q l' -> (forall H', H' = <[p := VList q]> (heap s) -> Vals E C (dictid s) (setcell E (dictid s) k c (dbs s)) H' (wupd W (dictid s) k (Some (AList l', e)))) ->
  wp (n <-- listTypeLength p ;; addReplyLongLong n ;; add_dirty (zlen args) ;; unlockDb ;; count_expired ex) (fun _ s' => Ends s (wupd W (dictid s) k (Some (AList l', e))) (r_int (zlen l')) s') st.
Proof.
  intros -> -> c l' HA Hp HV. pose proof (holds_length q l' (proj1 Hp)). apply wp_bind. eapply wp_list_length; [exact HA | apply Hp |]. apply wp_bind. eapply wp_at_reply; [apply replies_int; unfold int64, LLONG_MIN, LLONG_MAX; lia | exact HA |]. intros s1 H1.
  apply wp_bind. eapply wp_at_counter; [auto with vire | exact H1 |]. intros s2 H2. eapply wp_finish; [exact H2 |]. by apply HV.
Qed.

Lemma push_cmd_ok s W k args (b : bool) : INV s W -> list_compress_depth C = 0 -> Forall str_arg args -> args <> [] -> lroom E (W (dictid s) k) (push_room args) ->
  wp (pushGenericCommand E C k args b) (fun _ s' => let r := push_spec E b args (W (dictid s) k) in Ends s (wupd W (dictid s) k r.1) r.2 s') s.
Proof.
  intros [Hh HS] Hdep Hargs Hne Hroom. unfold pushGenericCommand. pose proof (vl_dbs _ _ _ _ _ _ HS) as Hdb. pose proof (dok_id _ _ _ Hdb) as Hid.
  pose proof (vl_sees _ _ _ _ _ _ HS (dictid s) k Hid) as Hsee. apply (sees_purge E) in Hsee. unfold lroom, push_spec, list_at in *.
  eapply wp_enter_bind; [by apply Out_refl | done |]. intros s1 H1. apply wp_bind. eapply wp_lookupKeyWrite; [exact H1 |]. cbn [purge_if]. intros s2 H2.
  cbn [fst snd]. pose proof (ptr_purge E (getcell E (dictid s) k (dbs s))) as Hptr.
  set (c0 := getcell E (dictid s) k (dbs s)) in *. destruct (purge E c0) as [[ob e]|] eqn:Hc; cbn [fst fmap option_fmap option_map].
  - destruct (as_list ob) as [p|] eqn:Has.
    + cbn [sees] in Hsee. destruct ob as [| | [] p']; try done. injection Has as ->. cbn [as_set as_hash as_list] in Hsee. destruct Hsee as (q & l & Hv & Hd & Hl & H0 & Ha). rewrite Ha in *. cbn [fst snd mbind option_bind].
      apply wp_bind. eapply wp_push_loop; [done | by apply VAt_intro | by split | by apply Hroom |]. intros q' s3 H3 Hp3. cbn [fst snd]. rewrite Z.add_0_l.
      eapply (push_end s W _ _ k p e args b _ l q'); [done | done | exact H3 | done |]. intros H' ->. apply (Vals_update E C _ _ (heap s)); [done | | |].
      * intros x w Hx Hnx. rewrite lookup_insert_ne; [done |]. intros <-. by apply Hnx, Hptr.
      * intros x [= <-]. left. by apply Hptr.
      * exists q', (push_all b args l). rewrite lookup_insert_eq. destruct Hp3. split_and!; try done. by apply push_all_ne.
    + destruct (sees_no_list _ _ _ _ _ Has Hsee) as (w & Hw & Hnw). rewrite Hw in *. apply wp_bind. eapply wp_leave; [exact H2 |]. intros s3 H3. apply wp_bind. eapply wp_counter_out; [auto with vire | exact H3 |].
      intros s4 H4. eapply wp_replies_out; [apply replies_string | exact H4 |]. intros s5 H5. rewrite <- (set_heap_id s) in H5 at 1.
      destruct w as [X | m | l | o]; [| | by destruct (Hnw l) |]; (eapply Out_Ends; [exact H5 |]; apply (Vals_update E C _ _ (heap s)); [done | done | intros x Hx; left; by apply Hptr | done]).
  - cbn [sees] in Hsee. rewrite Hsee in *. cbn [fst snd mbind option_bind]. destruct args as [|v args]; [done |]. inversion_clear Hargs as [|? ? [Hv Hvl] Hargs']. destruct (arg_spec v Hv) as [Ha1 Ha2]. destruct (tryEncoding_spec (arg v) v Ha1 Ha2) as (ob & Hob & Hs & Hok).
    specialize (Hroom [] eq_refl). pose proof (push_room_nonneg args) as Hnn. cbn [push_room vsum] in Hroom. cbn [push_loop]. apply wp_bind, wp_bind. eapply wp_lift; [exact Hob |]. apply wp_bind, wp_bind. eapply wp_alloc; [exact H2 |]. intros s3 H3. apply wp_bind. eapply wp_dbAdd; [exact H3 |]. intros s4 H4.
    set (p := fresh _) in *. apply wp_ret. apply wp_bind. eapply (wp_list_push s (dbs s) k p); [exact H4 | by apply new_list_plain | done | done | done | cbn [vsum]; lia |]. intros q1 s5 H5 Hp5.
    eapply wp_push_loop; [done | exact H5 | exact Hp5 | rewrite vsum_push; cbn [vsum]; lia |]. intros q2 s6 H6 Hp6. rewrite <- push_all_cons in Hp6. cbn [fst snd]. replace (0 + 1 + zlen args) with (zlen (v :: args)) by (cbn [length]; lia).
    eapply (push_end s W _ _ k p None (v :: args) b _ [] q2); [done | done | exact H6 | done |]. intros H' ->. apply (Vals_update E C _ _ (heap s)); [done | | |].
    + intros y w Hy _. rewrite lookup_insert_ne; [done |]. intros <-. subst p. by rewrite fresh_not in Hy.
    + intros y [= <-]. right. apply fresh_not.
    + exists q2, (push_all b (v :: args) []). rewrite lookup_insert_eq. destruct Hp6. split_and!; try done. by apply push_all_ne.
Qed.

(** ** The readers *)

(** What a list key looks like to a reader. *)
Lemma seen_list s W k p e : INV s W -> seen E (getcell E (dictid s) k (dbs s)) = Some (OtherObj OBJ_LIST p, e) ->
  exists q l, heap s !! p = Some (VList q) /\ plain q l /\ seen E (W (dictid s) k) = Some (AList l, e).
Proof.
  intros [_ HS] Hc. pose proof (dok_id _ _ _ (vl_dbs _ _ _ _ _ _ HS)) as Hid. pose proof (sees_seen E _ _ _ _ (vl_sees _ _ _ _ _ _ HS (dictid s) k Hid)) as Hsee. rewrite Hc in Hsee. cbn in Hsee.
  destruct Hsee as (q & l & Hv & Hd & _ & H0 & Ha). exists q, l. by split_and!.
Qed.

Lemma seen_other s W k ob e : INV s W -> seen E (getcell E (dictid s) k (dbs s)) = Some (ob, e) -> as_list ob = None -> exists v, seen E (W (dictid s) k) = Some (v, e) /\ forall l, v <> AList l.
Proof.
  intros [_ HS] Hc Has. pose proof (dok_id _ _ _ (vl_dbs _ _ _ _ _ _ HS)) as Hid. pose proof (sees_seen E _ _ _ _ (vl_sees _ _ _ _ _ _ HS (dictid s) k Hid)) as Hsee. rewrite Hc in Hsee. by apply (sees_no_list C (heap s) ob e).
Qed.

Lemma seen_none s W k : INV s W -> seen E (getcell E (dictid s) k (dbs s)) = None -> seen E (W (dictid s) k) = None.
Proof.
  intros [_ HS] Hc. pose proof (dok_id _ _ _ (vl_dbs _ _ _ _ _ _ HS)) as Hid. pose proof (sees_seen E _ _ _ _ (vl_sees _ _ _ _ _ _ HS (dictid s) k Hid)) as Hsee. by rewrite Hc in Hsee.
Qed.

Lemma lread_ok s W k (miss : list Z) (body : Z -> M unit) (f : list bytes -> list Z) : INV s W ->
  (forall p q l c s1, LAt s (dbs s) k RDLOCK p q c [] s1 -> plain q l -> wp (body p) (fun _ s2 => LAt s (dbs s) k RDLOCK p q c (f l) s2) s1) ->
  wp (read_list E k miss body) (fun _ s' => Ends s W (on_list E miss f (W (dictid s) k)) s') s.
Proof.
  intros HI Hbody. eapply wp_mono; [apply (wp_read_value E C s W k as_list miss body (fun r => r = on_list E miss f (W (dictid s) k)) HI) | by intros ? s' (r & HE & ->)]. unfold on_list.
  destruct (seen E (getcell E (dictid s) k (dbs s))) as [[ob e]|] eqn:Hc; [|by rewrite (seen_none s W k HI Hc)]. destruct (as_list ob) as [p|] eqn:Has.
  - destruct ob as [| | [] p']; try done. injection Has as ->. destruct (seen_list s W k p e HI Hc) as (q & l & Hq & Hp & ->). intros s1 H1.
    eapply wp_mono; [eapply (Hbody p q l _ s1); [by apply VAt_intro | done] |]. intros ? s2 H2. exists (heap s), (f l). split_and!; [|apply HI | done]. unfold VAt in H2. by rewrite insert_id in H2.
  - destruct (seen_other s W k ob e HI Hc Has) as (v & -> & Hnv). destruct v as [X | m | l | o]; [done | done | by destruct (Hnv l) | done].
Qed.

Lemma llen_ok s W k : INV s W -> wp (llenCommand E k) (fun _ s' => Ends s W (llen_spec E (W (dictid s) k)) s') s.
Proof.
  intros HI. apply lread_ok; [done |]. intros p q l c s1 H1 Hp. pose proof (holds_length q l (proj1 Hp)). apply wp_bind. eapply wp_list_length; [exact H1 | apply Hp |].
  eapply wp_at_reply; [apply replies_int; unfold int64, LLONG_MIN, LLONG_MAX; lia | exact H1 |]. done.
Qed.

(** An element of a list, as an object and as a reply. *)
Lemma elem_reply q l m g : holds q l -> l !! m = Some (value_of g) -> zget_ok g -> replies (addReplyBulk (zget_object g)) (r_bulk (value_of g)).
Proof. intros Hh Hm Hg. destruct (zget_object_ok g Hg). pose proof (vsum_elem l m _ Hm). pose proof (list_room q l Hh). apply replies_bulk; [done | done | lia]. Qed.

Lemma lindex_ok s W k idx : INV s W -> wp (lindexCommand E C k idx) (fun _ s' => Ends s W (lindex_spec E idx (W (dictid s) k)) s') s.
Proof.
  intros HI. apply (wp_int_read s W idx _ (fun i => on_list E r_null (fun l => from_option r_bulk r_null (zindex l i ≫= fun m => l !! m)) (W (dictid s) k)) HI). intros i _ Hi.
  apply lread_ok; [done |]. intros p q l c s1 H1 [Hh H0]. apply wp_bind. eapply wp_load_list; [exact H1 |]. pose proof Hh as (ps & vss & HQ & <-). pose proof (index_ok (junk C) q ps vss i HQ H0 Hi) as Hix. destruct (zindex (concat vss) i) as [m|]; cbn [mbind option_bind].
  - destruct Hix as (n & j & pn & z & g & vs & Hq & He & _ & ->). apply wp_bind. eapply wp_lift; [exact Hq |]. cbn [fst snd]. apply wp_bind. eapply wp_poke_at; [exact H1 |]. intros s2 H2. pose proof (entry_flat _ _ _ _ _ _ _ _ He) as Hx. rewrite Hx.
    eapply wp_at_reply; [|exact H2 |]; [|intros s3 H3; exact H3]. destruct He as (nd & ws & _ & _ & _ & _ & Hgo & _). by eapply elem_reply.
  - apply wp_bind. eapply wp_lift; [exact Hix |]. cbn [fst snd]. apply wp_bind. eapply wp_poke_at; [exact H1 |]. intros s2 H2. eapply wp_at_reply; [apply replies_string | exact H2 |]. done.
Qed.

(** ** LRANGE *)

Lemma wp_range_loop s0 D k lm c q ps vss : QL q ps vss -> compress q = 0 -> forall n s it m o Q, iter_at q ps vss it m -> from_head it = true -> (m + n <= length (concat vss))%nat -> At E s0 D k lm c o s ->
  (forall s', At E s0 D k lm c (o ++ concat (r_bulk <$> take n (drop m (concat vss)))) s' -> Q q s') -> wp (range_loop C n q (Some it)) Q s.
Proof.
  intros HQ H0. induction n as [|n IH]; intros s it m o Q Hit Hd Hm HA HP; cbn [range_loop]; [apply wp_ret; apply HP; cbn; by rewrite app_nil_r |].
  pose proof (next_ok (junk C) (lzf_table C) q ps vss it m (size (nodes q)) HQ H0 Hit) as Hnext. rewrite Hd in Hnext. unfold pending in Hnext. rewrite decide_True in Hnext by lia. destruct Hnext as (i & j & p & z & g & vs & Hn & He & Hvs & Hmm).
  apply wp_bind. eapply wp_lift; [exact Hn |]. pose proof (entry_flat _ _ _ _ _ _ _ _ He) as Hx. rewrite <- Hmm in Hx. pose proof He as (nd & ws & _ & _ & _ & _ & Hgo & _). pose proof (vsum_elem _ _ _ Hx) as Hve. pose proof (ql_size _ _ _ HQ) as Hqs.
  apply wp_bind. eapply (wp_at_reply E s0 D k lm c o (r_bulk (value_of g))); [|exact HA |].
  - unfold reply_entry. cbn [mbind option_bind evalue]. destruct g as [t | x]; cbn in *; [apply replies_buffer; lia | by apply bulk_longlong].
  - intros s1 H1. eapply (IH s1 (iter_on true p z vs j) (S m)); [rewrite Hmm; exact (iter_on_at q ps vss true i j p z g vs He Hvs) | done | lia | exact H1 |].
    intros s2 H2. apply HP. rewrite (drop_S _ _ _ Hx). cbn [take fmap list_fmap concat]. by rewrite <- app_assoc in H2.
Qed.

Lemma r_multi_nil : r_multi [] = shared_emptymultibulk.
Proof. done. Qed.

(** The list part of LRANGE. *)
Lemma wp_range s0 D k p q l c s a b Q : LAt s0 D k RDLOCK p q c [] s -> plain q l -> 0 <= a <= b -> b < zlen l ->
  (forall s', LAt s0 D k RDLOCK p q c (r_multi (take (Z.to_nat (b - a + 1)) (drop (Z.to_nat a) l))) s' -> wp (unlockDb ;; stat_hits 1) Q s') ->
  wp (addReplyMultiBulkLen (b - a + 1) ;; q <-- load_list p ;; it <-- lift (listTypeInitIterator C q a true) ;; q <-- range_loop C (Z.to_nat (b - a + 1)) it.1 it.2 ;; poke p (VList q) ;; unlockDb ;; stat_hits 1) Q s.
Proof.
  intros HA [Hh H0] Hab Hb HQ. pose proof (holds_length q l Hh) as Hlen. apply wp_bind. eapply wp_at_reply; [apply replies_multilen; lia | exact HA |]. intros s1 H1. apply wp_bind. eapply wp_load_list; [exact H1 |].
  destruct Hh as (ps & vss & HQL & <-). pose proof (iterator_ok (junk C) q ps vss a HQL H0) as Hi. assert (Ha64 : int64 a) by (unfold int64, LLONG_MIN, LLONG_MAX; lia). specialize (Hi Ha64). rewrite (proj2 (Z.ltb_ge a 0)) in Hi by lia. cbn [negb] in Hi.
  assert (Hz : zindex (concat vss) a = Some (Z.to_nat a)) by (unfold zindex; zguard; zguard; done). rewrite Hz in Hi. destruct Hi as (it & Hit & Hd & Hat). apply wp_bind. eapply wp_lift; [exact Hit |]. cbn [fst snd].
  apply wp_bind. eapply wp_range_loop; [exact HQL | done | exact Hat | done | lia | exact H1 |]. intros s2 H2. apply wp_bind. eapply wp_poke_at; [exact H2 |]. intros s3 H3. apply HQ. unfold r_multi. rewrite length_take, length_drop.
  replace (Z.of_nat (Nat.min (Z.to_nat (b - a + 1)) (length (concat vss) - Z.to_nat a))) with (b - a + 1) by lia. cbn [app] in H3. by rewrite <- app_assoc in H3.
Qed.

Lemma lrange_ok s W k start stop : INV s W -> wp (lrangeCommand E C k start stop) (fun _ s' => Ends s W (lrange_spec E start stop (W (dictid s) k)) s') s.
Proof.
  intros HI. pose proof HI as [Hh HS]. pose proof (vl_dbs _ _ _ _ _ _ HS) as Hdb. unfold lrangeCommand, with_range. set (spec a b := on_list E (r_multi []) (fun l => r_multi (slice a b l)) (W (dictid s) k)).
  eapply wp_mono; [apply (wp_int_read s W start _ (fun a => match parse_ll stop with Some b => spec a b | None => r_notint end) HI) | intros ? s'; unfold lrange_spec; by destruct (parse_ll start), (parse_ll stop)].
  intros a _ Ha. apply (wp_int_read s W stop _ (spec a) HI). intros b _ Hb. unfold spec, on_list. clear spec. set (c := getcell E (dictid s) k (dbs s)).
  assert (Hend : forall m r st, counter m -> At E s (dbs s) k RDLOCK c r st -> wp (unlockDb ;; m) (fun _ s' => Ends s W r s') st).
  { intros m r st Hm HA. apply wp_bind. eapply wp_leave; [exact HA |]. intros s3 H3. unfold c in H3. rewrite setcell_id in H3 by done. eapply wp_counter_out; [done | exact H3 |]. intros s4 H4. rewrite <- (set_heap_id s) in H4 at 1. by eapply Out_Ends. }
  eapply wp_enter_bind; [by apply Out_refl | done |]. intros s1 H1. unfold lookupKeyReadOrReply. apply wp_bind, wp_bind. eapply wp_lookupKeyRead; [exact H1 |]. fold c.
  destruct (seen E c) as [[ob e]|] eqn:Hc; cbn [fst fmap option_fmap option_map].
  - apply wp_ret. unfold checkType_list, checkType_as. destruct (as_list ob) as [p|] eqn:Has.
    + destruct ob as [| | [] p']; try done. injection Has as ->. destruct (seen_list s W k p e HI Hc) as (q & l & Hq & Hp & ->). pose proof (holds_length q l (proj1 Hp)) as Hlen. apply (VAt_intro E s (dbs s) k RDLOCK p _ _ _ _ Hq) in H1. cbn iota.
      apply wp_bind, wp_ret. apply wp_bind. eapply wp_list_length; [exact H1 | apply Hp |]. pose proof (range_bounds_spec a b l Ha Hb ltac:(lia)) as Hrb. destruct (range_bounds a b (zlen l)) as [[x y]|].
      * destruct Hrb as (Hxy & Hyl & ->). eapply wp_range; [exact H1 | exact Hp | done | done |]. intros s2 H2. eapply Hend; [auto with vire |]. unfold VAt in H2. by rewrite insert_id, set_heap_id in H2.
      * rewrite Hrb. unfold VAt in H1. rewrite insert_id, set_heap_id in H1 by done. apply wp_bind. eapply wp_leave; [exact H1 |]. intros s2 H2. unfold c in H2. rewrite setcell_id in H2 by done. apply wp_bind. eapply wp_counter_out; [auto with vire | exact H2 |]. intros s3 H3.
        eapply wp_replies_out; [apply replies_string | exact H3 |]. intros s4 H4. rewrite <- (set_heap_id s) in H4 at 1. by eapply Out_Ends.
    + destruct (seen_other s W k ob e HI Hc Has) as (v & -> & Hnv). apply wp_bind, wp_bind. eapply wp_at_reply; [apply replies_string | exact H1 |]. intros s2 H2. apply wp_ret.
      destruct v as [X | m | l | o]; [| | by destruct (Hnv l) |]; (eapply Hend; [auto with vire | exact H2]).
  - rewrite (seen_none s W k HI Hc). apply wp_bind. eapply wp_at_reply; [apply replies_string | exact H1 |]. intros s2 H2. apply wp_ret. eapply Hend; [auto with vire | exact H2].
Qed.
End Refine.
End ListRefine.
