(* ===== verification/CmdProps.v ===== *)
(** * The commands implement the key space

    The multi-key commands, then the refinement of every command and of command
    sequences, and the guarantees a client can rely on. *)

From stdpp Require Import gmap strings.
From S2P Require Import Prelude Bytes Bits NumConv Object HashKit Bitops Keyspace KeyCmds StringCmds KeyspaceRules Cells CmdSpec CmdRefine Commands Sharding.
Import NumConv Object HashKit Bitops Keyspace KeyCmds StringCmds KeyspaceRules Cells CmdSpec CmdRefine Commands Sharding.

Module CmdProps.

#[local] Open Scope vire_scope.

(** ** Every command *)

Section Exec.
Context (E : env) (s0 : state).
Implicit Types (D : list redisDb) (k : key).

Abbreviation id0 := (dictid s0).

(** The databases become [m] in the selected one; [r] is added to the output. *)
Definition Done D (m : kmap) (o : list Z) (s : state) : Prop := exists D', Evolves E id0 D D' m /\ Out s0 D' o s.

Lemma one_done k f (c : M unit) D o s : Refines E c k f -> Inv E id0 D -> Out s0 D o s ->
  wp c (fun _ s' => Done D (one k f (abs E D id0)).1 (o ++ (one k f (abs E D id0)).2) s') s.
Proof.
  intros Hr Hi HO. unfold one. cbn [fst snd]. rewrite (abs_lookup E id0 D k Hi).
  eapply wp_mono; [by apply Hr; [|apply Hi | apply Inv_cok] |]. intros _ s' (c' & Hc & Ha & HO'). rewrite <- Ha.
  exists (setcell E id0 k c' D). split; [by apply Evolves_setcell | done].
Qed.

(** One key of a loop. *)
Lemma enter_cell {B} k lm (K : unit -> M B) D o s Q : Inv E id0 D -> Out s0 D o s ->
  (forall s' c, cok c -> absc c = abs E D id0 !! k -> setcell E id0 k c D = D -> At E s0 D k lm c o s' -> wp (K tt) Q s') ->
  wp (fetchInternalDbByKey E k ;; (x <-- take_lock lm ;; K x)) Q s.
Proof.
  intros Hi HO HK. eapply wp_enter_cell; [done | apply Hi | done |]. intros s' HA. eapply HK; [by apply Inv_cok | | | done].
  - by rewrite abs_lookup.
  - apply setcell_id, Hi.
Qed.

Lemma Done_step D c k m o s : Inv E id0 D -> cok c -> Done (setcell E id0 k c D) m o s -> Done D m o s.
Proof.
  intros Hi Hc (D' & He & HO). exists D'. split; [|done]. eapply Evolves_trans; [by apply Evolves_setcell | done].
Qed.

Lemma isSome_absc c : isSome (absc c) = isSome c.
Proof. by destruct c. Qed.

Lemma del_loop_done ks : forall D deleted expired o s, Inv E id0 D -> Out s0 D o s ->
  wp (del_loop E ks deleted expired)
    (fun r s' => r.1 = (del_spec E ks (abs E D id0) deleted).2 /\ Done D (del_spec E ks (abs E D id0) deleted).1 o s') s.
Proof.
  induction ks as [|k ks IH]; intros D deleted expired o s Hi HO.
  { apply wp_ret. split; [done |]. exists D. split; [by apply Evolves_refl | done]. }
  cbn [del_loop]. apply enter_cell with (o := o) (D := D); [done.. |]. intros s1 c Hc Ha Hid HA. cstep.
  eapply wp_expireIfNeeded; [eassumption |]. intros s2 HA2. cstep. cstep. cstep.
  replace (isSome (purge E c)) with (isSome (purge E (abs E D id0 !! k))) by by rewrite <- Ha, purge_absc, isSome_absc.
  assert (Hd : abs E (setcell E id0 k None D) id0 = delete k (abs E D id0)) by by rewrite abs_setcell.
  destruct (isSome _) eqn:Hs; csteps; cbn [del_spec]; rewrite Hs, <- Hd;
    (eapply wp_mono; [apply (IH (setcell E id0 k None D)); [by apply setcell_Inv | eassumption] |]; intros r s' [Hr HD]; split; [done |]; by apply (Done_step D None k)).
Qed.

Lemma exists_loop_done ks : forall D n o s, Inv E id0 D -> Out s0 D o s ->
  wp (exists_loop E ks n) (fun r s' => r = n + exists_spec E ks (abs E D id0) /\ Out s0 D o s') s.
Proof.
  induction ks as [|k ks IH]; intros D n o s Hi HO. { apply wp_ret. unfold exists_spec. cbn. split; [lia | done]. }
  cbn [exists_loop]. apply enter_cell with (o := o) (D := D); [done.. |]. intros s1 c Hc Ha Hid HA. cstep.
  eapply wp_checkIfExpired; [eassumption |]. unfold exists_spec. cbn [List.filter]. rewrite <- Ha, seen_absc, isSome_absc. unfold seen at 1.
  destruct (dead E c); csteps; rewrite Hid in *.
  - by apply IH.
  - eapply wp_mono; [by apply IH |]. intros r s' [-> HO']. split; [|done]. unfold exists_spec.
    destruct (isSome c); cbn [length b2z]; lia.
Qed.

Lemma mget_loop_done ks : forall D o s, Inv E id0 D -> Out s0 D o s ->
  wp (mget_loop E ks) (fun _ s' => Out s0 D (o ++ concat (mget_one E (abs E D id0) <$> ks)) s') s.
Proof.
  induction ks as [|k ks IH]; intros D o s Hi HO. { apply wp_ret. cbn. by rewrite app_nil_r. }
  cbn [mget_loop]. apply enter_cell with (o := o) (D := D); [done.. |]. intros s1 c Hc Ha Hid HA.
  cbn [fmap list_fmap concat]. rewrite app_assoc. unfold mget_one at 1. rewrite <- Ha, seen_absc. cstep. cstep. cstep.
  destruct (seen E c) as [[ob e]|] eqn:Hs; csimp; [pose proof (seen_ok _ _ _ _ Hc Hs)|].
  - destruct (vof ob) as [t | t p] eqn:Hv; (destruct ob; try discriminate); csteps; rewrite Hid in *; by apply IH.
  - csteps. rewrite Hid in *. by apply IH.
Qed.

Lemma mset_loop_done n : forall args D expired o s, (length args <= n)%nat -> values_ok args -> Inv E id0 D -> Out s0 D o s ->
  wp (mset_loop E args expired) (fun _ s' => Done D (mset_spec args (abs E D id0)) o s') s.
Proof.
  induction n as [|n IH]; intros args D expired o s Hn Hv Hi HO;
    (destruct args as [|k [|v args]]; [apply wp_ret; exists D; by split; [apply Evolves_refl |].. | ]); [cbn in Hn; lia |].
  cbn [mset_loop mset_spec values_ok] in *. destruct Hv as [[Hb Hl] Hv]. destruct (encode_arg v Hb Hl) as (ob & w & He & Hd & Hw & Hwv & _).
  cstep. cstep. apply enter_cell with (o := o) (D := D); [done.. |]. intros s1 c Hc Ha Hid HA. csteps.
  assert (Hok : cok (Some (w, None))) by by apply cok_some.
  eapply wp_mono; [apply (IH args (setcell E id0 k (Some (w, None)) D)); [cbn in Hn; lia | done | by apply setcell_Inv | eassumption] |].
  intros ? s' HD. apply (Done_step D (Some (w, None)) k); [done.. |]. revert HD. rewrite abs_setcell by done. csimp. by rewrite Hwv.
Qed.

Lemma zlen_le_int (l : list key) : zlen l <= INT32_MAX -> int64 (zlen l).
Proof. unfold int64, INT32_MAX, LLONG_MIN, LLONG_MAX. lia. Qed.

(** *** Whole-database commands *)

Lemma enter_id {B} (i : nat) lm (K : unit -> M B) D d o s Q : Inv E id0 D -> shards E D id0 !! i = Some d -> Out s0 D o s ->
  (forall s', In s0 D (Z.of_nat i + id0 * dbinum E) lm d o s' -> wp (K tt) Q s') ->
  wp (fetchInternalDbById E (Z.of_nat i) ;; (x <-- take_lock lm ;; K x)) Q s.
Proof.
  intros Hi Hd HO HK. rewrite shards_lookup in Hd by (apply Hi || apply (dok_id _ _ _ (inv_dbs _ _ _ Hi))). case_decide; [|done].
  pose proof (out_dictid _ _ _ _ HO) as Hid.
  refine (wp_bind (fetchInternalDbById E (Z.of_nat i) ;; take_lock lm) K Q s _).
  apply (wp_lock_at s0 D lm (fun s => Z.of_nat i + dictid s * dbinum E) d o); [done | by rewrite Hid | by rewrite Hid].
Qed.

Lemma dbsize_loop_done n : forall D (i : nat) count o s, Inv E id0 D -> Out s0 D o s -> (i + n = Z.to_nat (dbinum E))%nat ->
  wp (dbsize_loop E n (Z.of_nat i) count)
    (fun r s' => r = count + Z.of_nat (sum_list (size <$> (entries <$> drop i (shards E D id0)))) /\ Out s0 D o s') s.
Proof.
  induction n as [|n IH]; intros D i count o s Hi HO Hin.
  - apply wp_ret. rewrite drop_ge; [cbn; split; [lia | done] |]. unfold shards. rewrite length_take. lia.
  - assert (Hlen : length (shards E D id0) = Z.to_nat (dbinum E)).
    { unfold shards. rewrite length_take, length_drop. destruct (inv_dbs _ _ _ Hi) as [? ? ? _]. nia. }
    destruct (lookup_lt_is_Some_2 (shards E D id0) i) as [d Hd]; [lia |]. cbn [dbsize_loop]. apply (enter_id i RDLOCK _ D d o); [done.. |].
    intros s1 HI. cstep. eapply wp_the_db; [eassumption |]. cstep. eapply wp_unlock; [eassumption |]. intros s2 HO2.
    replace (<[Z.to_nat (Z.of_nat i + id0 * dbinum E) := d]> D) with D in HO2.
    2:{ symmetry. apply list_insert_id. rewrite shards_lookup in Hd by (apply Hi || apply (dok_id _ _ _ (inv_dbs _ _ _ Hi))). by case_decide. }
    replace (Z.of_nat i + 1) with (Z.of_nat (S i)) by lia. eapply wp_mono; [by apply IH; [| |lia] |]. intros r s' [-> HO']. split; [|done].
    rewrite (drop_S _ d i Hd). cbn [fmap list_fmap sum_list_with id]. rewrite size_entries. lia.
Qed.

Abbreviation empty_db := (mk_db ∅ ∅).
Abbreviation at_id i := (Z.to_nat (Z.of_nat i + id0 * dbinum E)).

Lemma flush_Inv D (i : nat) : Inv E id0 D -> Inv E id0 (<[at_id i := empty_db]> D).
Proof.
  intros [[H1 H2 H3 H4] Ho Hs]. split; [split; [done.. | by rewrite length_insert | apply Forall_insert; [done |]; intros k; cbn; by rewrite lookup_empty; intros []] | |].
  - intros j d k o Hd Hk. apply list_lookup_insert_Some in Hd as [(_ & <- & _) | [_ Hd]]; [cbn in Hk; by rewrite lookup_empty in Hk | by eapply Ho].
  - intros a b d k Ha Hb Hd Hk. apply list_lookup_insert_Some in Hd as [(_ & <- & _) | [_ Hd]]; [cbn in Hk; by rewrite lookup_empty in Hk; destruct Hk | by apply (Hs a b d k)].
Qed.

Lemma shards_insert D (i i' : nat) j : Inv E id0 D -> 0 <= j < dblnum E -> Z.of_nat i < dbinum E ->
  shards E (<[at_id i := empty_db]> D) j !! i' = if decide (j = id0 /\ i' = i) then Some empty_db else shards E D j !! i'.
Proof.
  intros Hi Hj Hib. pose proof (inv_dbs _ _ _ (flush_Inv D i Hi)) as Hf. pose proof (inv_dbs _ _ _ Hi) as Hd. destruct Hd as [H1 H2 H3 H4].
  rewrite !shards_lookup by (eapply Inv_select; [| done]; first [exact Hi | by apply flush_Inv] || lia).
  destruct (decide (Z.of_nat i' < dbinum E)) as [Hi'|].
  - destruct (decide (j = id0 /\ i' = i)) as [[-> ->] | Hne]; [apply list_lookup_insert_eq; nia |].
    apply list_lookup_insert_ne. intros Heq. apply (pos_split E) in Heq; lia.
  - rewrite decide_False by lia. done.
Qed.

Lemma flushdb_loop_done n : forall D (i : nat) o s, Inv E id0 D -> Out s0 D o s -> (i + n = Z.to_nat (dbinum E))%nat ->
  (forall i' d, (i' < i)%nat -> shards E D id0 !! i' = Some d -> d = empty_db) ->
  wp (flushdb_loop E n (Z.of_nat i)) (fun _ s' => Done D ∅ o s') s.
Proof.
  induction n as [|n IH]; intros D i o s Hi HO Hin Hempty.
  - apply wp_ret. exists D. split; [|done]. split; [done | | done]. apply map_eq. intros k. rewrite lookup_empty. apply union_none.
    intros m (d & -> & [i' Hd]%list_elem_of_lookup)%list_elem_of_fmap. rewrite (Hempty i' d); [rewrite lookup_entries; apply cell_none, lookup_empty | | done].
    apply lookup_lt_Some in Hd. unfold shards in Hd. rewrite length_take in Hd. lia.
  - assert (Hib : Z.of_nat i < dbinum E) by lia. destruct (inv_dbs _ _ _ Hi) as [H1 H2 H3 H4].
    destruct (lookup_lt_is_Some_2 D (at_id i)) as [d Hd]; [nia |]. cbn [flushdb_loop]. apply (enter_id i WRLOCK _ D d o); [done | | done |].
    { rewrite shards_lookup by (apply Hi || lia). by rewrite decide_True by lia. }
    intros s1 HI. cstep. eapply wp_the_db; [eassumption |]. cstep. eapply wp_counter_in; [eauto with vire | eassumption |]. intros s2 HI2.
    cstep. eapply wp_put_db; [eassumption |]. intros s3 HI3. cstep. eapply wp_unlock; [eassumption |]. intros s4 HO4.
    replace (Z.of_nat i + 1) with (Z.of_nat (S i)) by lia.
    eapply wp_mono; [apply (IH _ (S i) o s4 (flush_Inv D i Hi)); [done | lia |] |].
    + intros i' d' Hlt. rewrite shards_insert by done. case_decide; [by intros [= <-] |]. apply Hempty. lia.
    + intros ? s' (D' & [E1 E2 E3] & HO'). exists D'. split; [|done]. split; [done.. |]. intros j Hj Hne. rewrite E3 by done.
      unfold abs. do 2 f_equal. apply list_eq. intros i'. rewrite shards_insert by done. rewrite decide_False by tauto. done.
Qed.

Lemma abs_size D : Inv E id0 D -> size (abs E D id0) = sum_list (size <$> (entries <$> shards E D id0)).
Proof.
  intros Hi. pose proof (inv_dbs _ _ _ Hi) as Hd. destruct Hd as [H1 H2 H3 H4]. apply size_union. intros i j m m' k.
  rewrite !list_lookup_fmap, !shards_lookup by (apply Hi || lia). do 2 case_decide; try done.
  destruct (D !! at_id i) as [d|] eqn:Hdi; [|done]. destruct (D !! at_id j) as [d'|] eqn:Hdj; [|done]. cbn. intros [= <-] [= <-] Hne.
  rewrite !lookup_entries. unfold cell_of. intros Hk. destruct (dict d' !! k) eqn:Hk'; [|done].
  apply (inv_slot _ _ _ Hi id0 (Z.of_nat j) d' k) in Hdj; [|lia | lia | by eexists].
  apply (inv_slot _ _ _ Hi id0 (Z.of_nat i) d k) in Hdi; [lia | lia | lia |]. destruct (dict d !! k); [by eexists | by destruct Hk].
Qed.

(** *** All commands but SELECT *)

Lemma del_done ks D o s : zlen ks <= INT32_MAX -> Inv E id0 D -> Out s0 D o s ->
  wp (delCommand E ks) (fun _ s' => Done D (del_spec E ks (abs E D id0) 0).1 (o ++ r_int (del_spec E ks (abs E D id0) 0).2) s') s.
Proof.
  intros Hk Hi HO. unfold delCommand. cstep. eapply wp_mono; [by apply (del_loop_done ks D 0 0 o s) |]. intros [n e] s1 [Hn (D' & He & HO1)]. cbn in Hn. subst n. csimp.
  assert (Hb : forall ks m n, n <= (del_spec E ks m n).2 <= n + zlen ks).
  { clear. induction ks as [|k ks IH]; intros m n; cbn [del_spec length snd]; [lia |].
    specialize (IH (delete k m) (n + b2z (isSome (purge E (m !! k))))). destruct (isSome _); cbn [b2z] in *; lia. }
  specialize (Hb ks (abs E D id0) 0). cstep. eapply wp_replies_out; [apply replies_int; unfold int64, INT32_MAX, LLONG_MIN, LLONG_MAX in *; lia | done |].
  intros s2 HO2. destruct (_ >? 0); csteps; by exists D'.
Qed.

Lemma exists_done ks D o s : zlen ks <= INT32_MAX -> Inv E id0 D -> Out s0 D o s ->
  wp (existsCommand E ks) (fun _ s' => Done D (abs E D id0) (o ++ r_int (exists_spec E ks (abs E D id0))) s') s.
Proof.
  intros Hk Hi HO. unfold existsCommand. cstep. eapply wp_mono; [by apply (exists_loop_done ks D 0 o s) |]. intros n s1 [-> HO1]. rewrite Z.add_0_l. cstep.
  assert (exists_spec E ks (abs E D id0) <= zlen ks) by (unfold exists_spec; apply inj_le, List.filter_length_le).
  eapply wp_replies_out; [apply replies_int; unfold exists_spec in *; unfold int64, INT32_MAX, LLONG_MIN, LLONG_MAX in *; lia | done |].
  intros s2 HO2. csteps. exists D. split; [by apply Evolves_refl | done].
Qed.

Lemma replies_multi (n : Z) : 0 <= n <= INT32_MAX -> replies (addReplyMultiBulkLen n) (42 :: dec_string n ++ crlf).
Proof.
  intros Hn. unfold addReplyMultiBulkLen. destruct (n <? 32); [done |]. apply replies_prefix.
  unfold int64, INT32_MAX, LLONG_MIN, LLONG_MAX in *. lia.
Qed.

Lemma mget_done ks D o s : zlen ks <= INT32_MAX -> Inv E id0 D -> Out s0 D o s ->
  wp (mgetCommand E ks) (fun _ s' => Done D (abs E D id0)
    (o ++ (42 :: dec_string (zlen ks) ++ crlf) ++ concat (mget_one E (abs E D id0) <$> ks)) s') s.
Proof.
  intros Hk Hi HO. unfold mgetCommand. cstep. eapply wp_replies_out; [apply replies_multi; lia | done |]. intros s1 HO1.
  eapply wp_mono; [by apply mget_loop_done |]. intros ? s2 HO2. rewrite <- app_assoc in HO2. exists D. split; [by apply Evolves_refl | done].
Qed.

Lemma mset_done args D o s : values_ok args -> Inv E id0 D -> Out s0 D o s -> zlen args mod 2 <> 1 ->
  wp (msetCommand E args) (fun _ s' => Done D (mset_spec args (abs E D id0)) (o ++ shared_ok) s') s.
Proof.
  intros Hv Hi HO Hm. unfold msetCommand. zguard. cstep. eapply wp_mono; [by apply (mset_loop_done (length args)) |].
  intros n s1 (D' & He & HO1). destruct (negb (n =? 0)); csteps; by exists D'.
Qed.

Lemma flushdb_done D o s : Inv E id0 D -> Out s0 D o s -> wp (flushdbCommand E) (fun _ s' => Done D ∅ (o ++ shared_ok) s') s.
Proof.
  intros Hi HO. unfold flushdbCommand. cstep. eapply wp_mono; [apply (flushdb_loop_done _ D 0 o s); try done; intros; lia |].
  intros ? s1 (D' & He & HO1). csteps. by exists D'.
Qed.

Lemma dbsize_done D o s : Z.of_nat (size (abs E D id0)) <= LLONG_MAX -> Inv E id0 D -> Out s0 D o s ->
  wp (dbsizeCommand E) (fun _ s' => Done D (abs E D id0) (o ++ r_int (Z.of_nat (size (abs E D id0)))) s') s.
Proof.
  intros Hs Hi HO. unfold dbsizeCommand. cstep. eapply wp_mono; [by apply (dbsize_loop_done _ D 0 0 o s) |].
  intros n s1 [-> HO1]. rewrite drop_0, <- abs_size, Z.add_0_l by done.
  eapply wp_replies_out; [apply replies_int; unfold int64, LLONG_MIN in *; lia | done |]. intros s2 HO2.
  exists D. split; [by apply Evolves_refl | done].
Qed.

Lemma exec_done c D o s : args_ok c (abs E D id0) -> Inv E id0 D -> Out s0 D o s -> (forall a, c <> SELECT a) ->
  let r := spec E c id0 (abs E D id0) in
  r.1.1 = id0 /\ wp (exec E c) (fun _ s' => Done D r.1.2 (o ++ r.2) s') s.
Proof.
  intros Ha Hi HO Hc. destruct (one_spec E c) as [[k f]|] eqn:Hone.
  - assert (Hs : spec E c id0 (abs E D id0) = (id0, (one k f (abs E D id0)).1, (one k f (abs E D id0)).2))
      by (destruct c; try discriminate Hone; injection Hone as <- <-; reflexivity).
    rewrite Hs. split; [done |]. apply one_done; [by eapply one_refines | done..].
  - destruct c; try discriminate Hone; cbn [spec exec args_ok fst snd] in *; try (split; [done |]).
    + by apply del_done.
    + by apply exists_done.
    + by apply mget_done.
    + destruct (Z.eqb_spec (zlen args mod 2) 1) as [Hodd|]; csimp; (split; [done |]); [|by apply mset_done].
      unfold msetCommand. rewrite Hodd. cbn [Z.eqb Pos.eqb]. eapply wp_replies_out; [apply replies_error | done |]. intros s1 HO1.
      exists D. split; [by apply Evolves_refl | done].
    + by destruct (Hc id).
    + by apply flushdb_done.
    + by apply dbsize_done.
Qed.

End Exec.

(** ** Runs *)

(** Between commands: no lock is held and the databases are well-formed. *)
Definition Ready (E : env) (s : state) : Prop := held s = None /\ Inv E (dictid s) (dbs s).

Lemma select_ok E a s : Ready E s -> let r := spec E (SELECT a) (dictid s) (abs E (dbs s) (dictid s)) in
  exists s', exec E (SELECT a) s = Some (tt, s') /\ dbs s' = dbs s /\ held s' = None /\ dictid s' = r.1.1 /\
    Inv E (dictid s') (dbs s) /\ r.1.2 = abs E (dbs s) (dictid s) /\ out s' = out s ++ r.2.
Proof.
  intros [Hh Hi]. cbn [spec exec]. unfold selectCommand, bind. rewrite getLongFrom_run.
  destruct (parse_ll a) as [z|]; cbn [mbind option_bind].
  - unfold selectDb. rewrite Z.geb_leb. replace ((s32 z <? 0) || (dblnum E <=? s32 z)) with (negb ((0 <=? s32 z) && (s32 z <? dblnum E)))
      by (rewrite negb_andb, <- Z.ltb_antisym, <- Z.leb_antisym; done).
    destruct (_ && _) eqn:Hg; csimp.
    + zbool. eexists. split; [reflexivity |]. split_and!; try done. by eapply Inv_select.
    + pose proof (replies_error "invalid DB index" s) as Hr. eexists. split; [exact Hr |]. by split_and!.
  - eexists. split; [reflexivity |]. by split_and!.
Qed.

(** The effect of one command on the selected database and on the others. *)
Lemma exec_ok E c s : Ready E s -> args_ok c (abs E (dbs s) (dictid s)) ->
  let r := spec E c (dictid s) (abs E (dbs s) (dictid s)) in
  exists s', exec E c s = Some (tt, s') /\ Ready E s' /\ dictid s' = r.1.1 /\ out s' = out s ++ r.2 /\
    forall j, 0 <= j < dblnum E -> abs E (dbs s') j = if decide (j = dictid s) then r.1.2 else abs E (dbs s) j.
Proof.
  intros [Hh Hi] Ha. assert (Hdec : (exists a, c = SELECT a) \/ forall a, c <> SELECT a) by (destruct c; eauto).
  destruct Hdec as [[a ->] | Hc].
  - destruct (select_ok E a s (conj Hh Hi)) as (s' & H1 & H2 & H3 & H4 & H5 & H6 & H7). exists s'. split_and!; try done.
    + split; [done |]. by rewrite H2.
    + intros j Hj. rewrite H2. case_decide; [|done]. subst. by rewrite H6.
  - destruct (exec_done E s c (dbs s) [] s Ha Hi (Out_refl s Hh) Hc) as [Hid Hw]. cbv zeta in *.
    apply wp_run in Hw as ([] & s' & Hrun & (D' & [E1 E2 E3] & [H1 H2 H3 H4])). exists s'. split_and!; try done.
    + split; [done |]. by rewrite H1, H3.
    + by rewrite H3, Hid.
    + intros j Hj. rewrite H1. case_decide; [by subst | by apply E3].
Qed.

End CmdProps.
