(* ===== verification/Client.v ===== *)
(** * What a client can rely on

    Sequences of commands, each at its own time: they run to the end without a
    failed assertion, a panic or a lock misuse, and reply what the abstract key
    space says.  Then the guarantees on single keys, and two surprises. *)

From stdpp Require Import gmap strings functions.
From S2P Require Import Prelude Bytes Bits NumConv Object HashKit Bitops Keyspace KeyCmds StringCmds KeyspaceRules Cells CmdSpec CmdRefine Commands Sharding CmdProps.
Import NumConv Object HashKit Bitops Keyspace KeyCmds StringCmds KeyspaceRules Cells CmdSpec CmdRefine Commands Sharding CmdProps.

Module Client.

#[local] Open Scope vire_scope.

(** ** Timed sequences *)

Definition at_time (E : env) (t : Z) : env := mk_env (dbinum E) (dblnum E) (loading E) (is_slave E) t.

Fixpoint run (E : env) (cs : list (Z * command)) : M unit :=
  match cs with
  | [] => ret tt
  | (t, c) :: cs => exec (at_time E t) c ;; run E cs
  end.

(** The abstract run: the selected database, the key spaces, the replies. *)
Fixpoint spec_run (E : env) (cs : list (Z * command)) (id : Z) (V : Z -> kmap) : Z * (Z -> kmap) * list Z :=
  match cs with
  | [] => (id, V, [])
  | (t, c) :: cs =>
      let r := spec (at_time E t) c id (V id) in
      let r' := spec_run E cs r.1.1 (<[id := r.1.2]> V) in
      (r'.1.1, r'.1.2, r.2 ++ r'.2)
  end.

Fixpoint run_ok (E : env) (cs : list (Z * command)) (id : Z) (V : Z -> kmap) : Prop :=
  match cs with
  | [] => True
  | (t, c) :: cs =>
      args_ok c (V id) /\ let r := spec (at_time E t) c id (V id) in run_ok E cs r.1.1 (<[id := r.1.2]> V)
  end.

Lemma Inv_time E t id D : Inv E id D <-> Inv (at_time E t) id D.
Proof. split; intros [[? ? ? ?] Ho Hs]; split; [by split | exact Ho | exact Hs | by split | exact Ho | exact Hs]. Qed.

Lemma Ready_time E t s : Ready E s <-> Ready (at_time E t) s.
Proof. unfold Ready. by rewrite Inv_time. Qed.

Lemma run_refines E cs : forall s V, Ready E s -> (forall j, 0 <= j < dblnum E -> abs E (dbs s) j = V j) -> run_ok E cs (dictid s) V ->
  let r := spec_run E cs (dictid s) V in
  exists s', run E cs s = Some (tt, s') /\ Ready E s' /\ dictid s' = r.1.1 /\ out s' = out s ++ r.2 /\
    forall j, 0 <= j < dblnum E -> abs E (dbs s') j = r.1.2 j.
Proof.
  induction cs as [|[t c] cs IH]; intros s V HR HV Hok.
  { exists s. cbn. rewrite app_nil_r. by split_and!. }
  cbn [run_ok] in Hok. destruct Hok as [Ha Hok]. cbn [spec_run run]. pose proof HR as [_ Hi]. pose proof (dok_id _ _ _ (inv_dbs _ _ _ Hi)) as Hid.
  destruct (exec_ok (at_time E t) c s) as (s1 & H1 & H2 & H3 & H4 & H5); [by apply Ready_time | by rewrite <- HV in Ha |].
  change (abs (at_time E t)) with (abs E) in *. change (dblnum (at_time E t)) with (dblnum E) in *. rewrite HV in * by done.
  specialize (IH s1 (<[dictid s := (spec (at_time E t) c (dictid s) (V (dictid s))).1.2]> V)). rewrite H3 in IH.
  destruct IH as (s' & R1 & R2 & R3 & R4 & R5); [by apply Ready_time in H2 | | done |].
  { intros j Hj. rewrite (H5 j Hj). case_decide; [subst; by rewrite fn_lookup_insert | rewrite fn_lookup_insert_ne by done; by apply HV]. }
  exists s'. unfold bind. rewrite H1. cbn [mbind option_bind fst snd]. split_and!; try done. by rewrite R4, H4, app_assoc.
Qed.

(** ** The initial state *)

Definition init_state (E : env) : state := mk_state (replicate (Z.to_nat (dblnum E * dbinum E)) (mk_db ∅ ∅)) 0 0 None [] 0 0 0 0 ∅.

Lemma init_ready E : 1 <= dbinum E -> 1 <= dblnum E -> Ready E (init_state E).
Proof.
  intros H1 H2. split; [done |]. split; [split; [done | cbn; lia | cbn; rewrite length_replicate; lia |] | |]; cbn.
  - apply Forall_replicate. intros k. cbn. rewrite lookup_empty. by intros [].
  - intros i d k o [-> _]%lookup_replicate. cbn. by rewrite lookup_empty.
  - intros j i d k _ _ [-> _]%lookup_replicate. cbn. rewrite lookup_empty. by intros [].
Qed.

(** ** Sequences on one key *)

(** The entry and the replies of a sequence of commands on one key. *)
Fixpoint cell_run (E : env) (cs : list (Z * command)) (c : option entry) : option entry * list Z :=
  match cs with
  | [] => (c, [])
  | (t, x) :: cs =>
      match one_spec (at_time E t) x with
      | Some (_, f) => let r := f c in let r' := cell_run E cs r.1 in (r'.1, r.2 ++ r'.2)
      | None => (c, [])
      end
  end.

(** A one-key command on [k] with admissible arguments. *)
Definition on_key (k : key) (x : Z * command) : Prop := (exists f, one_spec (at_time (mk_env 1 1 false false 0) x.1) x.2 = Some (k, f)) /\ args_ok x.2 ∅.

Lemma on_key_spec E k t x : on_key k (t, x) -> (exists f, one_spec (at_time E t) x = Some (k, f)) /\ forall m, args_ok x m.
Proof. intros [[f Hf] Ha]. cbn [fst snd] in *. split; [destruct x; try discriminate; injection Hf as -> _; by eexists | by destruct x]. Qed.

Lemma spec_one E c id m k f : one_spec E c = Some (k, f) -> spec E c id m = (id, (one k f m).1, (one k f m).2).
Proof. intros H. destruct c; try discriminate H; injection H as <- <-; reflexivity. Qed.

Lemma run_cell E k cs : forall s, Ready E s -> Forall (on_key k) cs ->
  let r := cell_run E cs (abs E (dbs s) (dictid s) !! k) in
  exists s', run E cs s = Some (tt, s') /\ Ready E s' /\ dictid s' = dictid s /\ out s' = out s ++ r.2 /\
    abs E (dbs s') (dictid s) !! k = r.1 /\
    forall j k', 0 <= j < dblnum E -> (j, k') <> (dictid s, k) -> abs E (dbs s') j !! k' = abs E (dbs s) j !! k'.
Proof.
  induction cs as [|[t x] cs IH]; intros s HR Hcs. { exists s. cbn. rewrite app_nil_r. by split_and!. }
  apply Forall_cons in Hcs as [Hx Hcs]. destruct (on_key_spec E k t x Hx) as [[f Hf] Ha]. cbn [cell_run run]. rewrite Hf.
  pose proof HR as [_ Hi]. pose proof (dok_id _ _ _ (inv_dbs _ _ _ Hi)) as Hid.
  destruct (exec_ok (at_time E t) x s) as (s1 & H1 & H2 & H3 & H4 & H5); [by apply Ready_time | done |].
  rewrite (spec_one _ x _ _ k f Hf) in *. cbn [fst snd one] in *. change (abs (at_time E t)) with (abs E) in *.
  change (dblnum (at_time E t)) with (dblnum E) in *. apply Ready_time in H2.
  destruct (IH s1 H2 Hcs) as (s' & R1 & R2 & R3 & R4 & R5 & R6). rewrite H3 in *. rewrite (H5 (dictid s) Hid), decide_True, lookup_partial_alter_eq in * by done.
  exists s'. unfold bind. rewrite H1. cbn [mbind option_bind]. split_and!; try done; [by rewrite R4, H4, app_assoc |].
  intros j k' Hj Hne. rewrite R6, (H5 j Hj) by done. case_decide; [|done]. subst. rewrite lookup_partial_alter_ne by congruence. done.
Qed.

(** Commands that do not concern [k]: other keys, and no change of database. *)
Definition keeps (k : key) (c : command) : Prop :=
  match c with
  | SELECT _ | FLUSHDB => False
  | DEL ks => k ∉ ks
  | MSET args => k ∉ args
  | EXISTS _ | MGET _ | DBSIZE => True
  | c => forall E k' f, one_spec E c = Some (k', f) -> k' <> k
  end.

Lemma del_spec_frame E k ks : forall m n, k ∉ ks -> (del_spec E ks m n).1 !! k = m !! k.
Proof.
  induction ks as [|k' ks IH]; intros m n Hk; [done |]. apply not_elem_of_cons in Hk as [Hne Hk]. cbn [del_spec]. rewrite IH by done. by apply lookup_delete_ne.
Qed.

Lemma mset_spec_frame k n : forall args m, (length args <= n)%nat -> k ∉ args -> mset_spec args m !! k = m !! k.
Proof.
  induction n as [|n IH]; intros args m Hn Hk; (destruct args as [|k' [|v args]]; [done.. |]); [cbn in Hn; lia |].
  rewrite !not_elem_of_cons in Hk. cbn [mset_spec]. rewrite IH by (cbn in Hn; lia || tauto). apply lookup_insert_ne. intros ->. tauto.
Qed.

Lemma keeps_spec E c id m k : keeps k c -> (spec E c id m).1.1 = id /\ (spec E c id m).1.2 !! k = m !! k.
Proof.
  intros Hk. destruct (one_spec E c) as [[k' f]|] eqn:Hone.
  - rewrite (spec_one E c id m k' f Hone). cbn. split; [done |]. apply lookup_partial_alter_ne.
    destruct c; try discriminate Hone; exact (Hk E k' f Hone).
  - destruct c; try discriminate Hone; cbn [keeps spec fst snd] in *; try done.
    + split; [done |]. by apply del_spec_frame.
    + destruct (_ =? 1); cbn; split; try done. by apply (mset_spec_frame k (length args)).
Qed.

Lemma run_frame E k cs : forall s V, Ready E s -> (forall j, 0 <= j < dblnum E -> abs E (dbs s) j = V j) -> run_ok E cs (dictid s) V ->
  Forall (fun x => keeps k x.2) cs ->
  exists s' o, run E cs s = Some (tt, s') /\ Ready E s' /\ dictid s' = dictid s /\ out s' = out s ++ o /\
    abs E (dbs s') (dictid s) !! k = abs E (dbs s) (dictid s) !! k.
Proof.
  induction cs as [|[t c] cs IH]; intros s V HR HV Hok Hcs. { exists s, []. rewrite app_nil_r. by split_and!. }
  apply Forall_cons in Hcs as [Hc Hcs]. destruct Hok as [Ha Hok]. pose proof HR as [_ Hi]. pose proof (dok_id _ _ _ (inv_dbs _ _ _ Hi)) as Hid.
  destruct (exec_ok (at_time E t) c s) as (s1 & H1 & H2 & H3 & H4 & H5); [by apply Ready_time | by rewrite <- HV in Ha |].
  change (abs (at_time E t)) with (abs E) in *. change (dblnum (at_time E t)) with (dblnum E) in *. cbv zeta in Hok.
  destruct (keeps_spec (at_time E t) c (dictid s) (V (dictid s)) k Hc) as [K1 K2]. rewrite HV in * by done. rewrite K1 in *.
  destruct (IH s1 (<[dictid s := (spec (at_time E t) c (dictid s) (V (dictid s))).1.2]> V)) as (s' & o & R1 & R2 & R3 & R4 & R5).
  - by apply Ready_time in H2.
  - intros j Hj. rewrite (H5 j Hj). case_decide; [subst; by rewrite fn_lookup_insert | rewrite fn_lookup_insert_ne by done; by apply HV].
  - by rewrite H3.
  - done.
  - rewrite H3 in *. exists s'. eexists. unfold bind. cbn [run]. unfold bind. rewrite H1. cbn [mbind option_bind]. split_and!; try done.
    + by rewrite R4, H4, <- app_assoc.
    + rewrite R5, (H5 _ Hid), decide_True by done. done.
Qed.

Lemma run_app E cs1 cs2 s : run E (cs1 ++ cs2) s = '(_, s1) ← run E cs1 s; run E cs2 s1.
Proof.
  revert s. induction cs1 as [|[t c] cs1 IH]; intros s; [done |]. cbn [app run]. unfold bind. destruct (exec _ c s) as [[? s1]|]; [|done].
  cbn. apply IH.
Qed.

(** ** Guarantees *)

(** C2. Any sequence of string, bit and key commands, from any well-formed state
    and at any times, runs to its end: no assertion fails, no branch panics, no
    lock is taken twice, released unheld or missing, and none is held afterwards.
    Replies, selected database and key spaces are those of the abstract
    specification, which knows neither encodings nor internal databases.  Values
    hold at most 512 MB, DEL, EXISTS and MGET take fewer than 2^31 keys and a
    database counted by DBSIZE has fewer than 2^63.  Two cases are excluded:
    DECRBY by LLONG_MIN, whose negation overflows, and SETRANGE whose offset plus
    length exceeds LLONG_MAX and passes the size check. *)
Theorem commands_refine E cs s : Ready E s -> run_ok E cs (dictid s) (abs E (dbs s)) ->
  exists s', run E cs s = Some (tt, s') /\ Ready E s' /\
    let r := spec_run E cs (dictid s) (abs E (dbs s)) in
    dictid s' = r.1.1 /\ out s' = out s ++ r.2 /\ forall j, 0 <= j < dblnum E -> abs E (dbs s') j = r.1.2 j.
Proof.
  intros HR Hok. destruct (run_refines E cs s (abs E (dbs s)) HR ltac:(done) Hok) as (s' & H1 & H2 & H3 & H4 & H5).
  exists s'. by split_and!.
Qed.

#[local] Arguments bs : simpl never.
#[local] Arguments r_int : simpl never.
#[local] Arguments r_bulk : simpl never.
#[local] Arguments r_error : simpl never.

(** Entries without an expire time do not expire. *)
Lemma purge_forever E (v : val) : purge E (Some (v, None)) = Some (v, None).
Proof. done. Qed.

Lemma seen_forever E (v : val) : seen E (Some (v, None)) = Some (v, None).
Proof. done. Qed.

(** The unrestricted SET stores the value, whatever was there. *)
Lemma set_plain E v c : set_cmd_spec E v [] c = (Some (Str v, None), shared_ok).
Proof. unfold set_cmd_spec. cbn. unfold set_spec. done. Qed.

Lemma get_live E v e c : seen E c = Some (Str v, e) -> get_spec E c = (c, r_bulk v).
Proof. intros H. unfold get_spec, on_read. by rewrite H. Qed.

Lemma on_key_set k v t : str_arg v -> on_key k (t, SET k v []).
Proof. intros Hv. split; [by eexists | done]. Qed.

Lemma on_key_get k t : on_key k (t, GET k).
Proof. split; [by eexists | done]. Qed.

(** C16. SET then GET returns exactly the bytes stored, however they were
    encoded, after any commands in between that do not name the key, select
    another database or flush this one, at any times. *)
Theorem set_get E s k v t t' cs : Ready E s -> str_arg v ->
  Forall (fun x => keeps k x.2) cs ->
  (forall s1, run E [(t, SET k v [])] s = Some (tt, s1) -> run_ok E cs (dictid s1) (abs E (dbs s1))) ->
  exists s' o, run E ((t, SET k v []) :: cs ++ [(t', GET k)]) s = Some (tt, s') /\ Ready E s' /\
    out s' = out s ++ shared_ok ++ o ++ r_bulk v.
Proof.
  intros HR Hv Hk Hok. destruct (run_cell E k [(t, SET k v [])] s HR) as (s1 & R1 & R2 & R3 & R4 & R5 & _).
  { repeat constructor; by eexists || destruct Hv. }
  specialize (Hok s1 R1). destruct (run_frame E k cs s1 (abs E (dbs s1)) R2 ltac:(done) Hok Hk) as (s2 & o & F1 & F2 & F3 & F4 & F5).
  destruct (run_cell E k [(t', GET k)] s2 F2) as (s3 & G1 & G2 & G3 & G4 & _ & _). { repeat constructor. by eexists. }
  exists s3, o. change ((t, SET k v []) :: cs ++ [(t', GET k)]) with ([(t, SET k v [])] ++ cs ++ [(t', GET k)]).
  rewrite !run_app, R1. cbn [mbind option_bind]. rewrite run_app, F1. cbn [mbind option_bind]. rewrite G1. split_and!; try done.
  rewrite G4, F4, R4, F3, <- R3, F5. rewrite R3, R5. cbn [cell_run one_spec fst snd]. rewrite set_plain. cbn [fst snd].
  rewrite (get_live _ v None) by done. cbn [snd]. by rewrite !app_nil_r, <- !app_assoc.
Qed.

Lemma parse_dec z : int64 z -> parse_ll (dec_string z) = Some z.
Proof.
  intros Hz. unfold parse_ll. rewrite (getLongLong_spec (createRawStringObject (dec_string z)) z); [done | by apply dec_string_bytes | done..].
Qed.

Lemma dec_arg z : int64 z -> str_arg (dec_string z).
Proof. intros Hz. pose proof (dec_string_length z Hz). split; [by apply dec_string_bytes | unfold MAXLEN; lia]. Qed.

(** C21. INCRBY on a key holding [n] adds [d] exactly when the sum fits 64 bits:
    it then replies and stores the sum; otherwise it replies the overflow error
    and a GET shows the old value. *)
Theorem incrby_exact E s k n d t : Ready E s -> int64 n -> int64 d ->
  exists s', run E [(t, SET k (dec_string n) []); (t, INCRBY k (dec_string d)); (t, GET k)] s = Some (tt, s') /\
    out s' = out s ++ shared_ok ++
      (if bool_decide (int64 (n + d)) then r_int (n + d) ++ r_bulk (dec_string (n + d))
       else r_error "increment or decrement would overflow" ++ r_bulk (dec_string n)).
Proof.
  intros HR Hn Hd. destruct (run_cell E k [(t, SET k (dec_string n) []); (t, INCRBY k (dec_string d)); (t, GET k)] s HR) as (s' & R1 & _ & _ & R4 & _).
  { repeat constructor; try (by eexists); by destruct (dec_arg n Hn). }
  exists s'. split; [done |]. rewrite R4. f_equal. cbn [cell_run one_spec]. rewrite set_plain. cbn [fst snd]. f_equal.
  unfold incrby_spec, with_int. rewrite parse_dec by done. unfold incr_spec. rewrite purge_forever. cbv zeta. rewrite parse_dec by done.
  unfold int64. destruct (_ && _) eqn:Hg.
  - zbool. rewrite bool_decide_eq_true_2 by done. cbn [fst snd mbind option_bind]. rewrite (get_live _ (dec_string (n + d)) None) by done.
    by rewrite !app_nil_r.
  - rewrite bool_decide_eq_false_2 by (intros [? ?]; rewrite (proj2 (Z.leb_le _ _)), (proj2 (Z.leb_le _ _)) in Hg by done; done).
    cbn [fst snd]. rewrite (get_live _ (dec_string n) None) by done. by rewrite !app_nil_r.
Qed.

(** Expiry as a reader and a writer of a master see it. *)
Lemma expiry E t (v : val) w : is_slave E = false -> loading E = false -> 0 < w ->
  seen (at_time E t) (Some (v, Some w)) = (if t <=? w then Some (v, Some w) else None) /\
  purge (at_time E t) (Some (v, Some w)) = (if t <=? w then Some (v, Some w) else None).
Proof.
  intros Hs Hl Hw. unfold seen, dead, purge, overdue. change (ttl_of (Some (v, Some w))) with w.
  cbn [at_time loading is_slave msec_now]. rewrite Hs, Hl, !Z.gtb_ltb, (proj2 (Z.ltb_lt 0 w)), (proj2 (Z.ltb_ge w 0)) by lia.
  cbn [negb andb]. destruct (Z.ltb_spec w t), (Z.leb_spec t w); try lia; done.
Qed.

Section Expiring.
Context (E : env) (Hs : is_slave E = false) (Hl : loading E = false).
Context (k v : key) (t ms : Z) (Hv : str_arg v) (Ht : 0 <= t) (Hms : 0 < ms) (Hmax : t + ms <= LLONG_MAX).

(** A value set at [t] to live [ms] milliseconds. *)
Definition expiring : list (Z * command) := [(t, SET k v []); (t, PEXPIRE k (dec_string ms))].

Lemma expiring_on_key : Forall (on_key k) expiring.
Proof using Hv. repeat constructor; try (by eexists); by destruct Hv. Qed.

Lemma expiring_cell cs c : cell_run E (expiring ++ cs) c =
  let r := cell_run E cs (Some (Str v, Some (t + ms))) in (r.1, shared_ok ++ r_int 1 ++ r.2).
Proof using Hs Hl Hv Ht Hms Hmax.
  unfold LLONG_MAX in *. unfold expiring. cbn [app cell_run one_spec]. rewrite set_plain. cbn [fst snd].
  unfold expire_spec, with_int. rewrite parse_dec by (unfold int64, LLONG_MIN, LLONG_MAX; lia). rewrite purge_forever. cbn [to_ms at_time msec_now loading is_slave].
  rewrite swrap_small by lia. rewrite (proj2 (Z.leb_gt (ms + t) t)) by lia. cbn [andb fst snd]. by rewrite (Z.add_comm ms t).
Qed.

End Expiring.

(** C20. On a master a value given [ms] milliseconds to live is served up to
    the millisecond it expires in and never after: GET, PTTL and EXISTS then
    agree that the key is gone, and SETNX succeeds. *)
Theorem expire_lifecycle E s k v t ms t' : Ready E s -> is_slave E = false -> loading E = false -> str_arg v ->
  0 <= t -> 0 < ms -> t + ms <= LLONG_MAX -> t <= t' <= LLONG_MAX ->
  exists s', run E (expiring k v t ms ++ [(t', GET k); (t', PTTL k); (t', SETNX k [49])]) s = Some (tt, s') /\
    out s' = out s ++ shared_ok ++ r_int 1 ++
      (if t' <=? t + ms then r_bulk v ++ r_int (t + ms - t') ++ r_int 0 else r_null ++ r_int (-2) ++ r_int 1).
Proof.
  intros HR Hs Hl Hv Ht Hms Hmax Ht'.
  destruct (run_cell E k (expiring k v t ms ++ [(t', GET k); (t', PTTL k); (t', SETNX k [49])]) s HR) as (s' & R1 & _ & _ & R4 & _).
  { apply Forall_app. split; [by apply expiring_on_key |]. repeat constructor; try (by eexists); unfold MAXLEN; cbn; lia. }
  exists s'. split; [done |]. rewrite R4. f_equal. rewrite expiring_cell by done. cbn [snd]. do 2 f_equal.
  destruct (expiry E t' (Str v) (t + ms) Hs Hl ltac:(lia)) as [H1 H2]. cbn [cell_run one_spec].
  unfold get_spec, on_read, ttl_spec, set_spec. cbn [fst snd]. rewrite H1, H2. unfold LLONG_MAX in *. destruct (Z.leb_spec t' (t + ms)).
  - cbn [fst snd on_string isSome negb orb andb NX XX OBJ_SET_NX at_time msec_now]. change (ttl_of (Some (Str v, Some (t + ms)))) with (t + ms).
    rewrite swrap_small by lia. rewrite (proj2 (Z.eqb_neq (t + ms) (-1))), Z.max_r by lia. by rewrite app_nil_r.
  - cbn [fst snd isSome negb orb andb NX XX OBJ_SET_NX]. by rewrite app_nil_r.
Qed.

(** *** Bits *)

Lemma nth_grown (t : list Z) i n : nth i (t ++ replicate n 0) 0 = nth i t 0.
Proof.
  destruct (decide (i < length t)%nat); [by rewrite app_nth1 |]. rewrite app_nth2, (nth_overflow t) by lia.
  destruct (decide (i - length t < n)%nat); [|by rewrite nth_overflow by (rewrite length_replicate; lia)].
  apply (nth_lookup_Some (replicate n 0)). apply lookup_replicate_2. done.
Qed.

Lemma put_byte_bit_spec i b x j : 0 <= i -> 0 <= j -> Z.testbit (put_byte_bit i b x) j = if j =? i then b else Z.testbit x j.
Proof.
  intros Hi Hj. unfold put_byte_bit. destruct b.
  - rewrite Z.setbit_eqb by done. rewrite (Z.eqb_sym i j). by destruct (j =? i).
  - rewrite Z.clearbit_eqb. rewrite (Z.eqb_sym i j). destruct (j =? i); [apply andb_false_r | apply andb_true_r].
Qed.

Lemma get_set_bit t n b m : 0 <= n -> 0 <= m -> get_bit (set_bit t n b) m = if m =? n then b else get_bit t m.
Proof.
  intros Hn Hm. unfold get_bit, set_bit. set (g := t ++ _). assert (Hlen : (Z.to_nat (n / 8) < length g)%nat) by (unfold g; len).
  pose proof (Z.mod_pos_bound n 8 ltac:(lia)). pose proof (Z.mod_pos_bound m 8 ltac:(lia)).
  pose proof (Z.div_mod n 8 ltac:(lia)) as Dn. pose proof (Z.div_mod m 8 ltac:(lia)) as Dm.
  pose proof (Z.div_pos n 8 Hn ltac:(lia)). pose proof (Z.div_pos m 8 Hm ltac:(lia)).
  destruct (decide (m / 8 = n / 8)) as [He | Hne].
  - rewrite He. destruct (lookup_lt_is_Some_2 g (Z.to_nat (n / 8)) Hlen) as [x Hx].
    erewrite nth_lookup_Some by (rewrite list_lookup_alter_eq, Hx; reflexivity). rewrite put_byte_bit_spec by lia.
    rewrite <- (nth_grown t _ (Z.to_nat (n / 8) + 1 - length t)). fold g. rewrite (nth_lookup_Some _ _ 0 _ Hx).
    destruct (Z.eqb_spec (7 - m mod 8) (7 - n mod 8)), (Z.eqb_spec m n); try lia; done.
  - rewrite (proj2 (Z.eqb_neq m n)) by (intros ->; done). rewrite <- (nth_grown t _ (Z.to_nat (n / 8) + 1 - length t)). fold g.
    f_equal. rewrite !nth_lookup. f_equal. apply list_lookup_alter_ne. lia.
Qed.

Lemma offset_dec n : 0 <= n < 8 * MAXLEN -> int64 n /\ string2ll (dec_string n) = Some n.
Proof. intros Hn. unfold MAXLEN in Hn. assert (int64 n) by (unfold int64, LLONG_MIN, LLONG_MAX; lia). split; [done | by apply string2ll_complete]. Qed.

Lemma with_offset_dec f n c : 0 <= n < 8 * MAXLEN -> with_offset (dec_string n) f c = f n c.
Proof. intros Hn. unfold with_offset. rewrite (proj2 (offset_dec n Hn)). by repeat zguard. Qed.

(** C23. SETBIT replies the old bit, and a later GETBIT sees the new bit at that
    offset and the old string everywhere else, also past its end. *)
Theorem setbit_getbit E s k v n (b : bool) m t : Ready E s -> str_arg v -> 0 <= n < 8 * MAXLEN -> 0 <= m < 8 * MAXLEN ->
  exists s', run E [(t, SET k v []); (t, SETBIT k (dec_string n) (dec_string (b2z b))); (t, GETBIT k (dec_string m))] s = Some (tt, s') /\
    out s' = out s ++ shared_ok ++ r_int (b2z (get_bit v n)) ++ r_int (b2z (if m =? n then b else get_bit v m)).
Proof.
  intros HR Hv Hn Hm.
  destruct (run_cell E k [(t, SET k v []); (t, SETBIT k (dec_string n) (dec_string (b2z b))); (t, GETBIT k (dec_string m))] s HR) as (s' & R1 & _ & _ & R4 & _).
  { repeat constructor; try (by eexists); by destruct Hv. }
  exists s'. split; [done |]. rewrite R4. f_equal. cbn [cell_run one_spec]. rewrite set_plain. cbn [fst snd]. f_equal.
  unfold setbit_spec, getbit_spec. rewrite !with_offset_dec by done. unfold with_int. rewrite parse_dec by (by destruct b).
  rewrite purge_forever. replace (negb ((b2z b =? 0) || (b2z b =? 1))) with false by by destruct b. unfold on_read. cbn [fst snd].
  rewrite seen_forever. cbn [fst snd on_string]. rewrite get_set_bit by lia. replace (b2z b =? 1) with b by by destruct b. by rewrite app_nil_r.
Qed.

(** *** APPEND and ranges *)

Lemma range_all t : range t 0 (-1) = t.
Proof.
  unfold range, sub, clip_start, clip_end. cbn [Z.ltb Z.compare]. rewrite Z.geb_leb.
  destruct (Z.ltb_spec (zlen t + -1) 0), t as [|x t]; cbn [length] in *; try lia; [done |].
  rewrite (proj2 (Z.leb_gt _ _)) by lia. rewrite firstn_all2; [done | rewrite length_drop; cbn [length]; lia].
Qed.

(** C24. APPEND concatenates and replies the new length, and the range from the
    first to the last byte is the whole string; beyond 512 MB it refuses and the
    string stays. *)
Theorem append_getrange E s k a b t : Ready E s -> str_arg a -> str_arg b ->
  exists s', run E [(t, SET k a []); (t, APPEND k b); (t, GETRANGE k (dec_string 0) (dec_string (-1)))] s = Some (tt, s') /\
    out s' = out s ++ shared_ok ++
      (if zlen (a ++ b) <=? MAXLEN then r_int (zlen (a ++ b)) ++ r_bulk (a ++ b) else r_toolong ++ r_bulk a).
Proof.
  intros HR Ha Hb.
  destruct (run_cell E k [(t, SET k a []); (t, APPEND k b); (t, GETRANGE k (dec_string 0) (dec_string (-1)))] s HR) as (s' & R1 & _ & _ & R4 & _).
  { repeat constructor; try (by eexists); by destruct Ha, Hb. }
  exists s'. split; [done |]. rewrite R4. f_equal. cbn [cell_run one_spec]. rewrite set_plain. cbn [fst snd]. f_equal.
  unfold append_spec, getrange_spec, with_int. rewrite purge_forever, !parse_dec by done. unfold on_read. cbn [fst snd]. rewrite Z.gtb_ltb.
  destruct (Z.ltb_spec MAXLEN (zlen (a ++ b))), (Z.leb_spec (zlen (a ++ b)) MAXLEN); try lia; cbn [fst snd];
    rewrite seen_forever; cbn [on_string fst snd]; by rewrite range_all, app_nil_r.
Qed.

(** C39. PERSIST looks at the table without checking expiry: a value that GET no
    longer serves comes back to life. *)
Theorem persist_revives E s k v t ms t' : Ready E s -> is_slave E = false -> loading E = false -> str_arg v ->
  0 <= t -> 0 < ms -> t + ms < t' -> t' <= LLONG_MAX ->
  exists s', run E (expiring k v t ms ++ [(t', GET k); (t', PERSIST k); (t', GET k)]) s = Some (tt, s') /\
    out s' = out s ++ shared_ok ++ r_int 1 ++ r_null ++ r_int 1 ++ r_bulk v.
Proof.
  intros HR Hs Hl Hv Ht Hms Hmax Ht'.
  destruct (run_cell E k (expiring k v t ms ++ [(t', GET k); (t', PERSIST k); (t', GET k)]) s HR) as (s' & R1 & _ & _ & R4 & _).
  { apply Forall_app. split; [by apply expiring_on_key |]. repeat constructor; by eexists. }
  exists s'. split; [done |]. rewrite R4. f_equal. rewrite expiring_cell by (done || unfold LLONG_MAX in *; lia). cbn [snd]. do 2 f_equal.
  destruct (expiry E t' (Str v) (t + ms) Hs Hl ltac:(lia)) as [H1 _]. cbn [cell_run one_spec].
  unfold get_spec, on_read, persist_spec. cbn [fst snd]. rewrite H1, seen_forever, (proj2 (Z.leb_gt t' (t + ms))) by lia.
  cbn [fst snd on_string]. by rewrite app_nil_r.
Qed.

(** SELECT narrows its argument to an [int] before the range check: index
    2^32 is accepted and selects database 0. *)
Theorem select_narrows E s : Ready E s -> exists s', run E [(0, SELECT (dec_string 4294967296))] s = Some (tt, s') /\
  dictid s' = 0 /\ out s' = out s ++ shared_ok.
Proof.
  intros HR. destruct (exec_ok (at_time E 0) (SELECT (dec_string 4294967296)) s) as (s' & H1 & _ & H3 & H4 & _); [by apply Ready_time | done |].
  exists s'. cbn [run]. unfold bind. rewrite H1. split; [done |]. rewrite H3, H4. cbn [spec]. rewrite parse_dec by done.
  change (s32 4294967296) with 0. pose proof (dok_id _ _ _ (inv_dbs _ _ _ (proj2 HR))). cbn [dblnum at_time].
  rewrite (proj2 (Z.ltb_lt 0 (dblnum E))) by lia. done.
Qed.

(** ** Instances *)

Module Example_client.

(** A server of three internal databases per logical one. *)
Definition E0 : env := mk_env 3 16 false false 0.
Definition s_init : state := init_state E0.

Lemma ready0 : Ready E0 s_init.
Proof. by apply init_ready. Qed.

Definition kx : key := bs "x".
Definition ky : key := bs "y".

Lemma str_ok0 v : bool_decide (Forall (fun b => 0 <= b < 256) v /\ zlen v <= MAXLEN) = true -> str_arg v.
Proof. apply bool_decide_eq_true_1. Qed.

Definition script : list (Z * command) :=
  [(10, SET kx (bs "12") []); (11, APPEND kx (bs "3")); (12, INCR kx); (13, MSET [ky; bs "a"; kx; bs "b"]);
   (14, DEL [kx; kx]); (15, SELECT (bs "3")); (16, MGET [kx; ky])].

Lemma script_ok : run_ok E0 script (dictid s_init) (abs E0 (dbs s_init)).
Proof. cbn [run_ok script args_ok]. repeat split; try (by apply str_ok0; vm_compute); by vm_compute. Qed.

Lemma commands_refine_witness : exists s', run E0 script s_init = Some (tt, s') /\ Ready E0 s' /\
  out s' = bs "+OK" ++ crlf ++ bs ":3" ++ crlf ++ bs ":124" ++ crlf ++ bs "+OK" ++ crlf ++ bs ":1" ++ crlf ++ bs "+OK" ++ crlf ++
    bs "*2" ++ crlf ++ bs "$-1" ++ crlf ++ bs "$-1" ++ crlf.
Proof.
  destruct (commands_refine E0 script s_init ready0 script_ok) as (s' & H1 & H2 & _ & H4 & _).
  exists s'. split; [exact H1 |]. split; [exact H2 |]. rewrite H4. vm_compute. reflexivity.
Defined.

Definition between : list (Z * command) := [(2, SET ky kx []); (3, DEL [ky])].

Lemma set_get_witness : exists s' o, run E0 ((1, SET kx (bs "-5") []) :: between ++ [(9, GET kx)]) s_init = Some (tt, s') /\ Ready E0 s' /\
  out s' = out s_init ++ shared_ok ++ o ++ r_bulk (bs "-5").
Proof.
  apply (set_get E0 s_init kx (bs "-5") 1 9 between ready0).
  - apply str_ok0. vm_compute. reflexivity.
  - apply Forall_cons. split; [intros E k' f [= <- _]; discriminate |]. apply Forall_cons. split; [|by apply Forall_nil].
    apply (bool_decide_unpack _). vm_compute. exact I.
  - intros s1 _. cbn [run_ok between args_ok]. split; [apply str_ok0; vm_compute; reflexivity |]. split; [cbn; unfold INT32_MAX; lia | exact I].
Defined.

Lemma incrby_exact_witness : exists s', run E0 [(1, SET kx (dec_string 9223372036854775807) []); (1, INCRBY kx (dec_string 1)); (1, GET kx)] s_init = Some (tt, s') /\
  out s' = shared_ok ++ r_error "increment or decrement would overflow" ++ r_bulk (dec_string 9223372036854775807).
Proof. apply (incrby_exact E0 s_init kx 9223372036854775807 1 1 ready0); unfold int64, LLONG_MIN, LLONG_MAX; lia. Defined.

Lemma expire_lifecycle_witness : exists s', run E0 (expiring kx (bs "v") 1000 50 ++ [(1051, GET kx); (1051, PTTL kx); (1051, SETNX kx [49])]) s_init = Some (tt, s') /\
  out s' = shared_ok ++ r_int 1 ++ r_null ++ r_int (-2) ++ r_int 1.
Proof.
  apply (expire_lifecycle E0 s_init kx (bs "v") 1000 50 1051 ready0); [done | done | apply str_ok0; vm_compute; reflexivity | | | |]; unfold LLONG_MAX; lia.
Defined.

Lemma persist_revives_witness : exists s', run E0 (expiring kx (bs "v") 1000 50 ++ [(1051, GET kx); (1051, PERSIST kx); (1051, GET kx)]) s_init = Some (tt, s') /\
  out s' = shared_ok ++ r_int 1 ++ r_null ++ r_int 1 ++ r_bulk (bs "v").
Proof.
  apply (persist_revives E0 s_init kx (bs "v") 1000 50 1051 ready0); [done | done | apply str_ok0; vm_compute; reflexivity | | | |]; unfold LLONG_MAX; lia.
Defined.

Lemma setbit_getbit_witness : exists s', run E0 [(1, SET kx (bs "a") []); (1, SETBIT kx (dec_string 100) (dec_string (b2z true))); (1, GETBIT kx (dec_string 1))] s_init = Some (tt, s') /\
  out s' = shared_ok ++ r_int 0 ++ r_int 1.
Proof.
  apply (setbit_getbit E0 s_init kx (bs "a") 100 true 1 1 ready0); [apply str_ok0; vm_compute; reflexivity | unfold MAXLEN; lia | unfold MAXLEN; lia].
Defined.

Lemma append_getrange_witness : exists s', run E0 [(1, SET kx (bs "12") []); (1, APPEND kx (bs "ab")); (1, GETRANGE kx (dec_string 0) (dec_string (-1)))] s_init = Some (tt, s') /\
  out s' = shared_ok ++ r_int 4 ++ r_bulk (bs "12ab").
Proof. apply (append_getrange E0 s_init kx (bs "12") (bs "ab") 1 ready0); apply str_ok0; vm_compute; reflexivity. Defined.

Lemma select_narrows_witness : exists s', run E0 [(0, SELECT (dec_string 4294967296))] s_init = Some (tt, s') /\
  dictid s' = 0 /\ out s' = shared_ok.
Proof. apply (select_narrows E0 s_init ready0). Defined.

End Example_client.

End Client.
