(* ===== verification/Sequences.v ===== *)
(** * Families of commands on the abstract key space

    An interface: a family of commands with a meaning on worlds, and the
    promise that every command keeps the relation between states and worlds.
    What follows from it for sequences of commands is proved once, for each
    family and for families put together. *)

From stdpp Require Import gmap strings.
From S2P Require Import Prelude Bytes HashKit Keyspace Values KeyspaceRules Cells CmdSpec Commands World Client.
Import HashKit Keyspace Values KeyspaceRules Cells World.
Import Commands(str_arg) Client(init_state, at_time).

Module Sequences.

#[local] Open Scope vire_scope.

(** ** How one command ends *)

Section Ends.
Context (C : valenv).
Implicit Types (E : env) (W : world) (s : state).

(** A command that replaces the entry of [k], and one that reads it. *)
Definition writes W (id : Z) (k : list Z) (x : acell * list Z) W' (r : list Z) : Prop := W' = wupd W id k x.1 /\ r = x.2.
Definition reads W (x : list Z) W' (r : list Z) : Prop := W' = W /\ r = x.

Lemma wp_writes E s W k (x : acell * list Z) (m : M unit) : wp m (fun _ s' => Ends E C s (wupd W (dictid s) k x.1) x.2 s') s ->
  wp m (fun _ s' => exists W' r, Ends E C s W' r s' /\ writes W (dictid s) k x W' r) s.
Proof. intros Hm. eapply wp_mono; [exact Hm |]. intros ? s' HE. eexists _, _. split; [exact HE | by split]. Qed.

Lemma wp_reads E s W (x : list Z) (m : M unit) : wp m (fun _ s' => Ends E C s W x s') s -> wp m (fun _ s' => exists W' r, Ends E C s W' r s' /\ reads W x W' r) s.
Proof. intros Hm. eapply wp_mono; [exact Hm |]. intros ? s' HE. eexists _, _. split; [exact HE | by split]. Qed.

Lemma wp_reads_any E s W (P : list Z -> Prop) (m : M unit) : wp m (fun _ s' => exists r, Ends E C s W r s' /\ P r) s ->
  wp m (fun _ s' => exists W' r, Ends E C s W' r s' /\ W' = W /\ P r) s.
Proof. intros Hm. eapply wp_mono; [exact Hm |]. intros ? s' (r & HE & Hr). eauto. Qed.

End Ends.

(** ** The interface *)

(** [cexec] is the handler; [cargs] is what it needs of its arguments in the
    world [W], [cspec] the worlds and replies it may end with. *)
Class Family (C : valenv) (X : Type) := {
  cexec : env -> X -> M unit;
  cargs : env -> X -> world -> Z -> Prop;
  cspec : env -> X -> world -> Z -> world -> list Z -> Prop;
  cexec_ok : forall E c s W, ValInv E C s W -> cargs E c W (dictid s) ->
    wp (cexec E c) (fun _ s' => exists W' r, Ends E C s W' r s' /\ cspec E c W (dictid s) W' r) s
}.

(** Two families together. *)
Section Sum.
Context (C : valenv) {X Y : Type} `{!Family C X, !Family C Y}.

Definition sum_exec (E : env) (c : X + Y) : M unit := match c with inl c => cexec E c | inr c => cexec E c end.
Definition sum_args (E : env) (c : X + Y) : world -> Z -> Prop := match c with inl c => cargs E c | inr c => cargs E c end.
Definition sum_spec (E : env) (c : X + Y) : world -> Z -> world -> list Z -> Prop := match c with inl c => cspec E c | inr c => cspec E c end.

Lemma sum_exec_ok E c s W : ValInv E C s W -> sum_args E c W (dictid s) ->
  wp (sum_exec E c) (fun _ s' => exists W' r, Ends E C s W' r s' /\ sum_spec E c W (dictid s) W' r) s.
Proof using. destruct c; apply cexec_ok. Qed.

#[export] Instance family_sum : Family C (X + Y) := { cexec := sum_exec; cargs := sum_args; cspec := sum_spec; cexec_ok := sum_exec_ok }.
End Sum.

Section Run.
Context (C : valenv) {X : Type} `{!Family C X}.
Implicit Types (E : env) (W : world) (s : state).

(** Commands with the time they are run at. *)
Fixpoint srun E (cs : list (Z * X)) : M unit :=
  match cs with
  | [] => ret tt
  | (t, c) :: cs => cexec (at_time E t) c ;; srun E cs
  end.

Fixpoint sruns E (id : Z) (cs : list (Z * X)) W W' (r : list Z) : Prop :=
  match cs with
  | [] => W' = W /\ r = []
  | (t, c) :: cs => exists W1 r1 r2, cspec (at_time E t) c W id W1 r1 /\ sruns E id cs W1 W' r2 /\ r = r1 ++ r2
  end.

Fixpoint sok E (id : Z) (cs : list (Z * X)) W : Prop :=
  match cs with
  | [] => True
  | (t, c) :: cs => cargs (at_time E t) c W id /\ forall W' r, cspec (at_time E t) c W id W' r -> sok E id cs W'
  end.

(** The invariant does not depend on the clock. *)
Lemma ValInv_time E t s W : ValInv E C s W <-> ValInv (at_time E t) C s W.
Proof using. split; intros [Hh [[H1 H2 H3 H4] H5 H6]]; (split; [done |]); (split; [by split | exact H5 | exact H6]). Qed.

Lemma srun_ok E cs : forall s W, ValInv E C s W -> sok E (dictid s) cs W ->
  exists s' W' r, srun E cs s = Some (tt, s') /\ ValInv E C s' W' /\ sruns E (dictid s) cs W W' r /\ out s' = out s ++ r /\ dictid s' = dictid s.
Proof using.
  induction cs as [|[t c] cs IH]; intros s W HI Hok; cbn [srun sruns sok] in *.
  { exists s, W, []. by rewrite app_nil_r. }
  destruct Hok as [Ha Hok]. destruct (wp_run _ _ _ (cexec_ok (at_time E t) c s W (proj1 (ValInv_time E t s W) HI) Ha)) as ([] & s1 & Hrun & W1 & r1 & (HI1 & Ho1 & Hid1) & Hspec).
  apply ValInv_time in HI1.
  destruct (IH s1 W1 HI1) as (s' & W' & r2 & Hrun2 & HI2 & Hr2 & Ho2 & Hid2); [rewrite Hid1; eauto |]. rewrite Hid1 in *.
  exists s', W', (r1 ++ r2). unfold bind. rewrite Hrun. cbn. split_and!; [done | done | eauto 6 | by rewrite Ho2, Ho1, app_assoc | done].
Qed.

Definition nothing : world := fun _ _ => None.

Lemma init_inv E : 1 <= dbinum E -> 1 <= dblnum E -> ValInv E C (init_state E) nothing.
Proof using.
  intros H1 H2. pose proof (Client.init_ready E H1 H2) as [Hh [Hdb _ _]]. split; [done |].
  assert (Hget : forall id k, getcell E id k (dbs (init_state E)) = None).
  { intros id k. unfold getcell. cbn. destruct (replicate _ _ !! _) as [d|] eqn:Hd; [|done]. apply lookup_replicate in Hd as [-> _]. done. }
  split; [done | intros id k Hr; by rewrite Hget | intros i1 k1 i2 k2 p Hr1 Hr2; by rewrite Hget].
Qed.
End Run.

(** ** Concrete arguments *)

Lemma str_arg_ok v : bool_decide (Forall (fun b => 0 <= b < 256) v /\ zlen v <= CmdSpec.MAXLEN) = true -> str_arg v.
Proof. apply bool_decide_eq_true_1. Qed.

Lemma strs_ok l : forallb (fun v => bool_decide (Forall (fun b => 0 <= b < 256) v /\ zlen v <= CmdSpec.MAXLEN)) l = true -> Forall str_arg l.
Proof. intros H. apply Forall_forall. intros v Hv. apply str_arg_ok. rewrite forallb_forall in H. apply H. by apply list_elem_of_In. Qed.

End Sequences.
