(* ===== verification/SetServer.v ===== *)
(** * The set commands together

    The family of set commands on the abstract key space, and what SDIFF does
    when it chooses its second algorithm. *)

From stdpp Require Import gmap strings.
From S2P Require Import Prelude Bytes Bits NumConv Object HashKit Intset SetType SetProps Keyspace Values KeyspaceRules Cells ValueRules CmdSpec Commands Sharding SetCmds SetRules World SetWorld SetRefine SetAlgebra Client Sequences.
Import NumConv Object HashKit Keyspace Values KeyspaceRules Cells ValueRules.
Import Intset(INTSET_MAX) Commands(str_arg) Client(init_state, at_time).
Import SetProps SetCmds World SetWorld SetRefine SetAlgebra Sequences.

Module SetServer.

#[local] Open Scope vire_scope.

(** The commands, the set algebra with the optional destination of its storing
    forms. *)
Inductive scmd :=
  | SADD (k : list Z) (args : list (list Z))
  | SREM (k : list Z) (args : list (list Z))
  | SISMEMBER (k b : list Z)
  | SCARD (k : list Z)
  | SMEMBERS (k : list Z)
  | SUNION (dst : option (list Z)) (ks : list (list Z))
  | SINTER (dst : option (list Z)) (ks : list (list Z))
  | SDIFF (dst : option (list Z)) (ks : list (list Z)).

Section Server.
Context (C : valenv).
Implicit Types (E : env) (W : world) (s : state).

Definition sexec E (c : scmd) : M unit :=
  match c with
  | SADD k args => saddCommand E C k args
  | SREM k args => sremCommand E C k args
  | SISMEMBER k b => sismemberCommand E C k b
  | SCARD k => scardCommand E k
  | SMEMBERS k => smembersCommand E C k
  | SUNION None ks => sunionCommand E C ks
  | SUNION (Some d) ks => sunionstoreCommand E C d ks
  | SINTER None ks => sinterCommand E C ks
  | SINTER (Some d) ks => sinterstoreCommand E C d ks
  | SDIFF None ks => sdiffCommand E C ks
  | SDIFF (Some d) ks => sdiffstoreCommand E C d ks
  end.

(** Arguments a request can carry, sets below the limit of the intset, and the
    first algorithm for SDIFF. *)
Definition sargs E (c : scmd) W (id : Z) : Prop :=
  match c with
  | SADD k args => args <> [] /\ Forall str_arg args /\ room E (W id k) (zlen args)
  | SREM k args => Forall str_arg args /\ room E (W id k) 0
  | SISMEMBER _ b => str_arg b
  | SCARD _ | SMEMBERS _ => True
  | SUNION _ ks => zlen ks < 2 ^ 31 /\ forall Xs, mapM (opd E W id) ks = Some Xs -> total Xs < INTSET_MAX
  | SINTER _ ks => ks <> [] /\ Forall (fun k => forall X, opd E W id k = Some (Some X) -> Z.of_nat (card X) + 1 < INTSET_MAX) ks
  | SDIFF _ ks => ks <> [] /\ zlen ks <= 2 ^ 31 /\ forall Xs, mapM (opd E W id) ks = Some Xs -> total Xs + 1 < INTSET_MAX /\ algo1 Xs = true
  end.

(** The new world and the reply; the order of members in a reply is free. *)
Definition sspec E (c : scmd) W (id : Z) W' (r : list Z) : Prop :=
  match c with
  | SADD k args => let x := sadd_spec E args (W id k) in W' = wupd W id k x.1 /\ r = x.2
  | SREM k args => let x := srem_spec E args (W id k) in W' = wupd W id k x.1 /\ r = x.2
  | SISMEMBER k b => W' = W /\ r = sismember_spec E b (W id k)
  | SCARD k => W' = W /\ r = scard_spec E (W id k)
  | SMEMBERS k => W' = W /\ smembers_spec E (W id k) r
  | SUNION dst ks =>
      match mapM (opd E W id) ks with
      | None => W' = W /\ r = r_wrong
      | Some Xs => result dst (unions Xs) W id W' r
      end
  | SINTER dst ks =>
      match scan E W id ks with
      | WrongType => W' = W /\ r = r_wrong
      | Missing => result dst ∅ W id W' r
      | AllSets Xs => result dst (inters Xs) W id W' r
      end
  | SDIFF dst ks =>
      match mapM (opd E W id) ks with
      | None => W' = W /\ r = r_wrong
      | Some Xs => result dst (difference_of Xs) W id W' r
      end
  end.

Lemma sexec_ok E c s W : ValInv E C s W -> sargs E c W (dictid s) ->
  wp (sexec E c) (fun _ s' => exists W' r, Ends E C s W' r s' /\ sspec E c W (dictid s) W' r) s.
Proof.
  intros HI Ha. destruct c as [k args | k args | k b | k | k | dst ks | dst ks | dst ks]; cbn [sexec sargs sspec] in *.
  - destruct Ha as (Hne & Hargs & Hroom). eapply wp_mono; [by apply sadd_ok |]. intros ? s' HE. eexists _, _. split; [exact HE | by split].
  - destruct Ha as [Hargs Hroom]. eapply wp_mono; [by apply srem_ok |]. intros ? s' HE. eexists _, _. split; [exact HE | by split].
  - eapply wp_mono; [by apply sismember_ok |]. intros ? s' HE. eexists _, _. split; [exact HE | by split].
  - eapply wp_mono; [by apply scard_ok |]. intros ? s' HE. eexists _, _. split; [exact HE | by split].
  - eapply wp_mono; [by apply smembers_ok |]. intros ? s' (r & HE & Hr). eauto.
  - destruct Ha as [Hks Htot]. pose proof (sunion_ok E C s W ks dst HI Hks Htot) as Hok. destruct dst; exact Hok.
  - destruct Ha as [Hne Hcard]. rewrite Forall_forall in Hcard. pose proof (sinter_ok E C s W ks dst HI Hne Hcard) as Hok. destruct dst; exact Hok.
  - destruct Ha as (Hne & Hks & Htot). destruct ks as [|k ks]; [done |].
    assert (Hok : wp (sunionDiffGenericCommand E C (k :: ks) dst SET_OP_DIFF) (fun _ s' => exists W' r, Ends E C s W' r s' /\
      match mapM (opd E W (dictid s)) (k :: ks) with None => W' = W /\ r = r_wrong | Some Xs => result dst (difference_of Xs) W (dictid s) W' r end) s).
    { eapply wp_mono; [apply sdiff_ok; [done | simpl length in Hks; lia | by intros Xs HXs; apply Htot] |]. intros ? s' (W' & r & HE & Hr). exists W', r. split; [done |].
      destruct (mapM (opd E W (dictid s)) (k :: ks)) as [Xs|] eqn:HXs; [|done]. destruct (Htot Xs eq_refl) as [_ Hal]. by rewrite Hal in Hr. }
    destruct dst; exact Hok.
Qed.

#[export] Instance set_family : Family C scmd := { cexec := sexec; cargs := sargs; cspec := sspec; cexec_ok := sexec_ok }.

(** C36. SDIFF computes nothing when it chooses its second algorithm (half of the
    product of the first set's size and the number of sets exceeds the sum of
    the sizes): every round of the loop looks up the first key again, so the
    second round removes the first set from its own copy and the reply is the
    empty list, whatever the difference is. *)
Theorem sdiff_second_algorithm_empty E s W k ks Xs : ValInv E C s W -> zlen ks < 2 ^ 31 -> mapM (opd E W (dictid s)) (k :: ks) = Some Xs ->
  total Xs + 1 < INTSET_MAX -> algo1 Xs = false ->
  exists s', sdiffCommand E C (k :: ks) s = Some (tt, s') /\ ValInv E C s' W /\ out s' = out s ++ bs "*0" ++ crlf.
Proof.
  intros HI Hks HXs Htot Hal. destruct (wp_run _ _ _ (sdiff_ok E C s W k ks None HI Hks ltac:(by rewrite HXs; intros ? [= <-]))) as ([] & s' & Hrun & W' & r & (HI' & Ho & _) & Hr).
  rewrite HXs, Hal in Hr. destruct Hr as (-> & l & [Hnd Hl] & ->). exists s'. split_and!; [done | done |]. rewrite Ho.
  destruct l as [|b l]; [done |]. exfalso. assert (b ∈ (list_to_set (b :: l) : gset (list Z))) by set_solver. rewrite Hl in *. set_solver.
Qed.

End Server.

(** ** Instances *)

Module Example_sets.

Definition E0 : env := mk_env 3 16 false false 0.

(** At most two members in an integer set. *)
Definition C0 : valenv := mk_valenv (fun _ => 170) 5381 true 2 2 64 0x1000 0x2000 (fun _ => 0) (-2) 0 3000.

Definition ka : list Z := bs "a".
Definition kb : list Z := bs "b".
Definition kc : list Z := bs "c".

(** Ten members, and two sets of one member each: the difference has eight. *)
Definition setup : list (Z * scmd) := [(1, SADD ka (dec_string <$> seqZ 0 10)); (2, SADD kb [bs "1"]); (3, SADD kc [bs "2"])].

Lemma setup_ok : sok C0 E0 0 setup nothing.
Proof.
  cbn [sok setup cargs cspec set_family sargs sspec]. split; [split_and!; [done | by apply strs_ok; vm_compute | by vm_compute] |]. intros W1 r1 [-> _].
  split; [split_and!; [done | by apply strs_ok | done] |]. intros W2 r2 [-> _]. split; [split_and!; [done | by apply strs_ok | done] |]. done.
Qed.

Definition diff_world : world :=
  let add t k l W := wupd W 0 k (sadd_spec (at_time E0 t) l (W 0 k)).1 in
  add 3 kc [bs "2"] (add 2 kb [bs "1"] (add 1 ka (dec_string <$> seqZ 0 10) nothing)).

Lemma diff_inv : exists s, srun C0 E0 setup (init_state E0) = Some (tt, s) /\ ValInv E0 C0 s diff_world /\ dictid s = 0.
Proof.
  destruct (srun_ok C0 E0 setup (init_state E0) nothing) as (s & W & r & Hrun & HI & Hs & _ & Hid); [by apply init_inv | exact setup_ok |]. exists s. split; [exact Hrun |]. split; [|exact Hid].
  destruct Hs as (W1 & r1 & r1' & [-> _] & (W2 & r2 & r2' & [-> _] & (W3 & r3 & r3' & [-> _] & [-> _] & _) & _) & _). exact HI.
Qed.

Lemma diff_operands : exists Xs, mapM (opd E0 diff_world 0) [ka; kb; kc] = Some Xs /\ total Xs + 1 < INTSET_MAX /\ algo1 Xs = false /\ bool_decide (bs "5" ∈ difference_of Xs) = true.
Proof. eexists. split; [vm_compute; reflexivity |]. split_and!; by vm_compute. Qed.

Lemma sdiff_second_algorithm_empty_witness : exists s s' Xs, srun C0 E0 setup (init_state E0) = Some (tt, s) /\ ValInv E0 C0 s diff_world /\
  sdiffCommand E0 C0 [ka; kb; kc] s = Some (tt, s') /\ out s' = out s ++ bs "*0" ++ crlf /\
  mapM (opd E0 diff_world (dictid s)) [ka; kb; kc] = Some Xs /\ bool_decide (bs "5" ∈ difference_of Xs) = true.
Proof.
  destruct diff_inv as (s & Hrun & HI & Hid). destruct diff_operands as (Xs & HXs & Htot & Hal & H5). rewrite <- Hid in HXs.
  destruct (sdiff_second_algorithm_empty C0 E0 s diff_world ka [kb; kc] Xs HI eq_refl HXs Htot Hal) as (s' & Hd & _ & Ho).
  exists s, s', Xs. split_and!; [exact Hrun | exact HI | exact Hd | exact Ho | exact HXs | exact H5].
Defined.

End Example_sets.
End SetServer.
