(* ===== verification/SetPop.v ===== *)
(** * SPOP

    One random member is removed and replied. *)

From stdpp Require Import gmap strings.
From S2P Require Import Prelude Bytes Bits NumConv Object HashKit Intset Dict DictInv DictRandom ObjDict SetType SetProps Keyspace Values KeyspaceRules Cells ValueRules CmdSpec Commands Sharding SetCmds SetRules World SetWorld SetRefine SetAlgebra Client Sequences SetServer.
Import NumConv Object HashKit Keyspace Values KeyspaceRules Cells ValueRules.
Import Intset(intsetRemove, intsetRandom, rep, rep_max, rep_len, get_rep, INTSET_MAX) DictInv(dict_ok, entries) DictRandom(random_key_sound, random_key_draws, slots, lands, pick).
Import CmdSpec(MAXLEN) ObjDict SetType SetProps SetCmds SetRules World SetWorld SetRefine.

Module SetPop.

#[local] Open Scope vire_scope.

Section Pop.
Context (E : env) (C : valenv).
Implicit Types (W : world) (k : list Z) (s : state) (X : gset (list Z)) (v : setobj).

Abbreviation seed := (hash_seed C).

#[local] Hint Extern 0 (DictType elem unit) => exact (setDictType seed) : typeclass_instances.
#[local] Instance pop_laws : DictTypeLaws elem unit := set_laws seed.

(** The random numbers let the draw end: one number is enough for an integer
    set; in a table one of them must select a bucket that is not empty. *)
Definition draws v (rnd : list Z) : Prop :=
  match v with
  | SetInt _ => rnd <> []
  | SetHT d => slots d <= 2 ^ 31 /\ lands d rnd
  end.

(** Then the draw delivers a member and keeps the set, in its encoding. *)
Lemma random_element v X rnd : sdenotes seed v X -> X <> ∅ -> draws v rnd ->
  exists v' e rnd', setTypeRandomElement C v rnd = Some (v', e, rnd') /\
  sdenotes seed v' X /\ (exists b, b ∈ X /\ robj_ok (eobj e) /\ sval (eobj e) = Some b) /\
  match e with EInt z => int64 z /\ exists st, v' = SetInt st | EObj _ => True end.
Proof.
  intros (l & Hl & HX) Hne Hdr. destruct v as [st | d]; cbn [holds setTypeRandomElement draws] in *.
  - destruct Hl as (vs & Hr & ->). destruct rnd as [|r rnd]; [done |]. unfold intsetRandom. rewrite (rep_len _ _ Hr). pose proof (rep_max _ _ Hr) as Hm. unfold INTSET_MAX in Hm.
    destruct (Z.eqb_spec (zlen vs) 0) as [Hz | Hz]; [destruct vs; [by subst X | done] |]. pose proof (Z.mod_pos_bound (u32 r) (zlen vs) ltac:(lia)) as Hb. rewrite swrap_small by (simpl; lia).
    destruct (lookup_lt_is_Some_2 vs (Z.to_nat (u32 r mod zlen vs))) as [z Hv]; [lia |]. pose proof (get_rep _ _ _ _ Hr Hv) as Hg. rewrite Z2Nat.id in Hg by lia. rewrite Hg. cbn [mbind option_bind].
    exists (SetInt st), (EInt z), rnd. split; [done |]. assert (Hz64 : int64 z) by (eapply Forall_lookup_1; [by eapply rep_int64 | exact Hv]).
    split; [by exists (dec_string <$> vs); split; [exists vs | done] |]. split; [|split; [done | by eexists]]. exists (dec_string z). split_and!.
    + rewrite HX, elem_of_list_to_set. apply list_elem_of_fmap. exists z. split; [done |]. by eapply list_elem_of_lookup_2.
    + cbn. unfold createStringObjectFromLongLong. by destruct (_ && _).
    + apply sval_fromLongLong.
  - destruct Hl as [Hok ->]. destruct Hdr as [Hs Hland]. assert (Hent : entries d <> []) by (intros He; rewrite He in HX; by apply Hne).
    destruct (random_key_draws d rnd Hok Hent Hs Hland) as (d' & x & rn & Hd). rewrite Hd. cbn [mbind option_bind].
    destruct (random_key_sound d rnd d' (Some x) rn Hok Hent Hd) as (Hok' & Hp & x' & [= <-] & Hin). exists (SetHT d'), (EObj (proj1_sig (Dict.key x))), rn. split; [done |].
    split; [exists (ekey <$> entries d'); split; [by split |]; by rewrite HX, Hp |]. split; [|done]. destruct (elem_ok (Dict.key x)) as [H1 H2]. exists (bytes_of (Dict.key x)).
    split_and!; [|done | done]. rewrite HX, elem_of_list_to_set. apply list_elem_of_fmap. by exists x.
Qed.

(** What is left of an entry without the member [b]. *)
Definition without X b (e : option Z) : acell := if decide (X ∖ {[b]} = ∅) then None else Some (ASet (X ∖ {[b]}), e).

Lemma intset_pop st X z b : sdenotes seed (SetInt st) X -> int64 z -> sval (eobj (EInt z)) = Some b ->
  exists st' n, intsetRemove (junk C) st z = Some (st', n) /\ sdenotes seed (SetInt st') (X ∖ {[b]}).
Proof.
  intros Hd Hz Hs. assert (Hok : robj_ok (eobj (EInt z))) by (cbn; unfold createStringObjectFromLongLong; by destruct (_ && _)).
  destruct (remove_spec (junk C) seed (can_resize C) (SetInt st) X (eobj (EInt z)) b Hd Hok Hs) as (s' & Hr & Hd').
  assert (Hrep : isObjectRepresentableAsLongLong (eobj (EInt z)) = Some (Some z)) by (cbn; unfold createStringObjectFromLongLong; by destruct (_ && _)).
  cbn [setTypeRemove] in Hr. rewrite Hrep in Hr. cbn [mbind option_bind] in Hr. destruct (intsetRemove (junk C) st z) as [[st' n]|]; [|done]. cbn in Hr. injection Hr as <- _. eauto.
Qed.

(** C28. SPOP without a count removes one member of the set and replies it; the
    key is deleted with its last member and no other key changes.  The random
    numbers may be any: one number if the set is an integer set, and otherwise
    numbers of which one selects a bucket that is not empty, with one more for the
    place in its chain, in tables of at most 2^31 buckets. *)
Theorem spop_pops_member s W k X e v rnd : ValInv E C s W -> purge E (W (dictid s) k) = Some (ASet X, e) ->
  (exists p e', purge E (getcell E (dictid s) k (dbs s)) = Some (OtherObj OBJ_SET p, e') /\ heap s !! p = Some (VSet v)) ->
  draws v rnd ->
  exists s' b, spopCommand E C [k] rnd s = Some (tt, s') /\ b ∈ X /\ out s' = out s ++ r_bulk b /\
    ValInv E C s' (wupd W (dictid s) k (without X b e)).
Proof.
  intros [Hh HS] Ha (p & e' & Hc & Hv) Hdr. pose proof (vl_dbs _ _ _ _ _ _ HS) as Hdb. pose proof (dok_id _ _ _ Hdb) as Hid.
  pose proof (vl_sees _ _ _ _ _ _ HS (dictid s) k Hid) as Hsee. apply (sees_purge E) in Hsee. rewrite Hc, Ha in Hsee. cbn [sees as_set] in Hsee.
  destruct Hsee as (v0 & X0 & Hv0 & Hd & HX & Hsm & Heq). rewrite Hv in Hv0. injection Hv0 as <-. injection Heq as <- <-.
  destruct (random_element v X rnd Hd HX Hdr) as (v' & el & rnd' & Hx & Hd' & (b & Hb & Hok & Hs) & Hel).
  enough (Hw : wp (spopCommand E C [k] rnd) (fun _ s' => Ends E C s (wupd W (dictid s) k (without X b e)) (r_bulk b) s') s).
  { apply wp_run in Hw as ([] & s' & Hrun & HI & Ho & _). exists s', b. by split_and!. }
  assert (Hptr : ptr (getcell E (dictid s) k (dbs s)) = Some p) by (apply (ptr_purge E); by rewrite Hc).
  cbn [spopCommand]. unfold spopOneCommand, lookupKeyWriteOrReply. eapply wp_enter_bind; [by apply Out_refl | done |]. intros s1 H1.
  apply wp_bind, wp_bind. eapply wp_lookupKeyWrite; [exact H1 |]. cbn [purge_if]. rewrite Hc. cbn [fst snd fmap option_fmap option_map]. intros s2 H2. apply wp_ret. cbn [fst snd].
  apply wp_bind. apply wp_ret. unfold set_random. apply wp_bind, wp_bind. eapply wp_load_set; [exact H2 | exact Hv |]. apply wp_bind. eapply wp_lift; [exact Hx |]. cbn [fst snd].
  apply wp_bind. eapply wp_store; [exact H2 | exact Hv |]. intros s3 H3. apply wp_ret. cbn [fst snd]. apply wp_bind. set (s0 := set_heap _ s) in H3.
  assert (Hp3 : heap s0 !! p = Some (VSet v')) by apply lookup_insert_eq.
  assert (Hrest : forall w s4, At E (set_heap (<[p := VSet w]> (heap s)) s) (dbs s) k WRLOCK (Some (OtherObj OBJ_SET p, e)) [] s4 -> sdenotes seed w (X ∖ {[b]}) ->
    forall ob, robj_ok ob -> sval ob = Some b ->
    wp (addReplyBulk ob ;; v <-- load_set p ;; (if setTypeSize v =? 0 then dbDelete k ;; ret tt else ret tt) ;; add_dirty 1 ;; unlockDb ;; count_expired (overdue E (getcell E (dictid s) k (dbs s))))
      (fun _ s' => Ends E C s (wupd W (dictid s) k (without X b e)) (r_bulk b) s') s4).
  { intros w s4 H4 Hd4 ob Hob Hsb. apply wp_bind. eapply wp_at_reply; [apply replies_bulk; [exact Hob | exact Hsb |] | exact H4 |].
    { pose proof (Hsm b Hb) as Hlen. unfold MAXLEN in Hlen. lia. }
    intros s5 H5. apply wp_bind. eapply wp_load_set; [exact H5 | apply lookup_insert_eq |]. rewrite (size_card C w _ Hd4), card_zero. unfold without.
    assert (Hfin : forall c a s6, At E (set_heap (<[p := VSet w]> (heap s)) s) (dbs s) k WRLOCK c ([] ++ r_bulk b) s6 -> (forall q, ptr c = Some q -> q = p) -> sees C (<[p := VSet w]> (heap s)) c a ->
      wp (add_dirty 1 ;; unlockDb ;; count_expired (overdue E (getcell E (dictid s) k (dbs s)))) (fun _ s' => Ends E C s (wupd W (dictid s) k a) (r_bulk b) s') s6).
    { intros c a s6 H6 Hpc Hsc. apply wp_bind. eapply wp_at_counter; [auto with vire | exact H6 |]. intros s7 H7. eapply wp_finish; [exact H7 |].
      apply (Vals_update E C _ _ (heap s)); [done | | | exact Hsc].
      - intros q u Hq Hnq. rewrite lookup_insert_ne; [done |]. intros <-. by apply Hnq.
      - intros q Hq. left. by rewrite (Hpc q Hq). }
    apply wp_bind. case_bool_decide as Hemp.
    - rewrite decide_True by done. apply wp_bind. eapply wp_dbDelete; [exact H5 |]. intros s6 H6. apply wp_ret. by eapply Hfin.
    - rewrite decide_False by done. apply wp_ret. eapply Hfin; [exact H5 | by intros q [= <-] |]. exists w, (X ∖ {[b]}). rewrite lookup_insert_eq. split_and!; try done. by apply small_minus. }
  destruct el as [ob | z].
  - destruct (dupString_spec ob b Hs) as (ob' & Hdup & Hs' & Hok'). apply wp_bind. eapply wp_lift; [exact Hdup |]. apply wp_bind.
    eapply wp_set_remove; [exact H3 | exact Hp3 | exact Hd' | by apply Hok' | exact Hs' |]. intros w s4 H4 Hd4. apply wp_ret. unfold s0 in H4. cbn [heap set_heap] in H4. rewrite insert_insert_eq in H4.
    apply (Hrest w); [exact H4 | exact Hd4 | by apply Hok' | exact Hs'].
  - destruct Hel as [Hz [st ->]]. apply wp_bind. eapply wp_load_set; [exact H3 | exact Hp3 |]. destruct (intset_pop st X z b Hd' Hz Hs) as (st' & n & Hrem & Hd4).
    apply wp_bind. eapply wp_lift; [exact Hrem |]. cbn [fst]. apply wp_bind. eapply wp_store; [exact H3 | exact Hp3 |]. intros s4 H4. apply wp_ret. unfold s0 in H4. cbn [heap set_heap] in H4. rewrite insert_insert_eq in H4.
    apply (Hrest (SetInt st')); [exact H4 | exact Hd4 | exact Hok | exact Hs].
Qed.

End Pop.

Import SetServer SetServer.Example_sets Client(init_state) Sequences.

(** Three members, one too many for an integer set. *)
Definition pop_setup : list (Z * scmd) := [(1, SADD ka [bs "1"; bs "2"; bs "x"])].
Definition pop_state : state := match srun C0 E0 pop_setup (init_state E0) with Some (_, s) => s | None => init_state E0 end.
Definition pop_world : world := wupd nothing 0 ka (sadd_spec (Client.at_time E0 1) [bs "1"; bs "2"; bs "x"] None).1.

Lemma pop_inv : ValInv E0 C0 pop_state pop_world.
Proof.
  destruct (srun_ok C0 E0 pop_setup (init_state E0) nothing) as (s & W & r & Hrun & HI & Hs & _); [by apply init_inv | |].
  { split; [split_and!; [done | by apply strs_ok | done] | done]. }
  unfold pop_state. rewrite Hrun. destruct Hs as (W1 & r1 & r2 & [-> _] & [-> _] & _). exact HI.
Qed.

Lemma pop_case : exists X e p e' v, purge E0 (pop_world (dictid pop_state) ka) = Some (ASet X, e) /\
  purge E0 (getcell E0 (dictid pop_state) ka (dbs pop_state)) = Some (OtherObj OBJ_SET p, e') /\ heap pop_state !! p = Some (VSet v) /\
  draws C0 v [0; 1; 2; 3; 4].
Proof.
  eexists _, _, _, _, _. split_and!; [vm_compute; reflexivity.. |]. split; [by vm_compute |]. split; [repeat constructor; lia |].
  eexists _, [0], 1, [2; 3; 4], _. split; [reflexivity |]. split; [reflexivity |]. split; [discriminate |]. split; [reflexivity | discriminate].
Qed.

Lemma spop_pops_member_witness : exists s' b, spopCommand E0 C0 [ka] [0; 1; 2; 3; 4] pop_state = Some (tt, s') /\ out s' = out pop_state ++ r_bulk b.
Proof.
  destruct pop_case as (X & e & p & e' & v & H1 & H2 & H3 & H4).
  destruct (spop_pops_member E0 C0 pop_state pop_world ka X e v [0; 1; 2; 3; 4] pop_inv H1 (ex_intro _ p (ex_intro _ e' (conj H2 H3))) H4) as (s' & b & R1 & _ & R2 & _).
  exists s', b. split; [exact R1 | exact R2].
Defined.

End SetPop.
