(* ===== verification/HashServer.v ===== *)
(** * The family of hash commands on the abstract key space *)

From stdpp Require Import gmap strings.
From S2P Require Import Prelude Bytes HashType Keyspace Values KeyspaceRules Cells Commands HashCmds World HashWorld HashRefine Sequences.
Import Keyspace Values KeyspaceRules Cells Commands(str_arg).
Import HashType(OBJ_HASH_KEY, OBJ_HASH_VALUE) HashCmds World HashWorld HashRefine Sequences.

Module HashServer.

#[local] Open Scope vire_scope.

Inductive hcmd :=
  | HSET (k f v : list Z)
  | HSETNX (k f v : list Z)
  | HMSET (k : list Z) (args : list (list Z))
  | HINCRBY (k f incr : list Z)
  | HGET (k f : list Z)
  | HMGET (k : list Z) (fields : list (list Z))
  | HDEL (k : list Z) (fields : list (list Z))
  | HLEN (k : list Z)
  | HSTRLEN (k f : list Z)
  | HEXISTS (k f : list Z)
  | HKEYS (k : list Z)
  | HVALS (k : list Z)
  | HGETALL (k : list Z).

Section Server.
Context (C : valenv).
Implicit Types (E : env) (W : world) (s : state).

Definition hexec E (c : hcmd) : M unit :=
  match c with
  | HSET k f v => hsetCommand E C k f v
  | HSETNX k f v => hsetnxCommand E C k f v
  | HMSET k args => hmsetCommand E C k args
  | HINCRBY k f incr => hincrbyCommand E C k f incr
  | HGET k f => hgetCommand E C k f
  | HMGET k fields => hmgetCommand E C k fields
  | HDEL k fields => hdelCommand E C k fields
  | HLEN k => hlenCommand E k
  | HSTRLEN k f => hstrlenCommand E C k f
  | HEXISTS k f => hexistsCommand E C k f
  | HKEYS k => hkeysCommand E C k
  | HVALS k => hvalsCommand E C k
  | HGETALL k => hgetallCommand E C k
  end.

(** Arguments a request can carry, with the number of them the command table
    asks for, and hashes of less than 4 GB. *)
Definition hargs E (c : hcmd) W (id : Z) : Prop :=
  match c with
  | HSET k f v | HSETNX k f v => str_arg f /\ str_arg v /\ hroom E (W id k) (pair_room f v)
  | HMSET k args => Forall str_arg args /\ (2 <= length args)%nat /\ hroom E (W id k) (args_room args)
  | HINCRBY k f _ => str_arg f /\ hroom E (W id k) (48 + zlen f)
  | HMGET _ fields => Forall str_arg fields /\ zlen fields < 2 ^ 31
  | HDEL _ fields => Forall str_arg fields
  | HGET _ f | HSTRLEN _ f | HEXISTS _ f => str_arg f
  | HLEN _ | HKEYS _ | HVALS _ | HGETALL _ => True
  end.

Definition hspec E (c : hcmd) W (id : Z) W' (r : list Z) : Prop :=
  match c with
  | HSET k f v => writes W id k (hset_spec E f v (W id k)) W' r
  | HSETNX k f v => writes W id k (hsetnx_spec E f v (W id k)) W' r
  | HMSET k args => writes W id k (hmset_spec E args (W id k)) W' r
  | HINCRBY k f incr => writes W id k (hincrby_spec E f incr (W id k)) W' r
  | HDEL k fields => writes W id k (hdel_spec E fields (W id k)) W' r
  | HGET k f => reads W (hget_spec E f (W id k)) W' r
  | HMGET k fields => reads W (hmget_spec E fields (W id k)) W' r
  | HLEN k => reads W (hlen_spec E (W id k)) W' r
  | HSTRLEN k f => reads W (hstrlen_spec E f (W id k)) W' r
  | HEXISTS k f => reads W (hexists_spec E f (W id k)) W' r
  | HKEYS k => W' = W /\ hgetall_spec E true false (W id k) r
  | HVALS k => W' = W /\ hgetall_spec E false true (W id k) r
  | HGETALL k => W' = W /\ hgetall_spec E true true (W id k) r
  end.

Lemma hexec_ok E c s W : ValInv E C s W -> hargs E c W (dictid s) ->
  wp (hexec E c) (fun _ s' => exists W' r, Ends E C s W' r s' /\ hspec E c W (dictid s) W' r) s.
Proof using.
  intros HI Ha. destruct c; cbn [hexec hargs hspec] in *; destruct_and?.
  - apply wp_writes. by apply hset_cmd_ok.
  - apply wp_writes. by apply hsetnx_ok.
  - apply wp_writes. by apply hmset_ok.
  - apply wp_writes. by apply hincrby_ok.
  - apply wp_reads. by apply hget_ok.
  - apply wp_reads. by apply hmget_ok.
  - apply wp_writes. by apply hdel_ok.
  - apply wp_reads. by apply hlen_ok.
  - apply wp_reads. by apply hstrlen_ok.
  - apply wp_reads. by apply hexists_ok.
  - apply wp_reads_any. by apply (hgetall_ok E C s W k OBJ_HASH_KEY).
  - apply wp_reads_any. by apply (hgetall_ok E C s W k OBJ_HASH_VALUE).
  - apply wp_reads_any. by apply (hgetall_ok E C s W k (Z.lor OBJ_HASH_KEY OBJ_HASH_VALUE)).
Qed.

#[export] Instance hash_family : Family C hcmd := { cexec := hexec; cargs := hargs; cspec := hspec; cexec_ok := hexec_ok }.
End Server.

End HashServer.
