(* ===== verification/ListServer.v ===== *)
(** * The family of list commands on the abstract key space *)

From stdpp Require Import gmap strings.
From S2P Require Import Prelude Bytes Keyspace Values KeyspaceRules Cells Commands ListCmds World ListWorld ListRefine Sequences.
Import Keyspace Values KeyspaceRules Cells Commands(str_arg).
Import ListCmds World ListWorld ListRefine Sequences.

Module ListServer.

#[local] Open Scope vire_scope.

Inductive lcmd :=
  | LPUSH (k : list Z) (args : list (list Z))
  | RPUSH (k : list Z) (args : list (list Z))
  | LPOP (k : list Z)
  | RPOP (k : list Z)
  | LLEN (k : list Z)
  | LINDEX (k idx : list Z)
  | LSET (k idx v : list Z)
  | LRANGE (k start stop : list Z)
  | LTRIM (k start stop : list Z)
  | LREM (k cnt v : list Z).

Section Server.
Context (C : valenv).
Implicit Types (E : env) (W : world) (s : state).

Definition lexec E (c : lcmd) : M unit :=
  match c with
  | LPUSH k args => lpushCommand E C k args
  | RPUSH k args => rpushCommand E C k args
  | LPOP k => lpopCommand E C k
  | RPOP k => rpopCommand E C k
  | LLEN k => llenCommand E k
  | LINDEX k idx => lindexCommand E C k idx
  | LSET k idx v => lsetCommand E C k idx v
  | LRANGE k start stop => lrangeCommand E C k start stop
  | LTRIM k start stop => ltrimCommand E C k start stop
  | LREM k cnt v => lremCommand E C k cnt v
  end.

(** Arguments a request can carry, at least one value to push as the command
    table asks for, lists of less than 2 GB, and no compression of lists, as
    the server starts with. *)
Definition largs E (c : lcmd) W (id : Z) : Prop :=
  match c with
  | LPUSH k args | RPUSH k args => list_compress_depth C = 0 /\ Forall str_arg args /\ args <> [] /\ lroom E (W id k) (push_room args)
  | LSET k _ v => str_arg v /\ lroom E (W id k) (14 + zlen v)
  | _ => True
  end.

Definition lspec E (c : lcmd) W (id : Z) W' (r : list Z) : Prop :=
  match c with
  | LPUSH k args => writes W id k (push_spec E true args (W id k)) W' r
  | RPUSH k args => writes W id k (push_spec E false args (W id k)) W' r
  | LPOP k => writes W id k (pop_spec E true (W id k)) W' r
  | RPOP k => writes W id k (pop_spec E false (W id k)) W' r
  | LSET k idx v => writes W id k (lset_spec E idx v (W id k)) W' r
  | LTRIM k start stop => writes W id k (ltrim_spec E start stop (W id k)) W' r
  | LREM k cnt v => writes W id k (lrem_spec E cnt v (W id k)) W' r
  | LLEN k => reads W (llen_spec E (W id k)) W' r
  | LINDEX k idx => reads W (lindex_spec E idx (W id k)) W' r
  | LRANGE k start stop => reads W (lrange_spec E start stop (W id k)) W' r
  end.

Lemma lexec_ok E c s W : ValInv E C s W -> largs E c W (dictid s) ->
  wp (lexec E c) (fun _ s' => exists W' r, Ends E C s W' r s' /\ lspec E c W (dictid s) W' r) s.
Proof using.
  intros HI Ha. destruct c; cbn [lexec largs lspec] in *; destruct_and?.
  - apply wp_writes. apply (push_cmd_ok E C s W k args true); assumption.
  - apply wp_writes. apply (push_cmd_ok E C s W k args false); assumption.
  - apply wp_writes. by apply (pop_cmd_ok E C s W k true).
  - apply wp_writes. by apply (pop_cmd_ok E C s W k false).
  - apply wp_reads. by apply llen_ok.
  - apply wp_reads. by apply lindex_ok.
  - apply wp_writes. by apply lset_ok.
  - apply wp_reads. by apply lrange_ok.
  - apply wp_writes. by apply ltrim_ok.
  - apply wp_writes. by apply lrem_ok.
Qed.

#[export] Instance list_family : Family C lcmd := { cexec := lexec; cargs := largs; cspec := lspec; cexec_ok := lexec_ok }.
End Server.

End ListServer.
