(* ===== verification/HllServer.v ===== *)
(** * PFADD on the abstract key space

    The value of a key is a string that holds registers; PFADD raises them.  As
    a family of commands it runs beside those on sets, hashes and lists. *)

From stdpp Require Import gmap strings.
From S2P Require Import Prelude Bytes Bits NumConv Object HashKit Keyspace Values KeyspaceRules Cells ValueRules CmdSpec CmdRefine Commands Hll HllDense HllSparse HllProps HllCmds StringCmds Client SetServer World Sequences.
Import NumConv Object HashKit Keyspace Values KeyspaceRules Cells ValueRules CmdSpec CmdRefine World Sequences Commands(str_arg).
Import Hll HllDense HllSparse HllProps HllCmds.

Module HllServer.

#[local] Open Scope vire_scope.

(** ** Valid strings *)

Lemma hll_size t regs : hll t regs -> 16 <= zlen t.
Proof.
  intros [_ [(hdr & os & -> & Hl & _)|[_ Hd]]]; [rewrite length_app; lia |]. rewrite (de_size _ _ Hd). by vm_compute.
Qed.

Lemma hll_valid t regs : hll t regs -> hdr_valid t = true.
Proof.
  intros [Hm Hh]. unfold hdr_valid. rewrite (bool_decide_eq_true_2 _ Hm). cbn [andb]. destruct Hh as [(hdr & os & -> & Hl & _ & He & _)|[He Hd]].
  - rewrite (bget_nat hdr 4%nat : bget hdr 4 = _) in He. rewrite lookup_app_l by lia. by rewrite He.
  - rewrite (bget_nat t 4%nat : bget t 4 = _) in He. rewrite He, (de_size _ _ Hd). by vm_compute.
Qed.

(** Only the header changes. *)
Lemma dense_header s s' regs : dense s regs -> bytes_ok s' -> length s' = length s -> drop 16 s' = drop 16 s -> dense s' regs.
Proof.
  intros [Hok Hl Hr Hv Hg] Hok' Hl' Hd. split; [done | lia | done | done |]. intros i v Hi. rewrite <- (Hg i v Hi).
  assert (Hb : forall j, 0 <= j -> bget (s' ++ [0]) (HLL_HDR_SIZE + j) = bget (s ++ [0]) (HLL_HDR_SIZE + j)).
  { intros j Hj. change HLL_HDR_SIZE with 16. unfold bget. zguard. apply (f_equal (fun l => (l ++ [0]) !! Z.to_nat j)) in Hd. change HLL_DENSE_SIZE with 12304 in Hl.
    replace (Z.to_nat (16 + j)) with (16 + Z.to_nat j)%nat by lia. rewrite <- !lookup_drop, !drop_app_le by lia. done. }
  assert (0 <= Z.of_nat i * HLL_BITS / 8) by (apply Z.div_pos; unfold HLL_BITS; lia). unfold HLL_DENSE_GET_REGISTER. rewrite <- !Z.add_assoc, !Hb by lia. done.
Qed.

Lemma invalidate_hll t regs : hll t regs -> exists t', HLL_INVALIDATE_CACHE t = Some t' /\ hll t' regs.
Proof.
  intros [Hm [(hdr & os & -> & Hl & Hok & He & Hos & Hr)|[He Hd]]].
  - destruct (invalidate_ok hdr Hl Hok) as (hdr' & Hi & Hl' & Hok' & He' & Ht). exists (hdr' ++ encs os). split; [done |]. split; [by rewrite take_app_le in Hm |- * by lia; rewrite Ht | left].
    exists hdr', os. by rewrite He', He.
  - pose proof (de_size _ _ Hd) as Hz. change HLL_DENSE_SIZE with 12304 in Hz. pose proof (de_ok _ _ Hd) as Hok.
    destruct (take_drop_app t 16) as (hdr & r & -> & Hl); [lia |]. apply Forall_app in Hok as [Hok Hokr]. destruct (invalidate_ok hdr ltac:(lia) Hok) as (hdr' & Hi & Hl' & Hok' & He' & Ht).
    exists (hdr' ++ r). split; [done |]. split; [by rewrite take_app_le in Hm |- * by lia; rewrite Ht | right]. rewrite bget_app_l in He |- * by lia. rewrite He'. split; [done |].
    apply (dense_header _ _ _ Hd); [by apply Forall_app | rewrite !length_app; lia | by rewrite !drop_app_exact by lia].
Qed.

(** ** Raising registers *)

(** The registers after the elements, and the number of elements that raised one. *)
Fixpoint raise_all (regs : list Z) (args : list (list Z)) : list Z * Z :=
  match args with
  | [] => (regs, 0)
  | e :: args =>
      let r := match hllPatLen e with Some (c, i) => raise regs i c | None => (regs, 0) end in
      let '(regs', n) := raise_all r.1 args in (regs', r.2 + n)
  end.

Lemma raise_all_registers args : forall es, Forall ele_ok args -> (raise_all (registers es) args).1 = registers (es ++ args).
Proof.
  induction args as [|e args IH]; intros es Ha; [by rewrite app_nil_r |]. apply Forall_cons in Ha as [He Ha]. destruct (pat_ok e He) as (c & i & Hp & _ & Hi). cbn [raise_all].
  rewrite Hp, (raise_registers es e c i Hp Hi). cbn [fst snd]. specialize (IH (es ++ [e]) Ha). destruct (raise_all (registers (es ++ [e])) args) as [regs' n]. cbn [fst] in *. by rewrite IH, <- app_assoc.
Qed.

Lemma arg_ele v : str_arg v -> ele_ok v.
Proof. intros [_ H]. unfold ele_ok. unfold MAXLEN in H. lia. Qed.

Section Cmd.
Context (E : env) (C : valenv).

Lemma wp_pfadd_loop s0 D k o args : forall t regs e updated s Q, Forall str_arg args -> hll t regs ->
  At E s0 D k WRLOCK (Some (createRawStringObject t, e)) o s ->
  (forall t' s', hll t' (raise_all regs args).1 -> At E s0 D k WRLOCK (Some (createRawStringObject t', e)) o s' -> Q (Some (t', updated + (raise_all regs args).2)) s') ->
  wp (pfadd_loop C k t args updated) Q s.
Proof using.
  induction args as [|a args IH]; intros t regs e updated s Q Ha Ht HA HQ; cbn [pfadd_loop raise_all].
  { apply wp_ret. cbn [raise_all fst snd] in HQ. specialize (HQ t s Ht HA). by rewrite Z.add_0_r in HQ. }
  apply Forall_cons in Ha as [Ha1 Ha]. destruct (pat_ok a (arg_ele a Ha1)) as (c & i & Hp & Hc & Hi). cbn [raise_all] in HQ. rewrite Hp in HQ.
  destruct (raise regs i c) as [regs1 r1] eqn:Hr. cbn [fst snd] in HQ. destruct (add_ok (junk C) (hll_sparse_max_bytes C) t regs a c i regs1 r1 Ht Hp Hc Hi Hr) as (t1 & Hadd & Ht1).
  apply wp_bind. eapply wp_lift; [exact Hadd |]. cbv beta. cbn [fst snd]. apply wp_bind. eapply wp_store_ptr; [exact HA |]. intros s1 HA1.
  assert (Hr01 : r1 = 0 \/ r1 = 1) by (unfold raise in Hr; destruct (c >? _); injection Hr as _ <-; auto).
  rewrite (proj2 (Z.eqb_neq r1 (-1))) by lia. destruct (raise_all regs1 args) as [regs' n] eqn:Hall.
  eapply (IH t1 regs1 e); [done | done | exact HA1 |]. rewrite Hall. cbn [fst snd] in *. intros t' s' Ht' HA'. specialize (HQ t' s' Ht' HA').
  destruct Hr01 as [-> | ->]; cbn [Z.eqb Pos.eqb]; [by rewrite Z.add_0_l in HQ | by rewrite Z.add_assoc in HQ].
Qed.

(** ** The specification *)

Definition r_nothll : list Z := not_hll_err.

Definition pfadd_spec (args : list (list Z)) (a a' : acell) (r : list Z) : Prop :=
  match purge E a with
  | None => exists t, a' = Some (AObj (createRawStringObject t), None) /\ hll t (registers args) /\ r = r_int 1
  | Some (AObj (SdsObj enc b t), e) =>
      if hdr_valid t && (16 <=? zlen t) then
        forall regs, hll t regs -> exists t', a' = Some (AObj (createRawStringObject t'), e) /\ hll t' (raise_all regs args).1 /\ r = r_int (if (raise_all regs args).2 =? 0 then 0 else 1)
      else a' = purge E a /\ r = r_nothll
  | Some (AObj (IntObj b z), e) => a' = purge E a /\ r = r_nothll
  | Some _ => a' = purge E a /\ r = r_wrong
  end.

(** What the handler relies on: a string that passes its tests is one that PFADD
    made, and no integer is as long as a header. *)
Definition pfadd_args (args : list (list Z)) (a : acell) : Prop :=
  Forall str_arg args /\
  match purge E a with
  | Some (AObj (SdsObj _ _ t), _) => hdr_valid t = true -> 16 <= zlen t -> exists regs, hll t regs
  | Some (AObj (IntObj _ z), _) => int64 z /\ zlen (dec_string z) < 16
  | _ => True
  end.

(** ** The handler implements it *)

Definition fits (args : list (list Z)) (s : state) W (k : list Z) (s' : state) : Prop :=
  exists W' r, Ends E C s W' r s' /\ exists a', W' = wupd W (dictid s) k a' /\ pfadd_spec args (W (dictid s) k) a' r.

Lemma raise_all_pos args : forall regs, 0 <= (raise_all regs args).2.
Proof using.
  induction args as [|a args IH]; intros regs; [done |]. cbn [raise_all]. set (r := match hllPatLen a with Some _ => _ | None => _ end). assert (0 <= r.2) by (subst r; unfold raise; repeat case_match; cbn; lia).
  specialize (IH r.1). destruct (raise_all r.1 args). cbn [snd] in *. lia.
Qed.

Lemma wp_elements s W k t regs e args updated x s2 : ValInv E C s W -> Forall str_arg args -> hll t regs -> 0 <= updated ->
  At E s (dbs s) k WRLOCK (Some (createRawStringObject t, e)) [] s2 ->
  wp (pfadd_elements C k t args updated x) (fun _ s' => exists t', hll t' (raise_all regs args).1 /\
    Ends E C s (wupd W (dictid s) k (Some (AObj (createRawStringObject t'), e))) (r_int (if updated + (raise_all regs args).2 =? 0 then 0 else 1)) s') s2.
Proof using.
  intros [Hh HS] Ha Ht Hu HA. unfold pfadd_elements. apply wp_bind. eapply wp_pfadd_loop; [done | exact Ht | exact HA |]. intros t1 s3 Ht1 HA3. cbv beta iota.
  pose proof (raise_all_pos args regs) as Hp. set (n := updated + (raise_all regs args).2) in *.
  assert (Hfin : forall t' s4, hll t' (raise_all regs args).1 -> At E s (dbs s) k WRLOCK (Some (createRawStringObject t', e)) [] s4 ->
    wp (addReplyString (if n =? 0 then shared_czero else shared_cone) ;; (unlockDb ;; count_expired x)) (fun _ s' => exists t', hll t' (raise_all regs args).1 /\
      Ends E C s (wupd W (dictid s) k (Some (AObj (createRawStringObject t'), e))) (r_int (if n =? 0 then 0 else 1)) s') s4).
  { intros t' s4 Ht' HA4. apply wp_bind. eapply wp_at_reply; [apply replies_string | exact HA4 |]. intros s5 HA5. rewrite <- (set_heap_id s) in HA5 at 1.
    eapply wp_mono; [eapply (wp_finish E C s (heap s)); [exact HA5 |] |].
    - eapply (Vals_update E C _ _ (heap s) W); [done | done | intros p Hq; by cbn in Hq | reflexivity].
    - intros ? s' HE. exists t'. split; [done |]. by destruct (n =? 0). }
  destruct (Z.eqb_spec n 0) as [Hn|Hn].
  - apply wp_bind, wp_ret. by apply (Hfin t1).
  - apply wp_bind, wp_bind. eapply wp_at_counter; [auto with vire | exact HA3 |]. intros s4 HA4. destruct (invalidate_hll t1 _ Ht1) as (t2 & Hi & Ht2). apply wp_bind. eapply wp_lift; [exact Hi |]. eapply wp_store_ptr; [exact HA4 |]. intros s5 HA5.
    by apply (Hfin t2).
Qed.

(** The replies that leave the cell as the lookup left it. *)
Lemma wp_refused s W k r (x : bool) s2 : ValInv E C s W -> At E s (dbs s) k WRLOCK (purge E (getcell E (dictid s) k (dbs s))) r s2 ->
  wp (unlockDb ;; count_expired x) (fun _ s' => Ends E C s (wupd W (dictid s) k (purge E (W (dictid s) k))) r s') s2.
Proof using.
  intros [Hh HS] HA. pose proof (dok_id _ _ _ (vl_dbs _ _ _ _ _ _ HS)) as Hid. rewrite <- (set_heap_id s) in HA at 1. eapply (wp_finish E C s (heap s)); [exact HA |].
  eapply (Vals_update E C _ _ (heap s) W); [done | done | intros p Hp; left; by eapply ptr_purge |]. apply sees_purge. by apply (vl_sees _ _ _ _ _ _ HS).
Qed.

(** The check of an object that is no HyperLogLog ends with one of two replies. *)
Lemma wp_not_hll k ob lm c s0 D s2 Q (r : list Z) : At E s0 D k lm c [] s2 ->
  match ob with
  | SdsObj _ _ t => hdr_valid t && (16 <=? zlen t) = false /\ r = r_nothll
  | IntObj _ z => int64 z /\ zlen (dec_string z) < 16 /\ r = r_nothll
  | OtherObj _ _ => r = r_wrong
  end ->
  (forall s3, At E s0 D k lm c r s3 -> Q false s3) -> wp (isHLLObjectOrReply ob) Q s2.
Proof using.
  intros HA Hob HQ. assert (Hrep : wp (addReplyString r ;; ret false) Q s2).
  { apply wp_bind. eapply wp_at_reply; [apply replies_string | exact HA |]. intros s3 HA3. apply wp_ret. by apply HQ. }
  unfold isHLLObjectOrReply. destruct ob as [enc b t | b z | ty p].
  - destruct Hob as [Hv ->]. apply wp_bind, wp_ret. cbv iota. apply wp_bind. eapply wp_lift; [reflexivity |]. cbv beta. change HLL_HDR_SIZE with 16.
    destruct (Z.ltb_spec (zlen t) 16); [exact Hrep |]. rewrite (proj2 (Z.leb_le 16 _)), andb_true_r in Hv by lia. rewrite Hv. exact Hrep.
  - destruct Hob as (Hz & Hl & ->). apply wp_bind, wp_ret. cbv iota. apply wp_bind. eapply wp_lift; [by apply (stringObjectLen_spec _ (dec_string z)) |]. cbv beta. change HLL_HDR_SIZE with 16.
    rewrite (proj2 (Z.ltb_lt _ 16)) by lia. exact Hrep.
  - subst r. apply wp_bind, wp_bind. eapply wp_at_reply; [apply replies_string | exact HA |]. intros s3 HA3. apply wp_ret. cbv iota. apply wp_ret. by apply HQ.
Qed.

Lemma wp_is_hll t regs enc b s2 Q : hll t regs -> Q true s2 -> wp (isHLLObjectOrReply (SdsObj enc b t)) Q s2.
Proof using.
  intros Ht HQ. unfold isHLLObjectOrReply. apply wp_bind, wp_ret. cbv iota. apply wp_bind. eapply wp_lift; [reflexivity |]. cbv beta. change HLL_HDR_SIZE with 16.
  pose proof (hll_size _ _ Ht). rewrite (proj2 (Z.ltb_ge _ 16)) by lia. rewrite (hll_valid _ _ Ht). by apply wp_ret.
Qed.

Lemma pfadd_ok s W k args : ValInv E C s W -> pfadd_args args (W (dictid s) k) -> wp (pfaddCommand E C k args) (fun _ s' => fits args s W k s') s.
Proof using.
  intros HI [Ha Hv]. pose proof HI as [Hh HS]. pose proof (vl_dbs _ _ _ _ _ _ HS) as Hdb. pose proof (dok_id _ _ _ Hdb) as Hid. pose proof (vl_sees _ _ _ _ _ _ HS (dictid s) k Hid) as Hsee. apply (sees_purge E) in Hsee.
  assert (Href : forall r (x : bool) s2, pfadd_spec args (W (dictid s) k) (purge E (W (dictid s) k)) r -> At E s (dbs s) k WRLOCK (purge E (getcell E (dictid s) k (dbs s))) r s2 ->
    wp (unlockDb ;; count_expired x) (fun _ s' => fits args s W k s') s2).
  { intros r x s2 Hr HA. eapply wp_mono; [by apply (wp_refused s W k r x s2) |]. intros ? s' HE. eexists _, r. split; [exact HE |]. eexists. split; [reflexivity | done]. }
  unfold pfaddCommand. eapply wp_enter_bind; [by apply Out_refl | done |]. intros s1 H1. apply wp_bind. eapply wp_lookupKeyWrite; [exact H1 |]. cbn [purge_if andb]. intros s2 H2. cbn [fst snd].
  unfold pfadd_spec in Href. destruct (purge E (getcell E (dictid s) k (dbs s))) as [[ob e]|] eqn:Hc; cbn [fst fmap option_fmap option_map].
  - apply wp_bind. destruct ob as [enc b t | b z | ty p].
    + cbn [sees as_set as_hash as_list] in Hsee. rewrite Hsee in Hv, Href. destruct (hdr_valid t && (16 <=? zlen t)) eqn:Hval.
      * apply andb_true_iff in Hval as [Hv1 Hv2%Z.leb_le]. destruct (Hv Hv1 Hv2) as [regs Ht]. eapply wp_is_hll; [exact Ht |]. cbn [negb]. apply wp_bind. eapply wp_unshare; [by apply (hll_bytes t regs) | done | exact H2 |]. intros s3 H3. cbv beta iota.
        eapply wp_mono; [eapply (wp_elements s W k t regs e args 0); [done | done | done | lia | exact H3] |]. intros ? s' (t' & Ht' & HE). eexists _, _. split; [exact HE |]. eexists. split; [reflexivity |].
        unfold pfadd_spec. rewrite Hsee, Hv1, (proj2 (Z.leb_le _ _) Hv2). cbn [andb]. intros regs' Ht2. assert (regs' = regs) as -> by by eapply hll_unique. exists t'. done.
      * eapply wp_not_hll; [exact H2 | by split |]. intros s3 H3. cbn [negb]. eapply Href; [|exact H3]. by split.
    + cbn [sees as_set as_hash as_list] in Hsee. rewrite Hsee in Hv, Href. destruct Hv. eapply wp_not_hll; [exact H2 | by split_and! |]. intros s3 H3. cbn [negb]. eapply Href; [|exact H3]. by split.
    + eapply wp_not_hll; [exact H2 | reflexivity |]. intros s3 H3. cbn [negb]. eapply Href; [|exact H3].
      destruct ty; cbn [sees as_set as_hash as_list] in Hsee; first [rewrite Hsee | destruct Hsee as (? & ? & _ & _ & _ & _ & ->)]; by split.
  - cbn [sees] in Hsee. rewrite Hsee in *. destruct create_ok as (t & Hcr & Ht). rewrite <- registers_nil in Ht. apply wp_bind. eapply wp_lift; [exact Hcr |]. cbv beta. apply wp_bind. eapply wp_dbAdd; [exact H2 |]. intros s3 H3.
    eapply wp_mono; [eapply (wp_elements s W k t (registers []) None args 1); [done | done | done | lia | exact H3] |]. intros ? s' (t' & Ht' & HE). rewrite raise_all_registers in Ht' by (eapply Forall_impl; [exact Ha | apply arg_ele]).
    eexists _, _. split; [exact HE |]. eexists. split; [reflexivity |]. unfold pfadd_spec. rewrite Hsee. exists t'. split_and!; [done | done |]. pose proof (raise_all_pos args (registers [])). by rewrite (proj2 (Z.eqb_neq _ 0)) by lia.
Qed.

End Cmd.

(** ** The family *)

Inductive pcmd := PFADD (k : list Z) (args : list (list Z)).

Section Server.
Context (C : valenv).
Implicit Types (E : env) (W : world) (s : state).

Definition pexec E (c : pcmd) : M unit := match c with PFADD k args => pfaddCommand E C k args end.
Definition pargs E (c : pcmd) W (id : Z) : Prop := match c with PFADD k args => pfadd_args E args (W id k) end.
Definition pspec E (c : pcmd) W (id : Z) W' (r : list Z) : Prop := match c with PFADD k args => exists a', W' = wupd W id k a' /\ pfadd_spec E args (W id k) a' r end.

Lemma pexec_ok E c s W : ValInv E C s W -> pargs E c W (dictid s) -> wp (pexec E c) (fun _ s' => exists W' r, Ends E C s W' r s' /\ pspec E c W (dictid s) W' r) s.
Proof using. destruct c. apply pfadd_ok. Qed.

#[export] Instance hll_family : Family C pcmd := { cexec := pexec; cargs := pargs; cspec := pspec; cexec_ok := pexec_ok }.
End Server.

(** ** Strings the handler should not trust *)

Module Example_hll.
Import StringCmds Client(init_state) SetServer.Example_sets(E0, C0).

Definition kx : list Z := bs "x".

(** A header, 3000 opcodes for one zero each, one for 16384 zeros and a value. *)
Definition crafted : list Z := magic ++ 1 :: replicate 11 0 ++ replicate 3000 0 ++ [127; 255; 128].

(** A session with such a string, and with an integer of as many digits as a
    header has bytes, whose number is taken for an address. *)
Example hll_input_trusted :
  hdr_valid crafted = true /\
  option_map (fun x => out x.2) ((setCommand E0 kx crafted [] ;; setCommand E0 kx (bs "1234567890123456") []) (init_state E0)) = Some (shared_ok ++ shared_ok) /\
  (setCommand E0 kx crafted [] ;; pfaddCommand E0 C0 kx [bs "a"]) (init_state E0) = None /\
  hllMerge (replicate (Z.to_nat HLL_REGISTERS) 0) crafted = None /\
  (setCommand E0 kx (bs "1234567890123456") [] ;; pfaddCommand E0 C0 kx [bs "a"]) (init_state E0) = None.
Proof. split_and!; by vm_compute. Qed.

End Example_hll.

End HllServer.
