(* ===== verification/ValueServer.v ===== *)
(** * Sets, hashes, lists and HyperLogLogs together

    Sequences of set, hash and list commands and PFADD against the abstract key
    space. *)

From stdpp Require Import gmap strings.
From S2P Require Import Prelude Bytes HashKit Intset Keyspace Values KeyspaceRules Cells Commands World SetServer HashServer ListServer HllServer HllProps HashWorld ListWorld HashRefine ListRefine SetAlgebra Client Sequences.
Import HashKit Keyspace Values KeyspaceRules Cells World SetServer HashServer ListServer HllServer Sequences.
Import Client(init_state, at_time) SetServer.Example_sets(E0, C0, ka, kb, kc).

Module ValueServer.

#[local] Open Scope vire_scope.

Abbreviation vcmd := (scmd + (hcmd + (lcmd + pcmd)))%type.

(** C3. The set, hash and list commands refine the abstract key space, in which a
    key holds a finite set of byte strings, a finite map from byte strings to
    byte strings, a list of byte strings or an object of another type, with an
    optional expire time: any sequence of SADD, SREM, SISMEMBER, SCARD,
    SMEMBERS, SUNION, SINTER, SDIFF, the storing forms of these, HSET, HSETNX,
    HMSET, HINCRBY, HGET, HMGET, HDEL, HLEN, HSTRLEN, HEXISTS, HKEYS, HVALS,
    HGETALL, LPUSH, RPUSH, LPOP, RPOP, LLEN, LINDEX, LSET, LRANGE, LTRIM, LREM
    and PFADD, at any times, from an empty server, runs without a failed assertion,
    an invalid iterator, an access outside a ziplist or a lock misused.  It
    replies what the mathematical sets, maps and lists give, whatever the
    encodings are and however the lists are split into nodes: an expired value
    is absent, a value that becomes empty is deleted, a command on a value of
    another type replies the type error and changes nothing, HINCRBY adds
    exactly or reports the overflow, negative indexes count from the end of a
    list, PFADD leaves a string that holds, in either encoding, the longest
    pattern of the elements in each register and replies whether one was
    raised, and no two keys ever share a value.  The sequence keeps to these
    limits: SDIFF and SDIFFSTORE where they choose their first algorithm (the
    second gives the empty set); lists without compression
    ([list_compress_depth] 0, which the server fixes), shorter than 2 GB; hashes
    whose pairs take less than 4 GB as a ziplist; sets of fewer than 2^29 members;
    PFADD on keys whose string, if it has the header of a HyperLogLog, is a valid
    one, and whose integer, if it holds one, has fewer than 16 digits; arguments
    of at most 512 MB.  The negation of LLONG_MIN in LINDEX, LSET and LREM is
    taken to wrap. *)
Theorem value_commands_refine C E (cs : list (Z * vcmd)) : 1 <= dbinum E -> 1 <= dblnum E -> sok C E 0 cs nothing ->
  exists s' W' r, srun C E cs (init_state E) = Some (tt, s') /\ ValInv E C s' W' /\ sruns C E 0 cs nothing W' r /\ out s' = r.
Proof.
  intros H1 H2 Hok. destruct (srun_ok C E cs (init_state E) nothing (init_inv C E H1 H2) Hok) as (s' & W' & r & Hr & HI & Hs & Ho & _). exists s', W', r. by split_and!.
Qed.

Definition S_ (c : scmd) : vcmd := inl c.
Definition H_ (c : hcmd) : vcmd := inr (inl c).
Definition L_ (c : lcmd) : vcmd := inr (inr (inl c)).
Definition P_ (c : pcmd) : vcmd := inr (inr (inr c)).
Definition kd : list Z := bs "hll".

Definition script : list (Z * vcmd) :=
  [(0, P_ (PFADD kd [bs "x"; bs "y"])); (0, P_ (PFADD kd [bs "y"])); (1, S_ (SADD ka [bs "1"; bs "2"; bs "x"])); (2, H_ (HMSET kb [bs "f"; bs "9"; bs "g"; bs "y"])); (3, H_ (HINCRBY kb (bs "f") (bs "-10")));
   (4, S_ (SADD kb [bs "1"])); (5, L_ (RPUSH kc [bs "5"; bs "u"; bs "7"; bs "u"; bs "u"])); (6, L_ (LSET kc (bs "-3") (bs "w"))); (7, L_ (LREM kc (bs "-1") (bs "u"))); (8, L_ (LRANGE kc (bs "1") (bs "-1")));
   (9, H_ (HDEL kc [bs "f"])); (10, L_ (LTRIM kc (bs "1") (bs "2"))); (11, L_ (LPOP kc)); (12, L_ (RPOP kc)); (13, L_ (LLEN kc))].

Lemma value_script_ok : sok C0 E0 0 script nothing.
Proof.
  cbn [sok script S_ H_ L_ P_ cargs cspec family_sum sum_args sum_spec set_family hash_family list_family hll_family sargs sspec hargs hspec largs lspec pargs pspec].
  split; [by split; [apply strs_ok |] |]. intros Wa ra (aa & -> & ta & -> & Hta & _).
  split; [split; [by apply strs_ok | intros _ _; eexists; exact Hta] |]. intros Wb rb (ab & -> & _).
  split; [split_and!; [done | by apply strs_ok | done] |]. intros W1 r1 [-> _].
  split; [split_and!; [by apply strs_ok | by vm_compute; lia | intros m [= <-]; by vm_compute] |]. intros W2 r2 [-> _].
  split; [split; [by apply str_arg_ok | intros m Hm; vm_compute in Hm; injection Hm as <-; by vm_compute] |]. intros W3 r3 [-> _].
  split; [split_and!; [done | by apply strs_ok | by vm_compute] |]. intros W4 r4 [-> _].
  split; [split_and!; [done | by apply strs_ok | done | intros l Hl; vm_compute in Hl; injection Hl as <-; by vm_compute] |]. intros W5 r5 [-> _].
  split; [split; [by apply str_arg_ok | intros l Hl; vm_compute in Hl; injection Hl as <-; by vm_compute] |]. intros W6 r6 [-> _].
  do 2 (split; [done |]; intros ? ? _). split; [by apply strs_ok |]. do 4 (intros ? ? _; split; [done |]). done.
Qed.

Lemma value_commands_refine_witness : exists s' W' r,
  srun C0 E0 script (init_state E0) = Some (tt, s') /\ ValInv E0 C0 s' W' /\ sruns C0 E0 0 script nothing W' r /\ out s' = r.
Proof. apply (value_commands_refine C0 E0 script); [by vm_compute | by vm_compute | exact value_script_ok]. Defined.

(** The replies of the script: SADD on the hash and HDEL on the list are refused,
    and the list that became empty is gone. *)
Example value_script_replies : option_map (fun x => out x.2) (srun C0 E0 script (init_state E0)) =
  Some (concat [bs ":1"; crlf; bs ":0"; crlf; bs ":3"; crlf; bs "+OK"; crlf; bs ":-1"; crlf; shared_wrongtypeerr; bs ":5"; crlf; bs "+OK"; crlf; bs ":1"; crlf; r_multi [bs "u"; bs "w"; bs "u"]; shared_wrongtypeerr; bs "+OK"; crlf; r_bulk (bs "u"); r_bulk (bs "w"); bs ":0"; crlf]).
Proof. by vm_compute. Qed.

End ValueServer.
