(* ===== verification/CommandTable.v ===== *)
(** * The command table and the lookup by name (vr_command.c, vr_server.c)

    [populateCommandTable] fills a dictionary from the static table; a request's
    first argument is looked up in it.  The dictionary is the hash table of
    vr_dict.c with the callbacks of [commandTableDictType]: the hash reads all
    bytes of the name and ignores case, the comparison is [strcasecmp] and stops
    at a zero byte, so the two disagree on names with a zero byte and the laws of
    [DictTypeLaws] do not hold.  The seed of the hash is the static one (nothing
    calls [dictSetHashFunctionSeed]), so the dictionary is one closed value: 105
    names in 128 buckets, all rehashes done. *)

From stdpp Require Import strings.
From S2P Require Import Prelude Bytes HashKit Keyspace Dict.
Import Keyspace Dict.

Module CommandTable.

#[local] Open Scope vire_scope.

(** ** The table *)

Record redisCommand := mk_cmd { name : string; arity : Z; sflags : string }.

Definition redisCommandTable : list redisCommand := [
  mk_cmd "ping" (-1) "tF"; mk_cmd "echo" 2 "F"; mk_cmd "select" 2 "lF"; mk_cmd "auth" 2 "sltF";
  mk_cmd "admin" 2 "sltF"; mk_cmd "info" (-1) "lt"; mk_cmd "flushdb" 1 "w"; mk_cmd "flushall" 1 "w";
  mk_cmd "time" 1 "RF"; mk_cmd "dbsize" 1 "rF"; mk_cmd "command" 0 "lt"; mk_cmd "config" (-2) "lat";
  mk_cmd "client" (-2) "as"; mk_cmd "slowlog" (-2) "a"; mk_cmd "del" (-2) "w"; mk_cmd "exists" (-2) "rF";
  mk_cmd "ttl" 2 "rF"; mk_cmd "pttl" 2 "rF"; mk_cmd "expire" 3 "wF"; mk_cmd "expireat" 3 "wF";
  mk_cmd "pexpire" 3 "wF"; mk_cmd "pexpireat" 3 "wF"; mk_cmd "persist" 2 "wF"; mk_cmd "randomkey" 1 "rR";
  mk_cmd "type" 2 "rF"; mk_cmd "keys" 2 "rS"; mk_cmd "scan" (-2) "rR"; mk_cmd "object" 3 "r"; mk_cmd "get" 2 "rF";
  mk_cmd "set" (-3) "wm"; mk_cmd "setnx" 3 "wmF"; mk_cmd "setex" 4 "wm"; mk_cmd "psetex" 4 "wm";
  mk_cmd "incr" 2 "wmF"; mk_cmd "decr" 2 "wmF"; mk_cmd "incrby" 3 "wmF"; mk_cmd "decrby" 3 "wmF";
  mk_cmd "append" 3 "wm"; mk_cmd "strlen" 2 "rF"; mk_cmd "getset" 3 "wm"; mk_cmd "incrbyfloat" 3 "wmF";
  mk_cmd "setbit" 4 "wm"; mk_cmd "getbit" 3 "rF"; mk_cmd "setrange" 4 "wm"; mk_cmd "getrange" 4 "r";
  mk_cmd "bitcount" (-2) "r"; mk_cmd "bitpos" (-3) "r"; mk_cmd "mget" (-2) "r"; mk_cmd "mset" (-3) "wm";
  mk_cmd "hset" 4 "wmF"; mk_cmd "hget" 3 "rF"; mk_cmd "hlen" 2 "rF"; mk_cmd "hdel" (-3) "wF";
  mk_cmd "hexists" 3 "rF"; mk_cmd "hkeys" 2 "rS"; mk_cmd "hvals" 2 "rS"; mk_cmd "hgetall" 2 "r";
  mk_cmd "hincrby" 4 "wmF"; mk_cmd "hincrbyfloat" 4 "wmF"; mk_cmd "hmget" (-3) "r"; mk_cmd "hmset" (-4) "wm";
  mk_cmd "hsetnx" 4 "wmF"; mk_cmd "hstrlen" 3 "rF"; mk_cmd "hscan" (-3) "rR"; mk_cmd "rpush" (-3) "wmF";
  mk_cmd "lpush" (-3) "wmF"; mk_cmd "lrange" 4 "r"; mk_cmd "rpop" 2 "wF"; mk_cmd "lpop" 2 "wF"; mk_cmd "llen" 2 "rF";
  mk_cmd "lrem" 4 "w"; mk_cmd "ltrim" 4 "w"; mk_cmd "lindex" 3 "r"; mk_cmd "lset" 4 "wm"; mk_cmd "sadd" (-3) "wmF";
  mk_cmd "smembers" 2 "rS"; mk_cmd "scard" 2 "rF"; mk_cmd "srem" (-3) "wF"; mk_cmd "spop" (-2) "wRsF";
  mk_cmd "sismember" 3 "rF"; mk_cmd "sscan" (-3) "rR"; mk_cmd "sunion" (-2) "rS"; mk_cmd "sunionstore" (-3) "wm";
  mk_cmd "sdiff" (-2) "rS"; mk_cmd "sdiffstore" (-3) "wm"; mk_cmd "sinter" (-2) "rS"; mk_cmd "sinterstore" (-3) "wm";
  mk_cmd "zadd" (-4) "wmF"; mk_cmd "zincrby" 4 "wmF"; mk_cmd "zrange" (-4) "r"; mk_cmd "zrevrange" (-4) "r";
  mk_cmd "zrem" (-3) "wF"; mk_cmd "zcard" 2 "rF"; mk_cmd "zcount" 4 "rF"; mk_cmd "zrangebyscore" (-4) "r";
  mk_cmd "zrevrangebyscore" (-4) "r"; mk_cmd "zrank" 3 "rF"; mk_cmd "zrevrank" 3 "rF"; mk_cmd "zscore" 3 "rF";
  mk_cmd "zremrangebyscore" 4 "w"; mk_cmd "zremrangebyrank" 4 "w"; mk_cmd "zremrangebylex" 4 "w";
  mk_cmd "zscan" (-3) "rR"; mk_cmd "pfadd" (-2) "wmF"; mk_cmd "pfcount" (-2) "r"].

Definition CMD_WRITE : Z := 1.
Definition CMD_READONLY : Z := 2.
Definition CMD_DENYOOM : Z := 4.
Definition CMD_ADMIN : Z := 16.
Definition CMD_PUBSUB : Z := 32.
Definition CMD_NOSCRIPT : Z := 64.
Definition CMD_RANDOM : Z := 128.
Definition CMD_SORT_FOR_SCRIPT : Z := 256.
Definition CMD_LOADING : Z := 512.
Definition CMD_STALE : Z := 1024.
Definition CMD_SKIP_MONITOR : Z := 2048.
Definition CMD_ASKING : Z := 4096.
Definition CMD_FAST : Z := 8192.

(** [populateCommandTable]: the bits of the flag letters; an unknown letter is
    a panic. *)
Definition flag_bit (f : Z) : option Z :=
  if f =? 119 then Some CMD_WRITE else if f =? 114 then Some CMD_READONLY else if f =? 109 then Some CMD_DENYOOM
  else if f =? 97 then Some CMD_ADMIN else if f =? 112 then Some CMD_PUBSUB else if f =? 115 then Some CMD_NOSCRIPT
  else if f =? 82 then Some CMD_RANDOM else if f =? 83 then Some CMD_SORT_FOR_SCRIPT else if f =? 108 then Some CMD_LOADING
  else if f =? 116 then Some CMD_STALE else if f =? 77 then Some CMD_SKIP_MONITOR else if f =? 107 then Some CMD_ASKING
  else if f =? 70 then Some CMD_FAST else None.

Fixpoint populate_flags (fs : list Z) (flags : Z) : option Z :=
  match fs with
  | [] => Some flags
  | f :: fs => b ← flag_bit f; populate_flags fs (Z.lor flags b)
  end.

Definition flags (cmd : redisCommand) : Z := match populate_flags (bs (sflags cmd)) 0 with Some f => f | None => 0 end.
Definition has_flag (cmd : redisCommand) (b : Z) : bool := negb (Z.land (flags cmd) b =? 0).

(** ** Names *)

Definition tolower (c : Z) : Z := if (65 <=? c) && (c <=? 90) then c + 32 else c.

(** The bytes of a C string. *)
Fixpoint cstr (s : list Z) : list Z := match s with [] => [] | c :: s => if c =? 0 then [] else c :: cstr s end.

(** [strcasecmp(a, b) == 0]. *)
Definition strcaseeq (a b : list Z) : bool := bool_decide ((tolower <$> cstr a) = (tolower <$> cstr b)).

(** ** The dictionary *)

Definition dict_hash_function_seed : Z := 5381.

Definition dictSdsCaseHash (key : list Z) : Z := HashKit.dictGenCaseHashFunction dict_hash_function_seed key.

Definition dictSdsKeyCaseCompare (key1 key2 : list Z) : bool := strcaseeq key1 key2.

#[export] Instance commandTableDictType : DictType (list Z) redisCommand := {
  hashFunction := dictSdsCaseHash; keyCompare := dictSdsKeyCaseCompare; keyDup k := k; valDup c := c
}.

(** One round per entry of the table: its flags must be known, and its name new. *)
Fixpoint populateCommandTable (t : list redisCommand) (d : dict (list Z) redisCommand) : option (dict (list Z) redisCommand) :=
  match t with
  | [] => Some d
  | c :: t =>
      _ ← populate_flags (bs (sflags c)) 0;
      '(d, retval1) ← dictAdd true d (bs (name c)) c;
      if retval1 =? DICT_OK then populateCommandTable t d else None
  end.

(** [server.commands], as [init_server] leaves it. *)
Definition commands : option (dict (list Z) redisCommand) := populateCommandTable redisCommandTable dictCreate.

#[global] Opaque commands.

Definition lookupCommand (n : list Z) : option (option redisCommand) := d ← commands; dictFetchValue d n.

(** ** The lookup is the search of the table *)

Definition no_zero (n : list Z) : bool := forallb (fun c => negb (c =? 0)) n.

(** The specification: the first entry whose name equals [n] up to case. *)
Definition find_command (n : list Z) : option redisCommand := List.find (fun cmd => strcaseeq n (bs (name cmd))) redisCommandTable.

#[export] Instance redisCommand_eq_dec : EqDecision redisCommand.
Proof. solve_decision. Defined.

Lemma cstr_id n : no_zero n = true -> cstr n = n.
Proof. induction n as [|c n IH]; [done |]. cbn. intros H. apply andb_true_iff in H as [H1 H2]. zbool. rewrite (proj2 (Z.eqb_neq _ _) H1). by rewrite IH. Qed.

Lemma tolower_idem c : tolower (tolower c) = tolower c.
Proof. unfold tolower. destruct ((65 <=? c) && (c <=? 90)) eqn:E; [|by rewrite E]. zbool. destruct ((65 <=? c + 32) && (c + 32 <=? 90)) eqn:E'; [zbool; lia | done]. Qed.

Lemma tolower_nonzero c : negb (tolower c =? 0) = negb (c =? 0).
Proof. unfold tolower. destruct ((65 <=? c) && (c <=? 90)) eqn:E; [|done]. zbool. by rewrite !(proj2 (Z.eqb_neq _ _)) by lia. Qed.

Lemma no_zero_tolower n : no_zero (tolower <$> n) = no_zero n.
Proof. induction n as [|c n IH]; [done |]. unfold no_zero in *. cbn. by rewrite tolower_nonzero, <- IH. Qed.

Lemma map_tolower_idem (n : list Z) : tolower <$> (tolower <$> n) = tolower <$> n.
Proof. induction n as [|c n IH]; [done |]. cbn. by rewrite tolower_idem, IH. Qed.

(** Hash and comparison ignore the case of a name. *)
Lemma hash_tolower n : dictSdsCaseHash (tolower <$> n) = dictSdsCaseHash n.
Proof.
  unfold dictSdsCaseHash, HashKit.dictGenCaseHashFunction. generalize (u32 dict_hash_function_seed). induction n as [|c n IH]; intros h; [done |]. cbn.
  change (HashKit.tolower (tolower c)) with (tolower (tolower c)). rewrite tolower_idem. apply IH.
Qed.

Lemma compare_tolower n k : no_zero n = true -> dictSdsKeyCaseCompare (tolower <$> n) k = dictSdsKeyCaseCompare n k.
Proof. intros Hn. unfold dictSdsKeyCaseCompare, strcaseeq. rewrite (cstr_id n), (cstr_id (tolower <$> n)) by (by rewrite ?no_zero_tolower). by rewrite map_tolower_idem. Qed.

Lemma find_in_tolower n (b : list (dictEntry (list Z) redisCommand)) : no_zero n = true -> find_in b (tolower <$> n) = find_in b n.
Proof. intros Hn. induction b as [|e b IH]; [done |]. cbn. by rewrite compare_tolower, IH. Qed.

Lemma lookup_tolower n : no_zero n = true -> lookupCommand (tolower <$> n) = lookupCommand n.
Proof.
  intros Hn. unfold lookupCommand, dictFetchValue, dictFind. destruct commands as [d |]; [|done]. cbn [mbind option_bind hashFunction commandTableDictType].
  rewrite hash_tolower. destruct (_ =? 0); [done |]. destruct (bucket (ht0 d) _) as [b |]; [|done]. cbn [mbind option_bind]. rewrite find_in_tolower by done.
  destruct (find_in b n); [done |]. destruct (negb _); [done |]. destruct (bucket (ht1 d) _) as [b' |]; [|done]. cbn [mbind option_bind]. by rewrite find_in_tolower.
Qed.

(** Every name of the table is found. *)
Lemma lookup_names : Forall (fun c => lookupCommand (bs (name c)) = Some (Some c) /\ tolower <$> bs (name c) = bs (name c) /\ no_zero (bs (name c)) = true) redisCommandTable.
Proof.
  assert (H : forallb (fun c => bool_decide (lookupCommand (bs (name c)) = Some (Some c)) && (bool_decide (tolower <$> bs (name c) = bs (name c)) && no_zero (bs (name c)))) redisCommandTable = true) by (vm_compute; reflexivity).
  apply Forall_forall. intros c Hc. rewrite forallb_forall in H. apply list_elem_of_In, H in Hc. apply andb_true_iff in Hc as [H1 H2]. apply andb_true_iff in H2 as [H2 H3].
  split; [exact (bool_decide_eq_true_1 _ H1) |]. split; [exact (bool_decide_eq_true_1 _ H2) | exact H3].
Qed.

(** What the dictionary holds: one table of 128 buckets, whose entries are the
    commands of the static table under their names. *)
Definition entry_sound (e : dictEntry (list Z) redisCommand) : bool :=
  match val e with Some c => bool_decide (key e = bs (name c)) && bool_decide (c ∈ redisCommandTable) | None => false end.

Definition dict_sound (d : dict (list Z) redisCommand) : bool :=
  negb (u64 (used (ht0 d) + used (ht1 d)) =? 0) && negb (dictIsRehashing d) && (sizemask (ht0 d) =? 127) &&
  match table (ht0 d) with Some t => (zlen t =? 128) && forallb (forallb entry_sound) t | None => false end.

Lemma commands_sound : exists d, commands = Some d /\ dict_sound d = true.
Proof.
  assert (H : match commands with Some d => dict_sound d | None => false end = true) by (vm_compute; reflexivity).
  destruct commands as [d |]; [by exists d | done].
Qed.

Lemma find_in_some n (b : list (dictEntry (list Z) redisCommand)) p : find_in b n = Some p -> exists e, b !! p = Some e /\ strcaseeq n (key e) = true.
Proof.
  revert p. induction b as [|e b IH]; intros p; [done |]. cbn. destruct (dictSdsKeyCaseCompare n (key e)) eqn:E; [intros [= <-]; by exists e |].
  destruct (find_in b n) as [q |]; [|done]. intros [= <-]. by apply IH.
Qed.

(** A lookup reads inside the table whatever the name, and what it finds is a
    command of the static table whose name the key equals up to case. *)
Lemma lookup_sound n : exists x, lookupCommand n = Some x /\ forall c, x = Some c -> c ∈ redisCommandTable /\ strcaseeq n (bs (name c)) = true.
Proof.
  destruct commands_sound as (d & Hd & Hs). unfold lookupCommand. rewrite Hd. clear Hd. cbn [mbind option_bind]. unfold dict_sound in Hs.
  destruct (table (ht0 d)) as [t |] eqn:Ht; [|by rewrite andb_false_r in Hs]. zbool. rewrite forallb_forall in *. unfold dictFetchValue, dictFind. rewrite (proj2 (Z.eqb_neq _ _)) by done.
  rewrite H2, H3. set (idx := u32 (Z.land _ 127)). assert (Hidx : 0 <= idx < 128).
  { subst idx. change 127 with (Z.ones 7). rewrite Z.land_ones by lia. unfold u32. rewrite Z.mod_small; pose proof (Z.mod_pos_bound (hashFunction n) (2 ^ 7)); lia. }
  destruct (lookup_lt_is_Some_2 t (Z.to_nat idx)) as [b Hb]; [lia |].
  assert (Hbk : bucket (ht0 d) idx = Some b) by (unfold bucket; rewrite Ht; cbn; rewrite (proj2 (Z.leb_le _ _)) by lia; exact Hb).
  rewrite Hbk. cbn [mbind option_bind]. destruct (find_in b n) as [p |] eqn:Hf; [|by exists None].
  destruct (find_in_some n b p Hf) as (e & He & Hc). exists (val e). unfold deref. cbn [mbind option_bind get_ht]. rewrite Hbk. cbn [mbind option_bind]. rewrite He. split; [done |]. intros c Hv.
  pose proof (H1 b (proj1 (list_elem_of_In _ _) (list_elem_of_lookup_2 _ _ _ Hb))) as Hs. rewrite forallb_forall in Hs. specialize (Hs e (proj1 (list_elem_of_In _ _) (list_elem_of_lookup_2 _ _ _ He))).
  unfold entry_sound in Hs. rewrite Hv, andb_true_iff, !bool_decide_eq_true in Hs. destruct Hs as [Hk Hin]. by rewrite Hk in Hc.
Qed.

(** The hash lookup is the linear search, for names without a zero byte. *)
Lemma lookup_find n : no_zero n = true -> lookupCommand n = Some (find_command n).
Proof.
  intros Hn. destruct (find_command n) as [c |] eqn:Hf; unfold find_command in Hf.
  - apply List.find_some in Hf as [Hin Heq]. pose proof lookup_names as H. rewrite Forall_forall in H. destruct (H c) as (Hl & Ht & Hz); [by apply list_elem_of_In |].
    unfold strcaseeq in Heq. apply bool_decide_eq_true in Heq. rewrite (cstr_id n Hn), (cstr_id _ Hz), Ht in Heq. rewrite <- (lookup_tolower n Hn), Heq. exact Hl.
  - destruct (lookup_sound n) as ([c |] & Hl & Hc); [|done]. destruct (Hc c eq_refl) as [Hin Heq]. pose proof (List.find_none _ _ Hf c (proj1 (list_elem_of_In _ _) Hin)) as Hno. exfalso. exact (eq_true_false_abs _ Heq Hno).
Qed.

Lemma find_in_table n cmd : find_command n = Some cmd -> cmd ∈ redisCommandTable.
Proof. intros H. apply list_elem_of_In. apply List.find_some in H. tauto. Qed.

End CommandTable.
