(* ===== verification/Dispatch.v ===== *)
(** * Command dispatch (vr_command.c, vr_server.c)

    The checks a request passes before
    its handler runs, and the handlers of PING and ECHO.  The processor is an
    instance of the interface the request parser is written against, so that
    the parser, the dispatcher and the handlers compose into the server.

    MULTI, SUBSCRIBE and the scripting commands are
    not in the table, so the flags they would set are never set and the
    branches on them are left out; [call] adds statistics, the slow log and
    propagation, which touch neither the key space nor the reply.  The check that
    memory reclamation freed the client itself is left out: nothing it calls
    frees clients. *)

From stdpp Require Import gmap strings.
From S2P Require Import Prelude Bytes Bits NumConv Object HashKit Bitops Sds Keyspace KeyCmds StringCmds Cells Commands CommandTable Protocol.
Import NumConv Object HashKit Bitops Sds Keyspace KeyCmds StringCmds Cells Commands CommandTable.

Module Dispatch.

#[local] Open Scope vire_scope.

(** ** Configuration and connection *)

Record config := mk_config {
  requirepass : bool; adminpass : bool; authenticated : Z; needadmin : string -> bool;
  maxmemory : Z;
  bgsave_err : bool;                 (* stop-writes-on-bgsave-error applies *)
  aof_err : option (list Z);         (* the error text of the last AOF write *)
  few_slaves : bool;                 (* min-slaves-to-write is not met *)
  repl_slave_ro : bool; repl_connected : bool; repl_serve_stale_data : bool;
  is_master : bool;                  (* the connection is the one to our master *)
  lua_timedout : bool
}.

Definition shared_pong : list Z := bs "+PONG" ++ crlf.
Definition shared_noautherr : list Z := bs "-NOAUTH Authentication required." ++ crlf.
Definition shared_noadminerr : list Z := bs "-NOADMIN Authentication required." ++ crlf.
Definition shared_oomerr : list Z := bs "-OOM command not allowed when used memory > 'maxmemory'." ++ crlf.
Definition shared_bgsaveerr : list Z :=
  bs "-MISCONF Redis is configured to save RDB snapshots, but is currently not able to persist on disk. Commands that may modify the data set are disabled. Please check Redis logs for details about the error." ++ crlf.
Definition shared_noreplicaserr : list Z := bs "-NOREPLICAS Not enough good slaves to write." ++ crlf.
Definition shared_roslaveerr : list Z := bs "-READONLY You can't write against a read only slave." ++ crlf.
Definition shared_masterdownerr : list Z := bs "-MASTERDOWN Link with MASTER is down and slave-serve-stale-data is set to 'no'." ++ crlf.
Definition shared_loadingerr : list Z := bs "-LOADING Redis is loading the dataset in memory" ++ crlf.
Definition shared_slowscripterr : list Z := bs "-BUSY Redis is busy running a script. You can only call SCRIPT KILL or SHUTDOWN NOSAVE." ++ crlf.

(** [addReplyErrorFormat]: line ends in the text become spaces. *)
Definition addReplyErrorFormat (s : list Z) : M unit :=
  addReplyString (bs "-ERR ") ;; addReplyString ((fun c => if (c =? 13) || (c =? 10) then 32 else c) <$> s) ;; addReplyString crlf.

(** ** Handlers *)

(** Which command of the model a table entry runs on its arguments. *)
Definition one1 (f : key -> command) (a : list key) : option command := match a with [k] => Some (f k) | _ => None end.
Definition one2 (f : key -> key -> command) (a : list key) : option command := match a with [k; x] => Some (f k x) | _ => None end.
Definition one3 (f : key -> key -> key -> command) (a : list key) : option command := match a with [k; x; y] => Some (f k x y) | _ => None end.

Definition handlers : list (string * (list key -> option command)) := [
  ("get", one1 GET); ("strlen", one1 STRLEN); ("type", one1 TYPE); ("ttl", one1 TTL); ("pttl", one1 PTTL); ("persist", one1 PERSIST);
  ("set", fun a => match a with k :: v :: opts => Some (SET k v opts) | _ => None end);
  ("setnx", one2 SETNX); ("setex", one3 SETEX); ("psetex", one3 PSETEX); ("getset", one2 GETSET); ("append", one2 APPEND);
  ("setrange", one3 SETRANGE); ("getrange", one3 GETRANGE); ("incr", one1 INCR); ("decr", one1 DECR); ("incrby", one2 INCRBY); ("decrby", one2 DECRBY);
  ("expire", one2 EXPIRE); ("expireat", one2 EXPIREAT); ("pexpire", one2 PEXPIRE); ("pexpireat", one2 PEXPIREAT);
  ("setbit", one3 SETBIT); ("getbit", one2 GETBIT);
  ("bitcount", fun a => match a with k :: args => Some (BITCOUNT k args) | _ => None end);
  ("bitpos", fun a => match a with k :: bit :: args => Some (BITPOS k bit args) | _ => None end);
  ("del", fun a => Some (DEL a)); ("exists", fun a => Some (EXISTS a)); ("mget", fun a => Some (MGET a)); ("mset", fun a => Some (MSET a));
  ("select", one1 SELECT); ("flushdb", fun a => match a with [] => Some FLUSHDB | _ => None end); ("dbsize", fun a => match a with [] => Some DBSIZE | _ => None end)]%string.

Fixpoint handler (n : string) (hs : list (string * (list key -> option command))) : option (list key -> option command) :=
  match hs with [] => None | (m, f) :: hs => if String.eqb n m then Some f else handler n hs end.

Definition pingCommand (cmd : redisCommand) (args : list key) : M unit :=
  if zlen args + 1 >? 2 then addReplyErrorFormat (bs "wrong number of arguments for '" ++ bs (name cmd) ++ bs "' command")
  else match args with [] => addReplyString shared_pong | a :: _ => addReplyBulk (createStringObject a) end.

Definition echoCommand (args : list key) : M unit :=
  match args with a :: _ => addReplyBulk (createStringObject a) | [] => panic end.

Section Dispatch.
(** Memory reclamation; the handlers outside the model. *)
Context (freeMemoryIfNeeded : M bool) (other : env -> string -> list key -> M Protocol.effect).

(** After [call] the dispatcher returns VR_OK, whatever the handler did; no
    handler frees the client it serves (CLIENT KILL only marks it). *)
Definition acknowledged (e : Protocol.effect) : Protocol.effect :=
  Protocol.mk_effect true (Protocol.e_close e) (Protocol.e_jump e) (Protocol.e_blocked e) false.

Definition proc (E : env) (cmd : redisCommand) (args : list key) : M Protocol.effect :=
  match handler (name cmd) handlers with
  | Some f => match f args with Some c => exec E c ;; ret Protocol.executed | None => panic end
  | None =>
      if String.eqb (name cmd) "ping" then pingCommand cmd args ;; ret Protocol.executed
      else if String.eqb (name cmd) "echo" then echoCommand args ;; ret Protocol.executed
      else e <-- other E (name cmd) args ;; ret (acknowledged e)
  end.

(** A refused request: the reply, and the connection goes on. *)
Definition refuse (r : list Z) : M Protocol.effect := addReplyString r ;; ret Protocol.executed.

Definition processCommand (cf : config) (E : env) (argv : list key) : M Protocol.effect :=
  match argv with
  | [] => panic
  | a0 :: args =>
      let named (cmd : redisCommand) (n : string) := String.eqb (name cmd) n in
      if strcaseeq a0 (bs "quit") then addReplyString shared_ok ;; ret (Protocol.mk_effect false true false false false)
      else
        found <-- lift (lookupCommand a0) ;;
        match found with
        | None => addReplyErrorFormat (bs "unknown command '" ++ cstr a0 ++ bs "'") ;; ret Protocol.executed
        | Some cmd =>
            let argc := zlen argv in
            if ((arity cmd >? 0) && negb (arity cmd =? argc)) || (argc <? - arity cmd) then
              addReplyErrorFormat (bs "wrong number of arguments for '" ++ bs (name cmd) ++ bs "' command") ;; ret Protocol.executed
            else if requirepass cf && (authenticated cf =? 0) && negb (named cmd "auth") && negb (named cmd "admin") then refuse shared_noautherr
            else if needadmin cf (name cmd) && adminpass cf && (authenticated cf <? 2) && negb (named cmd "admin") then refuse shared_noadminerr
            else
              oom <-- (if negb (maxmemory cf =? 0) then freed <-- freeMemoryIfNeeded ;; ret (has_flag cmd CMD_DENYOOM && negb freed) else ret false) ;;
              if (oom : bool) then refuse shared_oomerr
              else if (bgsave_err cf || isSome (aof_err cf)) && negb (is_slave E) && (has_flag cmd CMD_WRITE || named cmd "ping") then
                refuse (match aof_err cf with None => shared_bgsaveerr | Some m => bs "-MISCONF Errors writing to the AOF file: " ++ m ++ crlf end)
              else if negb (is_slave E) && few_slaves cf && has_flag cmd CMD_WRITE then refuse shared_noreplicaserr
              else if is_slave E && repl_slave_ro cf && negb (is_master cf) && has_flag cmd CMD_WRITE then refuse shared_roslaveerr
              else if is_slave E && negb (repl_connected cf) && negb (repl_serve_stale_data cf) && negb (has_flag cmd CMD_STALE) then refuse shared_masterdownerr
              else if loading E && negb (has_flag cmd CMD_LOADING) then refuse shared_loadingerr
              else if lua_timedout cf && negb (named cmd "auth") then refuse shared_slowscripterr
              else proc E cmd args
        end
  end.

(** ** The server the parser talks to *)

(** The server state, and the readings of the clock to come.  The worker is not
    paused: the command that pauses it, CLIENT PAUSE, is outside the model. *)
Definition world : Type := state * list Z.

#[export] Instance server_processor (cf : config) (E : env) : Protocol.Processor world := {
  Protocol.clientsArePaused w := false;
  Protocol.emit r w := (set_out (out w.1 ++ r) w.1, w.2);
  Protocol.process argv w :=
    let now := hd 0 w.2 in
    '(e, s) ← processCommand cf (mk_env (dbinum E) (dblnum E) (loading E) (is_slave E) now) argv w.1;
    Some ((s, tl w.2), e)
}.

(** [c->cmd->proc(c)] at the worker a client jumped to; [c->cmd] is the command
    the lookup of the first argument gave. *)
#[export] Instance server_worker (E : env) : Protocol.Worker world := {
  Protocol.proc_again argv w :=
    match argv with
    | [] => None
    | a0 :: args =>
        found ← lookupCommand a0;
        cmd ← found;
        let now := hd 0 w.2 in
        '(e, s) ← proc (mk_env (dbinum E) (dblnum E) (loading E) (is_slave E) now) cmd args w.1;
        Some ((s, tl w.2), e)
    end
}.

End Dispatch.
End Dispatch.
