(* ===== verification/Server.v ===== *)
(** * From the bytes of a connection to the bytes of the replies

    The parser, the dispatcher and the handlers composed: a stream of requests
    is answered as the abstract key space says.  Every request is classified by
    its text alone: it is refused with a fixed reply, or it is a command of the
    model. *)

From stdpp Require Import gmap strings functions.
From S2P Require Import Prelude Bytes Bits NumConv Object HashKit Bitops Sds Keyspace KeyCmds StringCmds KeyspaceRules Cells CmdSpec CmdRefine Commands Sharding CmdProps Client Protocol ProtocolProps CommandTable Dispatch.
Import NumConv Object HashKit Bitops Sds Keyspace KeyCmds StringCmds KeyspaceRules Cells CmdSpec CmdRefine Commands Sharding CmdProps Client CommandTable Dispatch.

Module Server.

#[local] Open Scope vire_scope.

(** ** Classification *)

Inductive outcome := Reply (r : list Z) | Run (c : command).

Definition r_errorf (s : list Z) : list Z := bs "-ERR " ++ ((fun c => if (c =? 13) || (c =? 10) then 32 else c) <$> s) ++ crlf.
Definition r_arity (n : string) : list Z := r_errorf (bs "wrong number of arguments for '" ++ bs n ++ bs "' command").

Definition arity_ok (cmd : redisCommand) (argc : Z) : bool :=
  negb (((arity cmd >? 0) && negb (arity cmd =? argc)) || (argc <? - arity cmd)).

Definition classify_proc (cmd : redisCommand) (args : list key) : option outcome :=
  match handler (name cmd) handlers with
  | Some f => Run <$> f args
  | None =>
      if String.eqb (name cmd) "ping" then
        match args with [] => Some (Reply shared_pong) | [a] => Some (Reply (r_bulk a)) | _ => Some (Reply (r_arity (name cmd))) end
      else if String.eqb (name cmd) "echo" then match args with [a] => Some (Reply (r_bulk a)) | _ => None end
      else None
  end.

(** What the text of a request asks for; [None] for QUIT, for names with a zero
    byte and for commands outside the model. *)
Definition classify (argv : list key) : option outcome :=
  match argv with
  | [] => None
  | a0 :: args =>
      if negb (no_zero a0) || strcaseeq a0 (bs "quit") then None
      else
        match find_command a0 with
        | None => Some (Reply (r_errorf (bs "unknown command '" ++ a0 ++ bs "'")))
        | Some cmd =>
            if negb (arity_ok cmd (zlen argv)) then Some (Reply (r_arity (name cmd)))
            else classify_proc cmd args
        end
  end.

(** ** The dispatcher *)

Lemma replies_errorf s : replies (addReplyErrorFormat s) (r_errorf s).
Proof. do 2 (apply replies_bind; [apply replies_string |]). apply replies_string. Qed.

Lemma replies_arg a : str_arg a -> replies (addReplyBulk (createStringObject a)) (r_bulk a).
Proof. intros [Hb Hl]. unfold MAXLEN in Hl. apply replies_bulk; [by unfold createStringObject; destruct (_ <=? _) | apply sval_createStringObject | lia]. Qed.

(** The restrictions that are off in a plain master. *)
Record unrestricted (cf : config) (E : env) : Prop := {
  un_pass : requirepass cf = false; un_admin : forall n, needadmin cf n = false; un_mem : maxmemory cf = 0;
  un_save : bgsave_err cf = false; un_aof : aof_err cf = None; un_few : few_slaves cf = false;
  un_slave : is_slave E = false; un_load : loading E = false; un_lua : lua_timedout cf = false
}.

Section Server.
Context (freeMemoryIfNeeded : M bool) (other : env -> string -> list key -> M Protocol.effect).

Abbreviation processCommand := (processCommand freeMemoryIfNeeded other).

(** The dispatcher after the lookup. *)
Lemma lookup_step {B} a0 x (k : option redisCommand -> M B) s : lookupCommand a0 = Some x -> bind (lift (lookupCommand a0)) k s = k x s.
Proof. intros H. unfold bind, lift. by rewrite H. Qed.

Lemma replies_executed (c : M unit) r s : replies c r -> (c ;; ret Protocol.executed) s = Some (Protocol.executed, set_out (out s ++ r) s).
Proof. intros H. unfold bind. by rewrite H. Qed.

Lemma proc_reply E cmd args r s : classify_proc cmd args = Some (Reply r) -> Forall str_arg args ->
  proc other E cmd args s = Some (Protocol.executed, set_out (out s ++ r) s).
Proof.
  unfold classify_proc, proc. intros Hc Hl. destruct (handler (name cmd) handlers) as [f |]; [by destruct (f args) |]. destruct (String.eqb (name cmd) "ping").
  - apply replies_executed. unfold pingCommand. destruct args as [|a [|b args]]; injection Hc as <-; cbn [length].
    + apply replies_string.
    + apply Forall_cons in Hl as [Ha' _]. by apply replies_arg.
    + rewrite Z.gtb_ltb. zguard. apply replies_errorf.
  - destruct (String.eqb (name cmd) "echo"); [|done]. destruct args as [|a [|]]; try done. injection Hc as <-. apply Forall_cons in Hl as [Ha' _]. apply replies_executed. by apply replies_arg.
Qed.

Lemma proc_run E cmd args c : classify_proc cmd args = Some (Run c) ->
  (exists f, handler (name cmd) handlers = Some f /\ f args = Some c) /\ forall s, proc other E cmd args s = (exec E c ;; ret Protocol.executed) s.
Proof.
  unfold classify_proc, proc. intros Hc. destruct (handler (name cmd) handlers) as [f |].
  - destruct (f args) eqn:Hf; [|done]. injection Hc as ->. eauto.
  - destruct (String.eqb _ "ping"); [by destruct args as [|? []] |]. destruct (String.eqb _ "echo"); [by destruct args as [|? []] | done].
Qed.

(** The replies given before the command is known. *)
Lemma early_reply cf E a0 args r s : classify (a0 :: args) = Some (Reply r) -> 
  (find_command a0 = None \/ exists cmd, find_command a0 = Some cmd /\ arity_ok cmd (zlen (a0 :: args)) = false) ->
  processCommand cf E (a0 :: args) s = Some (Protocol.executed, set_out (out s ++ r) s).
Proof.
  cbn [classify]. destruct (negb (no_zero a0) || _) eqn:Hz; [done |]. zbool. intros Hc Hf. unfold Dispatch.processCommand. rewrite H0, (lookup_step a0 _ _ s (lookup_find a0 ltac:(done))).
  destruct Hf as [Hf | (cmd & Hf & Ha)]; rewrite Hf in *.
  - injection Hc as <-. rewrite cstr_id by done. apply replies_executed, replies_errorf.
  - rewrite Ha in Hc. injection Hc as <-. unfold arity_ok in Ha. apply negb_false_iff in Ha. rewrite Ha. apply replies_executed, replies_errorf.
Qed.

(** The stages a classified request goes through. *)
Lemma classify_inv a0 args o : classify (a0 :: args) = Some o -> no_zero a0 = true /\ strcaseeq a0 (bs "quit") = false /\
  ((exists r, o = Reply r /\ (find_command a0 = None \/ exists cmd, find_command a0 = Some cmd /\ arity_ok cmd (zlen (a0 :: args)) = false)) \/
   (exists cmd, find_command a0 = Some cmd /\ arity_ok cmd (zlen (a0 :: args)) = true /\ classify_proc cmd args = Some o)).
Proof.
  cbn [classify]. destruct (negb (no_zero a0) || _) eqn:Hz; [done |]. zbool. intros Hc. split; [done |]. split; [done |].
  destruct (find_command a0) as [cmd |]; [|injection Hc as <-; left; eauto]. destruct (arity_ok cmd _) eqn:Ha; [right; eauto | injection Hc as <-; left; eexists; split; [done |]; right; by exists cmd].
Qed.

(** A request passes all checks of an unrestricted server. *)
Lemma processCommand_open cf E a0 args cmd s : unrestricted cf E -> no_zero a0 = true -> strcaseeq a0 (bs "quit") = false -> find_command a0 = Some cmd ->
  arity_ok cmd (zlen (a0 :: args)) = true -> processCommand cf E (a0 :: args) s = proc other E cmd args s.
Proof.
  intros [] Hz Hq Hf Ha. unfold Dispatch.processCommand. rewrite Hq, (lookup_step a0 _ _ s (lookup_find a0 Hz)), Hf. unfold arity_ok in Ha. apply negb_true_iff in Ha. rewrite Ha.
  rewrite un_pass0, un_admin0, un_mem0, un_save0, un_aof0, un_few0, un_slave0, un_load0, un_lua0. done.
Qed.

(** What the answer to one classified request does. *)
Definition answer1 (E : env) (o : outcome) (id : Z) (m : kmap) : Z * kmap * list Z :=
  match o with Reply r => (id, m, r) | Run c => spec E c id m end.

Definition outcome_ok (o : outcome) (m : kmap) : Prop := match o with Reply _ => True | Run c => args_ok c m end.

Lemma reply_step E s r : Ready E s -> let s' := set_out (out s ++ r) s in Ready E s' /\ dictid s' = dictid s /\ out s' = out s ++ r /\ dbs s' = dbs s.
Proof. done. Qed.

Lemma process_open cf E argv o s : unrestricted cf E -> classify argv = Some o -> Forall str_arg argv ->
  match o with
  | Reply r => processCommand cf E argv s = Some (Protocol.executed, set_out (out s ++ r) s)
  | Run c => processCommand cf E argv s = (exec E c ;; ret Protocol.executed) s
  end.
Proof.
  intros HU Hc Hl. destruct argv as [|a0 args]; [done |]. destruct (classify_inv _ _ _ Hc) as (Hz & Hq & [(r & -> & Hf) | (cmd & Hf & Ha & Ho)]); [by apply early_reply |].
  apply Forall_cons in Hl as [_ Hl]. destruct o as [r | c]; rewrite (processCommand_open cf E a0 args cmd s) by done; [by apply proc_reply |]. by apply proc_run.
Qed.

(** One request against the abstract key space. *)
Lemma process_ok cf E argv o s : unrestricted cf E -> classify argv = Some o -> Forall str_arg argv -> Ready E s ->
  outcome_ok o (abs E (dbs s) (dictid s)) -> let r := answer1 E o (dictid s) (abs E (dbs s) (dictid s)) in
  exists s', processCommand cf E argv s = Some (Protocol.executed, s') /\ Ready E s' /\ dictid s' = r.1.1 /\ out s' = out s ++ r.2 /\
    forall j, 0 <= j < dblnum E -> abs E (dbs s') j = if decide (j = dictid s) then r.1.2 else abs E (dbs s) j.
Proof.
  intros HU Hc Hl HR Hok. destruct o as [r | c]; cbn [answer1 outcome_ok] in *.
  - exists (set_out (out s ++ r) s). rewrite (process_open cf E argv _ s HU Hc Hl). destruct (reply_step E s r HR) as (H1 & H2 & H3 & H4).
    split; [done |]. split; [done |]. split; [done |]. split; [done |]. intros j Hj. rewrite H4. case_decide; [by subst | done].
  - destruct (exec_ok E c s HR Hok) as (s' & H1 & H2 & H3 & H4 & H5). exists s'. split; [|done]. rewrite (process_open cf E argv _ s HU Hc Hl). unfold bind. by rewrite H1.
Qed.

(** ** Sequences of requests *)

Fixpoint answers (E : env) (xs : list (Z * outcome)) (id : Z) (V : Z -> kmap) : Z * (Z -> kmap) * list Z :=
  match xs with
  | [] => (id, V, [])
  | (t, o) :: xs =>
      let r := answer1 (at_time E t) o id (V id) in
      let r' := answers E xs r.1.1 (<[id := r.1.2]> V) in
      (r'.1.1, r'.1.2, r.2 ++ r'.2)
  end.

Fixpoint answers_ok (E : env) (xs : list (Z * outcome)) (id : Z) (V : Z -> kmap) : Prop :=
  match xs with
  | [] => True
  | (t, o) :: xs =>
      outcome_ok o (V id) /\ let r := answer1 (at_time E t) o id (V id) in answers_ok E xs r.1.1 (<[id := r.1.2]> V)
  end.

(** The requests, with the time of each, and what they ask for. *)
Definition asks (rs : list (list key)) (ts : list Z) (xs : list (Z * outcome)) : Prop :=
  Forall2 (fun r x => classify r = Some x.2) rs xs /\ ts = xs.*1 /\ Forall (Forall str_arg) rs.

Context (cf : config) (E : env).
#[local] Instance processor : Protocol.Processor world := server_processor freeMemoryIfNeeded other cf E.

Lemma serve_ok : unrestricted cf E -> forall rs ts xs s V, asks rs ts xs -> Ready E s -> (forall j, 0 <= j < dblnum E -> abs E (dbs s) j = V j) ->
  answers_ok E xs (dictid s) V -> let r := answers E xs (dictid s) V in
  exists s', ProtocolProps.serve rs (s, ts) = Some (s', []) /\ Ready E s' /\ dictid s' = r.1.1 /\ out s' = out s ++ r.2 /\
    forall j, 0 <= j < dblnum E -> abs E (dbs s') j = r.1.2 j.
Proof.
  intros HU rs ts xs s V (Hc & -> & Hl). revert s V Hl. induction Hc as [|argv [t o] rs xs Hc Hcs IH]; intros s V Hl HR HV Hok.
  { exists s. cbn. rewrite app_nil_r. by split_and!. }
  apply Forall_cons in Hl as [Hl Hls]. cbn [answers_ok] in Hok. destruct Hok as [Ha Hok]. cbn [snd] in Hc. pose proof HR as [_ Hi]. pose proof (dok_id _ _ _ (inv_dbs _ _ _ Hi)) as Hid.
  destruct (process_ok cf (at_time E t) argv o s) as (s1 & H1 & H2 & H3 & H4 & H5); [by destruct HU | done | done | by apply Ready_time | by rewrite <- HV in Ha |].
  change (abs (at_time E t)) with (abs E) in *. change (dblnum (at_time E t)) with (dblnum E) in *. rewrite HV in * by done. cbn [answers].
  specialize (IH s1 (<[dictid s := (answer1 (at_time E t) o (dictid s) (V (dictid s))).1.2]> V) Hls). rewrite H3 in IH.
  destruct IH as (s' & R1 & R2 & R3 & R4 & R5); [by apply Ready_time in H2 | | done |].
  { intros j Hj. rewrite (H5 j Hj). case_decide; [subst; by rewrite fn_lookup_insert | rewrite fn_lookup_insert_ne by done; by apply HV]. }
  exists s'. cbn [ProtocolProps.serve Protocol.clientsArePaused Protocol.process processor server_processor]. rewrite fmap_cons. cbn [fst snd hd tl].
  change (mk_env (dbinum E) (dblnum E) (loading E) (is_slave E) t) with (at_time E t). rewrite H1. cbn [mbind option_bind Protocol.executed].
  split; [exact R1 |]. split_and!; try done. by rewrite R4, H4, app_assoc.
Qed.

(** ** The dispatcher keeps what the parser relies on *)

#[local] Instance jumper : Protocol.Worker world := server_worker other E.

Definition serves (m : M Protocol.effect) : Prop :=
  forall s e s', m s = Some (e, s') -> (Protocol.ok e = true \/ Protocol.e_close e = true) /\ Protocol.gone e = false.

Lemma serves_ret e : (Protocol.ok e = true \/ Protocol.e_close e = true) -> Protocol.gone e = false -> serves (ret e).
Proof. intros H1 H2 s e' s' [= <- _]. by split. Qed.

Lemma serves_bind {A} (m : M A) k : (forall a, serves (k a)) -> serves (bind m k).
Proof. intros Hk s e s'. unfold bind. destruct (m s) as [[a s1] |]; [|done]. apply Hk. Qed.

Lemma serves_panic : serves panic.
Proof. done. Qed.

Ltac serve := repeat match goal with
  | |- serves panic => apply serves_panic
  | |- serves (ret _) => apply serves_ret; [by auto | reflexivity]
  | |- serves (bind _ _) => apply serves_bind; intros ?
  | |- serves (if ?b then _ else _) => destruct b
  | |- serves (match ?x with _ => _ end) => destruct x
  end.

Lemma proc_serves E' cmd args : serves (proc other E' cmd args).
Proof. unfold proc. serve. Qed.

Lemma processCommand_serves E' argv : serves (processCommand cf E' argv).
Proof. unfold Dispatch.processCommand, refuse. destruct argv as [|a0 args]; [apply serves_panic |]. serve. apply proc_serves. Qed.

(** The server is a processor the parser can rely on: parser and dispatcher
    compose. *)
#[local] Instance server_laws : ProtocolProps.ProcessorLaws world.
Proof.
  split; intros argv w w' e.
  - cbn. destruct (Dispatch.processCommand _ _ _ _ _ _) as [[e1 s1] |] eqn:Hp; [|done]. intros [= <- <-]. by apply processCommand_serves in Hp.
  - cbn. destruct argv as [|a0 args]; [done |]. destruct (lookupCommand a0) as [[cmd |] |]; cbn [mbind option_bind]; [|discriminate | discriminate].
    destruct (proc _ _ _ _ _) as [[e1 s1] |] eqn:Hp; [|done]. intros [= <- <-]. by apply proc_serves in Hp as [_ Hg].
Qed.

Lemma server_parses_anything maxq evs (w : world) input : is_Some (Protocol.client_events maxq evs ProtocolProps.fresh_client w input) \/ ProtocolProps.processor_failed (W := world).
Proof. apply ProtocolProps.events_safe. right. split; cbn; auto; done || lia. Qed.

(** ** Read-only commands *)

Definition is_write (c : command) : bool :=
  match c with
  | GET _ | STRLEN _ | TYPE _ | TTL _ | PTTL _ | GETRANGE _ _ _ | GETBIT _ _ | BITCOUNT _ _ | BITPOS _ _ _ | EXISTS _ | MGET _ | SELECT _ | DBSIZE => false
  | _ => true
  end.

(** The table flags exactly the commands of the model that write. *)
Lemma write_flags : Forall (fun cmd => match handler (name cmd) handlers with
  | Some f => forall args c, f args = Some c -> has_flag cmd CMD_WRITE = is_write c
  | None => True end) redisCommandTable.
Proof.
  repeat (constructor; [first [exact I | intros args c Hf; destruct args as [|? [|? [|? [|]]]]; try discriminate Hf; injection Hf as <-; reflexivity] |]). constructor.
Qed.

Lemma read_keeps E' c id m : is_write c = false -> (spec E' c id m).1.2 = m.
Proof.
  assert (Hone : forall k (f : option entry -> option entry * list Z), (f (m !! k)).1 = m !! k -> (one k f m).1 = m).
  { intros k f Hf. unfold one. cbn. rewrite Hf. apply map_eq. intros j. destruct (decide (k = j)) as [-> |]; [by rewrite lookup_partial_alter_eq | by rewrite lookup_partial_alter_ne]. }
  destruct c; intros Hw; try discriminate Hw; cbn [spec one_spec fst snd]; try done; try (apply Hone).
  all: unfold get_spec, strlen_spec, type_spec, ttl_spec, getrange_spec, getbit_spec, bitcount_spec, bitpos_spec, with_offset, with_int, on_read.
  all: repeat case_match; reflexivity.
Qed.

Ltac refused := eexists; split; [|reflexivity]; by destruct (aof_err cf).

(** A known command with the right number of arguments is refused with a reply,
    or passes and is not a write to a read-only slave. *)
Lemma processCommand_cases a0 args cmd s : maxmemory cf = 0 -> strcaseeq a0 (bs "quit") = false -> lookupCommand a0 = Some (Some cmd) ->
  arity_ok cmd (zlen (a0 :: args)) = true ->
  (exists r, r <> [] /\ processCommand cf E (a0 :: args) s = Some (Protocol.executed, set_out (out s ++ r) s)) \/
  (processCommand cf E (a0 :: args) s = proc other E cmd args s /\ is_slave E && repl_slave_ro cf && negb (is_master cf) && has_flag cmd CMD_WRITE = false).
Proof.
  intros Hm Hq Hf Ha. unfold Dispatch.processCommand. rewrite Hq, (lookup_step a0 _ _ s Hf). clear Hf. unfold arity_ok in Ha. apply negb_true_iff in Ha. rewrite Ha, Hm.
  destruct (requirepass cf && _ && _ && _); [left; refused |]. destruct (needadmin cf _ && _ && _ && _); [left; refused |].
  cbn [Z.eqb negb]. unfold bind, ret. cbn [mbind option_bind]. destruct ((bgsave_err cf || _) && _ && _); [left; refused |].
  destruct (negb (is_slave E) && _ && _); [left; refused |]. destruct (is_slave E && repl_slave_ro cf && _ && _) eqn:Hro; [left; refused |].
  destruct (is_slave E && negb (repl_connected cf) && _ && _); [left; refused |]. destruct (loading E && _); [left; refused |]. destruct (lua_timedout cf && _); [left; refused |].
  right. split; reflexivity.
Qed.

Lemma handler_flag cmd f args c : cmd ∈ redisCommandTable -> handler (name cmd) handlers = Some f -> f args = Some c -> has_flag cmd CMD_WRITE = is_write c.
Proof. intros Hf Hh Hc. pose proof write_flags as H. rewrite Forall_forall in H. specialize (H cmd Hf). rewrite Hh in H. by apply (H args). Qed.

Lemma init_abs j : 0 <= j < dblnum E -> 1 <= dbinum E -> abs E (dbs (init_state E)) j = ∅.
Proof.
  intros Hj Hn. apply map_eq. intros k. pose proof (init_ready E Hn ltac:(lia)) as [_ HI]. apply (Inv_select E _ j) in HI; [|done].
  rewrite (abs_lookup E j _ k HI). destruct (pos_lookup E j k _ (inv_dbs _ _ _ HI)) as (d & Hd & _). rewrite (getcell_at E j k _ d Hd).
  apply lookup_replicate in Hd as [-> _]. unfold cell_of. cbn. by rewrite !lookup_empty.
Qed.

(** ** The guarantees *)

(** C1. The server is the abstract key space.  On a plain master without
    restrictions (no passwords, memory limit, persistence errors, required
    replicas, loading or script timeout), any stream of requests for the commands
    of the model (the string, bit and key commands, PING and ECHO, in any letter
    case), for unknown names and with wrong numbers of arguments, cut into reads
    of any sizes, is consumed to the last byte; the bytes replied are exactly the
    replies of the abstract key space, in order, and the databases end as it says.
    Names have no zero byte.  Excluded are QUIT and the commands outside the model,
    DECRBY by LLONG_MIN, whose negation overflows, and SETRANGE whose offset plus
    length exceeds LLONG_MAX.  Requests keep to the limits of the protocol: 1 to
    1024*1024 arguments of at most 512 MB; a database counted by DBSIZE has fewer
    than 2^63 keys. *)
Theorem server_refines maxq ns rs ts xs : unrestricted cf E -> 1 <= dbinum E -> 1 <= dblnum E -> 512 * 1024 * 1024 + 65536 <= maxq -> Forall (fun n => 1 <= n) ns ->
  (length (ProtocolProps.stream rs) <= length ns)%nat -> Forall ProtocolProps.request_ok rs -> asks rs ts xs -> answers_ok E xs 0 (fun _ => ∅) ->
  exists s', ProtocolProps.reads maxq ns ProtocolProps.fresh_client (init_state E, ts) (ProtocolProps.stream rs) = Some (Some ProtocolProps.fresh_client, (s', []), []) /\
    Ready E s' /\ out s' = (answers E xs 0 (fun _ => ∅)).2 /\ forall j, 0 <= j < dblnum E -> abs E (dbs s') j = (answers E xs 0 (fun _ => ∅)).1.2 j.
Proof.
  intros HU H1 H2 Hmax Hns Hlen Hok Hasks Ha. destruct (serve_ok HU rs ts xs (init_state E) (fun _ => ∅)) as (s' & Hs & HR & _ & Ho & Habs); [done | by apply init_ready | | done |].
  { intros j Hj. by apply init_abs. }
  exists s'. split; [|done]. destruct (ProtocolProps.fresh_sync rs) as (F1 & F2 & F3). by apply (ProtocolProps.reads_stream maxq ns rs).
Qed.

(** The commands with a handler in the model. *)
Definition modelled (cmd : redisCommand) : bool := isSome (handler (name cmd) handlers) || String.eqb (name cmd) "ping" || String.eqb (name cmd) "echo".

Lemma arity_exact cmd n : arity_ok cmd n = true -> 0 < arity cmd -> n = arity cmd.
Proof. unfold arity_ok. rewrite Z.gtb_ltb. intros H Hp. rewrite (proj2 (Z.ltb_lt _ _) Hp) in H. cbn [andb] in H. zbool. by symmetry. Qed.

(** A handler of the model accepts every number of arguments its arity allows,
    and a reading one asks nothing of them but that their number is an [int]. *)
Lemma handler_reads : Forall (fun cmd => match handler (name cmd) handlers with
  | Some f => forall a0 args m, arity_ok cmd (zlen (a0 :: args)) = true -> zlen args <= INT32_MAX -> Z.of_nat (size m) <= LLONG_MAX ->
      exists c, f args = Some c /\ (is_write c = false -> args_ok c m)
  | None => True end) redisCommandTable.
Proof.
  repeat (constructor; [first [exact I | intros a0 args m Ha Hn Hm; destruct args as [|? [|? [|? [|]]]]; try discriminate Ha;
    first [eexists; split; [reflexivity |]; intros Hw; first [discriminate Hw | exact I | exact Hn | exact Hm] | apply arity_exact in Ha; [|reflexivity]; cbn [arity length] in Ha; lia]] |]). constructor.
Qed.

Lemma echo_arity : Forall (fun cmd => String.eqb (name cmd) "echo" = true -> arity cmd = 2) redisCommandTable.
Proof. repeat (constructor; [intros H; first [discriminate H | reflexivity] |]). constructor. Qed.

Lemma read_reply E' c id m : is_write c = false -> (spec E' c id m).2 <> [].
Proof.
  destruct c; intros Hw; try discriminate Hw; cbn [spec one_spec fst snd one].
  all: unfold get_spec, strlen_spec, type_spec, ttl_spec, getrange_spec, getbit_spec, bitcount_spec, bitpos_spec, with_offset, with_int, on_read.
  all: repeat case_match; cbn [snd]; unfold on_string; repeat case_match; discriminate.
Qed.
(** What a request that touches no database does: the reply, and the state as
    it was but for counters and the reply buffer. *)
Definition frozen (s : state) (m : M Protocol.effect) : Prop :=
  exists e s' r, m s = Some (e, s') /\ r <> [] /\ out s' = out s ++ r /\ Ready E s' /\ forall j, 0 <= j < dblnum E -> abs E (dbs s') j = abs E (dbs s) j.

Lemma frozen_reply s m e r : Ready E s -> r <> [] -> m s = Some (e, set_out (out s ++ r) s) -> frozen s m.
Proof. intros HR Hr Hm. by exists e, (set_out (out s ++ r) s), r. Qed.

(** A command of the model not flagged as a write. *)
Lemma proc_frozen cmd a0 args s : cmd ∈ redisCommandTable -> modelled cmd = true -> has_flag cmd CMD_WRITE = false -> arity_ok cmd (zlen (a0 :: args)) = true ->
  Forall str_arg args -> zlen args <= INT32_MAX -> Z.of_nat (size (abs E (dbs s) (dictid s))) <= LLONG_MAX -> Ready E s -> frozen s (proc other E cmd args).
Proof.
  intros Hin Hmo Hw Ha Hl Hn Hm HR. pose proof handler_reads as Hh. rewrite Forall_forall in Hh. specialize (Hh cmd Hin).
  destruct (handler (name cmd) handlers) as [f |] eqn:Hf.
  - destruct (Hh a0 args _ Ha Hn Hm) as (c & Hc & Hok). rewrite (handler_flag cmd f args c Hin Hf Hc) in Hw.
    destruct (exec_ok E c s HR (Hok Hw)) as (s' & H1 & H2 & H3 & H4 & H5). exists Protocol.executed, s', (spec E c (dictid s) (abs E (dbs s) (dictid s))).2.
    split; [unfold proc; rewrite Hf, Hc; unfold bind; by rewrite H1 |]. split; [by apply read_reply |]. split; [done |]. split; [done |].
    intros j Hj. rewrite (H5 j Hj). case_decide; [|done]. subst j. by apply read_keeps.
  - assert (Hr : exists r, r <> [] /\ classify_proc cmd args = Some (Reply r)).
    { unfold modelled, classify_proc in *. rewrite Hf in *. cbn [isSome orb] in Hmo. destruct (String.eqb (name cmd) "ping"); [destruct args as [|? []]; eexists; (split; [|reflexivity]); discriminate |]. cbn [orb] in Hmo. rewrite Hmo.
      assert (He : arity cmd = 2) by (pose proof echo_arity as He; rewrite Forall_forall in He; by apply He). apply arity_exact in Ha; [|lia]. destruct args as [|a []]; cbn [length] in Ha; try lia. eexists; (split; [|reflexivity]); discriminate. }
    destruct Hr as (r & Hr & Hc). apply (frozen_reply _ _ Protocol.executed r); [done | done |]. by apply proc_reply.
Qed.

(** C14. A read-only slave never changes.  Whatever its passwords, persistence
    errors, replication state and timeouts, but without a memory limit (under one
    every command may evict keys), a non-empty request of a client that is not
    its master is answered and leaves every database as it was: QUIT, unknown
    names, names with a zero byte, wrong numbers of arguments, every command
    flagged as a write, modelled or not, and the reading commands of the model
    (string, bit and key commands, PING, ECHO).  Reading commands outside the
    model are excluded.  An argument holds at most 512 MB, their number is an
    [int] and the selected database has fewer than 2^63 keys. *)
Theorem readonly_slave_frozen a0 args s : is_slave E = true -> repl_slave_ro cf = true -> is_master cf = false -> maxmemory cf = 0 ->
  (forall cmd, lookupCommand a0 = Some (Some cmd) -> has_flag cmd CMD_WRITE = true \/ modelled cmd = true) ->
  Forall str_arg args -> zlen args <= INT32_MAX -> Z.of_nat (size (abs E (dbs s) (dictid s))) <= LLONG_MAX -> Ready E s ->
  exists e s' r, processCommand cf E (a0 :: args) s = Some (e, s') /\ r <> [] /\ out s' = out s ++ r /\ Ready E s' /\
    forall j, 0 <= j < dblnum E -> abs E (dbs s') j = abs E (dbs s) j.
Proof.
  intros Hs Hro Hma Hm Hmo Hl Hn Hsz HR. change (frozen s (processCommand cf E (a0 :: args))).
  destruct (strcaseeq a0 (bs "quit")) eqn:Hq; [by eapply (frozen_reply s _ _ shared_ok); [| |unfold Dispatch.processCommand; rewrite Hq] |].
  destruct (lookup_sound a0) as ([cmd |] & Hlk & Hin).
  - destruct (Hin cmd eq_refl) as [Hin' _]. specialize (Hmo _ Hlk). destruct (arity_ok cmd (zlen (a0 :: args))) eqn:Ha.
    + destruct (processCommand_cases a0 args cmd s Hm Hq Hlk Ha) as [(r & Hr & Hp) | [Hp Hw]]; clear Hlk Hin; [by apply (frozen_reply s _ Protocol.executed r) |].
      rewrite Hs, Hro, Hma in Hw. cbn [andb negb] in Hw. rewrite Hw in Hmo. destruct Hmo as [? | Hmo]; [done |].
      unfold frozen. rewrite Hp. by apply (proc_frozen cmd a0).
    + apply (frozen_reply s _ Protocol.executed (r_arity (name cmd))); [exact HR | discriminate |].
      unfold Dispatch.processCommand. rewrite Hq, (lookup_step a0 _ _ s Hlk). unfold arity_ok in Ha. apply negb_false_iff in Ha. rewrite Ha. apply replies_executed, replies_errorf.
  - apply (frozen_reply s _ Protocol.executed (r_errorf (bs "unknown command '" ++ cstr a0 ++ bs "'"))); [exact HR | discriminate |].
    unfold Dispatch.processCommand. rewrite Hq, (lookup_step a0 _ _ s Hlk). apply replies_executed, replies_errorf.
Qed.

End Server.
(** ** A session *)

Module Example_server.

Definition E0 : env := mk_env 4 2 false false 1000.
Definition cf0 : config := mk_config false false 0 (fun _ => false) 0 false None false true true true false false.
Definition session : list (list key) := [[bs "SET"; bs "x"; bs "1"]; [bs "get"; bs "x"]; [bs "GET"]; [bs "nosuch"]].
Definition asked : list (Z * outcome) :=
  [(1000, Run (SET (bs "x") (bs "1") [])); (1001, Run (GET (bs "x"))); (1002, Reply (r_arity "get")); (1003, Reply (r_errorf (bs "unknown command 'nosuch'")))].

Lemma one_arg : str_arg (bs "1").
Proof. split; [repeat constructor; lia | done]. Qed.

Lemma session_args : Forall (Forall str_arg) session.
Proof. repeat constructor; cbn; try lia; done. Qed.

Lemma server_refines_witness :
  exists s', @ProtocolProps.reads world (server_processor (ret true) (fun _ _ _ => panic) cf0 E0) 1073741824 (replicate 200 5) ProtocolProps.fresh_client
      (init_state E0, [1000; 1001; 1002; 1003]) (ProtocolProps.stream session) = Some (Some ProtocolProps.fresh_client, (s', []), []) /\
    out s' = (answers E0 asked 0 (fun _ => ∅)).2.
Proof.
  destruct (server_refines (ret true) (fun _ _ _ => panic) cf0 E0 1073741824 (replicate 200 5) session [1000; 1001; 1002; 1003] asked) as (s' & H1 & _ & H2 & _).
  - by split.
  - cbn. lia.
  - cbn. lia.
  - lia.
  - apply Forall_replicate. lia.
  - vm_compute. lia.
  - repeat constructor; cbn; lia.
  - split; [repeat constructor; vm_compute; reflexivity |]. split; [done | exact session_args].
  - cbn. split; [exact one_arg | done].
  - exists s'. by split.
Defined.

Definition slave : env := mk_env 4 2 false true 1000.

Lemma readonly_slave_frozen_witness :
  exists e s' r, processCommand (ret true) (fun _ _ _ => panic) cf0 slave [bs "SADD"; bs "x"; bs "1"] (init_state slave) = Some (e, s') /\
    r <> [] /\ out s' = r /\ forall j, 0 <= j < 2 -> abs slave (dbs s') j = abs slave (dbs (init_state slave)) j.
Proof.
  destruct (readonly_slave_frozen (ret true) (fun _ _ _ => panic) cf0 slave (bs "SADD") [bs "x"; bs "1"] (init_state slave)) as (e & s' & r & H1 & H2 & H3 & _ & H4).
  - reflexivity.
  - reflexivity.
  - reflexivity.
  - reflexivity.
  - intros cmd Hc. left. assert (Hs : lookupCommand (bs "SADD") = Some (Some (mk_cmd "sadd" (-3) "wmF"))) by (vm_compute; reflexivity). rewrite Hs in Hc. by injection Hc as <-.
  - repeat constructor; cbn; try lia; done.
  - cbn. unfold INT32_MAX. lia.
  - vm_compute. discriminate.
  - apply init_ready; cbn; lia.
  - exists e, s', r. by split_and!.
Defined.

End Example_server.
End Server.
